(* ===== verification/_CoqProject ===== *)
-Q . S2P
Prelude.v
JsString.v
JsNumber.v
JsObject.v
Json.v
AudioSettings.v
Permissions.v
Models.v
Messages.v
ServerLists.v
Channels.v
ChannelGroups.v
Roles.v
Members.v
Federation.v
Servers.v
Dms.v
Friends.v
Blocks.v
Reactions.v
Pins.v
ReadState.v
NotificationSettings.v
Badge.v
StreamSettings.v
Keybinds.v
Typing.v
VoiceParticipants.v
Crypto.v
Base64.v
Aad.v
Primitives.v
ChannelKeys.v
E2ee.v
SafetyNumber.v
Identity.v
KeyStorage.v
Session.v
KeyMonitor.v
TilingTree.v
DropZone.v
TilingStore.v
Emojis.v
Sounds.v
PermissionOverrides.v
GatewayStatus.v
Presence.v
Auth.v
DecryptStore.v
Search.v
SearchIndex.v
Connection.v
Notifier.v
Client.v
Dispatch.v
DispatchFacts.v
Spokes.v
BlobUrls.v
Retry.v
MediaQueue.v
Programs.v
Verification.v
KeyServer.v
KeyPrograms.v
KeyAgreement.v
KeyDistribution.v
GatewayKeys.v
Invites.v
App.v
Calls.v
ApiCalls.v
CallFacts.v
Renewal.v
Account.v
FederationCalls.v
Media.v
WireFormat.v
Composer.v
VoiceCalls.v
Views.v
