(* ===== verification/Prelude.v ===== *)
(** * A verification library for the Meza client

    Meza is an end-to-end-encrypted chat program.  This development models its
    TypeScript client, [client/packages/core/src] (paths below are relative to it unless
    they begin with [ui/]) with the window manager of [client/packages/ui/src], and
    proves what makes its parts correct, alone and together.

    ** The program

    The client keeps what it knows in stores (zustand modules under [store/]), plain
    records changed by named actions.  One WebSocket, the gateway ([gateway/gateway.ts]),
    pushes events, and [dispatch] turns each into actions on the stores; calls to the
    server ([api/]) do the same with their answers.  Message texts arrive encrypted: the
    crypto modules ([crypto/]) hold the identity of the user and the keys of the
    channels, and write plaintexts into the message store when they have them.  Search
    ([search/]) asks a local index and the server; the badge, the notifications and the
    sounds follow the stores; the window manager ([tiling/], [ui/stores/tiling.ts])
    arranges panes in a tree.  A server may live on another instance, to which the client
    keeps connections and tokens of its own; what the user types becomes text, keys and
    uploads in the composer; voice calls run in a LiveKit room whose key is derived from
    the channel's.

    ** Conventions

    - Each file models one module of the source (or a few that belong together), with
      the source's names.  A store's state is a record; an action is a function on it;
      [Store] (in [Prelude]) packs an initial state and the actions, [run] runs a list of
      actions, and [reachable] is rule induction over them.  An operation that awaits is
      cut at its awaits: each stage is a step of its own, and what happens in between is
      whatever other steps one likes, so that theorems about reachable states speak of
      every interleaving.
    - A [Record<string, T>] or [Map] is a [gmap]; where the order of iteration matters, an
      association list ([JsObject]).  Counters, times, versions and protobuf integers are
      [Z] (they stay far below 2^53, and [bigint] masks are unbounded in the source too);
      ratios, volumes and coordinates are IEEE doubles ([JsNumber], by [SpecFloat]).
      Strings are lists of code units ([JsString]).  Octets are integers from 0 to 255;
      where the source shares or wipes a [Uint8Array], buffers have addresses in a heap.
    - What throws returns [result]; [null] and [undefined] are [None].
    - Code that is not the client's is a parameter with the facts the client relies on as
      laws: the curve, hash and cipher libraries ([Crypto], with a toy instance that
      satisfies all of its laws and on which the witnesses compute), JSON's text
      ([stringify], [parse]), collation ([localeCompare]), the search index, randomness
      and the clock, which are arguments.
    - Fuel appears only where the source's loop is bounded by a number it is given (key
      rotation, retries, the pages of a backfill) or where the input bounds it (matching a
      pattern against a text, paging through members); the theorems show that it is never
      what ends the loop, or that ending it there is what the source does.

    ** Files

    Foundations: [Prelude] (the [Store] class, lemmas on lists, maps and sorting),
    [JsString], [JsNumber], [JsObject], [Json], [Base64], [Models] (the protobuf records).

    Stores, each with its well-formedness invariant and the behaviour of its actions:
    [Messages], [Channels], [ChannelGroups], [Roles], [Members] (over the lemmas of
    [ServerLists]), [Federation], [Servers], [Dms], [Friends], [Blocks], [Reactions]
    (which refines a set of triples), [Pins], [ReadState], [Emojis], [Sounds],
    [PermissionOverrides], [Presence], [Auth], [GatewayStatus], [Typing],
    [VoiceParticipants], and the persisted settings [AudioSettings], [StreamSettings],
    [NotificationSettings], [Keybinds].  [Permissions] has the bit masks; [Badge] follows
    two stores with a debounced update.

    Cryptography: [Crypto] (the interface), [Aad] (the encoding of additional data is
    injective), [Primitives] (envelopes and payloads), [ChannelKeys] (the versioned cache,
    fetching, wrapping, rotation), [E2ee] (messages and files: round trips and
    authenticity), [Identity] (keys from a password or a phrase, recovery, transfer to
    another device), [KeyStorage] (the cache on disk and in invites), [Session] (login,
    reload, other tabs, logout, as a state machine), [KeyMonitor], [SafetyNumber].

    The gateway: [Connection] (the socket, the handshake, reconnecting), [Client] (the
    product of the stores), [Dispatch] (every handler), [DispatchFacts] (what the whole
    does, the invariant of all the stores together first), [Notifier] (when a sound or a
    notification is due), [DecryptStore] (the three racing decryptions of a message),
    [GatewayKeys] (the tasks that dispatch starts: waiting for keys, decrypting in the
    background, handing keys to those who join).

    Search: [Search] (query, merging, generations) and [SearchIndex] (the worker's
    ranking and the backfill).

    The window manager: [TilingTree] (the tree and its operations, against the in-order
    list of panes), [TilingStore] (the store and its invariant), [DropZone].

    Requests: [Programs] (functions that await as programs of a small language, several of
    which run on one page, with the rules for interleaving them), [App] (the state of a
    page, the requests and the interceptor that signs them and renews the tokens), [Calls]
    and [ApiCalls] (the functions of [api/chat.ts] and the other calls of the API; the
    class [Environment] is what its surroundings give the program), [CallFacts] (what they do
    when they succeed and when they fail; invites that hand on keys), [Invites] (links and
    their secrets), [Renewal] (one renewal at a time), [Account] (signing in
    and out), [MediaQueue] (the limit of downloads), [Media] (files, encrypted and sent),
    [FederationCalls] (the calls to other instances), [Verification] (badges over the
    key monitor).

    Keys between clients: [KeyServer] (the key service of the server, in Go), [KeyPrograms]
    (the client's operations on channel keys as programs), [KeyAgreement] (any number of
    clients agree) and [KeyDistribution] (paging through the members of a server; the fuel
    [max_pages] is more pages than the server has).

    Federation: [Spokes] (the gateways to other instances, and what such an instance can
    reach).

    The user's side: [WireFormat] (the composer's document and its text), [Composer]
    (typing, files, drafts, commands, sending), [VoiceCalls] (joining, hanging up, muting
    and deafening, over a class for the LiveKit room) and [Views] (what the views compute
    from the stores: groups of joins, members by role, the editor of permissions).

    Small machines: [BlobUrls] (reference counting of object URLs) and [Retry].

    Where a file has both the model of a part and what is proved of it, the definitions
    come first.

    ** What the theorems show

    - Invariants over everything that can happen: the stores under dispatch
      ([client_well_formed]), the message index, the tiling tree, the connections to the
      home server and to other instances, the session, the object URLs, the federation
      index, the composer's limits, the keys that several clients hold.
    - Delivery end to end: what is typed is what is sent, what is sent is what every member
      reads, whatever races with it ([composer_roundtrip], [sent_text_read], [delivery]);
      files, stored keys, invites and device recovery likewise; nothing unauthenticated
      is accepted.
    - What an event does and what it leaves alone: new messages and counters, second
      deliveries, being removed, malformed handshakes, alerts, events of other instances.
    - What a call of the API comes to, however calls are interleaved: a failure leaves the
      data alone except in the calls that [calls_fail_cleanly] names, tokens are renewed
      once, what a login brings and what a logout forgets; a voice call is connected or
      reset.
    - Progress: reconnecting is always armed or has given up after ten attempts, typing
      indicators end, retries, backfills and the distribution of keys end, queued
      downloads all finish.
    - Where the code does not do what it means to, a theorem or a lemma states what it
      does.  These are listed among the findings of the manifest.

    ** Not modelled

    React components apart from the parts named above (they render the stores), the
    desktop, mobile and web shells, canvas and audio processing, toasts, push messages and
    the playing of sounds: effects of the browser with little logic of their own.  The
    tables of emojis and small formatting helpers.  The generated protobuf code, beyond
    the fields that are read.  The server is another program in Go: its answers are
    arguments of the model, except for the key service, whose arbitration of key versions
    is what the agreement of clients rests on.  The LiveKit room, the editor library, the
    index of the search worker and the cipher libraries are interfaces with laws.
    IndexedDB's and local storage's failure modes, except where the source handles them; a
    browser without [BroadcastChannel]; addresses of instances that are no URLs.  In
    calls, the gains of shared screens and of the soundboard when someone joins.
    Strings beyond ASCII in case conversion and white space. *)

From Stdlib Require Export ZArith Lia.
From stdpp Require Export base gmap strings list fin_maps sorting relations.

#[export] Set Default Goal Selector "!".

Declare Scope meza_scope.
Delimit Scope meza_scope with meza.

(** ** Tactics and hint databases *)

Create HintDb meza.
Create HintDb meza_lookup.

(** Case analysis on every decision and option the goal still matches on. *)
Ltac split_ifs :=
  repeat first [ case_decide | case_bool_decide | case_match ]; simplify_eq/=; try done.

(** The routine end of a store proof: unfold a lookup in an updated map. *)
Ltac map_crush :=
  intros; simplify_map_eq; eauto with meza; try done.

(** Split the goal on whether two keys are equal and simplify the lookups. *)
Tactic Notation "by_key" constr(k) constr(k') :=
  destruct (decide (k = k')) as [->|?]; simplify_map_eq.

(** ** Results of fallible code: a value, or the error that is thrown *)

Inductive result (E A : Type) : Type :=
  | Ok (a : A)
  | Throw (e : E).
Arguments Ok {E A} a.
Arguments Throw {E A} e.

Definition result_bind {E A B} (r : result E A) (k : A → result E B) : result E B :=
  match r with Ok a => k a | Throw e => Throw e end.

Notation "'let!' x ':=' r 'in' k" := (result_bind r (λ x, k))
  (at level 10, x binder, r at level 100, k at level 200) : meza_scope.

Definition result_opt {E A} (r : result E A) : option A :=
  match r with Ok a => Some a | Throw _ => None end.

Lemma result_bind_Ok {E A B} (r : result E A) (k : A → result E B) b :
  result_bind r k = Ok b ↔ ∃ a, r = Ok a ∧ k a = Ok b.
Proof. destruct r; naive_solver. Qed.

Lemma exists_Some_eq {A} (a : A) (P : A → Prop) : (∃ x, Some a = Some x ∧ P x) ↔ P a.
Proof. naive_solver. Qed.
Lemma exists_None_eq {A} (P : A → Prop) : (∃ x, None = Some x ∧ P x) ↔ False.
Proof. naive_solver. Qed.

(** JavaScript truthiness of a [string | null | undefined]. *)
Definition truthy (o : option string) : bool :=
  match o with Some s => negb (bool_decide (s = "")) | None => false end.

(** The key an optional chain [x?.f] is compared with, read through an option. *)
Definition or_default {A} (d : A) (o : option A) : A :=
  match o with Some a => a | None => d end.

(** [a < b] on JavaScript strings: lexicographic on code units. *)
Definition str_ltb (a b : string) : bool := String.ltb a b.

(** ** Stores

    A zustand store is a state and a set of actions; every action runs its immer
    producer to completion before another one starts, so a run of the store is
    a sequence of actions. *)

Class Store (St Op : Type) := {
  initial : St;
  exec : Op → St → St;
  (** What the callers and the server guarantee of an action's arguments. *)
  admissible : Op → St → Prop;
}.

Section store.
Context {St Op : Type} `{!Store St Op}.

(** One action of the store, and the states its runs reach. *)
Inductive store_step : St → St → Prop :=
  | store_step_exec o s : admissible o s → store_step s (exec o s).

Definition reachable (s : St) : Prop := rtc store_step initial s.

Definition run (ops : list Op) (s : St) : St := foldl (λ s o, exec o s) s ops.

Fixpoint admissible_run (ops : list Op) (s : St) : Prop :=
  match ops with
  | [] => True
  | o :: ops => admissible o s ∧ admissible_run ops (exec o s)
  end.

(** Rule induction: a property of the initial state that every admissible
    action preserves holds in every reachable state. *)
Lemma reachable_invariant (I : St → Prop) :
  I initial → (∀ o s, admissible o s → I s → I (exec o s)) →
  ∀ s, reachable s → I s.
Proof.
  intros Hinit Hstep s Hs. unfold reachable in Hs.
  revert s Hs. apply rtc_ind_r; [done|]. intros s1 s2 _ [o s' Hok]; auto.
Qed.

Lemma reachable_initial : reachable initial.
Proof. constructor. Qed.
Lemma reachable_exec o s : admissible o s → reachable s → reachable (exec o s).
Proof. intros Hok Hs. eapply rtc_r; [exact Hs|]. by constructor. Qed.
Lemma reachable_run ops : admissible_run ops initial → reachable (run ops initial).
Proof.
  assert (Hgen : ∀ ops s, reachable s → admissible_run ops s → reachable (run ops s)).
  { clear ops. intros ops. induction ops as [|o ops IH]; intros s Hs; [done|].
    intros [Ho Hops]. apply IH; [by apply reachable_exec|done]. }
  apply Hgen, reachable_initial.
Qed.
End store.

#[export] Hint Resolve reachable_initial reachable_exec : meza.

(** ** Lists of records with a key

    The stores keep arrays of records that they search by one field: [some],
    [find], [findIndex], [filter], and [splice] at a found index. *)

Section keyed.
Context {A K : Type} `{Countable K} (key : A → K).
Implicit Types (l : list A) (k : K).

(** [l.some((x) => x.key === k)] *)
Definition has_key k l : bool := bool_decide (k ∈ key <$> l).

(** [l.find((x) => x.key === k)] *)
Definition find_key k l : option A := snd <$> list_find (λ x, key x = k) l.

(** [l.findIndex((x) => x.key === k)], with [None] for [-1] *)
Definition index_key k l : option nat := fst <$> list_find (λ x, key x = k) l.

(** [l.filter((x) => x.key !== k)] *)
Definition without k l : list A := filter (λ x, key x ≠ k) l.

(** [const i = l.findIndex(..); if (i !== -1) l[i] = x] *)
Definition replace_key k (x : A) l : list A :=
  match index_key k l with Some i => <[i := x]> l | None => l end.

(** [const i = l.findIndex(..); if (i !== -1) l.splice(i, 1)] *)
Definition splice_key k l : list A :=
  match index_key k l with Some i => delete i l | None => l end.

(** [const x = l.find(..); if (x) mutate(x)] *)
Definition modify_key k (f : A → A) l : list A :=
  match index_key k l with Some i => alter f i l | None => l end.

(** Rebuilding a lookup table: [for (const x of l) table[x.key] = x] *)
Definition build_index l : gmap K A :=
  foldl (λ m x, <[key x := x]> m) ∅ l.

(** *** Equations over cons *)

Lemma has_key_true k l : has_key k l = true ↔ ∃ x, x ∈ l ∧ key x = k.
Proof.
  unfold has_key. rewrite bool_decide_eq_true, list_elem_of_fmap. naive_solver.
Qed.
Lemma has_key_false k l : has_key k l = false ↔ k ∉ key <$> l.
Proof. unfold has_key. by rewrite bool_decide_eq_false. Qed.

Lemma find_key_nil k : find_key k [] = None.
Proof. done. Qed.
Lemma find_key_cons k x l :
  find_key k (x :: l) = if decide (key x = k) then Some x else find_key k l.
Proof.
  unfold find_key; simpl. destruct (decide (key x = k)); [done|].
  by destruct (list_find _ l) as [[]|].
Qed.
Lemma index_key_cons k x l :
  index_key k (x :: l) = if decide (key x = k) then Some 0 else S <$> index_key k l.
Proof.
  unfold index_key; simpl. destruct (decide (key x = k)); [done|].
  by destruct (list_find _ l) as [[]|].
Qed.
Lemma replace_key_cons k y x l :
  replace_key k y (x :: l) = if decide (key x = k) then y :: l else x :: replace_key k y l.
Proof.
  unfold replace_key. rewrite index_key_cons. case_decide; [done|].
  by destruct (index_key k l).
Qed.
Lemma splice_key_cons k x l :
  splice_key k (x :: l) = if decide (key x = k) then l else x :: splice_key k l.
Proof.
  unfold splice_key. rewrite index_key_cons. case_decide; [done|].
  by destruct (index_key k l).
Qed.
Lemma modify_key_cons k f x l :
  modify_key k f (x :: l) = if decide (key x = k) then f x :: l else x :: modify_key k f l.
Proof.
  unfold modify_key. rewrite index_key_cons. case_decide; [done|].
  by destruct (index_key k l).
Qed.
Lemma without_cons k x l :
  without k (x :: l) = if decide (key x = k) then without k l else x :: without k l.
Proof.
  unfold without. rewrite filter_cons. repeat case_decide; naive_solver.
Qed.

(** *** What is found *)

Lemma find_key_Some_inv k l x : find_key k l = Some x → x ∈ l ∧ key x = k.
Proof.
  induction l as [|y l IH]; [done|]. rewrite find_key_cons.
  case_decide; intros; simplify_eq; set_solver.
Qed.
Lemma find_key_None k l : find_key k l = None ↔ k ∉ key <$> l.
Proof.
  induction l as [|y l IH]; [set_solver|]. rewrite find_key_cons, fmap_cons.
  case_decide; set_solver.
Qed.
Lemma index_key_None k l : index_key k l = None ↔ k ∉ key <$> l.
Proof.
  rewrite <-find_key_None. unfold index_key, find_key.
  by destruct (list_find _ l).
Qed.
Lemma find_key_Some k l x :
  NoDup (key <$> l) → find_key k l = Some x ↔ x ∈ l ∧ key x = k.
Proof.
  intros Hnd. split; [apply find_key_Some_inv|]. intros [Hx Hk].
  induction l as [|y l IH]; [set_solver|].
  rewrite fmap_cons, NoDup_cons in Hnd. rewrite find_key_cons. case_decide.
  - apply elem_of_cons in Hx as [->|Hx]; [done|]. set_solver.
  - apply IH; [tauto|set_solver].
Qed.
Lemma has_key_find k l : has_key k l = true ↔ is_Some (find_key k l).
Proof.
  rewrite has_key_true. split.
  - intros (x & Hx & Hk). destruct (find_key k l) eqn:E; [eauto|].
    apply find_key_None in E. set_solver.
  - intros [x ?%find_key_Some_inv]. naive_solver.
Qed.
Lemma find_key_app k l1 l2 :
  find_key k (l1 ++ l2) =
    match find_key k l1 with Some x => Some x | None => find_key k l2 end.
Proof.
  induction l1 as [|y l1 IH]; [done|]; simpl. rewrite !find_key_cons. by case_decide.
Qed.
Lemma find_key_without k k' l :
  find_key k (without k' l) = if decide (k = k') then None else find_key k l.
Proof.
  induction l as [|y l IH]; [by case_decide|].
  rewrite without_cons. repeat case_decide; subst; rewrite ?find_key_cons, ?IH;
    repeat case_decide; naive_solver.
Qed.

(** *** Absent keys *)

Lemma replace_key_absent k x l : k ∉ key <$> l → replace_key k x l = l.
Proof. unfold replace_key. by intros ->%index_key_None. Qed.
Lemma splice_key_absent k l : k ∉ key <$> l → splice_key k l = l.
Proof. unfold splice_key. by intros ->%index_key_None. Qed.
Lemma modify_key_absent k f l : k ∉ key <$> l → modify_key k f l = l.
Proof. unfold modify_key. by intros ->%index_key_None. Qed.
Lemma without_absent k l : k ∉ key <$> l → without k l = l.
Proof.
  induction l as [|y l IH]; [done|]. rewrite fmap_cons, without_cons.
  case_decide; [set_solver|]. intros ?. f_equal. set_solver.
Qed.

(** *** Keys of the result: uniqueness is kept by every list operation *)

Lemma without_keys k l : key <$> without k l = filter (.≠ k) (key <$> l).
Proof.
  induction l as [|y l IH]; [done|]. rewrite without_cons, fmap_cons, filter_cons.
  repeat case_decide; rewrite ?fmap_cons, ?IH; naive_solver.
Qed.
Lemma replace_key_keys k x l : key x = k → key <$> replace_key k x l = key <$> l.
Proof.
  intros Hk. induction l as [|y l IH]; [done|]. rewrite replace_key_cons.
  case_decide; rewrite !fmap_cons; congruence.
Qed.
Lemma modify_key_keys k f l :
  (∀ x, key x = k → key (f x) = k) → key <$> modify_key k f l = key <$> l.
Proof.
  intros Hf. induction l as [|y l IH]; [done|]. rewrite modify_key_cons.
  case_decide; rewrite !fmap_cons; f_equal; auto. naive_solver.
Qed.
Lemma splice_key_without k l : NoDup (key <$> l) → splice_key k l = without k l.
Proof.
  induction l as [|y l IH]; [done|]. rewrite fmap_cons, NoDup_cons.
  intros [Hy Hnd]. rewrite splice_key_cons, without_cons. case_decide; subst.
  - by rewrite without_absent.
  - by rewrite IH.
Qed.
Lemma NoDup_without k l : NoDup (key <$> l) → NoDup (key <$> without k l).
Proof. rewrite without_keys. by apply NoDup_filter. Qed.
Lemma NoDup_splice k l : NoDup (key <$> l) → NoDup (key <$> splice_key k l).
Proof. intros ?. rewrite splice_key_without by done. by apply NoDup_without. Qed.
Lemma NoDup_replace k x l :
  key x = k → NoDup (key <$> l) → NoDup (key <$> replace_key k x l).
Proof. intros ?. by rewrite replace_key_keys. Qed.
Lemma NoDup_modify k f l :
  (∀ x, key x = k → key (f x) = k) →
  NoDup (key <$> l) → NoDup (key <$> modify_key k f l).
Proof. intros ?. by rewrite modify_key_keys. Qed.
Lemma NoDup_push x l :
  has_key (key x) l = false → NoDup (key <$> l) → NoDup (key <$> (l ++ [x])).
Proof.
  rewrite has_key_false, fmap_app. intros ??. apply NoDup_app.
  split; [done|]. split; [set_solver|]. apply NoDup_singleton.
Qed.
Lemma NoDup_unshift x l :
  has_key (key x) l = false → NoDup (key <$> l) → NoDup (key <$> (x :: l)).
Proof. rewrite has_key_false, fmap_cons. intros ??. by apply NoDup_cons. Qed.

Lemma NoDup_filter_keys (P : A → Prop) `{!∀ x, Decision (P x)} l :
  NoDup (key <$> l) → NoDup (key <$> filter P l).
Proof.
  induction l as [|y l IH]; [done|]. rewrite fmap_cons, NoDup_cons, filter_cons.
  intros [Hy Hnd]. case_decide; [|by apply IH]. rewrite fmap_cons, NoDup_cons.
  split; [|by apply IH]. contradict Hy.
  apply list_elem_of_fmap in Hy as (z & -> & Hz). apply list_elem_of_filter in Hz.
  apply list_elem_of_fmap. naive_solver.
Qed.
Lemma NoDup_drop_keys n l : NoDup (key <$> l) → NoDup (key <$> drop n l).
Proof.
  rewrite <-(take_drop n l) at 1. rewrite fmap_app. by intros (_ & _ & ?)%NoDup_app.
Qed.
Lemma find_key_filter (P : K → Prop) `{!∀ k, Decision (P k)} k l :
  find_key k (filter (λ x, P (key x)) l) = if decide (P k) then find_key k l else None.
Proof.
  induction l as [|y l IH]; [by case_decide|]. rewrite filter_cons.
  repeat case_decide; rewrite ?find_key_cons, ?IH; repeat case_decide; naive_solver.
Qed.
Lemma find_key_drop n k l :
  NoDup (key <$> l) →
  find_key k (drop n l) = if decide (k ∈ key <$> take n l) then None else find_key k l.
Proof.
  intros Hnd. rewrite <-(take_drop n l) in Hnd. rewrite fmap_app in Hnd.
  apply NoDup_app in Hnd as (Hnd1 & Hdis & Hnd2). case_decide as Hk.
  - apply find_key_None. auto.
  - rewrite <-(take_drop n l) at 2. rewrite find_key_app.
    by apply find_key_None in Hk as ->.
Qed.
Lemma find_key_modify k k' f l :
  (∀ x, key x = k → key (f x) = k) →
  find_key k' (modify_key k f l) =
    if decide (k' = k) then f <$> find_key k l else find_key k' l.
Proof.
  intros Hf. induction l as [|y l IH]; [by case_decide|].
  rewrite modify_key_cons. repeat case_decide; subst; rewrite ?find_key_cons;
    repeat case_decide; naive_solver.
Qed.
Lemma lookup_delete_all {A' B} (f : A' → K) (xs : list A') (m : gmap K B) k :
  foldl (λ m x, delete (f x) m) m xs !! k =
    if decide (k ∈ f <$> xs) then None else m !! k.
Proof.
  revert m. induction xs as [|x xs IH]; intros m; cbn [foldl]; [done|].
  - rewrite IH, fmap_cons. destruct (decide (k = f x)) as [->|Hne].
    + rewrite (decide_True (P := f x ∈ f x :: _)) by by apply elem_of_cons; left.
      case_decide; [done|]. by simplify_map_eq.
    + rewrite lookup_delete_ne by done.
      repeat case_decide; rewrite ?elem_of_cons in *; naive_solver.
Qed.

Lemma has_key_without k k' l :
  has_key k (without k' l) = negb (bool_decide (k = k')) && has_key k l.
Proof.
  apply eq_bool_prop_intro. unfold has_key.
  rewrite andb_True, negb_True, !bool_decide_spec, without_keys, list_elem_of_filter.
  naive_solver.
Qed.
Lemma elem_of_without x k l : x ∈ without k l ↔ key x ≠ k ∧ x ∈ l.
Proof. unfold without. by rewrite list_elem_of_filter. Qed.

Lemma find_key_replace k k' x l :
  key x = k →
  find_key k' (replace_key k x l) =
    if decide (k' = k) then (if has_key k l then Some x else None) else find_key k' l.
Proof.
  intros Hx. induction l as [|y l IH].
  - by case_decide.
  - rewrite replace_key_cons. unfold has_key in *. rewrite fmap_cons.
    repeat case_decide; rewrite ?find_key_cons; repeat case_decide;
      repeat case_bool_decide; rewrite ?elem_of_cons in *; subst; naive_solver.
Qed.

(** *** The index of a list with unique keys answers [find] *)

Lemma build_index_lookup_gen l (m : gmap K A) k :
  foldl (λ m x, <[key x := x]> m) m l !! k =
    match find_key k (reverse l) with Some x => Some x | None => m !! k end.
Proof.
  revert m. induction l as [|y l IH]; intros m; [done|]; simpl.
  rewrite IH, reverse_cons, find_key_app, find_key_cons, find_key_nil.
  destruct (find_key k (reverse l)); [done|]. case_decide; subst; by simplify_map_eq.
Qed.
Lemma find_key_rev k l : NoDup (key <$> l) → find_key k (reverse l) = find_key k l.
Proof.
  intros Hnd. destruct (find_key k l) as [x|] eqn:E.
  - apply find_key_Some_inv in E. apply find_key_Some.
    + by rewrite reverse_Permutation.
    + by rewrite reverse_Permutation.
  - rewrite find_key_None in E |- *. by rewrite reverse_Permutation.
Qed.
Lemma build_index_lookup l k :
  NoDup (key <$> l) → build_index l !! k = find_key k l.
Proof.
  intros. unfold build_index. rewrite build_index_lookup_gen, find_key_rev by done.
  destruct (find_key k l); [done|]. apply lookup_empty.
Qed.
Lemma build_index_Some_inv l k x : build_index l !! k = Some x → key x = k ∧ x ∈ l.
Proof.
  unfold build_index. rewrite build_index_lookup_gen, lookup_empty.
  destruct (find_key k (reverse l)) eqn:E; intros; simplify_eq.
  apply find_key_Some_inv in E as [Hin ?]. by rewrite reverse_Permutation in Hin.
Qed.
Lemma build_index_None l k :
  build_index l !! k = None ↔ k ∉ key <$> l.
Proof.
  unfold build_index. rewrite build_index_lookup_gen, lookup_empty.
  transitivity (find_key k (reverse l) = None).
  - by destruct (find_key k (reverse l)).
  - by rewrite find_key_None, reverse_Permutation.
Qed.
End keyed.

#[export] Hint Resolve NoDup_filter_keys NoDup_drop_keys : meza.
#[export] Hint Resolve NoDup_without NoDup_splice NoDup_replace NoDup_modify
  NoDup_push NoDup_unshift : meza.
#[export] Hint Resolve NoDup_nil_2 : meza.

Lemma Forall_sublist_of {A} (P : A → Prop) l1 l2 :
  l1 `sublist_of` l2 → Forall P l2 → Forall P l1.
Proof. induction 1; inversion 1; subst; auto. Qed.
Lemma StronglySorted_sublist_of {A} (R : relation A) l1 l2 :
  l1 `sublist_of` l2 → StronglySorted R l2 → StronglySorted R l1.
Proof.
  induction 1; inversion 1; subst; auto. constructor; [auto|]. by eapply Forall_sublist_of.
Qed.

Lemma filter_all {A} (P : A → Prop) `{!∀ x, Decision (P x)} (l : list A) :
  Forall P l → filter P l = l.
Proof.
  induction 1 as [|x l Hx _ IH]; [done|]. rewrite filter_cons, decide_True by done.
  by rewrite IH.
Qed.
Lemma filter_none {A} (P : A → Prop) `{!∀ x, Decision (P x)} (l : list A) :
  Forall (λ x, ¬ P x) l → filter P l = [].
Proof.
  induction 1 as [|x l Hx _ IH]; [done|]. by rewrite filter_cons, decide_False by done.
Qed.

(** A loop that pushes the elements passing a test is a filter. *)
Lemma foldl_push_filter {A} (b : A → bool) (acc l : list A) :
  foldl (λ acc x, if b x then acc ++ [x] else acc) acc l = acc ++ filter (λ x, b x = true) l.
Proof.
  revert acc. induction l as [|x l IH]; intros acc; cbn [foldl].
  - by rewrite app_nil_r.
  - rewrite IH, filter_cons. destruct (b x); simpl; [|done]. by rewrite <-app_assoc.
Qed.

(** A loop that fills a table, when entries with the same key agree. *)
Lemma fill_table_lookup {A V} (f : A → string) (g : A → V) (l : list A) k v :
  (∀ x y, x ∈ l → y ∈ l → f x = f y → g x = g y) →
  foldl (λ m x, <[f x := g x]> m) (∅ : gmap string V) l !! k = Some v ↔
    ∃ x, x ∈ l ∧ f x = k ∧ g x = v.
Proof.
  induction l as [|x l IH] using rev_ind; intros Hfun.
  - simpl. rewrite lookup_empty. set_solver.
  - rewrite foldl_app; simpl. rewrite lookup_insert. case_decide as Hk.
    + split; [intros; simplify_eq; exists x; set_solver|].
      intros (y & Hy & Hfy & <-). f_equal. apply Hfun; [set_solver..|congruence].
    + rewrite IH by (intros; apply Hfun; set_solver). set_solver.
Qed.

(** ** [Array.prototype.sort]: the stable sort of a comparator

    Since ES2019 the sort is stable, so on a consistent comparator its result
    is the one computed by stable insertion. *)

Class Comparator {A : Type} (cmp : A → A → Z) : Prop := {
  cmp_flip : ∀ x y, (0 < cmp x y)%Z → (cmp y x ≤ 0)%Z;
  cmp_trans : ∀ x y z, (cmp x y ≤ 0)%Z → (cmp y z ≤ 0)%Z → (cmp x z ≤ 0)%Z;
}.

Section js_sort.
Context {A : Type} (cmp : A → A → Z).

Fixpoint sort_insert (x : A) (l : list A) : list A :=
  match l with
  | [] => [x]
  | y :: l' => if (cmp x y <=? 0)%Z then x :: l else y :: sort_insert x l'
  end.

Definition js_sort (l : list A) : list A := foldr sort_insert [] l.

Definition cmp_sorted : list A → Prop := StronglySorted (λ x y, cmp x y ≤ 0)%Z.

Lemma sort_insert_perm x l : sort_insert x l ≡ₚ x :: l.
Proof.
  induction l as [|y l IH]; simpl; [done|]. case_match; [done|].
  rewrite IH. apply Permutation_swap.
Qed.
Lemma js_sort_perm l : js_sort l ≡ₚ l.
Proof. induction l as [|x l IH]; simpl; [done|]. by rewrite sort_insert_perm, IH. Qed.

Lemma js_sort_elem_of x l : x ∈ js_sort l ↔ x ∈ l.
Proof. by rewrite js_sort_perm. Qed.
Lemma js_sort_keys_NoDup {K} (key : A → K) l :
  NoDup (key <$> l) → NoDup (key <$> js_sort l).
Proof. by rewrite js_sort_perm. Qed.
Lemma js_sort_length l : length (js_sort l) = length l.
Proof. by rewrite js_sort_perm. Qed.

Context `{!Comparator cmp}.

Lemma sort_insert_sorted x l : cmp_sorted l → cmp_sorted (sort_insert x l).
Proof.
  induction 1 as [|y l Hl IH Hy]; simpl; [repeat constructor|].
  destruct (cmp x y <=? 0)%Z eqn:E.
  - apply Z.leb_le in E. constructor; [by constructor|]. constructor; [done|].
    eapply Forall_impl; [exact Hy|]. intros z ?. by eapply cmp_trans.
  - apply Z.leb_gt in E. constructor; [done|].
    rewrite sort_insert_perm. constructor; [|done]. by apply cmp_flip.
Qed.
Lemma js_sort_sorted l : cmp_sorted (js_sort l).
Proof. induction l; simpl; [constructor|]. by apply sort_insert_sorted. Qed.

Lemma js_sort_id l : cmp_sorted l → js_sort l = l.
Proof.
  induction 1 as [|y l Hl IH Hy]; simpl; [done|]. rewrite IH.
  destruct Hy as [|z l Hz]; simpl; [done|].
  by rewrite (proj2 (Z.leb_le _ _)) by done.
Qed.

(** Stability: the elements that compare equal to [k] keep their order. *)
Lemma js_sort_stable k l :
  filter (λ y, cmp k y ≤ 0 ∧ cmp y k ≤ 0)%Z (js_sort l) =
    filter (λ y, cmp k y ≤ 0 ∧ cmp y k ≤ 0)%Z l.
Proof.
  assert (Hins : ∀ x l, filter (λ y, cmp k y ≤ 0 ∧ cmp y k ≤ 0)%Z (sort_insert x l)
    = filter (λ y, cmp k y ≤ 0 ∧ cmp y k ≤ 0)%Z (x :: l)).
  { clear l. intros x l. induction l as [|y l IH]; simpl; [done|].
    destruct (cmp x y <=? 0)%Z eqn:E; [done|]. apply Z.leb_gt in E.
    rewrite (filter_cons _ y (sort_insert x l)), IH, !filter_cons.
    repeat case_decide; try done.
    assert (cmp x y ≤ 0)%Z by (eapply cmp_trans; naive_solver). lia. }
  induction l as [|x l IH]; simpl; [done|]. rewrite Hins, !filter_cons, IH. done.
Qed.
End js_sort.

#[export] Hint Resolve js_sort_keys_NoDup js_sort_sorted : meza.

(** Ascending and descending comparison of a numeric field. *)
Definition cmp_asc {A} (f : A → Z) (a b : A) : Z := f a - f b.
Definition cmp_desc {A} (f : A → Z) (a b : A) : Z := f b - f a.

#[export] Instance cmp_asc_comparator {A} (f : A → Z) : Comparator (cmp_asc f).
Proof. split; unfold cmp_asc; lia. Qed.
#[export] Instance cmp_desc_comparator {A} (f : A → Z) : Comparator (cmp_desc f).
Proof. split; unfold cmp_desc; lia. Qed.

(** [(a, b) => (a < b ? -1 : a > b ? 1 : 0)] on a string field. *)
Definition cmp_str {A} (f : A → string) (a b : A) : Z :=
  if str_ltb (f a) (f b) then -1 else if str_ltb (f b) (f a) then 1 else 0.

Lemma str_ltb_leb a b : str_ltb a b = negb (String.leb b a).
Proof.
  unfold str_ltb, String.ltb, String.leb. rewrite (String.compare_antisym b a).
  by destruct (String.compare a b).
Qed.
Lemma cmp_str_le {A} (f : A → string) a b : (cmp_str f a b ≤ 0)%Z ↔ String.le (f a) (f b).
Proof.
  unfold cmp_str, String.le. rewrite !str_ltb_leb.
  destruct (String.leb_total (f a) (f b)) as [E|E]; rewrite E; simpl.
  - destruct (String.leb (f b) (f a)); simpl; split; try done; lia.
  - destruct (String.leb (f a) (f b)); simpl; split; try done; lia.
Qed.
#[export] Instance cmp_str_comparator {A} (f : A → string) : Comparator (cmp_str f).
Proof.
  split.
  - intros x y. rewrite cmp_str_le. intros Hn.
    destruct (total String.le (f x) (f y)) as [Hle|]; [|done].
    apply cmp_str_le in Hle. lia.
  - intros x y z. rewrite !cmp_str_le. apply transitivity.
Qed.

Lemma str_ltb_irrefl a : str_ltb a a = false.
Proof. rewrite str_ltb_leb. by destruct (String.leb_total a a) as [-> | ->]. Qed.
Lemma str_ltb_le a b : str_ltb a b = true ↔ String.le a b ∧ a ≠ b.
Proof.
  rewrite str_ltb_leb. unfold String.le. split.
  - intros Hn%negb_true_iff. destruct (String.leb_total a b) as [->|E]; [|congruence].
    split; [done|]. intros ->. destruct (String.leb_total b b); congruence.
  - intros [Hle Hne]. apply negb_true_iff, not_true_iff_false. intros E.
    apply Hne, String.leb_antisym; [by apply Is_true_true|done].
Qed.
Lemma str_ltb_trans a b c : str_ltb a b = true → str_ltb b c = true → str_ltb a c = true.
Proof.
  rewrite !str_ltb_le. intros [H1 N1] [H2 N2]. split; [by etrans|].
  intros ->. apply N1. by apply (anti_symm String.le).
Qed.

(** ** Totals over a table: [for (const v of Object.values(m)) total += f(v)] *)

Section map_sum.
Context {V : Type} (f : V → Z).

Definition map_sum (m : gmap string V) : Z := map_fold (λ _ v t, t + f v)%Z 0%Z m.

Lemma map_sum_empty : map_sum ∅ = 0%Z.
Proof. apply map_fold_empty. Qed.
Lemma map_sum_insert_new k v m :
  m !! k = None → map_sum (<[k := v]> m) = (map_sum m + f v)%Z.
Proof. intros Hk. unfold map_sum. rewrite map_fold_insert_L; try done. intros; lia. Qed.
Lemma map_sum_delete k v m :
  m !! k = Some v → map_sum (delete k m) = (map_sum m - f v)%Z.
Proof.
  intros Hk. rewrite <-(insert_delete_id m k v Hk) at 2.
  rewrite map_sum_insert_new by apply lookup_delete_eq. lia.
Qed.
Lemma map_sum_insert k v m :
  map_sum (<[k := v]> m) = (map_sum m - or_default 0 (f <$> m !! k) + f v)%Z.
Proof.
  destruct (m !! k) as [v'|] eqn:Hk; simpl.
  - rewrite <-insert_delete_eq, map_sum_insert_new by apply lookup_delete_eq.
    by rewrite (map_sum_delete k v').
  - rewrite map_sum_insert_new by done. lia.
Qed.
Lemma map_sum_nonneg m : (∀ v, 0 ≤ f v)%Z → (0 ≤ map_sum m)%Z.
Proof.
  intros Hf. induction m as [|k v m Hk IH] using map_ind; [by rewrite map_sum_empty|].
  rewrite map_sum_insert_new by done. specialize (Hf v). lia.
Qed.
End map_sum.
