(* ===== verification/JsString.v ===== *)
(** * JavaScript strings

    The string methods the client uses, on strings of code units: lower case, trimming,
    splitting at white space, joining, prefixes and inclusion. *)

From S2P Require Export Prelude.

(** [toLowerCase], which leaves everything but the capital letters of ASCII alone *)
Definition lower_ascii (a : Ascii.ascii) : Ascii.ascii :=
  let n := Ascii.nat_of_ascii a in
  if (65 <=? n) && (n <=? 90) then Ascii.ascii_of_nat (n + 32) else a.
Fixpoint toLowerCase (s : string) : string :=
  match s with EmptyString => EmptyString | String a s => String (lower_ascii a) (toLowerCase s) end.

(** [\s]: tab, line feed, vertical tab, form feed, carriage return, space and no-break
    space *)
Definition is_space (a : Ascii.ascii) : bool :=
  let n := Ascii.nat_of_ascii a in
  ((9 <=? n) && (n <=? 13)) || (n =? 32) || (n =? 160).

(** [trimStart], [trimEnd], [trim] *)
Fixpoint trim_start (s : string) : string :=
  match s with
  | EmptyString => EmptyString
  | String a s' => if is_space a then trim_start s' else s
  end.
Fixpoint trim_end (s : string) : string :=
  match s with
  | EmptyString => EmptyString
  | String a s' =>
      match trim_end s' with
      | EmptyString => if is_space a then EmptyString else String a EmptyString
      | t => String a t
      end
  end.
Definition trim (s : string) : string := trim_end (trim_start s).

(** [s.split(/\s+/)] *)
Definition starts_with_space (s : string) : bool :=
  match s with String a _ => is_space a | EmptyString => false end.
Fixpoint split_space (s : string) : list string :=
  match s with
  | EmptyString => [""]
  | String a s' =>
      if is_space a then
        if starts_with_space s' then split_space s' else "" :: split_space s'
      else match split_space s' with
           | t :: ts => String a t :: ts
           | [] => [String a EmptyString]
           end
  end.

(** [l.join(' ')] *)
Fixpoint join_space (l : list string) : string :=
  match l with
  | [] => ""
  | [t] => t
  | t :: l => (t +:+ String (Ascii.ascii_of_nat 32) (join_space l))%string
  end.

(** [s.slice(n)] *)
Fixpoint str_slice (n : nat) (s : string) : string :=
  match n, s with S n, String _ s' => str_slice n s' | _, _ => s end.
(** [s.startsWith(p)] *)
Fixpoint startsWith (p s : string) : bool :=
  match p, s with
  | EmptyString, _ => true
  | String a p, String b s => Ascii.eqb a b && startsWith p s
  | String _ _, EmptyString => false
  end.
(** [s.includes(t)] *)
Fixpoint includes (t s : string) : bool :=
  startsWith t s || match s with EmptyString => false | String _ s' => includes t s' end.

(** ** Words *)

Fixpoint no_space (s : string) : bool :=
  match s with EmptyString => true | String a s' => negb (is_space a) && no_space s' end.
Definition word (s : string) : Prop := s ≠ "" ∧ no_space s = true.

Lemma trim_end_tail a s : trim_end (String a s) = String a s → trim_end s = s.
Proof.
  simpl. destruct (trim_end s) as [|b t] eqn:E; [|by intros [= <-]].
  destruct (is_space a); [done|]. by intros [= <-].
Qed.
Lemma trim_end_idem s : trim_end (trim_end s) = trim_end s.
Proof.
  induction s as [|a s IH]; [done|]. simpl.
  destruct (trim_end s) as [|b t] eqn:E.
  - destruct (is_space a) eqn:Ha; [done|]. simpl. by rewrite Ha.
  - simpl in IH |- *. by rewrite IH.
Qed.

Lemma split_trimmed s :
  trim_end s = s →
  ∃ t ts, split_space s = t :: ts ∧ no_space t = true ∧ Forall word ts ∧
    (t = "" ↔ s = "" ∨ starts_with_space s = true).
Proof.
  induction s as [|a s IH]; intros Hs.
  - exists "", []. naive_solver.
  - pose proof (trim_end_tail a s Hs) as Htail.
    destruct (IH Htail) as (t & ts & Hsplit & Ht & Hts & Hempty). cbn [split_space].
    destruct (is_space a) eqn:Ha.
    + assert (s ≠ "") as Hne by (intros ->; simpl in Hs; by rewrite Ha in Hs).
      destruct (starts_with_space s) eqn:Hsp.
      * exists t, ts. split; [done|]. split; [done|]. split; [done|].
        assert (t = "") as -> by (apply Hempty; by right). simpl. rewrite Ha. tauto.
      * exists "", (t :: ts). rewrite Hsplit. split; [done|]. split; [done|]. split.
        -- constructor; [|done]. split; [|done]. intros Ht0. apply Hempty in Ht0 as [?|?]; done.
        -- simpl. rewrite Ha. tauto.
    + rewrite Hsplit. exists (String a t), ts. split; [done|]. simpl. rewrite Ha. simpl.
      split; [done|]. split; [done|]. naive_solver.
Qed.

Lemma trim_start_head s : starts_with_space (trim_start s) = false.
Proof.
  induction s as [|a s IH]; [done|]. simpl. destruct (is_space a) eqn:Ha; [done|].
  simpl. by rewrite Ha.
Qed.
Lemma trim_end_head s : starts_with_space s = false → starts_with_space (trim_end s) = false.
Proof.
  destruct s as [|a s]; [done|]. simpl. intros Ha. destruct (trim_end s); rewrite ?Ha; simpl; done.
Qed.

(** The tokens of a string: one empty token, or words *)
Lemma tokens_words s : split_space (trim s) = [""] ∨ Forall word (split_space (trim s)).
Proof.
  destruct (split_trimmed (trim s) (trim_end_idem _)) as (t & ts & Hsplit & Ht & Hts & Hempty).
  rewrite Hsplit. destruct (decide (t = "")) as [->|Hne].
  - left. destruct (proj1 Hempty eq_refl) as [E|E].
    + rewrite E in Hsplit. simpl in Hsplit. by injection Hsplit as <-.
    + unfold trim in E. by rewrite trim_end_head in E by apply trim_start_head.
  - right. by constructor.
Qed.

Lemma no_space_split t ts s :
  no_space t = true → split_space s = "" :: ts → split_space (t +:+ s) = t :: ts.
Proof.
  intros Ht Hs. induction t as [|a t IH]; [done|]. simpl in *.
  apply andb_true_iff in Ht as [Ha%negb_true_iff Ht]. change (String.append ?x ?y) with (x +:+ y).
  by rewrite Ha, (IH Ht).
Qed.
Lemma no_space_split_one t : no_space t = true → split_space t = [t].
Proof.
  intros Ht. induction t as [|a t IH]; [done|]. simpl in *.
  apply andb_true_iff in Ht as [Ha%negb_true_iff Ht]. by rewrite Ha, (IH Ht).
Qed.
Lemma word_head t s : word t → starts_with_space (t +:+ s) = false.
Proof.
  intros [Hne Ht]. destruct t as [|a t]; [done|]. simpl in *.
  by apply andb_true_iff in Ht as [Ha%negb_true_iff _].
Qed.

Lemma split_join ts : ts ≠ [] → Forall word ts → split_space (join_space ts) = ts.
Proof.
  intros Hne Hts. induction Hts as [|t ts Ht Hts IH]; [done|].
  destruct ts as [|u ts].
  - apply no_space_split_one, Ht.
  - change (join_space (t :: u :: ts))
      with (t +:+ String (Ascii.ascii_of_nat 32) (join_space (u :: ts))).
    apply no_space_split; [apply Ht|]. cbn [split_space].
    change (is_space (Ascii.ascii_of_nat 32)) with true. cbv iota.
    assert (starts_with_space (join_space (u :: ts)) = false) as ->.
    { apply Forall_cons in Hts as [Hu _]. destruct ts as [|v ts].
      - pose proof (word_head u "" Hu). destruct u; done.
      - apply (word_head u _ Hu). }
    by rewrite IH.
Qed.

Lemma trim_end_append t s : s ≠ "" → trim_end s = s → trim_end (t +:+ s) = t +:+ s.
Proof.
  intros Hne Hs. induction t as [|a t IH]; [done|]. simpl.
  change (String.append ?x ?y) with (x +:+ y). rewrite IH. by destruct t, s.
Qed.
Lemma trim_end_word t : word t → trim_end t = t.
Proof.
  intros [Hne Ht]. induction t as [|a t IH]; [done|]. simpl in *.
  apply andb_true_iff in Ht as [Ha%negb_true_iff Ht]. destruct t as [|b t]; [by rewrite Ha|].
  by rewrite IH.
Qed.
Lemma trim_join ts : Forall word ts → trim (join_space ts) = join_space ts.
Proof.
  intros Hts. unfold trim. destruct Hts as [|t ts Ht Hts]; [done|].
  assert (trim_start (join_space (t :: ts)) = join_space (t :: ts)) as ->.
  { assert (starts_with_space (join_space (t :: ts)) = false) as Hh.
    { destruct ts as [|v ts]; [|apply (word_head t _ Ht)].
      pose proof (word_head t "" Ht). by destruct t. }
    destruct (join_space (t :: ts)) as [|a s]; [done|]. simpl in *. by rewrite Hh. }
  revert t Ht. induction Hts as [|u ts Hu Hts IH]; intros t Ht; [by apply trim_end_word|].
  change (join_space (t :: u :: ts))
    with (t +:+ String (Ascii.ascii_of_nat 32) (join_space (u :: ts))).
  apply trim_end_append; [done|]. cbn [trim_end]. rewrite (IH u Hu).
  destruct Hu as [Hu _]. destruct ts, u; done.
Qed.
