(* ===== verification/JsNumber.v ===== *)
(** * JavaScript numbers

    A JavaScript number is an IEEE 754 binary64 value.  The standard library's
    [SpecFloat] gives these values and their correctly rounded operations as
    closed terms, so ratios, volumes and pointer coordinates are computed here
    with the rounding the client sees.  Counters and protobuf integers, which
    stay far below 2^53, are integers ([Z]) in the other files. *)

From Stdlib Require Import SpecFloat.
From S2P Require Export Prelude.

Notation number := spec_float.

Module Num.
Definition prec : Z := 53.
Definition emax : Z := 1024.

Definition lt (a b : number) : bool := SFltb a b.
Definition le (a b : number) : bool := SFleb a b.
Definition eqn (a b : number) : bool := SFeqb a b.
Definition add : number → number → number := SFadd prec emax.
Definition sub : number → number → number := SFsub prec emax.
Definition mul : number → number → number := SFmul prec emax.
Definition div : number → number → number := SFdiv prec emax.
Definition sqrt : number → number := SFsqrt prec emax.
Definition of_Z (z : Z) : number := binary_normalize prec emax z 0 false.
Definition nan : number := S754_nan.
Definition infinity : number := S754_infinity false.

Definition is_nan (a : number) : bool :=
  match a with S754_nan => true | _ => false end.
(** [Number.isFinite] *)
Definition is_finite (a : number) : bool :=
  match a with S754_nan | S754_infinity _ => false | _ => true end.

(** [Math.max(a, b)] and [Math.min(a, b)]: a NaN argument wins, and of two
    equal arguments (the two zeros) the sign decides. *)
Definition max (a b : number) : number :=
  if is_nan a || is_nan b then nan
  else if lt a b then b
  else if lt b a then a
  else match a with S754_zero true => b | _ => a end.
Definition min (a b : number) : number :=
  if is_nan a || is_nan b then nan
  else if lt a b then a
  else if lt b a then b
  else match a with S754_zero true => a | _ => b end.

(** [Math.max(lo, Math.min(hi, x))] *)
Definition clamp (lo hi x : number) : number := max lo (min hi x).

(** The literals of the source, as the doubles they denote. *)
Definition zero : number := S754_zero false.
Definition one : number := S754_finite false 4503599627370496 (-52).
Definition two : number := S754_finite false 4503599627370496 (-51).
Definition n0_1 : number := S754_finite false 7205759403792794 (-56).
Definition n0_25 : number := S754_finite false 4503599627370496 (-54).
Definition n0_35 : number := S754_finite false 6305039478318694 (-54).
Definition n0_5 : number := S754_finite false 4503599627370496 (-53).
Definition n0_7 : number := S754_finite false 6305039478318694 (-53).
Definition n0_9 : number := S754_finite false 8106479329266893 (-53).
Definition n50 : number := S754_finite false 7036874417766400 (-47).
Definition n100 : number := S754_finite false 7036874417766400 (-46).

Lemma compare_swap a b : SFcompare b a = CompOpp <$> SFcompare a b.
Proof.
  destruct a as [[]|[]| |[] ma ea], b as [[]|[]| |[] mb eb]; simpl; try done;
    rewrite (Z.compare_antisym ea eb); destruct (Z.compare ea eb); simpl; try done;
    change (Pos.compare_cont Eq mb ma) with (Pos.compare mb ma);
    change (Pos.compare_cont Eq ma mb) with (Pos.compare ma mb);
    by rewrite (Pos.compare_antisym ma mb), ?CompOpp_involutive.
Qed.

Lemma compare_refl a : is_nan a = false → SFcompare a a = Some Eq.
Proof.
  destruct a as [[]|[]| |[] m e]; simpl; try done; intros _;
    rewrite Z.compare_refl; change (Pos.compare_cont Eq m m) with (Pos.compare m m);
    by rewrite Pos.compare_refl.
Qed.

Lemma compare_total a b :
  is_nan a = false → is_nan b = false → is_Some (SFcompare a b).
Proof.
  destruct a as [[]|[]| |[] ma ea], b as [[]|[]| |[] mb eb]; simpl; try done; eauto;
    intros _ _; destruct (Z.compare ea eb); eauto.
Qed.

(** The three comparisons, read off [SFcompare]. *)
Lemma ltb_compare a b : lt a b = match SFcompare a b with Some Lt => true | _ => false end.
Proof. done. Qed.
Lemma leb_compare a b :
  le a b = match SFcompare a b with Some (Lt | Eq) => true | _ => false end.
Proof. done. Qed.
Lemma eqb_compare a b : eqn a b = match SFcompare a b with Some Eq => true | _ => false end.
Proof. done. Qed.

(** The order on numbers is transitive. *)
Lemma compare_trans a b c :
  SFcompare a b = Some Lt → SFcompare b c = Some Lt → SFcompare a c = Some Lt.
Proof.
  assert (Hp : ∀ m1 m2, Pos.compare_cont Eq m1 m2 = Pos.compare m1 m2) by done.
  destruct a as [[]|[]| |[] ma ea], b as [[]|[]| |[] mb eb], c as [[]|[]| |[] mc ec];
    simpl; try done; rewrite ?Hp; intros H1 H2; f_equal;
    destruct (Z.compare_spec ea eb), (Z.compare_spec eb ec), (Z.compare_spec ea ec);
    simplify_eq/=; try lia; try done;
    repeat match goal with
      | H : CompOpp _ = _ |- _ => apply (f_equal CompOpp) in H; rewrite CompOpp_involutive in H
      end; simpl in *;
    rewrite ?Pos.compare_lt_iff, ?Pos.compare_gt_iff in *;
    try (by (etrans; eassumption)).
  change (CompOpp (Pos.compare ma mc) = Lt).
  by rewrite (proj2 (Pos.compare_gt_iff ma mc)) by (by (etrans; eassumption)).
Qed.
Lemma lt_trans a b c : lt a b = true → lt b c = true → lt a c = true.
Proof.
  rewrite !ltb_compare. intros H1 H2.
  destruct (SFcompare a b) as [[]|] eqn:E1; try done.
  destruct (SFcompare b c) as [[]|] eqn:E2; try done.
  by rewrite (compare_trans a b c).
Qed.

Lemma lt_irrefl a : lt a a = false.
Proof.
  rewrite ltb_compare. pose proof (compare_swap a a) as Hs.
  by destruct (SFcompare a a) as [[]|].
Qed.

Section clamp.
Context (lo hi : number).
Context (Hlo : is_nan lo = false) (Hhi : is_nan hi = false) (Hle : le lo hi = true).

(** Clamping a number returns the number or one of the bounds. *)
Lemma clamp_cases x :
  is_nan x = false → clamp lo hi x = x ∨ clamp lo hi x = lo ∨ clamp lo hi x = hi.
Proof.
  intros Hx. unfold clamp.
  assert (Hmin : min hi x = hi ∨ min hi x = x).
  { unfold min. rewrite Hhi, Hx; simpl. repeat case_match; tauto. }
  assert (Hmax : ∀ y, is_nan y = false → max lo y = lo ∨ max lo y = y).
  { intros y Hy. unfold max. rewrite Hlo, Hy; simpl. repeat case_match; tauto. }
  destruct Hmin as [-> | ->]; destruct (Hmax hi Hhi), (Hmax x Hx); tauto.
Qed.

Lemma clamp_range x :
  is_nan x = false → le lo (clamp lo hi x) = true ∧ le (clamp lo hi x) hi = true.
Proof.
  intros Hx. rewrite !leb_compare in *. unfold clamp, min.
  rewrite Hhi, Hx; simpl. rewrite !ltb_compare.
  pose proof (compare_refl _ Hlo) as Rlo. pose proof (compare_refl _ Hhi) as Rhi.
  pose proof (compare_refl _ Hx) as Rx.
  assert (Hmax : ∀ y, is_nan y = false → SFcompare y hi ≠ Some Gt →
    (match SFcompare lo (max lo y) with Some (Lt | Eq) => true | _ => false end) = true ∧
    (match SFcompare (max lo y) hi with Some (Lt | Eq) => true | _ => false end) = true).
  { intros y Hy Hyhi. pose proof (compare_refl _ Hy) as Ry.
    unfold max. rewrite Hlo, Hy; simpl. rewrite !ltb_compare.
    destruct (compare_total y hi Hy Hhi) as [cy Ecy].
    destruct (compare_total lo y Hlo Hy) as [c Ec].
    pose proof (compare_swap lo y) as Hsw. rewrite Ec in Hsw; simpl in Hsw.
    rewrite Hsw, Ec. destruct c; simpl.
    - assert (Hz : (match lo with S754_zero true => y | _ => lo end) = y ∨
        (match lo with S754_zero true => y | _ => lo end) = lo)
        by (repeat case_match; tauto).
      destruct Hz as [-> | ->]; rewrite ?Ec, ?Ecy, ?Rlo; split; try done;
        destruct cy; naive_solver.
    - rewrite Ec, Ecy. destruct cy; naive_solver.
    - by rewrite Rlo. }
  destruct (compare_total hi x Hhi Hx) as [c Ec].
  pose proof (compare_swap hi x) as Hsw. rewrite Ec in Hsw; simpl in Hsw.
  rewrite Hsw, Ec. destruct c; simpl; apply Hmax; try done;
    try (by rewrite Rhi); try (by rewrite Hsw).
  - by repeat case_match.
  - repeat case_match; by rewrite ?Rhi, ?Hsw.
Qed.

(** A number strictly inside the range is kept, and NaN stays NaN. *)
Lemma clamp_inside x : lt lo x = true → lt x hi = true → clamp lo hi x = x.
Proof.
  rewrite !ltb_compare. intros H1 H2.
  assert (Hx : is_nan x = false) by (destruct x; try done; by destruct lo).
  unfold clamp, min. rewrite Hhi, Hx; simpl. rewrite !ltb_compare.
  rewrite (compare_swap x hi). destruct (SFcompare x hi) as [[]|]; simpl; try done.
  unfold max. rewrite Hlo, Hx; simpl. rewrite ltb_compare.
  by destruct (SFcompare lo x) as [[]|].
Qed.

Lemma clamp_nan : clamp lo hi nan = nan.
Proof. unfold clamp, max, min. by rewrite Hhi, Hlo. Qed.
End clamp.

#[export] Instance number_eq_dec : EqDecision number.
Proof. solve_decision. Defined.
End Num.
