(* ===== verification/JsObject.v ===== *)
(** * JavaScript objects whose iteration order matters

    [Object.entries] lists the array-index keys of an object in increasing order
    and then the other keys in the order in which they were created.  Where the
    client iterates over a record and the result depends on the order, the record
    is an association list in creation order. *)

From S2P Require Export Prelude.

(** ** Array indices: canonical decimal numerals below 2^32 - 1 *)

Definition digit_value (a : Ascii.ascii) : option Z :=
  let n := Z.of_N (Ascii.N_of_ascii a) in
  if ((48 <=? n) && (n <=? 57))%Z then Some (n - 48)%Z else None.

Fixpoint digits_value (acc : Z) (s : string) : option Z :=
  match s with
  | EmptyString => Some acc
  | String a s => d ← digit_value a; digits_value (acc * 10 + d)%Z s
  end.

Definition array_index (k : string) : option Z :=
  match k with
  | EmptyString => None
  | String c rest =>
      if Ascii.eqb c (Ascii.ascii_of_nat 48) then
        if decide (rest = "") then Some 0%Z else None
      else n ← digits_value 0 k; if (n <? 4294967295)%Z then Some n else None
  end.

(** ** Objects *)

Notation jsobj V := (list (string * V)).

Section obj.
Context {V : Type}.
Implicit Types (o : jsobj V) (k : string) (v : V).

Definition obj_get k o : option V := snd <$> find_key fst k o.
Definition obj_set k v o : jsobj V :=
  if has_key fst k o then replace_key fst k (k, v) o else o ++ [(k, v)].
Definition obj_delete k o : jsobj V := without fst k o.
Definition obj_keys_ok o : Prop := NoDup (fst <$> o).

Definition index_rank (kv : string * V) : Z := or_default 0%Z (array_index kv.1).
Definition obj_entries o : jsobj V :=
  js_sort (cmp_asc index_rank) (filter (λ kv, is_Some (array_index kv.1)) o) ++
  filter (λ kv, array_index kv.1 = None) o.

Lemma obj_get_nil k : obj_get k [] = None.
Proof. done. Qed.

Lemma obj_get_set k v k' o :
  obj_get k' (obj_set k v o) = if decide (k' = k) then Some v else obj_get k' o.
Proof.
  unfold obj_set, obj_get. destruct (has_key fst k o) eqn:E.
  - rewrite find_key_replace, E by done. by case_decide.
  - rewrite find_key_app, find_key_cons, find_key_nil; simpl.
    apply has_key_false, find_key_None in E.
    destruct (decide (k' = k)) as [->|]; [by rewrite E, decide_True|].
    rewrite decide_False by done. by destruct (find_key fst k' o).
Qed.
Lemma obj_get_delete k k' o :
  obj_get k' (obj_delete k o) = if decide (k' = k) then None else obj_get k' o.
Proof. unfold obj_delete, obj_get. rewrite find_key_without. by case_decide. Qed.

Lemma obj_set_elem k v o x : x ∈ obj_set k v o → x = (k, v) ∨ x ∈ o.
Proof.
  unfold obj_set. destruct (has_key fst k o); [|rewrite elem_of_app, list_elem_of_singleton; tauto].
  unfold replace_key. destruct (index_key fst k o) as [n|]; [|auto].
  intros [j Hj]%list_elem_of_lookup. apply list_lookup_insert_Some in Hj as [(_ & <- & _)|[_ Hj]];
    [auto|]. right. by eapply list_elem_of_lookup_2.
Qed.
Lemma obj_set_ok k v o : obj_keys_ok o → obj_keys_ok (obj_set k v o).
Proof.
  unfold obj_keys_ok, obj_set. intros Ho. destruct (has_key fst k o) eqn:E.
  - by apply NoDup_replace.
  - by apply NoDup_push.
Qed.
Lemma obj_delete_ok k o : obj_keys_ok o → obj_keys_ok (obj_delete k o).
Proof. apply NoDup_without. Qed.

Lemma obj_entries_perm o : obj_entries o ≡ₚ o.
Proof.
  unfold obj_entries. rewrite js_sort_perm. induction o as [|kv o IH]; [done|].
  rewrite !filter_cons. destruct (array_index kv.1) eqn:E.
  - rewrite decide_True by done. rewrite decide_False by done. simpl. by rewrite IH.
  - rewrite decide_False by (by intros []). rewrite decide_True by done.
    by rewrite <-Permutation_middle, IH.
Qed.

Lemma obj_entries_get o k v :
  obj_keys_ok o → (k, v) ∈ obj_entries o ↔ obj_get k o = Some v.
Proof.
  intros Ho. rewrite obj_entries_perm. unfold obj_get. rewrite fmap_Some. split.
  - intros Hin. exists (k, v). split; [|done]. by apply find_key_Some.
  - intros ([k' v'] & [Hin Hk]%find_key_Some_inv & Hv). simpl in *. by subst.
Qed.
Lemma obj_get_Some_key o k : is_Some (obj_get k o) ↔ k ∈ fst <$> o.
Proof.
  unfold obj_get. rewrite fmap_is_Some, <-(has_key_find fst). unfold has_key.
  by rewrite bool_decide_eq_true.
Qed.

(** [const x = o[k]; if (x) mutate(x)] *)
Definition obj_modify k (f : V → V) o : jsobj V := modify_key fst k (λ kv, (kv.1, f kv.2)) o.
(** [Object.values] and [Object.fromEntries] *)
Definition obj_values o : list V := snd <$> obj_entries o.
Definition obj_from_entries (kvs : list (string * V)) : jsobj V :=
  foldl (λ o kv, obj_set kv.1 kv.2 o) [] kvs.

Lemma obj_get_modify k f k' o :
  obj_get k' (obj_modify k f o) = if decide (k' = k) then f <$> obj_get k o else obj_get k' o.
Proof.
  unfold obj_modify, obj_get. rewrite find_key_modify by done. case_decide; [|done].
  by destruct (find_key fst k o).
Qed.
Lemma obj_modify_ok k f o : obj_keys_ok o → obj_keys_ok (obj_modify k f o).
Proof. unfold obj_keys_ok, obj_modify. intros ?. by apply NoDup_modify. Qed.

Lemma obj_from_entries_id kvs : NoDup (fst <$> kvs) → obj_from_entries kvs = kvs.
Proof.
  unfold obj_from_entries. induction kvs as [|kv kvs IH] using rev_ind; [done|].
  rewrite fmap_app, NoDup_app, foldl_app. intros (Hnd & Hdis & _). simpl.
  rewrite IH by done. unfold obj_set.
  assert (has_key fst kv.1 kvs = false) as ->.
  { apply has_key_false. intros Hin. apply (Hdis _ Hin). set_solver. }
  by destruct kv.
Qed.
Lemma obj_values_elem o v :
  obj_keys_ok o → v ∈ obj_values o ↔ ∃ k, obj_get k o = Some v.
Proof.
  intros Ho. unfold obj_values. rewrite list_elem_of_fmap. split.
  - intros ([k v'] & -> & Hin). exists k. by apply obj_entries_get.
  - intros [k Hk]. exists (k, v). split; [done|]. by apply obj_entries_get.
Qed.
End obj.

(** Mapping the values of an object. *)
Lemma obj_get_fmap {V W : Type} (f : V → W) (o : jsobj V) k :
  obj_get k ((λ kv, (kv.1, f kv.2)) <$> o) = f <$> obj_get k o.
Proof.
  unfold obj_get. induction o as [|[k' v] o IH]; [done|].
  rewrite fmap_cons, !find_key_cons; simpl. by case_decide.
Qed.

#[export] Hint Resolve obj_modify_ok : meza.
#[export] Hint Resolve obj_set_ok obj_delete_ok : meza.
