(* ===== verification/Json.v ===== *)
(** * JSON values

    What [JSON.parse] returns and [JSON.stringify] writes, the reads the client does
    on such values, and the settings a store keeps in local storage. *)

From S2P Require Export JsObject JsNumber.

(** ** Values *)

Inductive json :=
  | JNull
  | JBool (b : bool)
  | JNum (n : number)
  | JStr (s : string)
  | JArr (l : list json)
  | JObj (o : jsobj json).

(** [j?.k] for a name that is no property of strings, arrays or numbers *)
Definition json_get (k : string) (j : option json) : option json :=
  match j with Some (JObj o) => obj_get k o | _ => None end.

(** [Boolean(j)] *)
Definition json_truthy (j : option json) : bool :=
  match j with
  | None | Some JNull => false
  | Some (JBool b) => b
  | Some (JNum n) => negb (Num.eqn n Num.zero) && negb (Num.is_nan n)
  | Some (JStr s) => negb (bool_decide (s = ""))
  | Some (JArr _) | Some (JObj _) => true
  end.

Fixpoint characters (s : string) : list json :=
  match s with EmptyString => [] | String a s => JStr (String a EmptyString) :: characters s end.

(** [Object.values(j)] for a [j] that is neither [null] nor [undefined] *)
Definition json_values (j : json) : list json :=
  match j with
  | JObj o => obj_values o
  | JArr l => l
  | JStr s => characters s
  | _ => []
  end.

(** [typeof j === 'object' && j !== null && !Array.isArray(j)], as the table it is *)
Definition json_table (j : option json) : option (gmap string json) :=
  match j with Some (JObj o) => Some (list_to_map o) | _ => None end.
(** [typeof j === 'string'], [typeof j === 'boolean'] *)
Definition json_string (j : option json) : option string :=
  match j with Some (JStr s) => Some s | _ => None end.
Definition json_bool (j : option json) : option bool :=
  match j with Some (JBool b) => Some b | _ => None end.
(** [typeof j === 'number' && Number.isFinite(j)] *)
Definition json_finite (j : option json) : option number :=
  match j with Some (JNum n) => if Num.is_finite n then Some n else None | _ => None end.

(** The item [localStorage.getItem] returns, parsed; [None] when there is none, when it
    is empty or when [JSON.parse] throws. *)
Definition parse_item (JSON_parse : string → result unit json) (raw : option string)
    : option json :=
  if truthy raw then result_opt (JSON_parse (or_default "" raw)) else None.

(** *** Writing: [JSON.stringify] writes a number that is not finite as [null] and a
    negative zero as [0]. *)

Definition json_of_number (n : number) : json :=
  if Num.is_finite n then JNum (if Num.eqn n Num.zero then Num.zero else n) else JNull.
Fixpoint json_written (j : json) : json :=
  match j with
  | JNum n => json_of_number n
  | JArr l => JArr (map json_written l)
  | JObj o => JObj (map (λ kv, (kv.1, json_written kv.2)) o)
  | _ => j
  end.
Definition json_of_opt_string (o : option string) : json :=
  match o with Some s => JStr s | None => JNull end.
Definition json_of_table (m : gmap string json) : json :=
  JObj (map_to_list (json_written <$> m)).

Lemma json_table_of_table m :
  json_table (Some (json_of_table m)) = Some (json_written <$> m).
Proof. simpl. by rewrite list_to_map_to_list. Qed.

(** A clamped number is written and read back unchanged. *)
Definition json_plain (n : number) : Prop := json_of_number n = JNum n.

Lemma clamp0_plain hi x :
  Num.is_finite hi = true → Num.le Num.zero hi = true → Num.is_nan x = false →
  json_plain (Num.clamp Num.zero hi x) ∧ Num.is_finite (Num.clamp Num.zero hi x) = true.
Proof.
  intros Hhi Hle Hx.
  assert (Hhi' : Num.is_nan hi = false) by by destruct hi.
  destruct (Num.clamp_range Num.zero hi eq_refl Hhi' Hle x Hx) as [H1 H2].
  assert (Hz : Num.clamp Num.zero hi x ≠ SpecFloat.S754_zero true).
  { unfold Num.clamp. generalize (Num.min hi x). intros y. unfold Num.max.
    destruct (Num.is_nan Num.zero || Num.is_nan y); [done|].
    destruct (Num.lt Num.zero y) eqn:E; [by intros ->|].
    destruct (Num.lt y Num.zero); done. }
  unfold json_plain, json_of_number.
  destruct (Num.clamp Num.zero hi x) as [[]|[]| |[] m e]; try done.
  destruct hi as [[]|[]| |[] mh eh]; done.
Qed.
Lemma clamp0_idem hi x :
  Num.is_finite hi = true → Num.le Num.zero hi = true → Num.is_nan x = false →
  Num.clamp Num.zero hi Num.zero = Num.zero → Num.clamp Num.zero hi hi = hi →
  Num.clamp Num.zero hi (Num.clamp Num.zero hi x) = Num.clamp Num.zero hi x.
Proof.
  intros Hhi Hle Hx H0 H1. assert (Hhi' : Num.is_nan hi = false) by by destruct hi.
  destruct (Num.clamp_cases Num.zero hi eq_refl Hhi' Hle x Hx) as [E|[E|E]];
    rewrite E; auto.
Qed.

(** *** Sliders: numbers that a setter clamps to [0, hi] *)

Definition in_range (hi n : number) : Prop :=
  Num.clamp Num.zero hi n = n ∧ json_plain n ∧ Num.is_finite n = true.

(** What a literal bound satisfies, by computation. *)
Record bound (hi : number) : Prop := {
  bound_finite : Num.is_finite hi = true;
  bound_le : Num.le Num.zero hi = true;
  bound_zero : Num.clamp Num.zero hi Num.zero = Num.zero;
  bound_hi : Num.clamp Num.zero hi hi = hi;
}.
Lemma bound_one : bound Num.one. Proof. by split. Qed.
Lemma bound_two : bound Num.two. Proof. by split. Qed.
Lemma bound_100 : bound Num.n100. Proof. by split. Qed.

Lemma in_range_clamp hi x :
  bound hi → Num.is_nan x = false → in_range hi (Num.clamp Num.zero hi x).
Proof.
  intros [Hf Hl H0 H1] Hx. destruct (clamp0_plain hi x Hf Hl Hx). split; [|done].
  by apply clamp0_idem.
Qed.
Lemma in_range_le hi n :
  bound hi → in_range hi n → Num.le Num.zero n = true ∧ Num.le n hi = true.
Proof.
  intros [Hf Hl _ _] (Hc & _ & Hn). rewrite <-Hc. apply Num.clamp_range; try done.
  - by destruct hi.
  - by destruct n.
Qed.

(** Reading a slider: [typeof p === 'number' && isFinite(p)] and the clamp. *)
Definition load_slider (hi default : number) (j : option json) : number :=
  match json_finite j with Some n => Num.clamp Num.zero hi n | None => default end.

Lemma load_slider_in_range hi d j : bound hi → in_range hi d → in_range hi (load_slider hi d j).
Proof.
  intros Hhi Hd. unfold load_slider, json_finite. destruct j as [[]|]; try done.
  destruct (Num.is_finite n) eqn:E; [|done]. apply in_range_clamp; [done|by destruct n].
Qed.
Lemma load_slider_saved hi d n :
  in_range hi n → load_slider hi d (Some (json_of_number n)) = n.
Proof.
  intros (Hc & Hp & Hn). unfold json_plain in Hp. rewrite Hp. unfold load_slider, json_finite.
  by rewrite Hn.
Qed.

#[export] Hint Resolve bound_one bound_two bound_100 in_range_clamp load_slider_in_range : meza.

(** ** Settings kept in local storage

    A settings store writes its state as JSON a moment after each change and starts
    from the stored JSON when the page loads.  The interface is what such a store
    promises: the states it reaches are read back as they were written. *)

Class Persistent (St Op : Type) `{Store St Op} := {
  to_json : St → json;
  (** [{...initialState, ...loadFromStorage()}] *)
  load : option json → St;
  load_fresh : load None = initial;
  load_to_json : ∀ s, reachable s → load (Some (to_json s)) = s;
}.

Section session.
Context {St Op : Type} `{Persistent St Op}.

(** The store, the stored item and whether a save is scheduled. *)
Record Session := { settings : St; stored : option json; timer : bool }.

Inductive session_op :=
  | Change (o : Op)           (** an action followed by [debouncedSave] *)
  | TimerFires (quota : bool) (** [saveToStorage], which may find storage full *)
  | Reload                    (** the page is loaded again *)
  | ResetAll.                 (** the store's [reset] *)

Definition session_exec (a : session_op) (s : Session) : Session :=
  match a with
  | Change o => {| settings := exec o (settings s); stored := stored s; timer := true |}
  | TimerFires full =>
      if timer s then
        {| settings := settings s;
           stored := if full then stored s else Some (to_json (settings s));
           timer := false |}
      else s
  | Reload => {| settings := load (stored s); stored := stored s; timer := false |}
  | ResetAll => {| settings := initial; stored := None; timer := false |}
  end.

Definition session_ok (a : session_op) (s : Session) : Prop :=
  match a with
  | Change o => admissible o (settings s)
  | TimerFires full => full = false
  | _ => True
  end.

#[export] Instance session_store : Store Session session_op :=
  {| initial := {| settings := initial; stored := None; timer := false |};
     exec := session_exec; admissible := session_ok |}.

(** Unless storage is full, whatever is not scheduled for saving is saved: loading
    the page again gives the same settings. *)
Lemma session_saved (s : Session) :
  reachable s →
  reachable (settings s) ∧ (timer s = false → load (stored s) = settings s) ∧
  (∃ s0, reachable s0 ∧ load (stored s) = s0).
Proof.
  revert s. apply (reachable_invariant (λ s : Session, reachable (settings s) ∧
    (timer s = false → load (stored s) = settings s) ∧
    (∃ s0, reachable s0 ∧ load (stored s) = s0))).
  - simpl. rewrite load_fresh. eauto using reachable_initial.
  - intros a s Ha (Hr & Ht & s0 & Hs0 & Hl). destruct a as [o|full| |]; simpl in *.
    + split; [by apply reachable_exec|]. split; [done|eauto].
    + subst full. destruct (timer s) eqn:Et; [|split_and!; eauto].
      simpl. rewrite load_to_json by done. eauto.
    + rewrite Hl. eauto.
    + rewrite load_fresh. eauto using reachable_initial.
Qed.
End session.
Arguments Session : clear implicits.
