(* ===== verification/AudioSettings.v ===== *)
(** * The audio settings ([store/audioSettings.ts], [utils/hardware.ts])

    Devices, gains and volumes, and the noise cancellation; the sliders are numbers
    that every path into the store clamps, and the stored JSON is validated field by
    field when the page loads. *)

From S2P Require Export Json.

Inductive NoiseCancellationMode := off | standard | giga.

(** [['off', 'standard', 'giga'].includes(s)] *)
Definition mode_of_string (s : string) : option NoiseCancellationMode :=
  if decide (s = "off") then Some off
  else if decide (s = "standard") then Some standard
  else if decide (s = "giga") then Some giga
  else None.
Definition mode_to_string (m : NoiseCancellationMode) : string :=
  match m with off => "off" | standard => "standard" | giga => "giga" end.

Lemma mode_of_to_string m : mode_of_string (mode_to_string m) = Some m.
Proof. by destruct m. Qed.

(** What the browser reports of the device. *)
Record Hardware := {
  hardwareConcurrency : option Z;
  deviceMemory : option number;
  supportsAudioWorklet : bool;
}.

Definition canRunGiga (hw : Hardware) : bool :=
  let cores := or_default 0%Z (hardwareConcurrency hw) in
  if (cores <? 4)%Z then false
  else match deviceMemory hw with
       | Some memory => negb (Num.lt memory (Num.of_Z 4))
       | None => true
       end.

Definition defaultNoiseCancellationMode (hw : Hardware) : NoiseCancellationMode :=
  if supportsAudioWorklet hw && canRunGiga hw then giga else standard.

Record AudioSettingsState := {
  inputDeviceId : option string;
  outputDeviceId : option string;
  inputGain : number;
  outputVolume : number;
  perUserVolumes : gmap string json;
  soundboardVolume : number;
  hearOwnSoundboard : bool;
  gigaThreshold : number;
  noiseCancellationMode : NoiseCancellationMode;
  echoCancellation : bool;
  autoGainControl : bool;
}.

Definition initialState (hw : Hardware) : AudioSettingsState :=
  {| inputDeviceId := None; outputDeviceId := None; inputGain := Num.one;
     outputVolume := Num.one; perUserVolumes := ∅; soundboardVolume := Num.one;
     hearOwnSoundboard := true; gigaThreshold := Num.n50;
     noiseCancellationMode := defaultNoiseCancellationMode hw;
     echoCancellation := true; autoGainControl := true |}.

(** The spread of [initialState] and [loadFromStorage()] *)
Definition loadFromStorage (hw : Hardware) (item : option json) : AudioSettingsState :=
  let parsed := match item with Some (JObj _ | JArr _) => item | _ => None end in
  let get k := json_get k parsed in
  let d := initialState hw in
  {| inputDeviceId := match json_string (get "inputDeviceId") with
       | Some s => Some s | None => inputDeviceId d end;
     outputDeviceId := match json_string (get "outputDeviceId") with
       | Some s => Some s | None => outputDeviceId d end;
     inputGain := load_slider Num.two (inputGain d) (get "inputGain");
     outputVolume := load_slider Num.one (outputVolume d) (get "outputVolume");
     perUserVolumes := or_default (perUserVolumes d) (json_table (get "perUserVolumes"));
     soundboardVolume := load_slider Num.two (soundboardVolume d) (get "soundboardVolume");
     hearOwnSoundboard := or_default (hearOwnSoundboard d) (json_bool (get "hearOwnSoundboard"));
     gigaThreshold := load_slider Num.n100 (gigaThreshold d) (get "gigaThreshold");
     noiseCancellationMode :=
       match json_string (get "noiseCancellationMode") ≫= mode_of_string with
       | Some mode => mode
       | None =>
           match json_bool (get "noiseSuppression") with
           | Some suppression => if suppression then standard else off
           | None => noiseCancellationMode d
           end
       end;
     echoCancellation := or_default (echoCancellation d) (json_bool (get "echoCancellation"));
     autoGainControl := or_default (autoGainControl d) (json_bool (get "autoGainControl")) |}.

(** What [saveToStorage] writes. *)
Definition saved_json (s : AudioSettingsState) : json :=
  JObj [("inputDeviceId", json_of_opt_string (inputDeviceId s));
        ("outputDeviceId", json_of_opt_string (outputDeviceId s));
        ("inputGain", json_of_number (inputGain s));
        ("outputVolume", json_of_number (outputVolume s));
        ("perUserVolumes", json_of_table (perUserVolumes s));
        ("soundboardVolume", json_of_number (soundboardVolume s));
        ("hearOwnSoundboard", JBool (hearOwnSoundboard s));
        ("gigaThreshold", json_of_number (gigaThreshold s));
        ("noiseCancellationMode", JStr (mode_to_string (noiseCancellationMode s)));
        ("echoCancellation", JBool (echoCancellation s));
        ("autoGainControl", JBool (autoGainControl s))].

(** ** Actions *)

Record ProfilePrefs := {
  p_noiseCancellationMode : option string;
  p_noiseSuppression : option bool;
  p_echoCancellation : bool;
  p_autoGainControl : bool;
}.

(** Each setter clamps its slider and replaces one field. *)

Definition setInputDevice (deviceId : option string) (s : AudioSettingsState) : AudioSettingsState :=
  let 'Build_AudioSettingsState _ o g v u b h t n e a := s in
  Build_AudioSettingsState deviceId o g v u b h t n e a.

Definition setOutputDevice (deviceId : option string) (s : AudioSettingsState) : AudioSettingsState :=
  let 'Build_AudioSettingsState i _ g v u b h t n e a := s in
  Build_AudioSettingsState i deviceId g v u b h t n e a.

Definition setInputGain (gain : number) (s : AudioSettingsState) : AudioSettingsState :=
  let 'Build_AudioSettingsState i o _ v u b h t n e a := s in
  Build_AudioSettingsState i o (Num.clamp Num.zero Num.two gain) v u b h t n e a.

Definition setOutputVolume (volume : number) (s : AudioSettingsState) : AudioSettingsState :=
  let 'Build_AudioSettingsState i o g _ u b h t n e a := s in
  Build_AudioSettingsState i o g (Num.clamp Num.zero Num.one volume) u b h t n e a.

Definition setPerUserVolume (userId : string) (volume : number) (s : AudioSettingsState) : AudioSettingsState :=
  let 'Build_AudioSettingsState i o g v u b h t n e a := s in
  Build_AudioSettingsState i o g v (<[userId := JNum (Num.clamp Num.zero Num.two volume)]> u) b h t n e a.

Definition setSoundboardVolume (volume : number) (s : AudioSettingsState) : AudioSettingsState :=
  let 'Build_AudioSettingsState i o g v u _ h t n e a := s in
  Build_AudioSettingsState i o g v u (Num.clamp Num.zero Num.two volume) h t n e a.

Definition setHearOwnSoundboard (enabled : bool) (s : AudioSettingsState) : AudioSettingsState :=
  let 'Build_AudioSettingsState i o g v u b _ t n e a := s in
  Build_AudioSettingsState i o g v u b enabled t n e a.

Definition setGigaThreshold (threshold : number) (s : AudioSettingsState) : AudioSettingsState :=
  let 'Build_AudioSettingsState i o g v u b h _ n e a := s in
  Build_AudioSettingsState i o g v u b h (Num.clamp Num.zero Num.n100 threshold) n e a.

Definition setNoiseCancellationMode (mode : NoiseCancellationMode) (s : AudioSettingsState) : AudioSettingsState :=
  let 'Build_AudioSettingsState i o g v u b h t _ e a := s in
  Build_AudioSettingsState i o g v u b h t mode e a.

Definition setEchoCancellation (enabled : bool) (s : AudioSettingsState) : AudioSettingsState :=
  let 'Build_AudioSettingsState i o g v u b h t n _ a := s in
  Build_AudioSettingsState i o g v u b h t n enabled a.

Definition setAutoGainControl (enabled : bool) (s : AudioSettingsState) : AudioSettingsState :=
  let 'Build_AudioSettingsState i o g v u b h t n e _ := s in
  Build_AudioSettingsState i o g v u b h t n e enabled.

Definition hydrateFromProfile (prefs : ProfilePrefs) (s : AudioSettingsState)
    : AudioSettingsState :=
  let mode :=
    match p_noiseCancellationMode prefs ≫= mode_of_string with
    | Some mode => mode
    | None =>
        match p_noiseSuppression prefs with
        | Some suppression => if suppression then standard else off
        | None => noiseCancellationMode s
        end
    end in
  setAutoGainControl (p_autoGainControl prefs)
    (setEchoCancellation (p_echoCancellation prefs) (setNoiseCancellationMode mode s)).

Inductive action :=
  | SetInputDevice (id : option string)
  | SetOutputDevice (id : option string)
  | SetInputGain (gain : number)
  | SetOutputVolume (volume : number)
  | SetPerUserVolume (userId : string) (volume : number)
  | SetSoundboardVolume (volume : number)
  | SetHearOwnSoundboard (enabled : bool)
  | SetGigaThreshold (threshold : number)
  | SetNoiseCancellationMode (mode : NoiseCancellationMode)
  | SetEchoCancellation (enabled : bool)
  | SetAutoGainControl (enabled : bool)
  | HydrateFromProfile (prefs : ProfilePrefs).

Definition perform (a : action) : AudioSettingsState → AudioSettingsState :=
  match a with
  | SetInputDevice d => setInputDevice d
  | SetOutputDevice d => setOutputDevice d
  | SetInputGain n => setInputGain n
  | SetOutputVolume n => setOutputVolume n
  | SetPerUserVolume u n => setPerUserVolume u n
  | SetSoundboardVolume n => setSoundboardVolume n
  | SetHearOwnSoundboard b => setHearOwnSoundboard b
  | SetGigaThreshold n => setGigaThreshold n
  | SetNoiseCancellationMode m => setNoiseCancellationMode m
  | SetEchoCancellation b => setEchoCancellation b
  | SetAutoGainControl b => setAutoGainControl b
  | HydrateFromProfile p => hydrateFromProfile p
  end.

(** A slider is never set to NaN. *)
Definition arg_ok (a : action) : Prop :=
  match a with
  | SetInputGain n | SetOutputVolume n | SetPerUserVolume _ n | SetSoundboardVolume n
  | SetGigaThreshold n => Num.is_nan n = false
  | _ => True
  end.
Definition args_ok (a : action) (_ : AudioSettingsState) : Prop := arg_ok a.

(** ** Every slider is in its range *)

Record sliders_ok (s : AudioSettingsState) : Prop := {
  ok_gain : in_range Num.two (inputGain s);
  ok_volume : in_range Num.one (outputVolume s);
  ok_soundboard : in_range Num.two (soundboardVolume s);
  ok_threshold : in_range Num.n100 (gigaThreshold s);
}.
Definition users_ok (s : AudioSettingsState) : Prop :=
  map_Forall (λ _ j, ∃ n, j = JNum n ∧ in_range Num.two n) (perUserVolumes s).

Lemma initial_sliders hw : sliders_ok (initialState hw).
Proof. by split. Qed.

Lemma perform_sliders a s : args_ok a s → sliders_ok s → sliders_ok (perform a s).
Proof.
  destruct s. intros Ha [Hg Hv Hb Ht].
  destruct a; split; simpl in *; auto with meza.
Qed.
Lemma perform_users a s : args_ok a s → users_ok s → users_ok (perform a s).
Proof.
  destruct s. intros Ha Hu. destruct a; try exact Hu.
  apply map_Forall_insert_2; [|done]. eexists. split; [done|]. auto with meza.
Qed.
Lemma load_sliders hw item : sliders_ok (loadFromStorage hw item).
Proof.
  destruct (initial_sliders hw) as [Hg Hv Hb Ht].
  split; simpl; auto using load_slider_in_range with meza.
Qed.

(** whatever JSON storage holds and whatever the sliders are moved to, the gain, the
    volumes and the gate threshold the audio pipeline reads are numbers in their
    ranges. *)
Theorem audio_sliders_in_range hw item ops :
  Forall arg_ok ops →
  let s := foldl (λ s a, perform a s) (loadFromStorage hw item) ops in
  (Num.le Num.zero (inputGain s) = true ∧ Num.le (inputGain s) Num.two = true) ∧
  (Num.le Num.zero (outputVolume s) = true ∧ Num.le (outputVolume s) Num.one = true) ∧
  (Num.le Num.zero (soundboardVolume s) = true ∧
   Num.le (soundboardVolume s) Num.two = true) ∧
  (Num.le Num.zero (gigaThreshold s) = true ∧ Num.le (gigaThreshold s) Num.n100 = true).
Proof.
  intros Hops. cbv zeta.
  assert (Hs : sliders_ok (foldl (λ s a, perform a s) (loadFromStorage hw item) ops)).
  { generalize (load_sliders hw item). generalize (loadFromStorage hw item).
    induction Hops as [|a ops Ha _ IH]; intros s Hs; simpl; [done|].
    apply IH, perform_sliders; auto. }
  destruct Hs as [Hg Hv Hb Ht].
  split; [exact (in_range_le _ _ bound_two Hg)|].
  split; [exact (in_range_le _ _ bound_one Hv)|].
  split; [exact (in_range_le _ _ bound_two Hb)|exact (in_range_le _ _ bound_100 Ht)].
Qed.

(** ** What is saved is read back *)

Section device.
Context (hw : Hardware).

#[local] Instance audio_store : Store AudioSettingsState action :=
  {| initial := initialState hw; exec := perform; admissible := args_ok |}.

Lemma audio_reachable_ok s : reachable s → sliders_ok s ∧ users_ok s.
Proof.
  revert s. apply (reachable_invariant (λ s, sliders_ok s ∧ users_ok s)).
  - split; [apply initial_sliders|apply map_Forall_empty].
  - intros a s Ha [Hs Hu]. split; [by apply perform_sliders|by apply perform_users].
Qed.

Lemma users_written s : users_ok s → json_written <$> perUserVolumes s = perUserVolumes s.
Proof.
  intros Hu. apply map_eq. intros k. rewrite lookup_fmap.
  destruct (perUserVolumes s !! k) as [j|] eqn:E; [|done]. simpl.
  destruct (Hu _ _ E) as (n & -> & (_ & Hp & _)). simpl. by rewrite Hp.
Qed.

Lemma audio_load_saved s : reachable s → loadFromStorage hw (Some (saved_json s)) = s.
Proof.
  intros [[Hg Hv Hb Ht] Hu]%audio_reachable_ok.
  pose proof (users_written s Hu) as Hw.
  change (loadFromStorage hw (Some (saved_json s))) with
    {| inputDeviceId := match json_string (Some (json_of_opt_string (inputDeviceId s)))
         with Some d => Some d | None => None end;
       outputDeviceId := match json_string (Some (json_of_opt_string (outputDeviceId s)))
         with Some d => Some d | None => None end;
       inputGain := load_slider Num.two Num.one (Some (json_of_number (inputGain s)));
       outputVolume := load_slider Num.one Num.one (Some (json_of_number (outputVolume s)));
       perUserVolumes :=
         or_default ∅ (json_table (Some (json_of_table (perUserVolumes s))));
       soundboardVolume :=
         load_slider Num.two Num.one (Some (json_of_number (soundboardVolume s)));
       hearOwnSoundboard := hearOwnSoundboard s;
       gigaThreshold := load_slider Num.n100 Num.n50 (Some (json_of_number (gigaThreshold s)));
       noiseCancellationMode :=
         or_default (defaultNoiseCancellationMode hw)
           (mode_of_string (mode_to_string (noiseCancellationMode s)));
       echoCancellation := echoCancellation s; autoGainControl := autoGainControl s |}.
  rewrite !load_slider_saved, json_table_of_table, mode_of_to_string by done. simpl.
  rewrite Hw. by destruct s as [[] []].
Qed.

#[local] Instance audio_persistent : Persistent AudioSettingsState action :=
  {| to_json := saved_json; load := loadFromStorage hw;
     load_fresh := eq_refl; load_to_json := audio_load_saved |}.

(** when no save is scheduled and storage was never full, loading the page again
    gives back exactly the settings the user made, per-user volumes included. *)
Theorem audio_settings_survive_reload (s : Session AudioSettingsState) :
  reachable s → timer s = false →
  settings (session_exec Reload s) = settings s.
Proof. intros Hs Ht. destruct (session_saved s Hs) as (_ & Hl & _). by apply Hl. Qed.
End device.

Definition demo_hw : Hardware :=
  {| hardwareConcurrency := Some 8%Z; deviceMemory := None; supportsAudioWorklet := true |}.

Lemma audio_sliders_in_range_witness :
  Num.le (inputGain (foldl (λ s a, perform a s)
    (loadFromStorage demo_hw (Some (JObj [("inputGain", JNum Num.n50)])))
    [SetGigaThreshold Num.n0_5])) Num.two = true.
Proof.
  apply (audio_sliders_in_range demo_hw (Some (JObj [("inputGain", JNum Num.n50)]))
    [SetGigaThreshold Num.n0_5]).
  repeat constructor.
Defined.

Lemma audio_settings_survive_reload_witness :
  let ops := [Change (SetPerUserVolume "u" Num.n0_5); Change (SetInputGain Num.n100);
              TimerFires false] in
  let s := foldl (λ s a, @session_exec _ _ _ (audio_persistent demo_hw) a s)
    (@initial _ _ (@session_store _ _ _ (audio_persistent demo_hw))) ops in
  inputGain (settings s) = Num.two ∧
  settings (@session_exec _ _ _ (audio_persistent demo_hw) Reload s) = settings s.
Proof.
  split; [reflexivity|].
  apply (audio_settings_survive_reload demo_hw); [|reflexivity].
  apply (reachable_run (Store0 := @session_store _ _ _ (audio_persistent demo_hw))
    [Change (SetPerUserVolume "u" Num.n0_5); Change (SetInputGain Num.n100);
     TimerFires false]).
  by repeat split.
Defined.
