(* ===== verification/Permissions.v ===== *)
(** * Permissions ([store/permissions.ts])

    Permission sets as [bigint] bit masks ([Z], whose bit operations are those of
    two's complement at infinite width), the masks derived from them, and the
    tables that the permission editors are built from. *)

From S2P Require Export Prelude.

Inductive PermissionKey :=
  | KICK_MEMBERS | BAN_MEMBERS | MANAGE_ROLES | ADMINISTRATOR | MANAGE_EMOJIS
  | MANAGE_CHANNELS | MANAGE_MESSAGES | TIMEOUT_MEMBERS | VIEW_AUDIT_LOG
  | EXEMPT_SLOW_MODE | STREAM_VIDEO | MANAGE_SOUNDBOARD | ADD_REACTIONS | VIEW_CHANNEL
  | SEND_MESSAGES | CONNECT | MENTION_EVERYONE | MANAGE_SERVER | CREATE_INVITE
  | EMBED_LINKS | ATTACH_FILES | READ_MESSAGE_HISTORY | USE_EXTERNAL_EMOJIS | SPEAK
  | MUTE_MEMBERS | DEAFEN_MEMBERS | MOVE_MEMBERS | CHANGE_NICKNAME | MANAGE_NICKNAMES
  | MANAGE_WEBHOOKS.

#[export] Instance PermissionKey_eq_dec : EqDecision PermissionKey.
Proof. solve_decision. Defined.

(** The shift of each permission. *)
Definition permission_bit (k : PermissionKey) : Z :=
  match k with
  | KICK_MEMBERS => 0
  | BAN_MEMBERS => 1
  | MANAGE_ROLES => 2
  | ADMINISTRATOR => 3
  | MANAGE_EMOJIS => 4
  | MANAGE_CHANNELS => 5
  | MANAGE_MESSAGES => 6
  | TIMEOUT_MEMBERS => 7
  | VIEW_AUDIT_LOG => 8
  | EXEMPT_SLOW_MODE => 9
  | STREAM_VIDEO => 10
  | MANAGE_SOUNDBOARD => 11
  | ADD_REACTIONS => 12
  | VIEW_CHANNEL => 13
  | SEND_MESSAGES => 14
  | CONNECT => 15
  | MENTION_EVERYONE => 16
  | MANAGE_SERVER => 17
  | CREATE_INVITE => 18
  | EMBED_LINKS => 19
  | ATTACH_FILES => 20
  | READ_MESSAGE_HISTORY => 21
  | USE_EXTERNAL_EMOJIS => 22
  | SPEAK => 23
  | MUTE_MEMBERS => 24
  | DEAFEN_MEMBERS => 25
  | MOVE_MEMBERS => 26
  | CHANGE_NICKNAME => 27
  | MANAGE_NICKNAMES => 28
  | MANAGE_WEBHOOKS => 29
  end.

(** [Permissions.KEY], i.e. [1n << bit] *)
Definition Permissions (k : PermissionKey) : Z := Z.shiftl 1 (permission_bit k).

(** [Object.keys(Permissions)] *)
Definition permission_keys : list PermissionKey :=
  [KICK_MEMBERS; BAN_MEMBERS; MANAGE_ROLES; ADMINISTRATOR; MANAGE_EMOJIS
   ; MANAGE_CHANNELS; MANAGE_MESSAGES; TIMEOUT_MEMBERS; VIEW_AUDIT_LOG; EXEMPT_SLOW_MODE
   ; STREAM_VIDEO; MANAGE_SOUNDBOARD; ADD_REACTIONS; VIEW_CHANNEL; SEND_MESSAGES
   ; CONNECT; MENTION_EVERYONE; MANAGE_SERVER; CREATE_INVITE; EMBED_LINKS; ATTACH_FILES
   ; READ_MESSAGE_HISTORY; USE_EXTERNAL_EMOJIS; SPEAK; MUTE_MEMBERS; DEAFEN_MEMBERS
   ; MOVE_MEMBERS; CHANGE_NICKNAME; MANAGE_NICKNAMES; MANAGE_WEBHOOKS].

Definition ALL_PERMISSIONS : Z := foldl Z.lor 0%Z (Permissions <$> permission_keys).

Definition channel_scoped_keys : list PermissionKey :=
  [MANAGE_MESSAGES; EXEMPT_SLOW_MODE; STREAM_VIDEO; MANAGE_SOUNDBOARD; ADD_REACTIONS
   ; VIEW_CHANNEL; SEND_MESSAGES; CONNECT; MENTION_EVERYONE; MANAGE_EMOJIS; EMBED_LINKS
   ; ATTACH_FILES; READ_MESSAGE_HISTORY; USE_EXTERNAL_EMOJIS; SPEAK; MUTE_MEMBERS
   ; DEAFEN_MEMBERS; MOVE_MEMBERS; MANAGE_WEBHOOKS].

Definition CHANNEL_SCOPED_PERMISSIONS : Z :=
  foldl Z.lor 0%Z (Permissions <$> channel_scoped_keys).

Definition hasPermission (combined perm : Z) : bool :=
  if negb (Z.land combined (Permissions ADMINISTRATOR) =? 0)%Z then true
  else negb (Z.land combined perm =? 0)%Z.

Definition validateChannelScoped (perms : Z) : bool :=
  (Z.land perms (Z.lnot CHANNEL_SCOPED_PERMISSIONS) =? 0)%Z.

Definition validatePermissions (perms : Z) : bool :=
  (Z.land perms (Z.lnot ALL_PERMISSIONS) =? 0)%Z.

(** ** Categories of the editors *)

Inductive PermCategory := general | text | voice | moderation | server.

#[export] Instance PermCategory_eq_dec : EqDecision PermCategory.
Proof. solve_decision. Defined.

Inductive ChannelKind := TextChannel | VoiceChannel.

Definition CHANNEL_TYPE_CATEGORIES (k : ChannelKind) : list PermCategory :=
  match k with TextChannel => [general; text] | VoiceChannel => [general; voice] end.

(** [PERMISSION_INFO[key].category] *)
Definition permission_category (k : PermissionKey) : PermCategory :=
  match k with
  | KICK_MEMBERS | BAN_MEMBERS | TIMEOUT_MEMBERS | MANAGE_NICKNAMES => moderation
  | MANAGE_ROLES | ADMINISTRATOR | MANAGE_EMOJIS | MANAGE_CHANNELS | VIEW_AUDIT_LOG
     | MANAGE_SERVER | MANAGE_WEBHOOKS => server
  | MANAGE_MESSAGES | EXEMPT_SLOW_MODE | ADD_REACTIONS | SEND_MESSAGES
     | MENTION_EVERYONE | EMBED_LINKS | ATTACH_FILES | READ_MESSAGE_HISTORY
     | USE_EXTERNAL_EMOJIS => text
  | STREAM_VIDEO | MANAGE_SOUNDBOARD | CONNECT | SPEAK | MUTE_MEMBERS | DEAFEN_MEMBERS
     | MOVE_MEMBERS => voice
  | VIEW_CHANNEL | CREATE_INVITE | CHANGE_NICKNAME => general
  end.

Definition PERMISSIONS_BY_CATEGORY (c : PermCategory) : list PermissionKey :=
  match c with
  | general =>
      [VIEW_CHANNEL; CREATE_INVITE; CHANGE_NICKNAME]
  | text =>
      [SEND_MESSAGES; EMBED_LINKS; ATTACH_FILES; ADD_REACTIONS; MENTION_EVERYONE
       ; MANAGE_MESSAGES; READ_MESSAGE_HISTORY; USE_EXTERNAL_EMOJIS; EXEMPT_SLOW_MODE]
  | voice =>
      [CONNECT; SPEAK; STREAM_VIDEO; MUTE_MEMBERS; DEAFEN_MEMBERS; MOVE_MEMBERS
       ; MANAGE_SOUNDBOARD]
  | moderation =>
      [KICK_MEMBERS; BAN_MEMBERS; TIMEOUT_MEMBERS; MANAGE_NICKNAMES]
  | server =>
      [ADMINISTRATOR; MANAGE_SERVER; MANAGE_CHANNELS; MANAGE_ROLES; MANAGE_EMOJIS
       ; MANAGE_WEBHOOKS; VIEW_AUDIT_LOG]
  end.

(** ** Properties *)

Lemma permission_keys_complete k : k ∈ permission_keys.
Proof. apply (bool_decide_unpack _). by destruct k. Qed.

Lemma permission_bit_range k : (0 ≤ permission_bit k < 30)%Z.
Proof. destruct k; simpl; lia. Qed.

Lemma Permissions_spec k i :
  (0 ≤ i)%Z → Z.testbit (Permissions k) i = (i =? permission_bit k)%Z.
Proof.
  intros Hi. unfold Permissions. pose proof (permission_bit_range k).
  rewrite Z.shiftl_1_l. destruct (Z.eqb_spec i (permission_bit k)) as [->|Hne].
  - apply Z.pow2_bits_true. lia.
  - apply Z.pow2_bits_false. lia.
Qed.

Lemma land_permission_0 c k :
  negb (Z.land c (Permissions k) =? 0)%Z = Z.testbit c (permission_bit k).
Proof.
  pose proof (permission_bit_range k) as Hr.
  destruct (Z.testbit c (permission_bit k)) eqn:E.
  - apply negb_true_iff, Z.eqb_neq. intros H0.
    apply (f_equal (λ z, Z.testbit z (permission_bit k))) in H0.
    rewrite Z.land_spec, E, Permissions_spec, Z.eqb_refl, Z.bits_0 in H0 by lia. done.
  - apply negb_false_iff, Z.eqb_eq. apply Z.bits_inj'. intros i Hi.
    rewrite Z.land_spec, Permissions_spec, Z.bits_0 by done.
    destruct (Z.eqb_spec i (permission_bit k)) as [->|]; [by rewrite E|apply andb_false_r].
Qed.

Lemma hasPermission_key c k :
  hasPermission c (Permissions k) =
    Z.testbit c (permission_bit ADMINISTRATOR) || Z.testbit c (permission_bit k).
Proof. unfold hasPermission. rewrite !land_permission_0. by destruct (Z.testbit c _). Qed.

(** A mask of permissions holds exactly the bits of its keys. *)
Lemma mask_spec ks i :
  (0 ≤ i)%Z →
  Z.testbit (foldl Z.lor 0%Z (Permissions <$> ks)) i =
    bool_decide (i ∈ permission_bit <$> ks).
Proof.
  intros Hi. assert (Hgen : ∀ acc, Z.testbit (foldl Z.lor acc (Permissions <$> ks)) i =
    Z.testbit acc i || bool_decide (i ∈ permission_bit <$> ks)).
  { induction ks as [|k ks IH]; intros acc; cbn [fmap list_fmap foldl].
    - by rewrite orb_false_r.
    - rewrite IH, Z.lor_spec, Permissions_spec, <-orb_assoc by done. f_equal.
      destruct (Z.eqb_spec i (permission_bit k)) as [->|]; simpl.
      + symmetry. apply bool_decide_eq_true. by left.
      + apply bool_decide_ext. rewrite elem_of_cons. naive_solver. }
  by rewrite Hgen, Z.bits_0.
Qed.

Lemma land_lnot_0 p m :
  (Z.land p (Z.lnot m) =? 0)%Z = true ↔
    ∀ i, (0 ≤ i)%Z → Z.testbit p i = true → Z.testbit m i = true.
Proof.
  rewrite Z.eqb_eq. split.
  - intros H0 i Hi Hp. apply (f_equal (λ z, Z.testbit z i)) in H0.
    rewrite Z.land_spec, Z.lnot_spec, Hp, Z.bits_0 in H0 by done.
    by apply negb_false_iff.
  - intros H. apply Z.bits_inj'. intros i Hi. rewrite Z.land_spec, Z.lnot_spec, Z.bits_0 by done.
    destruct (Z.testbit p i) eqn:E; [|done]. by rewrite H.
Qed.

(** a permission check passes exactly when the combined mask has the bit of the
    permission or the administrator bit, and checking the union of two masks is
    checking either of them. *)
Theorem hasPermission_correct c c' k :
  (hasPermission c (Permissions k) = true ↔
     Z.testbit c (permission_bit k) = true ∨ Z.testbit c (permission_bit ADMINISTRATOR) = true) ∧
  hasPermission (Z.lor c c') (Permissions k) =
    hasPermission c (Permissions k) || hasPermission c' (Permissions k).
Proof.
  split.
  - rewrite hasPermission_key, orb_true_iff. tauto.
  - rewrite !hasPermission_key, !Z.lor_spec.
    by destruct (Z.testbit c (permission_bit ADMINISTRATOR)),
      (Z.testbit c' (permission_bit ADMINISTRATOR)), (Z.testbit c (permission_bit k)),
      (Z.testbit c' (permission_bit k)).
Qed.

(** [validatePermissions] accepts exactly the masks of known permissions, which
    are the integers from 0 to 2^30 - 1; [validateChannelScoped] accepts exactly the
    masks of channel-scoped permissions, so it implies [validatePermissions]. *)
Theorem validate_correct p :
  (validatePermissions p = true ↔ (0 ≤ p < 2 ^ 30)%Z) ∧
  (validateChannelScoped p = true ↔
     ∀ i, (0 ≤ i)%Z → Z.testbit p i = true → i ∈ permission_bit <$> channel_scoped_keys) ∧
  (validateChannelScoped p = true → validatePermissions p = true).
Proof.
  assert (Hall : ALL_PERMISSIONS = Z.ones 30) by reflexivity.
  assert (Hscoped : validateChannelScoped p = true ↔
    ∀ i, (0 ≤ i)%Z → Z.testbit p i = true → i ∈ permission_bit <$> channel_scoped_keys).
  { unfold validateChannelScoped. rewrite land_lnot_0.
    unfold CHANNEL_SCOPED_PERMISSIONS. split; intros H i Hi Hp; specialize (H i Hi Hp).
    - rewrite mask_spec in H by done. by apply bool_decide_eq_true in H.
    - rewrite mask_spec by done. by apply bool_decide_eq_true. }
  split; [|split; [done|]].
  - unfold validatePermissions. rewrite land_lnot_0, Hall. split.
    + intros H. assert (Hp : Z.land p (Z.ones 30) = p).
      { apply Z.bits_inj'. intros i Hi. rewrite Z.land_spec.
        destruct (Z.testbit p i) eqn:E; [by rewrite H|done]. }
      rewrite Z.land_ones in Hp by lia. rewrite <-Hp. apply Z.mod_pos_bound. lia.
    + intros [H0 Hlt] i Hi Hp. rewrite Z.testbit_ones_nonneg by lia. apply Z.ltb_lt.
      destruct (Z.lt_ge_cases i 30); [done|]. exfalso.
      destruct (Z.eq_dec p 0%Z) as [->|Hne]; [by rewrite Z.bits_0 in Hp|].
      rewrite Z.bits_above_log2 in Hp; try done.
      apply Z.log2_lt_pow2; [lia|]. eapply Z.lt_le_trans; [exact Hlt|].
      apply Z.pow_le_mono_r; lia.
  - rewrite Hscoped. intros H. unfold validatePermissions. apply land_lnot_0.
    intros i Hi Hp. unfold ALL_PERMISSIONS. rewrite mask_spec by done.
    apply bool_decide_eq_true. apply list_elem_of_fmap.
    apply (H i Hi), list_elem_of_fmap in Hp as (k & -> & _).
    exists k. split; [done|apply permission_keys_complete].
Qed.

(** the tables of the permission editors are complete: different permissions use
    different bits, every permission is listed under its own category and under no
    other, and no list names a permission twice. *)
Theorem permission_tables k k' c :
  (permission_bit k = permission_bit k' → k = k') ∧
  (k ∈ PERMISSIONS_BY_CATEGORY c ↔ permission_category k = c) ∧
  NoDup (PERMISSIONS_BY_CATEGORY c) ∧ NoDup permission_keys.
Proof.
  split; [|split; [|split]].
  - destruct k, k'; by intros ?.
  - split.
    + intros Hin. assert (Hall : Forall (λ k, permission_category k = c)
        (PERMISSIONS_BY_CATEGORY c)) by (by destruct c; repeat constructor).
      by eapply Forall_forall in Hall.
    + intros <-. apply (bool_decide_unpack _). by destruct k.
  - apply (bool_decide_unpack _). by destruct c.
  - apply (bool_decide_unpack _). vm_compute. done.
Qed.
