(* ===== verification/Models.v ===== *)
(** * The protobuf records the stores hold

    The records of [client/gen/meza/v1] that the client's stores keep, restricted
    to the fields that identify a record, that some modelled code reads or writes,
    or that distinguish two versions of it; the client carries the other fields
    along without looking at them.  An [int32], [uint32] or [bigint] field is a
    [Z], a [bytes] field the list of its octets, an optional field an [option].
    Field names carry the record's initials. *)

From S2P Require Export Prelude JsNumber.

Notation bytes := (list Z).

Record Timestamp := { ts_seconds : Z; ts_nanos : Z }.

Record UserConnection := { uc_platform : string; uc_url : string; uc_label : string }.

Record AudioPreferences := {
  ap_noiseSuppression : bool;
  ap_echoCancellation : bool;
  ap_autoGainControl : bool;
  ap_noiseCancellationMode : string;
}.

Record User := {
  u_id : string;
  u_username : string;
  u_displayName : string;
  u_avatarUrl : string;
  u_createdAt : option Timestamp;
  u_emojiScale : number;
  u_bio : string;
  u_pronouns : string;
  u_bannerUrl : string;
  u_themeColorPrimary : string;
  u_themeColorSecondary : string;
  u_simpleMode : bool;
  u_audioPreferences : option AudioPreferences;
  u_dmPrivacy : string;
  u_signingPublicKey : bytes;
  u_connections : list UserConnection;
  u_friendRequestPrivacy : string;
  u_profilePrivacy : string;
}.

Record Server := {
  sv_id : string;
  sv_name : string;
  sv_iconUrl : string;
  sv_ownerId : string;
  sv_createdAt : option Timestamp;
  sv_welcomeMessage : string;
  sv_rules : string;
  sv_onboardingEnabled : bool;
  sv_rulesRequired : bool;
  sv_defaultChannelPrivacy : bool;
  sv_bannerUrl : string;
}.

Record Channel := {
  ch_id : string;
  ch_serverId : string;
  ch_name : string;
  ch_type : Z;
  ch_position : Z;
  ch_topic : string;
  ch_isPrivate : bool;
  ch_channelGroupId : option string;
  ch_permissionsSynced : bool;
}.

Record ChannelGroup := {
  cg_id : string;
  cg_serverId : string;
  cg_name : string;
  cg_position : Z;
}.

Record PermissionOverride := {
  po_id : string;
  po_targetId : string;
  po_roleId : string;
  po_allow : Z;
  po_deny : Z;
  po_userId : string;
}.

Record DMChannel := { dm_channel : option Channel; dm_participants : list User }.

Record LinkEmbed := { le_url : string; le_title : string; le_description : string }.

Record Attachment := {
  at_id : string;
  at_filename : string;
  at_contentType : string;
  at_sizeBytes : Z;
  at_url : string;
  at_encryptedKey : bytes;
  at_width : Z;
  at_height : Z;
  at_hasThumbnail : bool;
  at_microThumbnail : bytes;
  at_isSpoiler : bool;
}.

Record Message := {
  m_id : string;
  m_channelId : string;
  m_authorId : string;
  m_encryptedContent : bytes;
  m_attachments : list Attachment;
  m_createdAt : option Timestamp;
  m_editedAt : option Timestamp;
  m_replyToId : option string;
  m_embeds : list LinkEmbed;
  m_mentionedUserIds : list string;
  m_mentionEveryone : bool;
  m_mentionedRoleIds : list string;
  m_keyVersion : Z;
  m_type : Z;
}.

Record Member := {
  mb_userId : string;
  mb_serverId : string;
  mb_roleIds : list string;
  mb_nickname : string;
  mb_joinedAt : option Timestamp;
  mb_timedOutUntil : option Timestamp;
  mb_onboardingCompletedAt : option Timestamp;
  mb_rulesAcknowledgedAt : option Timestamp;
  mb_homeUserId : string;
  mb_inviterUserId : string;
}.

Record Role := {
  r_id : string;
  r_serverId : string;
  r_name : string;
  r_permissions : Z;
  r_color : Z;
  r_position : Z;
  r_isSelfAssignable : bool;
}.

Record PinnedMessage := {
  pm_message : option Message;
  pm_pinnedBy : string;
  pm_pinnedAt : option Timestamp;
}.

Record CustomEmoji := {
  ce_id : string;
  ce_serverId : string;
  ce_name : string;
  ce_imageUrl : string;
  ce_animated : bool;
  ce_creatorId : string;
}.

Record SoundboardSound := {
  ss_id : string;
  ss_userId : string;
  ss_serverId : string;
  ss_name : string;
  ss_audioUrl : string;
}.

Record ReactionGroup := { rg_emoji : string; rg_me : bool; rg_userIds : list string }.

Record FriendRequestEntry := {
  fr_user : option User;
  fr_direction : string;
  fr_createdAt : string;
}.

Inductive PresenceStatus :=
  | UNSPECIFIED | ONLINE | IDLE | DND | OFFLINE | INVISIBLE.

#[export] Instance PresenceStatus_eq_dec : EqDecision PresenceStatus.
Proof. solve_decision. Defined.

(** [x.user?.id], [dm.channel?.id], [pin.message?.id] *)
Definition fr_userId (r : FriendRequestEntry) : option string := u_id <$> fr_user r.
Definition dm_channelId (d : DMChannel) : option string := ch_id <$> dm_channel d.
Definition pm_messageId (p : PinnedMessage) : option string := m_id <$> pm_message p.

(** Spreading a message with some fields replaced. *)
Definition m_set_embeds (e : list LinkEmbed) (m : Message) : Message :=
  {| m_id := m_id m; m_channelId := m_channelId m; m_authorId := m_authorId m;
     m_encryptedContent := m_encryptedContent m; m_attachments := m_attachments m;
     m_createdAt := m_createdAt m; m_editedAt := m_editedAt m; m_replyToId := m_replyToId m;
     m_embeds := e;
     m_mentionedUserIds := m_mentionedUserIds m; m_mentionEveryone := m_mentionEveryone m;
     m_mentionedRoleIds := m_mentionedRoleIds m; m_keyVersion := m_keyVersion m;
     m_type := m_type m |}.

Definition m_set_attachments (atts : list Attachment) (m : Message) : Message :=
  {| m_id := m_id m; m_channelId := m_channelId m; m_authorId := m_authorId m;
     m_encryptedContent := m_encryptedContent m; m_attachments := atts;
     m_createdAt := m_createdAt m; m_editedAt := m_editedAt m; m_replyToId := m_replyToId m;
     m_embeds := m_embeds m;
     m_mentionedUserIds := m_mentionedUserIds m; m_mentionEveryone := m_mentionEveryone m;
     m_mentionedRoleIds := m_mentionedRoleIds m; m_keyVersion := m_keyVersion m;
     m_type := m_type m |}.

Definition m_set_decrypted (content : bytes) (atts : list Attachment) (m : Message)
    : Message :=
  {| m_id := m_id m; m_channelId := m_channelId m; m_authorId := m_authorId m;
     m_encryptedContent := content; m_attachments := atts;
     m_createdAt := m_createdAt m; m_editedAt := m_editedAt m; m_replyToId := m_replyToId m;
     m_embeds := m_embeds m;
     m_mentionedUserIds := m_mentionedUserIds m; m_mentionEveryone := m_mentionEveryone m;
     m_mentionedRoleIds := m_mentionedRoleIds m; m_keyVersion := 0; m_type := m_type m |}.

Definition r_set_position (p : Z) (r : Role) : Role :=
  {| r_id := r_id r; r_serverId := r_serverId r; r_name := r_name r;
     r_permissions := r_permissions r; r_color := r_color r; r_position := p;
     r_isSelfAssignable := r_isSelfAssignable r |}.

Record Invite := {
  iv_code : string;
  iv_serverId : string;
  iv_creatorId : string;
  iv_maxUses : Z;
  iv_useCount : Z;
  iv_expiresAt : option Timestamp;
  iv_revoked : bool;
  iv_createdAt : option Timestamp;
}.

Record Ban := {
  bn_serverId : string;
  bn_userId : string;
  bn_reason : string;
  bn_bannedBy : string;
  bn_createdAt : option Timestamp;
}.

Record Report := {
  rp_id : string;
  rp_reporterId : string;
  rp_targetUserId : string;
  rp_targetMessageId : string;
  rp_targetChannelId : string;
  rp_serverId : string;
  rp_snapshotContent : string;
  rp_snapshotAuthorUsername : string;
  rp_snapshotAuthorDisplayName : string;
  rp_category : Z;
  rp_reason : string;
  rp_status : Z;
  rp_createdAt : option Timestamp;
  rp_acknowledgedAt : option Timestamp;
}.

Record ServerSystemMessageConfig := {
  sm_serverId : string;
  sm_welcomeChannelId : option string;
  sm_modLogChannelId : option string;
  sm_joinEnabled : bool;
  sm_joinTemplate : option string;
  sm_leaveEnabled : bool;
  sm_leaveTemplate : option string;
  sm_kickEnabled : bool;
  sm_kickTemplate : option string;
  sm_banEnabled : bool;
  sm_banTemplate : option string;
  sm_timeoutEnabled : bool;
  sm_timeoutTemplate : option string;
}.

Record Webhook := {
  wh_id : string;
  wh_channelId : string;
  wh_serverId : string;
  wh_name : string;
  wh_avatarUrl : string;
  wh_createdBy : string;
  wh_createdAt : option Timestamp;
  wh_updatedAt : option Timestamp;
}.
Record WebhookDelivery := {
  wd_id : string;
  wd_webhookId : string;
  wd_success : bool;
  wd_errorCode : string;
  wd_requestBodyPreview : string;
  wd_messageId : string;
  wd_sourceIp : string;
  wd_latencyMs : Z;
  wd_createdAt : option Timestamp;
}.

Record Device := {
  dv_id : string;
  dv_name : string;
  dv_createdAt : option Timestamp;
  dv_lastSeenAt : option Timestamp;
  dv_isCurrent : bool;
  dv_platform : string;
  dv_pushEnabled : bool;
}.
