(* ===== verification/Messages.v ===== *)
(** * The message store ([store/messages.ts])

    The messages of each channel as an array in display order ([byChannel]) and
    as a table by id ([byId]), the buffer of messages that arrive while the user
    reads history, and the flags of the fetches.  The main theorem is that the
    table is the index of the array in every reachable state. *)

From S2P Require Export Models.

Inductive ViewMode := live | historical.

#[export] Instance ViewMode_eq_dec : EqDecision ViewMode.
Proof. solve_decision. Defined.

Record MessageState := {
  byChannel : gmap string (list Message);
  byId : gmap string (gmap string Message);
  hasMore : gmap string bool;
  isLoading : gmap string bool;
  error : gmap string string;
  viewMode : gmap string ViewMode;
  pendingMessages : gmap string (list Message);
  replyingTo : gmap string Message;
}.

Definition emptyState : MessageState :=
  {| byChannel := ∅; byId := ∅; hasMore := ∅; isLoading := ∅; error := ∅;
     viewMode := ∅; pendingMessages := ∅; replyingTo := ∅ |}.

(** ** Assignments to one field of the draft *)

Definition on_lists (f : gmap string (list Message) → gmap string (list Message))
    (g : gmap string (gmap string Message) → gmap string (gmap string Message))
    (s : MessageState) : MessageState :=
  {| byChannel := f (byChannel s); byId := g (byId s); hasMore := hasMore s;
     isLoading := isLoading s; error := error s; viewMode := viewMode s;
     pendingMessages := pendingMessages s; replyingTo := replyingTo s |}.
Definition on_hasMore f (s : MessageState) : MessageState :=
  {| byChannel := byChannel s; byId := byId s; hasMore := f (hasMore s);
     isLoading := isLoading s; error := error s; viewMode := viewMode s;
     pendingMessages := pendingMessages s; replyingTo := replyingTo s |}.
Definition on_isLoading f (s : MessageState) : MessageState :=
  {| byChannel := byChannel s; byId := byId s; hasMore := hasMore s;
     isLoading := f (isLoading s); error := error s; viewMode := viewMode s;
     pendingMessages := pendingMessages s; replyingTo := replyingTo s |}.
Definition on_error f (s : MessageState) : MessageState :=
  {| byChannel := byChannel s; byId := byId s; hasMore := hasMore s;
     isLoading := isLoading s; error := f (error s); viewMode := viewMode s;
     pendingMessages := pendingMessages s; replyingTo := replyingTo s |}.
Definition on_viewMode f (s : MessageState) : MessageState :=
  {| byChannel := byChannel s; byId := byId s; hasMore := hasMore s;
     isLoading := isLoading s; error := error s; viewMode := f (viewMode s);
     pendingMessages := pendingMessages s; replyingTo := replyingTo s |}.
Definition on_pending f (s : MessageState) : MessageState :=
  {| byChannel := byChannel s; byId := byId s; hasMore := hasMore s;
     isLoading := isLoading s; error := error s; viewMode := viewMode s;
     pendingMessages := f (pendingMessages s); replyingTo := replyingTo s |}.
Definition on_replyingTo f (s : MessageState) : MessageState :=
  {| byChannel := byChannel s; byId := byId s; hasMore := hasMore s;
     isLoading := isLoading s; error := error s; viewMode := viewMode s;
     pendingMessages := pendingMessages s; replyingTo := f (replyingTo s) |}.

(** ** Actions *)

(** Rebuild the byId index from an array of messages. *)
Definition buildByIdIndex (messages : list Message) : gmap string Message :=
  build_index m_id messages.

(** [state.byId[channelId]?.[messageId]] *)
Definition indexed (channelId messageId : string) (s : MessageState) : option Message :=
  idx ← byId s !! channelId; idx !! messageId.

(** Store an array together with its index. *)
Definition put (channelId : string) (ms : list Message) : MessageState → MessageState :=
  on_lists <[channelId := ms]> <[channelId := buildByIdIndex ms]>.

Definition setMessages (channelId : string) (messages : list Message) (s : MessageState)
    : MessageState :=
  on_isLoading (delete channelId) (put channelId messages s).

(** The two loops of [hydrateMessages] that collect the messages to keep. *)
Definition trailing_existing (lastFetchedId : string) (fetchedIndex : gmap string Message)
    (existing : list Message) : list Message :=
  foldl (λ trailing m,
    if str_ltb lastFetchedId (m_id m) && bool_decide (fetchedIndex !! m_id m = None)
    then trailing ++ [m] else trailing) [] existing.

Definition trailing_pending (fetchedIndex : gmap string Message)
    (pending trailing : list Message) : list Message :=
  foldl (λ trailing m,
    if bool_decide (fetchedIndex !! m_id m = None) && negb (has_key m_id (m_id m) trailing)
    then trailing ++ [m] else trailing) trailing pending.

Definition hydrateMessages (channelId : string) (fetched : list Message)
    (s : MessageState) : MessageState :=
  let existing := byChannel s !! channelId in
  let pending := pendingMessages s !! channelId in
  if bool_decide (or_default [] existing = []) && bool_decide (or_default [] pending = [])
  then setMessages channelId fetched s
  else
    let fetchedIndex := buildByIdIndex fetched in
    let lastFetchedId := or_default "" (m_id <$> last fetched) in
    let trailing := trailing_existing lastFetchedId fetchedIndex (or_default [] existing) in
    let '(trailing, s) :=
      match pending with
      | Some pending =>
          (js_sort (cmp_str m_id) (trailing_pending fetchedIndex pending trailing),
           on_pending (delete channelId) s)
      | None => (trailing, s)
      end in
    let merged := fetched ++ trailing in
    on_isLoading (delete channelId) (put channelId merged s).

Definition prependMessages (channelId : string) (messages : list Message)
    (s : MessageState) : MessageState :=
  let existing := or_default [] (byChannel s !! channelId) in
  let index := or_default ∅ (byId s !! channelId) in
  on_isLoading (delete channelId)
    (on_lists <[channelId := messages ++ existing]>
       <[channelId := foldl (λ ix m, <[m_id m := m]> ix) index messages]> s).

Definition MAX_MESSAGES : nat := 500.

Definition addMessage (channelId : string) (message : Message) (s : MessageState)
    : MessageState :=
  match viewMode s !! channelId with
  | Some historical =>
      match indexed channelId (m_id message) s with
      | Some _ => s
      | None =>
          let pending := or_default [] (pendingMessages s !! channelId) in
          if has_key m_id (m_id message) pending
          then on_pending <[channelId := pending]> s
          else on_pending <[channelId := pending ++ [message]]> s
      end
  | _ =>
      match indexed channelId (m_id message) s with
      | Some _ => s
      | None =>
          let arr := or_default [] (byChannel s !! channelId) ++ [message] in
          let excess := length arr - MAX_MESSAGES in
          let evicted := take excess arr in
          let index := foldl (λ ix m, delete (m_id m) ix)
            (or_default ∅ (byId s !! channelId)) evicted in
          on_lists <[channelId := drop excess arr]>
            <[channelId := <[m_id message := message]> index]> s
      end
  end.

Definition updateMessage (channelId : string) (message : Message) (s : MessageState)
    : MessageState :=
  match byChannel s !! channelId with
  | None => s
  | Some messages =>
      match index_key m_id (m_id message) messages with
      | None => s
      | Some idx =>
          on_lists <[channelId := <[idx := message]> messages]>
            (alter <[m_id message := message]> channelId) s
      end
  end.

(** [new Map(updates.map((m) => [m.id, m]))], then one pass over the array. *)
Definition bulkUpdateMessages (channelId : string) (updates : list Message)
    (s : MessageState) : MessageState :=
  match byChannel s !! channelId with
  | None => s
  | Some messages =>
      let updateMap := buildByIdIndex updates in
      let hits := omap (λ m, updateMap !! m_id m) messages in
      on_lists <[channelId := (λ m, or_default m (updateMap !! m_id m)) <$> messages]>
        (alter (λ ix, foldl (λ ix u, <[m_id u := u]> ix) ix hits) channelId) s
  end.

Definition removeMessage (channelId messageId : string) (s : MessageState) : MessageState :=
  match byChannel s !! channelId with
  | None => s
  | Some messages =>
      on_lists <[channelId := without m_id messageId messages]>
        (alter (delete messageId) channelId) s
  end.

Definition removeMessages (channelId : string) (messageIds : list string)
    (s : MessageState) : MessageState :=
  match byChannel s !! channelId with
  | None => s
  | Some messages =>
      let idSet : gset string := list_to_set messageIds in
      on_lists <[channelId := filter (λ m, m_id m ∉ idSet) messages]>
        (alter (λ ix, foldl (λ ix id, delete id ix) ix messageIds) channelId) s
  end.

Definition setHasMore (channelId : string) (more : bool) : MessageState → MessageState :=
  on_hasMore <[channelId := more]>.

Definition setLoading (channelId : string) (loading : bool) : MessageState → MessageState :=
  if loading then on_isLoading <[channelId := true]> else on_isLoading (delete channelId).

Definition setError (channelId : string) (err : option string) (s : MessageState)
    : MessageState :=
  let s := if truthy err then on_error <[channelId := or_default "" err]> s
           else on_error (delete channelId) s in
  on_isLoading (delete channelId) s.

Definition setViewMode (channelId : string) (mode : ViewMode) : MessageState → MessageState :=
  on_viewMode <[channelId := mode]>.

Definition returnToPresent (channelId : string) (s : MessageState) : MessageState :=
  on_pending (delete channelId) (on_viewMode (delete channelId)
    (on_hasMore (delete channelId) (on_lists (delete channelId) (delete channelId) s))).

Definition patchEmbeds (channelId messageId : string) (embeds : list LinkEmbed)
    (s : MessageState) : MessageState :=
  match byChannel s !! channelId with
  | None => s
  | Some messages =>
      match index_key m_id messageId messages with
      | None => s
      | Some idx =>
          on_lists <[channelId := alter (m_set_embeds embeds) idx messages]>
            (alter (alter (m_set_embeds embeds) messageId) channelId) s
      end
  end.

Definition setReplyingTo (channelId : string) (message : option Message)
    : MessageState → MessageState :=
  match message with
  | Some m => on_replyingTo <[channelId := m]>
  | None => on_replyingTo (delete channelId)
  end.

Definition reset (s : MessageState) : MessageState := emptyState.

(** ** The store *)

Inductive action :=
  | SetMessages (c : string) (ms : list Message)
  | HydrateMessages (c : string) (ms : list Message)
  | PrependMessages (c : string) (ms : list Message)
  | AddMessage (c : string) (m : Message)
  | UpdateMessage (c : string) (m : Message)
  | BulkUpdateMessages (c : string) (ms : list Message)
  | RemoveMessage (c id : string)
  | RemoveMessages (c : string) (ids : list string)
  | SetHasMore (c : string) (b : bool)
  | SetLoading (c : string) (b : bool)
  | SetError (c : string) (e : option string)
  | SetViewMode (c : string) (v : ViewMode)
  | ReturnToPresent (c : string)
  | PatchEmbeds (c id : string) (es : list LinkEmbed)
  | SetReplyingTo (c : string) (m : option Message)
  | Reset.

Definition perform (a : action) : MessageState → MessageState :=
  match a with
  | SetMessages c ms => setMessages c ms
  | HydrateMessages c ms => hydrateMessages c ms
  | PrependMessages c ms => prependMessages c ms
  | AddMessage c m => addMessage c m
  | UpdateMessage c m => updateMessage c m
  | BulkUpdateMessages c ms => bulkUpdateMessages c ms
  | RemoveMessage c id => removeMessage c id
  | RemoveMessages c ids => removeMessages c ids
  | SetHasMore c b => setHasMore c b
  | SetLoading c b => setLoading c b
  | SetError c e => setError c e
  | SetViewMode c v => setViewMode c v
  | ReturnToPresent c => returnToPresent c
  | PatchEmbeds c id es => patchEmbeds c id es
  | SetReplyingTo c m => setReplyingTo c m
  | Reset => reset
  end.

(** A page of messages holds every id once, and an older page none of the
    messages already loaded. *)
Definition page_ok (a : action) (s : MessageState) : Prop :=
  match a with
  | SetMessages _ ms | HydrateMessages _ ms => NoDup (m_id <$> ms)
  | PrependMessages c ms =>
      NoDup (m_id <$> ms) ∧
      ∀ m, m ∈ ms → indexed c (m_id m) s = None
  | _ => True
  end.

#[export] Instance message_store : Store MessageState action :=
  {| initial := emptyState; exec := perform; admissible := page_ok |}.

(** ** The table is the index of the array *)

Definition channel_ok (ms : option (list Message)) (ix : option (gmap string Message))
    : Prop :=
  match ms, ix with
  | Some l, Some m => NoDup (m_id <$> l) ∧ m = buildByIdIndex l
  | None, None => True
  | _, _ => False
  end.

Definition consistent (s : MessageState) : Prop :=
  ∀ c, channel_ok (byChannel s !! c) (byId s !! c).

Lemma index_lookup l k :
  NoDup (m_id <$> l) → buildByIdIndex l !! k = find_key m_id k l.
Proof. apply build_index_lookup. Qed.

Lemma index_eq l (m : gmap string Message) :
  NoDup (m_id <$> l) → (∀ k, m !! k = find_key m_id k l) → m = buildByIdIndex l.
Proof. intros Hnd Hm. apply map_eq. intros k. by rewrite Hm, index_lookup. Qed.

Lemma consistent_loaded c s ms :
  consistent s → byChannel s !! c = Some ms →
  NoDup (m_id <$> ms) ∧ byId s !! c = Some (buildByIdIndex ms).
Proof.
  intros Hs Hc. specialize (Hs c). rewrite Hc in Hs. simpl in Hs.
  destruct (byId s !! c); naive_solver.
Qed.

Lemma consistent_indexed c s k :
  consistent s →
  indexed c k s = ms ← byChannel s !! c; find_key m_id k ms.
Proof.
  intros Hs. specialize (Hs c). unfold indexed.
  destruct (byChannel s !! c), (byId s !! c); simpl in *; try done.
  destruct Hs as [Hnd ->]. by apply index_lookup.
Qed.

(** Rebuilding one channel from the array it ends with. *)
Lemma on_lists_consistent c ms ix s (f : gmap string (list Message) → _) g :
  consistent s →
  f (byChannel s) = <[c := ms]> (byChannel s) → g (byId s) = <[c := ix]> (byId s) →
  NoDup (m_id <$> ms) → (∀ k, ix !! k = find_key m_id k ms) →
  consistent (on_lists f g s).
Proof.
  intros Hs Hf Hg Hnd Hix c'. simpl. rewrite Hf, Hg. by_key c' c; [|apply Hs].
  split; [done|]. by apply index_eq.
Qed.

Lemma put_consistent c ms s :
  NoDup (m_id <$> ms) → consistent s → consistent (put c ms s).
Proof.
  intros Hnd Hs. eapply on_lists_consistent; try done. intros k. by apply index_lookup.
Qed.

(** A loaded channel's table, altered in place, is an inserted table. *)
Lemma alter_loaded {V} (g : V → V) c (m : gmap string V) v :
  m !! c = Some v → alter g c m = <[c := g v]> m.
Proof.
  intros Hc. apply map_eq. intros k. rewrite lookup_alter, lookup_insert.
  case_decide; simplify_eq; by rewrite ?Hc.
Qed.

Lemma insert_key_alter k (m : Message) l i :
  index_key m_id k l = Some i → <[i := m]> l = replace_key m_id k m l.
Proof. unfold replace_key. by intros ->. Qed.

#[export] Hint Resolve put_consistent : meza.

(** *** The loops of [hydrateMessages] *)

Lemma trailing_existing_filter lastId fi ms :
  trailing_existing lastId fi ms =
    filter (λ m, str_ltb lastId (m_id m) = true ∧ fi !! m_id m = None) ms.
Proof.
  unfold trailing_existing. rewrite foldl_push_filter. apply list_filter_iff.
  intros m. by rewrite andb_true_iff, bool_decide_eq_true.
Qed.

Lemma trailing_pending_spec fi pending tr :
  NoDup (m_id <$> tr) →
  ∃ extra, trailing_pending fi pending tr = tr ++ extra ∧
    NoDup (m_id <$> (tr ++ extra)) ∧
    (∀ m, m ∈ extra → m ∈ pending ∧ fi !! m_id m = None) ∧
    (∀ m, m ∈ pending → fi !! m_id m = None → m_id m ∈ m_id <$> (tr ++ extra)).
Proof.
  unfold trailing_pending. revert tr.
  induction pending as [|p ps IH]; intros tr Hnd; cbn [foldl].
  - exists []. rewrite app_nil_r. set_solver.
  - case_match eqn:E.
    + apply andb_true_iff in E as [Hfi%bool_decide_eq_true Hk%negb_true_iff].
      destruct (IH (tr ++ [p])) as (extra & Heq & Hnd' & Hin & Hcov);
        [by apply NoDup_push|].
      exists (p :: extra). rewrite Heq, <-app_assoc in *. split; [done|].
      split; [done|]. split; [set_solver|]. intros m [->|Hm]%elem_of_cons ?; [|auto].
      rewrite !fmap_app. set_solver.
    + destruct (IH tr Hnd) as (extra & Heq & Hnd' & Hin & Hcov).
      exists extra. split; [done|]. split; [done|]. split; [set_solver|].
      intros m [->|Hm]%elem_of_cons Hfi; [|auto].
      rewrite (bool_decide_eq_true_2 _ Hfi) in E. simpl in E.
      apply negb_false_iff, has_key_true in E as (x & Hx & <-).
      rewrite fmap_app. apply elem_of_app. left. by apply list_elem_of_fmap_2.
Qed.

(** Messages missing from a page can follow it, and every message is then found. *)
Lemma page_push fetched tr :
  NoDup (m_id <$> fetched) → NoDup (m_id <$> tr) →
  (∀ m, m ∈ tr → buildByIdIndex fetched !! m_id m = None) →
  NoDup (m_id <$> (fetched ++ tr)).
Proof.
  intros Hnd Hl Hfree. rewrite fmap_app. apply NoDup_app. split; [done|]. split; [|done].
  intros k Hk (m & -> & Hm)%list_elem_of_fmap. specialize (Hfree m Hm).
  by apply build_index_None in Hfree.
Qed.

Lemma page_covers fetched tr m :
  (buildByIdIndex fetched !! m_id m = None → m_id m ∈ m_id <$> tr) →
  m_id m ∈ m_id <$> (fetched ++ tr).
Proof.
  intros Hm. rewrite fmap_app. apply elem_of_app.
  destruct (decide (m_id m ∈ m_id <$> fetched)) as [|Hn]; [by left|right].
  by apply Hm, build_index_None.
Qed.

(** The page followed by the messages to keep, as [hydrateMessages] collects them. *)
Record trailing_ok (fetched existing pending tr : list Message) : Prop := {
  tok_nodup : NoDup (m_id <$> (fetched ++ tr));
  tok_origin : ∀ m, m ∈ tr → m ∈ pending ∨
    m ∈ existing ∧ str_ltb (or_default "" (m_id <$> last fetched)) (m_id m) = true;
  tok_existing : ∀ m, m ∈ existing →
    str_ltb (or_default "" (m_id <$> last fetched)) (m_id m) = true →
    m_id m ∈ m_id <$> (fetched ++ tr);
  tok_pending : ∀ m, m ∈ pending → m_id m ∈ m_id <$> (fetched ++ tr);
}.

Lemma trailing_existing_ok fetched existing :
  NoDup (m_id <$> fetched) → NoDup (m_id <$> existing) →
  trailing_ok fetched existing [] (trailing_existing
    (or_default "" (m_id <$> last fetched)) (buildByIdIndex fetched) existing).
Proof.
  intros Hnd Hex. rewrite trailing_existing_filter.
  split; [apply page_push; [done|by apply NoDup_filter_keys|]| | |set_solver].
  - intros m. rewrite list_elem_of_filter. naive_solver.
  - intros m. rewrite list_elem_of_filter. naive_solver.
  - intros m Hm Hlt. apply page_covers. intros Hfi. apply list_elem_of_fmap_2.
    by apply list_elem_of_filter.
Qed.

Lemma trailing_pending_ok fetched existing pending tr :
  NoDup (m_id <$> fetched) →
  trailing_ok fetched existing [] tr →
  (∀ m, m ∈ tr → buildByIdIndex fetched !! m_id m = None) →
  trailing_ok fetched existing pending
    (js_sort (cmp_str m_id) (trailing_pending (buildByIdIndex fetched) pending tr)).
Proof.
  intros Hnd [Hall Horigin Hexist _] Hfree.
  assert (Htr : NoDup (m_id <$> tr))
    by (rewrite fmap_app in Hall; by apply NoDup_app in Hall as (_ & _ & ?)).
  destruct (trailing_pending_spec (buildByIdIndex fetched) pending tr Htr)
    as (extra & -> & Hnd' & Hextra & Hcov).
  split.
  - apply page_push; [done|by apply js_sort_keys_NoDup|].
    intros m. rewrite js_sort_elem_of, elem_of_app. naive_solver.
  - intros m. rewrite js_sort_elem_of, elem_of_app. set_solver.
  - intros m Hm Hlt. specialize (Hexist m Hm Hlt). revert Hexist.
    rewrite !fmap_app, js_sort_perm, fmap_app, !elem_of_app. tauto.
  - intros m Hm. apply page_covers. rewrite js_sort_perm. auto.
Qed.

(** What [hydrateMessages] stores: the page, then messages that are not on it. *)
Lemma hydrate_spec c fetched s :
  NoDup (m_id <$> fetched) → consistent s →
  ∃ tr s', hydrateMessages c fetched s =
      on_isLoading (delete c) (put c (fetched ++ tr) s') ∧
    (s' = s ∨ s' = on_pending (delete c) s) ∧
    or_default [] (pendingMessages s' !! c) = [] ∧
    trailing_ok fetched (or_default [] (byChannel s !! c))
      (or_default [] (pendingMessages s !! c)) tr ∧
    (cmp_sorted (cmp_str m_id) tr ∨ tr `sublist_of` or_default [] (byChannel s !! c)).
Proof.
  intros Hnd Hs. unfold hydrateMessages, setMessages.
  set (ex := or_default [] (byChannel s !! c)).
  assert (Hex : NoDup (m_id <$> ex)).
  { unfold ex. destruct (byChannel s !! c) eqn:E; [|constructor].
    by apply (consistent_loaded c s). }
  pose proof (trailing_existing_ok fetched ex Hnd Hex) as Hok.
  destruct (bool_decide (ex = []) && _) eqn:Hempty.
  { apply andb_true_iff in Hempty as [->%bool_decide_eq_true Hp%bool_decide_eq_true].
    rewrite Hp. exists [], s. rewrite app_nil_r.
    split; [done|]. split; [by left|]. split; [done|]. split; [done|]. left. constructor. }
  destruct (pendingMessages s !! c) as [pend|] eqn:Hpend; cbn [or_default] in *.
  - eexists _, _. split; [reflexivity|]. split; [by right|].
    split; [simpl; by rewrite lookup_delete_eq|]. split.
    + apply trailing_pending_ok; [done..|].
      rewrite trailing_existing_filter. intros m. rewrite list_elem_of_filter. naive_solver.
    + left. apply js_sort_sorted, _.
  - eexists _, _. split; [reflexivity|]. split; [by left|].
    split; [by rewrite Hpend|]. split; [done|].
    right. rewrite trailing_existing_filter. apply sublist_filter.
Qed.

(** *** Every action keeps the table consistent *)

Lemma hydrate_consistent c fetched s :
  NoDup (m_id <$> fetched) → consistent s → consistent (hydrateMessages c fetched s).
Proof.
  intros Hnd Hs. destruct (hydrate_spec c fetched s Hnd Hs)
    as (tr & s' & -> & Hs' & _ & [Hall _ _ _] & _).
  change (consistent (put c (fetched ++ tr) s')). apply put_consistent; [done|].
  by destruct Hs' as [-> | ->].
Qed.

Lemma prepend_consistent c ms s :
  NoDup (m_id <$> ms) → (∀ m, m ∈ ms → indexed c (m_id m) s = None) →
  consistent s → consistent (prependMessages c ms s).
Proof.
  intros Hnd Hfree Hs. unfold prependMessages.
  set (ex := or_default [] (byChannel s !! c)).
  assert (Hix : ∀ k, or_default ∅ (byId s !! c) !! k = find_key m_id k ex).
  { intros k. pose proof (consistent_indexed c s k Hs) as E. unfold indexed, ex in *.
    destruct (byChannel s !! c), (byId s !! c); simpl in *; rewrite ?lookup_empty; done. }
  assert (Hex : NoDup (m_id <$> ex)).
  { unfold ex. destruct (byChannel s !! c) eqn:E; [|constructor].
    by apply (consistent_loaded c s). }
  assert (Hdis : ∀ m, m ∈ ms → m_id m ∉ m_id <$> ex).
  { intros m Hm Hin. specialize (Hfree m Hm). rewrite consistent_indexed in Hfree by done.
    unfold ex in Hin. destruct (byChannel s !! c); simpl in *; [|set_solver].
    by apply find_key_None in Hfree. }
  change (consistent (on_lists <[c := ms ++ ex]>
    <[c := foldl (λ ix m, <[m_id m := m]> ix) (or_default ∅ (byId s !! c)) ms]> s)).
  eapply on_lists_consistent; try done.
  - rewrite fmap_app. apply NoDup_app. split; [done|]. split; [|done].
    intros k (m & -> & Hm)%list_elem_of_fmap. auto.
  - intros k. rewrite build_index_lookup_gen, find_key_rev, find_key_app by done.
    by rewrite Hix.
Qed.

Lemma add_consistent c m s : consistent s → consistent (addMessage c m s).
Proof.
  intros Hs. unfold addMessage.
  assert (Hlive : consistent (match indexed c (m_id m) s with
    | Some _ => s
    | None =>
        let arr := or_default [] (byChannel s !! c) ++ [m] in
        let excess := length arr - MAX_MESSAGES in
        on_lists <[c := drop excess arr]> <[c := <[m_id m := m]>
          (foldl (λ ix m, delete (m_id m) ix) (or_default ∅ (byId s !! c))
             (take excess arr))]> s
    end)).
  { destruct (indexed c (m_id m) s) eqn:Hnew; [done|]. cbn zeta.
    set (arr := or_default [] (byChannel s !! c)).
    set (excess := length (arr ++ [m]) - MAX_MESSAGES).
    assert (Harr : NoDup (m_id <$> arr) ∧
      ∀ k, or_default ∅ (byId s !! c) !! k = find_key m_id k arr).
    { pose proof (Hs c) as Hc. unfold arr.
      destruct (byChannel s !! c), (byId s !! c); simpl in *; try done.
      - destruct Hc as [? ->]. split; [done|]. intros. by apply index_lookup.
      - split; [constructor|]. intros. apply lookup_empty. }
    destruct Harr as [Hnd Hix].
    assert (Hfresh : m_id m ∉ m_id <$> arr).
    { rewrite consistent_indexed in Hnew by done. unfold arr.
      destruct (byChannel s !! c); simpl in *; [by apply find_key_None|set_solver]. }
    assert (Hpush : NoDup (m_id <$> (arr ++ [m]))) by (apply NoDup_push, Hnd; by apply has_key_false).
    assert (Hex : excess ≤ length arr)
      by (unfold excess, MAX_MESSAGES; rewrite length_app; simpl; lia).
    eapply on_lists_consistent; try done; [by apply NoDup_drop_keys|].
    intros k. rewrite find_key_drop by done. rewrite take_app_le by done.
    rewrite lookup_insert, lookup_delete_all, Hix, find_key_app, find_key_cons, find_key_nil.
    destruct (decide (m_id m = k)) as [<-|].
    - rewrite decide_False; [by apply find_key_None in Hfresh as ->|].
      contradict Hfresh. revert Hfresh. rewrite <-(take_drop excess arr) at 2.
      rewrite fmap_app, elem_of_app. tauto.
    - case_decide; [done|]. by destruct (find_key m_id k arr). }
  destruct (viewMode s !! c) as [[]|]; try exact Hlive.
  destruct (indexed c (m_id m) s); [done|]. by case_match.
Qed.

Lemma update_consistent c m s : consistent s → consistent (updateMessage c m s).
Proof.
  intros Hs. unfold updateMessage. destruct (byChannel s !! c) as [ms|] eqn:Hc; [|done].
  destruct (consistent_loaded c s ms Hs Hc) as [Hnd Hix].
  destruct (index_key m_id (m_id m) ms) as [i|] eqn:Hi; [|done].
  eapply on_lists_consistent; try done.
  - by apply alter_loaded.
  - rewrite (insert_key_alter _ _ _ _ Hi). by apply NoDup_replace.
  - intros k. rewrite (insert_key_alter _ _ _ _ Hi), find_key_replace by done.
    rewrite lookup_insert, index_lookup by done.
    assert (Hk : has_key m_id (m_id m) ms = true).
    { apply has_key_find. destruct (find_key _ _ _) eqn:E; [done|].
      apply find_key_None, index_key_None in E. congruence. }
    rewrite Hk. repeat case_decide; congruence.
Qed.

Lemma remove_consistent c id s : consistent s → consistent (removeMessage c id s).
Proof.
  intros Hs. unfold removeMessage. destruct (byChannel s !! c) as [ms|] eqn:Hc; [|done].
  destruct (consistent_loaded c s ms Hs Hc) as [Hnd Hix].
  eapply on_lists_consistent; try done.
  - by apply alter_loaded.
  - by apply NoDup_without.
  - intros k. rewrite find_key_without, lookup_delete, index_lookup by done.
    repeat case_decide; congruence.
Qed.

Lemma removes_consistent c ids s : consistent s → consistent (removeMessages c ids s).
Proof.
  intros Hs. unfold removeMessages. destruct (byChannel s !! c) as [ms|] eqn:Hc; [|done].
  destruct (consistent_loaded c s ms Hs Hc) as [Hnd Hix].
  eapply on_lists_consistent; try done.
  - by apply alter_loaded.
  - by apply NoDup_filter_keys.
  - intros k. set (S := list_to_set ids : gset string).
    etrans; [|symmetry; exact (find_key_filter m_id (λ i, i ∉ S) k ms)].
    rewrite (lookup_delete_all id), list_fmap_id, index_lookup by done.
    repeat case_decide; set_solver.
Qed.

Lemma patch_consistent c id es s : consistent s → consistent (patchEmbeds c id es s).
Proof.
  intros Hs. unfold patchEmbeds. destruct (byChannel s !! c) as [ms|] eqn:Hc; [|done].
  destruct (consistent_loaded c s ms Hs Hc) as [Hnd Hix].
  destruct (index_key m_id id ms) as [i|] eqn:Hi; [|done].
  assert (Heq : alter (m_set_embeds es) i ms = modify_key m_id id (m_set_embeds es) ms)
    by (unfold modify_key; by rewrite Hi).
  eapply on_lists_consistent; try done.
  - by apply alter_loaded.
  - rewrite Heq. by apply NoDup_modify.
  - intros k. rewrite Heq, find_key_modify by done.
    rewrite lookup_alter, !index_lookup by done. repeat case_decide; congruence.
Qed.

Section bulk.
Context (um : gmap string Message).
Context (Hum : ∀ k u, um !! k = Some u → m_id u = k).

Lemma bulk_keys (ms : list Message) :
  m_id <$> ((λ m, or_default m (um !! m_id m)) <$> ms) = m_id <$> ms.
Proof.
  induction ms as [|m ms IH]; [done|]. rewrite !fmap_cons, IH. f_equal.
  destruct (um !! m_id m) eqn:E; simpl; eauto.
Qed.

Lemma bulk_find (ms : list Message) k :
  find_key m_id k ((λ m, or_default m (um !! m_id m)) <$> ms) =
    (λ m, or_default m (um !! k)) <$> find_key m_id k ms.
Proof.
  induction ms as [|m ms IH]; [done|]. rewrite fmap_cons, !find_key_cons, IH.
  assert (Hid : m_id (or_default m (um !! m_id m)) = m_id m)
    by (destruct (um !! m_id m) eqn:E; simpl; eauto).
  rewrite Hid. case_decide; by subst.
Qed.

Lemma bulk_hits_find (ms : list Message) k :
  find_key m_id k (omap (λ m, um !! m_id m) ms) =
    if decide (k ∈ m_id <$> ms) then um !! k else None.
Proof.
  induction ms as [|m ms IH]; [done|]. rewrite fmap_cons. cbn [omap list_omap].
  destruct (decide (k = m_id m)) as [->|Hne].
  - rewrite (decide_True (P := m_id m ∈ _ :: _)) by by apply elem_of_cons; left.
    destruct (um !! m_id m) as [u|] eqn:E.
    + rewrite find_key_cons. rewrite (Hum _ _ E). by rewrite decide_True.
    + change (find_key m_id (m_id m) (omap (λ m, um !! m_id m) ms) = None).
      rewrite IH. by case_decide.
  - assert (Hh : find_key m_id k (match um !! m_id m with
        | Some u => u :: omap (λ m, um !! m_id m) ms
        | None => omap (λ m, um !! m_id m) ms end) =
        find_key m_id k (omap (λ m, um !! m_id m) ms)).
    { destruct (um !! m_id m) as [u|] eqn:E; [|done]. rewrite find_key_cons.
      rewrite (Hum _ _ E). by rewrite decide_False. }
    etrans; [exact Hh|]. rewrite IH. repeat case_decide; set_solver.
Qed.

Lemma bulk_hits_keys (ms : list Message) :
  NoDup (m_id <$> ms) → NoDup (m_id <$> omap (λ m, um !! m_id m) ms).
Proof.
  induction ms as [|m ms IH]; [done|]. rewrite fmap_cons, NoDup_cons. intros [Hm Hnd].
  cbn [omap list_omap]. destruct (um !! m_id m) as [u|] eqn:E; [|by apply IH].
  rewrite fmap_cons, NoDup_cons. split; [|by apply IH].
  rewrite (Hum _ _ E). apply find_key_None.
  etrans; [apply bulk_hits_find|]. by rewrite decide_False.
Qed.
End bulk.

Lemma index_keys l k u : buildByIdIndex l !! k = Some u → m_id u = k ∧ u ∈ l.
Proof. apply build_index_Some_inv. Qed.

Lemma bulk_consistent c us s : consistent s → consistent (bulkUpdateMessages c us s).
Proof.
  intros Hs. unfold bulkUpdateMessages.
  destruct (byChannel s !! c) as [ms|] eqn:Hc; [|done].
  destruct (consistent_loaded c s ms Hs Hc) as [Hnd Hix].
  assert (Hum : ∀ k u, buildByIdIndex us !! k = Some u → m_id u = k)
    by (intros k u ?%index_keys; tauto).
  eapply on_lists_consistent; try done.
  - by apply alter_loaded.
  - by rewrite bulk_keys.
  - intros k. rewrite bulk_find, build_index_lookup_gen by done.
    rewrite find_key_rev by by apply bulk_hits_keys.
    rewrite bulk_hits_find, (index_lookup ms) by done.
    case_decide as Hk; [|by apply find_key_None in Hk as ->].
    destruct (find_key m_id k ms) eqn:E; [|by apply find_key_None in E].
    by destruct (buildByIdIndex us !! k).
Qed.

Lemma return_consistent c s : consistent s → consistent (returnToPresent c s).
Proof. intros Hs c'. specialize (Hs c'). simpl. rewrite !lookup_delete. by case_decide. Qed.

Lemma perform_consistent a s : page_ok a s → consistent s → consistent (perform a s).
Proof.
  intros Hok Hs. destruct a; simpl in *.
  - by apply put_consistent.
  - by apply hydrate_consistent.
  - destruct Hok. by apply prepend_consistent.
  - by apply add_consistent.
  - by apply update_consistent.
  - by apply bulk_consistent.
  - by apply remove_consistent.
  - by apply removes_consistent.
  - done.
  - unfold setLoading. by case_match.
  - unfold setError. by case_match.
  - done.
  - by apply return_consistent.
  - by apply patch_consistent.
  - unfold setReplyingTo. by case_match.
  - intros c. by simpl.
Qed.

(** ** Properties *)

Lemma reachable_consistent s : reachable s → consistent s.
Proof.
  apply reachable_invariant; [by intros c|]. intros a s' Hok. by apply perform_consistent.
Qed.

(** C24: in every state the store reaches, a channel has a table exactly when it
    has an array, no message id occurs twice in the array, and looking an id up
    in [byId] gives the message with that id in [byChannel]. *)
Theorem messages_index_invariant s c :
  reachable s →
  (is_Some (byChannel s !! c) ↔ is_Some (byId s !! c)) ∧
  ∀ ms, byChannel s !! c = Some ms →
    NoDup (m_id <$> ms) ∧ ∀ id, indexed c id s = find_key m_id id ms.
Proof.
  intros Hs%reachable_consistent. split.
  - specialize (Hs c). destruct (byChannel s !! c), (byId s !! c); naive_solver.
  - intros ms Hc. split; [by apply (consistent_loaded c s)|].
    intros id. by rewrite consistent_indexed, Hc.
Qed.

Lemma kept_length (l : list Message) m :
  drop (length (l ++ [m]) - MAX_MESSAGES) (l ++ [m]) =
    drop (length l - 499) l ++ [m].
Proof.
  rewrite length_app. cbn [length]. unfold MAX_MESSAGES.
  replace (length l + 1 - 500) with (length l - 499) by lia.
  apply drop_app_le. lia.
Qed.

(** [addMessage] of a message the channel does not have.  In live mode the
    message is appended and findable by its id, and at most 499 older messages
    stay, the newest ones.  In historical mode the visible messages do not change
    and the message is in the pending buffer afterwards, once. *)
Theorem addMessage_new c m s :
  consistent s → indexed c (m_id m) s = None →
  match viewMode s !! c with
  | Some historical =>
      byChannel (addMessage c m s) = byChannel s ∧ byId (addMessage c m s) = byId s ∧
      ∃ p, pendingMessages (addMessage c m s) !! c = Some p ∧ m_id m ∈ m_id <$> p ∧
        (NoDup (m_id <$> or_default [] (pendingMessages s !! c)) → NoDup (m_id <$> p))
  | _ =>
      ∃ kept, byChannel (addMessage c m s) !! c = Some (kept ++ [m]) ∧
        kept = drop (length (or_default [] (byChannel s !! c)) - 499)
                 (or_default [] (byChannel s !! c)) ∧
        length (kept ++ [m]) ≤ 500 ∧
        ∀ id, indexed c id (addMessage c m s) = find_key m_id id (kept ++ [m])
  end.
Proof.
  intros Hs Hnew. pose proof (add_consistent c m s Hs) as Hs'.
  assert (Hlive : viewMode s !! c ≠ Some historical →
    byChannel (addMessage c m s) !! c = Some
      (drop (length (or_default [] (byChannel s !! c)) - 499)
        (or_default [] (byChannel s !! c)) ++ [m])).
  { intros Hv. rewrite <-kept_length. unfold addMessage. rewrite Hnew.
    destruct (viewMode s !! c) as [[]|]; try done; simpl; by rewrite lookup_insert_eq. }
  destruct (viewMode s !! c) as [[]|] eqn:Hv.
  2:{ unfold addMessage. rewrite Hv, Hnew. case_match eqn:E; simpl; rewrite lookup_insert_eq.
      - repeat split; eexists; split; [done|]. apply has_key_true in E as (x & ? & <-).
        split; [by apply list_elem_of_fmap_2|done].
      - repeat split; eexists; split; [done|]. rewrite fmap_app. split; [set_solver|].
        intros. rewrite <-fmap_app. by apply NoDup_push. }
  all: eexists; split; [by apply Hlive|]; split; [done|]; split;
    [rewrite length_app, length_drop; simpl; lia|];
    intros id; rewrite (consistent_indexed _ _ _ Hs'), Hlive by done; done.
Qed.

(** a message the channel already has is not added again, in either mode. *)
Theorem addMessage_known c m s :
  indexed c (m_id m) s ≠ None → addMessage c m s = s.
Proof.
  intros Hk. unfold addMessage. destruct (indexed c (m_id m) s); [|done].
  by destruct (viewMode s !! c) as [[]|].
Qed.

(** [hydrateMessages] loses nothing that arrived in real time: the channel then
    shows the fetched page followed by other messages; every loaded message newer
    than the page and every buffered message is found by its id; no id occurs
    twice; and the buffer of the channel is empty. *)
Theorem hydrate_keeps_realtime c fetched s :
  consistent s → NoDup (m_id <$> fetched) →
  ∃ tr, byChannel (hydrateMessages c fetched s) !! c = Some (fetched ++ tr) ∧
    NoDup (m_id <$> (fetched ++ tr)) ∧
    (∀ m, m ∈ fetched → indexed c (m_id m) (hydrateMessages c fetched s) = Some m) ∧
    (∀ m, m ∈ or_default [] (byChannel s !! c) →
       str_ltb (or_default "" (m_id <$> last fetched)) (m_id m) = true →
       is_Some (indexed c (m_id m) (hydrateMessages c fetched s))) ∧
    (∀ m, m ∈ or_default [] (pendingMessages s !! c) →
       is_Some (indexed c (m_id m) (hydrateMessages c fetched s))) ∧
    or_default [] (pendingMessages (hydrateMessages c fetched s) !! c) = [].
Proof.
  intros Hs Hnd. pose proof (hydrate_consistent c fetched s Hnd Hs) as Hs'.
  destruct (hydrate_spec c fetched s Hnd Hs) as (tr & s1 & E & _ & Hp & [Hall _ Hex Hpe] & _).
  exists tr. assert (Hc : byChannel (hydrateMessages c fetched s) !! c = Some (fetched ++ tr))
    by (rewrite E; apply lookup_insert_eq).
  assert (Hfound : ∀ k, k ∈ m_id <$> (fetched ++ tr) →
    is_Some (indexed c k (hydrateMessages c fetched s))).
  { intros k Hk. rewrite (consistent_indexed _ _ _ Hs'), Hc. simpl.
    destruct (find_key m_id k _) eqn:F; [done|]. by apply find_key_None in F. }
  repeat split; try done; auto.
  - intros m Hm. rewrite (consistent_indexed _ _ _ Hs'), Hc. simpl.
    apply find_key_Some; [done|]. split; [|done]. apply elem_of_app. by left.
  - by rewrite E.
Qed.

(** Strictly increasing ids: the display order of a channel (ULIDs sort by time). *)
Definition chronological (ms : list Message) : Prop :=
  StronglySorted (λ a b, str_ltb (m_id a) (m_id b) = true) ms.

Lemma chronological_last ms m :
  chronological ms → m ∈ ms → m_id m ≠ or_default "" (m_id <$> last ms) →
  str_ltb (m_id m) (or_default "" (m_id <$> last ms)) = true.
Proof.
  induction 1 as [|x l Hl IH Hx]; [set_solver|].
  destruct l as [|y l]; [set_solver|]. rewrite last_cons_cons.
  intros [->|Hm]%elem_of_cons Hne; [|by apply IH].
  destruct (last (y :: l)) as [z|] eqn:E; [|by apply last_None in E].
  simpl. rewrite Forall_forall in Hx. apply Hx. by apply last_Some_elem_of.
Qed.

Lemma chronological_of_sorted ms :
  cmp_sorted (cmp_str m_id) ms → NoDup (m_id <$> ms) → chronological ms.
Proof.
  induction 1 as [|x l Hl IH Hx]; [constructor|]. rewrite fmap_cons, NoDup_cons.
  intros [Hnin Hnd]. constructor; [by apply IH|].
  rewrite Forall_forall in *. intros y Hy. apply str_ltb_le. split.
  - by apply cmp_str_le, Hx.
  - intros Heq. apply Hnin. rewrite Heq. by apply list_elem_of_fmap_2.
Qed.

Lemma chronological_app l1 l2 :
  chronological l1 → chronological l2 →
  (∀ a b, a ∈ l1 → b ∈ l2 → str_ltb (m_id a) (m_id b) = true) → chronological (l1 ++ l2).
Proof.
  induction 1 as [|x l Hl IH Hx]; [done|]. intros H2 Hlt. simpl.
  constructor; [apply IH; [done|set_solver]|].
  apply Forall_app. split; [done|]. apply Forall_forall. set_solver.
Qed.

(** [hydrateMessages] keeps the channel in chronological order when the page
    and the loaded messages are, provided the buffered messages are newer than the
    page (they were received while the user was reading older messages). *)
Theorem hydrate_chronological c fetched s ms :
  consistent s → chronological fetched →
  chronological (or_default [] (byChannel s !! c)) →
  (∀ m, m ∈ or_default [] (pendingMessages s !! c) →
     str_ltb (or_default "" (m_id <$> last fetched)) (m_id m) = true) →
  byChannel (hydrateMessages c fetched s) !! c = Some ms → chronological ms.
Proof.
  intros Hs Hf Hex Hpe Hms.
  assert (Hnd : ∀ l, chronological l → NoDup (m_id <$> l)).
  { intros l. induction 1 as [|x l _ IH Hx]; [constructor|]. rewrite fmap_cons, NoDup_cons.
    split; [|done]. intros (y & Heq & Hy)%list_elem_of_fmap.
    rewrite Forall_forall in Hx. specialize (Hx y Hy). by rewrite Heq, str_ltb_irrefl in Hx. }
  destruct (hydrate_spec c fetched s (Hnd _ Hf) Hs)
    as (tr & s1 & E & _ & _ & [Hall Horigin _ _] & Hsorted).
  rewrite E in Hms. simpl in Hms. rewrite lookup_insert_eq in Hms. simplify_eq.
  assert (Hnew : ∀ m, m ∈ tr → str_ltb (or_default "" (m_id <$> last fetched)) (m_id m) = true)
    by (intros m Hm; destruct (Horigin m Hm) as [|[]]; auto).
  apply chronological_app; [done| |].
  - destruct Hsorted as [Hsorted|Hsub].
    + apply chronological_of_sorted; [done|]. rewrite fmap_app in Hall.
      by apply NoDup_app in Hall as (_ & _ & ?).
    + by eapply StronglySorted_sublist_of.
  - intros a b Ha Hb.
    destruct (decide (m_id a = or_default "" (m_id <$> last fetched))) as [Heq|Hne].
    + rewrite Heq. auto.
    + eapply str_ltb_trans; [by apply (chronological_last fetched)|auto].
Qed.

(** removing messages (one, or a batch) removes exactly the named ids, from the
    array and from the table, and keeps the order of the others. *)
Theorem removeMessages_exact c ids s ms :
  consistent s → byChannel s !! c = Some ms →
  ∃ ms', byChannel (removeMessages c ids s) !! c = Some ms' ∧
    ms' `sublist_of` ms ∧
    (∀ m, m ∈ ms' ↔ m ∈ ms ∧ m_id m ∉ ids) ∧
    ∀ id, indexed c id (removeMessages c ids s) =
      if decide (id ∈ ids) then None else indexed c id s.
Proof.
  intros Hs Hc. pose proof (removes_consistent c ids s Hs) as Hs'.
  assert (Hc' : byChannel (removeMessages c ids s) !! c =
    Some (filter (λ m, m_id m ∉ (list_to_set ids : gset string)) ms)).
  { unfold removeMessages. rewrite Hc. simpl. apply lookup_insert_eq. }
  eexists. split; [exact Hc'|]. split; [apply sublist_filter|]. split.
  - intros m. rewrite list_elem_of_filter. set_solver.
  - intros id. rewrite !consistent_indexed, Hc, Hc' by done. simpl.
    set (S := list_to_set ids : gset string).
    etrans; [exact (find_key_filter m_id (λ i, i ∉ S) id ms)|].
    repeat case_decide; set_solver.
Qed.

(** the single write that stores a decrypted batch keeps every message of the
    channel at its place, replaces exactly the messages named by the batch, and
    does so in the array and in the table alike. *)
Theorem bulkUpdate_in_place c us s ms :
  consistent s → NoDup (m_id <$> us) → byChannel s !! c = Some ms →
  ∃ ms', byChannel (bulkUpdateMessages c us s) !! c = Some ms' ∧
    m_id <$> ms' = m_id <$> ms ∧
    ∀ id, indexed c id (bulkUpdateMessages c us s) =
      m ← indexed c id s; Some (or_default m (find_key m_id id us)).
Proof.
  intros Hs Hnd Hc. pose proof (bulk_consistent c us s Hs) as Hs'.
  assert (Hum : ∀ k u, buildByIdIndex us !! k = Some u → m_id u = k)
    by (intros k u ?%index_keys; tauto).
  assert (Hc' : byChannel (bulkUpdateMessages c us s) !! c =
    Some ((λ m, or_default m (buildByIdIndex us !! m_id m)) <$> ms)).
  { unfold bulkUpdateMessages. rewrite Hc. simpl. apply lookup_insert_eq. }
  eexists. split; [exact Hc'|]. split; [by apply bulk_keys|].
  intros id. rewrite !consistent_indexed, Hc, Hc' by done. simpl.
  rewrite bulk_find, (index_lookup us) by done. by destruct (find_key m_id id ms).
Qed.

(** The channel an action is about. *)
Definition action_channel (a : action) : option string :=
  match a with
  | SetMessages c _ | HydrateMessages c _ | PrependMessages c _ | AddMessage c _
  | UpdateMessage c _ | BulkUpdateMessages c _ | RemoveMessage c _ | RemoveMessages c _
  | SetHasMore c _ | SetLoading c _ | SetError c _ | SetViewMode c _
  | ReturnToPresent c | PatchEmbeds c _ _ | SetReplyingTo c _ => Some c
  | Reset => None
  end.

(** Everything the store knows about one channel. *)
Definition view (s : MessageState) (c : string) :=
  (byChannel s !! c, byId s !! c, hasMore s !! c, isLoading s !! c, error s !! c,
   viewMode s !! c, pendingMessages s !! c, replyingTo s !! c).

(** an action on one channel changes nothing of any other channel. *)
Theorem action_frame a c c' s :
  action_channel a = Some c → c ≠ c' → view (perform a s) c' = view s c'.
Proof.
  intros Ha Hne. destruct a; simpl in Ha; simplify_eq; unfold view; simpl;
    unfold setMessages, hydrateMessages, prependMessages, addMessage, updateMessage,
      bulkUpdateMessages, removeMessage, removeMessages, setHasMore, setLoading, setError,
      setViewMode, returnToPresent, patchEmbeds, setReplyingTo, put, setMessages;
    repeat (case_match; simplify_eq); simpl; by simplify_map_eq.
Qed.

Lemma addMessage_pending c m s :
  viewMode s !! c = Some historical → indexed c (m_id m) s = None →
  ∃ p, pendingMessages (addMessage c m s) !! c = Some p ∧ m_id m ∈ m_id <$> p.
Proof.
  intros Hv Hnew. unfold addMessage. rewrite Hv, Hnew.
  case_match eqn:E; simpl; rewrite lookup_insert_eq; eexists; (split; [done|]).
  - apply has_key_true in E as (x & ? & <-). by apply list_elem_of_fmap_2.
  - rewrite fmap_app. set_solver.
Qed.

(** the buffer of a channel is not touched by deletions, so a message that is
    deleted while it is buffered is shown when the channel is hydrated from a page
    that (rightly) no longer has it. *)
Theorem deleted_pending_returns c m fetched s :
  consistent s → NoDup (m_id <$> fetched) →
  viewMode s !! c = Some historical → indexed c (m_id m) s = None →
  is_Some (indexed c (m_id m)
    (hydrateMessages c fetched (removeMessage c (m_id m) (addMessage c m s)))).
Proof.
  intros Hs Hnd Hv Hnew.
  destruct (addMessage_pending c m s Hv Hnew) as (p & Hp & Hin).
  set (s1 := addMessage c m s) in *.
  assert (Hs1 : consistent (removeMessage c (m_id m) s1))
    by (by apply remove_consistent, add_consistent).
  assert (Hpend : pendingMessages (removeMessage c (m_id m) s1) = pendingMessages s1)
    by (unfold removeMessage; by case_match).
  apply list_elem_of_fmap in Hin as (x & Heq & Hx).
  destruct (hydrate_spec c fetched _ Hnd Hs1) as (tr & s2 & E & _ & _ & [Hall _ _ Hpe] & _).
  rewrite (consistent_indexed _ _ _ (hydrate_consistent c fetched _ Hnd Hs1)), E.
  simpl. rewrite lookup_insert_eq. simpl. rewrite Hpend, Hp in Hpe.
  specialize (Hpe x Hx). rewrite <-Heq in Hpe.
  destruct (find_key m_id _ (fetched ++ tr)) eqn:F; [done|].
  by apply find_key_None in F.
Qed.

(** ** Concrete runs *)

Definition demo_message (id : string) : Message :=
  {| m_id := id; m_channelId := "c"; m_authorId := "u"; m_encryptedContent := [];
     m_attachments := []; m_createdAt := None; m_editedAt := None; m_replyToId := None; m_embeds := [];
     m_mentionedUserIds := []; m_mentionEveryone := false;
     m_mentionedRoleIds := []; m_keyVersion := 1; m_type := 0 |}.

(** Two live messages, then one buffered while the user reads history. *)
Definition demo_state : MessageState :=
  run [AddMessage "c" (demo_message "01"); AddMessage "c" (demo_message "02");
       SetViewMode "c" historical; AddMessage "c" (demo_message "03")] initial.

Lemma demo_reachable : reachable demo_state.
Proof. by apply reachable_run. Qed.

Lemma demo_consistent : consistent demo_state.
Proof. apply reachable_consistent, demo_reachable. Qed.

Lemma messages_index_invariant_witness :
  NoDup ["01"; "02"] ∧ indexed "c" "02" demo_state = Some (demo_message "02").
Proof.
  destruct (messages_index_invariant demo_state "c" demo_reachable) as [_ H].
  destruct (H [demo_message "01"; demo_message "02"] eq_refl) as [Hnd Hid].
  split; [exact Hnd|]. rewrite Hid. reflexivity.
Defined.

Lemma addMessage_new_witness :
  byChannel (addMessage "c" (demo_message "04") demo_state) = byChannel demo_state.
Proof.
  apply (addMessage_new "c" (demo_message "04") demo_state demo_consistent eq_refl).
Defined.

Lemma addMessage_known_witness :
  addMessage "c" (demo_message "02") demo_state = demo_state.
Proof. apply (addMessage_known "c" (demo_message "02") demo_state). vm_compute. done. Defined.

Lemma hydrate_keeps_realtime_witness :
  is_Some (indexed "c" "03" (hydrateMessages "c" [demo_message "01"] demo_state)).
Proof.
  destruct (hydrate_keeps_realtime "c" [demo_message "01"] demo_state demo_consistent
    (NoDup_singleton _)) as (tr & _ & _ & _ & _ & Hp & _).
  apply (Hp (demo_message "03")). by left.
Defined.

Lemma hydrate_chronological_witness :
  chronological [demo_message "01"; demo_message "02"; demo_message "03"].
Proof.
  apply (hydrate_chronological "c" [demo_message "01"] demo_state); [| | | |reflexivity].
  - exact demo_consistent.
  - repeat constructor.
  - repeat constructor.
  - intros m Hm. apply list_elem_of_singleton in Hm as ->. reflexivity.
Defined.

Lemma removeMessages_exact_witness :
  indexed "c" "01" (removeMessages "c" ["01"] demo_state) = None.
Proof.
  destruct (removeMessages_exact "c" ["01"] demo_state
    [demo_message "01"; demo_message "02"] demo_consistent eq_refl)
    as (ms & _ & _ & _ & Hid).
  rewrite Hid. reflexivity.
Defined.

Lemma bulkUpdate_in_place_witness :
  ∃ ms, byChannel (bulkUpdateMessages "c" [demo_message "02"] demo_state) !! "c" = Some ms ∧
    m_id <$> ms = ["01"; "02"].
Proof.
  destruct (bulkUpdate_in_place "c" [demo_message "02"] demo_state
    [demo_message "01"; demo_message "02"] demo_consistent (NoDup_singleton _) eq_refl)
    as (ms & Hms & Hids & _).
  exists ms. split; [exact Hms|exact Hids].
Defined.

Lemma action_frame_witness :
  view (perform (RemoveMessage "c" "01") demo_state) "d" = view demo_state "d".
Proof. apply (action_frame (RemoveMessage "c" "01") "c" "d"); done. Defined.

Lemma deleted_pending_returns_witness :
  is_Some (indexed "c" "04" (hydrateMessages "c" []
    (removeMessage "c" "04" (addMessage "c" (demo_message "04") demo_state)))).
Proof.
  apply (deleted_pending_returns "c" (demo_message "04") [] demo_state);
    [exact demo_consistent|constructor|reflexivity|reflexivity].
Defined.
