(* ===== verification/ServerLists.v ===== *)
(** * Lists kept sorted, per server

    Channels, channel groups, roles, emojis and sounds are arrays per server, kept
    sorted by a comparator and free of duplicate ids.  This file has the lemmas the
    stores share: each way they change such an array keeps it so. *)

From S2P Require Export Models.

Section sorted_list.
Context {A : Type} (key : A → string) (cmp : A → A → Z) `{!Comparator cmp}.

Definition list_ok (l : list A) : Prop := NoDup (key <$> l) ∧ cmp_sorted cmp l.
Definition lists_ok (m : gmap string (list A)) : Prop := map_Forall (λ _, list_ok) m.

Lemma list_ok_nil : list_ok [].
Proof. split; constructor. Qed.
Lemma list_ok_sort l : NoDup (key <$> l) → list_ok (js_sort cmp l).
Proof. intros Hl. split; [by apply js_sort_keys_NoDup|by apply js_sort_sorted]. Qed.
Lemma list_ok_push x l :
  has_key key (key x) l = false → list_ok l → list_ok (js_sort cmp (l ++ [x])).
Proof. intros Hx [Hl _]. apply list_ok_sort. by apply NoDup_push. Qed.
Lemma list_ok_replace k x l :
  key x = k → list_ok l → list_ok (js_sort cmp (replace_key key k x l)).
Proof. intros Hx [Hl _]. apply list_ok_sort. by apply NoDup_replace. Qed.
Lemma list_ok_without k l : list_ok l → list_ok (without key k l).
Proof.
  intros [Hl Hs]. split; [by apply NoDup_without|].
  eapply StronglySorted_sublist_of; [apply sublist_filter|done].
Qed.
Lemma list_ok_splice k l : list_ok l → list_ok (splice_key key k l).
Proof.
  intros Hl. rewrite splice_key_without by apply Hl. by apply list_ok_without.
Qed.

Lemma lists_ok_default m s : lists_ok m → list_ok (or_default [] (m !! s)).
Proof.
  intros Hm. destruct (m !! s) eqn:E; [by apply (Hm s)|apply list_ok_nil].
Qed.
Lemma lists_ok_lookup m s l : lists_ok m → m !! s = Some l → list_ok l.
Proof. intros Hm. apply Hm. Qed.
Lemma lists_ok_insert m s l : lists_ok m → list_ok l → lists_ok (<[s := l]> m).
Proof. intros ??. by apply map_Forall_insert_2. Qed.
Lemma lists_ok_delete m s : lists_ok m → lists_ok (delete s m).
Proof. intros ?. by apply map_Forall_delete. Qed.
Lemma lists_ok_empty : lists_ok ∅.
Proof. apply map_Forall_empty. Qed.
End sorted_list.

#[export] Hint Resolve list_ok_nil list_ok_sort list_ok_push list_ok_replace list_ok_without
  list_ok_splice lists_ok_default lists_ok_lookup lists_ok_insert lists_ok_delete
  lists_ok_empty : meza.

(** [index_key] finds nothing exactly when [has_key] is false. *)
Lemma replace_key_sort {A} (key : A → string) cmp `{!Comparator cmp} k x l :
  list_ok key cmp l → key x = k →
  list_ok key cmp (match index_key key k l with
    | Some i => js_sort cmp (<[i := x]> l) | None => l end).
Proof.
  intros Hl Hx. destruct (index_key key k l) as [i|] eqn:E; [|done].
  assert (Heq : <[i := x]> l = replace_key key k x l) by (unfold replace_key; by rewrite E).
  rewrite Heq. by apply list_ok_replace.
Qed.

(** ** The abstract specification: a table of tables

    What these stores promise is a finite map per server from ids to records: the
    order of an array is derived from the records.  [table] reads the map off the
    arrays, and each way the stores change an array is an operation of the map. *)

Section table.
Context {A : Type} (key : A → string).
Notation lists := (gmap string (list A)).
Notation tables := (gmap string (gmap string A)).

Definition table (m : lists) : tables := build_index key <$> m.

Definition spec_set (sid : string) (l : list A) (t : tables) : tables :=
  <[sid := build_index key l]> t.
Definition spec_add (sid : string) (x : A) (t : tables) : tables :=
  let m := or_default ∅ (t !! sid) in
  match m !! key x with Some _ => t | None => <[sid := <[key x := x]> m]> t end.
Definition spec_update (sid : string) (x : A) (t : tables) : tables :=
  alter (alter (λ _, x) (key x)) sid t.
Definition spec_remove (sid k : string) (t : tables) : tables := alter (delete k) sid t.

Lemma find_key_perm k (l l' : list A) :
  NoDup (key <$> l) → l ≡ₚ l' → find_key key k l = find_key key k l'.
Proof.
  intros Hnd Hp. assert (Hnd' : NoDup (key <$> l')) by by rewrite <-Hp.
  apply option_eq. intros x. by rewrite !find_key_Some, Hp by done.
Qed.
Lemma build_index_perm (l l' : list A) :
  NoDup (key <$> l) → l ≡ₚ l' → build_index key l = build_index key l'.
Proof.
  intros Hnd Hp. assert (Hnd' : NoDup (key <$> l')) by by rewrite <-Hp.
  apply map_eq. intros k. rewrite !build_index_lookup by done. by apply find_key_perm.
Qed.
Lemma build_index_push x (l : list A) :
  build_index key (l ++ [x]) = <[key x := x]> (build_index key l).
Proof. unfold build_index. by rewrite foldl_app. Qed.
Lemma build_index_without k (l : list A) :
  NoDup (key <$> l) → build_index key (without key k l) = delete k (build_index key l).
Proof.
  intros Hnd. apply map_eq. intros i.
  rewrite lookup_delete, !build_index_lookup, find_key_without by eauto with meza.
  repeat case_decide; naive_solver.
Qed.
Lemma build_index_replace x (l : list A) :
  NoDup (key <$> l) →
  build_index key (replace_key key (key x) x l) = alter (λ _, x) (key x) (build_index key l).
Proof.
  intros Hnd. apply map_eq. intros i.
  rewrite lookup_alter, !build_index_lookup, find_key_replace by eauto with meza.
  repeat case_decide; subst; try done.
  destruct (has_key key (key x) l) eqn:E.
  - apply has_key_find in E as [y ->]. done.
  - apply has_key_false, find_key_None in E. by rewrite E.
Qed.
Lemma has_key_build_index k (l : list A) :
  has_key key k l = bool_decide (is_Some (build_index key l !! k)).
Proof.
  destruct (has_key key k l) eqn:E; symmetry.
  - apply bool_decide_eq_true. apply not_eq_None_Some. rewrite build_index_None.
    unfold has_key in E. apply bool_decide_eq_true in E. naive_solver.
  - apply bool_decide_eq_false. rewrite <-eq_None_not_Some, build_index_None.
    by apply has_key_false.
Qed.

(** The array operations, each against its specification. *)

Lemma table_default (m : lists) sid :
  or_default ∅ (table m !! sid) = build_index key (or_default [] (m !! sid)).
Proof. unfold table. rewrite lookup_fmap. by destruct (m !! sid). Qed.
Lemma table_insert (m : lists) sid l :
  table (<[sid := l]> m) = <[sid := build_index key l]> (table m).
Proof. apply fmap_insert. Qed.
Lemma table_delete (m : lists) sid : table (delete sid m) = delete sid (table m).
Proof. apply fmap_delete. Qed.
Lemma table_id (m : lists) sid l :
  m !! sid = Some l → <[sid := build_index key l]> (table m) = table m.
Proof. intros E. apply insert_id. unfold table. by rewrite lookup_fmap, E. Qed.

Context (cmp : A → A → Z).

Lemma table_set (m : lists) sid l :
  NoDup (key <$> l) → table (<[sid := js_sort cmp l]> m) = spec_set sid l (table m).
Proof.
  intros Hl. rewrite table_insert. unfold spec_set. f_equal.
  apply build_index_perm; [by apply js_sort_keys_NoDup|apply js_sort_perm].
Qed.
Lemma table_add (m : lists) sid x :
  NoDup (key <$> or_default [] (m !! sid)) →
  table (if has_key key (key x) (or_default [] (m !! sid)) then m
         else <[sid := js_sort cmp (or_default [] (m !! sid) ++ [x])]> m)
    = spec_add sid x (table m).
Proof.
  intros Hl. unfold spec_add. rewrite table_default. rewrite has_key_build_index.
  case_bool_decide as Hk.
  - by destruct Hk as [? ->].
  - apply eq_None_not_Some in Hk as Hk'. rewrite Hk', table_insert. f_equal.
    rewrite <-build_index_push.
    apply build_index_perm; [|apply js_sort_perm].
    apply js_sort_keys_NoDup, NoDup_push; [|done].
    by rewrite has_key_build_index, bool_decide_eq_false.
Qed.
Lemma table_update (m : lists) sid x :
  map_Forall (λ _ l, NoDup (key <$> l)) m →
  table (match m !! sid with
    | None => m
    | Some l => <[sid := match index_key key (key x) l with
        | Some i => js_sort cmp (<[i := x]> l) | None => l end]> m
    end) = spec_update sid x (table m).
Proof.
  intros Hm. unfold spec_update. destruct (m !! sid) as [l|] eqn:E.
  - assert (Hl : NoDup (key <$> l)) by by apply (Hm sid).
    assert (E' : table m !! sid = Some (build_index key l))
      by (unfold table; by rewrite lookup_fmap, E).
    rewrite table_insert. apply map_eq. intros i. rewrite lookup_alter, lookup_insert.
    repeat case_decide; subst; try done. rewrite E'. simpl. f_equal.
    rewrite <-build_index_replace by done. unfold replace_key.
    destruct (index_key key (key x) l) as [j|] eqn:Ej; [|done].
    apply build_index_perm; [|apply js_sort_perm]. apply js_sort_keys_NoDup.
    replace (<[j := x]> l) with (replace_key key (key x) x l)
      by (unfold replace_key; by rewrite Ej). by apply NoDup_replace.
  - symmetry. apply map_eq. intros i. rewrite lookup_alter. case_decide; [subst|done].
    unfold table. by rewrite lookup_fmap, E.
Qed.
Lemma table_without (m : lists) sid k :
  map_Forall (λ _ l, NoDup (key <$> l)) m →
  table (alter (without key k) sid m) = spec_remove sid k (table m).
Proof.
  intros Hm. apply map_eq. intros i. unfold table, spec_remove.
  rewrite lookup_fmap, !lookup_alter, !lookup_fmap. case_decide; [subst|done].
  destruct (m !! i) as [l|] eqn:E; [|done]. simpl. f_equal. apply build_index_without.
  by apply (Hm i).
Qed.
Lemma table_splice (m : lists) sid k :
  map_Forall (λ _ l, NoDup (key <$> l)) m →
  table (alter (splice_key key k) sid m) = spec_remove sid k (table m).
Proof.
  intros Hm. rewrite <-table_without by done. f_equal. apply map_eq. intros i.
  rewrite !lookup_alter. case_decide; [|done]. destruct (m !! sid) as [l|] eqn:E; [|done].
  simpl. f_equal. apply splice_key_without. by apply (Hm sid).
Qed.
(** Mapping a function that keeps the key over an array. *)
Lemma build_index_fmap (f : A → A) (l : list A) :
  (∀ x, key (f x) = key x) → build_index key (f <$> l) = f <$> build_index key l.
Proof.
  intros Hf. induction l as [|x l IH] using rev_ind.
  - symmetry. apply fmap_empty.
  - rewrite fmap_app. change (f <$> [x]) with [f x].
    by rewrite !build_index_push, IH, fmap_insert, Hf.
Qed.
Lemma table_fmap (m : lists) sid (f : A → A) :
  (∀ x, key (f x) = key x) →
  table (alter (fmap f) sid m) = alter (fmap f) sid (table m).
Proof.
  intros Hf. apply map_eq. intros i. unfold table.
  rewrite lookup_fmap, !lookup_alter, !lookup_fmap. case_decide; [|done].
  destruct (m !! sid); simpl; [|done]. f_equal. by apply build_index_fmap.
Qed.
End table.

(** Arrays that are not sorted: sorting by a comparator that never orders anything. *)
Lemma js_sort_unordered {A} (l : list A) : js_sort (λ _ _, 0%Z) l = l.
Proof. induction l as [|x l IH]; simpl; [done|]. rewrite IH. by destruct l. Qed.

Lemma lists_ok_NoDup {A} (key : A → string) cmp (m : gmap string (list A)) :
  lists_ok key cmp m → map_Forall (λ _ l, NoDup (key <$> l)) m.
Proof. intros Hm i l Hl. apply (Hm i l Hl). Qed.
Lemma lists_ok_default_NoDup {A} (key : A → string) cmp (m : gmap string (list A)) sid :
  lists_ok key cmp m → NoDup (key <$> or_default [] (m !! sid)).
Proof. intros Hm. by apply (lists_ok_default key cmp m sid Hm). Qed.
Lemma lists_ok_alter {A} (key : A → string) cmp (f : list A → list A) m sid :
  (∀ l, list_ok key cmp l → list_ok key cmp (f l)) →
  lists_ok key cmp m → lists_ok key cmp (alter f sid m).
Proof.
  intros Hf Hm i l. rewrite lookup_alter. case_decide; [|apply Hm].
  intros (l0 & Hl0 & ->)%fmap_Some. apply Hf. by apply (Hm _ _ Hl0).
Qed.

#[export] Hint Resolve lists_ok_NoDup lists_ok_default_NoDup lists_ok_alter : meza.
