(* ===== verification/Channels.v ===== *)
(** * The channel store ([store/channels.ts])

    The channels of each server sorted by position, with the reverse index from a
    channel to its server. *)

From S2P Require Export ServerLists.

Record ChannelState := {
  byServer : gmap string (list Channel);
  channelToServer : gmap string string;
  isLoading : bool;
  error : option string;
}.

Definition emptyState : ChannelState :=
  {| byServer := ∅; channelToServer := ∅; isLoading := false; error := None |}.

Definition by_position : Channel → Channel → Z := cmp_asc ch_position.

Definition on_channels f g (s : ChannelState) : ChannelState :=
  {| byServer := f (byServer s); channelToServer := g (channelToServer s);
     isLoading := isLoading s; error := error s |}.
Definition setLoading (loading : bool) (s : ChannelState) : ChannelState :=
  {| byServer := byServer s; channelToServer := channelToServer s;
     isLoading := loading; error := error s |}.
Definition setError (err : option string) (s : ChannelState) : ChannelState :=
  {| byServer := byServer s; channelToServer := channelToServer s;
     isLoading := false; error := err |}.

Definition setChannels (serverId : string) (channels : list Channel) (s : ChannelState)
    : ChannelState :=
  setLoading false
    (on_channels <[serverId := js_sort by_position channels]>
       (λ m, foldl (λ m ch, <[ch_id ch := serverId]> m) m channels) s).

Definition addChannel (channel : Channel) (s : ChannelState) : ChannelState :=
  let list := or_default [] (byServer s !! ch_serverId channel) in
  if has_key ch_id (ch_id channel) list then s
  else on_channels <[ch_serverId channel := js_sort by_position (list ++ [channel])]>
         <[ch_id channel := ch_serverId channel]> s.

Definition updateChannel (channel : Channel) (s : ChannelState) : ChannelState :=
  match byServer s !! ch_serverId channel with
  | None => s
  | Some list =>
      on_channels <[ch_serverId channel :=
        match index_key ch_id (ch_id channel) list with
        | Some idx => js_sort by_position (<[idx := channel]> list)
        | None => list
        end]> id s
  end.

Definition removeChannel (channelId : string) (s : ChannelState) : ChannelState :=
  let serverId := channelToServer s !! channelId in
  if truthy serverId then
    on_channels (alter (splice_key ch_id channelId) (or_default "" serverId))
      (delete channelId) s
  else s.

Definition removeServerChannels (serverId : string) (s : ChannelState) : ChannelState :=
  let list := or_default [] (byServer s !! serverId) in
  on_channels (delete serverId) (λ m, foldl (λ m ch, delete (ch_id ch) m) m list) s.

Definition reset (s : ChannelState) : ChannelState := emptyState.

Inductive action :=
  | SetChannels (serverId : string) (cs : list Channel)
  | AddChannel (c : Channel)
  | UpdateChannel (c : Channel)
  | RemoveChannel (id : string)
  | RemoveServerChannels (serverId : string)
  | SetLoading (b : bool)
  | SetError (e : option string)
  | Reset.

Definition perform (a : action) : ChannelState → ChannelState :=
  match a with
  | SetChannels sid cs => setChannels sid cs
  | AddChannel c => addChannel c
  | UpdateChannel c => updateChannel c
  | RemoveChannel id => removeChannel id
  | RemoveServerChannels sid => removeServerChannels sid
  | SetLoading b => setLoading b
  | SetError e => setError e
  | Reset => reset
  end.

(** The channel is listed under a server. *)
Definition listed (s : ChannelState) (serverId channelId : string) : Prop :=
  channelId ∈ ch_id <$> or_default [] (byServer s !! serverId).

(** Server ids are not empty; a channel belongs to one server; a server's list has
    every channel once. *)
Definition args_ok (a : action) (s : ChannelState) : Prop :=
  match a with
  | SetChannels sid cs =>
      sid ≠ "" ∧ NoDup (ch_id <$> cs) ∧
      ∀ ch sid', ch ∈ cs → listed s sid' (ch_id ch) → sid' = sid
  | AddChannel c =>
      ch_serverId c ≠ "" ∧ ∀ sid', listed s sid' (ch_id c) → sid' = ch_serverId c
  | _ => True
  end.

#[export] Instance channel_store : Store ChannelState action :=
  {| initial := emptyState; exec := perform; admissible := args_ok |}.

(** ** Invariant *)

Record well_formed (s : ChannelState) : Prop := {
  wf_lists : lists_ok ch_id by_position (byServer s);
  wf_index : ∀ sid cid, listed s sid cid → channelToServer s !! cid = Some sid;
  wf_server : ∀ sid cid, listed s sid cid → sid ≠ "";
}.

Lemma listed_insert s sid l g sid' cid :
  listed (on_channels <[sid := l]> g s) sid' cid ↔
    if decide (sid' = sid) then cid ∈ ch_id <$> l else listed s sid' cid.
Proof. unfold listed; simpl. rewrite lookup_insert. repeat case_decide; naive_solver. Qed.

Lemma listed_delete s sid g sid' cid :
  listed (on_channels (delete sid) g s) sid' cid ↔ sid' ≠ sid ∧ listed s sid' cid.
Proof.
  unfold listed; simpl. rewrite lookup_delete. case_decide; [|naive_solver].
  simpl. rewrite elem_of_nil. naive_solver.
Qed.

Lemma insert_all_lookup (chs : list Channel) (sid : string) (m : gmap string string) k :
  foldl (λ m ch, <[ch_id ch := sid]> m) m chs !! k =
    if decide (k ∈ ch_id <$> chs) then Some sid else m !! k.
Proof.
  revert m. induction chs as [|c chs IH]; intros m; cbn [foldl]; [done|].
  rewrite IH, fmap_cons, lookup_insert. repeat case_decide; set_solver.
Qed.

Lemma setChannels_wf sid cs s :
  args_ok (SetChannels sid cs) s → well_formed s → well_formed (setChannels sid cs s).
Proof.
  intros (Hne & Hnd & Hown) [Hl Hi Hs].
  assert (Hlisted : ∀ sid' cid, listed (setChannels sid cs s) sid' cid ↔
    if decide (sid' = sid) then cid ∈ ch_id <$> cs else listed s sid' cid).
  { intros. etrans; [apply (listed_insert s)|]. case_decide; [|done]. by rewrite js_sort_perm. }
  split.
  - simpl. apply lists_ok_insert; [done|]. apply list_ok_sort; [apply _|done].
  - intros sid' cid. rewrite Hlisted. simpl. rewrite insert_all_lookup. case_decide as E.
    + subst. intros ?. by rewrite decide_True.
    + intros Hin. case_decide as Hc; [|auto].
      apply list_elem_of_fmap in Hc as (ch & -> & Hch). by apply Hown in Hin.
  - intros sid' cid. rewrite Hlisted. case_decide; naive_solver.
Qed.

Lemma addChannel_wf c s :
  args_ok (AddChannel c) s → well_formed s → well_formed (addChannel c s).
Proof.
  intros (Hne & Hown) [Hl Hi Hs]. unfold addChannel. case_match eqn:Hk; [by split|].
  set (l := or_default [] (byServer s !! ch_serverId c)) in *.
  assert (Hl' : list_ok ch_id by_position l) by by apply lists_ok_default.
  split.
  - simpl. apply lists_ok_insert; [done|]. by apply list_ok_push; [apply _|..].
  - intros sid cid. rewrite listed_insert. simpl. rewrite lookup_insert.
    case_decide as E; [subst sid|].
    + rewrite js_sort_perm, fmap_app, elem_of_app. simpl. rewrite list_elem_of_singleton.
      intros [Hin| ->]; case_decide; auto. done.
    + intros Hin. case_decide as Hc; [|auto]. subst cid. by apply Hown in Hin.
  - intros sid cid. rewrite listed_insert. case_decide; [by subst|apply Hs].
Qed.

Lemma updateChannel_wf c s : well_formed s → well_formed (updateChannel c s).
Proof.
  intros [Hl Hi Hs]. unfold updateChannel.
  destruct (byServer s !! ch_serverId c) as [l|] eqn:E; [|by split].
  assert (Hok : list_ok ch_id by_position l) by by apply (Hl _ _ E).
  set (l' := match index_key ch_id (ch_id c) l with
    | Some idx => js_sort by_position (<[idx := c]> l) | None => l end).
  assert (Hkeys : ∀ cid, cid ∈ ch_id <$> l' ↔ listed s (ch_serverId c) cid).
  { intros cid. unfold listed, l'. rewrite E. simpl.
    destruct (index_key ch_id (ch_id c) l) as [i|] eqn:Ei; [|done].
    rewrite js_sort_perm. replace (<[i := c]> l) with (replace_key ch_id (ch_id c) c l)
      by (unfold replace_key; by rewrite Ei).
    by rewrite replace_key_keys. }
  split.
  - simpl. apply lists_ok_insert; [done|]. by apply replace_key_sort; [apply _|..].
  - intros sid cid. rewrite listed_insert. simpl. case_decide; [subst; rewrite Hkeys|]; apply Hi.
  - intros sid cid. rewrite listed_insert. case_decide; [subst; rewrite Hkeys|]; apply Hs.
Qed.

Lemma removeChannel_listed cid s sid' cid' :
  well_formed s → listed (removeChannel cid s) sid' cid' ↔ listed s sid' cid' ∧ cid' ≠ cid.
Proof.
  intros [Hl Hi Hs]. unfold removeChannel. destruct (truthy _) eqn:Ht.
  - destruct (channelToServer s !! cid) as [sid|] eqn:E; [|done]. simpl.
    unfold listed; simpl. rewrite lookup_alter. case_decide as Hsid.
    + subst sid'. destruct (byServer s !! sid) as [l|] eqn:El; simpl;
        [|rewrite elem_of_nil; naive_solver].
      rewrite splice_key_without by by apply (Hl _ _ El).
      rewrite without_keys, list_elem_of_filter. naive_solver.
    + split; [|naive_solver]. intros Hin. split; [done|]. intros ->.
      apply Hi in Hin. congruence.
  - split; [|naive_solver]. intros Hin. split; [done|]. intros ->.
    pose proof (Hi _ _ Hin) as E. apply Hs in Hin. rewrite E in Ht. simpl in Ht.
    by case_bool_decide.
Qed.

Lemma removeChannel_wf cid s : well_formed s → well_formed (removeChannel cid s).
Proof.
  intros Hs. split.
  - destruct Hs as [Hl _ _]. unfold removeChannel. case_match; [|done]. simpl.
    intros sid l. rewrite lookup_alter. case_decide; [|apply Hl].
    intros (l0 & Hl0 & ->)%fmap_Some. apply list_ok_splice. by apply (Hl _ _ Hl0).
  - intros sid cid'. rewrite removeChannel_listed by done. intros [Hin Hne].
    apply (wf_index _ Hs) in Hin. unfold removeChannel. case_match; [|done].
    simpl. by rewrite lookup_delete_ne.
  - intros sid cid'. rewrite removeChannel_listed by done. intros [Hin _].
    by eapply wf_server.
Qed.

Lemma removeServerChannels_wf sid s : well_formed s → well_formed (removeServerChannels sid s).
Proof.
  intros [Hl Hi Hs]. split.
  - simpl. by apply lists_ok_delete.
  - intros sid' cid [Hne Hin]%listed_delete. simpl. rewrite (lookup_delete_all ch_id).
    rewrite decide_False; [by apply Hi|]. intros Hc. apply Hne.
    apply Hi in Hin. apply (Hi sid) in Hc. congruence.
  - intros sid' cid [_ Hin]%listed_delete. by eapply Hs.
Qed.

Lemma empty_wf : well_formed emptyState.
Proof.
  split; [apply lists_ok_empty|..]; intros ?? Hin; unfold listed in Hin; simpl in Hin;
    by apply elem_of_nil in Hin.
Qed.

Lemma channels_perform_wf a s : args_ok a s → well_formed s → well_formed (perform a s).
Proof.
  intros Hok Hs. destruct a; simpl.
  - by apply setChannels_wf.
  - by apply addChannel_wf.
  - by apply updateChannel_wf.
  - by apply removeChannel_wf.
  - by apply removeServerChannels_wf.
  - by destruct Hs.
  - by destruct Hs.
  - apply empty_wf.
Qed.

Lemma channels_reachable_wf s : reachable s → well_formed s.
Proof. apply reachable_invariant; [apply empty_wf|]. intros. by apply channels_perform_wf. Qed.

(** in every state the store reaches, each server's channels are sorted by position
    and free of duplicates, every listed channel is indexed under its server, and
    so no channel is listed under two servers. *)
Theorem channels_indexed s :
  reachable s →
  (∀ sid l, byServer s !! sid = Some l →
     NoDup (ch_id <$> l) ∧ StronglySorted (λ a b, ch_position a ≤ ch_position b)%Z l) ∧
  (∀ sid cid, listed s sid cid → channelToServer s !! cid = Some sid) ∧
  (∀ sid sid' cid, listed s sid cid → listed s sid' cid → sid = sid').
Proof.
  intros [Hl Hi Hs]%channels_reachable_wf. split; [|split; [done|]].
  - intros sid l Hsid. destruct (Hl sid l Hsid) as [Hnd Hsort]. split; [done|].
    clear -Hsort. induction Hsort as [|x l Hl IH Hx]; [constructor|]. constructor; [done|].
    eapply Forall_impl; [exact Hx|]. unfold by_position, cmp_asc. intros y ?. lia.
  - intros sid sid' cid H1%Hi H2%Hi. congruence.
Qed.

(** deleting a channel, of which the client is told only the id, removes exactly
    that channel from whichever server lists it, and removes its index entry. *)
Theorem removeChannel_correct s cid :
  reachable s →
  (∀ sid' cid', listed (removeChannel cid s) sid' cid' ↔ listed s sid' cid' ∧ cid' ≠ cid) ∧
  ((∃ sid, listed s sid cid) → channelToServer (removeChannel cid s) !! cid = None).
Proof.
  intros Hs%channels_reachable_wf. split; [intros; by apply removeChannel_listed|].
  intros [sid Hin]. pose proof (wf_index _ Hs _ _ Hin) as E.
  pose proof (wf_server _ Hs _ _ Hin) as Hne. unfold removeChannel. rewrite E. simpl.
  rewrite bool_decide_eq_false_2 by done. simpl. apply lookup_delete_eq.
Qed.

(** ** Concrete runs *)

Definition demo_channel (id server : string) (position : Z) : Channel :=
  {| ch_id := id; ch_serverId := server; ch_name := id; ch_type := 1; ch_position := position;
     ch_topic := ""; ch_isPrivate := false; ch_channelGroupId := None;
     ch_permissionsSynced := false |}.

Definition demo_state : ChannelState :=
  run [SetChannels "s1" [demo_channel "a" "s1" 2; demo_channel "b" "s1" 1]] initial.

Lemma channels_demo_reachable : reachable demo_state.
Proof.
  apply reachable_run. split; [|done]. split; [done|]. split.
  - apply (bool_decide_unpack _). reflexivity.
  - intros ch sid' _ Hin. by apply elem_of_nil in Hin.
Qed.

Lemma channels_indexed_witness :
  ch_id <$> or_default [] (byServer demo_state !! "s1") = ["b"; "a"] ∧
  channelToServer demo_state !! "a" = Some "s1".
Proof.
  split; [reflexivity|]. apply (channels_indexed demo_state channels_demo_reachable).
  unfold listed; apply (bool_decide_unpack _). reflexivity.
Defined.

Lemma removeChannel_correct_witness :
  channelToServer (removeChannel "a" demo_state) !! "a" = None.
Proof.
  apply (removeChannel_correct demo_state "a" channels_demo_reachable).
  exists "s1". unfold listed; apply (bool_decide_unpack _). reflexivity.
Defined.
