(* ===== verification/ChannelGroups.v ===== *)
(** * The channel-group store ([store/channel-groups.ts])

    The groups of each server sorted by position. *)

From S2P Require Export ServerLists.

Record ChannelGroupState := {
  byServer : gmap string (list ChannelGroup);
  isLoading : bool;
  error : option string;
}.

Definition emptyState : ChannelGroupState :=
  {| byServer := ∅; isLoading := false; error := None |}.

Definition by_position : ChannelGroup → ChannelGroup → Z := cmp_asc cg_position.

Definition on_byServer f (s : ChannelGroupState) : ChannelGroupState :=
  {| byServer := f (byServer s); isLoading := isLoading s; error := error s |}.
Definition setLoading (loading : bool) (s : ChannelGroupState) : ChannelGroupState :=
  {| byServer := byServer s; isLoading := loading; error := error s |}.
Definition setError (err : option string) (s : ChannelGroupState) : ChannelGroupState :=
  {| byServer := byServer s; isLoading := false; error := err |}.

Definition setGroups (serverId : string) (groups : list ChannelGroup)
    (s : ChannelGroupState) : ChannelGroupState :=
  setLoading false (on_byServer <[serverId := js_sort by_position groups]> s).

Definition addGroup (group : ChannelGroup) (s : ChannelGroupState) : ChannelGroupState :=
  let list := or_default [] (byServer s !! cg_serverId group) in
  if has_key cg_id (cg_id group) list then s
  else on_byServer <[cg_serverId group := js_sort by_position (list ++ [group])]> s.

Definition updateGroup (group : ChannelGroup) (s : ChannelGroupState) : ChannelGroupState :=
  match byServer s !! cg_serverId group with
  | None => s
  | Some list =>
      on_byServer <[cg_serverId group :=
        match index_key cg_id (cg_id group) list with
        | Some idx => js_sort by_position (<[idx := group]> list)
        | None => list
        end]> s
  end.

Definition removeGroup (serverId groupId : string) (s : ChannelGroupState)
    : ChannelGroupState :=
  on_byServer (alter (splice_key cg_id groupId) serverId) s.

Definition removeServerGroups (serverId : string) (s : ChannelGroupState)
    : ChannelGroupState := on_byServer (delete serverId) s.

Definition reset (s : ChannelGroupState) : ChannelGroupState := emptyState.

Inductive action :=
  | SetGroups (serverId : string) (gs : list ChannelGroup)
  | AddGroup (g : ChannelGroup)
  | UpdateGroup (g : ChannelGroup)
  | RemoveGroup (serverId groupId : string)
  | RemoveServerGroups (serverId : string)
  | SetLoading (b : bool)
  | SetError (e : option string)
  | Reset.

Definition perform (a : action) : ChannelGroupState → ChannelGroupState :=
  match a with
  | SetGroups sid gs => setGroups sid gs
  | AddGroup g => addGroup g
  | UpdateGroup g => updateGroup g
  | RemoveGroup sid gid => removeGroup sid gid
  | RemoveServerGroups sid => removeServerGroups sid
  | SetLoading b => setLoading b
  | SetError e => setError e
  | Reset => reset
  end.

(** The server lists every group once. *)
Definition args_ok (a : action) (s : ChannelGroupState) : Prop :=
  match a with SetGroups _ gs => NoDup (cg_id <$> gs) | _ => True end.

#[export] Instance channel_group_store : Store ChannelGroupState action :=
  {| initial := emptyState; exec := perform; admissible := args_ok |}.

(** ** Specification: a table from server and group ids to groups *)

Definition spec (a : action) (t : gmap string (gmap string ChannelGroup))
    : gmap string (gmap string ChannelGroup) :=
  match a with
  | SetGroups sid gs => spec_set cg_id sid gs t
  | AddGroup g => spec_add cg_id (cg_serverId g) g t
  | UpdateGroup g => spec_update cg_id (cg_serverId g) g t
  | RemoveGroup sid gid => spec_remove sid gid t
  | RemoveServerGroups sid => delete sid t
  | SetLoading _ | SetError _ => t
  | Reset => ∅
  end.

Lemma groups_perform_ok a s :
  args_ok a s → lists_ok cg_id by_position (byServer s) →
  lists_ok cg_id by_position (byServer (perform a s)).
Proof.
  intros Ha Hs. destruct a as [sid gs|g|g|sid gid|sid|b|e|]; simpl; try done.
  - apply lists_ok_insert; [done|]. by apply list_ok_sort; [apply _|].
  - unfold addGroup. case_match eqn:Hk; [done|]. simpl. apply lists_ok_insert; [done|].
    apply list_ok_push; [apply _|done|by apply lists_ok_default].
  - unfold updateGroup. case_match eqn:E; [|done]. simpl. apply lists_ok_insert; [done|].
    apply replace_key_sort; [apply _|by apply (Hs _ _ E)|done].
  - apply lists_ok_alter; [|done]. intros l. apply list_ok_splice.
  - by apply lists_ok_delete.
Qed.

Lemma groups_reachable_ok s : reachable s → lists_ok cg_id by_position (byServer s).
Proof.
  revert s. apply (reachable_invariant (λ s, lists_ok cg_id by_position (byServer s)));
    [apply lists_ok_empty|]. intros a s. apply groups_perform_ok.
Qed.

(** the group arrays stay sorted by position without duplicates, and every action
    of the store does to them what the specification does to a table of groups keyed
    by server and group id. *)
Theorem groups_refine_table s a :
  reachable s → args_ok a s →
  lists_ok cg_id by_position (byServer (perform a s)) ∧
  table cg_id (byServer (perform a s)) = spec a (table cg_id (byServer s)).
Proof.
  intros Hs%groups_reachable_ok Ha. split; [by apply groups_perform_ok|].
  destruct a as [sid gs|g|g|sid gid|sid|b|e|]; simpl; try done.
  - by apply table_set.
  - rewrite <-(table_add cg_id by_position) by eauto with meza.
    unfold addGroup. by case_match.
  - rewrite <-(table_update cg_id by_position) by eauto with meza.
    unfold updateGroup. by case_match.
  - eapply table_splice; eauto with meza.
  - apply table_delete.
Qed.

Definition demo_group (id : string) (position : Z) : ChannelGroup :=
  {| cg_id := id; cg_serverId := "s"; cg_name := id; cg_position := position |}.

Lemma groups_refine_table_witness :
  let s := run [SetGroups "s" [demo_group "a" 5; demo_group "b" 1]] initial in
  (cg_id <$> or_default [] (byServer s !! "s")) = ["b"; "a"] ∧
  table cg_id (byServer (perform (AddGroup (demo_group "c" 3)) s))
    = spec (AddGroup (demo_group "c" 3)) (table cg_id (byServer s)).
Proof.
  split; [reflexivity|]. apply groups_refine_table; [|exact I].
  apply reachable_run. split; [|exact I]. apply (bool_decide_unpack _). reflexivity.
Defined.
