(* ===== verification/Roles.v ===== *)
(** * The role store ([store/roles.ts])

    The roles of each server from highest to lowest position.  [reorderRoles] is
    asynchronous: it changes the store at once, calls the server, and puts the old
    list back when the call fails; other actions may run while it waits, so the
    model keeps the calls in flight next to the store's state. *)

From S2P Require Export ServerLists.

Record RoleState := {
  byServer : gmap string (list Role);
  isLoading : bool;
  isReordering : bool;
  error : option string;
}.

Definition emptyState : RoleState :=
  {| byServer := ∅; isLoading := false; isReordering := false; error := None |}.

Definition by_position : Role → Role → Z := cmp_desc r_position.

Definition on_byServer f (s : RoleState) : RoleState :=
  {| byServer := f (byServer s); isLoading := isLoading s;
     isReordering := isReordering s; error := error s |}.
Definition setReordering (b : bool) (s : RoleState) : RoleState :=
  {| byServer := byServer s; isLoading := isLoading s; isReordering := b; error := error s |}.
Definition setLoading (loading : bool) (s : RoleState) : RoleState :=
  {| byServer := byServer s; isLoading := loading;
     isReordering := isReordering s; error := error s |}.
Definition setError (err : option string) (s : RoleState) : RoleState :=
  {| byServer := byServer s; isLoading := false;
     isReordering := isReordering s; error := err |}.

Definition setRoles (serverId : string) (roles : list Role) (s : RoleState) : RoleState :=
  setLoading false (on_byServer <[serverId := js_sort by_position roles]> s).

Definition addRole (role : Role) (s : RoleState) : RoleState :=
  let list := or_default [] (byServer s !! r_serverId role) in
  if has_key r_id (r_id role) list then s
  else on_byServer <[r_serverId role := js_sort by_position (list ++ [role])]> s.

Definition updateRole (role : Role) (s : RoleState) : RoleState :=
  match byServer s !! r_serverId role with
  | None => s
  | Some list =>
      on_byServer <[r_serverId role :=
        match index_key r_id (r_id role) list with
        | Some idx => js_sort by_position (<[idx := role]> list)
        | None => list
        end]> s
  end.

Definition removeRole (serverId roleId : string) (s : RoleState) : RoleState :=
  on_byServer (alter (without r_id roleId) serverId) s.

Definition removeServerRoles (serverId : string) (s : RoleState) : RoleState :=
  on_byServer (delete serverId) s.

Definition reset (s : RoleState) : RoleState := emptyState.

(** ** Reordering *)

(** The loop that fills [positionMap]: [roleIds] from highest position to lowest. *)
Fixpoint fill_positions (total : Z) (i : Z) (roleIds : list string) (m : gmap string Z)
    : gmap string Z :=
  match roleIds with
  | [] => m
  | id :: roleIds => fill_positions total (i + 1) roleIds (<[id := (total - i)%Z]> m)
  end.

Definition positionMap (roleIds : list string) : gmap string Z :=
  fill_positions (Z.of_nat (length roleIds)) 0 roleIds ∅.

Definition reposition (m : gmap string Z) (role : Role) : Role :=
  match m !! r_id role with Some newPos => r_set_position newPos role | None => role end.

(** The optimistic update. *)
Definition reorder_list (roleIds : list string) (roles : list Role) : list Role :=
  js_sort by_position (reposition (positionMap roleIds) <$> roles).

(** The store and the [previous] lists of the calls that have not settled. *)
Record RoleSystem := {
  store : RoleState;
  inflight : list (string * list Role);
}.

Definition on_store f (s : RoleSystem) : RoleSystem :=
  {| store := f (store s); inflight := inflight s |}.

(** [reorderRoles] up to its [await]. *)
Definition reorderRoles_begin (serverId : string) (roleIds : list string) (s : RoleSystem)
    : RoleSystem :=
  if isReordering (store s) then s else
  match byServer (store s) !! serverId with
  | None => s
  | Some previous =>
      {| store := setReordering true
           (on_byServer <[serverId := reorder_list roleIds previous]> (store s));
         inflight := inflight s ++ [(serverId, previous)] |}
  end.

(** The rest of [reorderRoles]: the [catch] and [finally] of the [i]-th call in flight. *)
Definition reorderRoles_settle (i : nat) (success : bool) (s : RoleSystem) : RoleSystem :=
  match inflight s !! i with
  | None => s
  | Some (serverId, previous) =>
      {| store := setReordering false
           (if success then store s else on_byServer <[serverId := previous]> (store s));
         inflight := delete i (inflight s) |}
  end.

Inductive action :=
  | SetRoles (serverId : string) (rs : list Role)
  | AddRole (r : Role)
  | UpdateRole (r : Role)
  | RemoveRole (serverId roleId : string)
  | RemoveServerRoles (serverId : string)
  | ReorderRoles (serverId : string) (roleIds : list string)
  | Settle (i : nat) (success : bool)
  | SetLoading (b : bool)
  | SetError (e : option string)
  | Reset.

Definition perform (a : action) : RoleSystem → RoleSystem :=
  match a with
  | SetRoles sid rs => on_store (setRoles sid rs)
  | AddRole r => on_store (addRole r)
  | UpdateRole r => on_store (updateRole r)
  | RemoveRole sid rid => on_store (removeRole sid rid)
  | RemoveServerRoles sid => on_store (removeServerRoles sid)
  | ReorderRoles sid ids => reorderRoles_begin sid ids
  | Settle i ok => reorderRoles_settle i ok
  | SetLoading b => on_store (setLoading b)
  | SetError e => on_store (setError e)
  | Reset => on_store reset
  end.

(** The server lists every role once. *)
Definition args_ok (a : action) (s : RoleSystem) : Prop :=
  match a with SetRoles _ rs => NoDup (r_id <$> rs) | _ => True end.

#[export] Instance role_store : Store RoleSystem action :=
  {| initial := {| store := emptyState; inflight := [] |};
     exec := perform; admissible := args_ok |}.

(** ** Invariant: lists sorted by descending position, in the store and in flight *)

Record system_ok (s : RoleSystem) : Prop := {
  ok_lists : lists_ok r_id by_position (byServer (store s));
  ok_inflight : Forall (λ p, list_ok r_id by_position p.2) (inflight s);
}.

Lemma reposition_id m r : r_id (reposition m r) = r_id r.
Proof. unfold reposition. by destruct (m !! r_id r). Qed.
Lemma reposition_keys m (l : list Role) : r_id <$> (reposition m <$> l) = r_id <$> l.
Proof. rewrite <-list_fmap_compose. apply list_fmap_ext. intros. apply reposition_id. Qed.

Lemma reorder_list_ok ids (l : list Role) :
  list_ok r_id by_position l → list_ok r_id by_position (reorder_list ids l).
Proof.
  intros [Hl _]. apply list_ok_sort; [apply _|]. by rewrite reposition_keys.
Qed.

Lemma roles_perform_ok a s : args_ok a s → system_ok s → system_ok (perform a s).
Proof.
  intros Ha [Hs Hf]. destruct a as [sid rs|r|r|sid rid|sid|sid ids|i ok|b|e|]; simpl.
  - split; [|done]. apply lists_ok_insert; [done|]. by apply list_ok_sort; [apply _|].
  - split; [|done]. simpl. unfold addRole. case_match; [done|].
    apply lists_ok_insert; [done|].
    apply list_ok_push; [apply _|done|by apply lists_ok_default].
  - split; [|done]. simpl. unfold updateRole. case_match eqn:E; [|done].
    apply lists_ok_insert; [done|]. apply replace_key_sort; [apply _|by apply (Hs _ _ E)|done].
  - split; [|done]. apply lists_ok_alter; [|done]. intros l. apply list_ok_without.
  - split; [|done]. by apply lists_ok_delete.
  - unfold reorderRoles_begin. case_match; [done|]. case_match eqn:E; [|done].
    pose proof (Hs _ _ E) as Hl. split; simpl.
    + apply lists_ok_insert; [done|]. by apply reorder_list_ok.
    + apply Forall_app. split; [done|]. by apply Forall_singleton.
  - unfold reorderRoles_settle. case_match eqn:E; [|done]. case_match; simplify_eq/=.
    split; simpl; [|by apply Forall_delete]. destruct ok; simpl; [done|].
    apply lists_ok_insert; [done|]. by apply (Forall_lookup_1 _ _ _ _ Hf E).
  - by split.
  - by split.
  - split; [|done]. apply lists_ok_empty.
Qed.

Lemma roles_reachable_ok s : reachable s → system_ok s.
Proof.
  revert s. apply reachable_invariant; [|intros a s; apply roles_perform_ok].
  split; [apply lists_ok_empty|constructor].
Qed.

(** whatever is interleaved with reorder calls that succeed or fail, every role
    list is sorted from highest to lowest position and has each role once. *)
Theorem roles_sorted (s : RoleSystem) sid l :
  reachable s → byServer (store s) !! sid = Some l →
  NoDup (r_id <$> l) ∧ StronglySorted (λ a b, r_position b ≤ r_position a)%Z l.
Proof.
  intros Hs%roles_reachable_ok Hl. destruct (ok_lists _ Hs _ _ Hl) as [Hnd Hsort].
  split; [done|]. clear -Hsort. induction Hsort as [|x l Hl IH Hx]; [constructor|].
  constructor; [done|]. eapply Forall_impl; [exact Hx|]. unfold by_position, cmp_desc.
  intros y ?. lia.
Qed.

(** outside a reorder, every action does to the role lists what the specification
    does to a table of roles keyed by server and role id. *)
Theorem roles_refine_table s :
  reachable s →
  (∀ sid rs, NoDup (r_id <$> rs) →
     table r_id (byServer (setRoles sid rs (store s))) =
       spec_set r_id sid rs (table r_id (byServer (store s)))) ∧
  (∀ r, table r_id (byServer (addRole r (store s))) =
     spec_add r_id (r_serverId r) r (table r_id (byServer (store s)))) ∧
  (∀ r, table r_id (byServer (updateRole r (store s))) =
     spec_update r_id (r_serverId r) r (table r_id (byServer (store s)))) ∧
  (∀ sid rid, table r_id (byServer (removeRole sid rid (store s))) =
     spec_remove sid rid (table r_id (byServer (store s)))) ∧
  (∀ sid, table r_id (byServer (removeServerRoles sid (store s))) =
     delete sid (table r_id (byServer (store s)))).
Proof.
  intros [Hs _]%roles_reachable_ok. repeat split; intros.
  - by apply table_set.
  - rewrite <-(table_add r_id by_position) by eauto with meza.
    unfold addRole. by case_match.
  - rewrite <-(table_update r_id by_position) by eauto with meza.
    unfold updateRole. by case_match.
  - apply table_without. eauto with meza.
  - apply table_delete.
Qed.

(** ** The order a reorder produces *)

Lemma fill_positions_absent t i ids m id :
  id ∉ ids → fill_positions t i ids m !! id = m !! id.
Proof.
  revert i m. induction ids as [|x ids IH]; intros i m Hid; simpl; [done|].
  rewrite IH by set_solver. apply lookup_insert_ne. set_solver.
Qed.
Lemma fill_positions_lookup t i ids m j id :
  NoDup ids → ids !! j = Some id → fill_positions t i ids m !! id = Some (t - i - Z.of_nat j)%Z.
Proof.
  revert i m j. induction ids as [|x ids IH]; intros i m j Hnd Hj; [done|].
  apply NoDup_cons in Hnd as [Hx Hnd]. destruct j as [|j]; simplify_eq/=.
  - rewrite fill_positions_absent, lookup_insert_eq by done. f_equal. lia.
  - rewrite (IH _ _ j) by done. f_equal. lia.
Qed.

Lemma positionMap_Some ids id :
  NoDup ids → is_Some (positionMap ids !! id) ↔ id ∈ ids.
Proof.
  intros Hnd. unfold positionMap. split.
  - intros Hs. destruct (decide (id ∈ ids)) as [|Hn]; [done|].
    rewrite fill_positions_absent, lookup_empty in Hs by done. by destruct Hs.
  - intros [j Hj]%list_elem_of_lookup. by erewrite fill_positions_lookup.
Qed.

(** The position the map assigns; earlier ids get higher positions. *)
Definition assigned (ids : list string) (id : string) : Z :=
  or_default 0%Z (positionMap ids !! id).

Lemma assigned_lookup ids j id :
  NoDup ids → ids !! j = Some id → assigned ids id = (Z.of_nat (length ids) - Z.of_nat j)%Z.
Proof.
  intros Hnd Hj. unfold assigned, positionMap.
  erewrite fill_positions_lookup by done. simpl. lia.
Qed.
Lemma assigned_inj ids a b :
  NoDup ids → a ∈ ids → b ∈ ids → assigned ids a = assigned ids b → a = b.
Proof.
  intros Hnd [i Hi]%list_elem_of_lookup [j Hj]%list_elem_of_lookup.
  rewrite (assigned_lookup _ i a), (assigned_lookup _ j b) by done.
  intros ?. assert (i = j) as -> by lia. congruence.
Qed.
Lemma assigned_sorted ids :
  NoDup ids → StronglySorted (λ a b, assigned ids b ≤ assigned ids a)%Z ids.
Proof.
  intros Hnd.
  assert (Hgen : ∀ n, StronglySorted (λ a b, assigned ids b ≤ assigned ids a)%Z (drop n ids)).
  { intros n. remember (length ids - n) as k eqn:Hk. revert n Hk.
    induction k as [|k IH]; intros n Hk; [rewrite drop_ge by lia; constructor|].
    destruct (lookup_lt_is_Some_2 ids n) as [x Hx]; [lia|].
    rewrite (drop_S _ x) by done. constructor; [apply IH; lia|].
    apply Forall_lookup. intros j y Hy. rewrite lookup_drop in Hy.
    rewrite (assigned_lookup _ n x), (assigned_lookup _ (S n + j) y) by done. lia. }
  apply (Hgen 0).
Qed.

Lemma StronglySorted_fmap_filter {A B} (f : A → B) (P : B → Prop) `{!∀ b, Decision (P b)}
    (R : relation A) (R' : relation B) (l : list A) :
  (∀ a b, P (f a) → P (f b) → R a b → R' (f a) (f b)) →
  StronglySorted R l → StronglySorted R' (filter P (f <$> l)).
Proof.
  intros HR. induction 1 as [|x l Hl IH Hx]; [constructor|].
  rewrite fmap_cons, filter_cons. case_decide as Hp; [|done]. constructor; [done|].
  apply Forall_forall. intros b [Hb Hin]%list_elem_of_filter.
  apply list_elem_of_fmap in Hin as (a & -> & Ha).
  rewrite Forall_forall in Hx. auto.
Qed.

Lemma reorder_list_position ids (l : list Role) r :
  NoDup ids → r ∈ reposition (positionMap ids) <$> l → r_id r ∈ ids →
  r_position r = assigned ids (r_id r).
Proof.
  intros Hnd (r0 & -> & _)%list_elem_of_fmap. rewrite reposition_id.
  intros [p Hp]%(positionMap_Some _ _ Hnd). unfold reposition, assigned. by rewrite Hp.
Qed.

Lemma reorder_list_order ids (l : list Role) :
  NoDup ids → NoDup (r_id <$> l) →
  filter (.∈ ids) (r_id <$> reorder_list ids l) = filter (.∈ r_id <$> l) ids.
Proof.
  intros Hids Hl.
  assert (Hperm : r_id <$> reorder_list ids l ≡ₚ r_id <$> l).
  { unfold reorder_list. by rewrite js_sort_perm, reposition_keys. }
  apply (StronglySorted_unique_strong (λ a b, assigned ids b ≤ assigned ids a)%Z).
  - intros a b [Ha _]%list_elem_of_filter [_ Hb]%list_elem_of_filter ??.
    apply (assigned_inj ids); [done..|lia].
  - pose proof (js_sort_sorted by_position (reposition (positionMap ids) <$> l)) as Hs.
    fold (reorder_list ids l) in Hs. unfold cmp_sorted in Hs.
    assert (Hin : Forall (λ r, r ∈ reposition (positionMap ids) <$> l) (reorder_list ids l)).
    { apply Forall_forall. intros r. unfold reorder_list. by rewrite js_sort_elem_of. }
    clear Hperm. induction Hs as [|r rs Hrs IH Hr]; [constructor|].
    apply Forall_cons in Hin as [Hr' Hin]. rewrite fmap_cons, filter_cons.
    case_decide as Hid; [|by apply IH]. constructor; [by apply IH|].
    apply Forall_forall. intros b [Hb (r2 & -> & Hr2)%list_elem_of_fmap]%list_elem_of_filter.
    rewrite Forall_forall in Hr, Hin. specialize (Hr _ Hr2).
    rewrite <-!(reorder_list_position ids l) by auto.
    unfold by_position, cmp_desc in Hr. lia.
  - eapply StronglySorted_sublist_of; [apply sublist_filter|by apply assigned_sorted].
  - apply NoDup_Permutation; [|by apply NoDup_filter|].
    + apply NoDup_filter. by rewrite Hperm.
    + intros a. rewrite !list_elem_of_filter, Hperm. tauto.
Qed.

(** dragging the roles into an order: the optimistic list has the roles in the
    order that was asked for (whatever subset of the server's roles it names), and
    no role is gained, lost or changed but for its position. *)
Theorem reorderRoles_order s sid ids l :
  reachable s → isReordering (store s) = false → byServer (store s) !! sid = Some l →
  NoDup ids →
  ∃ l', byServer (store (reorderRoles_begin sid ids s)) !! sid = Some l' ∧
    isReordering (store (reorderRoles_begin sid ids s)) = true ∧
    filter (.∈ ids) (r_id <$> l') = filter (.∈ r_id <$> l) ids ∧
    r_set_position 0 <$> l' ≡ₚ r_set_position 0 <$> l.
Proof.
  intros Hs%roles_reachable_ok Hb Hl Hids. pose proof (ok_lists _ Hs _ _ Hl) as [Hnd _].
  unfold reorderRoles_begin. rewrite Hb, Hl. exists (reorder_list ids l).
  split; [apply lookup_insert_eq|]. split; [done|]. split; [by apply reorder_list_order|].
  unfold reorder_list. rewrite js_sort_perm, <-list_fmap_compose.
  erewrite list_fmap_ext; [done|]. intros ? r ?. unfold compose, reposition.
  by destruct (positionMap ids !! r_id r).
Qed.

(** a rejected reorder is rolled back: a call started while it is in flight is
    ignored, and when it fails the store's lists are what they were before it. *)
Theorem reorderRoles_rollback s sid ids ids' sid' l :
  reachable s → isReordering (store s) = false → byServer (store s) !! sid = Some l →
  let s1 := reorderRoles_begin sid ids s in
  let s2 := reorderRoles_settle (length (inflight s)) false s1 in
  reorderRoles_begin sid' ids' s1 = s1 ∧
  byServer (store s2) = byServer (store s) ∧
  isReordering (store s2) = false ∧ inflight s2 = inflight s.
Proof.
  intros _ Hb Hl. cbv zeta.
  assert (E : reorderRoles_begin sid ids s = {| store := setReordering true
      (on_byServer <[sid := reorder_list ids l]> (store s));
      inflight := inflight s ++ [(sid, l)] |})
    by (unfold reorderRoles_begin; by rewrite Hb, Hl).
  rewrite E. split; [done|]. unfold reorderRoles_settle; simpl.
  rewrite lookup_app_r, Nat.sub_diag by lia; simpl. split; [|split; [done|]].
  - by rewrite insert_insert_eq, insert_id.
  - rewrite (delete_middle (inflight s) [] (sid, l)). by rewrite app_nil_r.
Qed.

(** the roll-back restores the list as it was when the call began, so an update
    that arrived for the server while the call was in flight is lost. *)
Theorem rollback_loses_update s sid ids l r :
  isReordering (store s) = false → byServer (store s) !! sid = Some l →
  r_serverId r = sid →
  let s1 := reorderRoles_begin sid ids s in
  let s2 := on_store (updateRole r) s1 in
  byServer (store (reorderRoles_settle (length (inflight s)) false s2)) !! sid = Some l.
Proof.
  intros Hb Hl Hr. cbv zeta.
  assert (E : inflight (on_store (updateRole r) (reorderRoles_begin sid ids s)) =
              inflight s ++ [(sid, l)])
    by (unfold reorderRoles_begin; by rewrite Hb, Hl).
  unfold reorderRoles_settle. rewrite E, lookup_app_r, Nat.sub_diag by lia. simpl.
  apply lookup_insert_eq.
Qed.

Definition demo_role (id : string) (position : Z) : Role :=
  {| r_id := id; r_serverId := "s"; r_name := id; r_permissions := 0; r_color := 0;
     r_position := position; r_isSelfAssignable := false |}.

Definition demo_state : RoleSystem :=
  run [SetRoles "s" [demo_role "a" 1; demo_role "b" 3; demo_role "c" 2]] initial.
Definition demo_roles : list Role := [demo_role "b" 3; demo_role "c" 2; demo_role "a" 1].

Lemma roles_demo_reachable : reachable demo_state.
Proof. apply reachable_run. split; [|exact I]. apply (bool_decide_unpack _). reflexivity. Qed.

Lemma roles_sorted_witness :
  StronglySorted (λ a b, r_position b ≤ r_position a)%Z demo_roles.
Proof. eapply (roles_sorted demo_state "s"); [exact roles_demo_reachable|reflexivity]. Defined.

Lemma roles_refine_table_witness :
  table r_id (byServer (removeRole "s" "b" (store demo_state))) =
    spec_remove "s" "b" (table r_id (byServer (store demo_state))).
Proof. apply (roles_refine_table demo_state roles_demo_reachable). Defined.

Lemma reorderRoles_order_witness :
  (λ l : list Role, r_id <$> l) <$>
    byServer (store (reorderRoles_begin "s" ["a"; "b"; "c"] demo_state)) !! "s"
    = Some ["a"; "b"; "c"] ∧
  ∃ l', byServer (store (reorderRoles_begin "s" ["a"; "b"; "c"] demo_state)) !! "s" = Some l' ∧
    filter (.∈ ["a"; "b"; "c"]) (r_id <$> l') = ["a"; "b"; "c"].
Proof.
  split; [reflexivity|].
  edestruct (reorderRoles_order demo_state "s" ["a"; "b"; "c"] demo_roles)
    as (l' & H1 & _ & H2 & _); [exact roles_demo_reachable|reflexivity..| |].
  - apply (bool_decide_unpack _). reflexivity.
  - exists l'. split; [exact H1|exact H2].
Defined.

Lemma reorderRoles_rollback_witness :
  byServer (store (reorderRoles_settle 0 false (reorderRoles_begin "s" ["a"] demo_state)))
    = byServer (store demo_state).
Proof.
  apply (reorderRoles_rollback demo_state "s" ["a"] [] "s" demo_roles roles_demo_reachable);
    reflexivity.
Defined.

Lemma rollback_loses_update_witness :
  byServer (store (reorderRoles_settle 0 false
    (on_store (updateRole (demo_role "a" 9)) (reorderRoles_begin "s" ["a"] demo_state)))) !! "s"
    = Some demo_roles.
Proof.
  apply (rollback_loses_update demo_state "s" ["a"] demo_roles (demo_role "a" 9)); reflexivity.
Defined.
