(* ===== verification/Members.v ===== *)
(** * The member store ([store/members.ts])

    The members of each server, in the order the server sent them. *)

From S2P Require Export ServerLists.

Record MemberState := {
  byServer : gmap string (list Member);
  isLoading : bool;
  error : option string;
}.

Definition emptyState : MemberState :=
  {| byServer := ∅; isLoading := false; error := None |}.

Definition on_byServer f (s : MemberState) : MemberState :=
  {| byServer := f (byServer s); isLoading := isLoading s; error := error s |}.
Definition setLoading (loading : bool) (s : MemberState) : MemberState :=
  {| byServer := byServer s; isLoading := loading; error := error s |}.
Definition setError (err : option string) (s : MemberState) : MemberState :=
  {| byServer := byServer s; isLoading := false; error := err |}.

Definition setMembers (serverId : string) (members : list Member) (s : MemberState)
    : MemberState := setLoading false (on_byServer <[serverId := members]> s).

Definition addMember (member : Member) (s : MemberState) : MemberState :=
  let list := or_default [] (byServer s !! mb_serverId member) in
  if has_key mb_userId (mb_userId member) list then s
  else on_byServer <[mb_serverId member := list ++ [member]]> s.

Definition updateMember (member : Member) (s : MemberState) : MemberState :=
  match byServer s !! mb_serverId member with
  | None => s
  | Some list =>
      on_byServer <[mb_serverId member :=
        match index_key mb_userId (mb_userId member) list with
        | Some idx => <[idx := member]> list
        | None => list
        end]> s
  end.

Definition removeMember (serverId userId : string) (s : MemberState) : MemberState :=
  on_byServer (alter (splice_key mb_userId userId) serverId) s.

(** [const idx = member.roleIds.indexOf(roleId); if (idx !== -1) ...splice(idx, 1)] *)
Definition strip_role (roleId : string) (m : Member) : Member :=
  {| mb_userId := mb_userId m; mb_serverId := mb_serverId m;
     mb_roleIds := splice_key (λ r, r) roleId (mb_roleIds m); mb_nickname := mb_nickname m;
     mb_joinedAt := mb_joinedAt m; mb_timedOutUntil := mb_timedOutUntil m;
     mb_onboardingCompletedAt := mb_onboardingCompletedAt m;
     mb_rulesAcknowledgedAt := mb_rulesAcknowledgedAt m; mb_homeUserId := mb_homeUserId m;
     mb_inviterUserId := mb_inviterUserId m |}.

Definition stripRoleFromAll (serverId roleId : string) (s : MemberState) : MemberState :=
  on_byServer (alter (fmap (strip_role roleId)) serverId) s.

Definition reset (s : MemberState) : MemberState := emptyState.

Inductive action :=
  | SetMembers (serverId : string) (ms : list Member)
  | AddMember (m : Member)
  | UpdateMember (m : Member)
  | RemoveMember (serverId userId : string)
  | StripRoleFromAll (serverId roleId : string)
  | SetLoading (b : bool)
  | SetError (e : option string)
  | Reset.

Definition perform (a : action) : MemberState → MemberState :=
  match a with
  | SetMembers sid ms => setMembers sid ms
  | AddMember m => addMember m
  | UpdateMember m => updateMember m
  | RemoveMember sid uid => removeMember sid uid
  | StripRoleFromAll sid rid => stripRoleFromAll sid rid
  | SetLoading b => setLoading b
  | SetError e => setError e
  | Reset => reset
  end.

Definition roles_once (m : Member) : Prop := NoDup (mb_roleIds m).

(** The server lists every member once, and each of a member's roles once. *)
Definition args_ok (a : action) (s : MemberState) : Prop :=
  match a with
  | SetMembers _ ms => NoDup (mb_userId <$> ms) ∧ Forall roles_once ms
  | AddMember m | UpdateMember m => roles_once m
  | _ => True
  end.

#[export] Instance member_store : Store MemberState action :=
  {| initial := emptyState; exec := perform; admissible := args_ok |}.

(** ** Specification and invariant *)

Definition spec (a : action) (t : gmap string (gmap string Member))
    : gmap string (gmap string Member) :=
  match a with
  | SetMembers sid ms => spec_set mb_userId sid ms t
  | AddMember m => spec_add mb_userId (mb_serverId m) m t
  | UpdateMember m => spec_update mb_userId (mb_serverId m) m t
  | RemoveMember sid uid => spec_remove sid uid t
  | StripRoleFromAll sid rid => alter (fmap (strip_role rid)) sid t
  | SetLoading _ | SetError _ => t
  | Reset => ∅
  end.

Definition members_ok (ms : list Member) : Prop :=
  NoDup (mb_userId <$> ms) ∧ Forall roles_once ms.
Definition state_ok (s : MemberState) : Prop := map_Forall (λ _, members_ok) (byServer s).

Lemma members_ok_lookup s sid :
  state_ok s → members_ok (or_default [] (byServer s !! sid)).
Proof.
  intros Hs. destruct (byServer s !! sid) eqn:E; [by apply (Hs sid)|by repeat constructor].
Qed.
Lemma members_ok_push (l : list Member) m :
  has_key mb_userId (mb_userId m) l = false → roles_once m → members_ok l →
  members_ok (l ++ [m]).
Proof.
  intros Hk Hm [Hnd Hr]. split; [by apply NoDup_push|].
  apply Forall_app. split; [done|by apply Forall_singleton].
Qed.
Lemma members_ok_replace (l : list Member) m :
  roles_once m → members_ok l →
  members_ok (match index_key mb_userId (mb_userId m) l with
    | Some i => <[i := m]> l | None => l end).
Proof.
  intros Hm [Hnd Hr]. change (members_ok (replace_key mb_userId (mb_userId m) m l)).
  split; [by apply NoDup_replace|]. unfold replace_key. case_match; [|done].
  by apply Forall_insert.
Qed.
Lemma members_ok_splice k (l : list Member) :
  members_ok l → members_ok (splice_key mb_userId k l).
Proof.
  intros [Hnd Hr]. split; [by apply NoDup_splice|]. unfold splice_key. case_match; [|done].
  by apply Forall_delete.
Qed.
Lemma members_ok_strip r (l : list Member) :
  members_ok l → members_ok (strip_role r <$> l).
Proof.
  intros [Hnd Hr]. split.
  - rewrite <-list_fmap_compose. erewrite list_fmap_ext; [exact Hnd|done].
  - apply Forall_fmap. eapply Forall_impl; [exact Hr|]. intros m Hm.
    unfold roles_once in *. simpl. rewrite <-(list_fmap_id (splice_key _ _ _)).
    apply (NoDup_splice (λ r, r)). by rewrite list_fmap_id.
Qed.

Lemma members_perform_ok a s : args_ok a s → state_ok s → state_ok (perform a s).
Proof.
  intros Ha Hs. destruct a as [sid ms|m|m|sid uid|sid rid|b|e|]; simpl; try done.
  - by apply map_Forall_insert_2.
  - unfold addMember. case_match eqn:Hk; [done|]. apply map_Forall_insert_2; [|done].
    apply members_ok_push; [done..|by apply members_ok_lookup].
  - unfold updateMember. case_match eqn:E; [|done]. apply map_Forall_insert_2; [|done].
    apply members_ok_replace; [done|by apply (Hs _ _ E)].
  - intros i l. simpl. rewrite lookup_alter. case_decide; [|apply Hs].
    intros (l0 & Hl0 & ->)%fmap_Some. apply members_ok_splice. by apply (Hs _ _ Hl0).
  - intros i l. simpl. rewrite lookup_alter. case_decide; [|apply Hs].
    intros (l0 & Hl0 & ->)%fmap_Some. apply members_ok_strip. by apply (Hs _ _ Hl0).
Qed.

Lemma members_reachable_ok s : reachable s → state_ok s.
Proof.
  revert s. apply reachable_invariant; [apply map_Forall_empty|].
  intros a s. apply members_perform_ok.
Qed.

Lemma state_ok_NoDup s : state_ok s → map_Forall (λ _ l, NoDup (mb_userId <$> l)) (byServer s).
Proof. intros Hs i l Hl. apply (Hs i l Hl). Qed.

(** every action of the member store does to the arrays what the specification does
    to a table of members keyed by server and user id. *)
Theorem members_refine_table s a :
  reachable s → args_ok a s →
  table mb_userId (byServer (perform a s)) = spec a (table mb_userId (byServer s)).
Proof.
  intros Hs%members_reachable_ok Ha.
  destruct a as [sid ms|m|m|sid uid|sid rid|b|e|]; simpl; try done.
  - apply table_insert.
  - rewrite <-(table_add mb_userId (λ _ _, 0%Z)) by apply (members_ok_lookup _ _ Hs).
    rewrite js_sort_unordered. unfold addMember. by case_match.
  - rewrite <-(table_update mb_userId (λ _ _, 0%Z)) by by apply state_ok_NoDup.
    unfold updateMember. case_match; [|done]. simpl. repeat f_equal.
    case_match; [|done]. by rewrite js_sort_unordered.
  - apply table_splice. by apply state_ok_NoDup.
  - by apply table_fmap.
Qed.

(** deleting a role takes it from every member of its server and leaves every other
    role of a member, every other member and every other server as they were. *)
Theorem stripRoleFromAll_correct s sid rid sid' :
  reachable s →
  (∀ l, byServer s !! sid = Some l →
     ∃ l', byServer (stripRoleFromAll sid rid s) !! sid = Some l' ∧
       Forall2 (λ m m', mb_userId m' = mb_userId m ∧ mb_nickname m' = mb_nickname m ∧
         rid ∉ mb_roleIds m' ∧ mb_roleIds m' = filter (.≠ rid) (mb_roleIds m)) l l') ∧
  (sid' ≠ sid → byServer (stripRoleFromAll sid rid s) !! sid' = byServer s !! sid').
Proof.
  intros Hs%members_reachable_ok. split.
  - intros l Hl. exists (strip_role rid <$> l). split; [simpl; by rewrite lookup_alter_eq, Hl|].
    destruct (Hs _ _ Hl) as [_ Hr]. apply Forall2_fmap_r, Forall_Forall2_diag.
    eapply Forall_impl; [exact Hr|]. intros m Hm. split; [done|]. split; [done|].
    assert (E : mb_roleIds (strip_role rid m) = filter (.≠ rid) (mb_roleIds m)).
    { simpl. rewrite splice_key_without; [done|]. by rewrite list_fmap_id. }
    rewrite E. split; [|done]. rewrite list_elem_of_filter. naive_solver.
  - intros Hne. simpl. by rewrite lookup_alter_ne.
Qed.

Definition demo_member (id : string) (roles : list string) : Member :=
  {| mb_userId := id; mb_serverId := "s"; mb_roleIds := roles; mb_nickname := "";
     mb_joinedAt := None; mb_timedOutUntil := None; mb_onboardingCompletedAt := None;
     mb_rulesAcknowledgedAt := None; mb_homeUserId := "";
     mb_inviterUserId := "" |}.
Definition demo_members : list Member :=
  [demo_member "u" ["r"; "q"]; demo_member "v" ["q"]].
Definition demo_state : MemberState := run [SetMembers "s" demo_members] initial.

Lemma members_demo_reachable : reachable demo_state.
Proof.
  apply reachable_run. split; [|exact I]. split.
  - apply (bool_decide_unpack _). reflexivity.
  - repeat constructor; apply (bool_decide_unpack _); reflexivity.
Qed.

Lemma members_refine_table_witness :
  table mb_userId (byServer (perform (RemoveMember "s" "u") demo_state)) !! "s" =
    Some {[ "v" := demo_member "v" ["q"] ]}.
Proof.
  rewrite (members_refine_table demo_state (RemoveMember "s" "u") members_demo_reachable I).
  reflexivity.
Defined.

Lemma stripRoleFromAll_correct_witness :
  byServer (stripRoleFromAll "s" "q" demo_state) !! "s" =
    Some [demo_member "u" ["r"]; demo_member "v" []] ∧
  ∃ l', byServer (stripRoleFromAll "s" "q" demo_state) !! "s" = Some l' ∧
    Forall (λ m, "q" ∉ mb_roleIds m) l'.
Proof.
  split; [reflexivity|].
  destruct (stripRoleFromAll_correct demo_state "s" "q" "s" members_demo_reachable) as [H _].
  destruct (H demo_members) as (l' & Hl & Hall); [reflexivity|].
  exists l'. split; [exact Hl|]. clear Hl. induction Hall; constructor; tauto.
Defined.
