(* ===== verification/Federation.v ===== *)
(** * The federation store ([store/federation.ts])

    The connections to other instances ("spokes") by instance URL, with the reverse
    index from a server to its instance; the credentials are persisted, the index
    and the connection status are rebuilt on reload. *)

From S2P Require Export JsObject.

Inductive SpokeConnectionStatus := connecting | connected | reconnecting | disconnected | error.

Record SpokeConnection := {
  instanceUrl : string;
  accessToken : string;
  refreshToken : string;
  shadowUserId : string;
  serverId : string;
  status : SpokeConnectionStatus;
  lastError : option string;
}.

Record FederationState := {
  spokes : jsobj SpokeConnection;
  serverIndex : gmap string string;
}.

Definition buildServerIndex (spokes : jsobj SpokeConnection) : gmap string string :=
  foldl (λ idx s, <[serverId s := instanceUrl s]> idx) ∅ (obj_values spokes).

Definition initialState : FederationState := {| spokes := []; serverIndex := ∅ |}.

(** [Omit<SpokeConnection, 'status' | 'lastError'>], what is persisted of a spoke *)
Record SpokeCredentials := {
  c_instanceUrl : string;
  c_accessToken : string;
  c_refreshToken : string;
  c_shadowUserId : string;
  c_serverId : string;
}.

(** The spread of a spoke with the volatile fields reset. *)
Definition fresh_spoke (c : SpokeCredentials) : SpokeConnection :=
  {| instanceUrl := c_instanceUrl c; accessToken := c_accessToken c;
     refreshToken := c_refreshToken c; shadowUserId := c_shadowUserId c;
     serverId := c_serverId c; status := disconnected; lastError := None |}.

Definition addSpoke (spoke : SpokeCredentials) (s : FederationState) : FederationState :=
  {| spokes := obj_set (c_instanceUrl spoke) (fresh_spoke spoke) (spokes s);
     serverIndex := <[c_serverId spoke := c_instanceUrl spoke]> (serverIndex s) |}.

Definition removeSpoke (url : string) (s : FederationState) : FederationState :=
  match obj_get url (spokes s) with
  | Some spoke => {| spokes := obj_delete url (spokes s);
                     serverIndex := delete (serverId spoke) (serverIndex s) |}
  | None => s
  end.

Definition updateSpokeTokens (url access refresh : string) (s : FederationState)
    : FederationState :=
  {| spokes := obj_modify url (λ v,
       {| instanceUrl := instanceUrl v; accessToken := access; refreshToken := refresh;
          shadowUserId := shadowUserId v; serverId := serverId v; status := status v;
          lastError := lastError v |}) (spokes s);
     serverIndex := serverIndex s |}.

Definition updateSpokeStatus (url : string) (st : SpokeConnectionStatus)
    (err : option string) (s : FederationState) : FederationState :=
  {| spokes := obj_modify url (λ v,
       {| instanceUrl := instanceUrl v; accessToken := accessToken v;
          refreshToken := refreshToken v; shadowUserId := shadowUserId v;
          serverId := serverId v; status := st; lastError := err |}) (spokes s);
     serverIndex := serverIndex s |}.

Definition reset (s : FederationState) : FederationState := initialState.

Inductive action :=
  | AddSpoke (c : SpokeCredentials)
  | RemoveSpoke (url : string)
  | UpdateSpokeTokens (url access refresh : string)
  | UpdateSpokeStatus (url : string) (st : SpokeConnectionStatus) (err : option string)
  | Reset.

Definition perform (a : action) : FederationState → FederationState :=
  match a with
  | AddSpoke c => addSpoke c
  | RemoveSpoke url => removeSpoke url
  | UpdateSpokeTokens url x y => updateSpokeTokens url x y
  | UpdateSpokeStatus url st e => updateSpokeStatus url st e
  | Reset => reset
  end.

(** ** Persistence *)

Definition credentials (v : SpokeConnection) : SpokeCredentials :=
  {| c_instanceUrl := instanceUrl v; c_accessToken := accessToken v;
     c_refreshToken := refreshToken v; c_shadowUserId := shadowUserId v;
     c_serverId := serverId v |}.

(** [partialize]: the [spokes] of the record that is written to storage *)
Definition partialize (s : FederationState) : jsobj SpokeCredentials :=
  obj_from_entries ((λ kv, (kv.1, credentials kv.2)) <$> obj_entries (spokes s)).

(** The state after reading the record back and running [onRehydrateStorage]. *)
Definition rehydrate (persisted : jsobj SpokeCredentials) : FederationState :=
  let spokes := (λ kv, (kv.1, fresh_spoke kv.2)) <$> persisted in
  {| spokes := spokes; serverIndex := buildServerIndex spokes |}.

(** The spoke at a URL, through the object. *)
Definition spoke_at (s : FederationState) (url : string) (v : SpokeConnection) : Prop :=
  obj_get url (spokes s) = Some v.

(** An instance keeps the server it was joined for, and a server has one instance. *)
Definition args_ok (a : action) (s : FederationState) : Prop :=
  match a with
  | AddSpoke c => ∀ url v, spoke_at s url v →
      (url = c_instanceUrl c ↔ serverId v = c_serverId c)
  | _ => True
  end.

#[export] Instance federation_store : Store FederationState action :=
  {| initial := initialState; exec := perform; admissible := args_ok |}.

(** ** Invariant *)

Record well_formed (s : FederationState) : Prop := {
  wf_keys : obj_keys_ok (spokes s);
  wf_url : ∀ url v, spoke_at s url v → instanceUrl v = url;
  wf_server : ∀ url url' v v', spoke_at s url v → spoke_at s url' v' →
    serverId v = serverId v' → url = url';
  wf_index : ∀ sid url, serverIndex s !! sid = Some url ↔
    ∃ v, spoke_at s url v ∧ serverId v = sid;
}.

Lemma addSpoke_wf c s : args_ok (AddSpoke c) s → well_formed s → well_formed (addSpoke c s).
Proof.
  intros Hok [Hk Hu Hs Hi].
  assert (Hat : ∀ url v, spoke_at (addSpoke c s) url v ↔
    if decide (url = c_instanceUrl c) then v = fresh_spoke c else spoke_at s url v).
  { intros url v. unfold spoke_at; simpl. rewrite obj_get_set. case_decide; [|done].
    naive_solver. }
  split.
  - by apply obj_set_ok.
  - intros url v. rewrite Hat. case_decide; [by intros ->|apply Hu].
  - intros url url' v v'. rewrite !Hat. repeat case_decide; subst; try done.
    + intros -> Hv' E. simpl in E. apply Hok in Hv' as [_ Hv']. symmetry. auto.
    + intros Hv -> E. simpl in E. apply Hok in Hv as [_ Hv]. auto.
    + apply Hs.
  - intros sid url. simpl. rewrite lookup_insert. setoid_rewrite Hat.
    repeat case_decide; subst; [naive_solver|..].
    + split; [naive_solver|]. intros (v & Hv & E). by apply Hok in Hv as [_ ->].
    + rewrite Hi. split; [|naive_solver].
      intros (v & Hv & <-). pose proof (Hok _ _ Hv) as [E _]. naive_solver.
    + apply Hi.
Qed.

Lemma removeSpoke_wf url s : well_formed s → well_formed (removeSpoke url s).
Proof.
  intros [Hk Hu Hs Hi]. unfold removeSpoke.
  destruct (obj_get url (spokes s)) as [v0|] eqn:E; [|by split].
  assert (Hat : ∀ url' v, spoke_at {| spokes := obj_delete url (spokes s);
      serverIndex := delete (serverId v0) (serverIndex s) |} url' v ↔
    url' ≠ url ∧ spoke_at s url' v).
  { intros url' v. unfold spoke_at; simpl. rewrite obj_get_delete.
    case_decide; naive_solver. }
  split.
  - by apply obj_delete_ok.
  - intros url' v [_ Hv]%Hat. by apply Hu.
  - intros ???? [_ H1]%Hat [_ H2]%Hat. by eapply Hs.
  - intros sid url'. setoid_rewrite Hat. simpl. rewrite lookup_delete. case_decide.
    + split; [done|]. intros (v & [Hne Hv] & Hsid). destruct Hne.
      eapply Hs; [exact Hv|exact E|congruence].
    + rewrite Hi. split; [|naive_solver]. intros (v & Hv & Hsid). exists v.
      split; [|done]. split; [|done]. intros ->. unfold spoke_at in Hv. congruence.
Qed.

Lemma modify_wf url f s :
  (∀ v, instanceUrl (f v) = instanceUrl v ∧ serverId (f v) = serverId v) →
  well_formed s →
  well_formed {| spokes := obj_modify url f (spokes s); serverIndex := serverIndex s |}.
Proof.
  intros Hf [Hk Hu Hs Hi]. set (s' := {| spokes := _ |}).
  assert (Hat : ∀ url' v, spoke_at s' url' v ↔ ∃ v0, spoke_at s url' v0 ∧
    v = if decide (url' = url) then f v0 else v0).
  { intros url' v. unfold spoke_at; simpl. rewrite obj_get_modify.
    case_decide; subst; [|naive_solver]. rewrite fmap_Some. naive_solver. }
  assert (Hsame : ∀ url' v, spoke_at s' url' v → ∃ v0, spoke_at s url' v0 ∧
    instanceUrl v = instanceUrl v0 ∧ serverId v = serverId v0).
  { intros url' v (v0 & Hv0 & ->)%Hat. exists v0. case_decide; [|done].
    destruct (Hf v0). done. }
  split.
  - by apply obj_modify_ok.
  - intros url' v (v0 & Hv0 & -> & _)%Hsame. by apply Hu.
  - intros url1 url2 v1 v2 (v & Hv & _ & E)%Hsame (v' & Hv' & _ & E')%Hsame ?.
    eapply Hs; [exact Hv|exact Hv'|congruence].
  - intros sid url'. simpl. rewrite Hi. split.
    + intros (v0 & Hv0 & <-). setoid_rewrite Hat.
      exists (if decide (url' = url) then f v0 else v0).
      split; [naive_solver|]. case_decide; [apply Hf|done].
    + intros (v & (v0 & Hv0 & _ & E)%Hsame & <-). eauto.
Qed.

Lemma federation_initial_wf : well_formed initialState.
Proof.
  split; try done; [constructor|]. intros sid url. simpl.
  rewrite lookup_empty. split; [done|]. by intros (v & Hv & _).
Qed.

Lemma federation_reachable_wf s : reachable s → well_formed s.
Proof.
  revert s. apply reachable_invariant; [apply federation_initial_wf|].
  intros a s Ha Hs. destruct a; simpl.
  - by apply addSpoke_wf.
  - by apply removeSpoke_wf.
  - by apply modify_wf.
  - by apply modify_wf.
  - apply federation_initial_wf.
Qed.

Lemma buildServerIndex_lookup (o : jsobj SpokeConnection) sid url :
  obj_keys_ok o →
  (∀ u u' v v', obj_get u o = Some v → obj_get u' o = Some v' →
     serverId v = serverId v' → instanceUrl v = instanceUrl v') →
  buildServerIndex o !! sid = Some url ↔
    ∃ u v, obj_get u o = Some v ∧ serverId v = sid ∧ instanceUrl v = url.
Proof.
  intros Ho Hfun. unfold buildServerIndex. rewrite fill_table_lookup.
  - setoid_rewrite obj_values_elem; [|done]. naive_solver.
  - intros x y [u Hu]%obj_values_elem [u' Hu']%obj_values_elem; [|done..]. by eapply Hfun.
Qed.

(** in every state the store reaches, the reverse index sends a server id to an
    instance URL exactly when the spoke at that URL was joined for that server, so
    it is what [buildServerIndex] derives from the spokes. *)
Theorem federation_index_exact s :
  reachable s →
  (∀ sid url, serverIndex s !! sid = Some url ↔ ∃ v, spoke_at s url v ∧ serverId v = sid) ∧
  serverIndex s = buildServerIndex (spokes s).
Proof.
  intros [Hk Hu Hs Hi]%federation_reachable_wf. split; [done|]. apply map_eq. intros sid.
  apply option_eq. intros url. rewrite Hi, buildServerIndex_lookup; [|done|].
  - split.
    + intros (v & Hv & E). exists url, v. split; [done|]. split; [done|]. by apply Hu.
    + intros (u & v & Hv & E & <-). exists v. split; [|done]. unfold spoke_at.
      by rewrite (Hu u v Hv).
  - intros u u' v v' H1 H2 E. rewrite (Hu _ _ H1), (Hu _ _ H2). by eapply Hs.
Qed.

Lemma partialize_entries s :
  obj_keys_ok (spokes s) →
  partialize s = (λ kv, (kv.1, credentials kv.2)) <$> obj_entries (spokes s).
Proof.
  intros Hk. unfold partialize. apply obj_from_entries_id.
  rewrite <-list_fmap_compose. change (NoDup (fst <$> obj_entries (spokes s))).
  by rewrite obj_entries_perm.
Qed.

Lemma rehydrate_spoke_at s url :
  obj_keys_ok (spokes s) →
  obj_get url (spokes (rehydrate (partialize s))) =
    fresh_spoke ∘ credentials <$> obj_get url (spokes s).
Proof.
  intros Hk. rewrite partialize_entries by done. simpl. rewrite !obj_get_fmap.
  rewrite option_fmap_compose. do 2 f_equal. apply option_eq. intros v.
  assert (Hk' : obj_keys_ok (obj_entries (spokes s)))
    by (unfold obj_keys_ok; by rewrite obj_entries_perm).
  rewrite <-!obj_entries_get by done. by rewrite !obj_entries_perm.
Qed.

(** reloading the page: what is persisted gives back every spoke with its
    credentials, disconnected and without an error, and the same reverse index. *)
Theorem rehydrate_partialize s :
  reachable s →
  (∀ url, obj_get url (spokes (rehydrate (partialize s))) =
     fresh_spoke ∘ credentials <$> obj_get url (spokes s)) ∧
  serverIndex (rehydrate (partialize s)) = serverIndex s.
Proof.
  intros Hwf%federation_reachable_wf. destruct Hwf as [Hk Hu Hs Hi].
  assert (Hget := λ url, rehydrate_spoke_at s url Hk). split; [done|].
  assert (Hat : ∀ u v, obj_get u (spokes (rehydrate (partialize s))) = Some v →
    ∃ v0, spoke_at s u v0 ∧ serverId v = serverId v0 ∧ instanceUrl v = u).
  { intros u v. rewrite Hget. intros (v0 & Hv0 & ->)%fmap_Some. exists v0.
    split; [done|]. split; [done|]. exact (Hu u v0 Hv0). }
  apply map_eq. intros sid. apply option_eq. intros url. simpl.
  fold (spokes (rehydrate (partialize s))). rewrite Hi.
  change (buildServerIndex ((λ kv, (kv.1, fresh_spoke kv.2)) <$> partialize s))
    with (buildServerIndex (spokes (rehydrate (partialize s)))).
  rewrite buildServerIndex_lookup.
  - split.
    + intros (u & v & (v0 & Hv0 & E & <-)%Hat & <- & <-). eauto.
    + intros (v & Hv & <-). exists url, (fresh_spoke (credentials v)). rewrite Hget, Hv.
      split; [done|]. split; [done|]. exact (Hu url v Hv).
  - unfold obj_keys_ok. rewrite partialize_entries by done. simpl.
    rewrite <-!list_fmap_compose. change (NoDup (fst <$> obj_entries (spokes s))).
    by rewrite obj_entries_perm.
  - intros u u' v v' (v0 & H0 & E0 & ->)%Hat (v1 & H1 & E1 & ->)%Hat E.
    eapply Hs; [exact H0|exact H1|congruence].
Qed.

(** joining another server through an instance that already has a spoke overwrites
    the spoke but leaves the old server's entry in the index: it still resolves to
    the instance, also after the spoke is removed. *)
Theorem rejoin_leaves_stale_index s c1 c2 :
  c_instanceUrl c1 = c_instanceUrl c2 → c_serverId c1 ≠ c_serverId c2 →
  let s' := removeSpoke (c_instanceUrl c2) (addSpoke c2 (addSpoke c1 s)) in
  serverIndex s' !! c_serverId c1 = Some (c_instanceUrl c1) ∧
  obj_get (c_instanceUrl c1) (spokes s') = None.
Proof.
  intros Hurl Hne. cbv zeta. unfold removeSpoke. simpl.
  rewrite obj_get_set, decide_True by done. simpl. split.
  - rewrite lookup_delete_ne, lookup_insert_ne by done. apply lookup_insert_eq.
  - rewrite obj_get_delete. by rewrite decide_True.
Qed.

(** ** Concrete runs *)

Definition demo_spoke (url server : string) : SpokeCredentials :=
  {| c_instanceUrl := url; c_accessToken := "a"; c_refreshToken := "r";
     c_shadowUserId := "u"; c_serverId := server |}.

Definition demo_state : FederationState :=
  run [AddSpoke (demo_spoke "https://x" "s1"); UpdateSpokeStatus "https://x" connected None]
    initial.

Lemma federation_demo_reachable : reachable demo_state.
Proof.
  apply reachable_run. split; [|by split]. intros url v Hv. discriminate Hv.
Qed.

Lemma federation_index_exact_witness :
  serverIndex demo_state !! "s1" = Some "https://x" ∧
  serverIndex demo_state = buildServerIndex (spokes demo_state).
Proof.
  split; [reflexivity|]. apply (federation_index_exact demo_state federation_demo_reachable).
Defined.

Lemma rehydrate_partialize_witness :
  status <$> obj_get "https://x" (spokes demo_state) = Some connected ∧
  obj_get "https://x" (spokes (rehydrate (partialize demo_state))) =
    Some (fresh_spoke (demo_spoke "https://x" "s1")).
Proof.
  split; [reflexivity|].
  rewrite (proj1 (rehydrate_partialize demo_state federation_demo_reachable)). reflexivity.
Defined.

Lemma rejoin_leaves_stale_index_witness :
  serverIndex (removeSpoke "https://x" (addSpoke (demo_spoke "https://x" "s2")
    (addSpoke (demo_spoke "https://x" "s1") initialState))) !! "s1" = Some "https://x".
Proof.
  apply (rejoin_leaves_stale_index initialState (demo_spoke "https://x" "s1")
    (demo_spoke "https://x" "s2")); [reflexivity|discriminate].
Defined.
