(* ===== verification/Servers.v ===== *)
(** * The server store ([store/servers.ts])

    The servers the user is in.  Replacing the list keeps the servers joined through
    federation, whose ids come from the federation store or, before that store is
    hydrated, straight from the JSON it keeps in local storage. *)

From S2P Require Export Models Federation Json.

(** [(s) => s.serverId], which throws on [null] *)
Definition read_serverId (j : json) : result unit (option json) :=
  match j with JNull => Throw tt | _ => Ok (json_get "serverId" (Some j)) end.

Fixpoint map_result {E A B} (f : A → result E B) (l : list A) : result E (list B) :=
  match l with
  | [] => Ok []
  | x :: l => result_bind (f x) (λ y, result_bind (map_result f l) (λ ys, Ok (y :: ys)))
  end.

Section parse.
(** [JSON.parse], which throws on text that is not JSON *)
Context (JSON_parse : string → result unit json).

Definition parse_server_ids (raw : string) : result unit (gset string) :=
  result_bind (JSON_parse raw) (λ parsed,
  let version := json_get "version" (Some parsed) in
  if match version with Some (JNum n) => Num.eqn n Num.one | _ => false end then
    let spokes :=
      match json_get "spokes" (json_get "state" (Some parsed)) with
      | None | Some JNull => JObj []
      | Some j => j
      end in
    result_bind (map_result read_serverId (json_values spokes)) (λ ids,
    Ok (list_to_set (omap json_string (filter (λ j, json_truthy j = true) ids))))
  else Ok ∅).

Definition readFederatedServerIdsSync (raw : option string) : gset string :=
  if truthy raw then
    match parse_server_ids (or_default "" raw) with Ok ids => ids | Throw _ => ∅ end
  else ∅.
End parse.

(** ** The store *)

Record ServerState := {
  servers : gmap string Server;
  isLoading : bool;
  error : option string;
}.

Definition emptyState : ServerState := {| servers := ∅; isLoading := false; error := None |}.

Definition on_servers f (s : ServerState) : ServerState :=
  {| servers := f (servers s); isLoading := isLoading s; error := error s |}.
Definition setLoading (loading : bool) (s : ServerState) : ServerState :=
  {| servers := servers s; isLoading := loading; error := error s |}.
Definition setError (err : option string) (s : ServerState) : ServerState :=
  {| servers := servers s; isLoading := false; error := err |}.

(** The ids to keep: the federation store's, or those [fallback] reads from storage. *)
Definition federated_ids (storeIndex : gmap string string) (fallback : gset string)
    : gset string :=
  if decide (storeIndex = ∅) then fallback else dom storeIndex.

Definition setServers (storeIndex : gmap string string) (fallback : gset string)
    (list : list Server) (s : ServerState) : ServerState :=
  let federatedIds := federated_ids storeIndex fallback in
  let preserved := filter (λ kv, kv.1 ∈ federatedIds) (servers s) in
  setLoading false
    (on_servers (λ _, foldl (λ m sv, <[sv_id sv := sv]> m) preserved list) s).

Definition addServer (server : Server) (s : ServerState) : ServerState :=
  on_servers <[sv_id server := server]> s.
Definition removeServer (serverId : string) (s : ServerState) : ServerState :=
  on_servers (delete serverId) s.
Definition reset (s : ServerState) : ServerState := emptyState.

Inductive action :=
  | SetServers (storeIndex : gmap string string) (fallback : gset string) (l : list Server)
  | AddServer (sv : Server)
  | RemoveServer (serverId : string)
  | SetLoading (b : bool)
  | SetError (e : option string)
  | Reset.

Definition perform (a : action) : ServerState → ServerState :=
  match a with
  | SetServers idx fb l => setServers idx fb l
  | AddServer sv => addServer sv
  | RemoveServer sid => removeServer sid
  | SetLoading b => setLoading b
  | SetError e => setError e
  | Reset => reset
  end.

#[export] Instance server_store : Store ServerState action :=
  {| initial := emptyState; exec := perform; admissible := λ _ _, True |}.

Lemma reachable_keys s : reachable s → ∀ id sv, servers s !! id = Some sv → sv_id sv = id.
Proof.
  revert s. apply (reachable_invariant (λ s, ∀ id sv, servers s !! id = Some sv → sv_id sv = id));
    [by intros id sv; simpl; rewrite lookup_empty|].
  intros a s _ Hs. destruct a as [idx fb l|sv|sid|b|e|]; simpl; try done.
  - intros id sv. rewrite (build_index_lookup_gen sv_id). case_match eqn:E.
    + intros ?; simplify_eq. by apply find_key_Some_inv in E as [_ ?].
    + intros [? _]%map_lookup_filter_Some. eauto.
  - intros id sv'. rewrite lookup_insert. case_decide; [naive_solver|apply Hs].
  - intros id sv. rewrite lookup_delete. case_decide; [done|apply Hs].
Qed.

(** replacing the server list: afterwards a server is known exactly if the new list
    has it, with the list's last record for it, or if it was known and is federated,
    with its old record; every record is filed under its own id. *)
Theorem setServers_correct s storeIndex fallback l id :
  reachable s →
  let s' := setServers storeIndex fallback l s in
  servers s' !! id =
    match find_key sv_id id (reverse l) with
    | Some sv => Some sv
    | None => if decide (id ∈ federated_ids storeIndex fallback) then servers s !! id else None
    end ∧
  (∀ sv, servers s' !! id = Some sv → sv_id sv = id).
Proof.
  intros Hs. cbv zeta. split.
  - simpl. rewrite (build_index_lookup_gen sv_id). case_match; [done|].
    apply option_eq. intros sv. rewrite map_lookup_filter_Some. simpl.
    case_decide; naive_solver.
  - intros sv. apply reachable_keys.
    exact (reachable_exec (SetServers storeIndex fallback l) s I Hs).
Qed.

(** ** The fallback agrees with the federation store *)

Definition credentials_json (c : SpokeCredentials) : json :=
  JObj [("instanceUrl", JStr (c_instanceUrl c)); ("accessToken", JStr (c_accessToken c));
        ("refreshToken", JStr (c_refreshToken c)); ("shadowUserId", JStr (c_shadowUserId c));
        ("serverId", JStr (c_serverId c))].

(** What zustand's [persist] writes: the partial state and the version. *)
Definition persisted_json (p : jsobj SpokeCredentials) : json :=
  JObj [("state", JObj [("spokes", JObj ((λ kv, (kv.1, credentials_json kv.2)) <$> p))]);
        ("version", JNum Num.one)].

Lemma map_result_read (l : list SpokeCredentials) :
  map_result read_serverId (credentials_json <$> l) =
    Ok ((λ c, Some (JStr (c_serverId c))) <$> l).
Proof. induction l as [|c l IH]; [done|]. rewrite !fmap_cons. simpl. by rewrite IH. Qed.

Lemma json_strings (l : list SpokeCredentials) :
  omap json_string (filter (λ j, json_truthy j = true)
    ((λ c, Some (JStr (c_serverId c))) <$> l)) = filter (.≠ "") (c_serverId <$> l).
Proof.
  induction l as [|c l IH]; [done|]. rewrite !fmap_cons, !filter_cons. simpl.
  case_bool_decide as E; simpl.
  - rewrite decide_False by auto. exact IH.
  - rewrite decide_True by done. f_equal. exact IH.
Qed.

(** before the federation store is hydrated, the ids read from its persisted record
    are those its index will have. *)
Theorem fallback_agrees parse raw (f : FederationState) :
  reachable f → raw ≠ "" → parse raw = Ok (persisted_json (partialize f)) →
  serverIndex f !! "" = None →
  readFederatedServerIdsSync parse (Some raw) = dom (serverIndex f).
Proof.
  intros Hwf%federation_reachable_wf Hraw Hparse Hne. destruct Hwf as [Hk Hu Hs Hi].
  unfold readFederatedServerIdsSync. simpl. rewrite bool_decide_eq_false_2 by done. simpl.
  unfold parse_server_ids. rewrite Hparse. simpl.
  set (o := (λ kv, (kv.1, credentials_json kv.2)) <$> partialize f).
  assert (Hval : ∃ l, obj_values o = credentials_json <$> l ∧ l ≡ₚ snd <$> partialize f).
  { assert (Hp : obj_entries o ≡ₚ (λ kv, (kv.1, credentials_json kv.2)) <$> partialize f)
      by apply obj_entries_perm.
    assert (Hv : obj_values o ≡ₚ credentials_json <$> (snd <$> partialize f)).
    { unfold obj_values. rewrite Hp, <-!list_fmap_compose. done. }
    apply Permutation_map_inv in Hv as (l & ? & ?). by exists l. }
  destruct Hval as (l & Hl & Hp).
  change (json_values (JObj o)) with (obj_values o). rewrite Hl, map_result_read. simpl.
  rewrite json_strings. apply set_eq. intros sid.
  rewrite elem_of_list_to_set, list_elem_of_filter, elem_of_dom, list_elem_of_fmap.
  assert (Hin : ∀ c, c ∈ l ↔ ∃ url v, spoke_at f url v ∧ c = credentials v).
  { intros c. rewrite Hp, partialize_entries by done. rewrite <-list_fmap_compose.
    rewrite list_elem_of_fmap. split.
    - intros ([url v] & -> & Hkv). exists url, v. split; [by apply obj_entries_get|done].
    - intros (url & v & Hv & ->). exists (url, v). split; [done|by apply obj_entries_get]. }
  split.
  - intros [_ (c & -> & (url & v & Hv & ->)%Hin)]. exists url. apply Hi. by exists v.
  - intros [url (v & Hv & <-)%Hi]. split.
    { intros E. assert (serverIndex f !! "" = Some url) by (apply Hi; eauto). congruence. }
    exists (credentials v).
    split; [done|]. apply Hin. eauto.
Qed.

(** ** Concrete runs *)

Definition demo_server (id : string) : Server :=
  {| sv_id := id; sv_name := id; sv_iconUrl := ""; sv_ownerId := "o";
     sv_createdAt := None; sv_welcomeMessage := ""; sv_rules := "";
     sv_onboardingEnabled := false; sv_rulesRequired := false;
     sv_defaultChannelPrivacy := false; sv_bannerUrl := "" |}.
Definition demo_servers : ServerState :=
  run [AddServer (demo_server "home"); AddServer (demo_server "fed")] initial.

Lemma servers_demo_reachable : reachable demo_servers.
Proof. apply reachable_run. by split. Qed.

Lemma setServers_correct_witness :
  let s' := setServers {["fed" := "https://x"]} ∅ [demo_server "new"] demo_servers in
  servers s' !! "fed" = Some (demo_server "fed") ∧ servers s' !! "home" = None.
Proof.
  split.
  - rewrite (proj1 (setServers_correct demo_servers {["fed" := "https://x"]} ∅
      [demo_server "new"] "fed" servers_demo_reachable)). reflexivity.
  - reflexivity.
Defined.

Lemma fallback_agrees_witness :
  readFederatedServerIdsSync (λ _, Ok (persisted_json (partialize demo_state))) (Some "{}")
    = {["s1"]}.
Proof.
  rewrite (fallback_agrees _ "{}" demo_state federation_demo_reachable);
    [reflexivity|discriminate|reflexivity..].
Defined.
