(* ===== verification/Dms.v ===== *)
(** * The direct-message store ([store/dms.ts])

    The conversations, most recent first, and the message requests.  A request is listed
    once; a conversation too, until a request is accepted for one that is listed already. *)

From S2P Require Export Models.

Record DMState := {
  dmChannels : list DMChannel;
  messageRequests : list DMChannel;
  isLoading : bool;
  error : option string;
}.

Definition emptyState : DMState :=
  {| dmChannels := []; messageRequests := []; isLoading := false; error := None |}.

Definition on_channels f (s : DMState) : DMState :=
  {| dmChannels := f (dmChannels s); messageRequests := messageRequests s;
     isLoading := isLoading s; error := error s |}.
Definition on_requests f (s : DMState) : DMState :=
  {| dmChannels := dmChannels s; messageRequests := f (messageRequests s);
     isLoading := isLoading s; error := error s |}.
Definition setLoading (loading : bool) (s : DMState) : DMState :=
  {| dmChannels := dmChannels s; messageRequests := messageRequests s;
     isLoading := loading; error := error s |}.
Definition setError (err : option string) (s : DMState) : DMState :=
  {| dmChannels := dmChannels s; messageRequests := messageRequests s;
     isLoading := false; error := err |}.

Definition setDMChannels (channels : list DMChannel) (s : DMState) : DMState :=
  setLoading false (on_channels (λ _, channels) s).

Definition addOrUpdateDMChannel (channel : DMChannel) : DMState → DMState :=
  on_channels (λ l, channel :: splice_key dm_channelId (dm_channelId channel) l).

Definition bumpDMChannel (channelId : string) : DMState → DMState :=
  on_channels (λ l,
    match index_key dm_channelId (Some channelId) l with
    | Some (S i) =>
        match l !! S i with Some dm => dm :: delete (S i) l | None => l end
    | _ => l
    end).

Definition removeDMChannel (channelId : string) : DMState → DMState :=
  on_channels (without dm_channelId (Some channelId)).

Definition dm_set_participants (ps : list User) (dm : DMChannel) : DMChannel :=
  {| dm_channel := dm_channel dm; dm_participants := ps |}.

Definition addDMChannelParticipant (channelId : string) (user : User) : DMState → DMState :=
  on_channels (modify_key dm_channelId (Some channelId) (λ dm,
    if has_key u_id (u_id user) (dm_participants dm) then dm
    else dm_set_participants (dm_participants dm ++ [user]) dm)).

Definition removeDMChannelParticipant (channelId userId : string) : DMState → DMState :=
  on_channels (modify_key dm_channelId (Some channelId) (λ dm,
    dm_set_participants (without u_id userId (dm_participants dm)) dm)).

Definition setMessageRequests (channels : list DMChannel) : DMState → DMState :=
  on_requests (λ _, channels).

Definition addMessageRequest (channel : DMChannel) : DMState → DMState :=
  on_requests (λ l,
    match index_key dm_channelId (dm_channelId channel) l with
    | None => channel :: l
    | Some _ => l
    end).

Definition removeMessageRequest (channelId : string) : DMState → DMState :=
  on_requests (without dm_channelId (Some channelId)).

Definition moveRequestToActive (channelId : string) (s : DMState) : DMState :=
  match find_key dm_channelId (Some channelId) (messageRequests s) with
  | Some request =>
      on_channels (cons request) (on_requests (without dm_channelId (Some channelId)) s)
  | None => s
  end.

Definition reset (s : DMState) : DMState := emptyState.

Inductive action :=
  | SetDMChannels (l : list DMChannel)
  | AddOrUpdateDMChannel (c : DMChannel)
  | BumpDMChannel (id : string)
  | RemoveDMChannel (id : string)
  | AddParticipant (id : string) (u : User)
  | RemoveParticipant (id uid : string)
  | SetMessageRequests (l : list DMChannel)
  | AddMessageRequest (c : DMChannel)
  | RemoveMessageRequest (id : string)
  | MoveRequestToActive (id : string)
  | SetLoading (b : bool)
  | SetError (e : option string)
  | Reset.

Definition perform (a : action) : DMState → DMState :=
  match a with
  | SetDMChannels l => setDMChannels l
  | AddOrUpdateDMChannel c => addOrUpdateDMChannel c
  | BumpDMChannel id => bumpDMChannel id
  | RemoveDMChannel id => removeDMChannel id
  | AddParticipant id u => addDMChannelParticipant id u
  | RemoveParticipant id uid => removeDMChannelParticipant id uid
  | SetMessageRequests l => setMessageRequests l
  | AddMessageRequest c => addMessageRequest c
  | RemoveMessageRequest id => removeMessageRequest id
  | MoveRequestToActive id => moveRequestToActive id
  | SetLoading b => setLoading b
  | SetError e => setError e
  | Reset => reset
  end.

(** The server lists every conversation once. *)
Definition args_ok (a : action) (s : DMState) : Prop :=
  match a with
  | SetDMChannels l | SetMessageRequests l => NoDup (dm_channelId <$> l)
  | _ => True
  end.

#[export] Instance dm_store : Store DMState action :=
  {| initial := emptyState; exec := perform; admissible := args_ok |}.

(** ** Invariant: a request is listed once *)

Definition well_formed (s : DMState) : Prop := NoDup (dm_channelId <$> messageRequests s).
Definition once (s : DMState) : Prop := NoDup (dm_channelId <$> dmChannels s).

(** The one action that can list a conversation again *)
Definition relists (a : action) (s : DMState) : Prop :=
  match a with
  | MoveRequestToActive id => Some id ∈ dm_channelId <$> dmChannels s
  | _ => False
  end.

(** Moving a found record to the front. *)
Lemma bump_list k (l : list DMChannel) :
  NoDup (dm_channelId <$> l) →
  match index_key dm_channelId k l with
  | Some (S i) => match l !! S i with Some dm => dm :: delete (S i) l | None => l end
  | _ => l
  end = match find_key dm_channelId k l with
        | Some dm => dm :: without dm_channelId k l | None => l end.
Proof.
  intros Hnd. rewrite <-splice_key_without by done. unfold splice_key, index_key, find_key.
  destruct (list_find _ l) as [[i dm]|] eqn:E; simpl; [|done].
  apply list_find_Some in E as (Hi & _). destruct i as [|i]; [|by rewrite Hi].
  destruct l; simpl in *; congruence.
Qed.

Lemma NoDup_to_front (dm : DMChannel) (l : list DMChannel) :
  NoDup (dm_channelId <$> l) →
  NoDup (dm_channelId <$> (dm :: without dm_channelId (dm_channelId dm) l)).
Proof.
  intros Hnd. rewrite fmap_cons, NoDup_cons. split; [|by apply NoDup_without].
  rewrite without_keys, list_elem_of_filter. naive_solver.
Qed.

Lemma dms_perform_wf a s : args_ok a s → well_formed s → well_formed (perform a s).
Proof.
  unfold well_formed. intros Ha Hr. destruct a; simpl; try done.
  - case_match eqn:E; [done|]. apply index_key_None in E. rewrite fmap_cons. by apply NoDup_cons.
  - by apply NoDup_without.
  - unfold moveRequestToActive. case_match; [by apply NoDup_without|done].
  - constructor.
Qed.

(** Nothing else lists a conversation twice. *)
Lemma dms_perform_once a s : args_ok a s → ¬ relists a s → once s → once (perform a s).
Proof.
  unfold once. intros Ha Hn Hc. destruct a; simpl in *; try done.
  - rewrite splice_key_without by done. by apply NoDup_to_front.
  - rewrite bump_list by done. case_match eqn:E; [|done].
    apply find_key_Some_inv in E as [_ <-]. by apply NoDup_to_front.
  - by apply NoDup_without.
  - apply NoDup_modify; [|done]. intros dm. by case_match.
  - by apply NoDup_modify.
  - unfold moveRequestToActive. case_match eqn:E; [|done].
    apply find_key_Some_inv in E as [_ Hk]. simpl. rewrite Hk. by apply NoDup_cons.
  - constructor.
Qed.

Lemma dms_reachable_wf s : reachable s → well_formed s.
Proof. revert s. apply reachable_invariant; [constructor|]. intros a s. apply dms_perform_wf. Qed.

(** a list that has each conversation once is most recent first: an updated or new
    conversation and one that receives a message go to the front, a removed one
    disappears, and the others keep their order. *)
Theorem dm_recency s id c :
  once s →
  dmChannels (addOrUpdateDMChannel c s) =
    c :: without dm_channelId (dm_channelId c) (dmChannels s) ∧
  dmChannels (bumpDMChannel id s) =
    match find_key dm_channelId (Some id) (dmChannels s) with
    | Some dm => dm :: without dm_channelId (Some id) (dmChannels s)
    | None => dmChannels s
    end ∧
  dmChannels (removeDMChannel id s) = without dm_channelId (Some id) (dmChannels s).
Proof.
  intros Hc. split; [|split; [|done]]; simpl.
  - by rewrite splice_key_without.
  - by apply bump_list.
Qed.

(** accepting a message request moves that conversation, and no other, from the
    requests to the front of the conversations, whether or not it is there already. *)
Theorem moveRequestToActive_correct s id :
  let s' := moveRequestToActive id s in
  match find_key dm_channelId (Some id) (messageRequests s) with
  | Some request => dmChannels s' = request :: dmChannels s
  | None => dmChannels s' = dmChannels s
  end ∧
  messageRequests s' = without dm_channelId (Some id) (messageRequests s).
Proof.
  cbv zeta. unfold moveRequestToActive. split; [by case_match|].
  case_match eqn:E; [done|]. apply find_key_None in E. by rewrite without_absent.
Qed.

Definition demo_dm (id : string) : DMChannel :=
  {| dm_channel := Some {| ch_id := id; ch_serverId := ""; ch_name := ""; ch_type := 3;
       ch_position := 0; ch_topic := ""; ch_isPrivate := true; ch_channelGroupId := None;
       ch_permissionsSynced := false |};
     dm_participants := [] |}.
Definition demo_state : DMState :=
  run [SetDMChannels [demo_dm "a"; demo_dm "b"; demo_dm "c"]; AddMessageRequest (demo_dm "q")]
    initial.

Lemma demo_once : once demo_state.
Proof. apply (bool_decide_unpack _). reflexivity. Qed.

(** The acceptance of a request is sent to both sides: whoever has the conversation open
    already (the one who wrote first, or after a call of their own to open it) and still
    has the request, lists it twice from then on. *)
Lemma accepted_listed_twice :
  ∃ s, reachable s ∧ dm_channelId <$> dmChannels s = [Some "q"; Some "q"].
Proof.
  exists (run [AddMessageRequest (demo_dm "q"); AddOrUpdateDMChannel (demo_dm "q");
               MoveRequestToActive "q"] initial).
  split; [by apply reachable_run|reflexivity].
Qed.

Lemma dm_recency_witness :
  dmChannels (bumpDMChannel "c" demo_state) = [demo_dm "c"; demo_dm "a"; demo_dm "b"].
Proof.
  rewrite (proj1 (proj2 (dm_recency demo_state "c" (demo_dm "a") demo_once))). reflexivity.
Defined.
