(* ===== verification/Friends.v ===== *)
(** * The friend store ([store/friends.ts])

    The friends and the friend requests in both directions. *)

From S2P Require Export Models.

Record FriendState := {
  friends : list User;
  incomingRequests : list FriendRequestEntry;
  outgoingRequests : list FriendRequestEntry;
}.

Definition emptyState : FriendState :=
  {| friends := []; incomingRequests := []; outgoingRequests := [] |}.

Definition on_friends f (s : FriendState) : FriendState :=
  {| friends := f (friends s); incomingRequests := incomingRequests s;
     outgoingRequests := outgoingRequests s |}.
Definition on_incoming f (s : FriendState) : FriendState :=
  {| friends := friends s; incomingRequests := f (incomingRequests s);
     outgoingRequests := outgoingRequests s |}.
Definition on_outgoing f (s : FriendState) : FriendState :=
  {| friends := friends s; incomingRequests := incomingRequests s;
     outgoingRequests := f (outgoingRequests s) |}.

Definition setFriends (l : list User) : FriendState → FriendState := on_friends (λ _, l).
Definition addFriend (user : User) : FriendState → FriendState :=
  on_friends (λ l, if has_key u_id (u_id user) l then l else user :: l).
Definition removeFriend (userId : string) : FriendState → FriendState :=
  on_friends (without u_id userId).
Definition isFriend (userId : string) (s : FriendState) : bool :=
  has_key u_id userId (friends s).

Definition setIncomingRequests (l : list FriendRequestEntry) : FriendState → FriendState :=
  on_incoming (λ _, l).
Definition addIncomingRequest (r : FriendRequestEntry) : FriendState → FriendState :=
  on_incoming (λ l, if has_key fr_userId (fr_userId r) l then l else r :: l).
Definition removeIncomingRequest (userId : string) : FriendState → FriendState :=
  on_incoming (without fr_userId (Some userId)).

Definition setOutgoingRequests (l : list FriendRequestEntry) : FriendState → FriendState :=
  on_outgoing (λ _, l).
Definition addOutgoingRequest (r : FriendRequestEntry) : FriendState → FriendState :=
  on_outgoing (λ l, if has_key fr_userId (fr_userId r) l then l else r :: l).
Definition removeOutgoingRequest (userId : string) : FriendState → FriendState :=
  on_outgoing (without fr_userId (Some userId)).

Definition acceptFriend (user : User) (s : FriendState) : FriendState :=
  on_friends (λ l, if has_key u_id (u_id user) l then l else user :: l)
    (on_incoming (without fr_userId (Some (u_id user)))
      (on_outgoing (without fr_userId (Some (u_id user))) s)).

Inductive relationship := is_friends | is_incoming | is_outgoing | is_none.

Definition getRelationship (userId : string) (s : FriendState) : relationship :=
  if has_key u_id userId (friends s) then is_friends
  else if has_key fr_userId (Some userId) (incomingRequests s) then is_incoming
  else if has_key fr_userId (Some userId) (outgoingRequests s) then is_outgoing
  else is_none.

Definition reset (s : FriendState) : FriendState := emptyState.

Inductive action :=
  | SetFriends (l : list User)
  | AddFriend (u : User)
  | RemoveFriend (id : string)
  | SetIncomingRequests (l : list FriendRequestEntry)
  | AddIncomingRequest (r : FriendRequestEntry)
  | RemoveIncomingRequest (id : string)
  | SetOutgoingRequests (l : list FriendRequestEntry)
  | AddOutgoingRequest (r : FriendRequestEntry)
  | RemoveOutgoingRequest (id : string)
  | AcceptFriend (u : User)
  | Reset.

Definition perform (a : action) : FriendState → FriendState :=
  match a with
  | SetFriends l => setFriends l
  | AddFriend u => addFriend u
  | RemoveFriend id => removeFriend id
  | SetIncomingRequests l => setIncomingRequests l
  | AddIncomingRequest r => addIncomingRequest r
  | RemoveIncomingRequest id => removeIncomingRequest id
  | SetOutgoingRequests l => setOutgoingRequests l
  | AddOutgoingRequest r => addOutgoingRequest r
  | RemoveOutgoingRequest id => removeOutgoingRequest id
  | AcceptFriend u => acceptFriend u
  | Reset => reset
  end.

(** The server lists everyone once. *)
Definition args_ok (a : action) (s : FriendState) : Prop :=
  match a with
  | SetFriends l => NoDup (u_id <$> l)
  | SetIncomingRequests l | SetOutgoingRequests l => NoDup (fr_userId <$> l)
  | _ => True
  end.

#[export] Instance friend_store : Store FriendState action :=
  {| initial := emptyState; exec := perform; admissible := args_ok |}.

(** ** Specification: three sets of user ids *)

Record Relations := {
  rel_friends : gset string;
  rel_incoming : gset string;
  rel_outgoing : gset string;
}.

(** Requests without a user concern nobody. *)
Definition request_ids (l : list FriendRequestEntry) : gset string :=
  list_to_set (omap fr_userId l).
Definition friend_ids (l : list User) : gset string := list_to_set (u_id <$> l).

Definition relations (s : FriendState) : Relations :=
  {| rel_friends := friend_ids (friends s);
     rel_incoming := request_ids (incomingRequests s);
     rel_outgoing := request_ids (outgoingRequests s) |}.

Definition opt_set (o : option string) : gset string :=
  match o with Some x => {[x]} | None => ∅ end.

Definition spec (a : action) (r : Relations) : Relations :=
  let 'Build_Relations f i o := r in
  match a with
  | SetFriends l => Build_Relations (friend_ids l) i o
  | AddFriend u => Build_Relations ({[u_id u]} ∪ f) i o
  | RemoveFriend id => Build_Relations (f ∖ {[id]}) i o
  | SetIncomingRequests l => Build_Relations f (request_ids l) o
  | AddIncomingRequest e => Build_Relations f (opt_set (fr_userId e) ∪ i) o
  | RemoveIncomingRequest id => Build_Relations f (i ∖ {[id]}) o
  | SetOutgoingRequests l => Build_Relations f i (request_ids l)
  | AddOutgoingRequest e => Build_Relations f i (opt_set (fr_userId e) ∪ o)
  | RemoveOutgoingRequest id => Build_Relations f i (o ∖ {[id]})
  | AcceptFriend u => Build_Relations ({[u_id u]} ∪ f) (i ∖ {[u_id u]}) (o ∖ {[u_id u]})
  | Reset => Build_Relations ∅ ∅ ∅
  end.

Lemma elem_of_request_ids id l : id ∈ request_ids l ↔ Some id ∈ fr_userId <$> l.
Proof.
  unfold request_ids. rewrite elem_of_list_to_set, list_elem_of_omap, list_elem_of_fmap.
  naive_solver.
Qed.
Lemma elem_of_friend_ids id l : id ∈ friend_ids l ↔ id ∈ u_id <$> l.
Proof. unfold friend_ids. by rewrite elem_of_list_to_set. Qed.

Lemma friend_ids_add u (l : list User) :
  friend_ids (if has_key u_id (u_id u) l then l else u :: l) = {[u_id u]} ∪ friend_ids l.
Proof.
  apply set_eq. intros x. destruct (has_key _ _ _) eqn:E;
    rewrite elem_of_union, elem_of_singleton, !elem_of_friend_ids.
  - unfold has_key in E. apply bool_decide_eq_true in E. naive_solver.
  - rewrite fmap_cons, elem_of_cons. done.
Qed.
Lemma friend_ids_without id (l : list User) :
  friend_ids (without u_id id l) = friend_ids l ∖ {[id]}.
Proof.
  apply set_eq. intros x. rewrite elem_of_difference, elem_of_singleton, !elem_of_friend_ids.
  rewrite without_keys, list_elem_of_filter. tauto.
Qed.
Lemma request_ids_add r (l : list FriendRequestEntry) :
  request_ids (if has_key fr_userId (fr_userId r) l then l else r :: l) =
    opt_set (fr_userId r) ∪ request_ids l.
Proof.
  apply set_eq. intros x. rewrite elem_of_union.
  assert (Hopt : x ∈ opt_set (fr_userId r) ↔ Some x = fr_userId r).
  { unfold opt_set. destruct (fr_userId r); set_solver. }
  rewrite Hopt. destruct (has_key _ _ _) eqn:E; rewrite !elem_of_request_ids.
  - unfold has_key in E. apply bool_decide_eq_true in E. split; [auto|].
    intros [->|?]; done.
  - by rewrite fmap_cons, elem_of_cons.
Qed.
Lemma request_ids_without id (l : list FriendRequestEntry) :
  request_ids (without fr_userId (Some id) l) = request_ids l ∖ {[id]}.
Proof.
  apply set_eq. intros x. rewrite elem_of_difference, elem_of_singleton, !elem_of_request_ids.
  rewrite without_keys, list_elem_of_filter. naive_solver.
Qed.

Definition well_formed (s : FriendState) : Prop :=
  NoDup (u_id <$> friends s) ∧ NoDup (fr_userId <$> incomingRequests s) ∧
  NoDup (fr_userId <$> outgoingRequests s).

Lemma NoDup_add {A K} `{Countable K} (key : A → K) (x : A) l :
  NoDup (key <$> l) → NoDup (key <$> (if has_key key (key x) l then l else x :: l)).
Proof. intros Hl. case_match eqn:E; [done|]. by apply NoDup_unshift. Qed.

Lemma friends_reachable_wf s : reachable s → well_formed s.
Proof.
  revert s. apply reachable_invariant; [repeat split; constructor|].
  intros a s Ha (Hf & Hi & Ho). unfold well_formed.
  destruct a; simpl in *; split_and!;
    first [by apply NoDup_add | auto using NoDup_without, NoDup_nil_2].
Qed.

(** every action of the friend store does to the sets of friends, of users who asked
    and of users who were asked what its specification says, and the lists never
    hold anyone twice. *)
Theorem friends_refine_sets s a :
  reachable s → args_ok a s →
  relations (perform a s) = spec a (relations s) ∧
  NoDup (u_id <$> friends s) ∧ NoDup (fr_userId <$> incomingRequests s) ∧
  NoDup (fr_userId <$> outgoingRequests s).
Proof.
  intros Hs%friends_reachable_wf Ha. split; [|exact Hs]. unfold relations.
  destruct a; simpl; f_equal;
    auto using friend_ids_add, friend_ids_without, request_ids_add, request_ids_without.
Qed.

(** the relationship shown for a user is that of the sets, friends first and then
    incoming before outgoing; after accepting a user it is "friends", no request
    with the user is left, and nobody else's relationship changes. *)
Theorem getRelationship_correct s user id :
  getRelationship id s =
    (if decide (id ∈ rel_friends (relations s)) then is_friends
     else if decide (id ∈ rel_incoming (relations s)) then is_incoming
     else if decide (id ∈ rel_outgoing (relations s)) then is_outgoing else is_none) ∧
  isFriend id s = bool_decide (id ∈ rel_friends (relations s)) ∧
  getRelationship (u_id user) (acceptFriend user s) = is_friends ∧
  getRelationship (u_id user) (removeFriend (u_id user) (acceptFriend user s)) = is_none ∧
  (id ≠ u_id user → getRelationship id (acceptFriend user s) = getRelationship id s).
Proof.
  assert (Hrel : ∀ id s, getRelationship id s =
    (if decide (id ∈ rel_friends (relations s)) then is_friends
     else if decide (id ∈ rel_incoming (relations s)) then is_incoming
     else if decide (id ∈ rel_outgoing (relations s)) then is_outgoing else is_none)).
  { clear. intros id s. unfold getRelationship, has_key. simpl.
    repeat case_bool_decide; repeat case_decide;
      rewrite ?elem_of_request_ids, ?elem_of_friend_ids in *; done. }
  split; [apply Hrel|]. split.
  { unfold isFriend, has_key. apply bool_decide_ext. simpl. by rewrite elem_of_friend_ids. }
  rewrite !Hrel. simpl.
  rewrite !friend_ids_without, !request_ids_without, !friend_ids_add.
  split; [by rewrite decide_True by set_solver|]. split.
  - by rewrite !decide_False by set_solver.
  - intros Hne. repeat case_decide; set_solver.
Qed.

Definition demo_user (id : string) : User :=
  {| u_id := id; u_username := id; u_displayName := id; u_avatarUrl := "";
     u_createdAt := None; u_emojiScale := Num.one; u_bio := ""; u_pronouns := "";
     u_bannerUrl := ""; u_themeColorPrimary := ""; u_themeColorSecondary := "";
     u_simpleMode := false; u_dmPrivacy := ""; u_signingPublicKey := [];
     u_audioPreferences := None; u_connections := []; u_friendRequestPrivacy := ""; u_profilePrivacy := "" |}.
Definition demo_request (id : string) : FriendRequestEntry :=
  {| fr_user := Some (demo_user id); fr_direction := "incoming"; fr_createdAt := "" |}.

Definition demo_state : FriendState := run [AddIncomingRequest (demo_request "u")] initial.

Lemma friends_demo_reachable : reachable demo_state.
Proof. apply reachable_run. by split. Qed.

Lemma friends_refine_sets_witness :
  rel_incoming (relations demo_state) = {["u"]} ∧
  rel_friends (relations (perform (AcceptFriend (demo_user "u")) demo_state)) = {["u"]}.
Proof.
  split; [reflexivity|].
  rewrite (proj1 (friends_refine_sets demo_state (AcceptFriend (demo_user "u"))
    friends_demo_reachable I)). reflexivity.
Defined.
