(* ===== verification/Blocks.v ===== *)
(** * The block store ([store/blocks.ts])

    The blocked users: full records where they are known, otherwise only ids. *)

From S2P Require Export Models.

Record BlockState := {
  blockedUsers : list User;
  blockedUserIds : gset string;
}.

Definition emptyState : BlockState := {| blockedUsers := []; blockedUserIds := ∅ |}.

Definition setBlockedUsers (users : list User) (s : BlockState) : BlockState :=
  {| blockedUsers := users;
     blockedUserIds := foldl (λ ids u, ids ∖ {[u_id u]}) (blockedUserIds s) users |}.

Definition addBlockedUser (user : User) (s : BlockState) : BlockState :=
  {| blockedUsers := if has_key u_id (u_id user) (blockedUsers s) then blockedUsers s
       else user :: blockedUsers s;
     blockedUserIds := blockedUserIds s ∖ {[u_id user]} |}.

Definition addBlockedUserId (userId : string) (s : BlockState) : BlockState :=
  if has_key u_id userId (blockedUsers s) then s
  else {| blockedUsers := blockedUsers s; blockedUserIds := {[userId]} ∪ blockedUserIds s |}.

Definition removeBlockedUser (userId : string) (s : BlockState) : BlockState :=
  {| blockedUsers := without u_id userId (blockedUsers s);
     blockedUserIds := blockedUserIds s ∖ {[userId]} |}.

Definition isBlocked (userId : string) (s : BlockState) : bool :=
  has_key u_id userId (blockedUsers s) || bool_decide (userId ∈ blockedUserIds s).

Definition reset (s : BlockState) : BlockState := emptyState.

Inductive action :=
  | SetBlockedUsers (l : list User)
  | AddBlockedUser (u : User)
  | AddBlockedUserId (id : string)
  | RemoveBlockedUser (id : string)
  | Reset.

Definition perform (a : action) : BlockState → BlockState :=
  match a with
  | SetBlockedUsers l => setBlockedUsers l
  | AddBlockedUser u => addBlockedUser u
  | AddBlockedUserId id => addBlockedUserId id
  | RemoveBlockedUser id => removeBlockedUser id
  | Reset => reset
  end.

Definition args_ok (a : action) (s : BlockState) : Prop :=
  match a with SetBlockedUsers l => NoDup (u_id <$> l) | _ => True end.

#[export] Instance block_store : Store BlockState action :=
  {| initial := emptyState; exec := perform; admissible := args_ok |}.

(** ** Specification: a set of ids, part of which is known in full *)

Definition known (s : BlockState) : gset string := list_to_set (u_id <$> blockedUsers s).
Definition blocked (s : BlockState) : gset string := known s ∪ blockedUserIds s.

Definition spec (a : action) (s : BlockState) : gset string :=
  match a with
  | SetBlockedUsers l => list_to_set (u_id <$> l) ∪ blockedUserIds s
  | AddBlockedUser u => {[u_id u]} ∪ blocked s
  | AddBlockedUserId id => {[id]} ∪ blocked s
  | RemoveBlockedUser id => blocked s ∖ {[id]}
  | Reset => ∅
  end.

Record well_formed (s : BlockState) : Prop := {
  wf_users : NoDup (u_id <$> blockedUsers s);
  wf_disjoint : known s ## blockedUserIds s;
}.

Lemma remove_all_elem id (users : list User) (ids : gset string) :
  id ∈ foldl (λ ids u, ids ∖ {[u_id u]}) ids users ↔ id ∈ ids ∧ id ∉ u_id <$> users.
Proof.
  revert ids. induction users as [|u users IH]; intros ids; cbn [foldl]; [set_solver|].
  rewrite IH, fmap_cons. set_solver.
Qed.

Lemma perform_blocked a s :
  well_formed s → blocked (perform a s) = spec a s.
Proof.
  intros [Hu Hd]. apply set_eq. intros x. unfold blocked, known.
  destruct a as [l|u|id|id|]; simpl; unfold blocked, known.
  - rewrite !elem_of_union, remove_all_elem, elem_of_list_to_set.
    destruct (decide (x ∈ u_id <$> l)); tauto.
  - case_match eqn:E; simpl.
    + unfold has_key in E. apply bool_decide_eq_true in E.
      destruct (decide (x = u_id u)); set_solver.
    + destruct (decide (x = u_id u)); set_solver.
  - unfold addBlockedUserId. case_match eqn:E; simpl; [|set_solver].
    unfold has_key in E. apply bool_decide_eq_true in E. set_solver.
  - rewrite without_keys, elem_of_union, elem_of_list_to_set, list_elem_of_filter.
    set_solver.
  - set_solver.
Qed.

Lemma blocks_perform_wf a s : args_ok a s → well_formed s → well_formed (perform a s).
Proof.
  intros Ha [Hu Hd]. destruct a as [l|u|id|id|]; simpl.
  - split; simpl; [done|]. intros x Hx. simpl. rewrite remove_all_elem.
    unfold known in Hx. simpl in Hx. apply elem_of_list_to_set in Hx. tauto.
  - unfold addBlockedUser. split; unfold known in *; simpl.
    + case_match eqn:E; [done|]. by apply NoDup_unshift.
    + case_match; set_solver.
  - unfold addBlockedUserId. case_match eqn:E; [by split|]. apply has_key_false in E.
    split; [done|]. unfold known in *. simpl. set_solver.
  - split; unfold known in *; simpl; [by apply NoDup_without|].
    rewrite without_keys. intros x Hx%elem_of_list_to_set.
    apply list_elem_of_filter in Hx as [Hne Hx]. set_solver.
  - split; [constructor|]. unfold known. simpl. set_solver.
Qed.

Lemma blocks_reachable_wf s : reachable s → well_formed s.
Proof.
  revert s. apply reachable_invariant.
  - split; [constructor|]. unfold known. simpl. set_solver.
  - intros a s. apply blocks_perform_wf.
Qed.

(** a user counts as blocked exactly if the specification's set holds them; each
    action does to that set what it says; no user is kept both in full and as a
    bare id. *)
Theorem blocks_refine_set s a id :
  reachable s → args_ok a s →
  isBlocked id s = bool_decide (id ∈ blocked s) ∧
  blocked (perform a s) = spec a s ∧
  known (perform a s) ## blockedUserIds (perform a s).
Proof.
  intros Hs%blocks_reachable_wf Ha. split; [|split].
  - unfold isBlocked, has_key, blocked, known. rewrite <-bool_decide_or.
    apply bool_decide_ext. set_solver.
  - by apply perform_blocked.
  - by apply (blocks_perform_wf a s).
Qed.

Definition demo_user (id : string) : User :=
  {| u_id := id; u_username := id; u_displayName := id; u_avatarUrl := "";
     u_createdAt := None; u_emojiScale := Num.one; u_bio := ""; u_pronouns := "";
     u_bannerUrl := ""; u_themeColorPrimary := ""; u_themeColorSecondary := "";
     u_simpleMode := false; u_dmPrivacy := ""; u_signingPublicKey := [];
     u_audioPreferences := None; u_connections := []; u_friendRequestPrivacy := ""; u_profilePrivacy := "" |}.

Definition demo_state : BlockState := run [AddBlockedUserId "u"] initial.

Lemma blocks_demo_reachable : reachable demo_state.
Proof. apply reachable_run. by split. Qed.

Lemma blocks_refine_set_witness :
  isBlocked "u" demo_state = true ∧
  blocked (perform (AddBlockedUser (demo_user "u")) demo_state) = {["u"]}.
Proof.
  pose proof (blocks_refine_set demo_state (AddBlockedUser (demo_user "u")) "u"
    blocks_demo_reachable I) as (H1 & H2 & _).
  split; [rewrite H1; reflexivity|rewrite H2; reflexivity].
Defined.
