(* ===== verification/Reactions.v ===== *)
(** * The reaction store ([store/reactions.ts])

    Reaction groups per message.  The store refines a set of triples (message,
    emoji, user): adding and removing a reaction are insertion and deletion in
    that set, and the [me] flag of a group says whether the signed-in user is in
    it. *)

From S2P Require Export Models.

Record ReactionState := { byMessage : gmap string (list ReactionGroup) }.

Definition on_byMessage f (s : ReactionState) : ReactionState :=
  {| byMessage := f (byMessage s) |}.

Definition setReactions (messageId : string) (groups : list ReactionGroup)
    : ReactionState → ReactionState := on_byMessage <[messageId := groups]>.

Definition setBulkReactions (reactions : gmap string (list ReactionGroup))
    : ReactionState → ReactionState := on_byMessage (λ m, reactions ∪ m).

Definition push_user (userId : string) (isMe : bool) (g : ReactionGroup) : ReactionGroup :=
  {| rg_emoji := rg_emoji g; rg_me := if isMe then true else rg_me g;
     rg_userIds := rg_userIds g ++ [userId] |}.

Definition addReaction (messageId emoji userId : string) (isMe : bool)
    (s : ReactionState) : ReactionState :=
  let groups := or_default [] (byMessage s !! messageId) in
  match find_key rg_emoji emoji groups with
  | Some existing =>
      if bool_decide (userId ∈ rg_userIds existing) then s
      else on_byMessage
        <[messageId := modify_key rg_emoji emoji (push_user userId isMe) groups]> s
  | None =>
      on_byMessage <[messageId := groups ++
        [{| rg_emoji := emoji; rg_me := isMe; rg_userIds := [userId] |}]]> s
  end.

Definition drop_user (userId : string) (isMe : bool) (g : ReactionGroup) : ReactionGroup :=
  {| rg_emoji := rg_emoji g; rg_me := if isMe then false else rg_me g;
     rg_userIds := filter (.≠ userId) (rg_userIds g) |}.

Definition removeReaction (messageId emoji userId : string) (isMe : bool)
    (s : ReactionState) : ReactionState :=
  match byMessage s !! messageId with
  | None => s
  | Some groups =>
      match find_key rg_emoji emoji groups with
      | None => s
      | Some group =>
          if bool_decide (filter (.≠ userId) (rg_userIds group) = [])
          then on_byMessage <[messageId := splice_key rg_emoji emoji groups]> s
          else on_byMessage
            <[messageId := modify_key rg_emoji emoji (drop_user userId isMe) groups]> s
      end
  end.

Definition clearMessage (messageId : string) : ReactionState → ReactionState :=
  on_byMessage (delete messageId).

Definition reset (s : ReactionState) : ReactionState := {| byMessage := ∅ |}.

Inductive action :=
  | SetReactions (m : string) (gs : list ReactionGroup)
  | SetBulkReactions (rs : gmap string (list ReactionGroup))
  | AddReaction (m e u : string) (isMe : bool)
  | RemoveReaction (m e u : string) (isMe : bool)
  | ClearMessage (m : string)
  | Reset.

Definition perform (a : action) : ReactionState → ReactionState :=
  match a with
  | SetReactions m gs => setReactions m gs
  | SetBulkReactions rs => setBulkReactions rs
  | AddReaction m e u b => addReaction m e u b
  | RemoveReaction m e u b => removeReaction m e u b
  | ClearMessage m => clearMessage m
  | Reset => reset
  end.

Section signed_in.
(** The signed-in user, from whom [isMe] and the server's [me] are computed. *)
Context (self : string).

Definition group_ok (g : ReactionGroup) : Prop :=
  rg_userIds g ≠ [] ∧ NoDup (rg_userIds g) ∧ rg_me g = bool_decide (self ∈ rg_userIds g).
Definition groups_ok (gs : list ReactionGroup) : Prop :=
  NoDup (rg_emoji <$> gs) ∧ Forall group_ok gs.
Definition well_formed (s : ReactionState) : Prop := map_Forall (λ _, groups_ok) (byMessage s).

Definition args_ok (a : action) (s : ReactionState) : Prop :=
  match a with
  | SetReactions _ gs => groups_ok gs
  | SetBulkReactions rs => map_Forall (λ _, groups_ok) rs
  | AddReaction _ _ u b | RemoveReaction _ _ u b => b = bool_decide (u = self)
  | _ => True
  end.

#[export] Instance reaction_store : Store ReactionState action :=
  {| initial := {| byMessage := ∅ |}; exec := perform; admissible := args_ok |}.

Lemma groups_ok_default s m : well_formed s → groups_ok (or_default [] (byMessage s !! m)).
Proof.
  intros Hs. destruct (byMessage s !! m) eqn:E; [by apply (Hs m)|].
  split; [constructor|constructor].
Qed.

Lemma push_user_ok u g : group_ok g → u ∉ rg_userIds g →
  group_ok (push_user u (bool_decide (u = self)) g).
Proof.
  intros (Hne & Hnd & Hme) Hu. split; [simpl; by destruct (rg_userIds g)|]. split.
  - simpl. apply NoDup_app. split; [done|]. split; [set_solver|]. apply NoDup_singleton.
  - simpl. destruct (decide (u = self)) as [->|].
    + by rewrite !bool_decide_eq_true_2 by set_solver.
    + rewrite (bool_decide_eq_false_2 (u = self)), Hme by done.
      apply bool_decide_ext. set_solver.
Qed.
Lemma drop_user_ok u g : group_ok g → filter (.≠ u) (rg_userIds g) ≠ [] →
  group_ok (drop_user u (bool_decide (u = self)) g).
Proof.
  intros (Hne & Hnd & Hme) Hu. split; [done|]. split; [by apply NoDup_filter|].
  simpl. destruct (decide (u = self)) as [->|].
  - rewrite (bool_decide_eq_true_2 (self = self)), bool_decide_eq_false_2 by
      (rewrite ?list_elem_of_filter; naive_solver). done.
  - rewrite (bool_decide_eq_false_2 (u = self)), Hme by done.
    apply bool_decide_ext. rewrite list_elem_of_filter. naive_solver.
Qed.

(** Changing one group of a list keeps the list well formed. *)
Lemma modify_groups_ok e f gs :
  groups_ok gs → (∀ g, rg_emoji (f g) = rg_emoji g) →
  (∀ g, find_key rg_emoji e gs = Some g → group_ok (f g)) →
  groups_ok (modify_key rg_emoji e f gs).
Proof.
  intros [Hnd Hall] Hf Hg. split; [apply NoDup_modify; [|done]; intros; by rewrite Hf|].
  clear Hnd. induction Hall as [|g gs Hok Hall IH]; [constructor|].
  rewrite modify_key_cons. rewrite find_key_cons in Hg. case_decide; auto.
Qed.
Lemma splice_groups_ok e gs : groups_ok gs → groups_ok (splice_key rg_emoji e gs).
Proof.
  intros [Hnd Hall]. split; [by apply NoDup_splice|].
  rewrite splice_key_without by done. unfold without.
  apply Forall_forall. intros g Hg. apply list_elem_of_filter in Hg as [_ Hg].
  by eapply Forall_forall.
Qed.

Lemma well_formed_insert s m gs :
  well_formed s → groups_ok gs → well_formed (on_byMessage <[m := gs]> s).
Proof. intros Hs Hgs. by apply map_Forall_insert_2. Qed.

Lemma perform_well_formed a s : args_ok a s → well_formed s → well_formed (perform a s).
Proof.
  intros Hok Hs. destruct a as [m gs|rs|m e u b|m e u b|m|]; simpl in *.
  - by apply well_formed_insert.
  - by apply map_Forall_union_2.
  - subst b. unfold addReaction. pose proof (groups_ok_default s m Hs) as Hgs.
    set (gs := or_default [] (byMessage s !! m)) in *.
    destruct (find_key rg_emoji e gs) as [g|] eqn:Hg.
    + case_bool_decide as Hu; [done|]. apply well_formed_insert; [done|].
      apply modify_groups_ok; [done..|]. intros g' Hg'. simplify_eq.
      apply push_user_ok; [|done]. apply find_key_Some_inv in Hg as [Hin _].
      destruct Hgs as [_ Hall]. by eapply Forall_forall.
    + apply well_formed_insert; [done|]. destruct Hgs as [Hnd Hall]. split.
      * apply NoDup_push; [|done]. by apply has_key_false, find_key_None.
      * apply Forall_app. split; [done|]. constructor; [|constructor].
        split; [done|]. split; [apply NoDup_singleton|]. simpl.
        apply bool_decide_ext. rewrite list_elem_of_singleton. naive_solver.
  - subst b. unfold removeReaction. destruct (byMessage s !! m) as [gs|] eqn:Hm; [|done].
    assert (Hgs : groups_ok gs) by (by apply (Hs m)).
    destruct (find_key rg_emoji e gs) as [g|] eqn:Hg; [|done].
    case_bool_decide as Hu; apply well_formed_insert; try done.
    + by apply splice_groups_ok.
    + apply modify_groups_ok; [done..|]. intros g' Hg'. simplify_eq.
      apply drop_user_ok; [|done]. apply find_key_Some_inv in Hg as [Hin _].
      destruct Hgs as [_ Hall]. by eapply Forall_forall.
  - by apply map_Forall_delete.
  - apply map_Forall_empty.
Qed.

Lemma reachable_well_formed s : reachable s → well_formed s.
Proof.
  apply reachable_invariant; [apply map_Forall_empty|]. intros. by apply perform_well_formed.
Qed.
End signed_in.

(** ** The abstract set of reactions *)

(** User [u] has reacted to message [m] with [e]. *)
Definition reacted (s : ReactionState) (m e u : string) : Prop :=
  ∃ g, g ∈ or_default [] (byMessage s !! m) ∧ rg_emoji g = e ∧ u ∈ rg_userIds g.

(** The group of an emoji, when there is at most one. *)
Definition group_of (s : ReactionState) (m e : string) : option ReactionGroup :=
  find_key rg_emoji e (or_default [] (byMessage s !! m)).

Lemma reacted_group s m e u :
  NoDup (rg_emoji <$> or_default [] (byMessage s !! m)) →
  reacted s m e u ↔ ∃ g, group_of s m e = Some g ∧ u ∈ rg_userIds g.
Proof.
  intros Hnd. unfold reacted, group_of. split.
  - intros (g & Hg & He & Hu). exists g. split; [|done]. by apply find_key_Some.
  - intros (g & [Hg He]%find_key_Some_inv & Hu). eauto.
Qed.

Lemma group_of_insert s m gs m' e :
  group_of (on_byMessage <[m := gs]> s) m' e =
    if decide (m' = m) then find_key rg_emoji e gs else group_of s m' e.
Proof. unfold group_of; simpl. rewrite lookup_insert. repeat case_decide; naive_solver. Qed.

Lemma add_group self s m e u isMe m' e' :
  well_formed self s →
  group_of (addReaction m e u isMe s) m' e' =
    if decide (m' = m ∧ e' = e) then
      match group_of s m e with
      | Some g => if bool_decide (u ∈ rg_userIds g) then Some g else Some (push_user u isMe g)
      | None => Some {| rg_emoji := e; rg_me := isMe; rg_userIds := [u] |}
      end
    else group_of s m' e'.
Proof.
  intros Hs. unfold addReaction. fold (group_of s m e).
  destruct (group_of s m e) as [g|] eqn:Hg.
  - case_bool_decide; [case_decide; naive_solver|].
    rewrite group_of_insert, find_key_modify by done.
    destruct (decide (m' = m)) as [->|]; [|by rewrite decide_False by naive_solver].
    fold (group_of s m e) (group_of s m e'). rewrite Hg.
    destruct (decide (e' = e)) as [->|]; [by rewrite decide_True|].
    by rewrite decide_False by naive_solver.
  - rewrite group_of_insert, find_key_app, find_key_cons, find_key_nil.
    unfold group_of in *. simpl. destruct (decide (m' = m)) as [->|].
    + destruct (decide (e' = e)) as [->|].
      * rewrite Hg, !decide_True by done. done.
      * rewrite !decide_False by naive_solver. by case_match.
    + by rewrite decide_False by naive_solver.
Qed.

Lemma remove_group self s m e u isMe m' e' :
  well_formed self s →
  group_of (removeReaction m e u isMe s) m' e' =
    if decide (m' = m ∧ e' = e) then
      g ← group_of s m e;
      if bool_decide (filter (.≠ u) (rg_userIds g) = []) then None else Some (drop_user u isMe g)
    else group_of s m' e'.
Proof.
  intros Hs. pose proof (groups_ok_default self s m Hs) as [Hnd _].
  unfold removeReaction. destruct (byMessage s !! m) as [gs|] eqn:Hm; simpl in *.
  2:{ case_decide as Hd; [|done]. destruct Hd as [-> ->]. unfold group_of. by rewrite Hm. }
  assert (Hg : group_of s m e = find_key rg_emoji e gs) by (unfold group_of; by rewrite Hm).
  rewrite Hg. destruct (find_key rg_emoji e gs) as [g|] eqn:Hf; simpl.
  2:{ case_decide; naive_solver. }
  assert (Hother : m' = m → e' ≠ e → find_key rg_emoji e' gs = group_of s m' e')
    by (intros -> _; unfold group_of; by rewrite Hm).
  case_bool_decide; rewrite group_of_insert, ?splice_key_without, ?find_key_without,
    ?find_key_modify by done;
    (destruct (decide (m' = m)) as [Hm'|]; [|by rewrite decide_False by naive_solver]);
    (destruct (decide (e' = e)) as [He'|];
      [rewrite decide_True by done|rewrite decide_False by naive_solver; by apply Hother]).
  - done.
  - by rewrite Hf.
Qed.

(** in every state the store reaches, the groups of a message have different
    emojis, each lists at least one user and no user twice, and its [me] flag says
    whether the signed-in user is listed. *)
Theorem reactions_well_formed self s m gs :
  @reachable _ _ (reaction_store self) s → byMessage s !! m = Some gs →
  NoDup (rg_emoji <$> gs) ∧ ∀ g, g ∈ gs →
    rg_userIds g ≠ [] ∧ NoDup (rg_userIds g) ∧ (rg_me g = true ↔ self ∈ rg_userIds g).
Proof.
  intros Hs%reachable_well_formed Hm. destruct (Hs m gs Hm) as [Hnd Hall].
  split; [done|]. intros g Hg. rewrite Forall_forall in Hall.
  destruct (Hall g Hg) as (? & ? & ->). by rewrite bool_decide_eq_true.
Qed.

(** C40: [addReaction] inserts exactly one (message, emoji, user) triple and
    [removeReaction] deletes exactly one, whatever else is in the store. *)
Theorem reactions_refine_set self s m e u m' e' u' :
  well_formed self s →
  (reacted (addReaction m e u (bool_decide (u = self)) s) m' e' u' ↔
     reacted s m' e' u' ∨ (m', e', u') = (m, e, u)) ∧
  (reacted (removeReaction m e u (bool_decide (u = self)) s) m' e' u' ↔
     reacted s m' e' u' ∧ (m', e', u') ≠ (m, e, u)).
Proof.
  intros Hs. set (isMe := bool_decide (u = self)).
  assert (Hr : ∀ s' e u, well_formed self s' →
    reacted s' m' e u ↔ ∃ g, group_of s' m' e = Some g ∧ u ∈ rg_userIds g).
  { intros s' e1 u1 Hs'. apply reacted_group. by apply (groups_ok_default self). }
  rewrite (Hr s) by done. split.
  - rewrite Hr by by apply (perform_well_formed self (AddReaction m e u isMe)).
    rewrite (add_group self) by done.
    case_decide as Hd; [destruct Hd as [-> ->]|naive_solver].
    destruct (group_of s m e) as [g|]; [case_bool_decide|];
      rewrite ?exists_Some_eq, ?exists_None_eq; simpl;
      rewrite ?elem_of_app, ?list_elem_of_singleton; naive_solver.
  - rewrite Hr by by apply (perform_well_formed self (RemoveReaction m e u isMe)).
    rewrite (remove_group self) by done.
    case_decide as Hd; [destruct Hd as [-> ->]|naive_solver].
    destruct (group_of s m e) as [g|]; simpl; [|rewrite !exists_None_eq; tauto].
    rewrite (exists_Some_eq g). case_bool_decide as Hnil.
    + rewrite exists_None_eq. split; [done|]. intros [Hu' Hne].
      assert (u' ∈ filter (.≠ u) (rg_userIds g)) as Hin
        by (apply list_elem_of_filter; naive_solver).
      rewrite Hnil in Hin. by apply elem_of_nil in Hin.
    + rewrite exists_Some_eq. simpl. rewrite list_elem_of_filter. naive_solver.
Qed.

(** ** Concrete runs *)

Definition demo_state : ReactionState :=
  @run _ _ (reaction_store "me")
    [AddReaction "m1" "+1" "me" true; AddReaction "m1" "+1" "ann" false;
     RemoveReaction "m1" "+1" "me" true] {| byMessage := ∅ |}.

Lemma reactions_demo_reachable : @reachable _ _ (reaction_store "me") demo_state.
Proof. apply (@reachable_run _ _ (reaction_store "me")). repeat split. Qed.

Lemma reactions_well_formed_witness :
  byMessage demo_state !! "m1" =
    Some [{| rg_emoji := "+1"; rg_me := false; rg_userIds := ["ann"] |}] ∧ NoDup ["+1"].
Proof.
  split; [reflexivity|].
  apply (reactions_well_formed "me" demo_state "m1" _ reactions_demo_reachable eq_refl).
Defined.

Lemma reactions_refine_set_witness :
  reacted (addReaction "m1" "+1" "bob" false demo_state) "m1" "+1" "bob".
Proof.
  apply (reactions_refine_set "me" demo_state "m1" "+1" "bob" "m1" "+1" "bob").
  - apply reachable_well_formed, reactions_demo_reachable.
  - by right.
Defined.
