(* ===== verification/Pins.v ===== *)
(** * The pin store ([store/pins.ts])

    The pinned messages of each channel, newest first, with the set of pinned
    message ids that the chat view consults.  The main theorem is that the set
    holds exactly the ids of the listed pins in every reachable state. *)

From S2P Require Export Models.

Record PinState := {
  byChannel : gmap string (list PinnedMessage);
  hasMore : gmap string bool;
  isLoading : gmap string bool;
  error : gmap string string;
  pinnedIds : gmap string (gset string);
}.

Definition emptyState : PinState :=
  {| byChannel := ∅; hasMore := ∅; isLoading := ∅; error := ∅; pinnedIds := ∅ |}.

Definition on_pins f g (s : PinState) : PinState :=
  {| byChannel := f (byChannel s); hasMore := hasMore s; isLoading := isLoading s;
     error := error s; pinnedIds := g (pinnedIds s) |}.
Definition on_hasMore f (s : PinState) : PinState :=
  {| byChannel := byChannel s; hasMore := f (hasMore s); isLoading := isLoading s;
     error := error s; pinnedIds := pinnedIds s |}.
Definition on_isLoading f (s : PinState) : PinState :=
  {| byChannel := byChannel s; hasMore := hasMore s; isLoading := f (isLoading s);
     error := error s; pinnedIds := pinnedIds s |}.
Definition on_error f (s : PinState) : PinState :=
  {| byChannel := byChannel s; hasMore := hasMore s; isLoading := isLoading s;
     error := f (error s); pinnedIds := pinnedIds s |}.

Definition add_pinned_id (record : gset string) (p : PinnedMessage) : gset string :=
  match pm_messageId p with
  | Some id => if truthy (Some id) then {[id]} ∪ record else record
  | None => record
  end.

Definition buildPinnedIds (pins : list PinnedMessage) : gset string :=
  foldl add_pinned_id ∅ pins.

Definition setPinnedMessages (channelId : string) (pins : list PinnedMessage) (more : bool)
    (s : PinState) : PinState :=
  on_isLoading (delete channelId) (on_hasMore <[channelId := more]>
    (on_pins <[channelId := pins]> <[channelId := buildPinnedIds pins]> s)).

Definition appendPinnedMessages (channelId : string) (pins : list PinnedMessage)
    (more : bool) (s : PinState) : PinState :=
  let merged := or_default [] (byChannel s !! channelId) ++ pins in
  on_isLoading (delete channelId) (on_hasMore <[channelId := more]>
    (on_pins <[channelId := merged]> <[channelId := buildPinnedIds merged]> s)).

Definition addPin (channelId : string) (pin : PinnedMessage) (s : PinState) : PinState :=
  let existing := or_default [] (byChannel s !! channelId) in
  let msgId := pm_messageId pin in
  if truthy msgId && has_key pm_messageId msgId existing then s
  else
    on_pins <[channelId := pin :: existing]>
      (λ ids, if truthy msgId
              then <[channelId := {[or_default "" msgId]} ∪ or_default ∅ (ids !! channelId)]> ids
              else ids) s.

Definition removePin (channelId messageId : string) (s : PinState) : PinState :=
  match byChannel s !! channelId with
  | None => s
  | Some existing =>
      on_pins <[channelId := without pm_messageId (Some messageId) existing]>
        (alter (.∖ {[messageId]}) channelId) s
  end.

Definition setLoading (channelId : string) (loading : bool) : PinState → PinState :=
  if loading then on_isLoading <[channelId := true]> else on_isLoading (delete channelId).

Definition setError (channelId : string) (err : option string) (s : PinState) : PinState :=
  on_isLoading (delete channelId)
    (if truthy err then on_error <[channelId := or_default "" err]> s
     else on_error (delete channelId) s).

Definition reset (s : PinState) : PinState := emptyState.

Inductive action :=
  | SetPinnedMessages (c : string) (ps : list PinnedMessage) (more : bool)
  | AppendPinnedMessages (c : string) (ps : list PinnedMessage) (more : bool)
  | AddPin (c : string) (p : PinnedMessage)
  | RemovePin (c id : string)
  | SetLoading (c : string) (b : bool)
  | SetError (c : string) (e : option string)
  | Reset.

Definition perform (a : action) : PinState → PinState :=
  match a with
  | SetPinnedMessages c ps b => setPinnedMessages c ps b
  | AppendPinnedMessages c ps b => appendPinnedMessages c ps b
  | AddPin c p => addPin c p
  | RemovePin c id => removePin c id
  | SetLoading c b => setLoading c b
  | SetError c e => setError c e
  | Reset => reset
  end.

#[export] Instance pin_store : Store PinState action :=
  {| initial := emptyState; exec := perform; admissible := λ _ _, True |}.

(** ** The set of ids *)

Definition pins_of (s : PinState) (c : string) : list PinnedMessage :=
  or_default [] (byChannel s !! c).
Definition pinned (s : PinState) (c id : string) : Prop :=
  id ∈ or_default ∅ (pinnedIds s !! c).

#[export] Instance pinned_dec s c id : Decision (pinned s c id).
Proof. unfold pinned. apply _. Defined.

(** The ids of a list of pins: those of pins whose message has a nonempty id. *)
Definition listed (ps : list PinnedMessage) (id : string) : Prop :=
  id ≠ "" ∧ Some id ∈ pm_messageId <$> ps.

Lemma elem_of_add_pinned_id r p id :
  id ∈ add_pinned_id r p ↔ id ∈ r ∨ (id ≠ "" ∧ pm_messageId p = Some id).
Proof.
  unfold add_pinned_id. destruct (pm_messageId p) as [i|]; [|naive_solver].
  unfold truthy. case_bool_decide; simpl; set_solver.
Qed.

Lemma elem_of_buildPinnedIds ps id : id ∈ buildPinnedIds ps ↔ listed ps id.
Proof.
  unfold buildPinnedIds, listed.
  assert (Hgen : ∀ r, id ∈ foldl add_pinned_id r ps ↔
    id ∈ r ∨ (id ≠ "" ∧ Some id ∈ pm_messageId <$> ps)).
  { induction ps as [|p ps IH]; intros r; cbn [foldl].
    - rewrite fmap_nil, elem_of_nil. tauto.
    - rewrite IH, elem_of_add_pinned_id, fmap_cons, elem_of_cons. naive_solver. }
  rewrite Hgen, elem_of_empty. tauto.
Qed.

Definition ids_ok (s : PinState) : Prop := ∀ c id, pinned s c id ↔ listed (pins_of s c) id.

Lemma listed_cons p ps id : listed (p :: ps) id ↔
  listed ps id ∨ (id ≠ "" ∧ pm_messageId p = Some id).
Proof. unfold listed. rewrite fmap_cons, elem_of_cons. naive_solver. Qed.

Lemma listed_without ps id k :
  listed (without pm_messageId (Some k) ps) id ↔ listed ps id ∧ id ≠ k.
Proof. unfold listed. rewrite without_keys, list_elem_of_filter. naive_solver. Qed.

Lemma ids_ok_put s c ps ids :
  ids_ok s → (∀ id, id ∈ ids ↔ listed ps id) →
  ids_ok (on_pins <[c := ps]> <[c := ids]> s).
Proof.
  intros Hs Hids c' id. unfold pinned, pins_of; simpl. rewrite !lookup_insert.
  case_decide; [apply Hids|apply Hs].
Qed.

Lemma perform_ids_ok a s : ids_ok s → ids_ok (perform a s).
Proof.
  intros Hs. destruct a as [c ps b|c ps b|c p|c id|c b|c e|]; simpl.
  - apply (ids_ok_put s c); [done|]. apply elem_of_buildPinnedIds.
  - apply (ids_ok_put s c); [done|]. apply elem_of_buildPinnedIds.
  - unfold addPin. case_match eqn:E; [done|]. fold (pins_of s c).
    intros c' id. unfold pinned, pins_of; simpl. rewrite lookup_insert.
    case_decide as Hc; [subst c'; simpl; rewrite listed_cons, <-(Hs c id)|].
    + destruct (pm_messageId p) as [i|] eqn:Hp; simpl; [|naive_solver].
      unfold pinned. case_bool_decide; simpl; rewrite ?lookup_insert_eq; simpl; set_solver.
    + rewrite <-(Hs c' id). unfold pinned. case_match; [|done]. by rewrite lookup_insert_ne.
  - unfold removePin. destruct (byChannel s !! c) as [ps|] eqn:Hc; [|done].
    assert (Hp : pins_of s c = ps) by (unfold pins_of; by rewrite Hc).
    intros c' id'. unfold pinned, pins_of; simpl. rewrite lookup_insert, lookup_alter.
    case_decide as Hcc; [subst c'; simpl; rewrite listed_without, <-Hp, <-(Hs c id')|apply Hs].
    unfold pinned. destruct (pinnedIds s !! c); simpl; set_solver.
  - unfold setLoading. by case_match.
  - unfold setError. by case_match.
  - intros c id. unfold pinned, pins_of, listed; simpl. set_solver.
Qed.

Lemma pins_reachable_ok s : reachable s → ids_ok s.
Proof.
  revert s. apply reachable_invariant; [|intros; by apply perform_ids_ok].
  intros c id. unfold pinned, pins_of, listed; simpl. set_solver.
Qed.

(** in every state the store reaches, the id set of a channel that the chat view
    consults holds exactly the (nonempty) ids of the channel's listed pins. *)
Theorem pinned_ids_exact s c id :
  reachable s → id ≠ "" →
  (pinned s c id ↔ ∃ p, p ∈ pins_of s c ∧ pm_messageId p = Some id).
Proof.
  intros Hs Hid. rewrite (pins_reachable_ok s Hs c id). unfold listed. rewrite list_elem_of_fmap. naive_solver.
Qed.

(** pinning puts a message first unless it is pinned already, and unpinning
    removes exactly that message from the list and from the id set. *)
Theorem pin_unpin s c p id :
  pm_messageId p = Some id → id ≠ "" → ids_ok s →
  (¬ pinned s c id → pins_of (addPin c p s) c = p :: pins_of s c) ∧
  (pinned s c id → addPin c p s = s) ∧
  pins_of (removePin c id s) c = without pm_messageId (Some id) (pins_of s c) ∧
  (∀ id', pinned (removePin c id s) c id' ↔ pinned s c id' ∧ id' ≠ id).
Proof.
  intros Hp Hid Hok.
  assert (Hhas : truthy (Some id) && has_key pm_messageId (Some id) (pins_of s c) =
    bool_decide (pinned s c id)).
  { unfold truthy. rewrite bool_decide_eq_false_2 by done. simpl.
    apply bool_decide_ext. rewrite (Hok c id). unfold listed. naive_solver. }
  split; [|split; [|split]].
  - intros Hn. unfold addPin. rewrite Hp. fold (pins_of s c).
    rewrite Hhas, bool_decide_eq_false_2 by done.
    unfold pins_of; simpl. by rewrite lookup_insert_eq.
  - intros Hy. unfold addPin. rewrite Hp. fold (pins_of s c).
    by rewrite Hhas, bool_decide_eq_true_2.
  - unfold removePin, pins_of. destruct (byChannel s !! c) eqn:E; simpl;
      [by rewrite lookup_insert_eq|by rewrite E].
  - intros id'. rewrite (perform_ids_ok (RemovePin c id) s Hok c id'), (Hok c id').
    rewrite <-listed_without. simpl. unfold removePin, pins_of.
    destruct (byChannel s !! c) eqn:E; simpl; [by rewrite lookup_insert_eq|by rewrite E].
Qed.

(** ** Concrete runs *)

Definition demo_pin (id : string) : PinnedMessage :=
  {| pm_message := Some {| m_id := id; m_channelId := "c"; m_authorId := "u";
       m_encryptedContent := []; m_attachments := []; m_createdAt := None; m_editedAt := None;
       m_replyToId := None; m_embeds := []; m_mentionedUserIds := [];
       m_mentionEveryone := false; m_mentionedRoleIds := []; m_keyVersion := 1; m_type := 0 |};
     pm_pinnedBy := "u"; pm_pinnedAt := None |}.

Definition demo_state : PinState :=
  run [AddPin "c" (demo_pin "01"); AddPin "c" (demo_pin "02")] initial.

Lemma pins_demo_reachable : reachable demo_state.
Proof. by apply reachable_run. Qed.

Lemma pinned_ids_exact_witness : pinned demo_state "c" "01".
Proof.
  apply (pinned_ids_exact demo_state "c" "01" pins_demo_reachable); [discriminate|].
  exists (demo_pin "01"). split; [|reflexivity]. vm_compute. right. left.
Defined.

Lemma pin_unpin_witness : pins_of (removePin "c" "01" demo_state) "c" = [demo_pin "02"].
Proof.
  destruct (pin_unpin demo_state "c" (demo_pin "01") "01" eq_refl) as (_ & _ & H & _).
  - discriminate.
  - intros c id. unfold listed, pinned.
    apply (reachable_invariant ids_ok); [|intros; by apply perform_ids_ok|exact pins_demo_reachable].
    intros c' id'. unfold pinned, pins_of, listed; simpl. set_solver.
  - exact H.
Defined.
