(* ===== verification/ReadState.v ===== *)
(** * The read-state store ([store/read-state.ts])

    Unread and mention counters per channel, and the totals the badge shows. *)

From S2P Require Export Models.

Record ReadStateData := {
  lastReadMessageId : string;
  unreadCount : Z;
  mentionOrDmCount : Z;
}.

Record ReadStateState := { byChannel : gmap string ReadStateData }.

(** One entry of the server's list: channel, last read message, unread count. *)
Record ReadStateEntry := {
  rs_channelId : string;
  rs_lastReadMessageId : string;
  rs_unreadCount : Z;
}.

Definition on_byChannel f (s : ReadStateState) : ReadStateState :=
  {| byChannel := f (byChannel s) |}.

(** What the server reports, with the client-side mention count carried over
    unless everything is read. *)
Definition refreshed (s : ReadStateState) (channelId lastRead : string) (unread : Z)
    : ReadStateData :=
  {| lastReadMessageId := lastRead; unreadCount := unread;
     mentionOrDmCount := if (unread =? 0)%Z then 0%Z
       else or_default 0%Z (mentionOrDmCount <$> byChannel s !! channelId) |}.

Definition setReadStates (states : list ReadStateEntry) (s : ReadStateState)
    : ReadStateState :=
  {| byChannel := foldl (λ fresh e, <[rs_channelId e :=
       refreshed s (rs_channelId e) (rs_lastReadMessageId e) (rs_unreadCount e)]> fresh)
       ∅ states |}.

Definition updateReadState (channelId lastRead : string) (unread : Z) (s : ReadStateState)
    : ReadStateState :=
  on_byChannel <[channelId := refreshed s channelId lastRead unread]> s.

Definition incrementUnread (channelId : string) (s : ReadStateState) : ReadStateState :=
  on_byChannel <[channelId :=
    match byChannel s !! channelId with
    | Some existing =>
        {| lastReadMessageId := lastReadMessageId existing;
           unreadCount := unreadCount existing + 1;
           mentionOrDmCount := mentionOrDmCount existing |}
    | None => {| lastReadMessageId := ""; unreadCount := 1; mentionOrDmCount := 0 |}
    end]> s.

Definition incrementUnreadWithMention (channelId : string) (s : ReadStateState)
    : ReadStateState :=
  on_byChannel <[channelId :=
    match byChannel s !! channelId with
    | Some existing =>
        {| lastReadMessageId := lastReadMessageId existing;
           unreadCount := unreadCount existing + 1;
           mentionOrDmCount := mentionOrDmCount existing + 1 |}
    | None => {| lastReadMessageId := ""; unreadCount := 1; mentionOrDmCount := 1 |}
    end]> s.

Definition getUnreadCount (channelId : string) (s : ReadStateState) : Z :=
  or_default 0%Z (unreadCount <$> byChannel s !! channelId).

Definition hasUnread (channelId : string) (s : ReadStateState) : bool :=
  (0 <? or_default 0 (unreadCount <$> byChannel s !! channelId))%Z.

Definition getTotalUnreadCount (s : ReadStateState) : Z := map_sum unreadCount (byChannel s).

Definition getTotalMentionOrDmCount (s : ReadStateState) : Z :=
  map_sum mentionOrDmCount (byChannel s).

Definition reset (s : ReadStateState) : ReadStateState := {| byChannel := ∅ |}.

Inductive action :=
  | SetReadStates (es : list ReadStateEntry)
  | UpdateReadState (c last : string) (n : Z)
  | IncrementUnread (c : string)
  | IncrementUnreadWithMention (c : string)
  | Reset.

Definition perform (a : action) : ReadStateState → ReadStateState :=
  match a with
  | SetReadStates es => setReadStates es
  | UpdateReadState c l n => updateReadState c l n
  | IncrementUnread c => incrementUnread c
  | IncrementUnreadWithMention c => incrementUnreadWithMention c
  | Reset => reset
  end.

(** The server's unread counts are not negative. *)
Definition counts_ok (a : action) (s : ReadStateState) : Prop :=
  match a with
  | SetReadStates es => Forall (λ e, 0 ≤ rs_unreadCount e)%Z es
  | UpdateReadState _ _ n => (0 ≤ n)%Z
  | _ => True
  end.

#[export] Instance read_state_store : Store ReadStateState action :=
  {| initial := {| byChannel := ∅ |}; exec := perform; admissible := counts_ok |}.

(** ** Invariant: counters are never negative, and a read channel has no mentions *)

Definition entry_ok (d : ReadStateData) : Prop :=
  (0 ≤ unreadCount d ∧ 0 ≤ mentionOrDmCount d ∧
   (unreadCount d = 0 → mentionOrDmCount d = 0))%Z.
Definition counters_ok (s : ReadStateState) : Prop := map_Forall (λ _, entry_ok) (byChannel s).

Lemma refreshed_ok s c l n : counters_ok s → (0 ≤ n)%Z → entry_ok (refreshed s c l n).
Proof.
  intros Hs Hn. unfold entry_ok, refreshed; simpl.
  destruct (Z.eqb_spec n 0); [lia|].
  destruct (byChannel s !! c) as [d|] eqn:E; simpl; [|lia].
  destruct (Hs c d E) as (? & ? & ?). lia.
Qed.

Lemma setReadStates_lookup es s :
  Forall (λ e, 0 ≤ rs_unreadCount e)%Z es → counters_ok s → counters_ok (setReadStates es s).
Proof.
  intros Hes Hs. unfold counters_ok, setReadStates; simpl.
  assert (Hgen : ∀ m : gmap string ReadStateData,
    map_Forall (λ _, entry_ok) m → map_Forall (λ _, entry_ok)
    (foldl (λ fresh e, <[rs_channelId e :=
       refreshed s (rs_channelId e) (rs_lastReadMessageId e) (rs_unreadCount e)]> fresh) m es)).
  { induction Hes as [|e es He Hes IH]; intros m Hm; [done|]. apply IH.
    apply map_Forall_insert_2; [|done]. by apply refreshed_ok. }
  apply Hgen, map_Forall_empty.
Qed.

Lemma perform_counters_ok a s : counts_ok a s → counters_ok s → counters_ok (perform a s).
Proof.
  intros Hok Hs. destruct a; simpl in *.
  - by apply setReadStates_lookup.
  - apply map_Forall_insert_2; [by apply refreshed_ok|done].
  - apply map_Forall_insert_2; [|done]. destruct (byChannel s !! c) as [d|] eqn:E;
      [destruct (Hs c d E)|]; unfold entry_ok; simpl; lia.
  - apply map_Forall_insert_2; [|done]. destruct (byChannel s !! c) as [d|] eqn:E;
      [destruct (Hs c d E)|]; unfold entry_ok; simpl; lia.
  - apply map_Forall_empty.
Qed.

Lemma read_reachable_ok s : reachable s → counters_ok s.
Proof.
  revert s. apply reachable_invariant; [apply map_Forall_empty|].
  intros. by apply perform_counters_ok.
Qed.

(** in every state the store reaches the counters of a channel are not negative,
    and a channel without unread messages has no unread mentions (so its badge and
    its unread marker disappear together). *)
Theorem read_counters_ok s c d :
  reachable s → byChannel s !! c = Some d →
  (0 ≤ unreadCount d ∧ 0 ≤ mentionOrDmCount d ∧
   (hasUnread c s = false → mentionOrDmCount d = 0))%Z.
Proof.
  intros Hs Hc. destruct (read_reachable_ok s Hs c d Hc) as (? & ? & ?).
  split; [done|]. split; [done|].
  unfold hasUnread. rewrite Hc. simpl. intros ?%Z.ltb_ge. lia.
Qed.

(** the badge totals follow the counters: an incoming message raises the unread
    total by one (and the mention total by one exactly when it is a mention or a
    DM), and acknowledging a channel replaces its share of the unread total. *)
Theorem read_totals c last n s :
  getTotalUnreadCount (incrementUnread c s) = (getTotalUnreadCount s + 1)%Z ∧
  getTotalMentionOrDmCount (incrementUnread c s) = getTotalMentionOrDmCount s ∧
  getTotalUnreadCount (incrementUnreadWithMention c s) = (getTotalUnreadCount s + 1)%Z ∧
  getTotalMentionOrDmCount (incrementUnreadWithMention c s) =
    (getTotalMentionOrDmCount s + 1)%Z ∧
  getTotalUnreadCount (updateReadState c last n s) =
    (getTotalUnreadCount s - getUnreadCount c s + n)%Z.
Proof.
  unfold getTotalUnreadCount, getTotalMentionOrDmCount, getUnreadCount. simpl.
  rewrite !map_sum_insert. destruct (byChannel s !! c) as [d|]; simpl; lia.
Qed.

Lemma setReadStates_keys es s c :
  is_Some (byChannel (setReadStates es s) !! c) ↔ c ∈ rs_channelId <$> es.
Proof.
  unfold setReadStates; simpl.
  assert (Hgen : ∀ m : gmap string ReadStateData, is_Some (foldl (λ fresh e, <[rs_channelId e :=
     refreshed s (rs_channelId e) (rs_lastReadMessageId e) (rs_unreadCount e)]> fresh) m es !! c)
     ↔ c ∈ rs_channelId <$> es ∨ is_Some (m !! c)).
  { induction es as [|e es IH]; intros m; cbn [foldl].
    - rewrite fmap_nil, elem_of_nil. tauto.
    - rewrite IH, fmap_cons, elem_of_cons, lookup_insert. case_decide; naive_solver. }
  rewrite Hgen, lookup_empty, is_Some_alt. tauto.
Qed.

(** a reconnect replaces the whole table: exactly the channels the server lists
    have counters afterwards, so stale counts are gone, and a listed channel that is
    still unread keeps the mention count it had. *)
Theorem reconnect_replaces es s c e :
  NoDup (rs_channelId <$> es) → e ∈ es → rs_channelId e = c →
  (∀ c', is_Some (byChannel (setReadStates es s) !! c') ↔ c' ∈ rs_channelId <$> es) ∧
  getUnreadCount c (setReadStates es s) = rs_unreadCount e ∧
  mentionOrDmCount <$> byChannel (setReadStates es s) !! c =
    Some (if (rs_unreadCount e =? 0)%Z then 0%Z
          else or_default 0%Z (mentionOrDmCount <$> byChannel s !! c)).
Proof.
  intros Hnd He Hc. split; [apply setReadStates_keys|].
  assert (Hl : byChannel (setReadStates es s) !! c =
    Some (refreshed s c (rs_lastReadMessageId e) (rs_unreadCount e))).
  { unfold setReadStates; simpl. subst c. generalize (∅ : gmap string ReadStateData) as m.
    induction es as [|e' es IH]; [set_solver|]. intros m. cbn [foldl].
    rewrite fmap_cons, NoDup_cons in Hnd. destruct Hnd as [Hn Hnd].
    apply elem_of_cons in He as [<-|He]; [|by apply IH].
    clear IH. assert (Hkeep : ∀ m : gmap string ReadStateData,
      foldl (λ fresh e, <[rs_channelId e := refreshed s (rs_channelId e)
        (rs_lastReadMessageId e) (rs_unreadCount e)]> fresh) m es !! rs_channelId e =
      m !! rs_channelId e).
    { clear Hnd m. induction es as [|x es IH]; intros m; [done|]; cbn [foldl].
      rewrite fmap_cons, not_elem_of_cons in Hn. destruct Hn as [Hx Hn].
      rewrite IH by done. by rewrite lookup_insert_ne. }
    rewrite Hkeep. apply lookup_insert_eq. }
  unfold getUnreadCount. rewrite Hl. done.
Qed.

(** ** Concrete runs *)

Definition demo_state : ReadStateState :=
  run [IncrementUnreadWithMention "a"; IncrementUnread "b"; UpdateReadState "b" "m9" 0] initial.

Lemma read_demo_reachable : reachable demo_state.
Proof. apply reachable_run. simpl. lia. Qed.

Lemma read_counters_ok_witness :
  hasUnread "b" demo_state = false ∧
  or_default 1%Z (mentionOrDmCount <$> byChannel demo_state !! "b") = 0%Z.
Proof.
  split; [reflexivity|].
  apply (read_counters_ok demo_state "b" _ read_demo_reachable eq_refl). reflexivity.
Defined.

Lemma reconnect_replaces_witness :
  getUnreadCount "a" (setReadStates [{| rs_channelId := "a"; rs_lastReadMessageId := "m1";
    rs_unreadCount := 4 |}] demo_state) = 4%Z.
Proof.
  apply (reconnect_replaces [_] demo_state "a" {| rs_channelId := "a";
    rs_lastReadMessageId := "m1"; rs_unreadCount := 4 |});
    [apply NoDup_singleton|left|reflexivity].
Defined.
