(* ===== verification/NotificationSettings.v ===== *)
(** * The notification settings ([store/notificationSettings.ts])

    Which sounds play and how loud, and what the badge counts. *)

From S2P Require Export Json.

(** The sound types are the strings of [ALL_SOUND_TYPES]. *)
Definition ALL_SOUND_TYPES : list string :=
  ["message"; "dm"; "mention"; "voice-join"; "voice-leave"; "call-connect"; "call-end";
   "stream-start"; "stream-end"; "stream-join"; "stream-leave"; "mute"; "unmute"].

Inductive BadgeMode := all | mentions_dms | badge_off.

Definition badge_of_string (s : string) : option BadgeMode :=
  if decide (s = "all") then Some all
  else if decide (s = "mentions_dms") then Some mentions_dms
  else if decide (s = "off") then Some badge_off
  else None.
Definition badge_to_string (m : BadgeMode) : string :=
  match m with all => "all" | mentions_dms => "mentions_dms" | badge_off => "off" end.

Record NotificationSettingsState := {
  soundEnabled : bool;
  enabledSounds : gmap string bool;
  notificationVolume : number;
  badgeMode : BadgeMode;
}.

Definition defaultEnabledSounds : gmap string bool :=
  foldl (λ r t, <[t := true]> r) ∅ ALL_SOUND_TYPES.

#[local] Arguments ALL_SOUND_TYPES : simpl never.
#[local] Arguments defaultEnabledSounds : simpl never.

Definition initialState : NotificationSettingsState :=
  {| soundEnabled := true; enabledSounds := defaultEnabledSounds;
     notificationVolume := Num.n0_7; badgeMode := all |}.

(** The spread of [initialState] and [loadFromStorage()] *)
Definition loadFromStorage (item : option json) : NotificationSettingsState :=
  let parsed := match item with Some (JObj _ | JArr _) => item | _ => None end in
  {| soundEnabled := or_default true (json_bool (json_get "soundEnabled" parsed));
     enabledSounds :=
       match json_get "enabledSounds" parsed with
       | Some (JObj _) as sounds =>
           foldl (λ enabled t, match json_bool (json_get t sounds) with
             | Some b => <[t := b]> enabled | None => enabled end)
             defaultEnabledSounds ALL_SOUND_TYPES
       | _ => defaultEnabledSounds
       end;
     notificationVolume :=
       load_slider Num.one Num.n0_7 (json_get "notificationVolume" parsed);
     badgeMode :=
       or_default all (json_string (json_get "badgeMode" parsed) ≫= badge_of_string) |}.

(** What [saveToStorage] writes; the properties of [enabledSounds] are listed in some
    order. *)
Definition saved_json (s : NotificationSettingsState) : json :=
  JObj [("soundEnabled", JBool (soundEnabled s));
        ("enabledSounds", json_of_table (JBool <$> enabledSounds s));
        ("notificationVolume", json_of_number (notificationVolume s));
        ("badgeMode", JStr (badge_to_string (badgeMode s)))].

Definition setSoundEnabled (enabled : bool) (s : NotificationSettingsState) :=
  {| soundEnabled := enabled; enabledSounds := enabledSounds s;
     notificationVolume := notificationVolume s; badgeMode := badgeMode s |}.
Definition setEnabledSound (type : string) (enabled : bool) (s : NotificationSettingsState) :=
  {| soundEnabled := soundEnabled s; enabledSounds := <[type := enabled]> (enabledSounds s);
     notificationVolume := notificationVolume s; badgeMode := badgeMode s |}.
Definition setNotificationVolume (volume : number) (s : NotificationSettingsState) :=
  {| soundEnabled := soundEnabled s; enabledSounds := enabledSounds s;
     notificationVolume := Num.clamp Num.zero Num.one volume; badgeMode := badgeMode s |}.
Definition setBadgeMode (mode : BadgeMode) (s : NotificationSettingsState) :=
  {| soundEnabled := soundEnabled s; enabledSounds := enabledSounds s;
     notificationVolume := notificationVolume s; badgeMode := mode |}.

Inductive action :=
  | SetSoundEnabled (enabled : bool)
  | SetEnabledSound (type : string) (enabled : bool)
  | SetNotificationVolume (volume : number)
  | SetBadgeMode (mode : BadgeMode).

Definition perform (a : action) : NotificationSettingsState → NotificationSettingsState :=
  match a with
  | SetSoundEnabled b => setSoundEnabled b
  | SetEnabledSound t b => setEnabledSound t b
  | SetNotificationVolume v => setNotificationVolume v
  | SetBadgeMode m => setBadgeMode m
  end.

(** The argument of the call [soundManager.setVolume(clamped)], if the action makes it. *)
Definition sound_manager_volume (a : action) : option number :=
  match a with
  | SetNotificationVolume v => Some (Num.clamp Num.zero Num.one v)
  | _ => None
  end.

(** A sound type is one of the list; the volume is a number. *)
Definition args_ok (a : action) (s : NotificationSettingsState) : Prop :=
  match a with
  | SetEnabledSound t _ => t ∈ ALL_SOUND_TYPES
  | SetNotificationVolume v => Num.is_nan v = false
  | _ => True
  end.

#[export] Instance notification_store : Store NotificationSettingsState action :=
  {| initial := initialState; exec := perform; admissible := args_ok |}.

(** ** Every sound type has a setting, and the volume is in its range *)

Record well_formed (s : NotificationSettingsState) : Prop := {
  wf_sounds : ∀ t, is_Some (enabledSounds s !! t) ↔ t ∈ ALL_SOUND_TYPES;
  wf_volume : in_range Num.one (notificationVolume s);
}.

Lemma default_sounds t : is_Some (defaultEnabledSounds !! t) ↔ t ∈ ALL_SOUND_TYPES.
Proof.
  unfold defaultEnabledSounds.
  assert (H : ∀ l (m : gmap string bool),
    is_Some (foldl (λ r t, <[t := true]> r) m l !! t) ↔ t ∈ l ∨ is_Some (m !! t)).
  { intros l. induction l as [|x l IH]; intros m; cbn [foldl]; [set_solver|].
    rewrite IH, lookup_insert_is_Some, elem_of_cons. destruct (decide (t = x)); naive_solver. }
  rewrite H, lookup_empty. split; [|tauto]. by intros [?|[]].
Qed.

Lemma read_sounds_lookup (g : string → option bool) l (m : gmap string bool) t :
  foldl (λ enabled t, match g t with Some b => <[t := b]> enabled | None => enabled end) m l !! t
    = if decide (t ∈ l) then match g t with Some b => Some b | None => m !! t end else m !! t.
Proof.
  revert m. induction l as [|x l IH]; intros m; cbn [foldl]; [by rewrite decide_False by set_solver|].
  rewrite IH. destruct (decide (t = x)) as [->|Hne].
  - rewrite (decide_True (P := x ∈ x :: l)) by set_solver.
    destruct (g x) eqn:E; [|by case_decide]. rewrite lookup_insert_eq. by case_decide.
  - assert (H : (match g x with Some b => <[x := b]> m | None => m end) !! t = m !! t).
    { destruct (g x); [|done]. by rewrite lookup_insert_ne. }
    rewrite H. repeat case_decide; set_solver.
Qed.

Lemma notification_initial_wf : well_formed initialState.
Proof. split; [apply default_sounds|by repeat split]. Qed.

Lemma load_wf item : well_formed (loadFromStorage item).
Proof.
  split; [|apply load_slider_in_range; [apply bound_one|by repeat split]].
  cbn [loadFromStorage enabledSounds].
  intros t. destruct (json_get "enabledSounds" _) as [[]|]; try apply default_sounds.
  rewrite (read_sounds_lookup (λ t, json_bool (json_get t _))).
  case_decide; [|apply default_sounds]. case_match; [naive_solver|apply default_sounds].
Qed.

Lemma notification_perform_wf a s : args_ok a s → well_formed s → well_formed (perform a s).
Proof.
  intros Ha [Hs Hv]. destruct a as [b|t b|v|m]; split; simpl; try done.
  - intros t'. rewrite lookup_insert_is_Some, Hs.
    destruct (decide (t = t')); naive_solver.
  - apply in_range_clamp; [apply bound_one|done].
Qed.

Lemma notification_reachable_wf s : reachable s → well_formed s.
Proof.
  revert s. apply reachable_invariant; [apply notification_initial_wf|]. intros a s. apply notification_perform_wf.
Qed.

Lemma sounds_saved s :
  well_formed s →
  foldl (λ enabled t,
    match json_bool (json_get t (Some (json_of_table (JBool <$> enabledSounds s)))) with
    | Some b => <[t := b]> enabled | None => enabled end)
    defaultEnabledSounds ALL_SOUND_TYPES = enabledSounds s.
Proof.
  intros [Hs _]. apply map_eq. intros t.
  rewrite (read_sounds_lookup (λ t, json_bool (json_get t _))).
  assert (Hget : json_get t (Some (json_of_table (JBool <$> enabledSounds s))) =
    JBool <$> enabledSounds s !! t).
  { simpl. unfold obj_get. rewrite <-map_fmap_compose. apply option_eq. intros j.
    rewrite fmap_Some. setoid_rewrite (find_key_Some fst); [|apply NoDup_fst_map_to_list].
    split.
    - intros ([k j'] & [Hin Hk] & Hj). simpl in *. subst.
      apply elem_of_map_to_list in Hin. rewrite lookup_fmap in Hin.
      by destruct (enabledSounds s !! t).
    - destruct (enabledSounds s !! t) as [b|] eqn:E; simpl; [|done]. intros [= <-].
      exists (t, JBool b). split; [|done]. split; [|done]. apply elem_of_map_to_list.
      by rewrite lookup_fmap, E. }
  rewrite Hget. case_decide as Ht.
  - apply Hs in Ht as [b ->]. done.
  - destruct (enabledSounds s !! t) eqn:E; [|].
    + destruct Ht. apply Hs. by rewrite E.
    + apply eq_None_not_Some. by rewrite default_sounds.
Qed.

Lemma badge_of_to_string m : badge_of_string (badge_to_string m) = Some m.
Proof. by destruct m. Qed.

Lemma notification_load_saved s : reachable s → loadFromStorage (Some (saved_json s)) = s.
Proof.
  intros Hwf%notification_reachable_wf.
  change (loadFromStorage (Some (saved_json s))) with
    {| soundEnabled := soundEnabled s;
       enabledSounds := foldl (λ enabled t,
         match json_bool (json_get t (Some (json_of_table (JBool <$> enabledSounds s)))) with
         | Some b => <[t := b]> enabled | None => enabled end)
         defaultEnabledSounds ALL_SOUND_TYPES;
       notificationVolume :=
         load_slider Num.one Num.n0_7 (Some (json_of_number (notificationVolume s)));
       badgeMode := or_default all (badge_of_string (badge_to_string (badgeMode s))) |}.
  rewrite sounds_saved by done. rewrite load_slider_saved by apply Hwf.
  rewrite badge_of_to_string. by destruct s.
Qed.

#[export] Instance notification_persistent : Persistent NotificationSettingsState action :=
  {| to_json := saved_json; load := loadFromStorage;
     load_fresh := eq_refl; load_to_json := notification_load_saved |}.

(** whatever JSON storage holds and whatever actions follow, every sound type has a
    setting, no other key does, and the volume handed to the sound manager is the
    stored one and lies in [0, 1]; and whenever no save is scheduled a reload gives
    back the same settings. *)
Theorem notification_settings_sound :
  (∀ item a, args_ok a (loadFromStorage item) →
     let s := perform a (loadFromStorage item) in
     (∀ t, is_Some (enabledSounds s !! t) ↔ t ∈ ALL_SOUND_TYPES) ∧
     Num.le Num.zero (notificationVolume s) = true ∧
     Num.le (notificationVolume s) Num.one = true ∧
     (∀ v, sound_manager_volume a = Some v → notificationVolume s = v)) ∧
  (∀ s : Session NotificationSettingsState, reachable s → timer s = false →
     settings (session_exec Reload s) = settings s).
Proof.
  split.
  - intros item a Ha. cbv zeta. destruct (notification_perform_wf a _ Ha (load_wf item)) as [Hs Hv].
    split; [exact Hs|]. split; [apply (in_range_le _ _ bound_one Hv)|].
    split; [apply (in_range_le _ _ bound_one Hv)|].
    intros v. destruct a; simpl; congruence.
  - intros s Hs Ht. destruct (session_saved s Hs) as (_ & Hl & _). by apply Hl.
Qed.

Lemma notification_settings_sound_witness :
  let s := perform (SetNotificationVolume Num.n50) (loadFromStorage None) in
  notificationVolume s = Num.one ∧ Num.le (notificationVolume s) Num.one = true.
Proof.
  split; [reflexivity|].
  apply (proj1 notification_settings_sound None (SetNotificationVolume Num.n50) eq_refl).
Defined.
