(* ===== verification/Badge.v ===== *)
(** * The badge ([badge/sync.ts])

    The number on the application's icon follows the read-state store and the badge
    mode: each change schedules an update, and a later change replaces it. *)

From S2P Require Import ReadState NotificationSettings.

Definition computeBadgeCount (n : NotificationSettingsState) (r : ReadStateState) : Z :=
  match badgeMode n with
  | badge_off => 0
  | mentions_dms => getTotalMentionOrDmCount r
  | all => getTotalUnreadCount r
  end.

(** The two stores the badge follows, the module's variables ([adapter] and the
    subscriptions are set together), and the count the adapter was last given.  The
    pending timer carries the generation it was scheduled in. *)
Record BadgeState := {
  read_state : ReadStateState;
  settings : NotificationSettingsState;
  adapter : bool;
  debounceTimer : option Z;
  syncGeneration : Z;
  shown : Z;
}.

Definition set_timer (t : option Z) (s : BadgeState) : BadgeState :=
  {| read_state := read_state s; settings := settings s; adapter := adapter s;
     debounceTimer := t; syncGeneration := syncGeneration s; shown := shown s |}.
Definition setBadgeCount (n : Z) (s : BadgeState) : BadgeState :=
  {| read_state := read_state s; settings := settings s; adapter := adapter s;
     debounceTimer := debounceTimer s; syncGeneration := syncGeneration s; shown := n |}.

Definition scheduleBadgeUpdate (s : BadgeState) : BadgeState :=
  set_timer (Some (syncGeneration s)) s.

(** The callback of the timer. *)
Definition timer_fires (s : BadgeState) : BadgeState :=
  match debounceTimer s with
  | None => s
  | Some gen =>
      let s := set_timer None s in
      if negb (gen =? syncGeneration s)%Z || negb (adapter s) then s
      else setBadgeCount (computeBadgeCount (settings s) (read_state s)) s
  end.

Definition stopBadgeSync (s : BadgeState) : BadgeState :=
  {| read_state := read_state s; settings := settings s; adapter := false;
     debounceTimer := None; syncGeneration := syncGeneration s;
     shown := if adapter s then 0 else shown s |}.

Definition startBadgeSync (s : BadgeState) : BadgeState :=
  let s := stopBadgeSync s in
  {| read_state := read_state s; settings := settings s; adapter := true;
     debounceTimer := debounceTimer s; syncGeneration := syncGeneration s + 1;
     shown := computeBadgeCount (settings s) (read_state s) |}.

Definition badge_mode_eqb (m m' : BadgeMode) : bool :=
  match m, m' with
  | all, all | mentions_dms, mentions_dms | badge_off, badge_off => true
  | _, _ => false
  end.

(** The stores change: [notified] tells whether the read-state store's listeners run,
    which they do whenever its state is another one; the settings listener compares
    the badge modes. *)
Definition read_changes (r : ReadStateState) (notified : bool) (s : BadgeState) : BadgeState :=
  let s' := {| read_state := r; settings := settings s; adapter := adapter s;
               debounceTimer := debounceTimer s; syncGeneration := syncGeneration s;
               shown := shown s |} in
  if adapter s && notified then scheduleBadgeUpdate s' else s'.
Definition settings_change (n : NotificationSettingsState) (s : BadgeState) : BadgeState :=
  let s' := {| read_state := read_state s; settings := n; adapter := adapter s;
               debounceTimer := debounceTimer s; syncGeneration := syncGeneration s;
               shown := shown s |} in
  if adapter s && negb (badge_mode_eqb (badgeMode n) (badgeMode (settings s)))
  then scheduleBadgeUpdate s' else s'.

Inductive badge_op :=
  | ReadChanges (r : ReadStateState) (notified : bool)
  | SettingsChange (n : NotificationSettingsState)
  | TimerFires
  | Start
  | Stop.

Definition badge_exec (o : badge_op) : BadgeState → BadgeState :=
  match o with
  | ReadChanges r b => read_changes r b
  | SettingsChange n => settings_change n
  | TimerFires => timer_fires
  | Start => startBadgeSync
  | Stop => stopBadgeSync
  end.

Definition badge_ok (o : badge_op) (s : BadgeState) : Prop :=
  match o with
  | ReadChanges r notified => notified = false → r = read_state s
  | _ => True
  end.

#[export] Instance badge_store : Store BadgeState badge_op :=
  {| initial := {| read_state := {| byChannel := ∅ |}; settings := initialState;
       adapter := false; debounceTimer := None; syncGeneration := 0; shown := 0 |};
     exec := badge_exec; admissible := badge_ok |}.

(** A pending timer is of the current generation; without one the count is right. *)
Record in_sync (s : BadgeState) : Prop := {
  sync_timer : ∀ g, debounceTimer s = Some g → adapter s = true ∧ g = syncGeneration s;
  sync_shown : adapter s = true → debounceTimer s = None →
    shown s = computeBadgeCount (settings s) (read_state s);
  sync_off : adapter s = false → shown s = 0%Z;
}.

Lemma badge_mode_eqb_true m m' : badge_mode_eqb m m' = true → m = m'.
Proof. by destruct m, m'. Qed.

Lemma scheduled_in_sync s : adapter s = true → in_sync (scheduleBadgeUpdate s).
Proof. intros Ha. split; simpl; [intros g [= <-]; done|done|congruence]. Qed.

Lemma reachable_in_sync s : reachable s → in_sync s.
Proof.
  revert s. apply reachable_invariant; [by split|].
  intros o s Ho [Ht Hs Hoff]. destruct o as [r b|n| | |]; simpl.
  - unfold read_changes. destruct (adapter s) eqn:Ea; simpl; [|by split; simpl; auto].
    destruct b; [by apply scheduled_in_sync|]. rewrite (Ho eq_refl). by split.
  - unfold settings_change. destruct (adapter s) eqn:Ea; simpl; [|by split; simpl; auto].
    destruct (badge_mode_eqb _ _) eqn:E; simpl; [|by apply scheduled_in_sync].
    apply badge_mode_eqb_true in E. split; simpl; [done| |done].
    intros _ ?. rewrite Hs by done. unfold computeBadgeCount. by rewrite E.
  - unfold timer_fires. destruct (debounceTimer s) as [g|] eqn:E; [|by split; rewrite ?E].
    destruct (Ht g eq_refl) as [Ha ->]. simpl. rewrite Z.eqb_refl, Ha. simpl.
    split; simpl; [done| |congruence]. done.
  - split; simpl; try done.
  - split; simpl; try done. intros _. case_match; auto.
Qed.

(** whenever badge sync runs and no update is pending, the badge shows what the
    current read state and badge mode call for; a pending update makes it so when
    its timer fires; and when sync is stopped the badge shows nothing. *)
Theorem badge_follows_stores s :
  reachable s →
  (adapter s = true → debounceTimer s = None →
     shown s = computeBadgeCount (settings s) (read_state s)) ∧
  (adapter s = true → shown (timer_fires s) = computeBadgeCount (settings s) (read_state s)) ∧
  (adapter s = false → shown s = 0%Z ∧ debounceTimer s = None).
Proof.
  intros [Ht Hs Hoff]%reachable_in_sync. split; [done|]. split.
  - intros Ha. unfold timer_fires. destruct (debounceTimer s) as [g|] eqn:E; [|by apply Hs].
    destruct (Ht g eq_refl) as [_ ->]. simpl. by rewrite Z.eqb_refl, Ha.
  - intros Ha. split; [by apply Hoff|]. destruct (debounceTimer s) as [g|] eqn:E; [|done].
    destruct (Ht g eq_refl). congruence.
Qed.

Definition demo_read : ReadStateState :=
  incrementUnreadWithMention "c" (incrementUnread "c" {| byChannel := ∅ |}).
Definition demo_badge : BadgeState := run [Start; ReadChanges demo_read true] initial.

Lemma badge_follows_stores_witness :
  shown demo_badge = 0%Z ∧ shown (timer_fires demo_badge) = 2%Z.
Proof.
  split; [reflexivity|].
  rewrite (proj1 (proj2 (badge_follows_stores demo_badge
    ltac:(apply reachable_run; repeat split; discriminate))) eq_refl).
  reflexivity.
Defined.
