(* ===== verification/StreamSettings.v ===== *)
(** * The stream settings ([store/streamSettings.ts])

    Four enumerations, saved at once on every change and validated on load. *)

From S2P Require Export Json.

Inductive ScreenSharePresetKey :=
  | h360fps3 | h360fps15 | h720fps5 | h720fps15 | h720fps30 | h1080fps15 | h1080fps30
  | original.
Inductive ContentHint := detail | motion.
Inductive ViewerQuality := auto | low | medium | high.

(** The names of the members of each type, in the order of the validation sets. *)
Definition VALID_PRESETS : list (string * ScreenSharePresetKey) :=
  [("h360fps3", h360fps3); ("h360fps15", h360fps15); ("h720fps5", h720fps5);
   ("h720fps15", h720fps15); ("h720fps30", h720fps30); ("h1080fps15", h1080fps15);
   ("h1080fps30", h1080fps30); ("original", original)].
Definition VALID_HINTS : list (string * ContentHint) :=
  [("detail", detail); ("motion", motion)].
Definition VALID_QUALITIES : list (string * ViewerQuality) :=
  [("auto", auto); ("low", low); ("medium", medium); ("high", high)].

Definition preset_name (p : ScreenSharePresetKey) : string :=
  match p with
  | h360fps3 => "h360fps3" | h360fps15 => "h360fps15" | h720fps5 => "h720fps5"
  | h720fps15 => "h720fps15" | h720fps30 => "h720fps30" | h1080fps15 => "h1080fps15"
  | h1080fps30 => "h1080fps30" | original => "original"
  end.
Definition hint_name (h : ContentHint) : string :=
  match h with detail => "detail" | motion => "motion" end.
Definition quality_name (q : ViewerQuality) : string :=
  match q with auto => "auto" | low => "low" | medium => "medium" | high => "high" end.

Record StreamSettingsState := {
  preset : ScreenSharePresetKey;
  contentHint : ContentHint;
  simulcast : bool;
  defaultQuality : ViewerQuality;
}.

Definition initialState : StreamSettingsState :=
  {| preset := h1080fps30; contentHint := detail; simulcast := false; defaultQuality := auto |}.

(** [typeof x === 'string' && VALID.has(x)], else the default *)
Definition valid_or {A} (valid : list (string * A)) (d : A) (j : option json) : A :=
  or_default d (json_string j ≫= λ s, obj_get s valid).

(** The spread of [initialState] and [loadFromStorage()] *)
Definition loadFromStorage (item : option json) : StreamSettingsState :=
  let parsed := match item with Some (JObj _ | JArr _) => item | _ => None end in
  {| preset := valid_or VALID_PRESETS (preset initialState) (json_get "preset" parsed);
     contentHint :=
       valid_or VALID_HINTS (contentHint initialState) (json_get "contentHint" parsed);
     simulcast := or_default (simulcast initialState) (json_bool (json_get "simulcast" parsed));
     defaultQuality :=
       valid_or VALID_QUALITIES (defaultQuality initialState)
         (json_get "defaultQuality" parsed) |}.

(** What [saveToStorage] writes. *)
Definition saved_json (s : StreamSettingsState) : json :=
  JObj [("preset", JStr (preset_name (preset s)));
        ("contentHint", JStr (hint_name (contentHint s)));
        ("simulcast", JBool (simulcast s));
        ("defaultQuality", JStr (quality_name (defaultQuality s)))].

(** The store with the stored item; [quota] is whether storage has room. *)
Record StreamStore := { state : StreamSettingsState; stored : option json }.

Definition saveToStorage (quota : bool) (s : StreamStore) : StreamStore :=
  {| state := state s; stored := if quota then Some (saved_json (state s)) else stored s |}.

Definition setPreset (quota : bool) (p : ScreenSharePresetKey) (s : StreamStore) : StreamStore :=
  saveToStorage quota {| state := {| preset := p; contentHint := contentHint (state s);
    simulcast := simulcast (state s); defaultQuality := defaultQuality (state s) |};
    stored := stored s |}.
Definition setContentHint (quota : bool) (h : ContentHint) (s : StreamStore) : StreamStore :=
  saveToStorage quota {| state := {| preset := preset (state s); contentHint := h;
    simulcast := simulcast (state s); defaultQuality := defaultQuality (state s) |};
    stored := stored s |}.
Definition setSimulcast (quota : bool) (b : bool) (s : StreamStore) : StreamStore :=
  saveToStorage quota {| state := {| preset := preset (state s);
    contentHint := contentHint (state s); simulcast := b;
    defaultQuality := defaultQuality (state s) |}; stored := stored s |}.
Definition setDefaultQuality (quota : bool) (q : ViewerQuality) (s : StreamStore)
    : StreamStore :=
  saveToStorage quota {| state := {| preset := preset (state s);
    contentHint := contentHint (state s); simulcast := simulcast (state s);
    defaultQuality := q |}; stored := stored s |}.
Definition reset (s : StreamStore) : StreamStore := {| state := initialState; stored := None |}.

Inductive action :=
  | SetPreset (p : ScreenSharePresetKey)
  | SetContentHint (h : ContentHint)
  | SetSimulcast (b : bool)
  | SetDefaultQuality (q : ViewerQuality)
  | Reset.

Definition perform (a : action) : StreamStore → StreamStore :=
  match a with
  | SetPreset p => setPreset true p
  | SetContentHint h => setContentHint true h
  | SetSimulcast b => setSimulcast true b
  | SetDefaultQuality q => setDefaultQuality true q
  | Reset => reset
  end.

(** The page starts from whatever is stored. *)
Definition boot (item : option json) : StreamStore :=
  {| state := loadFromStorage item; stored := item |}.

Lemma stream_load_saved s : loadFromStorage (Some (saved_json s)) = s.
Proof. by destruct s as [[] [] b []]. Qed.

(** loading the page again gives back the stream settings exactly, after any
    actions and from any stored JSON (unless storage is full). *)
Theorem stream_settings_survive_reload item ops :
  let s := foldl (λ s a, perform a s) (boot item) ops in
  boot (stored s) = s.
Proof.
  cbv zeta. assert (H : ∀ s, boot (stored s) = s →
    boot (stored (foldl (λ s a, perform a s) s ops)) = foldl (λ s a, perform a s) s ops).
  { induction ops as [|a ops IH]; intros s Hs; simpl; [done|]. apply IH.
    destruct a; unfold boot; simpl; rewrite ?stream_load_saved; done. }
  by apply H.
Qed.
