(* ===== verification/Keybinds.v ===== *)
(** * Keyboard shortcuts ([keybinds/keybinds.ts], [store/keybindOverrides.ts])

    The table of shortcuts, the user's overrides, the conflicts the settings page
    reports, and the test of a keyboard event against a shortcut.  Key names are ASCII
    strings. *)

From S2P Require Export JsString Json.

Inductive KeybindCategory := navigation | tiling | voice | channels.
Inductive KeybindType := press | hold.

Record Keybind := {
  keys : string;
  label : string;
  type : KeybindType;
  category : KeybindCategory;
  tilingOnly : bool;
  voiceOnly : bool;
  enableOnFormTags : option bool;
  preventDefault : bool;
}.

Definition tiling_key (k l : string) : Keybind :=
  {| keys := k; label := l; type := press; category := tiling; tilingOnly := true;
     voiceOnly := false; enableOnFormTags := None; preventDefault := true |}.
Definition voice_key (k l : string) (t : KeybindType) : Keybind :=
  {| keys := k; label := l; type := t; category := voice; tilingOnly := false;
     voiceOnly := true; enableOnFormTags := Some true; preventDefault := true |}.
Definition other_key (k l : string) (c : KeybindCategory) (form : option bool) (pd : bool)
    : Keybind :=
  {| keys := k; label := l; type := press; category := c; tilingOnly := false;
     voiceOnly := false; enableOnFormTags := form; preventDefault := pd |}.

Definition KEYBINDS : jsobj Keybind :=
  [("split-horizontal", tiling_key "ctrl+shift+v" "Split right");
   ("split-vertical", tiling_key "ctrl+shift+h" "Split down");
   ("close-pane", tiling_key "ctrl+shift+w" "Close pane");
   ("move-focus-left", tiling_key "ctrl+shift+left" "Move focus left");
   ("move-focus-right", tiling_key "ctrl+shift+right" "Move focus right");
   ("move-focus-up", tiling_key "ctrl+shift+up" "Move focus up");
   ("move-focus-down", tiling_key "ctrl+shift+down" "Move focus down");
   ("cycle-focus", tiling_key "ctrl+shift+tab" "Cycle focus");
   ("reset-layout", tiling_key "ctrl+shift+e" "Reset layout");
   ("search", other_key "mod+k" "Search messages" navigation (Some true) true);
   ("show-shortcuts", other_key "shift+/" "Show this help" navigation (Some false) true);
   ("toggle-mute", voice_key "ctrl+shift+m" "Toggle mute" press);
   ("toggle-deafen", voice_key "ctrl+shift+d" "Toggle deafen" press);
   ("push-to-mute", voice_key "" "Push-to-mute" hold);
   ("push-to-deafen", voice_key "" "Push-to-deafen" hold);
   ("mark-channel-read", other_key "escape" "Mark channel read" channels None false);
   ("mark-server-read", other_key "shift+escape" "Mark server read" channels None true)].

(** ** Strings *)

(** [s.split('+')] *)
Fixpoint split_plus (s : string) : list string :=
  match s with
  | EmptyString => [""]
  | String a s =>
      if Ascii.eqb a (Ascii.ascii_of_nat 43) then "" :: split_plus s
      else match split_plus s with
           | p :: ps => String a p :: ps
           | [] => [String a EmptyString]
           end
  end.

(** ** Matching an event *)

Record KeyboardEvent := {
  ctrlKey : bool;
  metaKey : bool;
  shiftKey : bool;
  altKey : bool;
  key : string;
}.

Definition KEY_MAP : jsobj string :=
  [("left", "arrowleft"); ("right", "arrowright"); ("up", "arrowup"); ("down", "arrowdown");
   ("tab", "tab"); ("escape", "escape"); ("/", "/")].

Definition matchesKeybind (IS_MAC : bool) (e : KeyboardEvent) (keys : string) : bool :=
  let parts := split_plus (toLowerCase keys) in
  let key' := or_default "" (last parts) in
  let modifiers := take (length parts - 1) parts in
  let has m := bool_decide (m ∈ modifiers) in
  let needsCtrl := has "ctrl" || (negb IS_MAC && has "mod") in
  let needsMeta := IS_MAC && has "mod" in
  let needsShift := has "shift" in
  let needsAlt := has "alt" in
  if negb (eqb needsCtrl (ctrlKey e)) then false
  else if negb (eqb needsMeta (metaKey e)) then false
  else if negb (eqb needsShift (shiftKey e)) then false
  else if negb (eqb needsAlt (altKey e)) then false
  else
    let eventKey := toLowerCase (key e) in
    let expected := or_default key' (obj_get key' KEY_MAP) in
    bool_decide (eventKey = expected).

(** [isForm] is whether the event's target is a form element. *)
Definition shouldSuppressKeybind (isForm : bool) (k : Keybind) : bool :=
  match enableOnFormTags k with Some true => false | _ => isForm end.

(** ** The overrides *)

Record KeybindOverridesState := { overrides : jsobj string }.

Definition loadFromStorage (item : option json) : jsobj string :=
  match item with
  | Some (JObj o) =>
      foldl (λ result kv,
        if has_key fst kv.1 KEYBINDS then
          match json_string (Some kv.2) with Some v => obj_set kv.1 v result | None => result end
        else result) [] (obj_entries o)
  | _ => []
  end.

(** What [saveToStorage] leaves in storage. *)
Definition saved_item (o : jsobj string) : option json :=
  if decide (o = []) then None
  else Some (JObj ((λ kv, (kv.1, JStr kv.2)) <$> obj_entries o)).

Definition setOverride (id keys : string) (s : KeybindOverridesState) : KeybindOverridesState :=
  {| overrides := obj_set id keys (overrides s) |}.
Definition clearOverride (id : string) (s : KeybindOverridesState) : KeybindOverridesState :=
  {| overrides := obj_delete id (overrides s) |}.
Definition resetAll (s : KeybindOverridesState) : KeybindOverridesState := {| overrides := [] |}.

Definition getEffectiveKeys (s : KeybindOverridesState) (id : string) : string :=
  match obj_get id (overrides s) with
  | Some override => override
  | None => or_default "" (keys <$> obj_get id KEYBINDS)
  end.

Definition getConflicts (s : KeybindOverridesState) (ks : string) (excludeId : option string)
    : list string :=
  if decide (ks = "") then []
  else foldl (λ conflicts id,
    if decide (Some id = excludeId) then conflicts
    else
      let effective := getEffectiveKeys s id in
      if negb (bool_decide (effective = "")) &&
         bool_decide (toLowerCase effective = toLowerCase ks)
      then conflicts ++ [id] else conflicts) [] (fst <$> KEYBINDS).

Lemma getConflicts_elem s ks ex id :
  id ∈ getConflicts s ks ex ↔
    ks ≠ "" ∧ id ∈ fst <$> KEYBINDS ∧ Some id ≠ ex ∧ getEffectiveKeys s id ≠ "" ∧
    toLowerCase (getEffectiveKeys s id) = toLowerCase ks.
Proof.
  unfold getConflicts. case_decide as Hks; [set_solver|].
  generalize (fst <$> KEYBINDS). intros ids.
  set (test := λ id, negb (bool_decide (Some id = ex)) &&
    (negb (bool_decide (getEffectiveKeys s id = "")) &&
     bool_decide (toLowerCase (getEffectiveKeys s id) = toLowerCase ks))).
  assert (Hfold : ∀ l acc, foldl (λ conflicts id,
      if decide (Some id = ex) then conflicts
      else if negb (bool_decide (getEffectiveKeys s id = "")) &&
           bool_decide (toLowerCase (getEffectiveKeys s id) = toLowerCase ks)
      then conflicts ++ [id] else conflicts) acc l =
    foldl (λ acc x, if test x then acc ++ [x] else acc) acc l).
  { intros l. induction l as [|x l IH]; intros acc; cbn [foldl]; [done|]. rewrite IH. f_equal.
    unfold test. case_decide.
    - by rewrite (bool_decide_eq_true_2 (Some x = ex)).
    - by rewrite (bool_decide_eq_false_2 (Some x = ex)). }
  etrans; [by rewrite (Hfold ids [])|]. rewrite foldl_push_filter. simpl.
  rewrite list_elem_of_filter. unfold test.
  rewrite !andb_true_iff, !negb_true_iff, !bool_decide_eq_false, bool_decide_eq_true. tauto.
Qed.

(** the conflicts reported for a shortcut are exactly the other commands whose
    effective shortcut is the same up to case; an event that triggers the shortcut
    triggers all of them. *)
Theorem getConflicts_correct s ks ex id :
  (id ∈ getConflicts s ks ex ↔
    ks ≠ "" ∧ id ∈ fst <$> KEYBINDS ∧ Some id ≠ ex ∧ getEffectiveKeys s id ≠ "" ∧
    toLowerCase (getEffectiveKeys s id) = toLowerCase ks) ∧
  (id ∈ getConflicts s ks ex →
    ∀ mac e, matchesKeybind mac e (getEffectiveKeys s id) = matchesKeybind mac e ks).
Proof.
  split; [apply getConflicts_elem|].
  intros (_ & _ & _ & _ & E)%getConflicts_elem mac e. unfold matchesKeybind. by rewrite E.
Qed.

(** ** The chord a shortcut stands for on a platform *)

Definition chord (mac : bool) (ks : string) : bool * bool * bool * bool * string :=
  let parts := split_plus (toLowerCase ks) in
  let key' := or_default "" (last parts) in
  let modifiers := take (length parts - 1) parts in
  let has m := bool_decide (m ∈ modifiers) in
  (has "ctrl" || (negb mac && has "mod"), mac && has "mod", has "shift", has "alt",
   or_default key' (obj_get key' KEY_MAP)).

Definition event_chord (e : KeyboardEvent) : bool * bool * bool * bool * string :=
  (ctrlKey e, metaKey e, shiftKey e, altKey e, toLowerCase (key e)).

Lemma matchesKeybind_chord mac e ks :
  matchesKeybind mac e ks = true ↔ event_chord e = chord mac ks.
Proof.
  unfold matchesKeybind, event_chord, chord.
  set (parts := split_plus (toLowerCase ks)). cbv zeta.
  destruct e as [c m s a k]; cbn [ctrlKey metaKey shiftKey altKey key].
  repeat match goal with |- context [if negb (eqb ?b ?b') then _ else _] =>
    destruct (eqb b b') eqn:?E; cbn [negb];
      [apply eqb_prop in E as <-|apply eqb_false_iff in E; split; congruence]
  end.
  rewrite bool_decide_eq_true. split; congruence.
Qed.

Definition bound_defaults : list (string * Keybind) :=
  filter (λ kv, keys kv.2 ≠ "") KEYBINDS.

(** with the default shortcuts no keyboard event triggers two commands, on either
    platform. *)
Theorem default_keybinds_disjoint mac e id id' k k' :
  (id, k) ∈ KEYBINDS → (id', k') ∈ KEYBINDS → keys k ≠ "" → keys k' ≠ "" →
  matchesKeybind mac e (keys k) = true → matchesKeybind mac e (keys k') = true → id = id'.
Proof.
  intros Hin Hin' Hk Hk' H1%matchesKeybind_chord H2%matchesKeybind_chord.
  assert (Hnd : NoDup ((λ kv, chord mac (keys kv.2)) <$> bound_defaults))
    by (destruct mac; apply (bool_decide_unpack _); vm_compute; exact I).
  assert (Hb : ∀ i b, (i, b) ∈ KEYBINDS → keys b ≠ "" → (i, b) ∈ bound_defaults)
    by (intros; by apply list_elem_of_filter).
  apply Hb, list_elem_of_lookup in Hin as [i Hi]; [|done].
  apply Hb, list_elem_of_lookup in Hin' as [j Hj]; [|done].
  assert (i = j) as ->; [|congruence].
  eapply (NoDup_lookup _ i j); [exact Hnd|..]; rewrite list_lookup_fmap, ?Hi, ?Hj; simpl;
    f_equal; congruence.
Qed.

(** pressing shift and the slash key yields the key "?" on a US layout, which the
    shortcut "shift+/" that opens the help does not match: it waits for a shifted
    "/". *)
Theorem help_shortcut_needs_slash mac e k :
  obj_get "show-shortcuts" KEYBINDS = Some k →
  (matchesKeybind mac e (keys k) = true → toLowerCase (key e) = "/" ∧ shiftKey e = true) ∧
  (key e = "?" → matchesKeybind mac e (keys k) = false).
Proof.
  intros [= <-]. cbn [keys other_key].
  assert (H : matchesKeybind mac e "shift+/" = true → toLowerCase (key e) = "/" ∧
    shiftKey e = true).
  { intros Hm%matchesKeybind_chord. unfold event_chord in Hm.
    destruct mac; vm_compute chord in Hm; by injection Hm. }
  split; [exact H|]. intros Hk. apply not_true_iff_false. intros [E _]%H.
  rewrite Hk in E. discriminate E.
Qed.

(** ** Overrides and storage *)

Inductive action :=
  | SetOverride (id keys : string)
  | ClearOverride (id : string)
  | ResetAll.

Definition perform (a : action) : KeybindOverridesState → KeybindOverridesState :=
  match a with
  | SetOverride id k => setOverride id k
  | ClearOverride id => clearOverride id
  | ResetAll => resetAll
  end.

(** An override is set for a command of the table. *)
Definition args_ok (a : action) (s : KeybindOverridesState) : Prop :=
  match a with SetOverride id _ => id ∈ fst <$> KEYBINDS | _ => True end.

#[export] Instance keybind_store : Store KeybindOverridesState action :=
  {| initial := {| overrides := [] |}; exec := perform; admissible := args_ok |}.

Definition overrides_ok (o : jsobj string) : Prop :=
  obj_keys_ok o ∧ ∀ id, is_Some (obj_get id o) → id ∈ fst <$> KEYBINDS.

Lemma keybinds_reachable_ok s : reachable s → overrides_ok (overrides s).
Proof.
  revert s. apply (reachable_invariant (λ s, overrides_ok (overrides s))).
  - split; [constructor|]. by intros id [].
  - intros a s Ha [Hk Hv]. destruct a as [id k|id|]; simpl.
    + split; [by apply obj_set_ok|]. intros i. rewrite obj_get_set. case_decide; naive_solver.
    + split; [by apply obj_delete_ok|]. intros i. rewrite obj_get_delete.
      case_decide; [by intros []|apply Hv].
    + split; [constructor|]. by intros id [].
Qed.

Definition load_step (result : jsobj string) (kv : string * json) : jsobj string :=
  if has_key fst kv.1 KEYBINDS then
    match json_string (Some kv.2) with Some v => obj_set kv.1 v result | None => result end
  else result.

Lemma load_step_lookup id l acc :
  NoDup (fst <$> l) →
  obj_get id (foldl load_step acc l) =
    match find_key fst id l with
    | Some (_, JStr v) => if has_key fst id KEYBINDS then Some v else obj_get id acc
    | _ => obj_get id acc
    end.
Proof.
  revert acc. induction l as [|[i j] l IH]; intros acc Hnd; cbn [foldl]; [done|].
  apply NoDup_cons in Hnd as [Hi Hnd]. rewrite IH, find_key_cons by done.
  unfold load_step; cbn [fst snd]. case_decide as E; cbn [fst] in E.
  - subst i. apply (find_key_None fst id l) in Hi. rewrite Hi.
    destruct (has_key fst id KEYBINDS); [|by destruct j].
    destruct j; simpl; try done. by rewrite obj_get_set, decide_True.
  - assert (Hacc : obj_get id (if has_key fst i KEYBINDS then
        match json_string (Some j) with Some v => obj_set i v acc | None => acc end else acc)
      = obj_get id acc).
    { destruct (has_key fst i KEYBINDS); [|done]. destruct j; simpl; try done.
      by rewrite obj_get_set, decide_False. }
    by rewrite Hacc.
Qed.

(** whatever is stored, only commands of the table get an override, and only a
    string; overrides that were saved are read back: every command has the effective
    shortcut it had before the reload. *)
Theorem overrides_survive_reload s id :
  reachable s →
  (∀ item, is_Some (obj_get id (loadFromStorage item)) → id ∈ fst <$> KEYBINDS) ∧
  getEffectiveKeys {| overrides := loadFromStorage (saved_item (overrides s)) |} id =
    getEffectiveKeys s id.
Proof.
  intros [Hk Hv]%keybinds_reachable_ok. split.
  - intros [[]|]; try by intros []. unfold loadFromStorage. fold load_step.
    change (is_Some (obj_get id (foldl load_step [] (obj_entries o))) →
      id ∈ fst <$> KEYBINDS).
    assert (H : ∀ l acc, (is_Some (obj_get id acc) → id ∈ fst <$> KEYBINDS) →
      is_Some (obj_get id (foldl load_step acc l)) → id ∈ fst <$> KEYBINDS).
    { intros l. induction l as [|[i j] l IH]; intros acc Hacc; cbn [foldl]; [done|].
      apply IH. unfold load_step; cbn [fst snd]. destruct (has_key fst i KEYBINDS) eqn:E; [|done].
      destruct j; simpl; try done. rewrite obj_get_set. case_decide; [|done]. subst i.
      intros _. unfold has_key in E. by apply bool_decide_eq_true in E. }
    apply H. by intros [].
  - unfold getEffectiveKeys. cbn [overrides]. f_equal.
    enough (E : obj_get id (loadFromStorage (saved_item (overrides s))) =
      obj_get id (overrides s)) by by rewrite E.
    unfold saved_item. case_decide as Hnil; [by rewrite Hnil|].
    unfold loadFromStorage. fold load_step.
    change (obj_get id (foldl load_step []
      (obj_entries ((λ kv, (kv.1, JStr kv.2)) <$> obj_entries (overrides s)))) =
      obj_get id (overrides s)).
    set (o := (λ kv, (kv.1, JStr kv.2)) <$> obj_entries (overrides s)).
    assert (Ho : obj_keys_ok o).
    { unfold obj_keys_ok, o. rewrite <-list_fmap_compose.
      change (NoDup (fst <$> obj_entries (overrides s))). by rewrite obj_entries_perm. }
    rewrite load_step_lookup by (rewrite obj_entries_perm; exact Ho).
    assert (Hfind : find_key fst id (obj_entries o) =
      (λ v, (id, JStr v)) <$> obj_get id (overrides s)).
    { apply option_eq. intros [i j]. rewrite (find_key_Some fst)
        by (rewrite obj_entries_perm; exact Ho).
      rewrite fmap_Some, obj_entries_perm. unfold o. rewrite list_elem_of_fmap. split.
      - intros [([i' v] & [= -> ->] & Hin) Hid]. cbn [fst] in Hid. subst i'.
        exists v. split; [by apply obj_entries_get|done].
      - intros (v & Hget & [= -> ->]). split; [|done]. exists (id, v). split; [done|].
        by apply obj_entries_get. }
    rewrite Hfind. destruct (obj_get id (overrides s)) as [v|] eqn:E; [|done]. simpl.
    assert (Hin : id ∈ fst <$> KEYBINDS) by (apply Hv; by rewrite E).
    unfold has_key. by rewrite bool_decide_eq_true_2.
Qed.

(** ** Concrete inputs *)

Definition demo_event (s : string) : KeyboardEvent :=
  {| ctrlKey := true; metaKey := false; shiftKey := true; altKey := false; key := s |}.
Definition demo_state : KeybindOverridesState := run [SetOverride "search" "CTRL+J"] initial.

Lemma keybinds_demo_reachable : reachable demo_state.
Proof.
  apply reachable_run. split; [|done]. change ("search" ∈ fst <$> KEYBINDS).
  apply (bool_decide_unpack _). reflexivity.
Qed.

Lemma getConflicts_correct_witness :
  getConflicts demo_state "ctrl+j" (Some "toggle-mute") = ["search"] ∧
  ∀ mac e, matchesKeybind mac e "CTRL+J" = matchesKeybind mac e "ctrl+j".
Proof.
  split; [reflexivity|].
  apply (proj2 (getConflicts_correct demo_state "ctrl+j" (Some "toggle-mute") "search")).
  apply (bool_decide_unpack _). vm_compute. exact I.
Defined.

Lemma default_keybinds_disjoint_witness :
  matchesKeybind false (demo_event "V") "ctrl+shift+v" = true ∧
  "split-horizontal" = "split-horizontal".
Proof.
  split; [reflexivity|].
  apply (default_keybinds_disjoint false (demo_event "V") _ _
    (tiling_key "ctrl+shift+v" "Split right") (tiling_key "ctrl+shift+v" "Split right"));
    try discriminate; try reflexivity; apply list_elem_of_here.
Defined.

Lemma help_shortcut_needs_slash_witness :
  matchesKeybind false {| ctrlKey := false; metaKey := false; shiftKey := true;
    altKey := false; key := "?" |} "shift+/" = false.
Proof.
  apply (help_shortcut_needs_slash false _ (other_key "shift+/" "Show this help" navigation
    (Some false) true)); reflexivity.
Defined.

Lemma overrides_survive_reload_witness :
  getEffectiveKeys {| overrides := loadFromStorage (saved_item (overrides demo_state)) |} "search"
    = "CTRL+J".
Proof.
  rewrite (proj2 (overrides_survive_reload demo_state "search" keybinds_demo_reachable)).
  reflexivity.
Defined.
