(* ===== verification/Typing.v ===== *)
(** * The typing store ([store/typing.ts])

    Who is typing in which channel, each until an expiry time, and the interval that
    clears what has expired.  Times are milliseconds. *)

From S2P Require Export Prelude.

Record TypingState := {
  byChannel : gmap string (gmap string Z);
  cleanupInterval : bool;
}.

Definition startCleanupInterval (s : TypingState) : TypingState :=
  {| byChannel := byChannel s; cleanupInterval := true |}.
Definition stopCleanupInterval (s : TypingState) : TypingState :=
  {| byChannel := byChannel s; cleanupInterval := false |}.

(** [now] is [Date.now()]. *)
Definition setTyping (now : Z) (channelId userId : string) (s : TypingState) : TypingState :=
  let users := or_default ∅ (byChannel s !! channelId) in
  startCleanupInterval
    {| byChannel := <[channelId := <[userId := (now + 6000)%Z]> users]> (byChannel s);
       cleanupInterval := cleanupInterval s |}.

Definition clearUser (channelId userId : string) (s : TypingState) : TypingState :=
  match byChannel s !! channelId with
  | None => s
  | Some users =>
      let users := delete userId users in
      {| byChannel := if decide (users = ∅) then delete channelId (byChannel s)
           else <[channelId := users]> (byChannel s);
         cleanupInterval := cleanupInterval s |}
  end.

(** The loop over the channels: drop the expired users, then the empty channels. *)
Definition unexpired (now : Z) (users : gmap string Z) : gmap string Z :=
  filter (λ kv, ¬ (kv.2 < now)%Z) users.
Definition clearExpired (now : Z) (s : TypingState) : TypingState :=
  let m := filter (λ kv, kv.2 ≠ ∅) (unexpired now <$> byChannel s) in
  let s := {| byChannel := m; cleanupInterval := cleanupInterval s |} in
  if decide (m = ∅) then stopCleanupInterval s else s.

Definition clearChannel (channelId : string) (s : TypingState) : TypingState :=
  let m := delete channelId (byChannel s) in
  let s := {| byChannel := m; cleanupInterval := cleanupInterval s |} in
  if decide (m = ∅) then stopCleanupInterval s else s.

Definition reset (s : TypingState) : TypingState :=
  stopCleanupInterval {| byChannel := ∅; cleanupInterval := cleanupInterval s |}.

(** ** The system: the store and the clock

    [Tick] lets time pass; [Interval] is the callback of the interval, which only runs
    while the interval is set. *)

Record TypingSystem := { store : TypingState; clock : Z }.

Inductive action :=
  | SetTyping (channelId userId : string)
  | ClearUser (channelId userId : string)
  | ClearChannel (channelId : string)
  | Interval
  | Tick (ms : Z)
  | Reset.

Definition perform (a : action) (s : TypingSystem) : TypingSystem :=
  match a with
  | Tick ms => {| store := store s; clock := (clock s + ms)%Z |}
  | SetTyping c u => {| store := setTyping (clock s) c u (store s); clock := clock s |}
  | ClearUser c u => {| store := clearUser c u (store s); clock := clock s |}
  | ClearChannel c => {| store := clearChannel c (store s); clock := clock s |}
  | Interval => {| store := clearExpired (clock s) (store s); clock := clock s |}
  | Reset => {| store := reset (store s); clock := clock s |}
  end.

Definition args_ok (a : action) (s : TypingSystem) : Prop :=
  match a with
  | Tick ms => (0 ≤ ms)%Z
  | Interval => cleanupInterval (store s) = true
  | _ => True
  end.

#[export] Instance typing_store : Store TypingSystem action :=
  {| initial := {| store := {| byChannel := ∅; cleanupInterval := false |}; clock := 0 |};
     exec := perform; admissible := args_ok |}.

Definition expiry (s : TypingState) (c u : string) : option Z :=
  byChannel s !! c ≫= (.!! u).

Record well_formed (s : TypingSystem) : Prop := {
  wf_nonempty : map_Forall (λ _ users, users ≠ ∅) (byChannel (store s));
  wf_interval : byChannel (store s) ≠ ∅ → cleanupInterval (store s) = true;
  wf_expiry : ∀ c u t, expiry (store s) c u = Some t → (t ≤ clock s + 6000)%Z;
}.

Lemma expiry_setTyping now c u s c' u' :
  expiry (setTyping now c u s) c' u' =
    if decide (c' = c ∧ u' = u) then Some (now + 6000)%Z else expiry s c' u'.
Proof.
  unfold expiry, setTyping; simpl. rewrite lookup_insert.
  destruct (decide (c = c')) as [<-|Hc]; simpl.
  - rewrite lookup_insert. destruct (decide (u = u')) as [<-|].
    + by rewrite decide_True.
    + rewrite decide_False by naive_solver. by destruct (byChannel s !! c).
  - by rewrite decide_False by naive_solver.
Qed.
Lemma expiry_clearUser c u s c' u' :
  expiry (clearUser c u s) c' u' =
    if decide (c' = c ∧ u' = u) then None else expiry s c' u'.
Proof.
  unfold expiry, clearUser. destruct (byChannel s !! c) as [users|] eqn:E; simpl.
  - destruct (decide (c' = c)) as [->|Hc].
    + assert (H : (if decide (delete u users = ∅) then delete c (byChannel s)
          else <[c := delete u users]> (byChannel s)) !! c ≫= (.!! u') = delete u users !! u').
      { case_decide as Hd; [rewrite Hd, lookup_delete_eq, lookup_empty|rewrite lookup_insert_eq]; done. }
      rewrite H, E. clear H. simpl. rewrite lookup_delete.
      repeat case_decide; intuition congruence.
    + rewrite (decide_False (P := c' = c ∧ u' = u)) by tauto. case_decide;
        [by rewrite lookup_delete_ne|by rewrite lookup_insert_ne].
  - case_decide as Hd; [|done]. destruct Hd as [-> ->]. by rewrite E.
Qed.
Lemma clearExpired_lookup now s c :
  byChannel (clearExpired now s) !! c =
    (byChannel s !! c ≫= λ users,
      if decide (unexpired now users = ∅) then None else Some (unexpired now users)).
Proof.
  assert (H : byChannel (clearExpired now s) =
    filter (λ kv, kv.2 ≠ ∅) (unexpired now <$> byChannel s))
    by (unfold clearExpired; by case_decide).
  rewrite H. apply option_eq. intros users. rewrite map_lookup_filter_Some, lookup_fmap.
  destruct (byChannel s !! c); simpl; [|naive_solver].
  case_decide; naive_solver.
Qed.
Lemma expiry_clearExpired now s c u :
  expiry (clearExpired now s) c u =
    (expiry s c u ≫= λ t, if decide (t < now)%Z then None else Some t).
Proof.
  unfold expiry. rewrite clearExpired_lookup.
  destruct (byChannel s !! c) as [users|]; [|done]. simpl.
  assert (H : unexpired now users !! u =
    (users !! u ≫= λ t, if decide (t < now)%Z then None else Some t)).
  { apply option_eq. intros t. unfold unexpired. rewrite map_lookup_filter_Some. simpl.
    destruct (users !! u) as [t0|]; simpl; [|naive_solver]. case_decide; naive_solver. }
  case_decide as Hd; simpl; rewrite <-H; [|done]. by rewrite Hd, lookup_empty.
Qed.
Lemma expiry_clearChannel c s c' u' :
  expiry (clearChannel c s) c' u' = if decide (c' = c) then None else expiry s c' u'.
Proof.
  assert (H : byChannel (clearChannel c s) = delete c (byChannel s))
    by (unfold clearChannel; by case_decide).
  unfold expiry. rewrite H, lookup_delete. repeat case_decide; naive_solver.
Qed.

Lemma typing_perform_wf a s : args_ok a s → well_formed s → well_formed (perform a s).
Proof.
  intros Ha [Hn Hi He]. destruct a as [c u|c u|c| |ms|].
  - split; simpl.
    + apply map_Forall_insert_2; [apply insert_non_empty|done].
    + done.
    + intros c' u' t. rewrite expiry_setTyping. case_decide; [intros [= <-]; lia|apply He].
  - split; simpl.
    + unfold clearUser. destruct (byChannel (store s) !! c) eqn:E; [|done]. simpl.
      case_decide; [by apply map_Forall_delete|by apply map_Forall_insert_2].
    + unfold clearUser. destruct (byChannel (store s) !! c) eqn:E; [|done]. simpl.
      intros _. apply Hi. intros Hm. rewrite Hm, lookup_empty in E. done.
    + intros c' u' t. rewrite expiry_clearUser. case_decide; [done|apply He].
  - split; simpl.
    + unfold clearChannel. case_decide; by apply map_Forall_delete.
    + unfold clearChannel. case_decide as Hd; simpl; [done|]. intros _. apply Hi.
      intros Hm. apply Hd. rewrite Hm. apply delete_empty.
    + intros c' u' t. rewrite expiry_clearChannel. case_decide; [done|apply He].
  - split; simpl.
    + intros c users. rewrite clearExpired_lookup. intros (u0 & _ & Hu)%bind_Some.
      case_decide; naive_solver.
    + unfold clearExpired. case_decide as Hd; simpl; done.
    + intros c u t. rewrite expiry_clearExpired. intros (t0 & Ht0 & Ht)%bind_Some.
      case_decide; [done|]. simplify_eq. by apply He in Ht0.
  - split; simpl; [done..|]. intros c u t Ht%He. simpl in Ha. lia.
  - split; simpl; [apply map_Forall_empty|done|]. intros c u t. unfold expiry. simpl.
    by rewrite lookup_empty.
Qed.

Lemma typing_reachable_wf s : reachable s → well_formed s.
Proof.
  revert s. apply reachable_invariant; [|intros a s; apply typing_perform_wf].
  split; simpl; [apply map_Forall_empty|done|]. intros c u t. unfold expiry. simpl.
  by rewrite lookup_empty.
Qed.

(** a typing indicator does not get stuck: while any is shown the clean-up interval
    is set; none is due later than six seconds from now; the first interval callback
    after its expiry removes it and keeps those that have not expired; no channel is
    left without users. *)
Theorem typing_expires s c u t :
  reachable s → expiry (store s) c u = Some t →
  cleanupInterval (store s) = true ∧ (t ≤ clock s + 6000)%Z ∧
  (∀ ms, (clock s + ms > t)%Z →
     expiry (store (perform Interval (perform (Tick ms) s))) c u = None) ∧
  (∀ ms, (clock s + ms ≤ t)%Z →
     expiry (store (perform Interval (perform (Tick ms) s))) c u = Some t) ∧
  map_Forall (λ _ users, users ≠ ∅) (byChannel (store s)).
Proof.
  intros [Hn Hi He]%typing_reachable_wf Hx. split; [|split; [by eapply He|split; [|split; [|done]]]].
  - apply Hi. intros Hm. unfold expiry in Hx. by rewrite Hm, lookup_empty in Hx.
  - intros ms Hms. simpl. rewrite expiry_clearExpired, Hx. simpl. rewrite decide_True by lia. done.
  - intros ms Hms. simpl. rewrite expiry_clearExpired, Hx. simpl. rewrite decide_False by lia. done.
Qed.

Definition demo_state : TypingSystem := run [SetTyping "c" "u"; Tick 100] initial.

Lemma typing_expires_witness :
  expiry (store demo_state) "c" "u" = Some 6000%Z ∧
  expiry (store (perform Interval (perform (Tick 7000) demo_state))) "c" "u" = None.
Proof.
  split; [reflexivity|].
  apply (typing_expires demo_state "c" "u" 6000); [|reflexivity|simpl; lia].
  apply reachable_run. split; [exact I|]. split; [|exact I]. simpl. lia.
Defined.
