(* ===== verification/VoiceParticipants.v ===== *)
(** * The voice stores ([store/voice.ts], [store/voiceParticipants.ts])

    The connection of the local user and the participants of each voice channel. *)

From S2P Require Export ServerLists.

(** ** Participants *)

Record VoiceChannelParticipant := {
  userId : string;
  isMuted : bool;
  p_isDeafened : bool;
  isStreamingVideo : bool;
  isEncrypted : bool;
}.

Record VoiceParticipantsState := { byChannel : gmap string (list VoiceChannelParticipant) }.

(** [Partial<Omit<VoiceChannelParticipant, 'userId'>>] *)
Record Patch := {
  patch_isMuted : option bool;
  patch_isDeafened : option bool;
  patch_isStreamingVideo : option bool;
  patch_isEncrypted : option bool;
}.

(** [Object.assign(p, patch)] *)
Definition assign (patch : Patch) (p : VoiceChannelParticipant) : VoiceChannelParticipant :=
  {| userId := userId p;
     isMuted := or_default (isMuted p) (patch_isMuted patch);
     p_isDeafened := or_default (p_isDeafened p) (patch_isDeafened patch);
     isStreamingVideo := or_default (isStreamingVideo p) (patch_isStreamingVideo patch);
     isEncrypted := or_default (isEncrypted p) (patch_isEncrypted patch) |}.

Definition on_byChannel f (s : VoiceParticipantsState) : VoiceParticipantsState :=
  {| byChannel := f (byChannel s) |}.

Definition setParticipants (channelId : string) (ps : list VoiceChannelParticipant)
    : VoiceParticipantsState → VoiceParticipantsState := on_byChannel <[channelId := ps]>.

Definition upsertParticipant (channelId : string) (p : VoiceChannelParticipant)
    (s : VoiceParticipantsState) : VoiceParticipantsState :=
  match byChannel s !! channelId with
  | None => on_byChannel <[channelId := [p]]> s
  | Some list =>
      on_byChannel <[channelId :=
        match index_key userId (userId p) list with
        | Some idx => <[idx := p]> list
        | None => list ++ [p]
        end]> s
  end.

Definition removeParticipant (channelId uid : string)
    : VoiceParticipantsState → VoiceParticipantsState :=
  on_byChannel (alter (splice_key userId uid) channelId).

Definition updateParticipant (channelId uid : string) (patch : Patch)
    : VoiceParticipantsState → VoiceParticipantsState :=
  on_byChannel (alter (modify_key userId uid (assign patch)) channelId).

Definition clearChannel (channelId : string) : VoiceParticipantsState → VoiceParticipantsState :=
  on_byChannel (delete channelId).
Definition clearAll (s : VoiceParticipantsState) : VoiceParticipantsState := {| byChannel := ∅ |}.

Inductive action :=
  | SetParticipants (c : string) (ps : list VoiceChannelParticipant)
  | UpsertParticipant (c : string) (p : VoiceChannelParticipant)
  | RemoveParticipant (c uid : string)
  | UpdateParticipant (c uid : string) (patch : Patch)
  | ClearChannel (c : string)
  | ClearAll.

Definition perform (a : action) : VoiceParticipantsState → VoiceParticipantsState :=
  match a with
  | SetParticipants c ps => setParticipants c ps
  | UpsertParticipant c p => upsertParticipant c p
  | RemoveParticipant c u => removeParticipant c u
  | UpdateParticipant c u patch => updateParticipant c u patch
  | ClearChannel c => clearChannel c
  | ClearAll => clearAll
  end.

Definition args_ok (a : action) (s : VoiceParticipantsState) : Prop :=
  match a with SetParticipants _ ps => NoDup (userId <$> ps) | _ => True end.

#[export] Instance participants_store : Store VoiceParticipantsState action :=
  {| initial := {| byChannel := ∅ |}; exec := perform; admissible := args_ok |}.

(** *** Specification: a table of participants by channel and user *)

Definition spec (a : action) (t : gmap string (gmap string VoiceChannelParticipant))
    : gmap string (gmap string VoiceChannelParticipant) :=
  match a with
  | SetParticipants c ps => spec_set userId c ps t
  | UpsertParticipant c p => <[c := <[userId p := p]> (or_default ∅ (t !! c))]> t
  | RemoveParticipant c u => spec_remove c u t
  | UpdateParticipant c u patch => alter (alter (assign patch) u) c t
  | ClearChannel c => delete c t
  | ClearAll => ∅
  end.

Definition state_ok (s : VoiceParticipantsState) : Prop :=
  map_Forall (λ _ l, NoDup (userId <$> l)) (byChannel s).

Definition upsert_list (p : VoiceChannelParticipant) (l : list VoiceChannelParticipant) :=
  match index_key userId (userId p) l with Some idx => <[idx := p]> l | None => l ++ [p] end.

Lemma upsert_list_spec p (l : list VoiceChannelParticipant) :
  NoDup (userId <$> l) →
  NoDup (userId <$> upsert_list p l) ∧
  build_index userId (upsert_list p l) = <[userId p := p]> (build_index userId l).
Proof.
  intros Hl. unfold upsert_list. destruct (index_key _ _ l) as [i|] eqn:E.
  - assert (Hr : <[i := p]> l = replace_key userId (userId p) p l)
      by (unfold replace_key; by rewrite E).
    rewrite Hr. split; [by apply NoDup_replace|].
    rewrite build_index_replace by done. apply map_eq. intros k.
    rewrite lookup_alter, lookup_insert. case_decide; [subst|done].
    destruct (build_index userId l !! userId p) eqn:Eb; [done|].
    apply build_index_None, (index_key_None userId) in Eb. congruence.
  - apply index_key_None in E. split; [|apply build_index_push].
    apply NoDup_push; [|done]. by apply has_key_false.
Qed.
Lemma build_index_modify u f (l : list VoiceChannelParticipant) :
  (∀ p, userId (f p) = userId p) → NoDup (userId <$> l) →
  build_index userId (modify_key userId u f l) = alter f u (build_index userId l).
Proof.
  intros Hf Hl. apply map_eq. intros k.
  assert (Hf' : ∀ p, userId p = u → userId (f p) = u) by (intros; by rewrite Hf).
  rewrite lookup_alter, !build_index_lookup, find_key_modify by eauto with meza.
  repeat case_decide; naive_solver.
Qed.

Lemma participants_perform_ok a s : args_ok a s → state_ok s → state_ok (perform a s).
Proof.
  intros Ha Hs. destruct a as [c ps|c p|c u|c u patch|c|]; simpl.
  - by apply map_Forall_insert_2.
  - unfold upsertParticipant. case_match eqn:E; (apply map_Forall_insert_2; [|done]).
    + by apply upsert_list_spec, (Hs _ _ E).
    + apply NoDup_singleton.
  - intros i l. simpl. rewrite lookup_alter. case_decide; [|apply Hs].
    intros (l0 & Hl0 & ->)%fmap_Some. apply NoDup_splice. by apply (Hs _ _ Hl0).
  - intros i l. simpl. rewrite lookup_alter. case_decide; [|apply Hs].
    intros (l0 & Hl0 & ->)%fmap_Some. apply NoDup_modify; [done|]. by apply (Hs _ _ Hl0).
  - by apply map_Forall_delete.
  - apply map_Forall_empty.
Qed.

Lemma participants_reachable_ok s : reachable s → state_ok s.
Proof.
  revert s. apply reachable_invariant; [apply map_Forall_empty|]. intros a s. apply participants_perform_ok.
Qed.

(** every action of the participant store does to the arrays what the specification
    does to a table of participants keyed by channel and user, and no user is in a
    channel twice. *)
Theorem participants_refine_table s a :
  reachable s → args_ok a s →
  table userId (byChannel (perform a s)) = spec a (table userId (byChannel s)) ∧
  map_Forall (λ _ l, NoDup (userId <$> l)) (byChannel (perform a s)).
Proof.
  intros Hs%participants_reachable_ok Ha. split; [|by apply participants_perform_ok].
  destruct a as [c ps|c p|c u|c u patch|c|]; simpl.
  - apply table_insert.
  - rewrite table_default. unfold upsertParticipant. destruct (byChannel s !! c) as [l|] eqn:E; simpl.
    + rewrite table_insert. f_equal. apply upsert_list_spec. by apply (Hs c).
    + rewrite table_insert. f_equal.
  - by apply table_splice.
  - apply map_eq. intros i. unfold table.
    rewrite lookup_fmap, !lookup_alter, !lookup_fmap. case_decide; [subst|done].
    destruct (byChannel s !! i) as [l|] eqn:E; [|done]. simpl. f_equal.
    apply build_index_modify; [done|]. by apply (Hs i).
  - apply table_delete.
  - apply fmap_empty.
Qed.

Definition demo_participant (id : string) : VoiceChannelParticipant :=
  {| userId := id; isMuted := false; p_isDeafened := false; isStreamingVideo := false;
     isEncrypted := true |}.
Definition demo_state : VoiceParticipantsState :=
  run [UpsertParticipant "c" (demo_participant "u")] initial.
Definition mute : Patch :=
  {| patch_isMuted := Some true; patch_isDeafened := None; patch_isStreamingVideo := None;
     patch_isEncrypted := None |}.

Lemma participants_demo_reachable : reachable demo_state.
Proof. apply reachable_run. by split. Qed.

Lemma participants_refine_table_witness :
  table userId (byChannel (perform (UpdateParticipant "c" "u" mute) demo_state)) =
    {["c" := {["u" := assign mute (demo_participant "u")]}]}.
Proof.
  rewrite (proj1 (participants_refine_table demo_state (UpdateParticipant "c" "u" mute)
    participants_demo_reachable I)). reflexivity.
Defined.

(** ** The connection *)

Inductive VoiceConnectionStatus := idle | connecting | connected | reconnecting.

Record VoiceState := {
  status : VoiceConnectionStatus;
  livekitUrl : option string;
  livekitToken : option string;
  channelId : option string;
  channelName : option string;
  canScreenShare : bool;
  v_error : option string;
  isDeafened : bool;
  preDeafenMuteState : bool;
}.

Definition voice_initial : VoiceState :=
  {| status := idle; livekitUrl := None; livekitToken := None; channelId := None;
     channelName := None; canScreenShare := false; v_error := None; isDeafened := false;
     preDeafenMuteState := false |}.

Definition setConnecting (cid name : string) (s : VoiceState) : VoiceState :=
  {| status := connecting; livekitUrl := None; livekitToken := None; channelId := Some cid;
     channelName := Some name; canScreenShare := canScreenShare s; v_error := None;
     isDeafened := isDeafened s; preDeafenMuteState := preDeafenMuteState s |}.
Definition setConnected (url token : string) (share : bool) (s : VoiceState) : VoiceState :=
  {| status := connected; livekitUrl := Some url; livekitToken := Some token;
     channelId := channelId s; channelName := channelName s; canScreenShare := share;
     v_error := v_error s; isDeafened := isDeafened s;
     preDeafenMuteState := preDeafenMuteState s |}.
Definition setReconnecting (s : VoiceState) : VoiceState :=
  {| status := reconnecting; livekitUrl := livekitUrl s; livekitToken := livekitToken s;
     channelId := channelId s; channelName := channelName s;
     canScreenShare := canScreenShare s; v_error := v_error s; isDeafened := isDeafened s;
     preDeafenMuteState := preDeafenMuteState s |}.
Definition disconnect (s : VoiceState) : VoiceState := voice_initial.
Definition setVoiceError (e : option string) (s : VoiceState) : VoiceState :=
  {| status := idle; livekitUrl := None; livekitToken := None; channelId := None;
     channelName := None; canScreenShare := false; v_error := e; isDeafened := false;
     preDeafenMuteState := false |}.
Definition setDeafened (b : bool) (s : VoiceState) : VoiceState :=
  {| status := status s; livekitUrl := livekitUrl s; livekitToken := livekitToken s;
     channelId := channelId s; channelName := channelName s;
     canScreenShare := canScreenShare s; v_error := v_error s; isDeafened := b;
     preDeafenMuteState := preDeafenMuteState s |}.
Definition setPreDeafenMuteState (b : bool) (s : VoiceState) : VoiceState :=
  {| status := status s; livekitUrl := livekitUrl s; livekitToken := livekitToken s;
     channelId := channelId s; channelName := channelName s;
     canScreenShare := canScreenShare s; v_error := v_error s; isDeafened := isDeafened s;
     preDeafenMuteState := b |}.
