(* ===== verification/Crypto.v ===== *)
(** * Bytes, and the cryptographic operations the client calls

    A [Uint8Array] is a list of octets.  Ed25519, X25519, HKDF and AES-GCM are not code
    of the client: they are the operations of an interface, with the documented facts
    the client relies on as its laws, and a toy instance that satisfies them. *)

From S2P Require Export Models.

Definition octet (b : Z) : Prop := (0 ≤ b < 256)%Z.
Definition octets : bytes → Prop := Forall octet.

(** [TextEncoder.encode]: a string is kept as its UTF-8 octets. *)
Fixpoint utf8 (s : string) : bytes :=
  match s with
  | EmptyString => []
  | String a s => Z.of_N (Ascii.N_of_ascii a) :: utf8 s
  end.
(** [TextDecoder.decode] of what [utf8] produced *)
Fixpoint from_utf8 (b : bytes) : string :=
  match b with
  | [] => EmptyString
  | x :: b => String (Ascii.ascii_of_N (Z.to_N x)) (from_utf8 b)
  end.

Lemma utf8_octets s : octets (utf8 s).
Proof.
  induction s as [|a s IH]; simpl; constructor; [|done].
  pose proof (Ascii.N_ascii_bounded a). unfold octet. lia.
Qed.
Lemma from_utf8_utf8 s : from_utf8 (utf8 s) = s.
Proof.
  induction s as [|a s IH]; simpl; [done|]. by rewrite N2Z.id, Ascii.ascii_N_embedding, IH.
Qed.
Lemma utf8_from_utf8 b : octets b → utf8 (from_utf8 b) = b.
Proof.
  induction 1 as [|x b Hx _ IH]; simpl; [done|]. unfold octet in Hx.
  rewrite Ascii.N_ascii_embedding by lia. rewrite IH. f_equal. lia.
Qed.
#[export] Instance utf8_inj : Inj (=) (=) utf8.
Proof. intros s s' E. by rewrite <-(from_utf8_utf8 s), E, from_utf8_utf8. Qed.

(** [DataView.setUint32] and [getUint32], big-endian *)
Definition u32be (n : Z) : bytes :=
  [Z.land (Z.shiftr n 24) 255; Z.land (Z.shiftr n 16) 255; Z.land (Z.shiftr n 8) 255;
   Z.land n 255].
Definition get_u32be (b : bytes) : option Z :=
  match b with
  | b0 :: b1 :: b2 :: b3 :: _ => Some (b0 * 2 ^ 24 + b1 * 2 ^ 16 + b2 * 2 ^ 8 + b3)%Z
  | _ => None
  end.

Lemma u32be_arith n :
  u32be n = [(n / 2 ^ 24) `mod` 256; (n / 2 ^ 16) `mod` 256; (n / 2 ^ 8) `mod` 256;
             n `mod` 256]%Z.
Proof.
  unfold u32be. rewrite !Z.shiftr_div_pow2 by lia.
  change 255%Z with (Z.ones 8). by rewrite !Z.land_ones by lia.
Qed.
Lemma get_u32be_u32be n rest :
  (0 ≤ n < 2 ^ 32)%Z → get_u32be (u32be n ++ rest) = Some n.
Proof.
  intros Hn. rewrite u32be_arith. cbn [app get_u32be]. f_equal.
  assert (E : ∀ a, (a = 256 * (a / 256) + a `mod` 256)%Z) by (intros; apply Z.div_mod; lia).
  replace (n / 2 ^ 24)%Z with (n / 256 / 256 / 256)%Z by (by rewrite !Z.div_div by lia).
  replace (n / 2 ^ 16)%Z with (n / 256 / 256)%Z by (by rewrite !Z.div_div by lia).
  change (2 ^ 8)%Z with 256%Z.
  assert (H : (n / 256 / 256 / 256 < 256)%Z).
  { rewrite !Z.div_div by lia. apply Z.div_lt_upper_bound; lia. }
  assert (H0 : (0 ≤ n / 256 / 256 / 256)%Z) by (repeat apply Z.div_pos; lia).
  rewrite (Z.mod_small (n / 256 / 256 / 256)) by lia.
  pose proof (E n). pose proof (E (n / 256)%Z). pose proof (E (n / 256 / 256)%Z). lia.
Qed.
Lemma u32be_length n : length (u32be n) = 4.
Proof. done. Qed.
Lemma u32be_octets n : octets (u32be n).
Proof.
  rewrite u32be_arith. repeat constructor; unfold octet; apply Z.mod_pos_bound; lia.
Qed.

(** [bytes.slice(i, j)] *)
Definition slice (i j : nat) (b : bytes) : bytes := take (j - i) (drop i b).
Lemma slice_app_l (b b' : bytes) : slice 0 (length b) (b ++ b') = b.
Proof. unfold slice. by rewrite drop_0, Nat.sub_0_r, take_app_length. Qed.

(** ** The operations of the libraries *)

Class Crypto := {
  (** @noble/curves: ed25519 and x25519 *)
  ed_public : bytes → bytes;
  ed_sign : bytes → bytes → bytes;
  ed_verify : bytes → bytes → bytes → result unit bool;
  to_montgomery : bytes → result string bytes;
  to_montgomery_secret : bytes → bytes;
  x_public : bytes → bytes;
  x_shared : bytes → bytes → result string bytes;
  (** Web Crypto: HKDF-SHA256 of input, salt and info, to 32 bytes *)
  hkdf : bytes → bytes → bytes → bytes;
  (** Web Crypto: AES-256-GCM under a key, a nonce and additional data *)
  gcm_encrypt : bytes → bytes → bytes → bytes → bytes;
  gcm_decrypt : bytes → bytes → bytes → bytes → result string bytes;
}.

(** What the documentation of these operations says and the client relies on. *)
Class CryptoLaws `{Crypto} : Prop := {
  ed_sign_length : ∀ sk m, length (ed_sign sk m) = 64;
  ed_verify_sign : ∀ sk m, ed_verify (ed_public sk) (ed_sign sk m) m = Ok true;
  x_public_length : ∀ sk, length (x_public sk) = 32;
  ed_public_length : ∀ sk, length (ed_public sk) = 32;
  to_montgomery_length : ∀ pk m, to_montgomery pk = Ok m → length m = 32;
  to_montgomery_public : ∀ sk,
    to_montgomery (ed_public sk) = Ok (x_public (to_montgomery_secret sk));
  x_shared_comm : ∀ a b, x_shared a (x_public b) = x_shared b (x_public a);
  gcm_length : ∀ k iv a p, length (gcm_encrypt k iv a p) = length p + 16;
  gcm_octets : ∀ k iv a p, octets p → octets (gcm_encrypt k iv a p);
  (** Decryption inverts encryption, and accepts nothing else. *)
  gcm_decrypt_encrypt : ∀ k iv a p, gcm_decrypt k iv a (gcm_encrypt k iv a p) = Ok p;
  gcm_decrypt_Ok : ∀ k iv a c p, gcm_decrypt k iv a c = Ok p → c = gcm_encrypt k iv a p;
}.

(** A toy instance: the tag is a checksum of everything, a signature one of the key
    and the message, and all parties share one exchange key. *)
Definition checksum (b : bytes) : Z := (foldr Z.add 0 b `mod` 256)%Z.
Definition toy_tag (k iv a p : bytes) : bytes := replicate 16 (checksum (k ++ iv ++ a ++ p)).
Definition toy_public (sk : bytes) : bytes := replicate 32 (checksum sk).
Definition toy_signature (pk m : bytes) : bytes := replicate 64 (checksum (pk ++ m)).

#[local] Instance bytes_eq_dec : EqDecision bytes := _.

Definition toy : Crypto :=
  {| ed_public := toy_public;
     ed_sign := λ sk m, toy_signature (toy_public sk) m;
     ed_verify := λ pk sig m, Ok (bool_decide (sig = toy_signature pk m));
     to_montgomery := λ _, Ok (replicate 32 9%Z);
     to_montgomery_secret := λ sk, sk;
     x_public := λ _, replicate 32 9%Z;
     x_shared := λ _ _, Ok (replicate 32 7%Z);
     hkdf := λ ikm salt info, replicate 32 (checksum (ikm ++ salt ++ info));
     gcm_encrypt := λ k iv a p, p ++ toy_tag k iv a p;
     gcm_decrypt := λ k iv a c,
       let p := take (length c - 16) c in
       if decide (c = p ++ toy_tag k iv a p) then Ok p else Throw "OperationError" |}.

Lemma toy_laws : @CryptoLaws toy.
Proof.
  split; simpl; try (intros; apply length_replicate); try done.
  - intros sk m. by rewrite bool_decide_eq_true_2.
  - intros pk m [= <-]. done.
  - intros. rewrite length_app. unfold toy_tag. by rewrite length_replicate.
  - intros. apply Forall_app. split; [done|]. apply Forall_replicate.
    apply Z.mod_pos_bound. lia.
  - intros k iv a p.
    assert (E : take (length (p ++ toy_tag k iv a p) - 16) (p ++ toy_tag k iv a p) = p).
    { rewrite length_app. unfold toy_tag. rewrite length_replicate, Nat.add_sub.
      by rewrite take_app_length. }
    rewrite E. by rewrite decide_True.
  - intros k iv a c p. case_decide as E; [|done]. by intros [= <-].
Qed.
