(* ===== verification/Base64.v ===== *)
(** * Base64: [btoa] and [atob]

    The two functions of the platform, between octets and text, and that [atob] reads
    what [btoa] wrote.  A binary string is the list of its octets. *)

From Stdlib Require Import String.
From S2P Require Export Crypto.

(** The digit of a sextet, and the sextet of a digit *)
Definition b64_char (i : Z) : Ascii.ascii :=
  Ascii.ascii_of_N (Z.to_N
    (if i <? 26 then 65 + i else if i <? 52 then 71 + i else if i <? 62 then i - 4
     else if i =? 62 then 43 else 47))%Z.
Definition b64_value (a : Ascii.ascii) : option Z :=
  let n := Z.of_N (Ascii.N_of_ascii a) in
  (if (65 <=? n) && (n <=? 90) then Some (n - 65)
   else if (97 <=? n) && (n <=? 122) then Some (n - 71)
   else if (48 <=? n) && (n <=? 57) then Some (n + 4)
   else if n =? 43 then Some 62
   else if n =? 47 then Some 63
   else None)%Z.
Definition equals_sign : Ascii.ascii := Ascii.ascii_of_nat 61.

(** Octets as sextets, the last one filled with zeros, and back *)
Fixpoint sextets (b : bytes) : list Z :=
  match b with
  | [] => []
  | [x] => [x / 4; x `mod` 4 * 16]
  | [x; y] => [x / 4; x `mod` 4 * 16 + y / 16; y `mod` 16 * 4]
  | x :: y :: z :: b =>
      x / 4 :: x `mod` 4 * 16 + y / 16 :: y `mod` 16 * 4 + z / 64 :: z `mod` 64 :: sextets b
  end%Z.
Fixpoint unsextets (l : list Z) : bytes :=
  match l with
  | s0 :: s1 :: s2 :: s3 :: l =>
      s0 * 4 + s1 / 16 :: s1 `mod` 16 * 16 + s2 / 4 :: s2 `mod` 4 * 64 + s3 :: unsextets l
  | [s0; s1; s2] => [s0 * 4 + s1 / 16; s1 `mod` 16 * 16 + s2 / 4]
  | [s0; s1] => [s0 * 4 + s1 / 16]
  | _ => []
  end%Z.

Definition padding (b : bytes) : list Ascii.ascii :=
  match length b `mod` 3 with
  | 1 => [equals_sign; equals_sign]
  | 2 => [equals_sign]
  | _ => []
  end.
Definition btoa (b : bytes) : string :=
  string_of_list_ascii ((b64_char <$> sextets b) ++ padding b).

(** ASCII white space, which [atob] skips *)
Definition b64_space (a : Ascii.ascii) : bool :=
  let n := Ascii.nat_of_ascii a in (n =? 32) || (n =? 9) || (n =? 10) || (n =? 12) || (n =? 13).
(** At most two trailing equals signs are removed. *)
Definition unpad (l : list Ascii.ascii) : list Ascii.ascii :=
  match reverse l with
  | a :: b :: r =>
      if decide (a = equals_sign) then
        if decide (b = equals_sign) then reverse r else reverse (b :: r)
      else l
  | _ => l
  end.
Definition atob (s : string) : result string bytes :=
  let l := filter (λ a, b64_space a = false) (list_ascii_of_string s) in
  let l := if decide (length l `mod` 4 = 0) then unpad l else l in
  if decide (length l `mod` 4 = 1) then Throw "InvalidCharacterError"
  else match mapM b64_value l with
       | Some values => Ok (unsextets values)
       | None => Throw "InvalidCharacterError"
       end.

(** ** The round trip *)

Lemma three_ind (P : bytes → Prop) :
  P [] → (∀ x, P [x]) → (∀ x y, P [x; y]) →
  (∀ x y z b, P b → P (x :: y :: z :: b)) → ∀ b, P b.
Proof.
  intros H0 H1 H2 H3. fix IH 1.
  intros [|x [|y [|z b]]]; [exact H0|apply H1|apply H2|apply H3, IH].
Qed.

Lemma b64_value_char i : (0 ≤ i < 64)%Z →
  b64_value (b64_char i) = Some i ∧ b64_space (b64_char i) = false ∧ b64_char i ≠ equals_sign.
Proof.
  intros Hi.
  assert (H : Forall (λ i, b64_value (b64_char i) = Some i ∧ b64_space (b64_char i) = false ∧
    b64_char i ≠ equals_sign) (seqZ 0 64)).
  { apply (bool_decide_unpack _). vm_compute. exact I. }
  rewrite Forall_forall in H. apply H, elem_of_seqZ. lia.
Qed.

Lemma sextets_range b : octets b → Forall (λ s, 0 ≤ s < 64)%Z (sextets b).
Proof.
  induction b as [|x|x y|x y z b IH] using three_ind; intros Hb; unfold octets in *;
    repeat match goal with H : Forall octet (_ :: _) |- _ => apply Forall_cons in H as [? ?] end;
    unfold octet in *; cbn [sextets]; repeat (apply Forall_cons; split);
    try (Z.div_mod_to_equations; lia); auto using Forall_nil_2.
Qed.
Lemma unsextets_sextets b : octets b → unsextets (sextets b) = b.
Proof.
  induction b as [|x|x y|x y z b IH] using three_ind; intros Hb; unfold octets in *;
    repeat match goal with H : Forall octet (_ :: _) |- _ => apply Forall_cons in H as [? ?] end;
    unfold octet in *; cbn [sextets unsextets]; [done|..|rewrite IH by done];
    repeat (f_equal; try (Z.div_mod_to_equations; lia)).
Qed.

Lemma sextets_padding b :
  length (sextets b) `mod` 4 = 4 - length (padding b) ∨
  (length (sextets b) `mod` 4 = 0 ∧ padding b = []).
Proof.
  induction b as [|x|x y|x y z b IH] using three_ind; [by right|by left|by left|].
  assert (E1 : length (sextets (x :: y :: z :: b)) `mod` 4 = length (sextets b) `mod` 4).
  { cbn [sextets length]. replace (S _) with (length (sextets b) + 1 * 4) by lia.
    by rewrite Nat.Div0.mod_add. }
  assert (E2 : padding (x :: y :: z :: b) = padding b).
  { unfold padding. cbn [length]. replace (S _) with (length b + 1 * 3) by lia.
    by rewrite Nat.Div0.mod_add. }
  by rewrite E1, E2.
Qed.

Lemma unpad_padding l b :
  Forall (λ a, a ≠ equals_sign) l → (2 ≤ length l ∨ l = [] ∧ padding b = []) →
  unpad (l ++ padding b) = l.
Proof.
  intros Hl Hlen. unfold unpad. rewrite reverse_app.
  assert (Hrev : Forall (λ a, a ≠ equals_sign) (reverse l)) by by apply Forall_reverse.
  assert (Hlr : length (reverse l) = length l) by apply length_reverse.
  unfold padding. destruct (length b `mod` 3) as [|[|[|?]]] eqn:E; simpl;
    unfold padding in Hlen; rewrite E in Hlen; rewrite ?app_nil_r.
  - destruct (reverse l) as [|a [|c r]]; [done..|].
    apply Forall_cons in Hrev as [Ha _]. by rewrite decide_False.
  - apply reverse_involutive.
  - destruct Hlen as [Hlen|[_ [=]]].
    destruct (reverse l) as [|a r] eqn:Er; [simpl in *; lia|].
    apply Forall_cons in Hrev as [Ha _]. rewrite decide_False by done.
    by rewrite <-Er, reverse_involutive.
  - pose proof (Nat.mod_upper_bound (length b) 3). lia.
Qed.

Lemma sextets_length b : 2 ≤ length (sextets b) ∨ (sextets b = [] ∧ padding b = []).
Proof. destruct b as [|x [|y [|z b]]]; simpl; auto with lia. Qed.

(** [atob] gives back the octets that [btoa] encoded. *)
Lemma atob_btoa b : octets b → atob (btoa b) = Ok b.
Proof.
  intros Hb. unfold atob, btoa. rewrite list_ascii_of_string_of_list_ascii.
  pose proof (sextets_range b Hb) as Hs.
  assert (Hf : filter (λ a, b64_space a = false) ((b64_char <$> sextets b) ++ padding b) =
    (b64_char <$> sextets b) ++ padding b).
  { apply filter_all. rewrite Forall_app. split.
    - apply Forall_fmap. eapply Forall_impl; [exact Hs|].
      intros s ?. by apply b64_value_char.
    - unfold padding. destruct (length b `mod` 3) as [|[|[|?]]]; repeat constructor. }
  rewrite Hf. clear Hf. set (l := b64_char <$> sextets b).
  assert (Hl : length l = length (sextets b)) by apply length_fmap.
  assert (Hlen : 2 ≤ length l ∨ l = [] ∧ padding b = []).
  { rewrite Hl. destruct (sextets_length b) as [?|[E ?]]; [by left|right].
    unfold l. by rewrite E. }
  assert (Hne : Forall (λ a, a ≠ equals_sign) l).
  { apply Forall_fmap. eapply Forall_impl; [exact Hs|]. intros s ?. by apply b64_value_char. }
  assert (H4 : length (l ++ padding b) `mod` 4 = 0).
  { rewrite length_app, Hl. destruct (sextets_padding b) as [E|[E ->]];
      [|by rewrite Nat.add_0_r].
    assert (length (padding b) = 1 ∨ length (padding b) = 2) as Hp.
    { unfold padding in *. pose proof (Nat.mod_upper_bound (length (sextets b)) 4).
      destruct (length b `mod` 3) as [|[|[|?]]]; simpl in *; lia. }
    rewrite Nat.Div0.add_mod, E. by destruct Hp as [-> | ->]. }
  rewrite !(decide_True (P := length (l ++ padding b) `mod` 4 = 0)) by done.
  rewrite (unpad_padding l b Hne Hlen).
  assert (H1 : length l `mod` 4 ≠ 1).
  { rewrite Hl. destruct (sextets_padding b) as [E|[E _]]; rewrite E; [|done].
    unfold padding. destruct (length b `mod` 3) as [|[|[|?]]]; simpl; lia. }
  rewrite decide_False by done.
  assert (Hm : mapM b64_value l = Some (sextets b)).
  { apply mapM_Some. unfold l. clear -Hs. induction Hs as [|s ss Hs' Hss IH]; constructor; [|done].
    by apply b64_value_char. }
  by rewrite Hm, unsextets_sextets.
Qed.

Lemma btoa_nonempty b : octets b → b ≠ [] → btoa b ≠ "".
Proof.
  intros Hb Hne E. apply Hne. pose proof (atob_btoa b Hb) as H. rewrite E in H.
  by injection H.
Qed.

#[export] Hint Resolve atob_btoa : meza.

Example btoa_man : btoa (utf8 "Man") = "TWFu" ∧ btoa (utf8 "Ma") = "TWE=" ∧ btoa (utf8 "M") = "TQ==" ∧
  atob "TW Fu" = Ok (utf8 "Man") ∧ atob "T" = Throw "InvalidCharacterError".
Proof. repeat split; vm_compute; reflexivity. Qed.
