(* ===== verification/Aad.v ===== *)
(** * Additional authenticated data ([crypto/aad.ts])

    The octets that bind a ciphertext to its purpose, its channel and its key version
    or recipient.  They have a fixed width, so that no two contexts share them. *)

From S2P Require Export Crypto.

Definition PURPOSE_MESSAGE : Z := 1.
Definition PURPOSE_KEY_WRAP : Z := 2.
Definition PURPOSE_FILE_KEY : Z := 3.

Definition ULID_LENGTH : nat := 26.

(** The key version is an integer; the code also rejects other numbers here. *)
Definition buildContextAAD (purpose : Z) (channelId : string) (keyVersion : Z)
    : result string bytes :=
  if (keyVersion <? 0)%Z || (4294967295 <? keyVersion)%Z then Throw "keyVersion must be a uint32"
  else
    let encoded := utf8 channelId in
    if decide (length encoded ≠ ULID_LENGTH) then Throw "channelId must be 26 bytes"
    else Ok ([purpose] ++ encoded ++ u32be keyVersion).

Definition buildKeyWrapAAD (channelId : string) (recipientEdPub : bytes)
    : result string bytes :=
  let encoded := utf8 channelId in
  if decide (length encoded ≠ ULID_LENGTH) then Throw "channelId must be 26 bytes"
  else if decide (length recipientEdPub ≠ 32) then Throw "recipientEdPub must be 32 bytes"
  else Ok ([PURPOSE_KEY_WRAP] ++ encoded ++ recipientEdPub).

Lemma buildContextAAD_Ok p c v aad :
  buildContextAAD p c v = Ok aad ↔
    (0 ≤ v < 2 ^ 32)%Z ∧ length (utf8 c) = 26 ∧ aad = [p] ++ utf8 c ++ u32be v.
Proof.
  unfold buildContextAAD. destruct (orb _ _) eqn:E.
  - split; [done|]. apply orb_true_iff in E. lia.
  - apply orb_false_iff in E as [E1 E2]. case_decide as Hl; unfold ULID_LENGTH in Hl.
    + naive_solver.
    + split; [|naive_solver]. intros [= <-]. split; [lia|]. split; [|done].
      destruct (decide (length (utf8 c) = 26)); naive_solver.
Qed.
Lemma buildKeyWrapAAD_Ok c r aad :
  buildKeyWrapAAD c r = Ok aad ↔
    length (utf8 c) = 26 ∧ length r = 32 ∧ aad = [PURPOSE_KEY_WRAP] ++ utf8 c ++ r.
Proof.
  unfold buildKeyWrapAAD, ULID_LENGTH. repeat case_decide; naive_solver lia.
Qed.

(** the additional data determines the context: two successful builds with the same
    result have the same purpose, channel and key version (or recipient), and a
    context AAD, 31 octets, is never a key-wrap AAD, which has 59. *)
Theorem aad_injective p p' c c' v v' r r' aad :
  (buildContextAAD p c v = Ok aad → buildContextAAD p' c' v' = Ok aad →
     p = p' ∧ c = c' ∧ v = v' ∧ length aad = 31) ∧
  (buildKeyWrapAAD c r = Ok aad → buildKeyWrapAAD c' r' = Ok aad →
     c = c' ∧ r = r' ∧ length aad = 59) ∧
  (buildContextAAD p c v = Ok aad → buildKeyWrapAAD c' r' ≠ Ok aad).
Proof.
  split; [|split].
  - intros (Hv & Hl & E)%buildContextAAD_Ok (Hv' & Hl' & E')%buildContextAAD_Ok.
    rewrite E in E'. injection E' as -> E'. apply app_inj_1 in E' as [Hc Hb]; [|congruence].
    apply (inj utf8) in Hc as ->. split; [done|]. split; [done|].
    assert (Hg : get_u32be (u32be v ++ []) = get_u32be (u32be v' ++ []))
      by (unfold u32be in *; simpl; congruence).
    rewrite !get_u32be_u32be in Hg by done. injection Hg as ->. split; [done|].
    rewrite E. simpl. rewrite length_app, Hl. done.
  - intros (Hl & Hr & E)%buildKeyWrapAAD_Ok (Hl' & Hr' & E')%buildKeyWrapAAD_Ok.
    rewrite E in E'. injection E' as E'. apply app_inj_1 in E' as [Hc Hb]; [|congruence].
    apply (inj utf8) in Hc as ->. split; [done|]. split; [done|].
    rewrite E. simpl. rewrite length_app, Hl, Hr. done.
  - intros (Hv & Hl & E)%buildContextAAD_Ok (Hl' & Hr' & E')%buildKeyWrapAAD_Ok.
    apply (f_equal length) in E, E'. simpl in *. rewrite !length_app in *. simpl in *. lia.
Qed.

(** the builders succeed exactly on a 26-octet channel id and a uint32 key version
    or a 32-octet recipient key, and throw on everything else. *)
Theorem aad_defined p c v r :
  (is_Some (result_opt (buildContextAAD p c v)) ↔
     length (utf8 c) = 26 ∧ (0 ≤ v ≤ 4294967295)%Z) ∧
  (is_Some (result_opt (buildKeyWrapAAD c r)) ↔ length (utf8 c) = 26 ∧ length r = 32).
Proof.
  split.
  - destruct (buildContextAAD p c v) as [aad|e] eqn:E; simpl.
    + apply buildContextAAD_Ok in E as (Hv & Hl & _).
      split; [intros _; split; [done|lia]|eauto].
    + split; [by intros []|]. intros [Hl Hv].
      enough (buildContextAAD p c v = Ok ([p] ++ utf8 c ++ u32be v)) by congruence.
      apply buildContextAAD_Ok. split; [lia|done].
  - destruct (buildKeyWrapAAD c r) as [aad|e] eqn:E; simpl.
    + apply buildKeyWrapAAD_Ok in E as (Hl & Hr & _). split; eauto.
    + split; [by intros []|]. intros [Hl Hr].
      enough (buildKeyWrapAAD c r = Ok ([PURPOSE_KEY_WRAP] ++ utf8 c ++ r)) by congruence.
      by apply buildKeyWrapAAD_Ok.
Qed.

Definition demo_channel : string := "01ARZ3NDEKTSV4RRFFQ69G5FAV".

Lemma aad_injective_witness :
  ∃ aad, buildContextAAD PURPOSE_MESSAGE demo_channel 258 = Ok aad ∧ length aad = 31 ∧
    buildKeyWrapAAD demo_channel (replicate 32 5%Z) ≠ Ok aad.
Proof.
  eexists. split; [reflexivity|].
  pose proof (aad_injective PURPOSE_MESSAGE PURPOSE_MESSAGE demo_channel demo_channel 258 258
    (replicate 32 5%Z) (replicate 32 5%Z)
    ([PURPOSE_MESSAGE] ++ utf8 demo_channel ++ u32be 258)) as (H1 & _ & H3).
  split; [apply H1; reflexivity|apply H3; reflexivity].
Defined.
