(* ===== verification/Primitives.v ===== *)
(** * Cryptographic primitives ([crypto/primitives.ts])

    Identity serialisation, the ECIES envelope of a channel key, and payload encryption
    with its cache of imported keys.  Randomness (ephemeral keys, nonces) is an argument.
    Code that throws returns [Throw]. *)

From S2P Require Export Aad.

Open Scope meza_scope.

(** ** Identity *)

Record IdentityKeypair := { secretKey : bytes; publicKey : bytes }.

(** The 64-byte array; [set] throws when a part does not fit, keys of 32 bytes do. *)
Definition serializeIdentity (keypair : IdentityKeypair) : bytes :=
  secretKey keypair ++ publicKey keypair.

Definition deserializeIdentity (b : bytes) : result string IdentityKeypair :=
  if decide (length b ≠ 64) then Throw "Invalid identity bytes"
  else Ok {| secretKey := slice 0 32 b; publicKey := slice 32 64 b |}.

(** an identity key pair written for storage is read back as it was, and exactly the
    64-octet arrays are accepted, each of them as the pair it serialises. *)
Theorem identity_roundtrip kp b :
  length (secretKey kp) = 32 → length (publicKey kp) = 32 →
  deserializeIdentity (serializeIdentity kp) = Ok kp ∧
  (length b = 64 → ∃ kp', deserializeIdentity b = Ok kp' ∧ serializeIdentity kp' = b) ∧
  (length b ≠ 64 → deserializeIdentity b = Throw "Invalid identity bytes").
Proof.
  intros Hs Hp. split; [|split].
  - unfold deserializeIdentity, serializeIdentity. rewrite length_app, Hs, Hp.
    rewrite decide_False by (intros []; done). unfold slice.
    rewrite drop_0, (take_app_length' _ _ 32), (drop_app_length' _ _ 32) by done.
    rewrite take_ge by (simpl; lia). by destruct kp.
  - intros Hb. unfold deserializeIdentity. rewrite decide_False by auto.
    eexists. split; [done|]. unfold serializeIdentity, slice; simpl.
    rewrite drop_0, (take_ge (drop 32 b)) by (rewrite length_drop; lia).
    apply take_drop.
  - intros Hb. unfold deserializeIdentity. by rewrite decide_True.
Qed.

(** ** Hexadecimal *)

Definition hex_digit (d : Z) : Ascii.ascii :=
  Ascii.ascii_of_N (Z.to_N (if (d <? 10)%Z then 48 + d else 87 + d)).
Fixpoint toHex (b : bytes) : string :=
  match b with
  | [] => EmptyString
  | x :: b => String (hex_digit (x / 16)) (String (hex_digit (x `mod` 16)) (toHex b))
  end.

Lemma hex_digit_inj d d' :
  (0 ≤ d < 16)%Z → (0 ≤ d' < 16)%Z → hex_digit d = hex_digit d' → d = d'.
Proof.
  intros Hd Hd' E. apply (f_equal Ascii.N_of_ascii) in E. unfold hex_digit in E.
  destruct (Z.ltb_spec d 10), (Z.ltb_spec d' 10);
    rewrite !Ascii.N_ascii_embedding in E by lia; lia.
Qed.
Lemma octet_digits x : octet x → (0 ≤ x / 16 < 16 ∧ 0 ≤ x `mod` 16 < 16)%Z.
Proof.
  intros [H1 H2]. split; [|apply Z.mod_pos_bound; lia].
  split; [apply Z.div_pos; lia|apply Z.div_lt_upper_bound; lia].
Qed.
Lemma toHex_app_inj b b' s s' :
  octets b → octets b' → length b = length b' →
  String.app (toHex b) s = String.app (toHex b') s' → b = b' ∧ s = s'.
Proof.
  intros Hb. revert b'. induction Hb as [|x b Hx Hb IH]; intros [|x' b'] Hb' Hl E;
    try discriminate Hl; [done|]. apply Forall_cons in Hb' as [Hx' Hb'].
  injection E as E1 E2 E.
  apply hex_digit_inj in E1; [|by apply octet_digits..].
  apply hex_digit_inj in E2; [|by apply octet_digits..].
  destruct (IH b' Hb' ltac:(simpl in Hl; lia) E) as [-> ->]. split; [|done]. f_equal.
  rewrite (Z.div_mod x 16), (Z.div_mod x' 16) by lia. lia.
Qed.

(** ** Low-order points *)

Definition X25519_LOW_ORDER_POINTS : list string :=
  ["0000000000000000000000000000000000000000000000000000000000000000";
   "0100000000000000000000000000000000000000000000000000000000000000";
   "ecffffffffffffffffffffffffffffffffffffffffffffffffffffffffffff7f";
   "e0eb7a7c3b41b8ae1656e3faf19fc46ada098deb9c32b1fd866205165f49b800";
   "5f9c95bca3508c24b1d0b1559c83ef5b04445cc4581c8e86d8224eddd09f1157"].

Definition rejectLowOrderPoint (pub : bytes) : result string unit :=
  if decide (toHex pub ∈ X25519_LOW_ORDER_POINTS) then Throw "low-order point" else Ok tt.

(** The imported keys: a [CryptoKey] is the raw key it was imported from. *)
Notation AesKeyCache := (gmap string bytes).

Section primitives.
Context `{Crypto}.

(** [verifySignature]: an exception counts as a failed verification. *)
Definition verifySignature (pk sig content : bytes) : bool :=
  match ed_verify pk sig content with Ok b => b | Throw _ => false end.

(** ** Wrapping channel keys *)

Definition KEY_WRAP_INFO : bytes := utf8 "meza-key-wrap-v1".
Definition ENVELOPE_VERSION : Z := 2.

(** [ephemeral] is the fresh X25519 secret, [nonce] the 12 random octets. *)
Definition wrapChannelKey (ephemeral nonce : bytes) (channelKey recipientEdPub aad : bytes)
    : result string bytes :=
  let! recipientPub := to_montgomery recipientEdPub in
  let! _ := rejectLowOrderPoint recipientPub in
  let! shared := x_shared ephemeral recipientPub in
  let salt := x_public ephemeral ++ recipientPub in
  let wrappingKey := hkdf shared salt KEY_WRAP_INFO in
  let wrapped := gcm_encrypt wrappingKey nonce aad channelKey in
  Ok ([ENVELOPE_VERSION] ++ x_public ephemeral ++ nonce ++ wrapped).

Definition unwrapChannelKey (envelope edSecretKey aad : bytes) : result string bytes :=
  if decide (length envelope ≠ 93) then Throw "Invalid envelope size"
  else if decide (head envelope ≠ Some ENVELOPE_VERSION) then Throw "Invalid envelope version"
  else
    let ephemeralPub := slice 1 33 envelope in
    let nonce := slice 33 45 envelope in
    let wrapped := drop 45 envelope in
    let! _ := rejectLowOrderPoint ephemeralPub in
    let mySecret := to_montgomery_secret edSecretKey in
    let myPub := x_public mySecret in
    let! shared := x_shared mySecret ephemeralPub in
    let salt := ephemeralPub ++ myPub in
    let wrappingKey := hkdf shared salt KEY_WRAP_INFO in
    gcm_decrypt wrappingKey nonce aad wrapped.

Definition deriveVoiceKey (channelKey : bytes) (channelId : string) : bytes :=
  hkdf channelKey (utf8 "meza-voice-e2ee-v1") (utf8 channelId).

(** ** Payloads, and the cache of imported keys *)

Inductive usage := encrypt | decrypt.
Definition usage_name (u : usage) : string :=
  match u with encrypt => "encrypt" | decrypt => "decrypt" end.

Definition channelKeyCacheKey (rawKey : bytes) (u : usage) : string :=
  String.app (toHex (take 16 rawKey)) (String.app ":" (usage_name u)).

(** [crypto.subtle.importKey('raw', ...)] takes AES keys of 128, 192 or 256 bits. *)
Definition importKey (rawKey : bytes) : result string bytes :=
  if decide (length rawKey ∈ [16; 24; 32]) then Ok rawKey else Throw "DataError".

Definition getAesKey (rawKey : bytes) (u : usage) (cache : AesKeyCache)
    : result string bytes * AesKeyCache :=
  match cache !! channelKeyCacheKey rawKey u with
  | Some cached => (Ok cached, cache)
  | None =>
      match importKey rawKey with
      | Ok imported => (Ok imported, <[channelKeyCacheKey rawKey u := imported]> cache)
      | Throw e => (Throw e, cache)
      end
  end.

Definition clearAesKeyCache (cache : AesKeyCache) : AesKeyCache := ∅.

Definition encryptPayload (nonce : bytes) (channelKey plaintext aad : bytes)
    (cache : AesKeyCache) : result string bytes * AesKeyCache :=
  let '(aesKey, cache) := getAesKey channelKey encrypt cache in
  (let! k := aesKey in Ok (nonce ++ gcm_encrypt k nonce aad plaintext), cache).

Definition decryptPayload (channelKey noncePlusCiphertext aad : bytes) (cache : AesKeyCache)
    : result string bytes * AesKeyCache :=
  if decide (length noncePlusCiphertext < 28) then (Throw "Ciphertext too short", cache)
  else
    let nonce := slice 0 12 noncePlusCiphertext in
    let ciphertext := drop 12 noncePlusCiphertext in
    let '(aesKey, cache) := getAesKey channelKey decrypt cache in
    (let! k := aesKey in gcm_decrypt k nonce aad ciphertext, cache).

(** *** Encryption without a cache ([crypto/keys.ts]) *)

Definition aesGcmEncrypt (iv key plaintext : bytes) : result string (bytes * bytes) :=
  let! aesKey := importKey key in Ok (gcm_encrypt aesKey iv [] plaintext, iv).
Definition aesGcmDecrypt (key ciphertext iv : bytes) : result string bytes :=
  let! aesKey := importKey key in gcm_decrypt aesKey iv [] ciphertext.

(** *** The cache under keys that their first 16 octets tell apart *)

Section keys.
(** The channel keys in use. *)
Context (K : bytes → Prop).

Record keys_ok : Prop := {
  keys_octets : ∀ k, K k → octets k;
  keys_length : ∀ k, K k → length k = 32;
  keys_prefix : ∀ k k', K k → K k' → take 16 k = take 16 k' → k = k';
}.

Definition cache_ok (cache : AesKeyCache) : Prop :=
  ∀ s k, cache !! s = Some k → K k ∧ ∃ u, s = channelKeyCacheKey k u.

Lemma cache_ok_empty : cache_ok ∅.
Proof. intros s k. by rewrite lookup_empty. Qed.

Lemma cacheKey_inj k k' u u' :
  keys_ok → K k → K k' → channelKeyCacheKey k u = channelKeyCacheKey k' u' → k = k'.
Proof.
  intros [Ho Hl Hp] Hk Hk' E. apply Hp; [done..|].
  eapply toHex_app_inj; [| | |exact E].
  - by apply Forall_take, Ho.
  - by apply Forall_take, Ho.
  - rewrite !length_take, !Hl by done. done.
Qed.

Lemma getAesKey_ok k u cache :
  keys_ok → K k → cache_ok cache →
  ∃ cache', getAesKey k u cache = (Ok k, cache') ∧ cache_ok cache'.
Proof.
  intros HK Hk Hc. unfold getAesKey.
  destruct (cache !! channelKeyCacheKey k u) as [k'|] eqn:E.
  - destruct (Hc _ _ E) as (Hk' & u' & Hu). apply cacheKey_inj in Hu as ->; eauto.
  - unfold importKey. rewrite (keys_length HK k Hk).
    rewrite decide_True by (apply list_elem_of_further, list_elem_of_further, list_elem_of_here).
    eexists. split; [done|]. intros s k'. rewrite lookup_insert.
    case_decide; [|apply Hc]. intros [= <-]. subst. eauto.
Qed.
End keys.

Context `{!CryptoLaws}.

Lemma encryptPayload_Ok K nonce k pt aad cache :
  keys_ok K → K k → cache_ok K cache →
  ∃ cache', encryptPayload nonce k pt aad cache =
    (Ok (nonce ++ gcm_encrypt k nonce aad pt), cache') ∧ cache_ok K cache'.
Proof.
  intros HK Hk Hc. unfold encryptPayload.
  destruct (getAesKey_ok K k encrypt cache HK Hk Hc) as (cache' & E & Hc').
  rewrite E. by exists cache'.
Qed.
Lemma decryptPayload_Ok K nonce k pt aad cache :
  keys_ok K → K k → cache_ok K cache → length nonce = 12 →
  ∃ cache', decryptPayload k (nonce ++ gcm_encrypt k nonce aad pt) aad cache =
    (Ok pt, cache') ∧ cache_ok K cache'.
Proof.
  intros HK Hk Hc Hn. unfold decryptPayload.
  rewrite decide_False by (rewrite length_app, gcm_length, Hn; lia).
  destruct (getAesKey_ok K k decrypt cache HK Hk Hc) as (cache' & E & Hc').
  rewrite E. unfold slice.
  rewrite drop_0, (take_app_length' nonce _ 12), (drop_app_length' nonce _ 12) by done.
  exists cache'. simpl. by rewrite gcm_decrypt_encrypt.
Qed.

(** a payload encrypted under a channel key is decrypted under that key and the same
    additional data, whatever keys were used before, as long as the keys in use
    differ in their first 16 octets; the result has 28 octets more than the
    plaintext, and anything shorter than 28 octets is rejected. *)
Theorem payload_roundtrip K nonce k pt aad cache short :
  keys_ok K → K k → cache_ok K cache → length nonce = 12 → length short < 28 →
  ∃ data cache' cache'',
    encryptPayload nonce k pt aad cache = (Ok data, cache') ∧
    length data = length pt + 28 ∧
    decryptPayload k data aad cache' = (Ok pt, cache'') ∧
    cache_ok K cache' ∧ cache_ok K cache'' ∧
    decryptPayload k short aad cache = (Throw "Ciphertext too short", cache).
Proof.
  intros HK Hk Hc Hn Hs.
  destruct (encryptPayload_Ok K nonce k pt aad cache HK Hk Hc) as (c1 & E1 & Hc1).
  destruct (decryptPayload_Ok K nonce k pt aad c1 HK Hk Hc1 Hn) as (c2 & E2 & Hc2).
  do 3 eexists. split; [exact E1|]. split; [rewrite length_app, gcm_length, Hn; lia|].
  split; [exact E2|]. split; [done|]. split; [done|].
  unfold decryptPayload. by rewrite decide_True.
Qed.

(** the cache tells keys apart by their first 16 octets only: once a key has been
    used, a payload encrypted under another key with the same first half is
    encrypted under the first key. *)
Theorem aes_cache_prefix_collision k k' nonce nonce' pt pt' aad aad' :
  length k = 32 → take 16 k = take 16 k' →
  let cache := (encryptPayload nonce k pt aad ∅).2 in
  (encryptPayload nonce' k' pt' aad' cache).1 =
    Ok (nonce' ++ gcm_encrypt k nonce' aad' pt').
Proof.
  intros Hl Hp. cbv zeta. unfold encryptPayload, getAesKey.
  rewrite lookup_empty. unfold importKey. rewrite Hl.
  rewrite decide_True by (apply list_elem_of_further, list_elem_of_further, list_elem_of_here).
  simpl. assert (E : channelKeyCacheKey k' encrypt = channelKeyCacheKey k encrypt)
    by (unfold channelKeyCacheKey; by rewrite Hp).
  by rewrite E, lookup_insert_eq.
Qed.

(** The envelope has the layout it is read with. *)
Lemma envelope_parts (pub nonce wrapped : bytes) :
  length pub = 32 → length nonce = 12 → length wrapped = 48 →
  let e := [ENVELOPE_VERSION] ++ pub ++ nonce ++ wrapped in
  length e = 93 ∧ slice 1 33 e = pub ∧ slice 33 45 e = nonce ∧ drop 45 e = wrapped.
Proof.
  intros Hp Hn Hw. cbv zeta. set (r := pub ++ nonce ++ wrapped).
  change (slice 1 33 ([ENVELOPE_VERSION] ++ r)) with (take 32 r).
  change (slice 33 45 ([ENVELOPE_VERSION] ++ r)) with (take 12 (drop 32 r)).
  change (drop 45 ([ENVELOPE_VERSION] ++ r)) with (drop 44 r).
  change (length ([ENVELOPE_VERSION] ++ r)) with (S (length r)). unfold r.
  rewrite (take_app_length' pub _ 32), (drop_app_length' pub _ 32) by done.
  rewrite (take_app_length' nonce _ 12) by done.
  replace 44 with (length pub + 12) by lia. rewrite <-drop_drop, drop_app_length.
  rewrite (drop_app_length' nonce _ 12) by done. rewrite !length_app.
  split; [lia|done].
Qed.

Lemma unwrap_wrap ephemeral nonce key sk aad env :
  length key = 32 → length nonce = 12 →
  rejectLowOrderPoint (x_public ephemeral) = Ok tt →
  wrapChannelKey ephemeral nonce key (ed_public sk) aad = Ok env →
  length env = 93 ∧ unwrapChannelKey env sk aad = Ok key.
Proof.
  intros Hkey Hn Hlow Hw. unfold wrapChannelKey in Hw.
  rewrite to_montgomery_public in Hw. simpl in Hw.
  apply result_bind_Ok in Hw as (_ & _ & Hw). apply result_bind_Ok in Hw as (sh & Hsh & Hw).
  injection Hw as <-.
  set (salt := x_public ephemeral ++ x_public (to_montgomery_secret sk)).
  set (wrapped := gcm_encrypt (hkdf sh salt KEY_WRAP_INFO) nonce aad key).
  destruct (envelope_parts (x_public ephemeral) nonce wrapped) as (Hl & H1 & H2 & H3);
    [apply x_public_length|done|unfold wrapped; by rewrite gcm_length, Hkey|].
  change (ENVELOPE_VERSION :: x_public ephemeral ++ nonce ++ wrapped)
    with ([ENVELOPE_VERSION] ++ x_public ephemeral ++ nonce ++ wrapped) in *.
  split; [exact Hl|].
  unfold unwrapChannelKey. rewrite decide_False by auto. rewrite decide_False by auto.
  cbv zeta. rewrite H1, H2, H3, Hlow. cbn [result_bind].
  rewrite x_shared_comm, Hsh. cbn [result_bind]. apply gcm_decrypt_encrypt.
Qed.

(** a channel key wrapped for a member is a 93-octet envelope that the member, and
    the same additional data, unwrap to the key; an envelope of another size or
    version, or with a low-order ephemeral point, is rejected before any key is
    derived. *)
Theorem wrap_unwrap ephemeral nonce key sk aad env bad :
  length key = 32 → length nonce = 12 →
  rejectLowOrderPoint (x_public ephemeral) = Ok tt →
  wrapChannelKey ephemeral nonce key (ed_public sk) aad = Ok env →
  length env = 93 ∧ unwrapChannelKey env sk aad = Ok key ∧
  (length bad ≠ 93 → unwrapChannelKey bad sk aad = Throw "Invalid envelope size") ∧
  (length bad = 93 → head bad ≠ Some ENVELOPE_VERSION →
     unwrapChannelKey bad sk aad = Throw "Invalid envelope version") ∧
  (length bad = 93 → head bad = Some ENVELOPE_VERSION →
     toHex (slice 1 33 bad) ∈ X25519_LOW_ORDER_POINTS →
     unwrapChannelKey bad sk aad = Throw "low-order point").
Proof.
  intros Hkey Hn Hlow Hw.
  destruct (unwrap_wrap ephemeral nonce key sk aad env Hkey Hn Hlow Hw) as [Hl Hu].
  split; [exact Hl|]. split; [exact Hu|]. split; [|split].
  - intros Hb. unfold unwrapChannelKey. by rewrite decide_True.
  - intros Hb Hv. unfold unwrapChannelKey. rewrite decide_False by auto.
    by rewrite decide_True.
  - intros Hb Hv Hp. unfold unwrapChannelKey. rewrite decide_False by auto.
    rewrite decide_False by (rewrite Hv; auto). cbv zeta. unfold rejectLowOrderPoint.
    by rewrite decide_True.
Qed.
End primitives.

(** ** Concrete inputs, with the toy operations *)

#[local] Existing Instance toy.
#[local] Existing Instance toy_laws.

Definition demo_key : bytes := replicate 32 11%Z.
Definition demo_nonce : bytes := replicate 12 3%Z.
Definition demo_secret : bytes := replicate 32 1%Z.

Lemma demo_keys_ok : keys_ok (λ k, k = demo_key).
Proof.
  split; [|by intros k ->|by intros k k' -> ->].
  intros k ->. apply Forall_replicate. done.
Qed.

Lemma identity_roundtrip_witness :
  deserializeIdentity (serializeIdentity {| secretKey := demo_secret; publicKey := demo_key |})
    = Ok {| secretKey := demo_secret; publicKey := demo_key |}.
Proof.
  apply (identity_roundtrip {| secretKey := demo_secret; publicKey := demo_key |} []);
    reflexivity.
Defined.

Lemma payload_roundtrip_witness :
  ∃ data cache' cache'',
    encryptPayload demo_nonce demo_key [1; 2]%Z [9]%Z ∅ = (Ok data, cache') ∧
    length data = 30 ∧ decryptPayload demo_key data [9]%Z cache' = (Ok [1; 2]%Z, cache'').
Proof.
  destruct (payload_roundtrip (λ k, k = demo_key) demo_nonce demo_key [1; 2]%Z [9]%Z ∅ []
    demo_keys_ok eq_refl (cache_ok_empty _) eq_refl ltac:(simpl; lia))
    as (d & c1 & c2 & H1 & H2 & H3 & _).
  exists d, c1, c2. split; [exact H1|]. split; [exact H2|exact H3].
Defined.

Lemma aes_cache_prefix_collision_witness :
  (encryptPayload demo_nonce (replicate 16 11%Z ++ replicate 16 12%Z) [1]%Z []
    (encryptPayload demo_nonce demo_key [1]%Z [] ∅).2).1 =
  Ok (demo_nonce ++ gcm_encrypt demo_key demo_nonce [] [1]%Z).
Proof. apply aes_cache_prefix_collision; reflexivity. Defined.

Lemma wrap_unwrap_witness :
  ∃ env, wrapChannelKey demo_secret demo_nonce demo_key (ed_public demo_secret) [9]%Z = Ok env ∧
    unwrapChannelKey env demo_secret [9]%Z = Ok demo_key.
Proof.
  eexists. split; [vm_compute; reflexivity|].
  eapply (wrap_unwrap demo_secret demo_nonce demo_key demo_secret [9]%Z _ []);
    [reflexivity..|vm_compute; reflexivity].
Defined.
