(* ===== verification/ChannelKeys.v ===== *)
(** * Channel keys ([crypto/channel-keys.ts])

    The versioned keys of each channel: the cache that keeps the newest versions, the
    fetch that fills it from the server's envelopes, and key rotation.  An operation
    that awaits the server runs here without interleaving; the answers of the server
    and the random values are functions of how many were asked for before. *)

From S2P Require Export Primitives.

Definition MAX_VERSIONS_PER_CHANNEL : nat := 3.

Notation VersionMap := (gmap Z bytes).

(** ** Keeping the newest versions *)

Definition by_value : Z → Z → Z := cmp_asc (λ v, v).

(** [[...versionMap.keys()].sort((a, b) => a - b)] *)
Definition sorted_versions (m : VersionMap) : list Z := js_sort by_value (map_to_list m).*1.

(** The pruning of [setCachedKey]. *)
Definition prune (m : VersionMap) : VersionMap :=
  if decide (MAX_VERSIONS_PER_CHANNEL < size m) then
    let versions := sorted_versions m in
    let toRemove := take (length versions - MAX_VERSIONS_PER_CHANNEL) versions in
    foldl (λ m v, delete v m) m toRemove
  else m.

(** How many cached versions are newer than [v]. *)
Definition newer (m : VersionMap) (v : Z) : nat := length (filter (λ v', v < v')%Z (map_to_list m).*1).

Lemma sorted_versions_perm m : sorted_versions m ≡ₚ (map_to_list m).*1.
Proof. apply js_sort_perm. Qed.
Lemma sorted_versions_elem m v : v ∈ sorted_versions m ↔ is_Some (m !! v).
Proof.
  rewrite sorted_versions_perm, list_elem_of_fmap. split.
  - intros ([v' k] & -> & Hin%elem_of_map_to_list). eauto.
  - intros [k Hk]. exists (v, k). split; [done|]. by apply elem_of_map_to_list.
Qed.
Lemma sorted_versions_length m : length (sorted_versions m) = size m.
Proof.
  rewrite sorted_versions_perm, length_fmap. by rewrite length_map_to_list.
Qed.
Lemma sorted_versions_strict m : StronglySorted Z.lt (sorted_versions m).
Proof.
  assert (Hs : StronglySorted (λ x y, by_value x y ≤ 0)%Z (sorted_versions m))
    by apply (js_sort_sorted by_value).
  assert (Hnd : NoDup (sorted_versions m))
    by (rewrite sorted_versions_perm; apply NoDup_fst_map_to_list).
  induction Hs as [|v l Hl IH Hv]; constructor; apply NoDup_cons in Hnd as [Hin Hnd]; [auto|].
  apply Forall_forall. intros w Hw. rewrite Forall_forall in Hv. specialize (Hv w Hw).
  unfold by_value, cmp_asc in Hv. assert (v ≠ w) by naive_solver. lia.
Qed.

(** In a sorted list what is greater than an element comes after it. *)
Lemma sorted_greater (l : list Z) i v :
  StronglySorted Z.lt l → l !! i = Some v → filter (λ v', v < v')%Z l = drop (S i) l.
Proof.
  intros Hs Hi. rewrite <-(take_drop_middle l i v Hi) at 1.
  rewrite <-(take_drop_middle l i v Hi) in Hs.
  apply StronglySorted_app in Hs as (Hcross & Hs1 & Hs2).
  apply StronglySorted_cons in Hs2 as [Hv Hs2].
  rewrite filter_app, filter_cons, decide_False by lia.
  rewrite (filter_none _ (take i l)), (filter_all _ (drop (S i) l)); [done|done|].
  apply Forall_forall. intros x Hx. specialize (Hcross x v Hx ltac:(set_solver)). lia.
Qed.
Lemma newer_index m i v :
  sorted_versions m !! i = Some v → newer m v = size m - S i.
Proof.
  intros Hi. unfold newer.
  rewrite <-(sorted_versions_perm m).
  rewrite (sorted_greater _ i) by (done || apply sorted_versions_strict).
  by rewrite length_drop, sorted_versions_length.
Qed.

(** Pruning keeps a version exactly if fewer than three newer ones are cached. *)
Lemma prune_lookup m v :
  prune m !! v = if decide (newer m v < MAX_VERSIONS_PER_CHANNEL) then m !! v else None.
Proof.
  destruct (m !! v) as [k|] eqn:E.
  - assert (Hin : v ∈ sorted_versions m) by (apply sorted_versions_elem; eauto).
    apply list_elem_of_lookup in Hin as [i Hi].
    pose proof (lookup_lt_Some _ _ _ Hi) as Hlt. rewrite sorted_versions_length in Hlt.
    rewrite (newer_index m i v Hi). unfold prune. case_decide as Hs; [|by rewrite decide_True by (unfold MAX_VERSIONS_PER_CHANNEL in *; lia)].
    cbv zeta. rewrite (lookup_delete_all (λ v, v)), list_fmap_id, sorted_versions_length.
    unfold MAX_VERSIONS_PER_CHANNEL in *.
    assert (Hk : v ∈ take (size m - 3) (sorted_versions m) ↔ i < size m - 3).
    { split.
      - intros [j Hj]%list_elem_of_lookup. apply lookup_take_Some in Hj as [Hj Hjlt].
        assert (j = i) as ->; [|done]. eapply NoDup_lookup; [|exact Hj|exact Hi].
        rewrite sorted_versions_perm. apply NoDup_fst_map_to_list.
      - intros Hil. apply list_elem_of_lookup. exists i. by rewrite lookup_take_lt. }
    destruct (decide (i < size m - 3)).
    + rewrite decide_True by tauto. by rewrite decide_False by lia.
    + rewrite decide_False by tauto. by rewrite decide_True by lia.
  - transitivity (@None bytes); [|by case_decide]. unfold prune. case_decide; [|done].
    cbv zeta. rewrite (lookup_delete_all (λ v, v)). by case_decide.
Qed.

(** *** Pruning after every insertion is pruning at the end *)

Lemma newer_set m v : newer m v = size (filter (λ v', v < v')%Z (dom m)).
Proof.
  unfold newer, size, set_size. apply Permutation_length. apply NoDup_Permutation.
  - apply NoDup_filter, NoDup_fst_map_to_list.
  - apply NoDup_elements.
  - intros x. rewrite elem_of_elements, elem_of_filter, list_elem_of_filter, elem_of_dom.
    rewrite <-sorted_versions_elem. by rewrite sorted_versions_perm.
Qed.
Lemma newer_subset m m' v : dom m ⊆ dom m' → newer m v ≤ newer m' v.
Proof. intros Hs. rewrite !newer_set. apply subseteq_size. set_solver. Qed.
Lemma newer_le m v v' : (v ≤ v')%Z → newer m v' ≤ newer m v.
Proof.
  intros Hv. rewrite !newer_set. apply subseteq_size. intros x.
  rewrite !elem_of_filter. intros [? ?]. split; [lia|done].
Qed.
Lemma prune_dom m v : v ∈ dom (prune m) ↔ v ∈ dom m ∧ newer m v < 3.
Proof.
  rewrite !elem_of_dom, prune_lookup. unfold MAX_VERSIONS_PER_CHANNEL.
  case_decide; [tauto|]. split; [by intros []|tauto].
Qed.

(** The three newest versions survive, so what was pruned still has three newer ones. *)
Lemma newer_prune m v : is_Some (m !! v) → 3 ≤ newer m v → 3 ≤ newer (prune m) v.
Proof.
  intros Hv Hn. apply sorted_versions_elem, list_elem_of_lookup in Hv as [i Hi].
  pose proof Hn as Hn'. rewrite (newer_index m i v Hi) in Hn'.
  pose proof (sorted_versions_length m) as Hlen.
  set (top := drop (size m - 3) (sorted_versions m)).
  assert (Hnd : NoDup top).
  { unfold top. eapply sublist_NoDup; [|apply sublist_drop].
    rewrite sorted_versions_perm. apply NoDup_fst_map_to_list. }
  transitivity (size (list_to_set top : gset Z)).
  - rewrite size_list_to_set by done. unfold top. rewrite length_drop, Hlen. lia.
  - rewrite newer_set. apply subseteq_size. intros w Hw%elem_of_list_to_set.
    apply list_elem_of_lookup in Hw as [j Hj]. unfold top in Hj. rewrite lookup_drop in Hj.
    apply elem_of_filter. split.
    + assert (Hin : w ∈ filter (λ v', v < v')%Z (sorted_versions m)).
      { rewrite (sorted_greater _ i) by (done || apply sorted_versions_strict).
        apply list_elem_of_lookup. exists (size m - 3 + j - S i). rewrite lookup_drop.
        rewrite <-Hj. f_equal. lia. }
      by apply list_elem_of_filter in Hin as [? _].
    + apply prune_dom. rewrite (newer_index m _ w Hj). split; [|lia].
      apply elem_of_dom, sorted_versions_elem, list_elem_of_lookup. eauto.
Qed.

Lemma prune_insert m v k : prune (<[v := k]> (prune m)) = prune (<[v := k]> m).
Proof.
  assert (Hsub : dom (<[v:=k]> (prune m)) ⊆ dom (<[v:=k]> m)).
  { intros w. rewrite !dom_insert, !elem_of_union, prune_dom. tauto. }
  (* Below a version that has fewer than three newer ones, nothing was pruned. *)
  assert (Hsame : ∀ x, newer (<[v:=k]> (prune m)) x < 3 →
    newer (<[v:=k]> m) x = newer (<[v:=k]> (prune m)) x).
  { intros x Hx. rewrite !newer_set in *. apply f_equal. apply set_eq. intros y.
    rewrite !elem_of_filter, !dom_insert, !elem_of_union, prune_dom.
    split; [|tauto]. intros [Hxy [Hy|Hy]]; [tauto|]. split; [done|]. right. split; [done|].
    destruct (decide (newer m y < 3)) as [|Hge]; [done|]. exfalso.
    apply elem_of_dom in Hy. assert (H3 : 3 ≤ newer (prune m) y) by (apply newer_prune; [done|lia]).
    rewrite <-newer_set in Hx.
    pose proof (newer_subset (prune m) (<[v:=k]> (prune m)) y ltac:(set_solver)).
    pose proof (newer_le (<[v:=k]> (prune m)) x y ltac:(lia)). lia. }
  apply map_eq. intros x. rewrite !prune_lookup. unfold MAX_VERSIONS_PER_CHANNEL.
  case_decide as Hx.
  - rewrite decide_True by (rewrite Hsame; done). rewrite !lookup_insert.
    case_decide; [done|]. rewrite prune_lookup. unfold MAX_VERSIONS_PER_CHANNEL.
    rewrite decide_True; [done|].
    pose proof (newer_subset m (<[v:=k]> m) x ltac:(set_solver)). rewrite Hsame in * by done. lia.
  - rewrite decide_False; [done|]. pose proof (newer_subset _ _ x Hsub). lia.
Qed.

(** ** The module's state *)

(** A [Uint8Array] that the module shares with its caller is the address of a buffer. *)
Notation address := nat (only parsing).

Record KeyState := {
  identityKeypair : option IdentityKeypair;
  masterKey : option address;
  channelKeyCache : gmap string VersionMap;
  persistTimeout : bool;
  calls : nat;   (** requests made so far *)
  draws : nat;   (** random values drawn so far *)
}.

Definition on_cache f (s : KeyState) : KeyState :=
  {| identityKeypair := identityKeypair s; masterKey := masterKey s;
     channelKeyCache := f (channelKeyCache s); persistTimeout := persistTimeout s;
     calls := calls s; draws := draws s |}.
Definition count (c d : nat) (s : KeyState) : KeyState :=
  {| identityKeypair := identityKeypair s; masterKey := masterKey s;
     channelKeyCache := channelKeyCache s; persistTimeout := persistTimeout s;
     calls := calls s + c; draws := draws s + d |}.
Definition schedulePersist (s : KeyState) : KeyState :=
  {| identityKeypair := identityKeypair s; masterKey := masterKey s;
     channelKeyCache := channelKeyCache s; persistTimeout := true;
     calls := calls s; draws := draws s |}.

Definition initChannelKeys (identity : IdentityKeypair) (mk : address) (s : KeyState) : KeyState :=
  {| identityKeypair := Some identity; masterKey := Some mk;
     channelKeyCache := channelKeyCache s; persistTimeout := persistTimeout s;
     calls := calls s; draws := draws s |}.
(** The part of [clearChannelKeyCache] that concerns this state; the tables of promises are
    in [KeyPrograms]. *)
Definition clearChannelKeyCache (s : KeyState) : KeyState :=
  {| identityKeypair := None; masterKey := None; channelKeyCache := ∅;
     persistTimeout := false; calls := calls s; draws := draws s |}.

Definition setCachedKey (channelId : string) (version : Z) (key : bytes) : KeyState → KeyState :=
  on_cache (λ cache,
    let versionMap := or_default ∅ (cache !! channelId) in
    <[channelId := prune (<[version := key]> versionMap)]> cache).

Definition cached (s : KeyState) (channelId : string) (version : Z) : option bytes :=
  channelKeyCache s !! channelId ≫= λ versionMap, versionMap !! version.

Definition hasChannelKey (channelId : string) (s : KeyState) : bool :=
  match channelKeyCache s !! channelId with
  | Some versionMap => bool_decide (0 < size versionMap)
  | None => false
  end.

(** [let max = 0; for (const v of versionMap.keys()) if (v > max) max = v] *)
Definition getLatestKeyVersion (channelId : string) (s : KeyState) : option Z :=
  match channelKeyCache s !! channelId with
  | Some versionMap =>
      if decide (size versionMap = 0) then None
      else Some (foldl (λ max v, if (max <? v)%Z then v else max) 0%Z (map_to_list versionMap).*1)
  | None => None
  end.

Definition getCachedChannelIds (s : KeyState) : list string := (map_to_list (channelKeyCache s)).*1.

Definition versions_ok (s : KeyState) : Prop :=
  map_Forall (λ _ m, size m ≤ MAX_VERSIONS_PER_CHANNEL ∧ map_Forall (λ v _, 0 ≤ v)%Z m)
    (channelKeyCache s).

Lemma foldl_max (l : list Z) (a : Z) :
  let r := foldl (λ max v, if (max <? v)%Z then v else max) a l in
  (r = a ∨ r ∈ l) ∧ (a ≤ r)%Z ∧ Forall (λ v, v ≤ r)%Z l.
Proof.
  revert a. induction l as [|x l IH]; intros a; cbn [foldl]; cbv zeta in *.
  - split; [auto|]. split; [lia|constructor].
  - destruct (IH (if (a <? x)%Z then x else a)) as (H1 & H2 & H3).
    destruct (Z.ltb_spec a x); split_and!; try lia; rewrite ?elem_of_cons, ?Forall_cons;
      [naive_solver|split; [lia|done]|naive_solver|split; [lia|done]].
Qed.
Lemma getLatest_spec c s v :
  versions_ok s → getLatestKeyVersion c s = Some v →
  is_Some (cached s c v) ∧ ∀ v', is_Some (cached s c v') → (v' ≤ v)%Z.
Proof.
  intros Hs. unfold getLatestKeyVersion, cached. destruct (channelKeyCache s !! c) as [m|] eqn:E; [|done].
  destruct (Hs _ _ E) as [_ Hpos]. case_decide as Hz; [done|]. intros [= <-].
  destruct (foldl_max (map_to_list m).*1 0) as (H1 & H2 & H3). cbv zeta in *. simpl.
  set (r := foldl _ _ _) in *.
  assert (Hall : ∀ v', is_Some (m !! v') → (v' ≤ r)%Z).
  { intros v' Hv'. rewrite Forall_forall in H3. apply H3. rewrite <-sorted_versions_perm.
    by apply sorted_versions_elem. }
  split; [|done]. destruct H1 as [H1|H1].
  - destruct (map_choose m) as (v' & k & Hv'); [by intros ->; apply Hz, map_size_empty|].
    assert (v' = r) as <-; [|eauto]. specialize (Hall v' ltac:(eauto)).
    specialize (Hpos _ _ Hv'). simpl in Hpos. lia.
  - apply sorted_versions_elem. by rewrite sorted_versions_perm.
Qed.

(** ** Operations that ask the server *)

Section effects.
Context `{Crypto}.
(** The answers of the server, by request, and the random values, by draw. *)
Context (getKeyEnvelopes : nat → string → result string (list (Z * bytes))).
Context (rotateChannelKeyRpc :
  nat → string → Z → list (string * bytes) → result string Z).
Context (random_key random_secret random_nonce : nat → bytes).

Fixpoint cache_envelopes (channelId : string) (id : IdentityKeypair)
    (envelopes : list (Z * bytes)) (s : KeyState) : result string unit * KeyState :=
  match envelopes with
  | [] => (Ok tt, s)
  | (keyVersion, envelope) :: envelopes =>
      match (let! aad := buildKeyWrapAAD channelId (publicKey id) in
             unwrapChannelKey envelope (secretKey id) aad) with
      | Ok key => cache_envelopes channelId id envelopes (setCachedKey channelId keyVersion key s)
      | Throw e => (Throw e, s)
      end
  end.

Definition fetchAndCacheChannelKeys (channelId : string) (s : KeyState)
    : result string unit * KeyState :=
  match identityKeypair s with
  | None => (Throw "Channel keys not initialized", s)
  | Some id =>
      let s1 := count 1 0 s in
      match getKeyEnvelopes (calls s) channelId with
      | Throw e => (Throw e, s1)
      | Ok [] => (Ok tt, s1)
      | Ok envelopes =>
          match cache_envelopes channelId id envelopes s1 with
          | (Ok _, s2) => (Ok tt, schedulePersist s2)
          | (Throw e, s2) => (Throw e, s2)
          end
      end
  end.

Definition getChannelKey (channelId : string) (version : Z) (s : KeyState)
    : result string bytes * KeyState :=
  match cached s channelId version with
  | Some key => (Ok key, s)
  | None =>
      match fetchAndCacheChannelKeys channelId s with
      | (Throw e, s1) => (Throw e, s1)
      | (Ok _, s1) =>
          match cached s1 channelId version with
          | Some key => (Ok key, s1)
          | None => (Throw "Channel key not available", s1)
          end
      end
  end.

Definition createChannelKey (channelId : string) (s : KeyState) : (bytes * Z) * KeyState :=
  let key := random_key (draws s) in
  ((key, 1%Z), schedulePersist (setCachedKey channelId 1 key (count 0 1 s))).

(** The envelope of one member, with the [n]-th random values. *)
Definition wrap_for (n : nat) (channelId : string) (channelKey : bytes)
    (member : string * bytes) : result string (string * bytes) :=
  let! aad := buildKeyWrapAAD channelId member.2 in
  let! envelope :=
    wrapChannelKey (random_secret n) (random_nonce n) channelKey member.2 aad in
  Ok (member.1, envelope).

Fixpoint wrap_members (n : nat) (channelId : string) (channelKey : bytes)
    (members : list (string * bytes)) : result string (list (string * bytes)) :=
  match members with
  | [] => Ok []
  | member :: members =>
      let! e := wrap_for n channelId channelKey member in
      let! es := wrap_members (S n) channelId channelKey members in
      Ok (e :: es)
  end.

Definition wrapKeyForMembers (channelId : string) (channelKey : bytes)
    (members : list (string * bytes)) (s : KeyState)
    : result string (list (string * bytes)) * KeyState :=
  (wrap_members (draws s) channelId channelKey members, count 0 (length members) s).

(** The loop of [rotateChannelKey]; [attempts] more follow this one. *)
Fixpoint rotate_attempt (attempts : nat) (channelId : string)
    (remainingMembers : list (string * bytes)) (currentVersion : Z) (s : KeyState)
    : result string Z * KeyState :=
  let newKey := random_key (draws s) in
  match wrapKeyForMembers channelId newKey remainingMembers (count 0 1 s) with
  | (Throw e, s1) => (Throw e, s1)
  | (Ok envelopes, s1) =>
      let s2 := count 1 0 s1 in
      match rotateChannelKeyRpc (calls s1) channelId currentVersion envelopes with
      | Ok newVersion =>
          (Ok newVersion, schedulePersist (setCachedKey channelId newVersion newKey s2))
      | Throw err =>
          match attempts with
          | 0 => (Throw err, s2)
          | S attempts =>
              match fetchAndCacheChannelKeys channelId s2 with
              | (Throw e, s3) => (Throw e, s3)
              | (Ok _, s3) =>
                  match getLatestKeyVersion channelId s3 with
                  | Some latestVersion =>
                      if negb (latestVersion =? 0)%Z && (currentVersion <? latestVersion)%Z
                      then rotate_attempt attempts channelId remainingMembers latestVersion s3
                      else (Throw err, s3)
                  | None => (Throw err, s3)
                  end
              end
          end
      end
  end.

Definition rotateChannelKey := rotate_attempt 1.

(** *** The cache after storing a key *)

Lemma setCachedKey_map c v k s :
  channelKeyCache (setCachedKey c v k s) =
    <[c := prune (<[v := k]> (or_default ∅ (channelKeyCache s !! c)))]> (channelKeyCache s).
Proof. done. Qed.
Lemma cached_setCachedKey c v k s c' v' :
  cached (setCachedKey c v k s) c' v' =
    if decide (c' = c) then prune (<[v := k]> (or_default ∅ (channelKeyCache s !! c))) !! v'
    else cached s c' v'.
Proof.
  unfold cached. rewrite setCachedKey_map, lookup_insert.
  repeat case_decide; subst; done.
Qed.
Lemma prune_size m : size (prune m) ≤ MAX_VERSIONS_PER_CHANNEL.
Proof.
  destruct (decide (size (prune m) ≤ MAX_VERSIONS_PER_CHANNEL)) as [|Hn]; [done|].
  unfold MAX_VERSIONS_PER_CHANNEL in *.
  (* the smallest surviving version would have three newer ones *)
  destruct (lookup_lt_is_Some_2 (sorted_versions (prune m)) 0) as [v Hv];
    [rewrite sorted_versions_length; lia|].
  pose proof (newer_index _ _ _ Hv) as E.
  assert (Hin : v ∈ dom (prune m))
    by (apply elem_of_dom, sorted_versions_elem, list_elem_of_lookup; eauto).
  apply prune_dom in Hin as [_ Hlt].
  assert (newer (prune m) v ≤ newer m v); [|lia].
  apply newer_subset. intros w Hw. by apply prune_dom in Hw as [? _].
Qed.
Lemma setCachedKey_ok c v k s :
  (0 ≤ v)%Z → versions_ok s → versions_ok (setCachedKey c v k s).
Proof.
  intros Hv Hs. unfold versions_ok. rewrite setCachedKey_map.
  apply map_Forall_insert_2; [|done]. split; [apply prune_size|].
  intros v' k'. rewrite prune_lookup. case_decide; [|done]. rewrite lookup_insert.
  case_decide; [by subst|]. destruct (channelKeyCache s !! c) as [m|] eqn:E; simpl;
    [|by rewrite lookup_empty]. apply (Hs _ _ E).
Qed.

(** the cache keeps, per channel, the three newest versions: a version is cached after
    storing one if it was known or is the one stored and fewer than three known
    versions are newer; its key is the one stored for it; other channels are not
    touched; the newest version is always among those kept. *)
Theorem setCachedKey_newest c v k s :
  versions_ok s → (0 ≤ v)%Z →
  let m := <[v := k]> (or_default ∅ (channelKeyCache s !! c)) in
  (∀ v', cached (setCachedKey c v k s) c v' = if decide (newer m v' < 3) then m !! v' else None) ∧
  (∀ c' v', c' ≠ c → cached (setCachedKey c v k s) c' v' = cached s c' v') ∧
  getLatestKeyVersion c (setCachedKey c v k s) =
    Some (or_default v (Z.max v <$> getLatestKeyVersion c s)) ∧
  versions_ok (setCachedKey c v k s).
Proof.
  intros Hs Hv m.
  assert (Hc : ∀ v', cached (setCachedKey c v k s) c v' =
    if decide (newer m v' < 3) then m !! v' else None).
  { intros v'. rewrite cached_setCachedKey, decide_True by done. apply prune_lookup. }
  assert (Hok : versions_ok (setCachedKey c v k s)) by by apply setCachedKey_ok.
  split; [done|]. split; [|split; [|done]].
  { intros c' v' Hne. by rewrite cached_setCachedKey, decide_False. }
  set (mx := or_default v (Z.max v <$> getLatestKeyVersion c s)).
  (* every known version is at most [mx], which is known *)
  assert (Hle : ∀ v', is_Some (m !! v') → (v' ≤ mx)%Z).
  { intros v' Hv'. unfold m in Hv'. apply lookup_insert_is_Some in Hv'.
    unfold mx. destruct (getLatestKeyVersion c s) as [l|] eqn:E; simpl.
    - destruct (getLatest_spec _ _ _ Hs E) as [_ Hl]. destruct Hv' as [<-|[_ Hv']]; [lia|].
      specialize (Hl v'). unfold cached in Hl.
      destruct (channelKeyCache s !! c); simpl in *; [specialize (Hl Hv'); lia|].
      rewrite lookup_empty in Hv'. by destruct Hv'.
    - destruct Hv' as [<-|[_ Hv']]; [lia|]. exfalso. unfold getLatestKeyVersion in E.
      destruct (channelKeyCache s !! c) as [m0|]; simpl in Hv';
        [|rewrite lookup_empty in Hv'; by destruct Hv'].
      case_decide as Hz; [|done]. apply map_size_empty_inv in Hz. subst.
      rewrite lookup_empty in Hv'. by destruct Hv'. }
  assert (Hmx : is_Some (m !! mx)).
  { unfold m, mx. apply lookup_insert_is_Some.
    destruct (getLatestKeyVersion c s) as [l|] eqn:E; simpl; [|by left].
    destruct (decide (v = Z.max v l)) as [|Hne]; [by left|right]. split; [done|].
    replace (Z.max v l) with l by lia.
    destruct (getLatest_spec _ _ _ Hs E) as [Hl _]. unfold cached in Hl.
    destruct (channelKeyCache s !! c); [done|]. by destruct Hl. }
  assert (Hkept : is_Some (cached (setCachedKey c v k s) c mx)).
  { rewrite Hc, decide_True; [done|].
    assert (newer m mx = 0); [|lia]. unfold newer. rewrite filter_none; [done|].
    apply Forall_forall. intros w Hw. rewrite <-sorted_versions_perm in Hw.
    apply sorted_versions_elem, Hle in Hw. lia. }
  destruct (getLatestKeyVersion c (setCachedKey c v k s)) as [l|] eqn:E.
  - destruct (getLatest_spec _ _ _ Hok E) as [Hl1 Hl2]. f_equal.
    specialize (Hl2 _ Hkept). assert (l ≤ mx)%Z; [|lia]. apply Hle.
    rewrite Hc in Hl1. case_decide; [done|]. by destruct Hl1.
  - exfalso. unfold getLatestKeyVersion in E. unfold cached in Hkept.
    destruct (channelKeyCache (setCachedKey c v k s) !! c) as [m'|];
      [|by destruct Hkept]. case_decide as Hz; [|done].
    apply map_size_empty_inv in Hz. subst. simpl in Hkept. rewrite lookup_empty in Hkept.
    by destruct Hkept.
Qed.

(** *** Fetching *)

Definition opens (c : string) (id : IdentityKeypair) (e vk : Z * bytes) : Prop :=
  e.1 = vk.1 ∧
  (let! aad := buildKeyWrapAAD c (publicKey id) in
   unwrapChannelKey e.2 (secretKey id) aad) = Ok vk.2.

Lemma cache_envelopes_Ok c id envs vks s :
  Forall2 (opens c id) envs vks →
  cache_envelopes c id envs s =
    (Ok tt, foldl (λ s vk, setCachedKey c vk.1 vk.2 s) s vks).
Proof.
  intros Hall. revert s. induction Hall as [|[v env] [v' k] envs vks [Hv Hu] _ IH]; intros s;
    [done|]. simpl in *. subst v'. by rewrite Hu, IH.
Qed.

Lemma prune_id m : size m ≤ MAX_VERSIONS_PER_CHANNEL → prune m = m.
Proof. intros Hm. unfold prune. by rewrite decide_False by lia. Qed.

Definition insert_all (vks : list (Z * bytes)) (m : VersionMap) : VersionMap :=
  foldl (λ m vk, <[vk.1 := vk.2]> m) m vks.

Lemma fold_setCachedKey c vks s :
  versions_ok s →
  or_default ∅ (channelKeyCache (foldl (λ s vk, setCachedKey c vk.1 vk.2 s) s vks) !! c) =
    prune (insert_all vks (or_default ∅ (channelKeyCache s !! c))).
Proof.
  intros Hs. set (m := or_default ∅ (channelKeyCache s !! c)).
  assert (Hm : m = prune m).
  { symmetry. apply prune_id. unfold m. destruct (channelKeyCache s !! c) eqn:E; simpl.
    - by apply (Hs _ _ E).
    - rewrite map_size_empty. unfold MAX_VERSIONS_PER_CHANNEL. lia. }
  clear Hs. unfold m in Hm at 1. generalize dependent m. revert s.
  induction vks as [|[v k] vks IH]; intros s m Hm; simpl; [done|].
  apply IH. rewrite setCachedKey_map, lookup_insert_eq. simpl. by rewrite Hm, prune_insert.
Qed.

(** What is cached for the channel once the server's envelopes are. *)
Lemma getChannelKey_fetches c v s id envs vks :
  versions_ok s → identityKeypair s = Some id → cached s c v = None →
  getKeyEnvelopes (calls s) c = Ok envs → Forall2 (opens c id) envs vks →
  let m := insert_all vks (or_default ∅ (channelKeyCache s !! c)) in
  (getChannelKey c v s).1 =
    match (if decide (newer m v < 3) then m !! v else None) with
    | Some key => Ok key
    | None => Throw "Channel key not available"
    end.
Proof.
  intros Hs Hid Hc Hg Hall. cbv zeta. unfold getChannelKey, fetchAndCacheChannelKeys.
  rewrite Hc, Hid, Hg.
  assert (Hcached : ∀ s', cached (foldl (λ s vk, setCachedKey c vk.1 vk.2 s) s' vks) c v =
    or_default ∅ (channelKeyCache (foldl (λ s vk, setCachedKey c vk.1 vk.2 s) s' vks) !! c)
      !! v).
  { intros s'. unfold cached. by destruct (channelKeyCache _ !! c). }
  destruct envs as [|e envs].
  - inversion Hall. subst. change (cached (count 1 0 s) c v) with (cached s c v).
    rewrite Hc. cbn [insert_all foldl].
    assert (E : or_default ∅ (channelKeyCache s !! c) !! v = None).
    { unfold cached in Hc. by destruct (channelKeyCache s !! c). }
    rewrite E. by case_decide.
  - rewrite (cache_envelopes_Ok c id _ vks) by done.
    change (cached (schedulePersist (foldl (λ s vk, setCachedKey c vk.1 vk.2 s)
      (count 1 0 s) vks)) c v) with
      (cached (foldl (λ s vk, setCachedKey c vk.1 vk.2 s) (count 1 0 s) vks) c v).
    rewrite Hcached, fold_setCachedKey by done. rewrite prune_lookup.
    change (channelKeyCache (count 1 0 s)) with (channelKeyCache s).
    unfold MAX_VERSIONS_PER_CHANNEL. case_decide; [|done].
    by destruct (insert_all vks (or_default ∅ (channelKeyCache s !! c)) !! v).
Qed.

(** a cached key is returned without asking the server; otherwise the key the
    server's envelope holds for the version is returned, unless three newer versions
    are known; an error of the server or of an envelope is passed on. *)
Theorem getChannelKey_correct c v s id envs vks :
  versions_ok s → identityKeypair s = Some id →
  (∀ key, cached s c v = Some key → getChannelKey c v s = (Ok key, s)) ∧
  (∀ e, cached s c v = None → getKeyEnvelopes (calls s) c = Throw e →
     (getChannelKey c v s).1 = Throw e) ∧
  (cached s c v = None → getKeyEnvelopes (calls s) c = Ok envs →
     Forall2 (opens c id) envs vks →
     ∀ key, insert_all vks (or_default ∅ (channelKeyCache s !! c)) !! v = Some key →
     newer (insert_all vks (or_default ∅ (channelKeyCache s !! c))) v < 3 →
     (getChannelKey c v s).1 = Ok key).
Proof.
  intros Hs Hid. split; [|split].
  - intros key Hk. unfold getChannelKey. by rewrite Hk.
  - intros e Hc Hg. unfold getChannelKey, fetchAndCacheChannelKeys. by rewrite Hc, Hid, Hg.
  - intros Hc Hg Hall key Hkey Hn.
    rewrite (getChannelKey_fetches c v s id envs vks) by done. by rewrite decide_True, Hkey.
Qed.

(** a message under a version that three newer known versions follow cannot be
    opened: the fetch returns the key and unwraps it, the cache drops it at once, and
    the call throws. *)
Theorem old_version_unavailable c v s id envs vks key :
  versions_ok s → identityKeypair s = Some id → cached s c v = None →
  getKeyEnvelopes (calls s) c = Ok envs → Forall2 (opens c id) envs vks →
  (v, key) ∈ vks →
  3 ≤ newer (insert_all vks (or_default ∅ (channelKeyCache s !! c))) v →
  (getChannelKey c v s).1 = Throw "Channel key not available".
Proof.
  intros Hs Hid Hc Hg Hall _ Hn. rewrite (getChannelKey_fetches c v s id envs vks) by done.
  by rewrite decide_False by lia.
Qed.

(** *** From one member to another *)

Context `{!CryptoLaws}.

Lemma wrap_members_elem n c key members envs uid pub :
  wrap_members n c key members = Ok envs → (uid, pub) ∈ members →
  ∃ n' env, wrap_for n' c key (uid, pub) = Ok (uid, env) ∧ (uid, env) ∈ envs.
Proof.
  revert n envs. induction members as [|[u p] members IH]; intros n envs; simpl;
    [by intros _ ?%elem_of_nil|].
  intros (e & He & (es & Hes & [= <-])%result_bind_Ok)%result_bind_Ok
    [[= -> ->]|Hin]%elem_of_cons.
  - assert (E : e.1 = u).
    { unfold wrap_for in He. apply result_bind_Ok in He as (aad & _ & He).
      by apply result_bind_Ok in He as (env & _ & [= <-]). }
    exists n, e.2. rewrite <-E at 2 3. rewrite <-surjective_pairing. split; [|by apply list_elem_of_here].
    rewrite He. by destruct e; simpl in *; subst.
  - destruct (IH (S n) es Hes Hin) as (n' & env & H1 & H2). exists n', env.
    split; [done|]. by apply list_elem_of_further.
Qed.

(** key distribution works end to end: the envelopes one client wraps for the
    members, served to a member that has no key of the channel, give that member the
    channel key. *)
Theorem key_distribution c key members s envs uid sk :
  length key = 32 →
  (∀ n, length (random_nonce n) = 12 ∧
    rejectLowOrderPoint (x_public (random_secret n)) = Ok tt) →
  (wrapKeyForMembers c key members s).1 = Ok envs →
  (uid, ed_public sk) ∈ members →
  ∃ env, (uid, env) ∈ envs ∧
    ∀ r v, getKeyEnvelopes (calls r) c = Ok [(v, env)] →
      identityKeypair r = Some {| secretKey := sk; publicKey := ed_public sk |} →
      channelKeyCache r !! c = None →
      (getChannelKey c v r).1 = Ok key ∧
      cached (getChannelKey c v r).2 c v = Some key.
Proof.
  intros Hk Hrand Hw Hin. simpl in Hw.
  destruct (wrap_members_elem _ _ _ _ _ _ _ Hw Hin) as (n & env & He & Henv).
  exists env. split; [done|]. intros r v Hg Hid Hc.
  unfold wrap_for in He. apply result_bind_Ok in He as (aad & Haad & He).
  apply result_bind_Ok in He as (env' & Hwrap & [= ->]). simpl in Haad, Hwrap.
  destruct (Hrand n) as [Hn Hlow].
  destruct (unwrap_wrap _ _ _ _ _ _ Hk Hn Hlow Hwrap) as [_ Hu].
  assert (Hnone : cached r c v = None) by (unfold cached; by rewrite Hc).
  unfold getChannelKey, fetchAndCacheChannelKeys. rewrite Hnone, Hid, Hg.
  simpl. rewrite Haad. simpl. rewrite Hu. simpl.
  assert (E : cached (schedulePersist (setCachedKey c v key (count 1 0 r))) c v = Some key).
  { change (cached (setCachedKey c v key (count 1 0 r)) c v = Some key).
    rewrite cached_setCachedKey, decide_True by done. simpl. rewrite Hc. simpl.
    rewrite prune_id by (rewrite map_size_insert_None, map_size_empty by apply lookup_empty;
      unfold MAX_VERSIONS_PER_CHANNEL; lia). apply lookup_insert_eq. }
  rewrite E. done.
Qed.

(** *** Rotation *)

(** The server's versions are unsigned, and a rotation answers with the next one. *)
Context (Hserver_versions : ∀ n c envs, getKeyEnvelopes n c = Ok envs →
  Forall (λ e, 0 ≤ e.1)%Z envs).
Context (Hrotate_next : ∀ n c cur envs v,
  rotateChannelKeyRpc n c cur envs = Ok v → v = (cur + 1)%Z).

Lemma cache_envelopes_ok c id envs s :
  Forall (λ e, 0 ≤ e.1)%Z envs → versions_ok s → versions_ok (cache_envelopes c id envs s).2.
Proof.
  intros Hall. revert s. induction Hall as [|[v env] envs Hv _ IH]; intros s Hs; simpl; [done|].
  case_match; [|done]. apply IH. by apply setCachedKey_ok.
Qed.
Lemma fetch_ok c s : versions_ok s → versions_ok (fetchAndCacheChannelKeys c s).2.
Proof.
  intros Hs. unfold fetchAndCacheChannelKeys. case_match; [|done].
  destruct (getKeyEnvelopes _ c) as [envs|] eqn:E; [|done].
  pose proof (cache_envelopes_ok c i envs (count 1 0 s) (Hserver_versions _ _ _ E) Hs) as Hok.
  destruct envs; [done|]. by destruct (cache_envelopes _ _ _ _) as [[] s2].
Qed.

Lemma setCachedKey_newest_kept c v k s :
  (∀ v', is_Some (cached s c v') → (v' < v)%Z) →
  cached (setCachedKey c v k s) c v = Some k.
Proof.
  intros Hlt. rewrite cached_setCachedKey, decide_True by done. rewrite prune_lookup.
  set (m := or_default ∅ (channelKeyCache s !! c)).
  assert (E : newer (<[v:=k]> m) v = 0).
  { unfold newer. rewrite filter_none; [done|]. apply Forall_forall. intros w Hw.
    rewrite <-sorted_versions_perm in Hw.
    apply sorted_versions_elem, lookup_insert_is_Some in Hw as [<-|[_ Hw]]; [lia|].
    specialize (Hlt w). unfold cached in Hlt. unfold m in Hw.
    destruct (channelKeyCache s !! c); simpl in *; [specialize (Hlt Hw); lia|].
    rewrite lookup_empty in Hw. by destruct Hw. }
  rewrite E, decide_True by (unfold MAX_VERSIONS_PER_CHANNEL; lia). apply lookup_insert_eq.
Qed.

Lemma rotate_attempt_Ok attempts c members cur s v s' :
  versions_ok s → (∀ v', is_Some (cached s c v') → (v' ≤ cur)%Z) →
  rotate_attempt attempts c members cur s = (Ok v, s') →
  (cur < v)%Z ∧ ∃ n d key envs,
    rotateChannelKeyRpc n c (v - 1) envs = Ok v ∧
    wrap_members d c key members = Ok envs ∧ cached s' c v = Some key.
Proof.
  revert cur s. induction attempts as [|attempts IH]; intros cur s Hs Hcur; simpl;
    (destruct (wrap_members _ c _ members) as [envs|] eqn:Ew; [|done]);
    (destruct (rotateChannelKeyRpc _ c cur envs) as [v0|err] eqn:Er).
  1, 3: intros [= -> <-]; pose proof (Hrotate_next _ _ _ _ _ Er) as Hv; split; [lia|];
    (do 4 eexists; split; [replace (v - 1)%Z with cur by lia; exact Er|]);
    (split; [exact Ew|]); apply setCachedKey_newest_kept; intros v' Hv'%Hcur; lia.
  { done. }
  set (s2 := count 1 0 (count 0 (length members) (count 0 1 s))).
  pose proof (fetch_ok c s2 Hs) as Hs3.
  destruct (fetchAndCacheChannelKeys c s2) as [[|e] s3]; [|done]. simpl in Hs3.
  destruct (getLatestKeyVersion c s3) as [latest|] eqn:El; [|done].
  destruct (negb (latest =? 0)%Z && (cur <? latest)%Z) eqn:Eb; [|done]. intros Hrot.
  apply andb_true_iff in Eb as [_ Hlt%Z.ltb_lt].
  destruct (getLatest_spec _ _ _ Hs3 El) as [_ Hle].
  destruct (IH latest s3 Hs3 Hle Hrot) as [Hv Hex]. split; [lia|done].
Qed.

(** A fetch that succeeds has asked the server once. *)
Lemma cache_envelopes_calls c id envs s : calls (cache_envelopes c id envs s).2 = calls s.
Proof.
  revert s. induction envs as [|[v env] envs IH]; intros s; simpl; [done|]. case_match; [|done].
  by rewrite IH.
Qed.
Lemma fetch_calls c s s' : fetchAndCacheChannelKeys c s = (Ok tt, s') → calls s' = calls s + 1.
Proof.
  unfold fetchAndCacheChannelKeys. destruct (identityKeypair s) as [id|]; [|done].
  destruct (getKeyEnvelopes _ c) as [[|env envs]|]; [by intros [= <-]| |done].
  pose proof (cache_envelopes_calls c id (env :: envs) (count 1 0 s)) as E.
  destruct (cache_envelopes _ _ _ _) as [[[]|] s2]; [|done]. intros [= <-]. exact E.
Qed.
End effects.

Section rotation.
Context `{CryptoLaws}.
Context (getKeyEnvelopes : nat → string → result string (list (Z * bytes))).
Context (random_key random_secret random_nonce : nat → bytes).
Context (Hserver_versions : ∀ n c envs, getKeyEnvelopes n c = Ok envs →
  Forall (λ e, 0 ≤ e.1)%Z envs).
Implicit Types rpc : nat → string → Z → list (string * bytes) → result string Z.

#[local] Notation rotates rpc :=
  (rotateChannelKey getKeyEnvelopes rpc random_key random_secret random_nonce).
#[local] Notation wraps s c members :=
  (wrap_members random_secret random_nonce (draws s + 1) c (random_key (draws s)) members).

(** The state once the server has been asked to rotate, and once the keys have been
    fetched again *)
Definition once_asked (members : list (string * bytes)) (s : KeyState) : KeyState :=
  count 1 0 (count 0 (length members) (count 0 1 s)).
Definition refetched (c : string) (members : list (string * bytes)) (s : KeyState)
    : result string unit * KeyState :=
  fetchAndCacheChannelKeys getKeyEnvelopes c (once_asked members s).

(** Two servers that answer the first and the third request alike are not told apart. *)
Lemma rotate_asks_twice rpc rpc' c members cur s :
  (∀ n c' cur' envs, n = calls s ∨ n = calls s + 2 → rpc' n c' cur' envs = rpc n c' cur' envs) →
  rotates rpc' c members cur s = rotates rpc c members cur s.
Proof.
  intros Heq. unfold rotateChannelKey. cbn. rewrite !Nat.add_0_r.
  destruct (wrap_members _ _ _ c _ members) as [envs|]; [|done].
  rewrite (Heq (calls s)) by auto.
  destruct (rpc (calls s) c cur envs) as [|err]; [done|].
  destruct (fetchAndCacheChannelKeys _ c _) as [[[]|] s3] eqn:Ef; [|done].
  apply fetch_calls in Ef. cbn in Ef.
  destruct (getLatestKeyVersion c s3) as [latest|]; [|done].
  destruct (negb _ && _); [|done].
  destruct (wrap_members _ _ _ c _ members) as [envs2|]; [|done].
  rewrite !Nat.add_0_r, (Heq (calls s3)) by (rewrite Ef; right; lia). done.
Qed.

(** The first request refused *)
Lemma rotate_refused rpc c members cur s envs err :
  wraps s c members = Ok envs → rpc (calls s) c cur envs = Throw err →
  rotates rpc c members cur s =
    match refetched c members s with
    | (Throw e, s3) => (Throw e, s3)
    | (Ok _, s3) =>
        match getLatestKeyVersion c s3 with
        | Some latest =>
            if negb (latest =? 0)%Z && (cur <? latest)%Z
            then rotate_attempt getKeyEnvelopes rpc random_key random_secret random_nonce
                   0 c members latest s3
            else (Throw err, s3)
        | None => (Throw err, s3)
        end
    end.
Proof.
  intros Hw Hr. unfold rotateChannelKey. cbn. rewrite !Nat.add_0_r. by rewrite Hw, Hr.
Qed.

(** C31: rotating a channel's key.  A successful rotation, also one that lost the first race
    and tried again, stores under the version the server gave it the very key whose
    envelopes the server accepted, above every version known before.  The server is asked
    to rotate at most twice, as the first and the third request, whatever it answers.  When
    it refuses the first time, the keys are fetched; the second request is made for the
    newest version and its outcome is the call's if that version is newer than the one the
    caller knew, and otherwise the first refusal is thrown. *)
Theorem rotateChannelKey_correct rpc c members cur s :
  (∀ n c cur envs v, rpc n c cur envs = Ok v → v = (cur + 1)%Z) →
  versions_ok s → (∀ v', is_Some (cached s c v') → (v' ≤ cur)%Z) →
  let r := rotates rpc c members cur s in
  (∀ v, r.1 = Ok v →
    (∀ v', is_Some (cached s c v') → (v' < v)%Z) ∧
    ∃ n d key envs,
      rpc n c (v - 1)%Z envs = Ok v ∧
      wrap_members random_secret random_nonce d c key members = Ok envs ∧
      cached r.2 c v = Some key ∧ getChannelKey getKeyEnvelopes c v r.2 = (Ok key, r.2)) ∧
  (∀ rpc', (∀ n c' cur' envs, n = calls s ∨ n = calls s + 2 →
     rpc' n c' cur' envs = rpc n c' cur' envs) → rotates rpc' c members cur s = r) ∧
  (∀ envs err, wraps s c members = Ok envs → rpc (calls s) c cur envs = Throw err →
    let s3 := (refetched c members s).2 in
    (∀ e, (refetched c members s).1 = Throw e → r.1 = Throw e) ∧
    ((refetched c members s).1 = Ok tt →
      (∀ latest envs2, getLatestKeyVersion c s3 = Some latest → (0 < latest)%Z →
         (cur < latest)%Z → wraps s3 c members = Ok envs2 →
         r.1 = rpc (calls s + 2) c latest envs2) ∧
      ((∀ latest, getLatestKeyVersion c s3 = Some latest → (latest ≤ cur)%Z) →
         r.1 = Throw err))).
Proof.
  intros Hnext Hs Hcur r. split; [|split].
  - intros v Hv. destruct r as [r0 s'] eqn:Er. cbn in Hv. subst r0.
    destruct (rotate_attempt_Ok getKeyEnvelopes rpc random_key random_secret random_nonce
      Hserver_versions Hnext 1 c members cur s v s' Hs Hcur Er)
      as (Hv & n & d & key & envs & H1 & H2 & H3).
    split; [intros v' Hv'%Hcur; lia|]. exists n, d, key, envs. split_and!; try done.
    unfold getChannelKey. cbn. by rewrite H3.
  - intros rpc' Heq. by apply rotate_asks_twice.
  - intros envs err Hw Hr s3. unfold r. rewrite (rotate_refused rpc c members cur s envs err Hw Hr).
    destruct (refetched c members s) as [f s3'] eqn:Ef. cbn in s3. subst s3. split.
    { by intros e [= ->]. }
    cbn. intros ->. apply fetch_calls in Ef. cbn in Ef. split.
    + intros latest envs2 El Hpos Hlt Hw2. rewrite El, (proj2 (Z.eqb_neq latest 0)) by lia.
      rewrite (proj2 (Z.ltb_lt cur latest)) by done. cbn. rewrite !Nat.add_0_r, Hw2.
      replace (calls s3') with (calls s + 2) by lia. by destruct (rpc _ c latest envs2).
    + intros Hold. destruct (getLatestKeyVersion c s3') as [latest|]; [|done].
      specialize (Hold latest eq_refl). rewrite (proj2 (Z.ltb_ge cur latest)) by done.
      by rewrite andb_false_r.
Qed.
End rotation.

(** ** Concrete inputs, with the toy operations *)

#[local] Existing Instance toy.
#[local] Existing Instance toy_laws.

Definition demo_identity : IdentityKeypair :=
  {| secretKey := demo_secret; publicKey := ed_public demo_secret |}.
Definition demo_keys : KeyState :=
  initChannelKeys demo_identity 0
    {| identityKeypair := None; masterKey := None; channelKeyCache := ∅;
       persistTimeout := false; calls := 0; draws := 0 |}.
Definition key_of (v : Z) : bytes := replicate 32 v.
Definition demo_aad : bytes :=
  [PURPOSE_KEY_WRAP] ++ utf8 demo_channel ++ ed_public demo_secret.
Definition demo_envelope (v : Z) : bytes :=
  or_default [] (result_opt
    (wrapChannelKey demo_secret demo_nonce (key_of v) (ed_public demo_secret) demo_aad)).
(** The server has versions 1 to 4. *)
Definition demo_server (n : nat) (c : string) : result string (list (Z * bytes)) :=
  Ok ((λ v, (v, demo_envelope v)) <$> [1; 2; 3; 4]%Z).
Definition demo_versions : list (Z * bytes) := (λ v, (v, key_of v)) <$> [1; 2; 3; 4]%Z.

Lemma demo_keys_versions : versions_ok demo_keys.
Proof. apply map_Forall_empty. Qed.
Lemma demo_server_opens :
  Forall2 (opens demo_channel demo_identity)
    ((λ v, (v, demo_envelope v)) <$> [1; 2; 3; 4]%Z) demo_versions.
Proof. repeat constructor. Qed.

Lemma setCachedKey_newest_witness :
  let s := setCachedKey "c" 3 [] (setCachedKey "c" 1 [] (setCachedKey "c" 2 [] demo_keys)) in
  cached (setCachedKey "c" 4 [] s) "c" 1 = None ∧
  getLatestKeyVersion "c" (setCachedKey "c" 4 [] demo_keys) = Some 4%Z.
Proof.
  split; [reflexivity|].
  rewrite (proj1 (proj2 (proj2 (setCachedKey_newest "c" 4 [] demo_keys demo_keys_versions
    ltac:(lia))))). reflexivity.
Defined.

Lemma getChannelKey_correct_witness :
  (getChannelKey demo_server demo_channel 2 demo_keys).1 = Ok (key_of 2).
Proof.
  destruct (getChannelKey_correct demo_server demo_channel 2 demo_keys demo_identity
    ((λ v, (v, demo_envelope v)) <$> [1; 2; 3; 4]%Z) demo_versions demo_keys_versions eq_refl)
    as (_ & _ & H).
  apply H; [reflexivity|reflexivity|exact demo_server_opens|reflexivity|].
  vm_compute. lia.
Defined.

Lemma old_version_unavailable_witness :
  (getChannelKey demo_server demo_channel 1 demo_keys).1 = Throw "Channel key not available".
Proof.
  apply (old_version_unavailable demo_server demo_channel 1 demo_keys demo_identity
    ((λ v, (v, demo_envelope v)) <$> [1; 2; 3; 4]%Z) demo_versions (key_of 1));
    [exact demo_keys_versions|reflexivity..|exact demo_server_opens|apply list_elem_of_here|].
  vm_compute. lia.
Defined.

Lemma key_distribution_witness :
  ∃ env, (getChannelKey (λ _ _, Ok [(1%Z, env)]) demo_channel 1 demo_keys).1 =
    Ok (key_of 5).
Proof.
  exists (demo_envelope 5).
  destruct (key_distribution (λ _ _, Ok [(1%Z, demo_envelope 5)]) (λ _, demo_secret)
    (λ _, demo_nonce) demo_channel (key_of 5) [("u", ed_public demo_secret)] demo_keys
    [("u", demo_envelope 5)] "u" demo_secret eq_refl) as (env & Hin & Hall).
  - intros n. split; reflexivity.
  - vm_compute. reflexivity.
  - apply list_elem_of_here.
  - apply list_elem_of_singleton in Hin. injection Hin as ->.
    apply Hall; reflexivity.
Defined.

Definition demo_rpc (n : nat) (c : string) (cur : Z) (envs : list (string * bytes))
    : result string Z := Ok (cur + 1)%Z.
Definition demo_rotation : result string Z * KeyState :=
  rotateChannelKey demo_server demo_rpc (λ _, key_of 9) (λ _, demo_secret)
    (λ _, demo_nonce) demo_channel [("u", ed_public demo_secret)] 0 demo_keys.

Lemma rotateChannelKey_correct_witness :
  demo_rotation.1 = Ok 1%Z ∧ ∀ v', is_Some (cached demo_keys demo_channel v') → (v' < 1)%Z.
Proof.
  assert (E : demo_rotation.1 = Ok 1%Z) by (vm_compute; reflexivity).
  split; [exact E|].
  destruct (rotateChannelKey_correct demo_server (λ _, key_of 9) (λ _, demo_secret)
    (λ _, demo_nonce)) with (rpc := demo_rpc) (c := demo_channel)
    (members := [("u", ed_public demo_secret)]) (cur := 0%Z) (s := demo_keys) as [Hok _].
  - intros n c envs [= <-]. repeat constructor; simpl; lia.
  - by intros n c cur envs v [= <-].
  - exact demo_keys_versions.
  - intros v' Hv'. unfold cached in Hv'. simpl in Hv'. rewrite lookup_empty in Hv'.
    by destruct Hv'.
  - exact (proj1 (Hok 1%Z E)).
Defined.
