(* ===== verification/E2ee.v ===== *)
(** * Message and file encryption ([crypto/messages.ts], [crypto/file-encryption.ts])

    Sign, then encrypt under the newest channel key with the context as additional
    data; decrypt, then verify.  A file has a key of its own, wrapped under the channel
    key with the key version in front. *)

From S2P Require Export ChannelKeys Json.

Definition SIGNATURE_SIZE : nat := 64.
Definition FORMAT_V1 : Z := 1.

(** ** The content format *)

Record AttachmentInput := { microThumb : bytes; filename : string; contentType : string }.

(** [message text], and what was sent along with it *)
Record ParsedMessageContent := { text : option json; attachmentMeta : option json }.

Section content.
(** [JSON.stringify], [JSON.parse], and base64 *)
Context (stringify : json → string) (parse : string → result unit json).
Context (btoa : bytes → string).

Definition attachment_json (a : AttachmentInput) : json :=
  JObj [("mt", JStr (btoa (microThumb a))); ("fn", JStr (filename a));
        ("ct", JStr (contentType a))].
(** [{ t: text, a?: {...} }]; [attachments] is a map in insertion order. *)
Definition content_json (text : string) (attachments : list (string * AttachmentInput)) : json :=
  JObj (("t", JStr text) ::
    (if decide (attachments = []) then []
     else [("a", JObj (foldl (λ a ia, obj_set ia.1 (attachment_json ia.2) a) [] attachments))])).

Definition buildMessageContent (text : string) (attachments : list (string * AttachmentInput))
    : bytes := FORMAT_V1 :: utf8 (stringify (content_json text attachments)).

Definition parseMessageContent (content : bytes) : result unit ParsedMessageContent :=
  match content with
  | [] => Ok {| text := Some (JStr ""); attachmentMeta := None |}
  | b :: rest =>
      if decide (b = FORMAT_V1) then
        let! j := parse (from_utf8 rest) in
        match j with
        | JNull => Throw tt
        | _ => Ok {| text := json_get "t" (Some j); attachmentMeta := json_get "a" (Some j) |}
        end
      else Ok {| text := Some (JStr (from_utf8 content)); attachmentMeta := None |}
  end.

Definition safeParseMessageText (content : bytes) : option json :=
  match parseMessageContent content with
  | Ok p => text p
  | Throw _ => Some (JStr (from_utf8 content))
  end.

(** a message's text and attachment data are read back from its content, legacy
    content without the format octet is its own text, and showing any content
    whatever does not throw. *)
Theorem content_roundtrip t atts legacy :
  NoDup (atts.*1) →
  parse (stringify (content_json t atts)) = Ok (content_json t atts) →
  (∃ a, parseMessageContent (buildMessageContent t atts) =
      Ok {| text := Some (JStr t); attachmentMeta := a |} ∧
    (atts = [] → a = None) ∧
    (∀ id, json_get id a = attachment_json <$> obj_get id atts)) ∧
  (head legacy ≠ Some FORMAT_V1 →
     safeParseMessageText legacy = Some (JStr (from_utf8 legacy))).
Proof.
  intros Hnd Hp. split.
  - unfold parseMessageContent, buildMessageContent. rewrite decide_True by done.
    rewrite from_utf8_utf8, Hp. cbn [result_bind].
    set (a := json_get "a" (Some (content_json t atts))).
    exists a. split; [done|]. unfold a, content_json. case_decide as Hatts.
    + subst. split; [done|]. intros id. done.
    + split; [done|]. intros id.
      assert (E : foldl (λ a ia, obj_set ia.1 (attachment_json ia.2) a) [] atts =
        (λ ia, (ia.1, attachment_json ia.2)) <$> atts).
      { rewrite <-(obj_from_entries_id ((λ ia, (ia.1, attachment_json ia.2)) <$> atts)).
        - unfold obj_from_entries. generalize (@nil (string * json)).
          clear. induction atts as [|x atts IH]; intros acc; [done|]. apply IH.
        - rewrite <-list_fmap_compose. exact Hnd. }
      rewrite E.
      change (obj_get id ((λ ia, (ia.1, attachment_json ia.2)) <$> atts) =
        attachment_json <$> obj_get id atts). apply obj_get_fmap.
  - intros Hl. unfold safeParseMessageText, parseMessageContent.
    destruct legacy as [|b legacy]; [done|]. rewrite decide_False; [done|].
    intros ->. by apply Hl.
Qed.
End content.

(** ** Encryption *)

(** The client's cryptographic state: the session's identity, the channel keys and the
    imported AES keys. *)
Record CryptoState := {
  identity : option IdentityKeypair;
  keys : KeyState;
  aesKeyCache : AesKeyCache;
}.

Definition with_keys (k : KeyState) (s : CryptoState) : CryptoState :=
  {| identity := identity s; keys := k; aesKeyCache := aesKeyCache s |}.
Definition with_aes (c : AesKeyCache) (s : CryptoState) : CryptoState :=
  {| identity := identity s; keys := keys s; aesKeyCache := c |}.

Record EncryptedMessage := { keyVersion : Z; data : bytes }.

Section e2ee.
Context `{Crypto}.
Context (getKeyEnvelopes : nat → string → result string (list (Z * bytes))).

Definition encryptMessage (nonce : bytes) (channelId : string) (content : bytes)
    (s : CryptoState) : result string EncryptedMessage * CryptoState :=
  match identity s with
  | None => (Throw "E2EE session not initialized", s)
  | Some id =>
      match getLatestKeyVersion channelId (keys s) with
      | None => (Throw "No channel key available", s)
      | Some version =>
          match getChannelKey getKeyEnvelopes channelId version (keys s) with
          | (Throw e, ks) => (Throw e, with_keys ks s)
          | (Ok channelKey, ks) =>
              let s := with_keys ks s in
              let payload := ed_sign (secretKey id) content ++ content in
              match buildContextAAD PURPOSE_MESSAGE channelId version with
              | Throw e => (Throw e, s)
              | Ok aad =>
                  let '(r, aes) := encryptPayload nonce channelKey payload aad (aesKeyCache s) in
                  (let! d := r in Ok {| keyVersion := version; data := d |}, with_aes aes s)
              end
          end
      end
  end.

Definition decryptMessage (channelId : string) (version : Z) (d senderPublicKey : bytes)
    (s : CryptoState) : result string bytes * CryptoState :=
  match getChannelKey getKeyEnvelopes channelId version (keys s) with
  | (Throw e, ks) => (Throw e, with_keys ks s)
  | (Ok channelKey, ks) =>
      let s := with_keys ks s in
      match buildContextAAD PURPOSE_MESSAGE channelId version with
      | Throw e => (Throw e, s)
      | Ok aad =>
          let '(r, aes) := decryptPayload channelKey d aad (aesKeyCache s) in
          (let! payload := r in
           if decide (length payload < SIGNATURE_SIZE) then Throw "Decrypted payload too short"
           else
             let signature := slice 0 SIGNATURE_SIZE payload in
             let content := drop SIGNATURE_SIZE payload in
             if verifySignature senderPublicKey signature content then Ok content
             else Throw "Message signature verification failed",
           with_aes aes s)
      end
  end.

(** *** Files *)

Definition encryptFile (iv fileKey fileBytes : bytes) : result string bytes :=
  let! r := aesGcmEncrypt iv fileKey fileBytes in Ok (r.2 ++ r.1).
Definition decryptFile (fileKey d : bytes) : result string bytes :=
  if decide (length d < 28) then Throw "Encrypted file data too short"
  else aesGcmDecrypt fileKey (drop 12 d) (slice 0 12 d).

Definition wrapFileKey (nonce : bytes) (channelId : string) (fileKey : bytes)
    (s : CryptoState) : result string bytes * CryptoState :=
  match getLatestKeyVersion channelId (keys s) with
  | None => (Throw "No channel key available", s)
  | Some version =>
      match getChannelKey getKeyEnvelopes channelId version (keys s) with
      | (Throw e, ks) => (Throw e, with_keys ks s)
      | (Ok channelKey, ks) =>
          let s := with_keys ks s in
          match buildContextAAD PURPOSE_FILE_KEY channelId version with
          | Throw e => (Throw e, s)
          | Ok aad =>
              let '(r, aes) := encryptPayload nonce channelKey fileKey aad (aesKeyCache s) in
              (let! wrappedKey := r in Ok (u32be version ++ wrappedKey), with_aes aes s)
          end
      end
  end.

Definition unwrapFileKey (channelId : string) (encryptedKey : bytes) (s : CryptoState)
    : result string bytes * CryptoState :=
  if decide (length encryptedKey < 5) then (Throw "Invalid encrypted key: too short", s)
  else
    let version := or_default 0%Z (get_u32be encryptedKey) in
    let wrappedKey := drop 4 encryptedKey in
    match getChannelKey getKeyEnvelopes channelId version (keys s) with
    | (Throw e, ks) => (Throw e, with_keys ks s)
    | (Ok channelKey, ks) =>
        let s := with_keys ks s in
        match buildContextAAD PURPOSE_FILE_KEY channelId version with
        | Throw e => (Throw e, s)
        | Ok aad =>
            let '(r, aes) := decryptPayload channelKey wrappedKey aad (aesKeyCache s) in
            (r, with_aes aes s)
        end
    end.

(** *** What the two sides of a channel share *)

Lemma getChannelKey_cached c v k s :
  cached s c v = Some k → getChannelKey getKeyEnvelopes c v s = (Ok k, s).
Proof. intros Hk. unfold getChannelKey. by rewrite Hk. Qed.

Context `{!CryptoLaws}.
Context (K : bytes → Prop) (HK : keys_ok K).

(** The channel id is a ULID, the version a uint32, and the state has the channel key
    and a sound AES cache. *)
Record holds_key (s : CryptoState) (c : string) (v : Z) (k : bytes) : Prop := {
  hk_cached : cached (keys s) c v = Some k;
  hk_key : K k;
  hk_aes : cache_ok K (aesKeyCache s);
  hk_channel : length (utf8 c) = ULID_LENGTH;
  hk_version : (0 ≤ v < 2 ^ 32)%Z;
}.

Lemma context_aad s c v k p :
  holds_key s c v k → buildContextAAD p c v = Ok ([p] ++ utf8 c ++ u32be v).
Proof. intros Hs. apply buildContextAAD_Ok. by destruct Hs. Qed.

Lemma decryptMessage_payload s c v k pk nonce payload :
  holds_key s c v k → length nonce = 12 →
  ∃ s', decryptMessage c v
      (nonce ++ gcm_encrypt k nonce ([PURPOSE_MESSAGE] ++ utf8 c ++ u32be v) payload) pk s =
    (if decide (length payload < SIGNATURE_SIZE) then Throw "Decrypted payload too short"
     else if verifySignature pk (slice 0 SIGNATURE_SIZE payload) (drop SIGNATURE_SIZE payload)
          then Ok (drop SIGNATURE_SIZE payload)
          else Throw "Message signature verification failed", s').
Proof.
  intros Hs Hn. unfold decryptMessage.
  rewrite (getChannelKey_cached c v k) by apply Hs.
  rewrite (context_aad s c v k) by done.
  destruct (decryptPayload_Ok K nonce k payload ([PURPOSE_MESSAGE] ++ utf8 c ++ u32be v)
    (aesKeyCache s)) as (c' & E & _); [done|apply Hs..|done|].
  cbn [with_keys aesKeyCache]. rewrite E. by eexists.
Qed.

Lemma encrypt_decrypt alice bob c v k nonce content id :
  identity alice = Some id → publicKey id = ed_public (secretKey id) →
  getLatestKeyVersion c (keys alice) = Some v →
  holds_key alice c v k → holds_key bob c v k → length nonce = 12 →
  ∃ m, (encryptMessage nonce c content alice).1 = Ok m ∧ keyVersion m = v ∧
    (decryptMessage c (keyVersion m) (data m) (publicKey id) bob).1 = Ok content.
Proof.
  intros Hid Hpk Hl Ha Hb Hn.
  unfold encryptMessage. rewrite Hid, Hl, (getChannelKey_cached c v k) by apply Ha.
  rewrite (context_aad alice c v k) by done.
  destruct (encryptPayload_Ok K nonce k (ed_sign (secretKey id) content ++ content)
    ([PURPOSE_MESSAGE] ++ utf8 c ++ u32be v) (aesKeyCache alice)) as (c' & E & _);
    [done|apply Ha..|].
  cbn [with_keys aesKeyCache]. rewrite E. eexists. split; [done|]. split; [done|].
  cbn [keyVersion data].
  destruct (decryptMessage_payload bob c v k (publicKey id) nonce
    (ed_sign (secretKey id) content ++ content) Hb Hn) as (s' & Hd).
  rewrite Hd. cbn [fst]. unfold SIGNATURE_SIZE.
  rewrite decide_False by (rewrite length_app, ed_sign_length; lia).
  unfold slice. rewrite drop_0, (take_app_length' _ _ 64), (drop_app_length' _ _ 64)
    by (by rewrite ed_sign_length).
  unfold verifySignature. by rewrite Hpk, ed_verify_sign.
Qed.
Lemma encrypted_opens alice bob c v k nonce content id m :
  identity alice = Some id → publicKey id = ed_public (secretKey id) →
  getLatestKeyVersion c (keys alice) = Some v →
  holds_key alice c v k → holds_key bob c v k → length nonce = 12 →
  (encryptMessage nonce c content alice).1 = Ok m →
  (decryptMessage c (keyVersion m) (data m) (publicKey id) bob).1 = Ok content ∧
  keyVersion m = v.
Proof.
  intros Hid Hpk Hl Ha Hb Hn Hm.
  destruct (encrypt_decrypt alice bob c v k nonce content id) as (m' & Hm' & ? & ?); [done..|].
  rewrite Hm in Hm'. by injection Hm' as <-.
Qed.

(** a message one member encrypts under the channel's newest key is decrypted to the
    same content by every member that holds that key version and knows the sender's
    public key; with no session, or no key, nothing is sent. *)
Theorem message_roundtrip alice bob c v k nonce content id :
  identity alice = Some id → publicKey id = ed_public (secretKey id) →
  getLatestKeyVersion c (keys alice) = Some v →
  holds_key alice c v k → holds_key bob c v k → length nonce = 12 →
  (∃ m, (encryptMessage nonce c content alice).1 = Ok m ∧ keyVersion m = v ∧
     (decryptMessage c (keyVersion m) (data m) (publicKey id) bob).1 = Ok content) ∧
  (∀ s, identity s = None →
     encryptMessage nonce c content s = (Throw "E2EE session not initialized", s)) ∧
  (∀ s, is_Some (identity s) → getLatestKeyVersion c (keys s) = None →
     encryptMessage nonce c content s = (Throw "No channel key available", s)).
Proof.
  intros Hid Hpk Hl Ha Hb Hn. split; [|split].
  - by apply (encrypt_decrypt alice bob c v k).
  - intros s Hs. unfold encryptMessage. by rewrite Hs.
  - intros s [id' Hs] Hnone. unfold encryptMessage. by rewrite Hs, Hnone.
Qed.

(** C30: what decryption returns is authentic: the ciphertext is the encryption, under the
    cached key of exactly this channel and version and with their additional data, of
    a signature followed by the content, and the signature is one the sender's key
    verifies; a content whose signature does not verify is refused. *)
Theorem decryptMessage_authentic s c v k d pk content s' :
  holds_key s c v k →
  (decryptMessage c v d pk s = (Ok content, s') →
     ∃ nonce signature, length signature = 64 ∧
       d = nonce ++ gcm_encrypt k nonce ([PURPOSE_MESSAGE] ++ utf8 c ++ u32be v)
             (signature ++ content) ∧
       verifySignature pk signature content = true) ∧
  (∀ nonce signature, length nonce = 12 → length signature = 64 →
     verifySignature pk signature content = false →
     (decryptMessage c v (nonce ++ gcm_encrypt k nonce
        ([PURPOSE_MESSAGE] ++ utf8 c ++ u32be v) (signature ++ content)) pk s).1 =
     Throw "Message signature verification failed").
Proof.
  intros Hs. split.
  - unfold decryptMessage. rewrite (getChannelKey_cached c v k) by apply Hs.
    rewrite (context_aad s c v k) by done. cbn [with_keys aesKeyCache].
    unfold decryptPayload. case_decide; [done|].
    destruct (getAesKey_ok K k decrypt (aesKeyCache s) HK) as (aes & E & _); [apply Hs..|].
    rewrite E. cbn [result_bind].
    destruct (gcm_decrypt k _ _ _) as [payload|] eqn:Eg; [|done]. cbn [result_bind].
    unfold SIGNATURE_SIZE. case_decide as Hlen; [done|].
    destruct (verifySignature _ _ _) eqn:Ev; [|done]. intros [= <- _].
    exists (slice 0 12 d), (slice 0 64 payload). split.
    { unfold slice. rewrite drop_0, length_take. lia. }
    split; [|exact Ev]. apply gcm_decrypt_Ok in Eg.
    unfold slice at 3. rewrite drop_0. cbn [Nat.sub]. rewrite (take_drop 64 payload).
    rewrite <-Eg. unfold slice. rewrite drop_0. cbn [Nat.sub]. symmetry. apply take_drop.
  - intros nonce signature Hn Hsig Hv.
    destruct (decryptMessage_payload s c v k pk nonce (signature ++ content) Hs Hn)
      as (s1 & Hd).
    rewrite Hd. cbn [fst]. unfold SIGNATURE_SIZE.
    rewrite decide_False by (rewrite length_app; lia).
    unfold slice. rewrite drop_0. cbn [Nat.sub].
    rewrite (take_app_length' _ _ 64), (drop_app_length' _ _ 64) by done. by rewrite Hv.
Qed.

(** a file, and the wrapped form of its key, are read back: the wrapped key starts
    with the version of the channel key and any member with that version unwraps it,
    also after the channel's key was rotated. *)
Theorem file_roundtrip alice bob c v k iv nonce fileKey file :
  getLatestKeyVersion c (keys alice) = Some v →
  holds_key alice c v k → holds_key bob c v k →
  length iv = 12 → length nonce = 12 → length fileKey = 32 →
  (∃ d, encryptFile iv fileKey file = Ok d ∧ decryptFile fileKey d = Ok file ∧
     length d = length file + 28) ∧
  (∃ wrapped, (wrapFileKey nonce c fileKey alice).1 = Ok wrapped ∧ length wrapped = 64 ∧
     get_u32be wrapped = Some v ∧ (unwrapFileKey c wrapped bob).1 = Ok fileKey) ∧
  (∀ short, length short < 5 →
     unwrapFileKey c short bob = (Throw "Invalid encrypted key: too short", bob)).
Proof.
  intros Hl Ha Hb Hiv Hn Hf. split; [|split].
  - assert (Hi : importKey fileKey = Ok fileKey).
    { unfold importKey. rewrite Hf, decide_True; [done|].
      apply list_elem_of_further, list_elem_of_further, list_elem_of_here. }
    unfold encryptFile, aesGcmEncrypt. rewrite Hi. cbn [result_bind fst snd].
    eexists. split; [done|]. rewrite length_app, gcm_length, Hiv. split; [|lia].
    unfold decryptFile, aesGcmDecrypt. rewrite decide_False
      by (rewrite length_app, gcm_length, Hiv; lia).
    rewrite Hi. cbn [result_bind]. unfold slice. rewrite drop_0. cbn [Nat.sub].
    rewrite (take_app_length' _ _ 12), (drop_app_length' _ _ 12) by done.
    apply gcm_decrypt_encrypt.
  - unfold wrapFileKey. rewrite Hl, (getChannelKey_cached c v k) by apply Ha.
    rewrite (context_aad alice c v k) by done.
    destruct (encryptPayload_Ok K nonce k fileKey
      ([PURPOSE_FILE_KEY] ++ utf8 c ++ u32be v) (aesKeyCache alice)) as (c1 & E & _);
      [done|apply Ha..|].
    cbn [with_keys aesKeyCache]. rewrite E. cbn [result_bind fst].
    eexists. split; [done|]. split.
    { rewrite !length_app, u32be_length, gcm_length, Hn, Hf. done. }
    split; [apply get_u32be_u32be, Hb|].
    unfold unwrapFileKey. rewrite decide_False by (rewrite !length_app, u32be_length, Hn; lia).
    rewrite get_u32be_u32be by apply Hb. cbn [or_default].
    rewrite (getChannelKey_cached c v k) by apply Hb.
    rewrite (context_aad bob c v k) by done.
    rewrite (drop_app_length' (u32be v) _ 4) by done.
    destruct (decryptPayload_Ok K nonce k fileKey
      ([PURPOSE_FILE_KEY] ++ utf8 c ++ u32be v) (aesKeyCache bob)) as (c2 & E2 & _);
      [done|apply Hb..|done|].
    cbn [with_keys aesKeyCache]. rewrite E2. done.
  - intros short Hs. unfold unwrapFileKey. by rewrite decide_True.
Qed.
End e2ee.

(** ** Concrete inputs, with the toy operations *)

#[local] Existing Instance toy.
#[local] Existing Instance toy_laws.

Definition demo_member : CryptoState :=
  {| identity := Some demo_identity;
     keys := setCachedKey demo_channel 7 demo_key demo_keys; aesKeyCache := ∅ |}.
Definition no_server (n : nat) (c : string) : result string (list (Z * bytes)) :=
  Throw "offline".

Lemma demo_member_holds : holds_key (λ k, k = demo_key) demo_member demo_channel 7 demo_key.
Proof. by split. Qed.

Lemma content_roundtrip_witness :
  let j := content_json (λ _, "thumb") "hi" [("a1", {| microThumb := []; filename := "f.png"; contentType := "image/png" |})] in
  ∃ a, parseMessageContent (λ _, Ok j)
    (buildMessageContent (λ _, "json") (λ _, "thumb") "hi"
      [("a1", {| microThumb := []; filename := "f.png"; contentType := "image/png" |})]) =
    Ok {| text := Some (JStr "hi"); attachmentMeta := a |}.
Proof.
  intros j.
  destruct (content_roundtrip (λ _, "json") (λ _, Ok j) (λ _, "thumb") "hi"
    [("a1", {| microThumb := []; filename := "f.png"; contentType := "image/png" |})] [])
    as [(a & Ha & _) _]; [|reflexivity|exists a; exact Ha].
  apply (bool_decide_unpack _). reflexivity.
Defined.

Lemma message_roundtrip_witness :
  ∃ m, (encryptMessage no_server demo_nonce demo_channel [104; 105]%Z demo_member).1 = Ok m ∧
    keyVersion m = 7%Z ∧
    (decryptMessage no_server demo_channel (keyVersion m) (data m)
      (publicKey demo_identity) demo_member).1 = Ok [104; 105]%Z.
Proof.
  apply (message_roundtrip no_server (λ k, k = demo_key) demo_keys_ok demo_member demo_member
    demo_channel 7 demo_key demo_nonce [104; 105]%Z demo_identity);
    first [exact demo_member_holds|reflexivity].
Defined.

Lemma decryptMessage_authentic_witness :
  (decryptMessage no_server demo_channel 7
    (demo_nonce ++ gcm_encrypt demo_key demo_nonce
      ([PURPOSE_MESSAGE] ++ utf8 demo_channel ++ u32be 7) (replicate 64 0%Z ++ [104]%Z))
    (publicKey demo_identity) demo_member).1 = Throw "Message signature verification failed".
Proof.
  apply (decryptMessage_authentic no_server (λ k, k = demo_key) demo_keys_ok demo_member
    demo_channel 7 demo_key [] (publicKey demo_identity) [104]%Z demo_member
    demo_member_holds); reflexivity.
Defined.

Lemma file_roundtrip_witness :
  ∃ wrapped, (wrapFileKey no_server demo_nonce demo_channel (key_of 4) demo_member).1 =
      Ok wrapped ∧ length wrapped = 64 ∧ get_u32be wrapped = Some 7%Z ∧
    (unwrapFileKey no_server demo_channel wrapped demo_member).1 = Ok (key_of 4).
Proof.
  apply (file_roundtrip no_server (λ k, k = demo_key) demo_keys_ok demo_member demo_member
    demo_channel 7 demo_key demo_nonce demo_nonce (key_of 4) []);
    first [exact demo_member_holds|reflexivity].
Defined.
