(* ===== verification/SafetyNumber.v ===== *)
(** * Safety numbers ([crypto/safety-number.ts])

    The sixty digits two users compare: thirty from each one's key and id, in an order
    that does not depend on who looks. *)

From S2P Require Export Crypto.

Open Scope meza_scope.

(** ** Decimal numerals *)

(** The digits of [String(n)], most significant first; [fuel] bounds their number. *)
Fixpoint decimal (fuel : nat) (n : Z) : list Z :=
  match fuel with
  | 0 => []
  | S fuel => if (n <? 10)%Z then [n] else decimal fuel (n / 10) ++ [(n `mod` 10)%Z]
  end.
Definition digit_ascii (d : Z) : Ascii.ascii := Ascii.ascii_of_N (Z.to_N (48 + d)).
Fixpoint digits_string (ds : list Z) : string :=
  match ds with [] => EmptyString | d :: ds => String (digit_ascii d) (digits_string ds) end.

(** [String(n).padStart(5, '0')], for [n] below 10^20 *)
Definition pad5 (n : Z) : string :=
  let ds := decimal 20 n in digits_string (replicate (5 - length ds) 0%Z ++ ds).

Definition is_digit (a : Ascii.ascii) : Prop := (48 ≤ Ascii.N_of_ascii a ≤ 57)%N.
Fixpoint all_digits (s : string) : Prop :=
  match s with EmptyString => True | String a s => is_digit a ∧ all_digits s end.

Lemma decimal_bounds fuel k n :
  (0 ≤ n < 10 ^ Z.of_nat (S k))%Z → k < fuel →
  length (decimal fuel n) ≤ S k ∧ Forall (λ d, 0 ≤ d < 10)%Z (decimal fuel n).
Proof.
  revert k n. induction fuel as [|fuel IH]; intros k n Hn Hk; [lia|]. simpl.
  destruct (Z.ltb_spec n 10); [simpl; split; [lia|apply Forall_singleton; lia]|].
  destruct k as [|k]; [simpl in Hn; lia|].
  rewrite Nat2Z.inj_succ, Z.pow_succ_r in Hn by lia.
  destruct (IH k (n / 10)%Z) as [H1 H2]; [|lia|].
  { split; [apply Z.div_pos; lia|apply Z.div_lt_upper_bound; lia]. }
  rewrite length_app, Forall_app. simpl. split; [lia|]. split; [done|].
  apply Forall_singleton, Z.mod_pos_bound; lia.
Qed.
Lemma digits_string_length ds : String.length (digits_string ds) = length ds.
Proof. induction ds; simpl; congruence. Qed.
Lemma digits_string_digits ds :
  Forall (λ d, 0 ≤ d < 10)%Z ds → all_digits (digits_string ds).
Proof.
  induction 1 as [|d ds Hd _ IH]; simpl; [done|]. split; [|done]. unfold is_digit, digit_ascii.
  rewrite Ascii.N_ascii_embedding by lia. lia.
Qed.
Lemma pad5_spec n :
  (0 ≤ n < 100000)%Z → String.length (pad5 n) = 5 ∧ all_digits (pad5 n).
Proof.
  intros Hn. destruct (decimal_bounds 20 4 n) as [H1 H2]; [done|lia|].
  unfold pad5. rewrite digits_string_length, length_app, length_replicate.
  split; [lia|]. apply digits_string_digits, Forall_app. split; [|done].
  apply Forall_replicate. lia.
Qed.

Lemma append_length s s' : String.length (String.app s s') = String.length s + String.length s'.
Proof. induction s as [|a s IH]; simpl; [done|]. f_equal. exact IH. Qed.
Lemma append_digits s s' : all_digits s → all_digits s' → all_digits (String.app s s').
Proof. induction s; simpl; tauto. Qed.

(** ** Fingerprints *)

Definition FINGERPRINT_VERSION : bytes := [0; 0]%Z.
Definition HASH_ITERATIONS : N := 5200.

(** The five octets at [offset], big-endian; the hash has sixty-four octets, so [offset + 4],
    at most 29, is in range *)
Definition chunk (hash : bytes) (offset : nat) : Z :=
  let b i := nth (offset + i) hash 0%Z in
  (b 0%nat * 2 ^ 32 + b 1%nat * 2 ^ 24 + b 2%nat * 2 ^ 16 + b 3%nat * 2 ^ 8 + b 4%nat)%Z.

Definition numeric (hash : bytes) : string :=
  foldl (λ digits offset, String.app digits (pad5 (chunk hash offset `mod` 100000))) ""
    [0; 5; 10; 15; 20; 25].

Section sha512.
Context (sha512 : bytes → bytes).

Definition iterated_hash (publicKey : bytes) (userId : string) : bytes :=
  N.iter (HASH_ITERATIONS - 1) (λ hash, sha512 (hash ++ publicKey))
    (sha512 (FINGERPRINT_VERSION ++ publicKey ++ utf8 userId ++ publicKey)).

Definition computeFingerprint (publicKey : bytes) (userId : string) : result string string :=
  if decide (length publicKey ≠ 32) then Throw "Public key must be 32 bytes (Ed25519)"
  else if decide (userId = "") then Throw "User ID is required"
  else Ok (numeric (iterated_hash publicKey userId)).

Definition computeSafetyNumber (myKey : bytes) (myId : string) (theirKey : bytes)
    (theirId : string) : result string string :=
  let! myFingerprint := computeFingerprint myKey myId in
  let! theirFingerprint := computeFingerprint theirKey theirId in
  Ok (if String.leb myFingerprint theirFingerprint
      then String.app myFingerprint theirFingerprint
      else String.app theirFingerprint myFingerprint).
End sha512.

(** ** The grid *)

Definition formatSafetyNumber (safetyNumber : string) : result string (list (list string)) :=
  if decide (String.length safetyNumber ≠ 60) then Throw "Safety number must be 60 digits"
  else Ok ((λ row, (λ col, String.substring ((row * 3 + col) * 5) 5 safetyNumber) <$> [0; 1; 2])
             <$> [0; 1; 2; 3]).

Lemma numeric_spec hash : String.length (numeric hash) = 30 ∧ all_digits (numeric hash).
Proof.
  unfold numeric. cbn [foldl].
  assert (Hc : ∀ o, String.length (pad5 (chunk hash o `mod` 100000)) = 5 ∧
    all_digits (pad5 (chunk hash o `mod` 100000))).
  { intros o. apply pad5_spec, Z.mod_pos_bound. lia. }
  rewrite !append_length. destruct (Hc 0), (Hc 5), (Hc 10), (Hc 15), (Hc 20), (Hc 25).
  split; [simpl; lia|]. by repeat apply append_digits.
Qed.

Lemma substring_app n m s :
  String.app (String.substring 0 n s) (String.substring n m s) = String.substring 0 (n + m) s.
Proof.
  revert n. induction s as [|a s IH]; intros [|n]; simpl; try done.
  exact (f_equal (String a) (IH n)).
Qed.
Lemma substring_all s : String.substring 0 (String.length s) s = s.
Proof. induction s; simpl; congruence. Qed.

(** The groups of a row-major grid, joined. *)
Definition joined (grid : list (list string)) : string :=
  foldl String.app "" (mjoin grid).

Lemma format_joined s :
  String.length s = 60 →
  ∃ grid, formatSafetyNumber s = Ok grid ∧ length grid = 4 ∧
    Forall (λ row, length row = 3) grid ∧ joined grid = s.
Proof.
  intros Hs. unfold formatSafetyNumber. rewrite decide_False by auto.
  eexists. split; [done|]. split; [done|]. split; [by repeat constructor|].
  unfold joined. cbn [fmap list_fmap mjoin list_join app foldl Nat.mul Nat.add].
  change (String.app "" (String.substring 0 5 s)) with (String.substring 0 5 s).
  rewrite !substring_app. cbn [Nat.add]. rewrite <-Hs. apply substring_all.
Qed.

(** two users see the same safety number whoever looks, it has sixty decimal digits,
    and the grid shown has four rows of three groups that, joined, are the number; a
    key of another length or an empty id is refused. *)
Theorem safety_number_symmetric sha512 a ia b ib n :
  (computeSafetyNumber sha512 a ia b ib = Ok n ↔ computeSafetyNumber sha512 b ib a ia = Ok n) ∧
  (computeSafetyNumber sha512 a ia b ib = Ok n →
     String.length n = 60 ∧ all_digits n ∧
     ∃ grid, formatSafetyNumber n = Ok grid ∧ length grid = 4 ∧
       Forall (λ row, length row = 3) grid ∧ joined grid = n) ∧
  (length a = 32 → length b = 32 → ia ≠ "" → ib ≠ "" →
     ∃ n, computeSafetyNumber sha512 a ia b ib = Ok n) ∧
  (length a ≠ 32 ∨ ia = "" ∨ length b ≠ 32 ∨ ib = "" →
     ∃ e, computeSafetyNumber sha512 a ia b ib = Throw e).
Proof.
  assert (Hfp : ∀ k i f, computeFingerprint sha512 k i = Ok f →
    String.length f = 30 ∧ all_digits f).
  { intros k i f. unfold computeFingerprint. repeat case_decide; try done.
    intros [= <-]. apply numeric_spec. }
  assert (Hord : ∀ f g : string,
    (if String.leb f g then String.app f g else String.app g f) =
    (if String.leb g f then String.app g f else String.app f g)).
  { intros f g. destruct (String.leb f g) eqn:E1, (String.leb g f) eqn:E2; try done.
    - by rewrite (String.leb_antisym f g).
    - destruct (String.leb_total f g); congruence. }
  unfold computeSafetyNumber. split; [|split; [|split]].
  - destruct (computeFingerprint sha512 a ia), (computeFingerprint sha512 b ib); simpl;
      try done. by rewrite Hord.
  - intros (f & Hf & (g & Hg & [= <-])%result_bind_Ok)%result_bind_Ok.
    destruct (Hfp _ _ _ Hf) as [Lf Df], (Hfp _ _ _ Hg) as [Lg Dg].
    assert (Hl : String.length (if String.leb f g then String.app f g else String.app g f) = 60)
      by (case_match; rewrite append_length; lia).
    split; [done|]. split; [case_match; by apply append_digits|]. by apply format_joined.
  - intros Ha Hb Hia Hib. unfold computeFingerprint.
    rewrite (decide_False (P := length a ≠ 32)), (decide_False (P := length b ≠ 32)) by auto.
    rewrite (decide_False (P := ia = "")), (decide_False (P := ib = "")) by done.
    by eexists.
  - intros Hbad. unfold computeFingerprint.
    repeat case_decide; simpl; eauto; naive_solver.
Qed.

Definition toy_sha (b : bytes) : bytes := replicate 64 (checksum b).

Lemma safety_number_symmetric_witness :
  ∃ n, computeSafetyNumber toy_sha (replicate 32 1%Z) "alice" (replicate 32 2%Z) "bob" = Ok n ∧
    computeSafetyNumber toy_sha (replicate 32 2%Z) "bob" (replicate 32 1%Z) "alice" = Ok n ∧
    String.length n = 60.
Proof.
  destruct (safety_number_symmetric toy_sha (replicate 32 1%Z) "alice" (replicate 32 2%Z) "bob" "")
    as (_ & _ & H & _).
  destruct H as [n Hn]; [reflexivity|reflexivity|discriminate|discriminate|].
  exists n. split; [exact Hn|].
  destruct (safety_number_symmetric toy_sha (replicate 32 1%Z) "alice" (replicate 32 2%Z) "bob" n)
    as (H1 & H2 & _). split; [exact (proj1 H1 Hn)|exact (proj1 (H2 Hn))].
Defined.
