(* ===== verification/Identity.v ===== *)
(** * The identity key pair outside the session ([crypto/keys.ts], [crypto/credentials.ts],
    [crypto/recovery.ts], [crypto/device-recovery.ts])

    The keys derived from a password and from a recovery phrase, and the three ways an
    identity is kept or handed on: encrypted under the master key on this device, under
    the recovery key on the server, and wrapped for another device of the user.
    Randomness is an argument. *)

From Stdlib Require Import String.
From S2P Require Export JsString Primitives SafetyNumber.

Open Scope meza_scope.

Definition zeros (n : nat) : bytes := replicate n 0%Z.

(** ** Hexadecimal input *)

Definition hex_value (a : Ascii.ascii) : option Z :=
  let n := Z.of_N (Ascii.N_of_ascii a) in
  (if (48 <=? n) && (n <=? 57) then Some (n - 48)
   else if (97 <=? n) && (n <=? 102) then Some (n - 87)
   else if (65 <=? n) && (n <=? 70) then Some (n - 55)
   else None)%Z.

Fixpoint hex_pairs (l : list Z) : bytes :=
  match l with x :: y :: l => (x * 16 + y)%Z :: hex_pairs l | _ => [] end.
Definition hexToBytes (hex : string) : result string bytes :=
  let err := Throw "Invalid hex string in key derivation" in
  if decide (String.length hex `mod` 2 ≠ 0) then err
  else match mapM hex_value (list_ascii_of_string hex) with
       | Some values => Ok (hex_pairs values)
       | None => err
       end.

Lemma hex_value_digit d : (0 ≤ d < 16)%Z → hex_value (hex_digit d) = Some d.
Proof.
  intros Hd.
  assert (H : Forall (λ d, hex_value (hex_digit d) = Some d) (seqZ 0 16)).
  { apply (bool_decide_unpack _). vm_compute. exact I. }
  rewrite Forall_forall in H. apply H, elem_of_seqZ. lia.
Qed.

Lemma toHex_even b : String.length (toHex b) = length b * 2.
Proof. induction b as [|x b IH]; simpl; lia. Qed.

(** What [argon2id] prints is read back. *)
Lemma hexToBytes_toHex b : octets b → hexToBytes (toHex b) = Ok b.
Proof.
  intros Hb. unfold hexToBytes.
  rewrite toHex_even, Nat.Div0.mod_mul, decide_False by auto.
  assert (Hm : ∃ vs, mapM hex_value (list_ascii_of_string (toHex b)) = Some vs ∧ hex_pairs vs = b).
  { induction Hb as [|x b Hx Hb (vs & Hvs & E)]; [by exists []|].
    destruct (octet_digits x Hx) as [H1 H2].
    exists ((x / 16)%Z :: (x `mod` 16)%Z :: vs). split.
    - cbn [toHex list_ascii_of_string mapM]. cbn [mbind option_bind].
      rewrite !hex_value_digit by done. cbn. by rewrite Hvs.
    - simpl. rewrite E. f_equal. pose proof (Z.div_mod x 16). lia. }
  by destruct Hm as (vs & -> & ->).
Qed.

Section identity.
Context `{Crypto}.

(** ** Keys from a password *)

(** hash-wasm's Argon2id, and Web Crypto's PBKDF2-SHA256 of a password, salt and number of
    iterations, to 32 bytes *)
Context (argon2id : string → bytes → string) (pbkdf2 : bytes → bytes → N → bytes).

Record DerivedKeys := { dk_masterKey : bytes; dk_authKey : bytes }.

Definition HKDF_INFO_MASTER : bytes := utf8 "meza-master-key".
Definition HKDF_INFO_AUTH : bytes := utf8 "meza-auth-key".

Definition deriveKeys (password : string) (salt : bytes) : result string DerivedKeys :=
  let! argonOutput := hexToBytes (argon2id password salt) in
  Ok {| dk_masterKey := hkdf argonOutput (zeros 32) HKDF_INFO_MASTER;
        dk_authKey := hkdf argonOutput (zeros 32) HKDF_INFO_AUTH |}.

(** ** On this device *)

(** The bundle that is stored: the nonce, then the ciphertext *)
Definition persistIdentity (iv : bytes) (keypair : IdentityKeypair) (masterKey : bytes)
    : result string bytes :=
  let! c := aesGcmEncrypt iv masterKey (serializeIdentity keypair) in Ok (c.2 ++ c.1).

Definition restoreIdentity (masterKey : bytes) (packed : option bytes)
    : result string (option IdentityKeypair) :=
  match packed with
  | None => Ok None
  | Some packed =>
      let! plaintext := aesGcmDecrypt masterKey (drop 12 packed) (slice 0 12 packed) in
      let! keypair := deserializeIdentity plaintext in Ok (Some keypair)
  end.

(** ** On the server, under the recovery phrase *)

Definition PBKDF2_ITERATIONS : N := 600000.
Definition PBKDF2_SALT : bytes := utf8 "meza-recovery".

Definition deriveRecoveryKey (phrase : string) : bytes :=
  pbkdf2 (utf8 (toLowerCase (trim phrase))) PBKDF2_SALT PBKDF2_ITERATIONS.
Definition deriveRecoveryVerifier (recoveryKey : bytes) : bytes :=
  hkdf recoveryKey (zeros 32) (utf8 "meza-recovery-verifier").

Definition encryptRecoveryBundle (iv recoveryKey keyBundle : bytes) :=
  aesGcmEncrypt iv recoveryKey keyBundle.
Definition decryptRecoveryBundle (recoveryKey ciphertext iv : bytes) :=
  aesGcmDecrypt recoveryKey ciphertext iv.

(** ** To another device *)

Definition RECOVERY_WRAP_INFO : bytes := utf8 "meza-device-recovery-v1".

(** [ephemeral] is the sender's fresh X25519 secret, [nonce] the 12 random octets. *)
Definition wrapIdentityForRecovery (ephemeral nonce : bytes) (identity : IdentityKeypair)
    (recipientEphemeralPub : bytes) : result string bytes :=
  let! _ := rejectLowOrderPoint recipientEphemeralPub in
  let! shared := x_shared ephemeral recipientEphemeralPub in
  let salt := x_public ephemeral ++ recipientEphemeralPub in
  let wrappingKey := hkdf shared salt RECOVERY_WRAP_INFO in
  let ciphertext := gcm_encrypt wrappingKey nonce [] (serializeIdentity identity) in
  Ok (x_public ephemeral ++ nonce ++ ciphertext).

Definition unwrapIdentityFromRecovery (envelope ephemeralSecret : bytes)
    : result string IdentityKeypair :=
  if decide (length envelope ≠ 124) then Throw "Invalid recovery envelope size"
  else
    let senderEphemeralPub := slice 0 32 envelope in
    let nonce := slice 32 44 envelope in
    let ciphertext := drop 44 envelope in
    let! _ := rejectLowOrderPoint senderEphemeralPub in
    let! shared := x_shared ephemeralSecret senderEphemeralPub in
    let salt := senderEphemeralPub ++ x_public ephemeralSecret in
    let wrappingKey := hkdf shared salt RECOVERY_WRAP_INFO in
    let! plaintext := gcm_decrypt wrappingKey nonce [] ciphertext in
    deserializeIdentity plaintext.

(** ** Properties *)

Definition identity_ok (kp : IdentityKeypair) : Prop :=
  length (secretKey kp) = 32 ∧ length (publicKey kp) = 32.

Lemma deserialize_serialize kp :
  identity_ok kp → deserializeIdentity (serializeIdentity kp) = Ok kp.
Proof.
  intros [Hs Hp]. unfold deserializeIdentity, serializeIdentity.
  rewrite length_app, Hs, Hp, decide_False by (intros []; done). unfold slice.
  rewrite drop_0, (take_app_length' _ _ 32), (drop_app_length' _ _ 32) by done.
  rewrite take_ge by (simpl; lia). by destruct kp.
Qed.
Lemma importKey_ok k : length k = 32 → importKey k = Ok k.
Proof.
  intros E. unfold importKey. rewrite decide_True; [done|]. rewrite E.
  apply list_elem_of_further, list_elem_of_further, list_elem_of_here.
Qed.

Context `{!CryptoLaws}.

Lemma aesGcm_roundtrip iv key pt :
  length key = 32 →
  ∃ c, aesGcmEncrypt iv key pt = Ok (c, iv) ∧ aesGcmDecrypt key c iv = Ok pt ∧
    length c = length pt + 16.
Proof.
  intros Hk. unfold aesGcmEncrypt, aesGcmDecrypt. rewrite importKey_ok by done.
  cbn [result_bind]. exists (gcm_encrypt key iv [] pt).
  split; [done|]. split; [apply gcm_decrypt_encrypt|apply gcm_length].
Qed.

(** What a device accepts as its identity was sealed under the master key. *)
Lemma restore_sealed masterKey packed kp :
  restoreIdentity masterKey (Some packed) = Ok (Some kp) →
  drop 12 packed = gcm_encrypt masterKey (slice 0 12 packed) [] (serializeIdentity kp) ∧
  identity_ok kp.
Proof.
  intros Hr. unfold restoreIdentity, aesGcmDecrypt in Hr.
  apply result_bind_Ok in Hr as (pt & (k & Hk & Hpt)%result_bind_Ok & Hr).
  apply result_bind_Ok in Hr as (kp' & Hd & [= ->]).
  assert (k = masterKey) as -> by (unfold importKey in Hk; case_decide; congruence).
  apply gcm_decrypt_Ok in Hpt. unfold deserializeIdentity in Hd.
  destruct (decide (length pt ≠ 64)) as [|Hl]; [done|]. injection Hd as <-.
  apply dec_stable in Hl. rewrite Hpt. unfold serializeIdentity, identity_ok, slice. simpl.
  rewrite !drop_0, !length_take, length_drop, Hl.
  rewrite (take_ge (drop 32 pt)) by (rewrite length_drop; lia). by rewrite take_drop.
Qed.

(** an identity stored under the master key is restored from what was stored, 92
    octets, with the same master key; without a stored bundle there is none; and
    whatever bundle is accepted, from wherever it came, is an identity sealed under
    that master key. *)
Theorem identity_persisted iv kp masterKey :
  length iv = 12 → length masterKey = 32 → identity_ok kp →
  (∃ packed, persistIdentity iv kp masterKey = Ok packed ∧ length packed = 92 ∧
     restoreIdentity masterKey (Some packed) = Ok (Some kp)) ∧
  restoreIdentity masterKey None = Ok None ∧
  (∀ packed kp', restoreIdentity masterKey (Some packed) = Ok (Some kp') →
     drop 12 packed = gcm_encrypt masterKey (slice 0 12 packed) [] (serializeIdentity kp') ∧
     identity_ok kp').
Proof.
  intros Hiv Hk Hkp. split; [|split; [done|apply restore_sealed]].
  destruct (aesGcm_roundtrip iv masterKey (serializeIdentity kp) Hk) as (c & E & D & Hl).
  exists (iv ++ c). unfold persistIdentity. rewrite E. cbn [result_bind fst snd].
  split; [done|]. split.
  - rewrite length_app, Hl, Hiv. unfold serializeIdentity. rewrite length_app.
    destruct Hkp as [-> ->]. done.
  - unfold restoreIdentity, slice. rewrite drop_0, drop_app_length' by done.
    rewrite take_app_length' by done. rewrite D. cbn [result_bind].
    rewrite deserialize_serialize by done. done.
Qed.

(** the recovery phrase gives the identity back: what was encrypted under the key of
    a phrase is decrypted by the key of any phrase that reads the same but for letter
    case and surrounding white space, to the identity it was made from. *)
Theorem recovery_phrase_restores iv kp p p' :
  (∀ pw salt n, length (pbkdf2 pw salt n) = 32) → identity_ok kp →
  toLowerCase (trim p) = toLowerCase (trim p') →
  ∃ c, encryptRecoveryBundle iv (deriveRecoveryKey p) (serializeIdentity kp) = Ok (c, iv) ∧
    (let! keyBundle := decryptRecoveryBundle (deriveRecoveryKey p') c iv in
     deserializeIdentity keyBundle) = Ok kp.
Proof.
  intros Hl Hkp E. unfold deriveRecoveryKey at 2. rewrite <-E.
  destruct (aesGcm_roundtrip iv (deriveRecoveryKey p) (serializeIdentity kp) (Hl _ _ _))
    as (c & Hc & Hd & _).
  exists c. split; [exact Hc|]. unfold decryptRecoveryBundle.
  unfold deriveRecoveryKey in Hd. rewrite Hd. by apply deserialize_serialize.
Qed.

Lemma recovery_parts (pub nonce c : bytes) :
  length pub = 32 → length nonce = 12 → length c = 80 →
  let e := pub ++ nonce ++ c in
  length e = 124 ∧ slice 0 32 e = pub ∧ slice 32 44 e = nonce ∧ drop 44 e = c.
Proof.
  intros Hp Hn Hc. cbv zeta. unfold slice. rewrite drop_0, !length_app.
  rewrite (take_app_length' pub _ (32 - 0)), (drop_app_length' pub _ 32) by done.
  rewrite (take_app_length' nonce _ (44 - 32)) by done.
  replace 44 with (length pub + 12) by lia. rewrite <-drop_drop, drop_app_length.
  rewrite (drop_app_length' nonce _ 12) by done. split; [lia|done].
Qed.

(** an identity wrapped for another device of the user is a 124-octet envelope that
    this device, and its secret, unwrap to the identity; an envelope of another size or
    with a low-order point is rejected before any key is derived, and so is a request
    with a low-order point. *)
Theorem device_recovery ephemeral nonce kp secret env bad :
  identity_ok kp → length nonce = 12 →
  rejectLowOrderPoint (x_public ephemeral) = Ok tt →
  wrapIdentityForRecovery ephemeral nonce kp (x_public secret) = Ok env →
  length env = 124 ∧ unwrapIdentityFromRecovery env secret = Ok kp ∧
  (length bad ≠ 124 →
     unwrapIdentityFromRecovery bad secret = Throw "Invalid recovery envelope size") ∧
  (length bad = 124 → toHex (slice 0 32 bad) ∈ X25519_LOW_ORDER_POINTS →
     unwrapIdentityFromRecovery bad secret = Throw "low-order point") ∧
  (toHex bad ∈ X25519_LOW_ORDER_POINTS →
     wrapIdentityForRecovery ephemeral nonce kp bad = Throw "low-order point").
Proof.
  intros Hkp Hn Hlow Hw. unfold wrapIdentityForRecovery in Hw.
  apply result_bind_Ok in Hw as (_ & _ & (sh & Hsh & [= <-])%result_bind_Ok).
  set (c := gcm_encrypt _ nonce [] (serializeIdentity kp)).
  destruct (recovery_parts (x_public ephemeral) nonce c) as (Hl & H1 & H2 & H3);
    [apply x_public_length|done| |].
  { unfold c, serializeIdentity. rewrite gcm_length, length_app.
    by destruct Hkp as [-> ->]. }
  split; [exact Hl|]. split; [|split; [|split]].
  - unfold unwrapIdentityFromRecovery. rewrite decide_False by auto. cbv zeta.
    rewrite H1, H2, H3, Hlow. cbn [result_bind]. rewrite x_shared_comm, Hsh.
    cbn [result_bind]. unfold c. rewrite gcm_decrypt_encrypt. by apply deserialize_serialize.
  - intros Hb. unfold unwrapIdentityFromRecovery. by rewrite decide_True.
  - intros Hb Hp. unfold unwrapIdentityFromRecovery. rewrite decide_False by auto. cbv zeta.
    unfold rejectLowOrderPoint. by rewrite decide_True.
  - intros Hp. unfold wrapIdentityForRecovery, rejectLowOrderPoint. by rewrite decide_True.
Qed.
End identity.

(** ** The verification code of a recovery request *)

Section code.
Context (sha256 : bytes → bytes).

(** [String(n).padStart(6, '0')] *)
Definition pad6 (n : Z) : string :=
  let ds := decimal 20 n in digits_string (replicate (6 - length ds) 0%Z ++ ds).

Definition deriveVerificationCode (ephemeralPub : bytes) : option string :=
  num ← get_u32be (sha256 ephemeralPub);
  let padded := pad6 (num `mod` 1000000) in
  Some (substring 0 3 padded +:+ " " +:+ str_slice 3 padded).

(** The number that six digits stand for *)
Definition digits_number (ds : list Z) : Z := foldl (λ n d, n * 10 + d)%Z 0%Z ds.

Lemma digits_number_app ds d : digits_number (ds ++ [d]) = (digits_number ds * 10 + d)%Z.
Proof. unfold digits_number. by rewrite foldl_app. Qed.
Lemma decimal_number fuel n :
  (0 ≤ n < 10 ^ Z.of_nat fuel)%Z → digits_number (decimal fuel n) = n.
Proof.
  revert n. induction fuel as [|fuel IH]; intros n Hn; [simpl in Hn; unfold digits_number; simpl; lia|].
  simpl. destruct (Z.ltb_spec n 10); [done|].
  rewrite digits_number_app, IH; [pose proof (Z.div_mod n 10); lia|].
  rewrite Nat2Z.inj_succ, Z.pow_succ_r in Hn by lia.
  split; [apply Z.div_pos; lia|apply Z.div_lt_upper_bound; lia].
Qed.
Lemma zeros_number k ds : digits_number (replicate k 0%Z ++ ds) = digits_number ds.
Proof. induction k as [|k IH]; [done|exact IH]. Qed.

(** the verification code is three digits, a space and three digits, which stand for
    the first four octets of the hash modulo a million: two requests show the same code
    exactly when these agree. *)
Theorem verification_code_digits pub num :
  get_u32be (sha256 pub) = Some num →
  ∃ a b c d e f, Forall (λ x, 0 ≤ x < 10)%Z [a; b; c; d; e; f] ∧
    deriveVerificationCode pub =
      Some (digits_string [a; b; c] +:+ " " +:+ digits_string [d; e; f]) ∧
    digits_number [a; b; c; d; e; f] = (num `mod` 1000000)%Z.
Proof.
  intros Hnum. unfold deriveVerificationCode. rewrite Hnum. cbn [mbind option_bind].
  set (n := (num `mod` 1000000)%Z).
  assert (Hn : (0 ≤ n < 10 ^ Z.of_nat 6)%Z) by (apply Z.mod_pos_bound; done).
  destruct (decimal_bounds 20 5 n Hn) as [Hl Hd]; [lia|].
  assert (Hv : digits_number (decimal 20 n) = n).
  { apply decimal_number. split; [apply Hn|]. etrans; [apply Hn|done]. }
  set (ds := replicate (6 - length (decimal 20 n)) 0%Z ++ decimal 20 n).
  assert (Hds : length ds = 6) by (unfold ds; rewrite length_app, length_replicate; lia).
  assert (Hdd : Forall (λ x, 0 ≤ x < 10)%Z ds).
  { unfold ds. apply Forall_app. split; [|done]. apply Forall_replicate. lia. }
  assert (Hdv : digits_number ds = n) by (unfold ds; by rewrite zeros_number).
  unfold pad6. fold ds. clearbody ds.
  destruct ds as [|a [|b [|c [|d [|e [|f [|]]]]]]]; try done.
  exists a, b, c, d, e, f. done.
Qed.
End code.

(** ** Concrete inputs *)

#[local] Existing Instance toy.
#[local] Existing Instance toy_laws.

Definition demo_pair : IdentityKeypair := {| secretKey := demo_secret; publicKey := demo_key |}.
Definition toy_pbkdf2 (pw salt : bytes) (n : N) : bytes := replicate 32 (checksum (pw ++ salt)).

Lemma identity_persisted_witness :
  ∃ packed, persistIdentity demo_nonce demo_pair demo_key = Ok packed ∧
    restoreIdentity demo_key (Some packed) = Ok (Some demo_pair).
Proof.
  destruct (identity_persisted demo_nonce demo_pair demo_key) as [(p & H1 & _ & H2) _];
    [reflexivity..|split; reflexivity|].
  exists p. split; [exact H1|exact H2].
Defined.

Lemma recovery_phrase_restores_witness :
  ∃ c, encryptRecoveryBundle demo_nonce (deriveRecoveryKey toy_pbkdf2 "abandon able about")
      (serializeIdentity demo_pair) = Ok (c, demo_nonce) ∧
    (let! b := decryptRecoveryBundle (deriveRecoveryKey toy_pbkdf2 " Abandon ABLE about
") c demo_nonce in
     deserializeIdentity b) = Ok demo_pair.
Proof.
  apply (recovery_phrase_restores toy_pbkdf2 demo_nonce demo_pair "abandon able about");
    [intros; apply length_replicate|split; reflexivity|vm_compute; reflexivity].
Defined.

Lemma device_recovery_witness :
  ∃ env, wrapIdentityForRecovery demo_secret demo_nonce demo_pair (x_public demo_key) = Ok env ∧
    unwrapIdentityFromRecovery env demo_key = Ok demo_pair.
Proof.
  destruct (wrapIdentityForRecovery demo_secret demo_nonce demo_pair (x_public demo_key))
    as [env|e] eqn:E; [|vm_compute in E; discriminate].
  exists env. split; [reflexivity|].
  assert (Hlow : rejectLowOrderPoint (x_public demo_secret) = Ok tt) by (vm_compute; reflexivity).
  assert (Hok : identity_ok demo_pair) by (split; reflexivity).
  destruct (device_recovery demo_secret demo_nonce demo_pair demo_key env [] Hok eq_refl Hlow E)
    as (_ & Hu & _).
  exact Hu.
Defined.

Definition toy_sha256 (b : bytes) : bytes := [0; 0; 4; 210]%Z ++ replicate 28 (checksum b).

Lemma verification_code_digits_witness :
  deriveVerificationCode toy_sha256 demo_key = Some "001 234" ∧
  ∃ a b c d e f, deriveVerificationCode toy_sha256 demo_key =
      Some (digits_string [a; b; c] +:+ " " +:+ digits_string [d; e; f]) ∧
    digits_number [a; b; c; d; e; f] = 1234%Z.
Proof.
  split; [vm_compute; reflexivity|].
  destruct (verification_code_digits toy_sha256 demo_key 1234) as (a & b & c & d & e & f & _ & H1 & H2);
    [vm_compute; reflexivity|].
  exists a, b, c, d, e, f. split; [exact H1|exact H2].
Defined.
