(* ===== verification/KeyStorage.v ===== *)
(** * Channel keys outside memory ([crypto/channel-keys.ts], [crypto/invite-keys.ts])

    The cache of channel keys as JSON: written to IndexedDB under the master key and
    read back when a session starts, and packed into an invite under a secret that
    travels in its link.  The master key is a buffer that the module shares with its
    caller: what it is encrypted with is what the buffer holds at that time. *)

From S2P Require Export Json Base64 ChannelKeys Identity.

Open Scope meza_scope.

Notation heap := (gmap address bytes).
(** The record of the channel-keys store: ciphertext and nonce *)
Notation key_record := (bytes * bytes)%type.

(** ** The cache as JSON *)

(** [String(version)], for a version below 10^20 *)
Definition version_name (version : Z) : string := digits_string (decimal 20 version).

Definition versions_json (versionMap : VersionMap) : json :=
  JObj ((λ vk, (version_name vk.1, JStr (btoa vk.2))) <$> map_to_list versionMap).
Definition cache_json (cache : gmap string VersionMap) : json :=
  JObj ((λ cm, (cm.1, versions_json cm.2)) <$> map_to_list cache).

(** The properties of an object, of its objects and so on, in the order in which they
    are enumerated *)
Fixpoint json_ordered (j : json) : json :=
  match j with
  | JArr l => JArr (map json_ordered l)
  | JObj o => JObj (obj_entries (map (λ kv, (kv.1, json_ordered kv.2)) o))
  | _ => j
  end.

(** [Object.entries(j)] *)
Definition json_entries (j : json) : result string (jsobj json) :=
  let indexed l := imap (λ i x, (version_name (Z.of_nat i), x)) l in
  match j with
  | JObj o => Ok (obj_entries o)
  | JArr l => Ok (indexed l)
  | JStr s => Ok (indexed (characters s))
  | JNull => Throw "TypeError"
  | JBool _ | JNum _ => Ok []
  end.

Section key_storage.
Context `{Crypto}.
Context (stringify : json → string) (parse : string → result unit json).
(** The string a JSON value that is not a string is converted to *)
Context (to_string : json → string).

(** [Number(name)] and the decoded key.  A name that is no numeral, which the client
    never writes, is taken for an error. *)
Definition decode_version (kv : string * json) : result string (Z * bytes) :=
  match digits_value 0 kv.1 with
  | None => Throw "NaN"
  | Some version =>
      let! key := atob (match kv.2 with JStr s => s | j => to_string j end) in
      Ok (version, key)
  end.

(** Reading entries one by one, each into a map that keeps what was read before an
    error *)
Fixpoint read_all {A B} (read : A → B → result string B) (l : list A) (b : B)
    : result string unit * B :=
  match l with
  | [] => (Ok tt, b)
  | a :: l => match read a b with Ok b => read_all read l b | Throw e => (Throw e, b) end
  end.

Definition parse_bytes (data : bytes) : result string json :=
  match parse (from_utf8 data) with Ok j => Ok j | Throw _ => Throw "SyntaxError" end.

(** *** [serializeCache], [deserializeCache] *)

Definition serializeCache (cache : gmap string VersionMap) : bytes :=
  utf8 (stringify (cache_json cache)).

Definition read_channel (kv : string * json) (cache : gmap string VersionMap)
    : result string (gmap string VersionMap) :=
  let! versions := json_entries kv.2 in
  match read_all (λ kv m, let! vk := decode_version kv in Ok (<[vk.1 := vk.2]> m)) versions ∅ with
  | (Ok _, versionMap) => Ok (<[kv.1 := versionMap]> cache)
  | (Throw e, _) => Throw e
  end.
Definition deserializeCache (data : bytes) (cache : gmap string VersionMap)
    : result string unit * gmap string VersionMap :=
  match (let! j := parse_bytes data in json_entries j) with
  | Ok entries => read_all read_channel entries cache
  | Throw e => (Throw e, cache)
  end.

(** *** Storing and loading *)

Definition master_key (h : heap) (s : KeyState) : option bytes := masterKey s ≫= λ a, h !! a.

(** The database is taken to accept and to return what is stored; what can fail here is the
    encryption. *)
Definition persistToStorage (iv : bytes) (h : heap) (s : KeyState) (stored : option key_record)
    : result string unit * option key_record :=
  match master_key h s with
  | None => (Ok tt, stored)
  | Some mk =>
      match aesGcmEncrypt iv mk (serializeCache (channelKeyCache s)) with
      | Ok c => (Ok tt, Some c)
      | Throw e => (Throw e, stored)
      end
  end.

Definition stop_timer (s : KeyState) : KeyState :=
  {| identityKeypair := identityKeypair s; masterKey := masterKey s;
     channelKeyCache := channelKeyCache s; persistTimeout := false;
     calls := calls s; draws := draws s |}.

(** The debounced write: nothing happens when it was cancelled. *)
Definition persist_timer_fires (iv : bytes) (h : heap) (s : KeyState)
    (stored : option key_record) : KeyState * option key_record :=
  if persistTimeout s then
    let s := stop_timer s in (s, (persistToStorage iv h s stored).2)
  else (s, stored).

Definition flushChannelKeys (iv : bytes) (h : heap) (s : KeyState) (stored : option key_record)
    : result string unit * KeyState * option key_record :=
  let s := stop_timer s in
  if decide (masterKey s ≠ None ∧ 0 < size (channelKeyCache s)) then
    let '(r, stored) := persistToStorage iv h s stored in (r, s, stored)
  else (Ok tt, s, stored).

(** A record that cannot be read is deleted. *)
Definition loadCachedChannelKeys (h : heap) (s : KeyState) (stored : option key_record)
    : KeyState * option key_record :=
  match master_key h s, stored with
  | Some mk, Some (encryptedKeys, iv) =>
      match aesGcmDecrypt mk encryptedKeys iv with
      | Throw _ => (s, None)
      | Ok plaintext =>
          let '(r, cache) := deserializeCache plaintext (channelKeyCache s) in
          (on_cache (λ _, cache) s, match r with Ok _ => stored | Throw _ => None end)
      end
  | _, _ => (s, stored)
  end.

(** ** Invites *)

(** [result[channelId] = versions], for a channel with a key *)
Definition add_versions (s : KeyState) (result : jsobj json) (channelId : string) : jsobj json :=
  match channelKeyCache s !! channelId with
  | Some versionMap =>
      if decide (size versionMap = 0) then result
      else obj_set channelId (versions_json versionMap) result
  | None => result
  end.
Definition getChannelKeysForServer (channelIds : list string) (s : KeyState) : json :=
  JObj (foldl (add_versions s) [] channelIds).

Definition import_channel (kv : string * json) (s : KeyState) : result string unit * KeyState :=
  match json_entries kv.2 with
  | Throw e => (Throw e, s)
  | Ok versions =>
      read_all (λ kv' s, let! vk := decode_version kv' in Ok (setCachedKey kv.1 vk.1 vk.2 s))
        versions s
  end.
Fixpoint import_channels (entries : jsobj json) (s : KeyState) : result string unit * KeyState :=
  match entries with
  | [] => (Ok tt, s)
  | kv :: entries =>
      match import_channel kv s with
      | (Ok _, s) => import_channels entries s
      | (Throw e, s) => (Throw e, s)
      end
  end.
Definition importChannelKeys (keys : json) (s : KeyState) : result string unit * KeyState :=
  match json_entries keys with
  | Throw e => (Throw e, s)
  | Ok entries =>
      match import_channels entries s with
      | (Ok _, s) => (Ok tt, schedulePersist s)
      | (Throw e, s) => (Throw e, s)
      end
  end.

Definition HKDF_INFO : bytes := utf8 "meza-invite-keys-v1".
Definition deriveInviteKey (inviteSecret : bytes) : bytes :=
  hkdf inviteSecret (zeros 32) HKDF_INFO.

Definition createInviteKeyBundle (iv inviteSecret : bytes) (channelIds : list string)
    (s : KeyState) : result string key_record :=
  aesGcmEncrypt iv (deriveInviteKey inviteSecret)
    (utf8 (stringify (getChannelKeysForServer channelIds s))).

Definition importInviteKeyBundle (inviteSecret ciphertext iv : bytes) (s : KeyState)
    : result string unit * KeyState :=
  match (let! plaintext := aesGcmDecrypt (deriveInviteKey inviteSecret) ciphertext iv in
         parse_bytes plaintext) with
  | Ok keys => importChannelKeys keys s
  | Throw e => (Throw e, s)
  end.

(** ** Numerals *)

Definition version_ok (v : Z) : Prop := (0 ≤ v < 10 ^ 20)%Z.

Lemma digits_value_string acc ds :
  Forall (λ d, 0 ≤ d < 10)%Z ds →
  digits_value acc (digits_string ds) = Some (foldl (λ n d, n * 10 + d)%Z acc ds).
Proof.
  intros Hds. revert acc. induction Hds as [|d ds Hd _ IH]; intros acc; [done|].
  cbn [digits_string digits_value foldl]. unfold digit_value, digit_ascii.
  rewrite Ascii.N_ascii_embedding by lia. rewrite Z2N.id by lia.
  rewrite (proj2 (Z.leb_le _ _)), (proj2 (Z.leb_le _ _)) by lia. cbn [andb mbind option_bind].
  replace (48 + d - 48)%Z with d by lia. apply IH.
Qed.
Lemma decimal_digits v : version_ok v → Forall (λ d, 0 ≤ d < 10)%Z (decimal 20 v).
Proof. intros Hv. apply (decimal_bounds 20 19); [done|lia]. Qed.
Lemma version_name_value v : version_ok v → digits_value 0 (version_name v) = Some v.
Proof.
  intros Hv. unfold version_name. rewrite digits_value_string by by apply decimal_digits.
  f_equal. by apply decimal_number.
Qed.

(** ** Reading back *)

Lemma read_all_Ok {A B C} (dec : A → result string C) (put : C → B → B) l cs b :
  Forall2 (λ a c, dec a = Ok c) l cs →
  read_all (λ a b, let! c := dec a in Ok (put c b)) l b = (Ok tt, foldl (λ b c, put c b) b cs).
Proof.
  intros Hall. revert b. induction Hall as [|a c l cs E _ IH]; intros b; [done|].
  simpl. rewrite E. apply IH.
Qed.

Definition insert_entries {K V} `{Countable K} (kvs : list (K * V)) (m : gmap K V) : gmap K V :=
  foldl (λ m kv, <[kv.1 := kv.2]> m) m kvs.

Lemma insert_entries_all {K V} `{Countable K} (kvs : list (K * V)) (m m0 : gmap K V) :
  kvs ≡ₚ map_to_list m → insert_entries kvs m0 = m ∪ m0.
Proof.
  intros Hp.
  assert (Hgen : ∀ (kvs : list (K * V)) (m0 : gmap K V), insert_entries kvs m0 = list_to_map (reverse kvs) ∪ m0).
  { clear. induction kvs as [|[k v] kvs IH]; intros m0; [symmetry; apply (left_id_L ∅ (∪))|].
    unfold insert_entries in *. cbn [foldl fst snd]. rewrite IH, reverse_cons, list_to_map_app.
    rewrite <-(assoc_L (∪)). f_equal. simpl. by rewrite insert_empty, insert_union_singleton_l. }
  rewrite Hgen. f_equal. rewrite <-(list_to_map_to_list m) at 1. apply list_to_map_proper.
  - rewrite reverse_Permutation, Hp. apply NoDup_fst_map_to_list.
  - by rewrite reverse_Permutation.
Qed.

Definition keys_storable (m : VersionMap) : Prop := map_Forall (λ v k, version_ok v ∧ octets k) m.
Definition version_entry (vk : Z * bytes) : string * json := (version_name vk.1, JStr (btoa vk.2)).

(** The JSON a version map is written as, in any order *)
Definition denotes (j : json) (m : VersionMap) : Prop :=
  ∃ vks, vks ≡ₚ map_to_list m ∧ json_entries j = Ok (version_entry <$> vks).

Lemma ordered_denotes m : denotes (json_ordered (versions_json m)) m.
Proof.
  unfold denotes, versions_json. cbn [json_ordered json_entries]. rewrite map_map. cbn [fst snd json_ordered].
  set (l := map _ _).
  assert (Hl : obj_entries (obj_entries l) ≡ₚ version_entry <$> map_to_list m)
    by by rewrite !obj_entries_perm.
  apply Permutation_map_inv in Hl as (vks & E & Hp). exists vks. split; [done|]. by f_equal.
Qed.

Lemma decode_entries m vks :
  keys_storable m → vks ≡ₚ map_to_list m →
  Forall2 (λ kv vk, decode_version kv = Ok vk) (version_entry <$> vks) vks.
Proof.
  intros Hm Hp. apply Forall2_fmap_l, Forall_Forall2_diag, Forall_forall.
  intros [v k] Hvk. rewrite Hp in Hvk. apply elem_of_map_to_list in Hvk.
  destruct (Hm _ _ Hvk) as [Hv Hk]. unfold decode_version. simpl.
  by rewrite version_name_value, atob_btoa.
Qed.

Definition ordered_channels (o : jsobj json) : jsobj json :=
  (λ kv, (kv.1, json_ordered kv.2)) <$> o.

Lemma parse_written j :
  parse (stringify j) = Ok (json_ordered j) →
  parse_bytes (utf8 (stringify j)) = Ok (json_ordered j).
Proof. intros E. unfold parse_bytes. by rewrite from_utf8_utf8, E. Qed.

(** What is written of a cache is read back into an empty one. *)
Lemma deserialize_serialize_cache cache :
  map_Forall (λ _, keys_storable) cache →
  parse (stringify (cache_json cache)) = Ok (json_ordered (cache_json cache)) →
  deserializeCache (serializeCache cache) ∅ = (Ok tt, cache).
Proof.
  intros Hc Hp. unfold deserializeCache, serializeCache. rewrite parse_written by done.
  cbn [result_bind cache_json json_ordered json_entries]. rewrite map_map. cbn [fst snd].
  set (l := map _ _).
  assert (Hl : obj_entries (obj_entries l) ≡ₚ
    (λ cm, (cm.1, json_ordered (versions_json cm.2))) <$> map_to_list cache)
    by by rewrite !obj_entries_perm.
  apply Permutation_map_inv in Hl as (cms & -> & Hcms). clear l Hp.
  rewrite <-(right_id_L ∅ (∪) cache). rewrite <-(insert_entries_all cms cache ∅) by done.
  assert (Hall : Forall (λ cm, keys_storable cm.2) cms).
  { apply Forall_forall. intros [c m] Hin. rewrite <-Hcms in Hin.
    apply elem_of_map_to_list in Hin. apply (Hc _ _ Hin). }
  clear Hcms Hc. generalize (∅ : gmap string VersionMap).
  induction Hall as [|[c m] cms Hm _ IH]; intros acc; [done|]. simpl in Hm.
  cbn [map read_all fst snd]. unfold read_channel at 1. cbn [fst snd].
  destruct (ordered_denotes m) as (vks & Hvks & ->). cbn [result_bind].
  rewrite (read_all_Ok decode_version (λ vk m, <[vk.1 := vk.2]> m) _ vks ∅)
    by by apply (decode_entries m).
  change (foldl _ ∅ vks) with (insert_entries vks ∅).
  rewrite (insert_entries_all vks m ∅ Hvks), (right_id_L ∅ (∪)). apply IH.
Qed.

Context `{!CryptoLaws}.

(** C34: the channel keys survive the session: what a flush stores is read back, by a
    session with the same master key, as exactly the keys that were cached, and stays
    stored; an empty cache is not written over a stored one; and a stored record that
    does not open is deleted and adds nothing to the cache. *)
Theorem channel_keys_survive iv h s mk old h' s' :
  master_key h s = Some mk → length mk = 32 →
  map_Forall (λ _, keys_storable) (channelKeyCache s) →
  parse (stringify (cache_json (channelKeyCache s))) =
    Ok (json_ordered (cache_json (channelKeyCache s))) →
  master_key h' s' = Some mk → channelKeyCache s' = ∅ →
  let '(r, s1, stored) := flushChannelKeys iv h s old in
  r = Ok tt ∧ s1 = stop_timer s ∧
  (channelKeyCache s ≠ ∅ →
     stored ≠ None ∧
     loadCachedChannelKeys h' s' stored = (on_cache (λ _, channelKeyCache s) s', stored)) ∧
  (channelKeyCache s = ∅ → stored = old) ∧
  (∀ c iv' e, aesGcmDecrypt mk c iv' = Throw e →
     loadCachedChannelKeys h' s' (Some (c, iv')) = (s', None)).
Proof.
  intros Hmk Hlen Hcache Hjson Hmk' Hempty. unfold flushChannelKeys.
  assert (Hmk1 : master_key h (stop_timer s) = Some mk) by done.
  assert (Hbad : ∀ c iv' e, aesGcmDecrypt mk c iv' = Throw e →
    loadCachedChannelKeys h' s' (Some (c, iv')) = (s', None)).
  { intros c iv' e E. unfold loadCachedChannelKeys. by rewrite Hmk', E. }
  case_decide as Hd.
  - unfold persistToStorage. rewrite Hmk1. cbn [channelKeyCache stop_timer].
    destruct (aesGcm_roundtrip iv mk (serializeCache (channelKeyCache s)) Hlen)
      as (c & Henc & Hdec & _). rewrite Henc.
    split; [done|]. split; [done|]. split; [|split; [|done]].
    + intros _. split; [done|]. unfold loadCachedChannelKeys. rewrite Hmk', Hdec, Hempty.
      by rewrite deserialize_serialize_cache.
    + intros E. destruct Hd as [_ Hd]. simpl in Hd. rewrite E, map_size_empty in Hd. lia.
  - split; [done|]. split; [done|]. split; [|done]. intros Hne. contradict Hd.
    split; [|by apply Nat.neq_0_lt_0, map_size_non_empty_iff].
    unfold master_key in Hmk. simpl. by destruct (masterKey s).
Qed.

(** ** Invites *)

Definition with_key (s : KeyState) (c : string) : option VersionMap :=
  channelKeyCache s !! c ≫= λ m, if decide (size m = 0) then None else Some m.

Lemma with_key_Some s c m :
  with_key s c = Some m → channelKeyCache s !! c = Some m ∧ size m ≠ 0.
Proof.
  unfold with_key. destruct (channelKeyCache s !! c); simpl; [|done].
  case_decide; [done|]. by intros [= ->].
Qed.
Lemma with_key_None s c :
  with_key s c = None → or_default ∅ (channelKeyCache s !! c) = ∅.
Proof.
  unfold with_key. destruct (channelKeyCache s !! c); simpl; [|done].
  case_decide; [|done]. intros _. by apply map_size_empty_inv.
Qed.

Lemma keys_for_server ids s o0 :
  obj_keys_ok o0 →
  let o := foldl (add_versions s) o0 ids in
  obj_keys_ok o ∧
  ∀ c, obj_get c o = if decide (c ∈ ids ∧ with_key s c ≠ None)
    then versions_json <$> with_key s c else obj_get c o0.
Proof.
  cbv zeta. revert o0. induction ids as [|i ids IH]; intros o0 Ho; [done|].
  cbn [foldl]. set (o1 := add_versions s o0 i).
  assert (Ho1 : obj_keys_ok o1 ∧ ∀ c, obj_get c o1 =
    if decide (c = i ∧ with_key s c ≠ None) then versions_json <$> with_key s c
    else obj_get c o0).
  { unfold o1, add_versions, with_key. destruct (channelKeyCache s !! i) as [m|] eqn:E.
    - case_decide as Hm.
      + split; [done|]. intros c. rewrite decide_False; [done|]. intros [-> Hn].
        rewrite E in Hn. simpl in Hn. by rewrite decide_True in Hn.
      + split; [by apply obj_set_ok|]. intros c. rewrite obj_get_set.
        destruct (decide (c = i)) as [->|Hne].
        * rewrite E. simpl. rewrite !(decide_False (P := size m = 0)) by done. by rewrite decide_True.
        * by rewrite decide_False by tauto.
    - split; [done|]. intros c. rewrite decide_False; [done|]. intros [-> Hn].
      by rewrite E in Hn. }
  destruct Ho1 as [Hok1 Hget1]. destruct (IH o1 Hok1) as [Hok Hget].
  split; [exact Hok|]. intros c. rewrite Hget, Hget1.
  repeat case_decide; try done; set_solver.
Qed.

(** Importing a channel adds its versions to those that are known, the newest three. *)
Lemma import_channel_spec c j m s :
  keys_storable m → denotes j m → versions_ok s →
  ∃ s', import_channel (c, j) s = (Ok tt, s') ∧ versions_ok s' ∧
    (∀ c', c' ≠ c → channelKeyCache s' !! c' = channelKeyCache s !! c') ∧
    or_default ∅ (channelKeyCache s' !! c) = prune (m ∪ or_default ∅ (channelKeyCache s !! c)).
Proof.
  intros Hm (vks & Hvks & Hj) Hs. unfold import_channel. simpl. rewrite Hj.
  rewrite (read_all_Ok decode_version (λ vk s, setCachedKey c vk.1 vk.2 s) _ vks s)
    by by apply (decode_entries m).
  eexists. split; [done|]. split; [|split].
  - assert (Hpos : Forall (λ vk, 0 ≤ vk.1)%Z vks).
    { apply Forall_forall. intros [v k] Hin. rewrite Hvks in Hin.
      apply elem_of_map_to_list in Hin. apply (Hm _ _ Hin). }
    clear -Hpos Hs. revert s Hs. induction Hpos as [|vk vks Hv _ IH]; intros s Hs; [done|].
    simpl. apply IH. by apply setCachedKey_ok.
  - intros c' Hne. clear -Hne. revert s. induction vks as [|vk vks IH]; intros s; [done|].
    simpl. rewrite IH, setCachedKey_map. by rewrite lookup_insert_ne.
  - rewrite fold_setCachedKey by done. f_equal. by apply (insert_entries_all vks).
Qed.

Lemma import_channels_spec (f : string → VersionMap) entries s :
  NoDup (fst <$> entries) → versions_ok s →
  Forall (λ kv, keys_storable (f kv.1) ∧ denotes kv.2 (f kv.1)) entries →
  ∃ s', import_channels entries s = (Ok tt, s') ∧
    ∀ c, or_default ∅ (channelKeyCache s' !! c) =
      if decide (c ∈ fst <$> entries) then prune (f c ∪ or_default ∅ (channelKeyCache s !! c))
      else or_default ∅ (channelKeyCache s !! c).
Proof.
  intros Hnd Hs Hall. revert s Hs. induction Hall as [|[c j] entries [Hm Hj] _ IH];
    intros s Hs; [by exists s|].
  rewrite fmap_cons, NoDup_cons in Hnd. destruct Hnd as [Hc Hnd]. cbn [fst snd] in *.
  destruct (import_channel_spec c j (f c) s Hm Hj Hs) as (s1 & E1 & Hs1 & Hother & Hhere).
  destruct (IH Hnd s1 Hs1) as (s2 & E2 & Hspec). exists s2. cbn [import_channels].
  rewrite E1. split; [exact E2|]. intros c'. rewrite Hspec, fmap_cons. cbn [fst].
  destruct (decide (c' = c)) as [->|Hne].
  - rewrite decide_False, decide_True by set_solver. exact Hhere.
  - rewrite Hother by done. repeat case_decide; try done; set_solver.
Qed.

Lemma bundle_roundtrip iv secret ids alice :
  length (deriveInviteKey secret) = 32 →
  map_Forall (λ _, keys_storable) (channelKeyCache alice) →
  parse (stringify (getChannelKeysForServer ids alice)) =
    Ok (json_ordered (getChannelKeysForServer ids alice)) →
  ∃ c, createInviteKeyBundle iv secret ids alice = Ok (c, iv) ∧
    ∀ bob, versions_ok bob → ∃ bob',
      importInviteKeyBundle secret c iv bob = (Ok tt, bob') ∧ persistTimeout bob' = true ∧
      ∀ ch, or_default ∅ (channelKeyCache bob' !! ch) =
        if decide (ch ∈ ids) then
          prune (or_default ∅ (channelKeyCache alice !! ch) ∪ or_default ∅ (channelKeyCache bob !! ch))
        else or_default ∅ (channelKeyCache bob !! ch).
Proof.
  intros Hk Ha Hp.
  destruct (aesGcm_roundtrip iv (deriveInviteKey secret)
    (utf8 (stringify (getChannelKeysForServer ids alice))) Hk) as (c & Henc & Hdec & _).
  destruct (keys_for_server ids alice [] (NoDup_nil_2)) as [Hok Hget].
  set (o := foldl (add_versions alice) [] ids) in *.
  set (es := obj_entries (obj_entries (ordered_channels o))).
  assert (Hkeys : fst <$> es ≡ₚ fst <$> o).
  { unfold es. rewrite !obj_entries_perm. unfold ordered_channels.
    rewrite <-list_fmap_compose. done. }
  exists c. split; [exact Henc|]. intros bob Hb.
  destruct (import_channels_spec (λ ch, or_default ∅ (with_key alice ch)) es bob)
    as (bob' & E & Hspec); [by rewrite Hkeys|done| |].
  { apply Forall_forall. intros [ch j] Hin. unfold es in Hin. rewrite !obj_entries_perm in Hin.
    apply list_elem_of_fmap in Hin as ([ch' j'] & [= -> ->] & Hin).
    assert (Hj : obj_get ch' o = Some j').
    { apply obj_entries_get; [exact Hok|]. by rewrite obj_entries_perm. }
    rewrite Hget in Hj. case_decide as Hd; [|done]. cbn [fst snd].
    destruct (with_key alice ch') as [m|] eqn:Em; [|done]. injection Hj as <-.
    apply with_key_Some in Em as [Em _].
    split; [apply (Ha _ _ Em)|apply ordered_denotes]. }
  exists (schedulePersist bob'). split; [|split; [done|]].
  - unfold importInviteKeyBundle. rewrite Hdec. cbn [result_bind].
    rewrite parse_written by done. unfold importChannelKeys.
    change (json_entries (json_ordered (getChannelKeysForServer ids alice))) with (Ok (E := string) es).
    cbv iota. by rewrite E.
  - intros ch. change (channelKeyCache (schedulePersist bob')) with (channelKeyCache bob').
    rewrite Hspec.
    assert (Hin : ch ∈ fst <$> es ↔ ch ∈ ids ∧ with_key alice ch ≠ None).
    { rewrite Hkeys, <-obj_get_Some_key, Hget. case_decide as Hd.
      - split; [done|]. intros _. destruct (with_key alice ch); [eauto|by destruct Hd].
      - split; [by intros []|done]. }
    destruct (with_key alice ch) as [m|] eqn:Em.
    + apply with_key_Some in Em as [-> _]. cbn [or_default].
      repeat case_decide; try done; exfalso; naive_solver.
    + rewrite (with_key_None _ _ Em). cbn [or_default].
      assert (Hbp : prune (∅ ∪ or_default ∅ (channelKeyCache bob !! ch)) =
        or_default ∅ (channelKeyCache bob !! ch)).
      { rewrite (left_id_L ∅ (∪)). apply prune_id. unfold MAX_VERSIONS_PER_CHANNEL.
        destruct (channelKeyCache bob !! ch) as [m|] eqn:E'; [apply (Hb _ _ E')|].
        simpl. rewrite map_size_empty. lia. }
      rewrite Hbp. repeat case_decide; done.
Qed.

(** an invite hands on the keys of its channels: who imports the bundle with the
    secret of the link has, for each channel named in it, the versions of the inviter
    together with those known before, the newest three of them, is left alone on every
    other channel, and stores the result; a bundle that does not open changes
    nothing. *)
Theorem invite_shares_keys iv secret ids alice bob :
  length (deriveInviteKey secret) = 32 →
  map_Forall (λ _, keys_storable) (channelKeyCache alice) → versions_ok bob →
  parse (stringify (getChannelKeysForServer ids alice)) =
    Ok (json_ordered (getChannelKeysForServer ids alice)) →
  (∃ c bob', createInviteKeyBundle iv secret ids alice = Ok (c, iv) ∧
    importInviteKeyBundle secret c iv bob = (Ok tt, bob') ∧ persistTimeout bob' = true ∧
    ∀ ch, or_default ∅ (channelKeyCache bob' !! ch) =
      if decide (ch ∈ ids) then
        prune (or_default ∅ (channelKeyCache alice !! ch) ∪ or_default ∅ (channelKeyCache bob !! ch))
      else or_default ∅ (channelKeyCache bob !! ch)) ∧
  (∀ c iv' e, aesGcmDecrypt (deriveInviteKey secret) c iv' = Throw e →
     importInviteKeyBundle secret c iv' bob = (Throw e, bob)).
Proof.
  intros Hk Ha Hb Hp. split.
  2:{ intros c iv' e E. unfold importInviteKeyBundle. by rewrite E. }
  destruct (bundle_roundtrip iv secret ids alice Hk Ha Hp) as (c & Henc & Himp).
  destruct (Himp bob Hb) as (bob' & H1). by exists c, bob'.
Qed.

(** ** A master key that was wiped *)

(** [array.fill(0)] on a shared buffer *)
Definition fill0 (a : address) (h : heap) : heap := alter (λ b, zeros (length b)) a h.

Lemma flush_wiped iv h s a mk old :
  masterKey s = Some a → h !! a = Some mk → length mk = 32 → channelKeyCache s ≠ ∅ →
  ∃ c, (flushChannelKeys iv (fill0 a h) s old).2 = Some (c, iv) ∧
    aesGcmDecrypt (zeros 32) c iv = Ok (serializeCache (channelKeyCache s)).
Proof.
  intros Ha Hh Hlen Hne.
  destruct (aesGcm_roundtrip iv (zeros 32) (serializeCache (channelKeyCache s)))
    as (c & Henc & Hdec & _); [by apply length_replicate|].
  exists c. split; [|exact Hdec].
  unfold flushChannelKeys. rewrite decide_True.
  - unfold persistToStorage, master_key. cbn [masterKey stop_timer]. rewrite Ha.
    cbn [mbind option_bind]. unfold fill0. rewrite lookup_alter_eq, Hh. cbn [fmap option_fmap option_map].
    rewrite Hlen. cbn [channelKeyCache stop_timer]. by rewrite Henc.
  - cbn [masterKey channelKeyCache stop_timer]. rewrite Ha. split; [done|].
    by apply Nat.neq_0_lt_0, map_size_non_empty_iff.
Qed.

(** the channel-keys module keeps the caller's buffer, so once the caller has wiped
    it the next write of the cache is encrypted under the key of thirty-two zeros: what
    is stored is open to everyone, and a session that starts with the true master key
    finds a record that does not open, and deletes it. *)
Theorem wiped_master_key iv h s a mk old :
  masterKey s = Some a → h !! a = Some mk → length mk = 32 → channelKeyCache s ≠ ∅ →
  let stored := (flushChannelKeys iv (fill0 a h) s old).2 in
  ∃ c, stored = Some (c, iv) ∧
    aesGcmDecrypt (zeros 32) c iv = Ok (serializeCache (channelKeyCache s)) ∧
    ∀ h' s' e, master_key h' s' = Some mk → aesGcmDecrypt mk c iv = Throw e →
      loadCachedChannelKeys h' s' stored = (s', None).
Proof.
  intros Ha Hh Hlen Hne. destruct (flush_wiped iv h s a mk old Ha Hh Hlen Hne) as (c & Hst & Hdec).
  exists c. split; [exact Hst|]. split; [exact Hdec|]. intros h' s' e Hmk He.
  rewrite Hst. unfold loadCachedChannelKeys. by rewrite Hmk, He.
Qed.
End key_storage.

(** ** Concrete inputs *)

#[local] Existing Instance toy.
#[local] Existing Instance toy_laws.

Definition demo_cache : gmap string VersionMap := {["c1" := {[1%Z := key_of 1; 2%Z := key_of 2]}]}.
Definition demo_heap : heap := {[0 := demo_key]}.
Definition with_cache (c : gmap string VersionMap) : KeyState := on_cache (λ _, c) demo_keys.
(** A [JSON] that knows one value *)
Definition write_json (j : json) : string := "json".
Definition read_json (j : json) (s : string) : result unit json := Ok (json_ordered j).

Lemma demo_cache_storable : map_Forall (λ _, keys_storable) demo_cache.
Proof.
  intros c m. unfold demo_cache. rewrite lookup_singleton. case_decide; [|done]. intros [= <-].
  intros v k. rewrite lookup_insert. case_decide as Hv; [intros [= <-]|rewrite lookup_singleton;
    case_decide as Hv'; [intros [= <-]|done]]; subst v; (split; [done|]);
    unfold key_of; apply Forall_replicate; done.
Qed.

Lemma channel_keys_survive_witness :
  let j := cache_json demo_cache in
  let '(r, s1, stored) := flushChannelKeys write_json demo_nonce demo_heap (with_cache demo_cache) None in
  r = Ok tt ∧ loadCachedChannelKeys (read_json j) (λ _, "") demo_heap demo_keys stored =
    (with_cache demo_cache, stored).
Proof.
  cbv zeta.
  pose proof (channel_keys_survive write_json (read_json (cache_json demo_cache)) (λ _, "")
    demo_nonce demo_heap (with_cache demo_cache) demo_key None demo_heap demo_keys
    eq_refl eq_refl demo_cache_storable eq_refl eq_refl eq_refl) as H.
  destruct (flushChannelKeys _ _ _ _ _) as [[r s1] stored].
  destruct H as (Hr & _ & Hl & _). split; [exact Hr|]. apply Hl. discriminate.
Defined.

Lemma invite_shares_keys_witness :
  let alice := with_cache demo_cache in
  ∃ c bob', createInviteKeyBundle write_json demo_nonce demo_secret ["c1"; "c2"] alice =
      Ok (c, demo_nonce) ∧
    importInviteKeyBundle (read_json (getChannelKeysForServer ["c1"; "c2"] alice)) (λ _, "")
      demo_secret c demo_nonce demo_keys = (Ok tt, bob') ∧
    or_default ∅ (channelKeyCache bob' !! "c1") = {[1%Z := key_of 1; 2%Z := key_of 2]}.
Proof.
  cbv zeta. set (alice := with_cache demo_cache).
  assert (Hlen : length (deriveInviteKey demo_secret) = 32) by (vm_compute; reflexivity).
  destruct (invite_shares_keys write_json
    (read_json (getChannelKeysForServer ["c1"; "c2"] alice)) (λ _, "") demo_nonce demo_secret
    ["c1"; "c2"] alice demo_keys Hlen demo_cache_storable demo_keys_versions eq_refl)
    as [(c & bob' & H1 & H2 & _ & H3) _].
  exists c, bob'. split; [exact H1|]. split; [exact H2|].
  rewrite (H3 "c1"). vm_compute. reflexivity.
Defined.

Lemma wiped_master_key_witness :
  let stored := (flushChannelKeys write_json demo_nonce (fill0 0 demo_heap)
                   (with_cache demo_cache) None).2 in
  loadCachedChannelKeys (read_json JNull) (λ _, "") demo_heap demo_keys stored = (demo_keys, None).
Proof.
  cbv zeta.
  destruct (wiped_master_key write_json (read_json JNull) (λ _, "") demo_nonce demo_heap
    (with_cache demo_cache) 0 demo_key None eq_refl eq_refl eq_refl ltac:(discriminate))
    as (c & Hs & _ & Hl).
  apply (Hl demo_heap demo_keys "OperationError" eq_refl).
  vm_compute in Hs. injection Hs as <-. vm_compute. reflexivity.
Defined.
