(* ===== verification/Session.v ===== *)
(** * The session ([crypto/session.ts])

    One tab's end-to-end-encryption session: starting it from a password's master key or
    from what the browser keeps, sharing it with other tabs, ending it.  The operations
    run in stages with other events between them; a stage is one event of the model.
    What several tabs share is the disk (local storage and IndexedDB) and the messages
    of the broadcast channel: what a tab posts is a list, what it receives an event.
    Byte arrays are buffers, since the caller of a login wipes the one it passed. *)

From S2P Require Export KeyStorage.

Open Scope meza_scope.

(** ** State *)

(** Local storage's wrapped master key, and the two stores of IndexedDB *)
Record Disk := {
  mk_item : option string;
  key_bundle : option bytes;
  channel_keys : option key_record;
}.
Definition set_mk_item v d :=
  {| mk_item := v; key_bundle := key_bundle d; channel_keys := channel_keys d |}.
Definition set_channel_keys v d :=
  {| mk_item := mk_item d; key_bundle := key_bundle d; channel_keys := v |}.
Definition set_key_bundle v d :=
  {| mk_item := mk_item d; key_bundle := v; channel_keys := channel_keys d |}.

Inductive SessionSyncMessage :=
  | session_key_request
  | session_key_response (key : string)
  | session_key_update (key : string)
  | session_teardown.

(** What a bootstrap in flight is waiting for *)
Inductive Boot :=
  | WaitPeer (storedBlob : string)
  | Opening (storedBlob storedSk : string)
  | Restoring (key : address) (given : bool)
  | Storing (key : address) (restored : IdentityKeypair)
  | Loading (key : address).
(** and a teardown *)
Inductive TeardownStage := Flushing | ResettingSearch | ClearingStorage.

(** How a bootstrap ended *)
Inductive Outcome := Resolved (ok : bool) | Rejected.

Record Tab := {
  (** the module's variables *)
  sessionReady : bool;
  bootstrapPromise : option Boot;
  identity : option IdentityKeypair;
  readyListeners : list nat;
  syncChannel : bool;
  (** the teardowns in flight *)
  teardowns : list TeardownStage;
  (** the channel-keys module, and the buffers *)
  ck : KeyState;
  mem : heap;
  (** session storage *)
  sk_item : option string;
  disk : Disk;
  (** what was posted, how bootstraps ended and which callbacks were called, latest
      first *)
  posted : list SessionSyncMessage;
  outcomes : list Outcome;
  notified : list nat;
}.

Definition set_module r b i l c t :=
  {| sessionReady := r; bootstrapPromise := b; identity := i; readyListeners := l;
     syncChannel := c; teardowns := teardowns t; ck := ck t; mem := mem t;
     sk_item := sk_item t; disk := disk t; posted := posted t; outcomes := outcomes t;
     notified := notified t |}.
Definition set_boot b t :=
  set_module (sessionReady t) b (identity t) (readyListeners t) (syncChannel t) t.
Definition set_keys k h t :=
  {| sessionReady := sessionReady t; bootstrapPromise := bootstrapPromise t;
     identity := identity t; readyListeners := readyListeners t;
     syncChannel := syncChannel t; teardowns := teardowns t; ck := k; mem := h;
     sk_item := sk_item t; disk := disk t; posted := posted t; outcomes := outcomes t;
     notified := notified t |}.
Definition set_stores k d t :=
  {| sessionReady := sessionReady t; bootstrapPromise := bootstrapPromise t;
     identity := identity t; readyListeners := readyListeners t;
     syncChannel := syncChannel t; teardowns := teardowns t; ck := ck t; mem := mem t;
     sk_item := k; disk := d; posted := posted t; outcomes := outcomes t;
     notified := notified t |}.
Definition set_teardowns l t :=
  {| sessionReady := sessionReady t; bootstrapPromise := bootstrapPromise t;
     identity := identity t; readyListeners := readyListeners t;
     syncChannel := syncChannel t; teardowns := l; ck := ck t; mem := mem t;
     sk_item := sk_item t; disk := disk t; posted := posted t; outcomes := outcomes t;
     notified := notified t |}.
Definition log p o n t :=
  {| sessionReady := sessionReady t; bootstrapPromise := bootstrapPromise t;
     identity := identity t; readyListeners := readyListeners t;
     syncChannel := syncChannel t; teardowns := teardowns t; ck := ck t; mem := mem t;
     sk_item := sk_item t; disk := disk t; posted := p ++ posted t;
     outcomes := o ++ outcomes t; notified := n ++ notified t |}.
Definition post p := log [p] [] [].

Definition no_keys : KeyState :=
  {| identityKeypair := None; masterKey := None; channelKeyCache := ∅; persistTimeout := false;
     calls := 0; draws := 0 |}.
(** A page that has just loaded *)
Definition fresh_tab (sk : option string) (d : Disk) : Tab :=
  {| sessionReady := false; bootstrapPromise := None; identity := None; readyListeners := [];
     syncChannel := false; teardowns := []; ck := no_keys; mem := ∅; sk_item := sk; disk := d;
     posted := []; outcomes := []; notified := [] |}.

Section session.
Context `{Crypto}.
Context (stringify : json → string) (parse : string → result unit json).
Context (to_string : json → string).

(** ** The master key in the browser's storage *)

(** What [storeMasterKey] writes for a session key: local storage's item, and session
    storage's *)
Definition wrap_master_key (sessionKey iv key : bytes) : result string (string * string) :=
  let! cryptoKey := importKey sessionKey in
  Ok (btoa (iv ++ gcm_encrypt cryptoKey iv [] key), btoa sessionKey).

(** The [try] of [loadMasterKey]; [None] is [null] *)
Definition open_master_key (storedBlob storedSk : string) : option bytes :=
  result_opt (
    let! blob := atob storedBlob in
    let! sessionKeyBytes := atob storedSk in
    if decide (length blob < 28) then Throw "too short"
    else
      let! cryptoKey := importKey sessionKeyBytes in
      gcm_decrypt cryptoKey (slice 0 12 blob) [] (drop 12 blob)).

(** ** Bootstrap *)

Definition alloc (b : bytes) (t : Tab) : address * Tab :=
  let a := fresh (dom (mem t)) in (a, set_keys (ck t) (<[a := b]> (mem t)) t).

Definition settle_boot (o : Outcome) (t : Tab) : Tab := log [] [o] [] (set_boot None t).

(** [bootstrapSession], up to the first [await] of [doBootstrap] *)
Definition bootstrapSession (given : option address) (t : Tab) : Tab :=
  if sessionReady t then log [] [Resolved true] [] t
  else match bootstrapPromise t with
  | Some _ => t
  | None =>
      match given with
      | Some key => set_boot (Some (Restoring key true)) t
      | None =>
          match mk_item (disk t) with
          | None => settle_boot (Resolved false) t
          | Some storedBlob =>
              if bool_decide (storedBlob = "") then settle_boot (Resolved false) t
              else if truthy (sk_item t) then
                set_boot (Some (Opening storedBlob (or_default "" (sk_item t)))) t
              else post session_key_request (set_boot (Some (WaitPeer storedBlob)) t)
          end
      end
  end.

(** A peer answers, or the second passes ([None]). *)
Definition peer_answers (key : option string) (t : Tab) : Tab :=
  match bootstrapPromise t with
  | Some (WaitPeer storedBlob) =>
      if truthy key then set_boot (Some (Opening storedBlob (or_default "" key))) t
      else settle_boot (Resolved false) t
  | _ => t
  end.

(** The wrapped key is open, or it is not; only then is the session key kept. *)
Definition opened (t : Tab) : Tab :=
  match bootstrapPromise t with
  | Some (Opening storedBlob storedSk) =>
      match open_master_key storedBlob storedSk with
      | None => settle_boot (Resolved false) t
      | Some plaintext =>
          let '(key, t) := alloc plaintext (set_stores (Some storedSk) (disk t) t) in
          set_boot (Some (Restoring key false)) t
      end
  | _ => t
  end.

(** [identity = restored; initChannelKeys(restored, key)] *)
Definition init_session (restored : IdentityKeypair) (key : address) (t : Tab) : Tab :=
  set_keys (initChannelKeys restored key (ck t)) (mem t)
    (set_module (sessionReady t) (Some (Loading key)) (Some restored) (readyListeners t)
       (syncChannel t) t).

Definition restored (t : Tab) : Tab :=
  match bootstrapPromise t with
  | Some (Restoring key given) =>
      match mem t !! key with
      | None => settle_boot Rejected t
      | Some masterKey =>
          match restoreIdentity masterKey (key_bundle (disk t)) with
          | Throw _ => settle_boot Rejected t
          | Ok None => settle_boot (Resolved false) t
          | Ok (Some id) =>
              if given then set_boot (Some (Storing key id)) t else init_session id key t
          end
      end
  | _ => t
  end.

(** The end of [storeMasterKey], with the random values it drew *)
Definition stored_key (sessionKey iv : bytes) (t : Tab) : Tab :=
  match bootstrapPromise t with
  | Some (Storing key id) =>
      match mem t !! key with
      | None => settle_boot Rejected t
      | Some masterKey =>
          match wrap_master_key sessionKey iv masterKey with
          | Throw _ => settle_boot Rejected t
          | Ok (blob, sk) =>
              init_session id key
                (post (session_key_update sk)
                  (set_stores (Some sk) (set_mk_item (Some blob) (disk t)) t))
          end
      end
  | _ => t
  end.

(** [startSessionKeyResponder] is taken to succeed: the browser has [BroadcastChannel]. *)
Definition loaded (t : Tab) : Tab :=
  match bootstrapPromise t with
  | Some (Loading _) =>
      let '(k, r) := loadCachedChannelKeys parse to_string (mem t) (ck t) (channel_keys (disk t)) in
      let t := set_stores (sk_item t) (set_channel_keys r (disk t)) (set_keys k (mem t) t) in
      log [] [Resolved true] (reverse (readyListeners t))
        (set_module true None (identity t) [] true t)
  | _ => t
  end.

(** ** Teardown *)

Definition teardownSession (iv : bytes) (broadcast : bool) (t : Tab) : Tab :=
  let t := if broadcast && sessionReady t then post session_teardown t else t in
  let '(_, k, r) := flushChannelKeys stringify iv (mem t) (ck t) (channel_keys (disk t)) in
  let t := set_stores (sk_item t) (set_channel_keys r (disk t)) (set_keys k (mem t) t) in
  set_teardowns (teardowns t ++ [Flushing]) t.

Definition teardown_step (i : nat) (t : Tab) : Tab :=
  match teardowns t !! i with
  | None => t
  | Some Flushing => set_teardowns (<[i := ResettingSearch]> (teardowns t)) t
  | Some ResettingSearch =>
      let t := set_keys (clearChannelKeyCache (ck t)) (mem t) t in
      let t := set_stores None (set_mk_item None (disk t)) t in
      let t := set_module (sessionReady t) (bootstrapPromise t) (identity t) (readyListeners t)
                 false t in
      set_teardowns (<[i := ClearingStorage]> (teardowns t)) t
  | Some ClearingStorage =>
      let t := set_stores (sk_item t)
                 {| mk_item := mk_item (disk t); key_bundle := None; channel_keys := None |} t in
      set_teardowns (delete i (teardowns t))
        (set_module false (bootstrapPromise t) None [] (syncChannel t) t)
  end.

(** ** Messages of other tabs, and callbacks *)

Definition on_message (iv : bytes) (m : SessionSyncMessage) (t : Tab) : Tab :=
  if negb (syncChannel t) then t
  else match m with
  | session_key_request =>
      if truthy (sk_item t) then post (session_key_response (or_default "" (sk_item t))) t else t
  | session_key_update key => set_stores (Some key) (disk t) t
  | session_teardown => teardownSession iv false t
  | session_key_response _ => t
  end.

Definition onSessionReady (cb : nat) (t : Tab) : Tab :=
  if sessionReady t then log [] [] [cb] t
  else set_module (sessionReady t) (bootstrapPromise t) (identity t) (readyListeners t ++ [cb])
         (syncChannel t) t.

(** ** Events *)

Inductive session_event :=
  | Bootstrap (given : option address)
  | PeerAnswers (key : option string)
  | Opened
  | Restored
  | StoredKey (sessionKey iv : bytes)
  | Loaded
  | Teardown (iv : bytes) (broadcast : bool)
  | TeardownStep (i : nat)
  | Message (iv : bytes) (m : SessionSyncMessage)
  | OnReady (cb : nat)
  | NewBuffer (b : bytes)
  | Wipe (a : address)
  | DiskChanges (d : Disk)
  | Reload.

Definition session_step (e : session_event) (t : Tab) : Tab :=
  match e with
  | Bootstrap given => bootstrapSession given t
  | PeerAnswers key => peer_answers key t
  | Opened => opened t
  | Restored => restored t
  | StoredKey sessionKey iv => stored_key sessionKey iv t
  | Loaded => loaded t
  | Teardown iv broadcast => teardownSession iv broadcast t
  | TeardownStep i => teardown_step i t
  | Message iv m => on_message iv m t
  | OnReady cb => onSessionReady cb t
  | NewBuffer b => (alloc b t).2
  | Wipe a => set_keys (ck t) (fill0 a (mem t)) t
  | DiskChanges d => set_stores (sk_item t) d t
  | Reload => fresh_tab (sk_item t) (disk t)
  end.

#[local] Instance session_store : Store Tab session_event :=
  {| initial := fresh_tab None {| mk_item := None; key_bundle := None; channel_keys := None |};
     exec := session_step;
     (** No teardown overlaps a bootstrap. *)
     admissible e t :=
       match e with
       | Teardown _ _ | Message _ session_teardown => bootstrapPromise t = None
       | Bootstrap given => teardowns t = [] ∧ (∀ a, given = Some a → is_Some (mem t !! a))
       | _ => True
       end |}.

(** ** Lemmas *)

Lemma load_keeps h s r :
  let s' := (loadCachedChannelKeys parse to_string h s r).1 in
  identityKeypair s' = identityKeypair s ∧ masterKey s' = masterKey s.
Proof.
  unfold loadCachedChannelKeys. destruct (master_key h s), r as [[c iv]|]; try done.
  destruct (aesGcmDecrypt _ _ _); [|done]. by destruct (deserializeCache _ _ _).
Qed.

Lemma loaded_from t key :
  bootstrapPromise t = Some (Loading key) →
  let t' := loaded t in
  sessionReady t' = true ∧ bootstrapPromise t' = None ∧ identity t' = identity t ∧
  readyListeners t' = [] ∧ syncChannel t' = true ∧ teardowns t' = teardowns t ∧
  identityKeypair (ck t') = identityKeypair (ck t) ∧ masterKey (ck t') = masterKey (ck t) ∧
  mem t' = mem t ∧ sk_item t' = sk_item t ∧ mk_item (disk t') = mk_item (disk t) ∧
  key_bundle (disk t') = key_bundle (disk t) ∧ posted t' = posted t ∧
  outcomes t' = Resolved true :: outcomes t ∧
  notified t' = reverse (readyListeners t) ++ notified t.
Proof.
  intros E. unfold loaded. rewrite E.
  pose proof (load_keeps (mem t) (ck t) (channel_keys (disk t))) as [H1 H2].
  destruct (loadCachedChannelKeys _ _ _ _ _) as [k r]. simpl in *. done.
Qed.

(** ** The invariant *)

(** The channel-keys module and the responder, as a teardown leaves them *)
Definition keys_cleared (t : Tab) : Prop :=
  identityKeypair (ck t) = None ∧ masterKey (ck t) = None ∧ syncChannel t = false.
Definition initialised (t : Tab) : Prop :=
  ∃ id a, identity t = Some id ∧ identityKeypair (ck t) = Some id ∧ masterKey (ck t) = Some a ∧
    is_Some (mem t !! a).

(** The phase a tab is in: ready or ending, logged out or ending, or starting *)
Definition phase_ok (t : Tab) : Prop :=
  match bootstrapPromise t with
  | None =>
      sessionReady t = true ∧ identity t ≠ None ∧ readyListeners t = [] ∧
        (teardowns t = [] → initialised t ∧ syncChannel t = true) ∨
      sessionReady t = false ∧ identity t = None ∧ (teardowns t = [] → keys_cleared t)
  | Some b =>
      teardowns t = [] ∧ sessionReady t = false ∧
      match b with
      | Loading key => initialised t ∧ masterKey (ck t) = Some key
      | Restoring key _ | Storing key _ =>
          identity t = None ∧ keys_cleared t ∧ is_Some (mem t !! key)
      | _ => identity t = None ∧ keys_cleared t
      end
  end.
Definition tab_wf (t : Tab) : Prop :=
  phase_ok t ∧ (ClearingStorage ∈ teardowns t → keys_cleared t).

(** The phase is a matter of a few fields. *)
Lemma phase_same t t' :
  sessionReady t = sessionReady t' → bootstrapPromise t = bootstrapPromise t' →
  identity t = identity t' → syncChannel t = syncChannel t' → teardowns t = teardowns t' →
  readyListeners t = readyListeners t' →
  identityKeypair (ck t) = identityKeypair (ck t') → masterKey (ck t) = masterKey (ck t') →
  (∀ a, is_Some (mem t !! a) → is_Some (mem t' !! a)) →
  tab_wf t → tab_wf t'.
Proof.
  intros E1 E2 E3 E4 E5 E6 E7 E8 Hmem.
  unfold tab_wf, phase_ok, keys_cleared, initialised. rewrite E1, E2, E3, E4, E5, E6, E7, E8.
  intros [H1 H2]. split; [|exact H2].
  assert (Hinit : (∃ id a, identity t' = Some id ∧ identityKeypair (ck t') = Some id ∧
      masterKey (ck t') = Some a ∧ is_Some (mem t !! a)) →
    ∃ id a, identity t' = Some id ∧ identityKeypair (ck t') = Some id ∧
      masterKey (ck t') = Some a ∧ is_Some (mem t' !! a)).
  { intros (id & a & ? & ? & ? & ?). exists id, a. auto. }
  destruct (bootstrapPromise t') as [[]|]; intuition.
Qed.

(** A bootstrap that ends without a session *)
Lemma phase_settle o t b :
  bootstrapPromise t = Some b → identity t = None → keys_cleared t → tab_wf t →
  tab_wf (settle_boot o t).
Proof.
  intros Hb Hi Hk [Hp Hc]. unfold phase_ok in Hp. rewrite Hb in Hp.
  split; [|exact Hc]. unfold phase_ok, settle_boot. simpl. right.
  split; [apply Hp|]. done.
Qed.

Lemma alloc_spec b t :
  let '(a, t') := alloc b t in
  t' = set_keys (ck t) (<[a := b]> (mem t)) t ∧ mem t !! a = None.
Proof.
  unfold alloc. split; [done|]. apply not_elem_of_dom, is_fresh.
Qed.

Ltac same_phase := eapply phase_same; [reflexivity..| |eassumption]; try done.

Lemma idle_phase t :
  bootstrapPromise t = None → sessionReady t = false → teardowns t = [] → tab_wf t →
  identity t = None ∧ keys_cleared t.
Proof.
  intros Hb Hr Ht [Hp _]. unfold phase_ok in Hp. rewrite Hb, Hr in Hp.
  destruct Hp as [(? & _)|(_ & Hi & Hk)]; [done|auto].
Qed.

Lemma bootstrap_wf given t :
  teardowns t = [] → (∀ a, given = Some a → is_Some (mem t !! a)) → tab_wf t →
  tab_wf (bootstrapSession given t).
Proof.
  intros Ht Hgiven Hw. unfold bootstrapSession.
  destruct (sessionReady t) eqn:Hr; [same_phase|].
  destruct (bootstrapPromise t) as [b|] eqn:Hb; [done|].
  destruct (idle_phase t Hb Hr Ht Hw) as [Hi Hk]. destruct Hw as [_ Hc].
  assert (Hstart : ∀ b, match b with Loading _ => False | Restoring k _ | Storing k _ => is_Some (mem t !! k)
    | _ => True end → tab_wf (set_boot (Some b) t)).
  { intros b Hok. split; [|done]. unfold phase_ok. simpl. split; [done|]. split; [done|].
    by destruct b. }
  assert (Hsettle : ∀ o, tab_wf (settle_boot o t)).
  { intros o. split; [|done]. right. split; [done|]. by split. }
  destruct given as [key|]; [apply Hstart; eauto|].
  destruct (mk_item (disk t)) as [blob|]; [|apply Hsettle].
  case_bool_decide; [apply Hsettle|]. destruct (truthy (sk_item t)); [by apply Hstart|].
  assert (Hw : tab_wf (set_boot (Some (WaitPeer blob)) t)) by by apply Hstart. same_phase.
Qed.

Lemma peer_wf key t : tab_wf t → tab_wf (peer_answers key t).
Proof.
  intros Hw. unfold peer_answers. destruct (bootstrapPromise t) as [[blob| | | |]|] eqn:Hb; try done.
  pose proof Hw as [Hp Hc]. unfold phase_ok in Hp. rewrite Hb in Hp. destruct Hp as (Ht & Hr & Hi & Hk).
  destruct (truthy key); [|by eapply phase_settle]. split; [|done]. by unfold phase_ok.
Qed.

Lemma opened_wf t : tab_wf t → tab_wf (opened t).
Proof.
  intros Hw. unfold opened. destruct (bootstrapPromise t) as [[|blob sk| | |]|] eqn:Hb; try done.
  pose proof Hw as [Hp Hc]. unfold phase_ok in Hp. rewrite Hb in Hp. destruct Hp as (Ht & Hr & Hi & Hk).
  destruct (open_master_key blob sk) as [pt|]; [|by eapply phase_settle].
  pose proof (alloc_spec pt (set_stores (Some sk) (disk t) t)) as Ha.
  destruct (alloc _ _) as [a t']. destruct Ha as [-> _]. split; [|done].
  unfold phase_ok. simpl. split; [done|]. split; [done|]. split; [done|]. split; [exact Hk|].
  by rewrite lookup_insert_eq.
Qed.

(** The identity and the channel keys are set together. *)
Lemma init_wf id key t :
  teardowns t = [] → sessionReady t = false → is_Some (mem t !! key) →
  tab_wf (init_session id key t).
Proof.
  intros Ht Hr Hm. split; [|simpl; rewrite Ht; set_solver].
  unfold phase_ok. simpl. split; [done|]. split; [done|]. split; [|done].
  exists id, key. done.
Qed.

Lemma restored_wf t : tab_wf t → tab_wf (restored t).
Proof.
  intros Hw. unfold restored. destruct (bootstrapPromise t) as [[| |key given| |]|] eqn:Hb; try done.
  pose proof Hw as [Hp Hc]. unfold phase_ok in Hp. rewrite Hb in Hp.
  destruct Hp as (Ht & Hr & Hi & Hk & Hm).
  destruct (mem t !! key) as [mk|] eqn:Emk; [|by destruct Hm].
  destruct (restoreIdentity _ _) as [[id|]|]; try by eapply phase_settle.
  destruct given; [|apply init_wf; [done..|by rewrite Emk]].
  split; [|done]. unfold phase_ok. simpl. rewrite Emk. done.
Qed.

Lemma stored_wf sessionKey iv t : tab_wf t → tab_wf (stored_key sessionKey iv t).
Proof.
  intros Hw. unfold stored_key. destruct (bootstrapPromise t) as [[| | |key id|]|] eqn:Hb; try done.
  pose proof Hw as [Hp Hc]. unfold phase_ok in Hp. rewrite Hb in Hp.
  destruct Hp as (Ht & Hr & Hi & Hk & Hm).
  destruct (mem t !! key) as [mk|] eqn:Emk; [|by destruct Hm].
  destruct (wrap_master_key _ _ _) as [[blob sk]|]; [|by eapply phase_settle].
  apply init_wf; [done..|]. eexists. exact Emk.
Qed.

Lemma loaded_wf t : tab_wf t → tab_wf (loaded t).
Proof.
  intros Hw. destruct (bootstrapPromise t) as [[| | | |key]|] eqn:Hb;
    try (by unfold loaded; rewrite Hb).
  pose proof Hw as [Hp Hc]. unfold phase_ok in Hp. rewrite Hb in Hp.
  destruct Hp as (Ht & Hr & (id & a & Hi & Hik & Hmk & Hm) & _).
  destruct (loaded_from t key Hb) as (E1 & E2 & E3 & E4 & E5 & E6 & E7 & E8 & E9 & _).
  split; [|rewrite E6, Ht; set_solver].
  unfold phase_ok. rewrite E2. left. split; [done|]. split; [by rewrite E3, Hi|].
  split; [done|]. intros _. split; [|done]. exists id, a. by rewrite E3, E7, E8, E9.
Qed.

Lemma flush_keeps iv h s r :
  let s' := (flushChannelKeys stringify iv h s r).1.2 in
  identityKeypair s' = identityKeypair s ∧ masterKey s' = masterKey s.
Proof. unfold flushChannelKeys. case_decide; [|done]. by destruct (persistToStorage _ _ _ _ _). Qed.

Lemma teardown_wf iv broadcast t :
  bootstrapPromise t = None → tab_wf t → tab_wf (teardownSession iv broadcast t).
Proof.
  intros Hb Hw. unfold teardownSession.
  set (t1 := if broadcast && sessionReady t then post session_teardown t else t).
  assert (Hw1 : tab_wf t1 ∧ bootstrapPromise t1 = None).
  { unfold t1. destruct (broadcast && sessionReady t); [|done]. split; [same_phase|done]. }
  clearbody t1. clear Hb Hw t. destruct Hw1 as [[Hp Hc] Hb].
  pose proof (flush_keeps iv (mem t1) (ck t1) (channel_keys (disk t1))) as [K1 K2].
  destruct (flushChannelKeys _ _ _ _ _) as [[e k] r]. simpl in K1, K2.
  split.
  - unfold phase_ok in *. simpl. rewrite Hb in *.
    destruct Hp as [(H1 & H2 & H3 & _)|(H1 & H2 & _)]; [left|right].
    + split; [done|]. split; [done|]. split; [done|]. by destruct (teardowns t1).
    + split; [done|]. split; [done|]. by destruct (teardowns t1).
  - simpl. rewrite elem_of_app, list_elem_of_singleton. intros [Hin|?]; [|done].
    destruct (Hc Hin) as (C1 & C2 & C3). unfold keys_cleared. simpl. by rewrite K1, K2.
Qed.

Lemma elem_of_insert {A} (x y : A) (l : list A) i : x ∈ <[i := y]> l → x = y ∨ x ∈ l.
Proof.
  intros [j Hj]%list_elem_of_lookup. apply list_lookup_insert_Some in Hj.
  destruct Hj as [(_ & <- & _)|(_ & Hj)]; [by left|right]. by eapply list_elem_of_lookup_2.
Qed.

Lemma teardown_step_wf i t : tab_wf t → tab_wf (teardown_step i t).
Proof.
  intros Hw. unfold teardown_step. destruct (teardowns t !! i) as [stage|] eqn:Hi; [|done].
  assert (Hne : ∀ s, <[i := s]> (teardowns t) ≠ []).
  { intros s E. apply (f_equal length) in E. rewrite length_insert in E.
    by destruct (teardowns t). }
  destruct Hw as [Hp Hc]. unfold phase_ok in Hp.
  destruct (bootstrapPromise t) eqn:Hb; [destruct Hp as [Ht _]; by rewrite Ht in Hi|].
  assert (Hp' : sessionReady t = true ∧ identity t ≠ None ∧ readyListeners t = [] ∨
    sessionReady t = false ∧ identity t = None) by tauto.
  destruct stage.
  - split.
    + unfold phase_ok. simpl. rewrite Hb. specialize (Hne ResettingSearch). tauto.
    + simpl. intros [?|?]%elem_of_insert; [done|auto].
  - split; [|done]. unfold phase_ok. simpl. rewrite Hb. specialize (Hne ClearingStorage). tauto.
  - assert (Hk : keys_cleared t) by (apply Hc; by eapply list_elem_of_lookup_2).
    split; [|done]. unfold phase_ok. simpl. rewrite Hb. right. done.
Qed.

Lemma fresh_wf k d : tab_wf (fresh_tab k d).
Proof.
  split; [|simpl; set_solver]. right. split; [done|]. split; [done|]. intros _. by split.
Qed.

Lemma session_step_wf e t : admissible e t → tab_wf t → tab_wf (session_step e t).
Proof.
  intros Hok Hw. destruct e; simpl in Hok.
  - destruct Hok. by apply bootstrap_wf.
  - by apply peer_wf.
  - by apply opened_wf.
  - by apply restored_wf.
  - by apply stored_wf.
  - by apply loaded_wf.
  - by apply teardown_wf.
  - by apply teardown_step_wf.
  - cbn [session_step]. unfold on_message. destruct (negb (syncChannel t)); [done|].
    destruct m; [|done|same_phase|by apply teardown_wf].
    destruct (truthy (sk_item t)); [same_phase|done].
  - cbn [session_step]. unfold onSessionReady. destruct (sessionReady t) eqn:Hr; [same_phase|].
    destruct Hw as [Hp Hc]. split; [|done]. unfold phase_ok in *. simpl.
    rewrite Hr in Hp.
    destruct (bootstrapPromise t) as [b|]; [exact Hp|]. right.
    destruct Hp as [(? & _)|Hp]; [done|exact Hp].
  - cbn [session_step]. pose proof (alloc_spec b t) as Ha. destruct (alloc b t) as [a t'].
    destruct Ha as [-> Hfresh]. cbn [snd]. apply (phase_same t); [reflexivity..| |exact Hw].
    intros a' Ha'. simpl. rewrite lookup_insert. case_decide; eauto.
  - apply (phase_same t); [reflexivity..| |exact Hw]. intros a' Ha'. simpl. unfold fill0.
    rewrite lookup_alter. case_decide; [|done]. subst. by apply fmap_is_Some.
  - same_phase.
  - apply fresh_wf.
Qed.

(** C26: as long as no teardown starts while a bootstrap is in flight, and no bootstrap
    while a teardown is, a tab is never in between: a ready session has an identity,
    the one the channel-keys module uses, a master key, and answers other tabs; without
    a session, and with nothing in flight, there is no identity, no key material, and no
    answer to other tabs. *)
Theorem session_consistent (t : Tab) :
  reachable t →
  (sessionReady t = true →
     bootstrapPromise t = None ∧ readyListeners t = [] ∧ identity t ≠ None ∧
     (teardowns t = [] → initialised t ∧ syncChannel t = true)) ∧
  (sessionReady t = false → bootstrapPromise t = None →
     identity t = None ∧ (teardowns t = [] → keys_cleared t)) ∧
  (∀ b, bootstrapPromise t = Some b → teardowns t = [] ∧
     ((∀ key, b ≠ Loading key) → identity t = None ∧ keys_cleared t)).
Proof.
  intros Ht. assert (Hw : tab_wf t).
  { revert t Ht. apply reachable_invariant; [|intros e s; apply session_step_wf].
    apply fresh_wf. }
  destruct Hw as [Hp _]. unfold phase_ok in Hp.
  destruct (bootstrapPromise t) as [b|] eqn:Hb.
  - destruct Hp as (Htd & Hr & Hb'). rewrite Hr. split; [done|]. split; [done|].
    intros b' [= <-]. split; [done|]. intros Hne. destruct b; try tauto. by destruct (Hne key).
  - split; [|split; [|done]].
    + intros Hr. rewrite Hr in Hp. destruct Hp as [(_ & ? & ? & ?)|(? & _)]; done.
    + intros Hr _. rewrite Hr in Hp. destruct Hp as [(? & _)|(_ & ? & ?)]; done.
Qed.

(** ** A session from login to logout *)

Context `{!CryptoLaws}.

Lemma wrap_open sessionKey iv mk :
  length sessionKey = 32 → octets sessionKey → length iv = 12 → octets iv → octets mk →
  ∃ blob sk, wrap_master_key sessionKey iv mk = Ok (blob, sk) ∧ blob ≠ "" ∧ sk ≠ "" ∧
    open_master_key blob sk = Some mk.
Proof.
  intros Hlk Hk Hliv Hiv Hmk. unfold wrap_master_key. rewrite importKey_ok by done.
  set (c := gcm_encrypt sessionKey iv [] mk).
  assert (Hb : octets (iv ++ c)) by (apply Forall_app; split; [done|by apply gcm_octets]).
  assert (Hlc : length c = length mk + 16) by apply gcm_length.
  exists (btoa (iv ++ c)), (btoa sessionKey). split; [done|].
  split; [apply btoa_nonempty; [done|by destruct iv]|].
  split; [apply btoa_nonempty; [done|by destruct sessionKey]|].
  unfold open_master_key. rewrite !atob_btoa by done. cbn [result_bind].
  rewrite decide_False by (rewrite length_app; lia). rewrite importKey_ok by done.
  cbn [result_bind]. unfold slice. rewrite drop_0, take_app_length', drop_app_length' by done.
  unfold c. by rewrite gcm_decrypt_encrypt.
Qed.

(** A session that is up: its identity and its master key *)
Definition up (id : IdentityKeypair) (mk : bytes) (t : Tab) : Prop :=
  sessionReady t = true ∧ identity t = Some id ∧ identityKeypair (ck t) = Some id ∧
  master_key (mem t) (ck t) = Some mk ∧ syncChannel t = true.

Lemma load_up id key mk t :
  mem t !! key = Some mk → up id mk (loaded (init_session id key t)) ∧
  sk_item (loaded (init_session id key t)) = sk_item t ∧
  mk_item (disk (loaded (init_session id key t))) = mk_item (disk t) ∧
  key_bundle (disk (loaded (init_session id key t))) = key_bundle (disk t).
Proof.
  intros Hm. destruct (loaded_from (init_session id key t) key eq_refl)
    as (E1 & E2 & E3 & E4 & E5 & E6 & E7 & E8 & E9 & E10 & E11 & E12 & _).
  split; [|done]. unfold up, master_key. rewrite E1, E3, E5, E7, E8, E9. simpl.
  by rewrite Hm.
Qed.

(** Resuming from what the browser keeps *)
Lemma resume t blob k mk id :
  bootstrapPromise t = Some (Opening blob k) → open_master_key blob k = Some mk →
  restoreIdentity mk (key_bundle (disk t)) = Ok (Some id) →
  let t' := run [Opened; Restored; Loaded] t in up id mk t' ∧ sk_item t' = Some k.
Proof.
  intros Hb Ho Hr. unfold run. cbn [foldl exec session_store session_step].
  unfold opened. rewrite Hb, Ho.
  pose proof (alloc_spec mk (set_stores (Some k) (disk t) t)) as Ha.
  destruct (alloc _ _) as [a t1]. destruct Ha as [-> _].
  unfold restored. simpl. rewrite lookup_insert_eq, Hr.
  edestruct load_up as (Hup & Hsk & _); [|split; [exact Hup|exact Hsk]].
  simpl. apply lookup_insert_eq.
Qed.

Lemma run_reload t :
  run [Reload; Bootstrap None; Opened; Restored; Loaded] t =
    run [Opened; Restored; Loaded] (bootstrapSession None (fresh_tab (sk_item t) (disk t))).
Proof. done. Qed.
Lemma run_answer k t :
  run [PeerAnswers k; Opened; Restored; Loaded] t =
    run [Opened; Restored; Loaded] (peer_answers k t).
Proof. done. Qed.

(** what a login sets up lasts as long as the browser session: after a login the tab
    has the user's identity and master key; it has both again after a reload, without
    the password; so has a new tab that is answered by the first one, which keeps the
    session key once it has proved right; and a new tab that nobody answers has no
    session. *)
Theorem session_continues t a mk id sessionKey iv :
  sessionReady t = false → bootstrapPromise t = None →
  mem t !! a = Some mk → octets mk →
  restoreIdentity mk (key_bundle (disk t)) = Ok (Some id) →
  length sessionKey = 32 → octets sessionKey → length iv = 12 → octets iv →
  let t1 := run [Bootstrap (Some a); Restored; StoredKey sessionKey iv; Loaded] t in
  let reloaded := run [Reload; Bootstrap None; Opened; Restored; Loaded] t1 in
  let asking := run [Bootstrap None] (fresh_tab None (disk t1)) in
  up id mk t1 ∧ up id mk reloaded ∧ posted asking = [session_key_request] ∧
  (∃ k, posted (on_message iv session_key_request t1) = session_key_response k :: posted t1 ∧
     let joined := run [PeerAnswers (Some k); Opened; Restored; Loaded] asking in
     up id mk joined ∧ sk_item joined = Some k) ∧
  sessionReady (run [PeerAnswers None] asking) = false ∧
  outcomes (run [PeerAnswers None] asking) = [Resolved false].
Proof.
  intros Hr Hb Hm Hmk Hid Hlk Hk Hliv Hiv.
  destruct (wrap_open sessionKey iv mk) as (blob & sk & Hw & Hblob & Hsk & Ho); [done..|].
  assert (Htb : truthy (Some sk) = true) by (simpl; by rewrite bool_decide_eq_false_2).
  set (t0 := post (session_key_update sk)
    (set_stores (Some sk) (set_mk_item (Some blob) (disk t))
      (set_boot (Some (Storing a id)) (set_boot (Some (Restoring a true)) t)))).
  assert (E1 : run [Bootstrap (Some a); Restored; StoredKey sessionKey iv; Loaded] t =
    loaded (init_session id a t0)).
  { unfold run. cbn [foldl exec session_store session_step].
    unfold bootstrapSession. rewrite Hr, Hb. unfold restored. simpl. rewrite Hm, Hid.
    unfold stored_key. simpl. by rewrite Hm, Hw. }
  cbv zeta. rewrite E1. clear E1.
  destruct (load_up id a mk t0 Hm) as (Hup & Hsk1 & Hmk1 & Hkb1).
  set (t1 := loaded (init_session id a t0)) in *.
  change (sk_item t0) with (Some sk) in Hsk1. change (mk_item (disk t0)) with (Some blob) in Hmk1.
  change (key_bundle (disk t0)) with (key_bundle (disk t)) in Hkb1.
  assert (Hid1 : restoreIdentity mk (key_bundle (disk t1)) = Ok (Some id)) by by rewrite Hkb1.
  clearbody t1.
  assert (Hask : run [Bootstrap None] (fresh_tab None (disk t1)) =
    post session_key_request (set_boot (Some (WaitPeer blob)) (fresh_tab None (disk t1)))).
  { unfold run. cbn [foldl exec session_store session_step]. unfold bootstrapSession. simpl.
    by rewrite Hmk1, bool_decide_eq_false_2. }
  rewrite Hask. split; [exact Hup|]. split; [|split; [done|split]].
  - rewrite run_reload. unfold bootstrapSession. simpl.
    rewrite Hmk1, bool_decide_eq_false_2, Hsk1, Htb by done.
    by apply (resume _ blob sk).
  - exists sk. split.
    + destruct Hup as (_ & _ & _ & _ & Hsync). unfold on_message. by rewrite Hsync, Hsk1, Htb.
    + cbv zeta. rewrite run_answer. unfold peer_answers. simpl bootstrapPromise. cbv iota.
      rewrite Htb. by apply (resume _ blob sk mk id).
  - done.
Qed.

(** Nothing of a session: in the tab, in its session storage, on the disk *)
Definition nothing_left (t : Tab) : Prop :=
  sessionReady t = false ∧ identity t = None ∧ keys_cleared t ∧
  channelKeyCache (ck t) = ∅ ∧ readyListeners t = [] ∧ sk_item t = None ∧
  disk t = {| mk_item := None; key_bundle := None; channel_keys := None |}.

Lemma teardown_start iv broadcast t :
  let t' := teardownSession iv broadcast t in
  posted t' = (if broadcast && sessionReady t then [session_teardown] else []) ++ posted t ∧
  teardowns t' = teardowns t ++ [Flushing] ∧ outcomes t' = outcomes t.
Proof.
  unfold teardownSession.
  set (t1 := if broadcast && sessionReady t then post session_teardown t else t).
  assert (Ht1 : posted t1 = (if broadcast && sessionReady t then [session_teardown] else []) ++ posted t ∧
    teardowns t1 = teardowns t ∧ outcomes t1 = outcomes t)
    by (unfold t1; by destruct (broadcast && sessionReady t)).
  destruct (flushChannelKeys _ _ _ _ _) as [[e k] r]. simpl.
  destruct Ht1 as (H1 & H2 & H3). by rewrite H2.
Qed.
Lemma teardown_finish t :
  teardowns t = [Flushing] →
  let t' := run [TeardownStep 0; TeardownStep 0; TeardownStep 0] t in
  nothing_left t' ∧ teardowns t' = [] ∧ posted t' = posted t.
Proof.
  intros E.
  assert (S1 : teardown_step 0 t = set_teardowns [ResettingSearch] t)
    by (unfold teardown_step; by rewrite E).
  change (run [TeardownStep 0; TeardownStep 0; TeardownStep 0] t)
    with (teardown_step 0 (teardown_step 0 (teardown_step 0 t))).
  rewrite S1. split; [|done]. unfold nothing_left, keys_cleared. repeat (split; [done|]). done.
Qed.

(** a logout that runs alone leaves nothing of the session, neither in the tab nor in
    the browser's storage, and tells the other tabs exactly when there was a session;
    a tab that is told does the same and tells no one, so that no message goes round. *)
Theorem logout_complete iv t other :
  teardowns t = [] → teardowns other = [] → syncChannel other = true →
  let steps := [TeardownStep 0; TeardownStep 0; TeardownStep 0] in
  let t' := run (Teardown iv true :: steps) t in
  let other' := run (Message iv session_teardown :: steps) other in
  nothing_left t' ∧ teardowns t' = [] ∧
  posted t' = (if sessionReady t then [session_teardown] else []) ++ posted t ∧
  nothing_left other' ∧ posted other' = posted other.
Proof.
  intros Ht Ho Hsync. cbv zeta.
  assert (R1 : ∀ steps, run (Teardown iv true :: steps) t = run steps (teardownSession iv true t))
    by done.
  assert (R2 : ∀ steps, run (Message iv session_teardown :: steps) other =
    run steps (teardownSession iv false other)).
  { intros steps.
    change (run steps (on_message iv session_teardown other) =
      run steps (teardownSession iv false other)).
    unfold on_message. by rewrite Hsync. }
  rewrite R1, R2. clear R1 R2.
  destruct (teardown_start iv true t) as (P1 & T1 & _).
  destruct (teardown_start iv false other) as (P2 & T2 & _).
  rewrite Ht in T1. rewrite Ho in T2.
  destruct (teardown_finish _ T1) as (N1 & E1 & Q1).
  destruct (teardown_finish _ T2) as (N2 & _ & Q2).
  split; [exact N1|]. split; [exact E1|]. rewrite Q1, P1, Q2, P2.
  split; [by destruct (sessionReady t)|]. by split.
Qed.

(** a wrong session key in answer to a request does no lasting harm: the bootstrap
    reports that there is no session, and session storage is as it was, so that the
    right answer, or a login, still succeeds.  (A key that another tab announces is
    stored unseen: a wrong one makes the next reload fail.) *)
Theorem wrong_answer_not_kept t blob k :
  bootstrapPromise t = Some (WaitPeer blob) → k ≠ "" → open_master_key blob k = None →
  let t' := run [PeerAnswers (Some k); Opened] t in
  sk_item t' = sk_item t ∧ disk t' = disk t ∧ bootstrapPromise t' = None ∧
  sessionReady t' = sessionReady t ∧ outcomes t' = Resolved false :: outcomes t ∧
  (∀ iv ready, syncChannel ready = true → mk_item (disk ready) = Some blob → blob ≠ "" →
     let r := run [Message iv (session_key_update k); Reload; Bootstrap None; Opened] ready in
     outcomes r = [Resolved false] ∧ sessionReady r = false).
Proof.
  intros Hb Hk Ho. assert (Htk : truthy (Some k) = true) by (simpl; by rewrite bool_decide_eq_false_2).
  unfold run. cbn [foldl exec session_store session_step]. unfold peer_answers. rewrite Hb, Htk.
  unfold opened. simpl. rewrite Ho. do 5 (split; [done|]). intros iv ready Hs Hblob Hne.
  unfold on_message. rewrite Hs. simpl. unfold bootstrapSession. simpl.
  rewrite Hblob, bool_decide_eq_false_2 by done. rewrite bool_decide_eq_false_2 by done.
  simpl. by rewrite Ho.
Qed.

(** ** What can go wrong *)

(** a logout while a bootstrap is in flight: when the teardown ends between the
    restoring of the identity and the loading of the keys, the bootstrap goes on and
    reports a ready session without an identity; every later bootstrap, a login's
    included, finds it ready and does nothing. *)
Theorem teardown_during_bootstrap t key given :
  bootstrapPromise t = Some (Loading key) → teardowns t = [ClearingStorage] →
  let t' := run [TeardownStep 0; Loaded] t in
  sessionReady t' = true ∧ identity t' = None ∧ teardowns t' = [] ∧
  outcomes t' = Resolved true :: outcomes t ∧
  (let t'' := run [Bootstrap given] t' in
   identity t'' = None ∧ outcomes t'' = Resolved true :: outcomes t').
Proof.
  intros Hb Htd.
  set (t1 := session_step (TeardownStep 0) t).
  assert (H1 : bootstrapPromise t1 = Some (Loading key) ∧ identity t1 = None ∧
    teardowns t1 = [] ∧ outcomes t1 = outcomes t).
  { unfold t1. cbn [session_step]. unfold teardown_step. rewrite Htd. simpl. rewrite Htd. done. }
  destruct H1 as (B1 & I1 & T1 & O1).
  change (run [TeardownStep 0; Loaded] t) with (loaded t1).
  destruct (loaded_from t1 key B1)
    as (E1 & E2 & E3 & E4 & E5 & E6 & E7 & E8 & E9 & E10 & E11 & E12 & E13 & E14 & _).
  cbv zeta. rewrite E1, E3, E6, E14, I1, T1, O1. do 4 (split; [done|]).
  change (run [Bootstrap given] (loaded t1)) with (bootstrapSession given (loaded t1)).
  unfold bootstrapSession. rewrite E1. simpl. by rewrite E3, I1, E14, O1.
Qed.

(** a login while a bootstrap without a password is in flight joins it, and its
    master key is not used: when no other tab answers, the login is told that there is
    no session. *)
Theorem login_joins_reload t a blob :
  bootstrapPromise t = Some (WaitPeer blob) → sessionReady t = false →
  let t' := run [Bootstrap (Some a); PeerAnswers None] t in
  sessionReady t' = false ∧ bootstrapPromise t' = None ∧
  outcomes t' = Resolved false :: outcomes t ∧ disk t' = disk t.
Proof.
  intros Hb Hr. unfold run. cbn [foldl exec session_store session_step].
  unfold bootstrapSession. rewrite Hr, Hb. unfold peer_answers. rewrite Hb. done.
Qed.

(** after a login the caller wipes the master key it passed, which is the buffer the
    channel-keys module keeps: from then on the channel keys are stored under the key of
    thirty-two zeros, which everyone can open. *)
Theorem login_leaves_zero_key t a mk id sessionKey iv iv' :
  sessionReady t = false → bootstrapPromise t = None →
  mem t !! a = Some mk → length mk = 32 →
  restoreIdentity mk (key_bundle (disk t)) = Ok (Some id) → length sessionKey = 32 →
  let t1 := run [Bootstrap (Some a); Restored; StoredKey sessionKey iv; Loaded; Wipe a] t in
  sessionReady t1 = true ∧ master_key (mem t1) (ck t1) = Some (zeros 32) ∧
  (channelKeyCache (ck t1) ≠ ∅ →
     ∃ c, (flushChannelKeys stringify iv' (mem t1) (ck t1) (channel_keys (disk t1))).2 = Some (c, iv') ∧
       aesGcmDecrypt (zeros 32) c iv' = Ok (serializeCache stringify (channelKeyCache (ck t1)))).
Proof.
  intros Hr Hb Hm Hlen Hid Hlk.
  assert (Hw : ∃ blob sk, wrap_master_key sessionKey iv mk = Ok (blob, sk)).
  { unfold wrap_master_key. rewrite importKey_ok by done. simpl. eauto. }
  destruct Hw as (blob & sk & Hw).
  set (t0 := post (session_key_update sk)
    (set_stores (Some sk) (set_mk_item (Some blob) (disk t))
      (set_boot (Some (Storing a id)) (set_boot (Some (Restoring a true)) t)))).
  assert (E1 : run [Bootstrap (Some a); Restored; StoredKey sessionKey iv; Loaded; Wipe a] t =
    session_step (Wipe a) (loaded (init_session id a t0))).
  { unfold run. cbn [foldl exec session_store session_step].
    unfold bootstrapSession. rewrite Hr, Hb. unfold restored. simpl. rewrite Hm, Hid.
    unfold stored_key. simpl. by rewrite Hm, Hw. }
  cbv zeta. rewrite E1. clear E1.
  destruct (loaded_from (init_session id a t0) a eq_refl)
    as (R1 & _ & _ & _ & _ & _ & _ & R8 & R9 & _).
  set (t1 := loaded (init_session id a t0)) in *.
  assert (Hmt1 : mem t1 !! a = Some mk) by by rewrite R9.
  assert (Hmk1 : masterKey (ck t1) = Some a) by by rewrite R8.
  clearbody t1. clear R8 R9. cbn [session_step].
  change (mem (set_keys (ck t1) (fill0 a (mem t1)) t1)) with (fill0 a (mem t1)).
  change (ck (set_keys (ck t1) (fill0 a (mem t1)) t1)) with (ck t1).
  split; [exact R1|]. split.
  - unfold master_key. rewrite Hmk1. cbn [mbind option_bind]. unfold fill0.
    rewrite lookup_alter_eq, Hmt1. cbn [fmap option_fmap option_map]. by rewrite Hlen.
  - intros Hne. destruct (flush_wiped stringify iv' (mem t1) (ck t1) a mk
      (channel_keys (disk t1)) Hmk1 Hmt1 Hlen Hne) as (c & Hs & Hd).
    exists c. split; [exact Hs|exact Hd].
Qed.
End session.

(** ** A demonstration session *)

#[local] Existing Instance toy.
#[local] Existing Instance toy_laws.

Definition demo_disk : Disk :=
  {| mk_item := None; channel_keys := None;
     key_bundle := result_opt (persistIdentity demo_nonce demo_pair demo_key) |}.
Definition demo_tab : Tab := set_keys no_keys demo_heap (fresh_tab None demo_disk).
Definition session_key : bytes := replicate 32 5%Z.

#[local] Instance demo_session : Store Tab session_event :=
  session_store write_json (read_json JNull) (λ _, "").
Definition logged_in : Tab :=
  run [Bootstrap (Some 0); Restored; StoredKey session_key demo_nonce; Loaded] demo_tab.

Lemma session_consistent_witness :
  let s := run [DiskChanges demo_disk; NewBuffer demo_key; Bootstrap (Some 0); Restored;
    StoredKey session_key demo_nonce; OnReady 7; Loaded] initial in
  sessionReady s = true ∧ bootstrapPromise s = None ∧ identity s ≠ None.
Proof.
  cbv zeta. set (s := run _ initial).
  assert (Hs : reachable s).
  { apply (reachable_run (Store0 := demo_session)). vm_compute. repeat split. intros a [= <-]. eauto. }
  assert (Hr : sessionReady s = true) by (vm_compute; reflexivity).
  destruct (session_consistent write_json (read_json JNull) (λ _, "") s Hs) as (H1 & _).
  destruct (H1 Hr) as (Hb & _ & Hi & _). split; [exact Hr|]. split; [exact Hb|exact Hi].
Defined.

Lemma session_continues_witness :
  up demo_pair demo_key logged_in ∧
  up demo_pair demo_key (run [Reload; Bootstrap None; Opened; Restored; Loaded] logged_in).
Proof.
  assert (Hmk : octets demo_key) by (apply Forall_replicate; done).
  assert (Hsk : octets session_key) by (apply Forall_replicate; done).
  assert (Hiv : octets demo_nonce) by (apply Forall_replicate; done).
  assert (Hid : restoreIdentity demo_key (key_bundle (disk demo_tab)) = Ok (Some demo_pair))
    by (vm_compute; reflexivity).
  destruct (session_continues write_json (read_json JNull) (λ _, "") demo_tab 0 demo_key demo_pair
    session_key demo_nonce eq_refl eq_refl eq_refl Hmk Hid eq_refl Hsk eq_refl Hiv) as (H1 & H2 & _).
  split; [exact H1|exact H2].
Defined.

Lemma logout_complete_witness :
  let steps := [TeardownStep 0; TeardownStep 0; TeardownStep 0] in
  let t' := run (Teardown demo_nonce true :: steps) logged_in in
  nothing_left t' ∧ posted t' = [session_teardown; session_key_update (btoa session_key)].
Proof.
  cbv zeta.
  destruct (logout_complete write_json (read_json JNull) (λ _, "") demo_nonce logged_in logged_in)
    as (H1 & _ & H2 & _); [vm_compute; reflexivity..|].
  split; [exact H1|]. etrans; [exact H2|vm_compute; reflexivity].
Defined.

Definition waiting : Tab :=
  run [Reload; DiskChanges (disk logged_in); Bootstrap None] (fresh_tab None demo_disk).
Definition waiting_blob : string := or_default "" (mk_item (disk logged_in)).

Lemma wrong_answer_not_kept_witness :
  let t' := run [PeerAnswers (Some "AAAA"); Opened] waiting in
  sk_item t' = None ∧ outcomes t' = [Resolved false].
Proof.
  cbv zeta.
  destruct (wrong_answer_not_kept write_json (read_json JNull) (λ _, "") waiting waiting_blob "AAAA")
    as (H1 & _ & _ & _ & H2 & _); [vm_compute; reflexivity|discriminate|vm_compute; reflexivity|].
  split; [exact H1|exact H2].
Defined.

Lemma teardown_during_bootstrap_witness :
  let t := run [Bootstrap (Some 0); Restored; StoredKey session_key demo_nonce;
    Teardown demo_nonce true; TeardownStep 0; TeardownStep 0] demo_tab in
  let t' := run [TeardownStep 0; Loaded] t in
  sessionReady t' = true ∧ identity t' = None.
Proof.
  cbv zeta. set (t := run [Bootstrap _; _; _; _; _; _] demo_tab).
  destruct (teardown_during_bootstrap write_json (read_json JNull) (λ _, "") t 0 None)
    as (H1 & H2 & _); [vm_compute; reflexivity..|].
  split; [exact H1|exact H2].
Defined.

Lemma login_joins_reload_witness :
  let t' := run [Bootstrap (Some 0); PeerAnswers None] waiting in
  sessionReady t' = false ∧ outcomes t' = [Resolved false].
Proof.
  cbv zeta.
  destruct (login_joins_reload write_json (read_json JNull) (λ _, "") waiting 0 waiting_blob)
    as (H1 & _ & H2 & _); [vm_compute; reflexivity..|].
  split; [exact H1|exact H2].
Defined.

Lemma login_leaves_zero_key_witness :
  let t1 := run [Bootstrap (Some 0); Restored; StoredKey session_key demo_nonce; Loaded; Wipe 0] demo_tab in
  sessionReady t1 = true ∧ master_key (mem t1) (ck t1) = Some (zeros 32).
Proof.
  assert (Hid : restoreIdentity demo_key (key_bundle (disk demo_tab)) = Ok (Some demo_pair))
    by (vm_compute; reflexivity).
  destruct (login_leaves_zero_key write_json (read_json JNull) (λ _, "") demo_tab 0 demo_key demo_pair
    session_key demo_nonce demo_nonce eq_refl eq_refl eq_refl eq_refl Hid eq_refl) as (H1 & H2 & _).
  split; [exact H1|exact H2].
Defined.
