(* ===== verification/KeyMonitor.v ===== *)
(** * Key changes and verification ([crypto/key-monitor.ts])

    The first key seen of each user, the detection of a change, and the verification
    records, which hold a hash of the key that was verified.  The two IndexedDB tables
    are part of the state. *)

From S2P Require Export Primitives.

Record CachedKey := { ck_publicKey : bytes; firstSeenAt : Z }.
Record VerificationRecord := { verified : bool; publicKeyHash : string; verifiedAt : Z }.

Inductive KeyCacheResult := first_seen | unchanged | changed.

(** [notified] lists the calls of the registered callback. *)
Record MonitorState := {
  cachedKeys : gmap string CachedKey;
  verifications : gmap string VerificationRecord;
  callback : bool;
  notified : list string;
}.

Definition on_keys f (s : MonitorState) : MonitorState :=
  {| cachedKeys := f (cachedKeys s); verifications := verifications s;
     callback := callback s; notified := notified s |}.
Definition on_verifications f (s : MonitorState) : MonitorState :=
  {| cachedKeys := cachedKeys s; verifications := f (verifications s);
     callback := callback s; notified := notified s |}.
Definition onKeyChanged (set : bool) (s : MonitorState) : MonitorState :=
  {| cachedKeys := cachedKeys s; verifications := verifications s;
     callback := set; notified := notified s |}.
Definition notify (userId : string) (s : MonitorState) : MonitorState :=
  {| cachedKeys := cachedKeys s; verifications := verifications s; callback := callback s;
     notified := if callback s then notified s ++ [userId] else notified s |}.

(** The loop [diff |= a[i] ^ b[i]] *)
Fixpoint key_diff (diff : Z) (a b : bytes) : Z :=
  match a, b with
  | x :: a, y :: b => key_diff (Z.lor diff (Z.lxor x y)) a b
  | _, _ => diff
  end.
Definition keysEqual (a b : bytes) : bool :=
  if decide (length a ≠ length b) then false else (key_diff 0 a b =? 0)%Z.

Definition cachePublicKey (now : Z) (userId : string) (publicKey : bytes) (s : MonitorState)
    : KeyCacheResult * MonitorState :=
  match cachedKeys s !! userId with
  | None =>
      (first_seen, on_keys <[userId := {| ck_publicKey := publicKey; firstSeenAt := now |}]> s)
  | Some cached =>
      if keysEqual (ck_publicKey cached) publicKey then (unchanged, s)
      else (changed, notify userId (on_keys <[userId :=
        {| ck_publicKey := publicKey; firstSeenAt := firstSeenAt cached |}]> s))
  end.

Section sha256.
Context (sha256 : bytes → bytes).

Definition hashPublicKey (publicKey : bytes) : string := toHex (sha256 publicKey).

Definition getVerificationStatus (userId : string) (s : MonitorState) :=
  verifications s !! userId.

Definition markVerified (now : Z) (userId : string) (publicKey : bytes)
    : MonitorState → MonitorState :=
  on_verifications <[userId := {| verified := true; publicKeyHash := hashPublicKey publicKey;
                                  verifiedAt := now |}]>.

Definition clearVerification (userId : string) : MonitorState → MonitorState :=
  on_verifications (delete userId).

Definition isVerificationValid (userId : string) (currentKey : bytes) (s : MonitorState)
    : bool :=
  match verifications s !! userId with
  | Some r => if verified r then bool_decide (publicKeyHash r = hashPublicKey currentKey)
              else false
  | None => false
  end.

(** The test of the loop: a verified record whose user's cached key has another hash *)
Definition is_stale (s : MonitorState) (userId : string) (r : VerificationRecord) : bool :=
  if verified r then
    match cachedKeys s !! userId with
    | Some cached => negb (bool_decide (publicKeyHash r = hashPublicKey (ck_publicKey cached)))
    | None => false
    end
  else false.

Definition pruneStaleVerifications (s : MonitorState) : list string * MonitorState :=
  foldl (λ '(stale, s) '(userId, r),
    if is_stale s userId r then (stale ++ [userId], clearVerification userId s)
    else (stale, s)) ([], s) (map_to_list (verifications s)).

(** *** Comparison of keys *)

Lemma key_diff_zero d a b :
  (0 ≤ d)%Z → octets a → octets b → length a = length b →
  key_diff d a b = 0%Z ↔ d = 0%Z ∧ a = b.
Proof.
  intros Hd Ha. revert d b Hd. induction Ha as [|x a Hx Ha IH]; intros d [|y b] Hd Hb Hl;
    try discriminate Hl; simpl; [tauto|].
  apply Forall_cons in Hb as [Hy Hb]. unfold octet in *.
  assert (Hxor : (0 ≤ Z.lxor x y)%Z) by (apply Z.lxor_nonneg; lia).
  rewrite IH; [|apply Z.lor_nonneg; lia|done|simpl in Hl; lia].
  rewrite Z.lor_eq_0_iff, Z.lxor_eq_0_iff. naive_solver.
Qed.
Lemma keysEqual_spec a b : octets a → octets b → keysEqual a b = true ↔ a = b.
Proof.
  intros Ha Hb. unfold keysEqual. case_decide as Hl.
  - split; [done|]. intros ->. by destruct Hl.
  - rewrite Z.eqb_eq, key_diff_zero; [tauto|lia|done|done|].
    destruct (decide (length a = length b)); tauto.
Qed.

(** every way a fetched key can relate to the cache: a first key is cached, the same
    key changes nothing, and any other key is reported as changed, replaces the cached
    one with the date of the first kept, and calls the registered callback once;
    verification of the old key no longer counts unless the hashes collide. *)
Theorem cachePublicKey_detects now uid pk s :
  octets pk → map_Forall (λ _ c, octets (ck_publicKey c)) (cachedKeys s) →
  let '(r, s') := cachePublicKey now uid pk s in
  ck_publicKey <$> cachedKeys s' !! uid = Some pk ∧
  (∀ u, u ≠ uid → cachedKeys s' !! u = cachedKeys s !! u) ∧
  verifications s' = verifications s ∧
  match r, cachedKeys s !! uid with
  | first_seen, None => notified s' = notified s
  | unchanged, Some c => ck_publicKey c = pk ∧ s' = s
  | changed, Some c =>
      ck_publicKey c ≠ pk ∧ firstSeenAt <$> cachedKeys s' !! uid = Some (firstSeenAt c) ∧
      (callback s = true → notified s' = notified s ++ [uid]) ∧
      (hashPublicKey (ck_publicKey c) ≠ hashPublicKey pk →
       isVerificationValid uid (ck_publicKey c) s = true →
       isVerificationValid uid pk s' = false)
  | _, _ => False
  end.
Proof.
  intros Hpk Hs. unfold cachePublicKey. destruct (cachedKeys s !! uid) as [c|] eqn:E.
  - destruct (keysEqual (ck_publicKey c) pk) eqn:Ek.
    + apply keysEqual_spec in Ek; [|by apply (Hs uid)|done]. rewrite E. simpl.
      split; [by rewrite Ek|]. done.
    + split; [simpl; by rewrite lookup_insert_eq|].
      split; [intros u Hu; simpl; by rewrite lookup_insert_ne|]. split; [done|].
      split; [intros Heq|split; [simpl; by rewrite lookup_insert_eq|split]].
      * apply not_true_iff_false in Ek. apply Ek, keysEqual_spec; [by apply (Hs uid)|done..].
      * simpl. by intros ->.
      * intros Hh. unfold isVerificationValid. simpl.
        destruct (verifications s !! uid) as [v|]; [|done]. destruct (verified v); [|done].
        rewrite bool_decide_eq_true, bool_decide_eq_false. congruence.
  - split; [simpl; by rewrite lookup_insert_eq|].
    split; [intros u Hu; simpl; by rewrite lookup_insert_ne|]. done.
Qed.

(** *** Pruning *)

Lemma prune_fold l stale s :
  NoDup (l.*1) →
  foldl (λ '(stale, s) '(userId, r),
    if is_stale s userId r then (stale ++ [userId], clearVerification userId s)
    else (stale, s)) (stale, s) l =
  (stale ++ (filter (λ kv, is_stale s kv.1 kv.2 = true) l).*1,
   on_verifications (λ m, foldl (λ m kv, delete kv.1 m) m
     (filter (λ kv, is_stale s kv.1 kv.2 = true) l)) s).
Proof.
  intros _. revert stale s. induction l as [|[u r] l IH]; intros stale s; cbn [foldl].
  - rewrite app_nil_r. by destruct s.
  - rewrite filter_cons. cbn [fst snd]. destruct (is_stale s u r) eqn:E.
    + rewrite decide_True by done. rewrite IH. cbn [fmap list_fmap fst foldl].
      rewrite <-app_assoc. f_equal.
    + rewrite decide_False by done. apply IH.
Qed.

(** pruning removes exactly the verified records whose user's cached key has another
    hash and returns those users; afterwards every verified record whose user has a
    cached key is a verification of that key, and the key cache is as before. *)
Theorem prune_exact s uid :
  let '(stale, s') := pruneStaleVerifications s in
  (uid ∈ stale ↔ ∃ r, verifications s !! uid = Some r ∧ is_stale s uid r = true) ∧
  verifications s' !! uid = (if decide (uid ∈ stale) then None else verifications s !! uid) ∧
  cachedKeys s' = cachedKeys s ∧
  (∀ r c, verifications s' !! uid = Some r → verified r = true →
     cachedKeys s' !! uid = Some c → isVerificationValid uid (ck_publicKey c) s' = true).
Proof.
  unfold pruneStaleVerifications.
  rewrite (prune_fold _ [] s) by apply NoDup_fst_map_to_list. simpl.
  set (l := filter (λ kv, is_stale s kv.1 kv.2 = true) (map_to_list (verifications s))).
  assert (Hin : uid ∈ l.*1 ↔ ∃ r, verifications s !! uid = Some r ∧ is_stale s uid r = true).
  { unfold l. rewrite list_elem_of_fmap. split.
    - intros ([u r] & -> & [Hst Hm]%list_elem_of_filter). exists r.
      by apply elem_of_map_to_list in Hm.
    - intros (r & Hr & Hst). exists (uid, r). split; [done|].
      apply list_elem_of_filter. split; [done|]. by apply elem_of_map_to_list. }
  assert (Hlook : foldl (λ m kv, delete kv.1 m) (verifications s) l !! uid =
    if decide (uid ∈ l.*1) then None else verifications s !! uid).
  { exact (lookup_delete_all fst l (verifications s) uid). }
  split; [exact Hin|]. split; [exact Hlook|]. split; [done|].
  intros r c Hr Hv Hc. unfold isVerificationValid. simpl. rewrite Hr, Hv.
  rewrite Hlook in Hr. case_decide as Hn; [done|].
  apply bool_decide_eq_true. destruct (decide (publicKeyHash r = hashPublicKey (ck_publicKey c)))
    as [|Hne]; [done|]. destruct Hn. apply Hin. exists r. split; [done|].
  unfold is_stale. by rewrite Hv, Hc, bool_decide_eq_false_2.
Qed.
End sha256.

Definition demo_monitor : MonitorState :=
  (cachePublicKey 5 "u" [1; 2]%Z
    {| cachedKeys := ∅; verifications := ∅; callback := true; notified := [] |}).2.

Lemma cachePublicKey_detects_witness :
  (cachePublicKey 9 "u" [3]%Z demo_monitor).1 = changed ∧
  ck_publicKey <$> cachedKeys (cachePublicKey 9 "u" [3]%Z demo_monitor).2 !! "u" = Some [3]%Z.
Proof.
  split; [reflexivity|].
  refine (proj1 (cachePublicKey_detects (λ b, b) 9 "u" [3]%Z demo_monitor _ _)).
  - by repeat constructor.
  - apply map_Forall_insert_2; [by repeat constructor|apply map_Forall_empty].
Defined.

Lemma prune_exact_witness :
  (pruneStaleVerifications (λ b, b)
     (markVerified (λ b, b) 6 "u" [7]%Z demo_monitor)).1 = ["u"] ∧
  verifications (pruneStaleVerifications (λ b, b)
     (markVerified (λ b, b) 6 "u" [7]%Z demo_monitor)).2 !! "u" = None.
Proof.
  split; [vm_compute; reflexivity|].
  exact (proj1 (proj2 (prune_exact (λ b, b)
    (markVerified (λ b, b) 6 "u" [7]%Z demo_monitor) "u"))).
Defined.
