(* ===== verification/TilingTree.v ===== *)
(** * The tiling tree ([tiling/types.ts], [tiling/tree.ts])

    Panes of the window manager as the leaves of a binary tree of splits, and the
    pure functions that split, remove, move and resize them.  The reference for all
    of them is the in-order list of pane ids, [allPaneIds]. *)

From S2P Require Export JsNumber.

Notation PaneId := string (only parsing).

Inductive SplitDirection := horizontal | vertical.
Inductive Side := first | second.
Notation TreePath := (list Side).
Inductive DropPosition := center | left | right | top | bottom.

Inductive TilingNode :=
  | Pane (id : PaneId)
  | Split (direction : SplitDirection) (ratio : number) (fst snd : TilingNode).

#[export] Instance SplitDirection_eq_dec : EqDecision SplitDirection.
Proof. solve_decision. Defined.
#[export] Instance Side_eq_dec : EqDecision Side.
Proof. solve_decision. Defined.
#[export] Instance DropPosition_eq_dec : EqDecision DropPosition.
Proof. solve_decision. Defined.

Definition MIN_RATIO : number := Num.n0_1.
Definition MAX_RATIO : number := Num.n0_9.

Definition clampRatio (ratio : number) : number := Num.max MIN_RATIO (Num.min MAX_RATIO ratio).

Fixpoint splitPane (root : TilingNode) (targetId : PaneId) (direction : SplitDirection)
    (newPaneId : PaneId) (before : bool) : TilingNode :=
  match root with
  | Pane id =>
      if decide (id = targetId) then
        Split direction Num.n0_5
          (if before then Pane newPaneId else root)
          (if before then root else Pane newPaneId)
      else root
  | Split d r a b =>
      Split d r (splitPane a targetId direction newPaneId before)
        (splitPane b targetId direction newPaneId before)
  end.

Fixpoint removePane (root : TilingNode) (targetId : PaneId) : option TilingNode :=
  match root with
  | Pane id => if decide (id = targetId) then None else Some root
  | Split d r a b =>
      match removePane a targetId, removePane b targetId with
      | None, secondResult => secondResult
      | firstResult, None => firstResult
      | Some a', Some b' => Some (Split d r a' b')
      end
  end.

Fixpoint updateRatio (root : TilingNode) (path : TreePath) (newRatio : number) : TilingNode :=
  match path, root with
  | [], Split d _ a b => Split d (clampRatio newRatio) a b
  | [], Pane _ => root
  | first :: rest, Split d r a b => Split d r (updateRatio a rest newRatio) b
  | second :: rest, Split d r a b => Split d r a (updateRatio b rest newRatio)
  | _ :: _, Pane _ => root
  end.

Fixpoint allPaneIds (node : TilingNode) : list PaneId :=
  match node with
  | Pane id => [id]
  | Split _ _ a b => allPaneIds a ++ allPaneIds b
  end.

Fixpoint findPane (node : TilingNode) (id : PaneId) : option TreePath :=
  match node with
  | Pane i => if decide (i = id) then Some [] else None
  | Split _ _ a b =>
      match findPane a id with
      | Some inFirst => Some (first :: inFirst)
      | None =>
          match findPane b id with
          | Some inSecond => Some (second :: inSecond)
          | None => None
          end
      end
  end.

Fixpoint paneCount (node : TilingNode) : nat :=
  match node with
  | Pane _ => 1
  | Split _ _ a b => paneCount a + paneCount b
  end.

(** [node.type === 'pane' && node.id === id] *)
Definition is_pane (node : TilingNode) (id : PaneId) : bool :=
  match node with Pane i => bool_decide (i = id) | Split _ _ _ _ => false end.

(** The split above a pane, the side the pane is on, and the path to the split. *)
Record ParentSplit := { ps_split : TilingNode; ps_side : Side; ps_path : TreePath }.

Definition ps_under (side : Side) (p : ParentSplit) : ParentSplit :=
  {| ps_split := ps_split p; ps_side := ps_side p; ps_path := side :: ps_path p |}.

Fixpoint findParentSplit (node : TilingNode) (targetId : PaneId) : option ParentSplit :=
  match node with
  | Pane _ => None
  | Split _ _ a b =>
      if is_pane a targetId then Some {| ps_split := node; ps_side := first; ps_path := [] |}
      else if is_pane b targetId then
        Some {| ps_split := node; ps_side := second; ps_path := [] |}
      else
        match findParentSplit a targetId with
        | Some inFirst => Some (ps_under first inFirst)
        | None => ps_under second <$> findParentSplit b targetId
        end
  end.

Fixpoint siblingSwapZone (node : TilingNode) (sourceId targetId : PaneId)
    : option DropPosition :=
  match node with
  | Pane _ => None
  | Split d _ a b =>
      if is_pane a sourceId && is_pane b targetId then
        Some (match d with horizontal => left | vertical => top end)
      else if is_pane b sourceId && is_pane a targetId then
        Some (match d with horizontal => right | vertical => bottom end)
      else
        match siblingSwapZone a sourceId targetId with
        | Some z => Some z
        | None => siblingSwapZone b sourceId targetId
        end
  end.

(** Where a drop at an edge puts the moved pane. *)
Definition drop_direction (position : DropPosition) : SplitDirection :=
  match position with left | right => horizontal | _ => vertical end.
Definition drop_before (position : DropPosition) : bool :=
  match position with left | top => true | _ => false end.

Definition movePane (root : TilingNode) (sourceId targetId : PaneId) (position : DropPosition)
    : option TilingNode :=
  match removePane root sourceId with
  | None => None
  | Some afterRemove =>
      Some (splitPane afterRemove targetId (drop_direction position) sourceId
        (drop_before position))
  end.

(** ** Pane ids of the results *)

Notation ids := allPaneIds (only parsing).

Lemma paneCount_length node : paneCount node = length (ids node).
Proof. induction node; simpl; [done|]. rewrite length_app. lia. Qed.

Lemma allPaneIds_nonempty node : ids node ≠ [].
Proof. induction node; simpl; [done|]. by destruct (ids node1). Qed.

Lemma splitPane_absent root t d n b : t ∉ ids root → splitPane root t d n b = root.
Proof.
  induction root as [i|d' r a IHa c IHc]; simpl.
  - case_decide; [set_solver|done].
  - rewrite not_elem_of_app. intros [??]. by rewrite IHa, IHc.
Qed.

(** Each leaf becomes itself, or itself beside the new pane. *)
Lemma splitPane_ids root t d n b :
  ids (splitPane root t d n b) =
    (i ← ids root; if decide (i = t) then (if b then [n; i] else [i; n]) else [i]).
Proof.
  induction root as [i|d' r a IHa c IHc]; simpl.
  - case_decide; by destruct b.
  - by rewrite IHa, IHc, bind_app.
Qed.

Lemma splitPane_perm root t d n b :
  NoDup (ids root) → t ∈ ids root → ids (splitPane root t d n b) ≡ₚ n :: ids root.
Proof.
  rewrite splitPane_ids. generalize (ids root) as l. clear root.
  assert (Habs : ∀ l : list PaneId, t ∉ l →
    (i ← l; if decide (i = t) then (if b then [n; i] else [i; n]) else [i]) = l).
  { induction l as [|i l IH]; [done|]. rewrite not_elem_of_cons. intros [? ?]. csimpl.
    rewrite IH by done. by rewrite decide_False. }
  induction l as [|i l IH]; [set_solver|]. rewrite NoDup_cons, elem_of_cons. csimpl.
  intros [Hi Hnd] [->|Hin].
  - rewrite decide_True, Habs by done. destruct b; simpl; [done|]. apply Permutation_swap.
  - rewrite decide_False, IH by (done || set_solver). apply Permutation_swap.
Qed.

Lemma removePane_ids root t :
  or_default [] (ids <$> removePane root t) = filter (.≠ t) (ids root).
Proof.
  induction root as [i|d r a IHa b IHb]; simpl.
  - rewrite filter_cons. repeat case_decide; naive_solver.
  - rewrite filter_app, <-IHa, <-IHb.
    destruct (removePane a t), (removePane b t); simpl; by rewrite ?app_nil_r.
Qed.

Lemma removePane_Some root t r :
  removePane root t = Some r → ids r = filter (.≠ t) (ids root).
Proof. intros H. by rewrite <-removePane_ids, H. Qed.

Lemma removePane_None root t : removePane root t = None ↔ filter (.≠ t) (ids root) = [].
Proof.
  rewrite <-removePane_ids. destruct (removePane root t) as [r|]; simpl; [|done].
  split; [done|]. by intros ?%allPaneIds_nonempty.
Qed.

Lemma remove_readd (s : PaneId) l : NoDup l → s ∈ l → s :: filter (.≠ s) l ≡ₚ l.
Proof.
  intros Hnd Hs. apply NoDup_Permutation; [|done|].
  - apply NoDup_cons. split; [rewrite list_elem_of_filter; naive_solver|by apply NoDup_filter].
  - intros x. rewrite elem_of_cons, list_elem_of_filter. destruct (decide (x = s)); naive_solver.
Qed.

Lemma updateRatio_ids root p x : ids (updateRatio root p x) = ids root.
Proof.
  revert root. induction p as [|[] p IH]; intros [i|d r a b]; simpl; try done; by rewrite IH.
Qed.

Lemma is_pane_true node id : is_pane node id = true ↔ node = Pane id.
Proof. destruct node; simpl; [rewrite bool_decide_eq_true|]; naive_solver. Qed.

(** The subtree at a path. *)
Fixpoint subtree (node : TilingNode) (path : TreePath) : option TilingNode :=
  match path, node with
  | [], _ => Some node
  | first :: p, Split _ _ a _ => subtree a p
  | second :: p, Split _ _ _ b => subtree b p
  | _ :: _, Pane _ => None
  end.

(** Every ratio of the tree lies between the two bounds. *)
Fixpoint ratios_ok (node : TilingNode) : bool :=
  match node with
  | Pane _ => true
  | Split _ r a b =>
      Num.le MIN_RATIO r && Num.le r MAX_RATIO && ratios_ok a && ratios_ok b
  end.

(** ** Properties *)

(** splitting a pane of a tree without duplicate ids adds exactly the new pane,
    next to the target on the requested side; the order of the others is kept, the
    pane count grows by one, and a target that is not in the tree changes nothing. *)
Theorem splitPane_correct root t d n before :
  NoDup (ids root) →
  (t ∉ ids root → splitPane root t d n before = root) ∧
  (t ∈ ids root → ∃ l1 l2, ids root = l1 ++ t :: l2 ∧
     ids (splitPane root t d n before) =
       l1 ++ (if before then [n; t] else [t; n]) ++ l2 ∧
     paneCount (splitPane root t d n before) = S (paneCount root)).
Proof.
  intros Hnd. split; [apply splitPane_absent|]. intros Ht.
  destruct (list_elem_of_split _ _ Ht) as (l1 & l2 & Hl). exists l1, l2. split; [done|]. split.
  - rewrite splitPane_ids, Hl, bind_app. csimpl. rewrite decide_True by done.
    rewrite Hl in Hnd. apply NoDup_app in Hnd as (_ & Hd & [Hn2 _]%NoDup_cons).
    assert (Habs : ∀ l : list PaneId, t ∉ l →
      (i ← l; if decide (i = t) then (if before then [n; i] else [i; n]) else [i]) = l).
    { induction l as [|i l IH]; [done|]. rewrite not_elem_of_cons. intros [? ?]. csimpl.
      rewrite IH by done. by rewrite decide_False. }
    rewrite !Habs; [by destruct before| |]; [done|]. intros ?. eapply Hd; [done|]. by left.
  - rewrite !paneCount_length. by rewrite splitPane_perm.
Qed.

(** removing a pane leaves exactly the other panes, in order, and gives no tree
    only when no other pane is left. *)
Theorem removePane_correct root t :
  match removePane root t with
  | Some r => ids r = filter (.≠ t) (ids root)
  | None => ∀ i, i ∈ ids root → i = t
  end.
Proof.
  destruct (removePane root t) as [r|] eqn:E; [by apply removePane_Some|].
  apply removePane_None in E. intros i Hi. destruct (decide (i = t)) as [|Hne]; [done|].
  assert (Hin : i ∈ filter (.≠ t) (ids root)) by by apply list_elem_of_filter.
  rewrite E in Hin. by apply elem_of_nil in Hin.
Qed.

(** a path found for a pane leads to that pane, and none is found only when the
    pane is not in the tree. *)
Theorem findPane_correct root id :
  match findPane root id with
  | Some path => subtree root path = Some (Pane id)
  | None => id ∉ ids root
  end.
Proof.
  induction root as [i|d r a IHa b IHb]; simpl; [case_decide; set_solver|].
  destruct (findPane a id); [done|]. destruct (findPane b id); [done|]. set_solver.
Qed.

(** the parent split found for a pane is the subtree at the reported path and has
    the pane as the child on the reported side. *)
Theorem findParentSplit_sound root id p :
  findParentSplit root id = Some p →
  subtree root (ps_path p) = Some (ps_split p) ∧
  subtree root (ps_path p ++ [ps_side p]) = Some (Pane id).
Proof.
  revert p. induction root as [i|d r a IHa b IHb]; intros p; simpl; [done|].
  destruct (is_pane a id) eqn:Ea; [|destruct (is_pane b id) eqn:Eb].
  - intros [= <-]. apply is_pane_true in Ea as ->. done.
  - intros [= <-]. apply is_pane_true in Eb as ->. done.
  - destruct (findParentSplit a id) as [q|]; [intros [= <-]; by apply (IHa q)|].
    destruct (findParentSplit b id) as [q|]; [|done]. intros [= <-]. by apply (IHb q).
Qed.

Lemma clampRatio_ok x : Num.is_nan x = false →
  Num.le MIN_RATIO (clampRatio x) && Num.le (clampRatio x) MAX_RATIO = true.
Proof.
  intros Hx. destruct (Num.clamp_range MIN_RATIO MAX_RATIO eq_refl eq_refl eq_refl x Hx)
    as [H1 H2].
  unfold Num.clamp in *. unfold clampRatio. by rewrite H1, H2.
Qed.

Lemma updateRatio_ok root p x : Num.is_nan x = false →
  ratios_ok root = true → ratios_ok (updateRatio root p x) = true.
Proof.
  intros Hx. revert root.
  induction p as [|[] p IH]; intros [i|d r a b]; simpl; try done; intros H;
    repeat (apply andb_true_iff in H as [H ?]).
  - by rewrite clampRatio_ok, H1, H0.
  - rewrite H, H2, H0, IH by done. done.
  - rewrite H, H2, H1, IH by done. done.
Qed.

(** dragging a divider keeps every pane, keeps all ratios within the bounds
    whatever number is requested, and stores a request strictly inside the bounds as
    it is. *)
Theorem updateRatio_correct root path x :
  Num.is_nan x = false → ratios_ok root = true →
  ids (updateRatio root path x) = ids root ∧
  ratios_ok (updateRatio root path x) = true ∧
  (∀ d r a b, subtree root path = Some (Split d r a b) →
     subtree (updateRatio root path x) path = Some (Split d (clampRatio x) a b)) ∧
  (Num.lt MIN_RATIO x = true → Num.lt x MAX_RATIO = true → clampRatio x = x).
Proof.
  intros Hx Hok. split; [apply updateRatio_ids|]. split; [by apply updateRatio_ok|]. split.
  - clear. revert root. induction path as [|[] p IH]; intros [i|d r a b] ????; simpl;
      try done; [congruence|apply IH|apply IH].
  - apply (Num.clamp_inside MIN_RATIO MAX_RATIO); reflexivity.
Qed.

Lemma split_sibling root t d n before :
  t ∈ ids root → n ∉ ids root → NoDup (ids root) →
  ∃ path, subtree (splitPane root t d n before) path =
    Some (Split d Num.n0_5 (if before then Pane n else Pane t)
            (if before then Pane t else Pane n)).
Proof.
  induction root as [i|d' r a IHa b IHb]; simpl.
  - intros ->%list_elem_of_singleton _ _. rewrite decide_True by done. by exists [].
  - rewrite elem_of_app, not_elem_of_app, NoDup_app. intros [Ht|Ht] [Hna Hnb] (Ha & Hd & Hb).
    + destruct (IHa Ht Hna Ha) as [p Hp]. by exists (first :: p).
    + destruct (IHb Ht Hnb Hb) as [p Hp]. by exists (second :: p).
Qed.

(** moving a pane next to another one loses, duplicates and renames no pane, and
    makes the two panes the children of one split, oriented and ordered by the edge
    the pane was dropped on. *)
Theorem movePane_correct root s t position :
  NoDup (ids root) → s ∈ ids root → t ∈ ids root → s ≠ t →
  ∃ r, movePane root s t position = Some r ∧
    ids r ≡ₚ ids root ∧ paneCount r = paneCount root ∧
    ∃ path, subtree r path = Some (Split (drop_direction position) Num.n0_5
      (if drop_before position then Pane s else Pane t)
      (if drop_before position then Pane t else Pane s)).
Proof.
  intros Hnd Hs Ht Hne. unfold movePane.
  assert (Hin : t ∈ filter (.≠ s) (ids root)) by (by apply list_elem_of_filter).
  destruct (removePane root s) as [r|] eqn:E.
  2:{ apply removePane_None in E. rewrite E in Hin. by apply elem_of_nil in Hin. }
  apply removePane_Some in E.
  assert (Hnd' : NoDup (ids r)) by (rewrite E; by apply NoDup_filter).
  assert (Ht' : t ∈ ids r) by by rewrite E.
  assert (Hs' : s ∉ ids r) by (rewrite E, list_elem_of_filter; naive_solver).
  eexists. split; [done|].
  assert (Hperm : ids (splitPane r t (drop_direction position) s (drop_before position))
    ≡ₚ ids root).
  { rewrite splitPane_perm by done. rewrite E. by apply remove_readd. }
  split; [done|]. split; [rewrite !paneCount_length; by rewrite Hperm|].
  by apply split_sibling.
Qed.

(** the zone that means "swap" is reported exactly for two panes that are the
    children of one split. *)
Theorem siblingSwapZone_siblings root s t z :
  siblingSwapZone root s t = Some z →
  ∃ path d r, (subtree root path = Some (Split d r (Pane s) (Pane t)) ∧
      z = match d with horizontal => left | vertical => top end) ∨
    (subtree root path = Some (Split d r (Pane t) (Pane s)) ∧
      z = match d with horizontal => right | vertical => bottom end).
Proof.
  induction root as [i|d r a IHa b IHb]; simpl; [done|].
  destruct (is_pane a s && is_pane b t) eqn:E1; [|destruct (is_pane b s && is_pane a t) eqn:E2].
  - apply andb_true_iff in E1 as [->%is_pane_true ->%is_pane_true].
    intros [= <-]. exists [], d, r. by left.
  - apply andb_true_iff in E2 as [->%is_pane_true ->%is_pane_true].
    intros [= <-]. exists [], d, r. by right.
  - destruct (siblingSwapZone a s t) as [z'|].
    + intros [= <-]. destruct (IHa eq_refl) as (p & d' & r' & H). by exists (first :: p), d', r'.
    + intros H. destruct (IHb H) as (p & d' & r' & H'). by exists (second :: p), d', r'.
Qed.

(** ** Concrete trees *)

Definition demo_tree : TilingNode :=
  Split horizontal Num.n0_5 (Pane "a") (Split vertical Num.n0_5 (Pane "b") (Pane "c")).

Lemma demo_tree_nodup : NoDup (ids demo_tree).
Proof. apply (bool_decide_unpack _). vm_compute. done. Qed.

Lemma splitPane_correct_witness :
  ids (splitPane demo_tree "b" horizontal "n" true) = ["a"; "n"; "b"; "c"].
Proof.
  destruct (splitPane_correct demo_tree "b" horizontal "n" true demo_tree_nodup) as [_ H].
  destruct H as (l1 & l2 & Hl & Hs & _); [apply (bool_decide_unpack _); reflexivity|].
  reflexivity.
Defined.

Lemma findParentSplit_sound_witness : subtree demo_tree [second; second] = Some (Pane "c").
Proof.
  apply (findParentSplit_sound demo_tree "c"
    {| ps_split := Split vertical Num.n0_5 (Pane "b") (Pane "c"); ps_side := second;
       ps_path := [second] |}).
  reflexivity.
Defined.

Lemma updateRatio_correct_witness :
  ids (updateRatio demo_tree [second] Num.two) = ["a"; "b"; "c"].
Proof. apply (updateRatio_correct demo_tree [second] Num.two); reflexivity. Defined.

Lemma movePane_correct_witness :
  ∃ r, movePane demo_tree "c" "a" left = Some r ∧ paneCount r = 3.
Proof.
  destruct (movePane_correct demo_tree "c" "a" left demo_tree_nodup) as (r & Hr & _ & Hc & _).
  - apply (bool_decide_unpack _). reflexivity.
  - apply (bool_decide_unpack _). reflexivity.
  - discriminate.
  - exists r. split; [exact Hr|exact Hc].
Defined.

Lemma siblingSwapZone_siblings_witness :
  siblingSwapZone demo_tree "c" "b" = Some bottom ∧
  ∃ path d r, subtree demo_tree path = Some (Split d r (Pane "b") (Pane "c")) ∨
    subtree demo_tree path = Some (Split d r (Pane "c") (Pane "b")).
Proof.
  split; [reflexivity|].
  destruct (siblingSwapZone_siblings demo_tree "c" "b" bottom eq_refl)
    as (p & d & r & [[H _]|[H _]]); exists p, d, r; auto.
Defined.
