(* ===== verification/DropZone.v ===== *)
(** * Drop zones ([components/shell/computeDropZone.ts])

    Which edge of a pane a dragged pane would be dropped on, from the pointer
    position, with hysteresis: the zone the pointer is in has a wider band. *)

From S2P Require Export TilingTree.

Record DOMRect := { rect_left : number; rect_top : number;
                    rect_width : number; rect_height : number }.

Definition ENTER_BAND : number := Num.n0_25.
Definition LEAVE_BAND : number := Num.n0_35.

Definition band (current : option DropPosition) (z : DropPosition) : number :=
  if bool_decide (current = Some z) then LEAVE_BAND else ENTER_BAND.

(** The zone from the pointer's coordinates relative to the rectangle. *)
Definition zone_at (relX relY : number) (currentZone : option DropPosition) : DropPosition :=
  let inLeft := Num.lt relX (band currentZone left) in
  let inRight := Num.lt (Num.sub Num.one (band currentZone right)) relX in
  let inTop := Num.lt relY (band currentZone top) in
  let inBottom := Num.lt (Num.sub Num.one (band currentZone bottom)) relY in
  let in_zone z := match z with
    | left => inLeft | right => inRight | top => inTop | bottom => inBottom
    | center => false end in
  if negb inLeft && negb inRight && negb inTop && negb inBottom then center
  else if (inLeft || inRight) && (inTop || inBottom) then
    match currentZone with
    | Some z =>
        if in_zone z then z
        else
          let edgeDistX := if inLeft then relX else Num.sub Num.one relX in
          let edgeDistY := if inTop then relY else Num.sub Num.one relY in
          if Num.lt edgeDistX edgeDistY then (if inLeft then left else right)
          else (if inTop then top else bottom)
    | None =>
        let edgeDistX := if inLeft then relX else Num.sub Num.one relX in
        let edgeDistY := if inTop then relY else Num.sub Num.one relY in
        if Num.lt edgeDistX edgeDistY then (if inLeft then left else right)
        else (if inTop then top else bottom)
    end
  else if inLeft then left
  else if inRight then right
  else if inTop then top
  else bottom.

Definition computeDropZone (pointerX pointerY : number) (rect : DOMRect) (swapOnly : bool)
    (currentZone : option DropPosition) : DropPosition :=
  if swapOnly then center
  else
    zone_at (Num.div (Num.sub pointerX (rect_left rect)) (rect_width rect))
      (Num.div (Num.sub pointerY (rect_top rect)) (rect_height rect)) currentZone.

(** The pointer is inside the band of a zone. *)
Definition in_band (relX relY : number) (current : option DropPosition) (z : DropPosition)
    : bool :=
  match z with
  | left => Num.lt relX (band current left)
  | right => Num.lt (Num.sub Num.one (band current right)) relX
  | top => Num.lt relY (band current top)
  | bottom => Num.lt (Num.sub Num.one (band current bottom)) relY
  | center => false
  end.

(** Opposite bands never overlap. *)
Lemma bands_disjoint current z1 z2 x :
  Num.lt (Num.sub Num.one (band current z2)) x = true →
  Num.lt x (band current z1) = false.
Proof.
  intros H2. apply not_true_iff_false. intros H1.
  pose proof (Num.lt_trans _ _ _ H2 H1) as H.
  unfold band in H. repeat case_bool_decide; by vm_compute in H.
Qed.

(** the zone computed is the centre or a zone whose band the pointer is in; a
    pointer outside all bands is in the centre; and while the pointer stays in the
    (wider) band of the zone it is in, the zone does not change. *)
Theorem drop_zone_hysteresis relX relY current :
  (zone_at relX relY current = center ↔
     ∀ z, in_band relX relY current z = false) ∧
  (zone_at relX relY current ≠ center →
     in_band relX relY current (zone_at relX relY current) = true) ∧
  (∀ z, current = Some z → in_band relX relY current z = true →
     zone_at relX relY current = z).
Proof.
  assert (Hx : Num.lt (Num.sub Num.one (band current right)) relX = true →
    Num.lt relX (band current left) = false) by apply bands_disjoint.
  assert (Hy : Num.lt (Num.sub Num.one (band current bottom)) relY = true →
    Num.lt relY (band current top) = false) by apply bands_disjoint.
  unfold zone_at, in_band.
  destruct (Num.lt relX (band current left)) eqn:L,
    (Num.lt (Num.sub Num.one (band current right)) relX) eqn:R,
    (Num.lt relY (band current top)) eqn:T,
    (Num.lt (Num.sub Num.one (band current bottom)) relY) eqn:B;
    try (by specialize (Hx eq_refl)); try (by specialize (Hy eq_refl)); clear Hx Hy L R T B;
    destruct current as [[]|]; simpl; repeat case_match; repeat split; try done;
    try (by intros []); try (by intros _ []); try (by intros z [= <-]);
    try (intros Hz; pose proof (Hz left); pose proof (Hz right); pose proof (Hz top);
         by pose proof (Hz bottom)).
Qed.
