(* ===== verification/TilingStore.v ===== *)
(** * The tiling store ([ui/src/stores/tiling.ts])

    The window manager's state: the tiling tree, the focused pane, the content of
    each pane and an optional overlay.  The main theorem is that tree, contents and
    focus stay in step: in every reachable state every leaf of the tree has a content,
    the focused pane is a leaf, and there are at most eight.  Content without a leaf is
    left behind only by a view that writes into a pane that was closed meanwhile.
    [simpleMode] comes from the auth store and is an argument; the fresh pane id that the
    nanoid package draws is an argument too. *)

From S2P Require Export JsObject TilingTree DropZone.

Inductive FriendsTab := TabAll | TabPending | TabAdd.

Inductive PaneContent :=
  | ChannelPane (channelId : string)
  | DmPane (conversationId : string)
  | VoicePane (channelId : string)
  | ScreenSharePane (channelId participantIdentity : string) (participantName : option string)
  | SettingsPane (section : option string)
  | ProfilePane (userId : string) (editing : option bool)
  | SearchPane (query channelId : option string)
  | ServerSettingsPane (serverId : string)
  | ChannelSettingsPane (serverId channelId : string)
  | CategorySettingsPane (serverId channelGroupId : string)
  | ServerOnboardingPane (serverId : string)
  | GetStartedPane
  | CreateServerPane
  | MessageRequestsPane
  | FriendsPane (tab : option FriendsTab)
  | DmsHomePane
  | EmptyPane.

Definition MAX_PANES : nat := 8.
Definition INITIAL_PANE_ID : string := "initial".

Record TilingState := {
  root : TilingNode;
  focusedPaneId : string;
  panes : jsobj PaneContent;
  overlayContent : option PaneContent;
}.

Definition initialState : TilingState :=
  {| root := Pane INITIAL_PANE_ID; focusedPaneId := INITIAL_PANE_ID;
     panes := [(INITIAL_PANE_ID, EmptyPane)]; overlayContent := None |}.

Definition set_focus (id : string) (s : TilingState) : TilingState :=
  {| root := root s; focusedPaneId := id; panes := panes s;
     overlayContent := overlayContent s |}.
Definition set_root (r : TilingNode) (s : TilingState) : TilingState :=
  {| root := r; focusedPaneId := focusedPaneId s; panes := panes s;
     overlayContent := overlayContent s |}.
Definition set_panes (p : jsobj PaneContent) (s : TilingState) : TilingState :=
  {| root := root s; focusedPaneId := focusedPaneId s; panes := p;
     overlayContent := overlayContent s |}.
Definition set_overlay (o : option PaneContent) (s : TilingState) : TilingState :=
  {| root := root s; focusedPaneId := focusedPaneId s; panes := panes s;
     overlayContent := o |}.

(** ** Actions *)

Definition focusPane (id : string) : TilingState → TilingState := set_focus id.

Definition splitFocused (simpleMode : bool) (newId : string) (direction : SplitDirection)
    (content : option PaneContent) (before : bool) (s : TilingState) : TilingState :=
  if simpleMode then
    match content with
    | Some c => set_panes (obj_set (focusedPaneId s) c (panes s)) s
    | None => s
    end
  else if decide (MAX_PANES ≤ paneCount (root s)) then s
  else
    set_focus newId
      (set_panes (obj_set newId (or_default EmptyPane content) (panes s))
        (set_root (splitPane (root s) (focusedPaneId s) direction newId before) s)).

Definition closePane (id : string) (s : TilingState) : TilingState :=
  if decide (length (allPaneIds (root s)) ≤ 1) then
    set_panes (obj_set id EmptyPane (panes s)) s
  else
    match removePane (root s) id with
    | None => s
    | Some newRoot =>
        let s' := set_root newRoot (set_panes (obj_delete id (panes s)) s) in
        if decide (focusedPaneId s = id) then
          set_focus (or_default (focusedPaneId s) (head (allPaneIds newRoot))) s'
        else s'
    end.

Definition closeFocused (s : TilingState) : TilingState := closePane (focusedPaneId s) s.

(** The loop body of the source repeats [closePane], [continue] for [return]. *)
Definition closePanesMatching (predicate : PaneContent → bool) (s : TilingState)
    : TilingState :=
  let toClose := (filter (λ kv, predicate kv.2 = true) (obj_entries (panes s))).*1 in
  foldl (λ s id, closePane id s) s toClose.

Definition updateRatio (path : TreePath) (ratio : number) (s : TilingState) : TilingState :=
  set_root (TilingTree.updateRatio (root s) path ratio) s.

Definition setPaneContent (id : string) (content : PaneContent) (s : TilingState)
    : TilingState :=
  set_overlay None (set_panes (obj_set id content (panes s)) s).

Definition resetLayout (newId : string) (s : TilingState) : TilingState :=
  let focusedContent := or_default EmptyPane (obj_get (focusedPaneId s) (panes s)) in
  set_focus newId (set_panes [(newId, focusedContent)] (set_root (Pane newId) s)).

Inductive MoveDirection := MoveLeft | MoveRight | MoveUp | MoveDown.

Definition rect_center (r : DOMRect) : number * number :=
  (Num.add (rect_left r) (Num.div (rect_width r) Num.two),
   Num.add (rect_top r) (Num.div (rect_height r) Num.two)).

(** [rects.set(id, ..)] for the elements that carry a nonempty pane id. *)
Definition collect_rects (elements : list (option string * DOMRect)) : jsobj DOMRect :=
  foldl (λ rects '(id, rect),
    if truthy id then obj_set (or_default "" id) rect rects else rects) [] elements.

Definition lies_towards (direction : MoveDirection) (focused c : number * number) : bool :=
  match direction with
  | MoveLeft => Num.lt c.1 focused.1
  | MoveRight => Num.lt focused.1 c.1
  | MoveUp => Num.lt c.2 focused.2
  | MoveDown => Num.lt focused.2 c.2
  end.

Definition center_distance (a b : number * number) : number :=
  let dx := Num.sub b.1 a.1 in
  let dy := Num.sub b.2 a.2 in
  Num.sqrt (Num.add (Num.mul dx dx) (Num.mul dy dy)).

Definition nearest_step (direction : MoveDirection) (focusedId : string)
    (focused : number * number) (best : option string * number) (kv : string * DOMRect)
    : option string * number :=
  let c := rect_center kv.2 in
  if decide (kv.1 = focusedId) then best
  else if lies_towards direction focused c then
    let distance := center_distance focused c in
    if Num.lt distance best.2 then (Some kv.1, distance) else best
  else best.

Definition moveFocus (direction : MoveDirection) (elements : list (option string * DOMRect))
    (s : TilingState) : TilingState :=
  let rects := collect_rects elements in
  match obj_get (focusedPaneId s) rects with
  | None => s
  | Some focusedRect =>
      let best := foldl (nearest_step direction (focusedPaneId s) (rect_center focusedRect))
        (None, Num.infinity) rects in
      if truthy best.1 then set_focus (or_default "" best.1) s else s
  end.

Definition cycleFocus (s : TilingState) : TilingState :=
  let ids := allPaneIds (root s) in
  let nextIndex :=
    match index_key id (focusedPaneId s) ids with
    | Some currentIndex => (currentIndex + 1) mod length ids
    | None => 0 mod length ids
    end in
  set_focus (or_default (focusedPaneId s) (ids !! nextIndex)) s.

Definition setOverlay (content : PaneContent) : TilingState → TilingState :=
  set_overlay (Some content).
Definition closeOverlay : TilingState → TilingState := set_overlay None.

Definition swapPanes (sourceId targetId : string) (s : TilingState) : TilingState :=
  match obj_get sourceId (panes s), obj_get targetId (panes s) with
  | Some sourceContent, Some targetContent =>
      set_focus targetId
        (set_panes (obj_set targetId sourceContent (obj_set sourceId targetContent (panes s))) s)
  | _, _ => s
  end.

Definition movePane (sourceId targetId : string) (position : DropPosition) (s : TilingState)
    : TilingState :=
  match TilingTree.movePane (root s) sourceId targetId position with
  | None => s
  | Some newRoot => set_focus sourceId (set_root newRoot s)
  end.

Definition splitAtPane (simpleMode : bool) (newId targetId : string) (content : PaneContent)
    (position : DropPosition) (s : TilingState) : TilingState :=
  if simpleMode then set_panes (obj_set targetId content (panes s)) s
  else if decide (MAX_PANES ≤ paneCount (root s)) then
    set_focus targetId (set_panes (obj_set targetId content (panes s)) s)
  else
    set_focus newId
      (set_panes (obj_set newId content (panes s))
        (set_root (splitPane (root s) targetId (drop_direction position) newId
                     (drop_before position)) s)).

(** ** Functions on the store *)

Definition openProfilePane (userId : string) (editing : option bool) :=
  setOverlay (ProfilePane userId editing).
Definition openChannelSettingsPane (serverId channelId : string) :=
  setOverlay (ChannelSettingsPane serverId channelId).
Definition openCategorySettingsPane (serverId channelGroupId : string) :=
  setOverlay (CategorySettingsPane serverId channelGroupId).

Definition shows_channel (channelId : string) (content : PaneContent) : bool :=
  match content with
  | ChannelPane c | ChannelSettingsPane _ c | VoicePane c | ScreenSharePane c _ _ =>
      bool_decide (c = channelId)
  | _ => false
  end.
Definition closeChannelPanes (channelId : string) : TilingState → TilingState :=
  closePanesMatching (shows_channel channelId).

Definition shows_category (channelGroupId : string) (content : PaneContent) : bool :=
  match content with
  | CategorySettingsPane _ g => bool_decide (g = channelGroupId)
  | _ => false
  end.
Definition closeCategoryPanes (channelGroupId : string) (s : TilingState) : TilingState :=
  let s := match overlayContent s with
    | Some overlay => if shows_category channelGroupId overlay then closeOverlay s else s
    | None => s
    end in
  closePanesMatching (shows_category channelGroupId) s.

Definition is_search (content : PaneContent) : bool :=
  match content with SearchPane _ _ => true | _ => false end.

Definition openSearchPane (query : option string) (s : TilingState) : TilingState :=
  let channelId :=
    match obj_get (focusedPaneId s) (panes s) with
    | Some (ChannelPane c) => Some c
    | Some (DmPane c) => Some c
    | _ => None
    end in
  match list_find (λ kv, is_search kv.2 = true) (obj_entries (panes s)) with
  | Some (_, (paneId, _)) =>
      let s := focusPane paneId s in
      match query with
      | Some _ => setPaneContent paneId (SearchPane query channelId) s
      | None => s
      end
  | None => setPaneContent (focusedPaneId s) (SearchPane query channelId) s
  end.

(** ** The store *)

Inductive action :=
  | FocusPane (id : string)
  | SplitFocused (simple : bool) (newId : string) (d : SplitDirection)
      (c : option PaneContent) (before : bool)
  | ClosePane (id : string)
  | CloseFocused
  | ClosePanesMatching (p : PaneContent → bool)
  | UpdateRatio (path : TreePath) (ratio : number)
  | SetPaneContent (id : string) (c : PaneContent)
  | ResetLayout (newId : string)
  | MoveFocus (d : MoveDirection) (elements : list (option string * DOMRect))
  | CycleFocus
  | SetOverlay (c : PaneContent)
  | CloseOverlay
  | SwapPanes (source target : string)
  | MovePane (source target : string) (position : DropPosition)
  | SplitAtPane (simple : bool) (newId target : string) (c : PaneContent)
      (position : DropPosition)
  | OpenSearchPane (query : option string).

Definition perform (a : action) : TilingState → TilingState :=
  match a with
  | FocusPane id => focusPane id
  | SplitFocused b n d c before => splitFocused b n d c before
  | ClosePane id => closePane id
  | CloseFocused => closeFocused
  | ClosePanesMatching p => closePanesMatching p
  | UpdateRatio path r => updateRatio path r
  | SetPaneContent id c => setPaneContent id c
  | ResetLayout n => resetLayout n
  | MoveFocus d els => moveFocus d els
  | CycleFocus => cycleFocus
  | SetOverlay c => setOverlay c
  | CloseOverlay => closeOverlay
  | SwapPanes a b => swapPanes a b
  | MovePane a b p => movePane a b p
  | SplitAtPane b n t c p => splitAtPane b n t c p
  | OpenSearchPane q => openSearchPane q
  end.

(** Views write into a pane when a request is answered: [GetStartedView.tsx],
    [DMsHomePane.tsx] and [MessageRequestsPane.tsx] remember the pane and do not look
    whether it is still there.  Only [openSearchPane] shows a search, and at once. *)
Definition late_content (c : PaneContent) : bool := negb (is_search c).

(** The callers name panes that are on screen, except when they have waited for a request;
    nanoid ids are new, ratios are numbers, and a pane is not dropped on itself
    ([Shell.tsx] checks this). *)
Definition args_ok (a : action) (s : TilingState) : Prop :=
  match a with
  | FocusPane id | ClosePane id => id ∈ allPaneIds (root s)
  | SetPaneContent id c => id ∈ allPaneIds (root s) ∨ late_content c = true
  | SwapPanes a b => a ∈ allPaneIds (root s) ∧ b ∈ allPaneIds (root s)
  | SplitFocused _ n _ _ _ => n ∉ allPaneIds (root s)
  | UpdateRatio _ r => Num.is_nan r = false
  | MoveFocus _ els => ∀ id r, (Some id, r) ∈ els → id ≠ "" → id ∈ allPaneIds (root s)
  | MovePane a b _ => a ≠ b ∧ a ∈ allPaneIds (root s) ∧ b ∈ allPaneIds (root s)
  | SplitAtPane _ n t _ _ => n ∉ allPaneIds (root s) ∧ t ∈ allPaneIds (root s)
  | _ => True
  end.

#[export] Instance tiling_store : Store TilingState action :=
  {| initial := initialState; exec := perform; admissible := args_ok |}.

(** ** Tree, contents and focus stay in step *)

Section steps.
(** What may be kept for a pane that is not in the tree: nothing, or what came late *)
Context (stray : PaneContent → Prop).
Context (stray_empty : ∀ c, stray c → stray EmptyPane).
Context (stray_search : ∀ c, stray c → is_search c = false).

Record well_formed (s : TilingState) : Prop := {
  wf_ids : NoDup (allPaneIds (root s));
  wf_panes : ∀ id, id ∈ allPaneIds (root s) → is_Some (obj_get id (panes s));
  wf_strays : ∀ id c, obj_get id (panes s) = Some c → id ∈ allPaneIds (root s) ∨ stray c;
  wf_keys : obj_keys_ok (panes s);
  wf_focus : focusedPaneId s ∈ allPaneIds (root s);
  wf_count : paneCount (root s) ≤ MAX_PANES;
  wf_ratios : ratios_ok (root s) = true;
}.

Lemma wf_single id c o :
  well_formed {| root := Pane id; focusedPaneId := id; panes := [(id, c)]; overlayContent := o |}.
Proof.
  split; simpl; try done.
  - apply NoDup_singleton.
  - intros i ->%list_elem_of_singleton. unfold obj_get. rewrite find_key_cons. simpl.
    by rewrite decide_True.
  - intros i c'. unfold obj_get. rewrite find_key_cons. simpl.
    case_decide as E; [intros _; left; by apply list_elem_of_singleton|done].
  - apply NoDup_singleton.
  - by apply list_elem_of_singleton.
  - unfold MAX_PANES. lia.
Qed.
Lemma wf_initial : well_formed initialState.
Proof. apply wf_single. Qed.

Lemma wf_set_content id c s :
  id ∈ allPaneIds (root s) ∨ stray c → well_formed s →
  well_formed (set_panes (obj_set id c (panes s)) s).
Proof.
  intros Hid []. split; simpl; auto with meza.
  - intros id' Hid'. rewrite obj_get_set. case_decide; [done|auto].
  - intros id' c'. rewrite obj_get_set. case_decide as E; [|auto].
    intros [= <-]. by rewrite E.
Qed.
Lemma wf_set_focus id s :
  id ∈ allPaneIds (root s) → well_formed s → well_formed (set_focus id s).
Proof. intros Hid []. by split. Qed.
Lemma wf_set_overlay o s : well_formed s → well_formed (set_overlay o s).
Proof. intros []. by split. Qed.

Lemma splitPane_ratios r t d n b : ratios_ok r = true → ratios_ok (splitPane r t d n b) = true.
Proof.
  induction r as [i|d' x a IHa c IHc]; simpl.
  - intros _. case_decide; by destruct b.
  - intros H. repeat (apply andb_true_iff in H as [H ?]). by rewrite H, H2, IHa, IHc.
Qed.
Lemma removePane_ratios r t r' :
  removePane r t = Some r' → ratios_ok r = true → ratios_ok r' = true.
Proof.
  revert r'. induction r as [i|d x a IHa c IHc]; intros r'; simpl; [case_decide; naive_solver|].
  intros E H. repeat (apply andb_true_iff in H as [H ?]).
  destruct (removePane a t), (removePane c t); simplify_eq; eauto.
  simpl. by rewrite H, H2, IHa, IHc.
Qed.

Lemma wf_split t n d b c s :
  t ∈ allPaneIds (root s) → n ∉ allPaneIds (root s) → paneCount (root s) < MAX_PANES →
  well_formed s →
  well_formed (set_focus n (set_panes (obj_set n c (panes s))
    (set_root (splitPane (root s) t d n b) s))).
Proof.
  intros Ht Hn Hc []. pose proof (splitPane_perm (root s) t d n b wf_ids0 Ht) as Hperm.
  split; simpl; auto with meza.
  - rewrite Hperm. by apply NoDup_cons.
  - intros id. rewrite Hperm, elem_of_cons, obj_get_set. case_decide; [done|].
    intros [ -> |Hid]; [done|auto].
  - intros id c'. rewrite Hperm, elem_of_cons, obj_get_set. case_decide as E; [auto|].
    intros [Hid|Hs]%wf_strays0; auto.
  - rewrite Hperm. by left.
  - rewrite paneCount_length in *. rewrite Hperm. simpl. lia.
  - by apply splitPane_ratios.
Qed.

Lemma wf_close id s :
  id ∈ allPaneIds (root s) ∨ stray EmptyPane → well_formed s → well_formed (closePane id s).
Proof.
  intros Hid Hs. unfold closePane. case_decide; [by apply wf_set_content|].
  destruct (removePane (root s) id) as [r|] eqn:E; [|done].
  pose proof (removePane_Some _ _ _ E) as Hr. destruct Hs.
  assert (Hwf : ∀ f, f ∈ allPaneIds r → well_formed
    (set_focus f (set_root r (set_panes (obj_delete id (panes s)) s)))).
  { intros f Hf. split; simpl; auto with meza.
    - rewrite Hr. by apply NoDup_filter.
    - intros i. rewrite obj_get_delete, Hr, list_elem_of_filter. intros [Hne Hi].
      rewrite decide_False by congruence. auto.
    - intros i c. rewrite obj_get_delete, Hr, list_elem_of_filter.
      case_decide as Ei; [done|]. intros [Hi|Hi]%wf_strays0; [left|by right].
      split; [congruence|done].
    - rewrite paneCount_length in *. rewrite Hr.
      pose proof (length_filter (.≠ id) (allPaneIds (root s))). lia.
    - by eapply removePane_ratios. }
  case_decide as Hf.
  - destruct (allPaneIds r) as [|i l] eqn:El; [by apply allPaneIds_nonempty in El|].
    apply Hwf. by left.
  - apply (Hwf (focusedPaneId s)). rewrite Hr, list_elem_of_filter. naive_solver.
Qed.

(** Closing a list of panes that are on screen. *)
Lemma closePane_keeps id id' s :
  id' ≠ id → id' ∈ allPaneIds (root s) → id' ∈ allPaneIds (root (closePane id s)).
Proof.
  intros Hne Hin. unfold closePane. case_decide; [done|].
  destruct (removePane (root s) id) as [r|] eqn:E; [|done].
  apply removePane_Some in E. case_decide; simpl; rewrite E; by apply list_elem_of_filter.
Qed.

Lemma wf_close_all l s :
  NoDup l → (∀ id, id ∈ l → id ∈ allPaneIds (root s) ∨ stray EmptyPane) → well_formed s →
  well_formed (foldl (λ s id, closePane id s) s l).
Proof.
  revert s. induction l as [|id l IH]; intros s Hnd Hl Hs; [done|].
  apply NoDup_cons in Hnd as [Hid Hnd]. simpl. apply IH; [done| |].
  - intros i Hi. destruct (Hl i ltac:(by right)) as [Hin|]; [left|by right].
    apply closePane_keeps; [set_solver|done].
  - apply wf_close; [|done]. apply Hl. by left.
Qed.

Lemma toClose_ok p s :
  well_formed s →
  NoDup (filter (λ kv, p kv.2 = true) (obj_entries (panes s))).*1 ∧
  ∀ id, id ∈ (filter (λ kv, p kv.2 = true) (obj_entries (panes s))).*1 ↔
    ∃ c, obj_get id (panes s) = Some c ∧ p c = true.
Proof.
  intros []. split.
  - apply NoDup_filter_keys. by rewrite obj_entries_perm.
  - intros id. rewrite list_elem_of_fmap. setoid_rewrite list_elem_of_filter. split.
    + intros ([i c] & -> & Hp & Hin). exists c. split; [|done]. by apply obj_entries_get.
    + intros (c & Hc & Hp). exists (id, c). split; [done|]. split; [done|].
      by apply obj_entries_get.
Qed.

Lemma wf_closePanesMatching p s : well_formed s → well_formed (closePanesMatching p s).
Proof.
  intros Hs. destruct (toClose_ok p s Hs) as [Hnd Hin]. apply wf_close_all; [done| |done].
  intros id (c & Hc & _)%Hin. destruct (wf_strays _ Hs _ _ Hc); [by left|]. right. eauto.
Qed.

(** *** Directional focus *)

Lemma collect_rects_ids els id r :
  (id, r) ∈ collect_rects els → id ≠ "" ∧ ∃ r', (Some id, r') ∈ els.
Proof.
  unfold collect_rects.
  assert (Hgen : ∀ o, (id, r) ∈ foldl (λ rects '(i, rect),
      if truthy i then obj_set (or_default "" i) rect rects else rects) o els →
    id ∈ o.*1 ∨ id ≠ "" ∧ ∃ r', (Some id, r') ∈ els).
  { induction els as [|[i rect] els IH]; intros o; cbn [foldl].
    - intros Hin. left. apply list_elem_of_fmap. by exists (id, r).
    - intros [Hin|(Hne & r' & Hr')]%IH.
      2:{ right. split; [done|]. exists r'. by right. }
      destruct (truthy i) eqn:Ht; [|by left].
      destruct i as [i|]; [|done]. simpl in *.
      assert (i ≠ "") by (case_bool_decide; naive_solver).
      apply obj_get_Some_key in Hin. rewrite obj_get_set in Hin. case_decide as Hi.
      + right. subst i. split; [done|]. exists rect. by left.
      + left. by apply obj_get_Some_key. }
  intros [Hin|]%Hgen; [by apply elem_of_nil in Hin|done].
Qed.

(** The loop of [moveFocus] keeps the best candidate of the prefix it has seen. *)
Lemma nearest_spec dir fid f rects b d :
  foldl (nearest_step dir fid f) (None, Num.infinity) rects = (b, d) →
  (∀ id r, (id, r) ∈ rects → id ≠ fid → lies_towards dir f (rect_center r) = true →
     Num.lt (center_distance f (rect_center r)) d = false) ∧
  match b with
  | None => d = Num.infinity
  | Some id => ∃ r, (id, r) ∈ rects ∧ id ≠ fid ∧
      lies_towards dir f (rect_center r) = true ∧ d = center_distance f (rect_center r)
  end.
Proof.
  revert b d. induction rects as [|[i r] rects IH] using rev_ind; intros b d.
  { intros [= <- <-]. split; [|done]. intros ?? Hin. by apply elem_of_nil in Hin. }
  rewrite foldl_snoc. destruct (foldl _ _ rects) as [b0 d0]. destruct (IH b0 d0 eq_refl) as [Hmin Hb].
  set (dist := center_distance f (rect_center r)).
  assert (Hkeep : (i ≠ fid → lies_towards dir f (rect_center r) = true →
      Num.lt dist d0 = false) → (b, d) = (b0, d0) →
    (∀ id r', (id, r') ∈ rects ++ [(i, r)] → id ≠ fid →
       lies_towards dir f (rect_center r') = true →
       Num.lt (center_distance f (rect_center r')) d = false) ∧
    match b with
    | None => d = Num.infinity
    | Some id => ∃ r', (id, r') ∈ rects ++ [(i, r)] ∧ id ≠ fid ∧
        lies_towards dir f (rect_center r') = true ∧ d = center_distance f (rect_center r')
    end).
  { intros Hnew [= -> ->]. split.
    - intros id r' [Hin|[= -> ->]%list_elem_of_singleton]%elem_of_app; eauto.
    - destruct b0 as [id|]; [|done]. destruct Hb as (r' & Hin & Hrest).
      exists r'. split; [|done]. apply elem_of_app. by left. }
  unfold nearest_step. cbn [fst snd]. case_decide as Hi.
  { intros E. apply Hkeep; [done|congruence]. }
  destruct (lies_towards dir f (rect_center r)) eqn:Ht; [|intros E; apply Hkeep; congruence].
  fold dist. destruct (Num.lt dist d0) eqn:Hlt; [|intros E; apply Hkeep; [done|congruence]].
  intros [= <- <-]. split.
  - intros id r' [Hin|[= -> ->]%list_elem_of_singleton]%elem_of_app Hne Hto.
    + apply not_true_iff_false. intros Hq.
      pose proof (Num.lt_trans _ _ _ Hq Hlt). rewrite (Hmin id r') in H; done.
    + apply Num.lt_irrefl.
  - exists r. split; [apply elem_of_app; right; by apply list_elem_of_singleton|done].
Qed.

Lemma wf_moveFocus d els s :
  (∀ id r, (Some id, r) ∈ els → id ≠ "" → id ∈ allPaneIds (root s)) →
  well_formed s → well_formed (moveFocus d els s).
Proof.
  intros Hels Hs. unfold moveFocus.
  destruct (obj_get (focusedPaneId s) (collect_rects els)) as [fr|]; [|done].
  destruct (foldl _ _ _) as [b dist] eqn:E. apply nearest_spec in E as [_ Hb]. simpl.
  destruct b as [id|]; [|done]. destruct Hb as (r & Hin & _).
  apply collect_rects_ids in Hin as (Hne & r' & Hr'). case_match; [|done].
  apply wf_set_focus; [|done]. by eapply Hels.
Qed.

Lemma movePane_facts r s t pos r' :
  NoDup (allPaneIds r) → s ≠ t → s ∈ allPaneIds r → t ∈ allPaneIds r →
  TilingTree.movePane r s t pos = Some r' →
  allPaneIds r' ≡ₚ allPaneIds r ∧ (ratios_ok r = true → ratios_ok r' = true).
Proof.
  intros Hnd Hne Hs Ht. unfold TilingTree.movePane.
  destruct (removePane r s) as [r1|] eqn:E; [|done]. intros [= <-]. split.
  - apply removePane_Some in E as E'. rewrite splitPane_perm.
    + rewrite E'. by apply remove_readd.
    + rewrite E'. by apply NoDup_filter.
    + rewrite E', list_elem_of_filter. naive_solver.
  - intros Hr. apply splitPane_ratios. by eapply removePane_ratios.
Qed.

Lemma wf_movePane a b pos s :
  a ≠ b ∧ a ∈ allPaneIds (root s) ∧ b ∈ allPaneIds (root s) →
  well_formed s → well_formed (movePane a b pos s).
Proof.
  intros (Hne & Ha & Hb) []. unfold movePane.
  destruct (TilingTree.movePane (root s) a b pos) as [r|] eqn:E; [|by split].
  destruct (movePane_facts _ _ _ _ _ wf_ids0 Hne Ha Hb E) as [Hperm Hr].
  split; simpl; auto; rewrite ?paneCount_length in *; rewrite ?Hperm; auto.
  - intros id. rewrite Hperm. auto.
  - intros id c. rewrite Hperm. auto.
Qed.

Lemma wf_openSearchPane q s : well_formed s → well_formed (openSearchPane q s).
Proof.
  intros Hs. unfold openSearchPane, setPaneContent.
  destruct (list_find _ _) as [[i [id c]]|] eqn:E.
  - apply list_find_Some in E as (Hin%list_elem_of_lookup_2 & Hsearch & _).
    apply obj_entries_get in Hin; [|by apply wf_keys].
    assert (Hid : id ∈ allPaneIds (root s)).
    { destruct (wf_strays _ Hs _ _ Hin) as [|Hc%stray_search]; [done|]. simpl in *. congruence. }
    pose proof (wf_set_focus id s Hid Hs). destruct q; [|done].
    apply wf_set_overlay. apply wf_set_content; [by left|done].
  - apply wf_set_overlay, wf_set_content; [|done]. left. by apply wf_focus.
Qed.

Lemma tiling_perform_wf a s :
  args_ok a s → (∀ id c, a = SetPaneContent id c → id ∈ allPaneIds (root s) ∨ stray c) →
  well_formed s → well_formed (perform a s).
Proof.
  intros Hok Hlate Hs. pose proof (wf_focus _ Hs) as Hfocus.
  destruct a as [id|b n d c before|id| |p|path r|id c|n|d els| |c| |a b|a b pos|b n t c pos|q];
    simpl in *.
  - by apply wf_set_focus.
  - unfold splitFocused. destruct b.
    + destruct c; [apply wf_set_content; [by left|done]|done].
    + case_decide; [done|]. apply wf_split; try done. lia.
  - apply wf_close; [by left|done].
  - apply wf_close; [by left|done].
  - by apply wf_closePanesMatching.
  - destruct Hs. split; simpl; rewrite ?paneCount_length, ?updateRatio_ids; try done.
    + by rewrite <-paneCount_length.
    + by apply updateRatio_ok.
  - apply wf_set_overlay. apply wf_set_content; [by apply Hlate|done].
  - apply wf_single.
  - by apply wf_moveFocus.
  - unfold cycleFocus. apply wf_set_focus; [|done].
    destruct (allPaneIds (root s) !! _) eqn:E; simpl; [|done].
    by eapply list_elem_of_lookup_2.
  - by apply wf_set_overlay.
  - by apply wf_set_overlay.
  - destruct Hok as [Ha Hb]. unfold swapPanes. destruct (obj_get a (panes s)) eqn:Ea; [|done].
    destruct (obj_get b (panes s)) eqn:Eb; [|done].
    apply wf_set_focus; [done|].
    apply (wf_set_content b _ (set_panes (obj_set a p0 (panes s)) s)); [by left|].
    apply wf_set_content; [by left|done].
  - by apply wf_movePane.
  - destruct Hok as [Hn Ht]. unfold splitAtPane.
    destruct b; [apply wf_set_content; [by left|done]|].
    case_decide; [|apply wf_split; try done; lia].
    apply wf_set_focus; [done|]. apply wf_set_content; [by left|done].
  - by apply wf_openSearchPane.
Qed.
End steps.

(** Content may be kept for a closed pane if it is one that comes late, or not at all. *)
Definition late (c : PaneContent) : Prop := late_content c = true.
Definition in_step : TilingState → Prop := well_formed late.
Definition exact : TilingState → Prop := well_formed (λ _, False).

Lemma late_empty c : late c → late EmptyPane.
Proof. done. Qed.
Lemma late_not_search c : late c → is_search c = false.
Proof. by intros ?%negb_true_iff. Qed.

Lemma tiling_reachable_wf s : reachable s → in_step s.
Proof.
  apply reachable_invariant; [apply wf_initial|]. intros a s' Hok.
  apply tiling_perform_wf; [exact late_empty|exact late_not_search|done|].
  intros id c ->. exact Hok.
Qed.
(** A write into a closed pane is the only action after which there is content without a
    pane. *)
Lemma exact_perform a s :
  args_ok a s → (∀ id c, a = SetPaneContent id c → id ∈ allPaneIds (root s)) →
  exact s → exact (perform a s).
Proof.
  intros Hok Hset. apply tiling_perform_wf; [done|done|done|]. intros id c E. left. eauto.
Qed.
Lemma exact_panes s id :
  exact s → is_Some (obj_get id (panes s)) ↔ id ∈ allPaneIds (root s).
Proof.
  intros []. split; [|auto]. intros [c Hc]. by destruct (wf_strays0 _ _ Hc).
Qed.

(** ** Properties *)

(** C25: in every state the window manager reaches, whatever views write into panes that
    were closed while they waited, the tree has no duplicate pane, every leaf has a
    content, the focused pane is a leaf, there are at most eight panes, and every split
    ratio is within bounds.  Content that belongs to no leaf is never a search; as long as
    there is none, only a write into a closed pane leaves some behind. *)
Theorem tiling_well_formed (s : TilingState) :
  reachable s →
  NoDup (allPaneIds (root s)) ∧
  (∀ id, id ∈ allPaneIds (root s) → is_Some (obj_get id (panes s))) ∧
  (∀ id c, obj_get id (panes s) = Some c → id ∉ allPaneIds (root s) →
     is_search c = false) ∧
  focusedPaneId s ∈ allPaneIds (root s) ∧
  paneCount (root s) ≤ 8 ∧ ratios_ok (root s) = true ∧
  ((∀ id, is_Some (obj_get id (panes s)) → id ∈ allPaneIds (root s)) →
   ∀ a, args_ok a s → (∀ id c, a = SetPaneContent id c → id ∈ allPaneIds (root s)) →
   ∀ id, is_Some (obj_get id (panes (perform a s))) ↔ id ∈ allPaneIds (root (perform a s))).
Proof.
  intros Hr%tiling_reachable_wf. pose proof Hr as []. split_and!; try done.
  - intros id c Hc Hid. by destruct (wf_strays0 _ _ Hc) as [|Hl%late_not_search].
  - intros Hall a Ha Hset id. apply exact_panes, exact_perform; [done|done|].
    split; try done. intros id' c Hc. left. apply Hall. eauto.
Qed.

(** A request that is answered after its pane was closed leaves its content behind: the
    pane is in no tree, so nothing shows it and nothing can close it. *)
Lemma content_without_pane c s id :
  reachable s → late_content c = true → id ∉ allPaneIds (root s) →
  reachable (setPaneContent id c s) ∧
  obj_get id (panes (setPaneContent id c s)) = Some c ∧
  id ∉ allPaneIds (root (setPaneContent id c s)).
Proof.
  intros Hr Hc Hid. split; [|split; [|done]].
  - exact (reachable_exec (SetPaneContent id c) s (or_intror Hc) Hr).
  - simpl. rewrite obj_get_set. by rewrite decide_True.
Qed.

Lemma closePane_content id id' s :
  id ≠ id' → obj_get id' (panes (closePane id s)) = obj_get id' (panes s).
Proof.
  intros Hne. unfold closePane. case_decide; simpl.
  - rewrite obj_get_set. by case_decide.
  - destruct (removePane (root s) id); [|done].
    case_decide; simpl; rewrite obj_get_delete; by case_decide.
Qed.

(** A closed pane is gone, unless it was the last one: that one is emptied. *)
Lemma closePane_self id s c :
  exact s → id ∈ allPaneIds (root s) →
  obj_get id (panes (closePane id s)) = Some c → c = EmptyPane ∧ allPaneIds (root (closePane id s)) = [id].
Proof.
  intros Hs Hid. unfold closePane. case_decide as Hlen; simpl.
  - rewrite obj_get_set, decide_True by done. intros [= <-]. split; [done|].
    destruct (allPaneIds (root s)) as [|i [|]]; simpl in *; [by apply elem_of_nil in Hid| |lia].
    by apply list_elem_of_singleton in Hid as ->.
  - destruct (removePane (root s) id) as [r|] eqn:E.
    + case_decide; simpl; rewrite obj_get_delete, decide_True by done; done.
    + apply removePane_None in E. destruct Hs.
      pose proof (remove_readd id _ wf_ids0 Hid) as Hp. rewrite E in Hp.
      apply Permutation_length in Hp. simpl in Hp. lia.
Qed.

Lemma closePane_single id i s :
  allPaneIds (root s) = [i] → allPaneIds (root (closePane id s)) = [i].
Proof. intros Hi. unfold closePane. rewrite Hi. by case_decide. Qed.

Lemma close_all_content l s id c :
  NoDup l → (∀ i, i ∈ l → i ∈ allPaneIds (root s)) → exact s →
  obj_get id (panes (foldl (λ s id, closePane id s) s l)) = Some c →
  (id ∉ l ∧ obj_get id (panes s) = Some c) ∨
  (c = EmptyPane ∧ allPaneIds (root (foldl (λ s id, closePane id s) s l)) = [id]).
Proof.
  revert s. induction l as [|i l IH]; intros s Hnd Hl Hs Hc; [left; set_solver|].
  apply NoDup_cons in Hnd as [Hi Hnd]. simpl in *.
  assert (Hin : i ∈ allPaneIds (root s)) by (apply Hl; by left).
  destruct (IH (closePane i s)) as [[Hnin Hget]|]; try done.
  - intros j Hj. apply closePane_keeps; [set_solver|]. apply Hl. by right.
  - apply wf_close; [by left|done].
  - destruct (decide (id = i)) as [->|Hne]; [|left].
    + right. destruct (closePane_self i s c Hs Hin Hget) as [-> Hone]. split; [done|].
      clear -Hone. revert Hone. generalize (closePane i s). induction l as [|j l IH]; [done|].
      intros s' Hs'. simpl. apply IH. by apply closePane_single.
    + split; [set_solver|]. by rewrite closePane_content in Hget.
  - by right.
Qed.

Lemma close_all_untouched l s id :
  id ∉ l → obj_get id (panes (foldl (λ s id, closePane id s) s l)) = obj_get id (panes s).
Proof.
  revert s. induction l as [|i l IH]; intros s Hid; [done|]. simpl.
  rewrite IH by set_solver. apply closePane_content. set_solver.
Qed.

(** closing all panes whose content matches (a deleted channel's panes, a deleted
    category's settings) keeps every other pane with its content; a pane that is
    left with matching content can only be the last pane, which is emptied. *)
Theorem closePanesMatching_correct p s :
  exact s →
  (∀ id c, obj_get id (panes s) = Some c → p c = false →
     obj_get id (panes (closePanesMatching p s)) = Some c) ∧
  (∀ id c, obj_get id (panes (closePanesMatching p s)) = Some c →
     (p c = false ∧ obj_get id (panes s) = Some c) ∨
     (c = EmptyPane ∧ allPaneIds (root (closePanesMatching p s)) = [id])).
Proof.
  intros Hs. destruct (toClose_ok _ p s Hs) as [Hnd Hin]. split.
  - intros id c Hc Hp. etrans; [apply close_all_untouched|done].
    rewrite Hin. intros (c' & Hc' & Hp'). congruence.
  - intros id c Hc. apply close_all_content in Hc as [[Hn Hget]|]; try done.
    + left. split; [|done]. destruct (p c) eqn:Hp; [|done]. exfalso. apply Hn, Hin. eauto.
    + by right.
    + intros i (c' & Hc' & _)%Hin. apply (exact_panes s i Hs). by rewrite Hc'.
Qed.

(** [moveFocus] moves the focus to a pane on screen that lies strictly in the
    requested direction, and no pane in that direction is strictly nearer; when no
    pane qualifies the state does not change. *)
Theorem moveFocus_nearest dir els s fr :
  obj_get (focusedPaneId s) (collect_rects els) = Some fr →
  moveFocus dir els s = s ∨
  ∃ id r, moveFocus dir els s = set_focus id s ∧
    (id, r) ∈ collect_rects els ∧ id ≠ focusedPaneId s ∧
    lies_towards dir (rect_center fr) (rect_center r) = true ∧
    ∀ id' r', (id', r') ∈ collect_rects els → id' ≠ focusedPaneId s →
      lies_towards dir (rect_center fr) (rect_center r') = true →
      Num.lt (center_distance (rect_center fr) (rect_center r'))
             (center_distance (rect_center fr) (rect_center r)) = false.
Proof.
  intros Hf. unfold moveFocus. rewrite Hf.
  destruct (foldl _ _ _) as [b d] eqn:E. apply nearest_spec in E as [Hmin Hb]. simpl.
  destruct b as [id|]; [|by left]. destruct Hb as (r & Hin & Hne & Hto & ->).
  case_match; [|by left]. right. exists id, r. done.
Qed.

(** with eight panes open, splitting the focused pane changes nothing, and a drop
    at an edge replaces the content of the target instead of splitting it. *)
Theorem pane_limit n d c before t content pos s :
  paneCount (root s) = 8 →
  splitFocused false n d c before s = s ∧
  root (splitAtPane false n t content pos s) = root s ∧
  obj_get t (panes (splitAtPane false n t content pos s)) = Some content.
Proof.
  intros H8. unfold splitFocused, splitAtPane, MAX_PANES. rewrite H8. simpl.
  split; [done|]. split; [done|]. by rewrite obj_get_set, decide_True.
Qed.

(** cycling the focus visits the panes in tree order and wraps around. *)
Theorem cycleFocus_next s i :
  NoDup (allPaneIds (root s)) → allPaneIds (root s) !! i = Some (focusedPaneId s) →
  allPaneIds (root s) !! ((i + 1) mod length (allPaneIds (root s))) =
    Some (focusedPaneId (cycleFocus s)).
Proof.
  intros Hnd Hi. set (l := allPaneIds (root s)) in *.
  assert (Hidx : index_key id (focusedPaneId s) l = Some i).
  { unfold index_key. rewrite fmap_Some. exists (i, focusedPaneId s). split; [|done].
    apply list_find_Some. split; [done|]. split; [done|]. intros j y Hj Hlt Hy.
    unfold id in Hy. rewrite Hy in Hj. pose proof (NoDup_lookup l i j _ Hnd Hi Hj). lia. }
  assert (Hlen : length l ≠ 0) by (destruct l; simpl in *; naive_solver).
  pose proof (Nat.mod_upper_bound (i + 1) (length l) Hlen) as Hlt.
  unfold cycleFocus. fold l. rewrite Hidx. simpl.
  destruct (l !! ((i + 1) mod length l)) as [x|] eqn:E; [done|].
  apply lookup_ge_None in E. lia.
Qed.

(** ** Concrete runs *)

Definition demo_state : TilingState :=
  run [SplitFocused false "p1" horizontal (Some (ChannelPane "c1")) false;
       SplitAtPane false "p2" "initial" (VoicePane "c1") top;
       SplitAtPane false "p3" "p1" (DmPane "d1") left] initial.

Lemma tiling_demo_reachable : reachable demo_state.
Proof.
  apply reachable_run. simpl.
  repeat split; try (apply (bool_decide_unpack _); reflexivity).
Qed.

Lemma tiling_well_formed_witness : focusedPaneId demo_state ∈ ["p2"; "initial"; "p3"; "p1"].
Proof. apply (tiling_well_formed demo_state tiling_demo_reachable). Defined.

Lemma demo_exact : exact demo_state.
Proof.
  split; try (apply (bool_decide_unpack _); reflexivity).
  - intros id Hid. repeat (apply elem_of_cons in Hid as [ -> |Hid]; [eexists; reflexivity|]).
    by apply elem_of_nil in Hid.
  - intros id c Hc. left. assert (Hin : id ∈ (panes demo_state).*1).
    { apply obj_get_Some_key. by rewrite Hc. }
    revert Hin. vm_compute allPaneIds. vm_compute panes. set_solver.
Qed.

Lemma closePanesMatching_correct_witness :
  obj_get "p3" (panes (closeChannelPanes "c1" demo_state)) = Some (DmPane "d1").
Proof.
  apply (closePanesMatching_correct (shows_channel "c1") demo_state demo_exact); reflexivity.
Defined.

(** Two panes side by side, as the browser lays them out. *)
Definition demo_rect (x : Z) : DOMRect :=
  {| rect_left := Num.of_Z x; rect_top := Num.zero; rect_width := Num.n100;
     rect_height := Num.n100 |}.

Lemma moveFocus_nearest_witness :
  moveFocus MoveLeft [(Some "p1", demo_rect 0); (Some "p3", demo_rect 200)] demo_state =
    set_focus "p1" demo_state.
Proof.
  destruct (moveFocus_nearest MoveLeft [(Some "p1", demo_rect 0); (Some "p3", demo_rect 200)]
    demo_state (demo_rect 200) eq_refl) as [H|(id & r & H & Hin & Hne & _)].
  - vm_compute in H. discriminate.
  - rewrite H. vm_compute in Hin, Hne. apply elem_of_cons in Hin as [[= -> _]|Hin]; [reflexivity|].
    apply list_elem_of_singleton in Hin as [= -> _]. by destruct Hne.
Defined.

Definition full_state : TilingState :=
  {| root := Split horizontal Num.n0_5
       (Split horizontal Num.n0_5
         (Split horizontal Num.n0_5 (Pane "a") (Pane "b"))
         (Split horizontal Num.n0_5 (Pane "c") (Pane "d")))
       (Split horizontal Num.n0_5
         (Split horizontal Num.n0_5 (Pane "e") (Pane "f"))
         (Split horizontal Num.n0_5 (Pane "g") (Pane "h")));
     focusedPaneId := "a"; panes := []; overlayContent := None |}.

Lemma pane_limit_witness : splitFocused false "n" vertical None true full_state = full_state.
Proof. apply (pane_limit "n" vertical None true "b" EmptyPane left full_state). reflexivity. Defined.

Lemma cycleFocus_next_witness :
  Some (focusedPaneId (cycleFocus demo_state)) = Some "p1".
Proof.
  symmetry. apply (cycleFocus_next demo_state 2); [|reflexivity].
  apply (wf_ids late), tiling_reachable_wf, tiling_demo_reachable.
Defined.
