(* ===== verification/Emojis.v ===== *)
(** * The emoji store ([store/emojis.ts])

    The custom emojis of each server and of the user, each list sorted by name; the
    emojis that only reactions have shown so far; and which lists still come from the
    cache of the last session.  [localeCompare] is the runtime's collation: the theorems
    need of it only that it is a consistent comparison. *)

From S2P Require Export ServerLists JsObject.

Record EmojiState := {
  byServer : gmap string (list CustomEmoji);
  personal : option (list CustomEmoji);
  byId : gmap string CustomEmoji;
  error : option string;
  cachedServerIds : gset string;
  personalFromCache : bool;
}.

(** What [loadEmojiCache] returns. *)
Record EmojiCache := {
  cached_byServer : gmap string (list CustomEmoji);
  cached_personal : option (list CustomEmoji);
  cached_byId : gmap string CustomEmoji;
}.

Definition emptyState : EmojiState :=
  {| byServer := ∅; personal := None; byId := ∅; error := None;
     cachedServerIds := ∅; personalFromCache := false |}.

(** The initial state spread with [loadFromCache()]: [userId] is the id in the stored
    user, and [cache] the entry of that user. *)
Definition loadFromCache (userId : option string) (cache : string → option EmojiCache)
    : EmojiState :=
  if truthy userId then
    match cache (or_default "" userId) with
    | Some cached =>
        {| byServer := cached_byServer cached; personal := cached_personal cached;
           byId := cached_byId cached; error := None;
           cachedServerIds := dom (cached_byServer cached);
           personalFromCache := bool_decide (is_Some (cached_personal cached)) |}
    | None => emptyState
    end
  else emptyState.

Definition on_byServer f (s : EmojiState) : EmojiState :=
  {| byServer := f (byServer s); personal := personal s; byId := byId s; error := error s;
     cachedServerIds := cachedServerIds s; personalFromCache := personalFromCache s |}.
Definition on_personal f (s : EmojiState) : EmojiState :=
  {| byServer := byServer s; personal := f (personal s); byId := byId s; error := error s;
     cachedServerIds := cachedServerIds s; personalFromCache := personalFromCache s |}.
Definition on_byId f (s : EmojiState) : EmojiState :=
  {| byServer := byServer s; personal := personal s; byId := f (byId s); error := error s;
     cachedServerIds := cachedServerIds s; personalFromCache := personalFromCache s |}.
Definition on_cached f p (s : EmojiState) : EmojiState :=
  {| byServer := byServer s; personal := personal s; byId := byId s; error := error s;
     cachedServerIds := f (cachedServerIds s); personalFromCache := p |}.

Section emojis.
Context (localeCompare : string → string → Z).

Definition by_name (a b : CustomEmoji) : Z := localeCompare (ce_name a) (ce_name b).

Definition setEmojis (serverId : string) (emojis : list CustomEmoji) : EmojiState → EmojiState :=
  on_byServer <[serverId := js_sort by_name emojis]>.

Definition setPersonalEmojis (emojis : list CustomEmoji) : EmojiState → EmojiState :=
  on_personal (λ _, Some (js_sort by_name emojis)).

(** [Object.assign(state.byId, emojis)] *)
Definition setReactionEmojis (emojis : gmap string CustomEmoji) : EmojiState → EmojiState :=
  on_byId (λ m, emojis ∪ m).

Definition add_sorted (emoji : CustomEmoji) (l : list CustomEmoji) : list CustomEmoji :=
  js_sort by_name (l ++ [emoji]).

Definition addEmoji (emoji : CustomEmoji) (s : EmojiState) : EmojiState :=
  if decide (ce_serverId emoji ≠ "") then
    let list := or_default [] (byServer s !! ce_serverId emoji) in
    if has_key ce_id (ce_id emoji) list then s
    else on_byServer <[ce_serverId emoji := add_sorted emoji list]> s
  else
    let list := or_default [] (personal s) in
    if has_key ce_id (ce_id emoji) list then on_personal (λ _, Some list) s
    else on_personal (λ _, Some (add_sorted emoji list)) s.

Definition update_sorted (emoji : CustomEmoji) (l : list CustomEmoji) : list CustomEmoji :=
  match index_key ce_id (ce_id emoji) l with
  | Some idx => js_sort by_name (<[idx := emoji]> l)
  | None => l
  end.

Definition updateEmoji (emoji : CustomEmoji) (s : EmojiState) : EmojiState :=
  if decide (ce_serverId emoji ≠ "") then
    match byServer s !! ce_serverId emoji with
    | None => s
    | Some list => on_byServer <[ce_serverId emoji := update_sorted emoji list]> s
    end
  else
    match personal s with
    | None => s
    | Some list => on_personal (λ _, Some (update_sorted emoji list)) s
    end.

(** The early returns come before [delete state.byId[emojiId]]. *)
Definition removeEmoji (serverId emojiId : string) (s : EmojiState) : EmojiState :=
  if decide (serverId ≠ "") then
    match byServer s !! serverId with
    | None => s
    | Some list =>
        on_byId (delete emojiId)
          (on_byServer <[serverId := splice_key ce_id emojiId list]> s)
    end
  else
    match personal s with
    | None => s
    | Some list =>
        on_byId (delete emojiId) (on_personal (λ _, Some (splice_key ce_id emojiId list)) s)
    end.

Definition removeServerEmojis (serverId : string) : EmojiState → EmojiState :=
  on_byServer (delete serverId).

Definition setError (err : option string) (s : EmojiState) : EmojiState :=
  {| byServer := byServer s; personal := personal s; byId := byId s; error := err;
     cachedServerIds := cachedServerIds s; personalFromCache := personalFromCache s |}.

Definition markServerRefreshed (serverId : string) (s : EmojiState) : EmojiState :=
  on_cached (λ ids, ids ∖ {[serverId]}) (personalFromCache s) s.
Definition markPersonalRefreshed : EmojiState → EmojiState := on_cached id false.

Definition reset (s : EmojiState) : EmojiState := emptyState.

Inductive action :=
  | SetEmojis (serverId : string) (es : list CustomEmoji)
  | SetPersonalEmojis (es : list CustomEmoji)
  | SetReactionEmojis (es : gmap string CustomEmoji)
  | AddEmoji (e : CustomEmoji)
  | UpdateEmoji (e : CustomEmoji)
  | RemoveEmoji (serverId emojiId : string)
  | RemoveServerEmojis (serverId : string)
  | SetError (e : option string)
  | MarkServerRefreshed (serverId : string)
  | MarkPersonalRefreshed
  | Reset.

Definition perform (a : action) : EmojiState → EmojiState :=
  match a with
  | SetEmojis sid es => setEmojis sid es
  | SetPersonalEmojis es => setPersonalEmojis es
  | SetReactionEmojis es => setReactionEmojis es
  | AddEmoji e => addEmoji e
  | UpdateEmoji e => updateEmoji e
  | RemoveEmoji sid eid => removeEmoji sid eid
  | RemoveServerEmojis sid => removeServerEmojis sid
  | SetError e => setError e
  | MarkServerRefreshed sid => markServerRefreshed sid
  | MarkPersonalRefreshed => markPersonalRefreshed
  | Reset => reset
  end.

(** A server has a nonempty id, and lists each of its emojis once. *)
Definition args_ok (a : action) (s : EmojiState) : Prop :=
  match a with
  | SetEmojis sid es => sid ≠ "" ∧ NoDup (ce_id <$> es)
  | SetPersonalEmojis es => NoDup (ce_id <$> es)
  | RemoveServerEmojis sid => sid ≠ ""
  | _ => True
  end.

#[export] Instance emoji_store : Store EmojiState action :=
  {| initial := emptyState; exec := perform; admissible := args_ok |}.

(** ** Specification: one table of owners, the user under the empty id *)

Definition owners (s : EmojiState) : gmap string (list CustomEmoji) :=
  match personal s with Some l => <["" := l]> (byServer s) | None => byServer s end.

Definition spec (a : action) (t : gmap string (gmap string CustomEmoji))
    : gmap string (gmap string CustomEmoji) :=
  match a with
  | SetEmojis sid es => spec_set ce_id sid es t
  | SetPersonalEmojis es => spec_set ce_id "" es t
  | AddEmoji e => spec_add ce_id (ce_serverId e) e t
  | UpdateEmoji e => spec_update ce_id (ce_serverId e) e t
  | RemoveEmoji sid eid => spec_remove sid eid t
  | RemoveServerEmojis sid => delete sid t
  | Reset => ∅
  | _ => t
  end.

Context `{!Comparator localeCompare}.

#[local] Instance by_name_comparator : Comparator by_name.
Proof.
  split; unfold by_name; [intros x y; apply cmp_flip|intros x y z; apply cmp_trans].
Qed.

Record emojis_ok (s : EmojiState) : Prop := {
  ok_named : byServer s !! "" = None;
  ok_lists : lists_ok ce_id by_name (owners s);
}.

Lemma owners_personal s : byServer s !! "" = None → owners s !! "" = personal s.
Proof. intros Hn. unfold owners. destruct (personal s); by simplify_map_eq. Qed.
Lemma owners_server s sid : sid ≠ "" → owners s !! sid = byServer s !! sid.
Proof. intros Hn. unfold owners. destruct (personal s); by simplify_map_eq. Qed.
Lemma owners_on_byServer sid l s :
  sid ≠ "" → owners (on_byServer <[sid := l]> s) = <[sid := l]> (owners s).
Proof.
  intros Hn. unfold owners. simpl. destruct (personal s); [|done].
  by rewrite insert_insert_ne.
Qed.
Lemma owners_delete sid s :
  sid ≠ "" → owners (on_byServer (delete sid) s) = delete sid (owners s).
Proof.
  intros Hn. unfold owners. simpl. destruct (personal s); [|done].
  by rewrite delete_insert_ne.
Qed.
Lemma owners_on_personal l s :
  owners (on_personal (λ _, Some l) s) = <["" := l]> (owners s).
Proof. unfold owners. simpl. destruct (personal s); [by rewrite insert_insert_eq|done]. Qed.

(** Each way a list changes, seen in the table of owners. *)

Lemma owners_add e s :
  byServer s !! "" = None →
  owners (addEmoji e s) =
    let l := or_default [] (owners s !! ce_serverId e) in
    if has_key ce_id (ce_id e) l then owners s
    else <[ce_serverId e := js_sort by_name (l ++ [e])]> (owners s).
Proof.
  intros Hn. unfold addEmoji. case_decide as Hs.
  - rewrite owners_server by done. cbv zeta. case_match; [done|].
    by rewrite owners_on_byServer.
  - rewrite Hs, owners_personal by done. cbv zeta.
    case_match eqn:Hk; rewrite owners_on_personal; [|done].
    apply insert_id. rewrite owners_personal by done. by destruct (personal s).
Qed.
Lemma owners_update e s :
  byServer s !! "" = None →
  owners (updateEmoji e s) =
    match owners s !! ce_serverId e with
    | None => owners s
    | Some l => <[ce_serverId e := update_sorted e l]> (owners s)
    end.
Proof.
  intros Hn. unfold updateEmoji. case_decide as Hs.
  - rewrite owners_server by done. case_match; [|done]. by rewrite owners_on_byServer.
  - rewrite Hs, owners_personal by done. case_match; [|done].
    by rewrite owners_on_personal.
Qed.
Lemma owners_remove sid eid s :
  byServer s !! "" = None →
  owners (removeEmoji sid eid s) = alter (splice_key ce_id eid) sid (owners s).
Proof.
  intros Hn. unfold removeEmoji. case_decide as Hs.
  - case_match eqn:E.
    + change (owners (on_byId ?f ?x)) with (owners x).
      rewrite owners_on_byServer by done. apply map_eq. intros i.
      rewrite lookup_alter, lookup_insert. case_decide; [subst|done].
      by rewrite owners_server, E by done.
    + rewrite alter_id; [done|]. intros l. by rewrite owners_server, E.
  - subst sid. case_match eqn:E.
    + change (owners (on_byId ?f ?x)) with (owners x).
      rewrite owners_on_personal. apply map_eq. intros i.
      rewrite lookup_alter, lookup_insert. case_decide; [subst|done].
      by rewrite owners_personal, E by done.
    + rewrite alter_id; [done|]. intros l. by rewrite owners_personal, E.
Qed.

Lemma emojis_named a s : args_ok a s → byServer s !! "" = None → byServer (perform a s) !! "" = None.
Proof.
  intros Ha Hn. destruct a as [sid es|es|es|e|e|sid eid|sid|e|sid| |]; simpl in *; try done.
  - destruct Ha. by rewrite lookup_insert_ne.
  - unfold addEmoji. repeat case_match; simpl; rewrite ?lookup_insert_ne; done.
  - unfold updateEmoji. repeat case_match; simpl; rewrite ?lookup_insert_ne; done.
  - unfold removeEmoji. repeat case_match; simpl; rewrite ?lookup_insert_ne; done.
  - by rewrite lookup_delete_ne.
Qed.

Lemma emojis_perform_ok a s : args_ok a s → emojis_ok s → emojis_ok (perform a s).
Proof.
  intros Ha [Hn Hl]. split; [by apply emojis_named|].
  destruct a as [sid es|es|es|e|e|sid eid|sid|e|sid| |]; simpl; try done.
  - destruct Ha as [Hs Hes]. unfold setEmojis. rewrite owners_on_byServer by done.
    apply lists_ok_insert; [done|by apply list_ok_sort; [apply _|]].
  - unfold setPersonalEmojis. rewrite owners_on_personal.
    apply lists_ok_insert; [done|by apply list_ok_sort; [apply _|]].
  - rewrite owners_add by done. cbv zeta. case_match eqn:Hk; [done|].
    apply lists_ok_insert; [done|]. apply list_ok_push; [apply _|done|by apply lists_ok_default].
  - rewrite owners_update by done. case_match eqn:E; [|done].
    apply lists_ok_insert; [done|]. apply replace_key_sort; [apply _|by apply (Hl _ _ E)|done].
  - rewrite owners_remove by done. apply lists_ok_alter; [|done]. intros l. apply list_ok_splice.
  - unfold removeServerEmojis. rewrite owners_delete by done. by apply lists_ok_delete.
Qed.

Lemma emojis_reachable_ok s : reachable s → emojis_ok s.
Proof.
  revert s. apply reachable_invariant; [|intros a s; apply emojis_perform_ok].
  split; [done|apply lists_ok_empty].
Qed.

(** the lists of every server and of the user stay sorted by name without duplicates,
    and every action does to them what the specification does to one table of emojis
    keyed by owner and id, the user being the owner with the empty id. *)
Theorem emojis_refine_table s a :
  reachable s → args_ok a s →
  lists_ok ce_id by_name (owners (perform a s)) ∧
  table ce_id (owners (perform a s)) = spec a (table ce_id (owners s)).
Proof.
  intros Hs%emojis_reachable_ok Ha.
  split; [by apply (ok_lists _ (emojis_perform_ok _ _ Ha Hs))|].
  destruct Hs as [Hn Hl]. pose proof (lists_ok_NoDup _ _ _ Hl) as Hnd.
  destruct a as [sid es|es|es|e|e|sid eid|sid|e|sid| |]; simpl; try done.
  - destruct Ha. unfold setEmojis. rewrite owners_on_byServer by done. by apply table_set.
  - unfold setPersonalEmojis. rewrite owners_on_personal. by apply table_set.
  - rewrite owners_add by done. eapply table_add; eauto with meza.
  - rewrite owners_update by done. rewrite <-(table_update ce_id by_name) by done.
    by case_match.
  - rewrite owners_remove by done. by apply table_splice.
  - unfold removeServerEmojis. rewrite owners_delete by done. apply table_delete.
Qed.
End emojis.

Definition demo_emoji (id server name : string) : CustomEmoji :=
  {| ce_id := id; ce_serverId := server; ce_name := name; ce_imageUrl := "";
     ce_animated := false; ce_creatorId := "" |}.
Definition code_units : string → string → Z := cmp_str (λ s, s).

Lemma emojis_refine_table_witness :
  let s := run (St := EmojiState) (Op := action) (Store0 := emoji_store code_units)
    [AddEmoji (demo_emoji "1" "" "wave"); SetEmojis "s" [demo_emoji "2" "s" "tada"]]
    emptyState in
  (ce_name <$> or_default [] (personal (addEmoji code_units (demo_emoji "3" "" "blob") s)))
    = ["blob"; "wave"] ∧
  table ce_id (owners (perform code_units (RemoveEmoji "s" "2") s)) =
    spec (RemoveEmoji "s" "2") (table ce_id (owners s)).
Proof.
  split; [reflexivity|].
  eapply (emojis_refine_table code_units); [|exact I].
  apply (reachable_run (Store0 := emoji_store code_units)).
  split; [exact I|]. split; [|exact I]. split; [done|].
  apply (bool_decide_unpack _). reflexivity.
Defined.
