(* ===== verification/Sounds.v ===== *)
(** * The soundboard store ([store/sounds.ts])

    The sounds of each server and of the user, each list sorted by name with the
    runtime's collation [localeCompare]. *)

From S2P Require Export ServerLists.

Record SoundState := {
  byServer : gmap string (list SoundboardSound);
  personal : list SoundboardSound;
  isLoading : bool;
  error : option string;
}.

Definition emptyState : SoundState :=
  {| byServer := ∅; personal := []; isLoading := false; error := None |}.

Definition on_byServer f (s : SoundState) : SoundState :=
  {| byServer := f (byServer s); personal := personal s; isLoading := isLoading s;
     error := error s |}.
Definition on_personal f (s : SoundState) : SoundState :=
  {| byServer := byServer s; personal := f (personal s); isLoading := isLoading s;
     error := error s |}.
Definition setLoading (loading : bool) (s : SoundState) : SoundState :=
  {| byServer := byServer s; personal := personal s; isLoading := loading; error := error s |}.
Definition setError (err : option string) (s : SoundState) : SoundState :=
  {| byServer := byServer s; personal := personal s; isLoading := false; error := err |}.
Definition reset (s : SoundState) : SoundState := emptyState.

Section sounds.
Context (localeCompare : string → string → Z).

Definition by_name (a b : SoundboardSound) : Z := localeCompare (ss_name a) (ss_name b).

Definition setServerSounds (serverId : string) (sounds : list SoundboardSound)
    (s : SoundState) : SoundState :=
  setLoading false (on_byServer <[serverId := js_sort by_name sounds]> s).

Definition setPersonalSounds (sounds : list SoundboardSound) (s : SoundState) : SoundState :=
  setLoading false (on_personal (λ _, js_sort by_name sounds) s).

Definition push_sorted (sound : SoundboardSound) (l : list SoundboardSound) :=
  js_sort by_name (l ++ [sound]).
Definition update_sorted (sound : SoundboardSound) (l : list SoundboardSound) :=
  match index_key ss_id (ss_id sound) l with
  | Some idx => js_sort by_name (<[idx := sound]> l)
  | None => l
  end.

Definition addSound (sound : SoundboardSound) (s : SoundState) : SoundState :=
  if decide (ss_serverId sound ≠ "") then
    let list := or_default [] (byServer s !! ss_serverId sound) in
    if has_key ss_id (ss_id sound) list then s
    else on_byServer <[ss_serverId sound := push_sorted sound list]> s
  else if has_key ss_id (ss_id sound) (personal s) then s
  else on_personal (push_sorted sound) s.

Definition updateSound (sound : SoundboardSound) (s : SoundState) : SoundState :=
  if decide (ss_serverId sound ≠ "") then
    match byServer s !! ss_serverId sound with
    | None => s
    | Some list => on_byServer <[ss_serverId sound := update_sorted sound list]> s
    end
  else on_personal (update_sorted sound) s.

(** [serverId] may be left out. *)
Definition removeSound (soundId : string) (serverId : option string) (s : SoundState)
    : SoundState :=
  if truthy serverId
  then on_byServer (alter (splice_key ss_id soundId) (or_default "" serverId)) s
  else on_personal (splice_key ss_id soundId) s.

Inductive action :=
  | SetServerSounds (serverId : string) (l : list SoundboardSound)
  | SetPersonalSounds (l : list SoundboardSound)
  | AddSound (x : SoundboardSound)
  | UpdateSound (x : SoundboardSound)
  | RemoveSound (soundId : string) (serverId : option string)
  | SetLoading (b : bool)
  | SetError (e : option string)
  | Reset.

Definition perform (a : action) : SoundState → SoundState :=
  match a with
  | SetServerSounds sid l => setServerSounds sid l
  | SetPersonalSounds l => setPersonalSounds l
  | AddSound x => addSound x
  | UpdateSound x => updateSound x
  | RemoveSound i sid => removeSound i sid
  | SetLoading b => setLoading b
  | SetError e => setError e
  | Reset => reset
  end.

(** A server has a nonempty id, and lists each of its sounds once. *)
Definition args_ok (a : action) (s : SoundState) : Prop :=
  match a with
  | SetServerSounds sid l => sid ≠ "" ∧ NoDup (ss_id <$> l)
  | SetPersonalSounds l => NoDup (ss_id <$> l)
  | _ => True
  end.

#[export] Instance sound_store : Store SoundState action :=
  {| initial := emptyState; exec := perform; admissible := args_ok |}.

(** ** Specification: one table of owners, the user under the empty id *)

Definition owners (s : SoundState) : gmap string (list SoundboardSound) :=
  <["" := personal s]> (byServer s).

Definition spec (a : action) (t : gmap string (gmap string SoundboardSound))
    : gmap string (gmap string SoundboardSound) :=
  match a with
  | SetServerSounds sid l => spec_set ss_id sid l t
  | SetPersonalSounds l => spec_set ss_id "" l t
  | AddSound x => spec_add ss_id (ss_serverId x) x t
  | UpdateSound x => spec_update ss_id (ss_serverId x) x t
  | RemoveSound i sid => spec_remove (or_default "" sid) i t
  | Reset => {[ "" := ∅ ]}
  | _ => t
  end.

Context `{!Comparator localeCompare}.

#[local] Instance sound_name_comparator : Comparator by_name.
Proof.
  split; unfold by_name; [intros x y; apply cmp_flip|intros x y z; apply cmp_trans].
Qed.

Lemma sound_owners_server s sid : sid ≠ "" → owners s !! sid = byServer s !! sid.
Proof. intros. unfold owners. by rewrite lookup_insert_ne. Qed.
Lemma sound_owners_personal s : owners s !! "" = Some (personal s).
Proof. unfold owners. by rewrite lookup_insert_eq. Qed.
Lemma sound_owners_byServer sid l s :
  sid ≠ "" → owners (on_byServer <[sid := l]> s) = <[sid := l]> (owners s).
Proof. intros. unfold owners. simpl. by rewrite insert_insert_ne. Qed.
Lemma sound_owners_on_personal f s :
  owners (on_personal f s) = <["" := f (personal s)]> (owners s).
Proof. unfold owners. simpl. by rewrite insert_insert_eq. Qed.

Lemma sound_owners_add x s :
  owners (addSound x s) =
    let l := or_default [] (owners s !! ss_serverId x) in
    if has_key ss_id (ss_id x) l then owners s
    else <[ss_serverId x := js_sort by_name (l ++ [x])]> (owners s).
Proof.
  unfold addSound. case_decide as Hs.
  - rewrite sound_owners_server by done. cbv zeta. case_match; [done|].
    by rewrite sound_owners_byServer.
  - rewrite Hs, sound_owners_personal. cbv zeta. simpl. case_match; [done|].
    by rewrite sound_owners_on_personal.
Qed.
Lemma sound_owners_update x s :
  owners (updateSound x s) =
    match owners s !! ss_serverId x with
    | None => owners s
    | Some l => <[ss_serverId x := update_sorted x l]> (owners s)
    end.
Proof.
  unfold updateSound. case_decide as Hs.
  - rewrite sound_owners_server by done. case_match; [|done].
    by rewrite sound_owners_byServer.
  - by rewrite Hs, sound_owners_personal, sound_owners_on_personal.
Qed.
Lemma sound_owners_remove i sid s :
  owners (removeSound i sid s) = alter (splice_key ss_id i) (or_default "" sid) (owners s).
Proof.
  unfold removeSound, truthy. destruct sid as [sid|]; simpl.
  - case_bool_decide as Hs; simpl.
    + subst. rewrite sound_owners_on_personal. apply map_eq. intros k.
      rewrite lookup_alter, lookup_insert. case_decide; [subst|done].
      by rewrite sound_owners_personal.
    + unfold owners; simpl. by rewrite alter_insert_ne.
  - rewrite sound_owners_on_personal. apply map_eq. intros k.
    rewrite lookup_alter, lookup_insert. case_decide; [subst|done].
    by rewrite sound_owners_personal.
Qed.

Lemma sounds_perform_ok a s :
  args_ok a s → lists_ok ss_id by_name (owners s) → lists_ok ss_id by_name (owners (perform a s)).
Proof.
  intros Ha Hl. destruct a as [sid l|l|x|x|i sid|b|e|]; simpl; try done.
  - destruct Ha as [Hs Hes]. change (owners (setServerSounds sid l s)) with
      (owners (on_byServer <[sid := js_sort by_name l]> s)).
    rewrite sound_owners_byServer by done.
    apply lists_ok_insert; [done|by apply list_ok_sort; [apply _|]].
  - change (owners (setPersonalSounds l s)) with
      (owners (on_personal (λ _, js_sort by_name l) s)).
    rewrite sound_owners_on_personal.
    apply lists_ok_insert; [done|by apply list_ok_sort; [apply _|]].
  - rewrite sound_owners_add. cbv zeta. case_match eqn:Hk; [done|].
    apply lists_ok_insert; [done|]. apply list_ok_push; [apply _|done|by apply lists_ok_default].
  - rewrite sound_owners_update. case_match eqn:E; [|done].
    apply lists_ok_insert; [done|]. apply replace_key_sort; [apply _|by apply (Hl _ _ E)|done].
  - rewrite sound_owners_remove. apply lists_ok_alter; [|done]. intros l. apply list_ok_splice.
  - apply lists_ok_insert; [apply lists_ok_empty|apply list_ok_nil].
Qed.

Lemma sounds_reachable_ok s : reachable s → lists_ok ss_id by_name (owners s).
Proof.
  revert s. apply (reachable_invariant (λ s, lists_ok ss_id by_name (owners s)));
    [|intros a s; apply sounds_perform_ok].
  apply lists_ok_insert; [apply lists_ok_empty|apply list_ok_nil].
Qed.

(** the lists of every server and of the user stay sorted by name without duplicates,
    and every action does to them what the specification does to one table of sounds
    keyed by owner and id. *)
Theorem sounds_refine_table s a :
  reachable s → args_ok a s →
  lists_ok ss_id by_name (owners (perform a s)) ∧
  table ss_id (owners (perform a s)) = spec a (table ss_id (owners s)).
Proof.
  intros Hs%sounds_reachable_ok Ha. split; [by apply sounds_perform_ok|].
  pose proof (lists_ok_NoDup _ _ _ Hs) as Hnd.
  destruct a as [sid l|l|x|x|i sid|b|e|]; simpl; try done.
  - destruct Ha. change (owners (setServerSounds sid l s)) with
      (owners (on_byServer <[sid := js_sort by_name l]> s)).
    rewrite sound_owners_byServer by done. by apply table_set.
  - change (owners (setPersonalSounds l s)) with
      (owners (on_personal (λ _, js_sort by_name l) s)).
    rewrite sound_owners_on_personal. by apply table_set.
  - rewrite sound_owners_add. eapply table_add; eauto with meza.
  - rewrite sound_owners_update. rewrite <-(table_update ss_id by_name) by done.
    by case_match.
  - rewrite sound_owners_remove. by apply table_splice.
Qed.
End sounds.

Definition demo_sound (id server name : string) : SoundboardSound :=
  {| ss_id := id; ss_userId := ""; ss_serverId := server; ss_name := name;
     ss_audioUrl := "" |}.

Lemma sounds_refine_table_witness :
  let lc := cmp_str (λ s : string, s) in
  let s := run (Store0 := sound_store lc)
    [AddSound (demo_sound "1" "" "b"); AddSound (demo_sound "2" "" "a")] emptyState in
  (ss_name <$> personal s) = ["a"; "b"] ∧
  table ss_id (owners (perform lc (RemoveSound "1" None) s)) =
    spec (RemoveSound "1" None) (table ss_id (owners s)).
Proof.
  split; [reflexivity|].
  apply (sounds_refine_table (cmp_str (λ s, s))); [|exact I].
  apply (reachable_run (Store0 := sound_store (cmp_str (λ s, s)))). by split.
Defined.
