(* ===== verification/PermissionOverrides.v ===== *)
(** * The permission-override store ([store/permission-overrides.ts])

    The overrides of each target (a channel or a channel group).  An override is for a
    role or for a user; the array of a target has one entry per role and per user. *)

From S2P Require Export ServerLists.

Record PermissionOverrideState := {
  byTarget : gmap string (list PermissionOverride);
  isLoading : gmap string bool;
  error : option string;
}.

Definition emptyState : PermissionOverrideState :=
  {| byTarget := ∅; isLoading := ∅; error := None |}.

Definition on_byTarget f (s : PermissionOverrideState) : PermissionOverrideState :=
  {| byTarget := f (byTarget s); isLoading := isLoading s; error := error s |}.
Definition setLoading (targetId : string) (loading : bool) (s : PermissionOverrideState)
    : PermissionOverrideState :=
  {| byTarget := byTarget s; isLoading := <[targetId := loading]> (isLoading s);
     error := error s |}.
Definition setError (err : option string) (s : PermissionOverrideState)
    : PermissionOverrideState :=
  {| byTarget := byTarget s; isLoading := ∅; error := err |}.

Definition setOverrides (targetId : string) (overrides : list PermissionOverride)
    (s : PermissionOverrideState) : PermissionOverrideState :=
  setLoading targetId false (on_byTarget <[targetId := overrides]> s).

(** [list.findIndex] on the user id of a user override, on the role id of another. *)
Definition override_index (override : PermissionOverride) (l : list PermissionOverride)
    : option nat :=
  if decide (po_userId override ≠ "") then index_key po_userId (po_userId override) l
  else index_key po_roleId (po_roleId override) l.

Definition upsertOverride (targetId : string) (override : PermissionOverride)
    (s : PermissionOverrideState) : PermissionOverrideState :=
  let list := or_default [] (byTarget s !! targetId) in
  on_byTarget <[targetId :=
    match override_index override list with
    | Some idx => <[idx := override]> list
    | None => list ++ [override]
    end]> s.

Definition removeOverride (targetId roleId : string) (userId : option string)
    (s : PermissionOverrideState) : PermissionOverrideState :=
  on_byTarget (alter (λ l,
    if truthy userId then without po_userId (or_default "" userId) l
    else without po_roleId roleId l) targetId) s.

Definition reset (s : PermissionOverrideState) : PermissionOverrideState := emptyState.

Inductive action :=
  | SetOverrides (targetId : string) (l : list PermissionOverride)
  | UpsertOverride (targetId : string) (o : PermissionOverride)
  | RemoveOverride (targetId roleId : string) (userId : option string)
  | SetLoading (targetId : string) (b : bool)
  | SetError (e : option string)
  | Reset.

Definition perform (a : action) : PermissionOverrideState → PermissionOverrideState :=
  match a with
  | SetOverrides t l => setOverrides t l
  | UpsertOverride t o => upsertOverride t o
  | RemoveOverride t r u => removeOverride t r u
  | SetLoading t b => setLoading t b
  | SetError e => setError e
  | Reset => reset
  end.

(** ** Subjects: what an override is for *)

Inductive subject := for_role (roleId : string) | for_user (userId : string).
#[export] Instance subject_eq_dec : EqDecision subject.
Proof. solve_decision. Defined.
#[export] Instance subject_countable : Countable subject.
Proof.
  refine (inj_countable' (λ s, match s with for_role r => inl r | for_user u => inr u end)
    (λ s, match s with inl r => for_role r | inr u => for_user u end) _).
  by intros [].
Defined.

Definition po_subject (o : PermissionOverride) : subject :=
  if decide (po_userId o ≠ "") then for_user (po_userId o) else for_role (po_roleId o).

(** An override is for exactly one of a role and a user. *)
Definition one_subject (o : PermissionOverride) : Prop :=
  (po_userId o ≠ "" ∧ po_roleId o = "") ∨ (po_userId o = "" ∧ po_roleId o ≠ "").

Definition overrides_ok (l : list PermissionOverride) : Prop :=
  NoDup (po_subject <$> l) ∧ Forall one_subject l.

Definition args_ok (a : action) (s : PermissionOverrideState) : Prop :=
  match a with
  | SetOverrides _ l => overrides_ok l
  | UpsertOverride _ o => one_subject o
  | RemoveOverride _ r u => truthy u = true ∨ r ≠ ""
  | _ => True
  end.

#[export] Instance override_store : Store PermissionOverrideState action :=
  {| initial := emptyState; exec := perform; admissible := args_ok |}.

Definition state_ok (s : PermissionOverrideState) : Prop :=
  map_Forall (λ _, overrides_ok) (byTarget s).

(** The override in force for a subject of a target. *)
Definition override_of (s : PermissionOverrideState) (t : string) (x : subject)
    : option PermissionOverride :=
  find_key po_subject x (or_default [] (byTarget s !! t)).

(** ** On well-formed arrays the field tests are tests of the subject *)

Lemma one_subject_user o u :
  one_subject o → u ≠ "" → po_userId o = u ↔ po_subject o = for_user u.
Proof. intros Ho Hu. unfold po_subject. case_decide; naive_solver. Qed.
Lemma one_subject_role o r :
  one_subject o → r ≠ "" → po_roleId o = r ↔ po_subject o = for_role r.
Proof. intros [[]|[]] Hr; unfold po_subject; case_decide; naive_solver. Qed.

Lemma index_key_ext {A K K'} `{Countable K} `{Countable K'} (f : A → K) (g : A → K')
    (k : K) (k' : K') (l : list A) :
  Forall (λ x, f x = k ↔ g x = k') l → index_key f k l = index_key g k' l.
Proof.
  induction 1 as [|x l Hx _ IH]; [done|]. rewrite !index_key_cons, IH.
  repeat case_decide; naive_solver.
Qed.
Lemma without_ext {A K K'} `{Countable K} `{Countable K'} (f : A → K) (g : A → K')
    (k : K) (k' : K') (l : list A) :
  Forall (λ x, f x = k ↔ g x = k') l → without f k l = without g k' l.
Proof.
  induction 1 as [|x l Hx _ IH]; [done|]. rewrite !without_cons, IH.
  repeat case_decide; naive_solver.
Qed.

Lemma override_index_subject o l :
  one_subject o → Forall one_subject l →
  override_index o l = index_key po_subject (po_subject o) l.
Proof.
  intros Ho Hl. unfold override_index, po_subject at 2.
  destruct Ho as [[Hu Hr]|[Hu Hr]].
  - rewrite !decide_True by done. apply index_key_ext. eapply Forall_impl; [exact Hl|].
    intros x Hx. by apply one_subject_user.
  - rewrite !decide_False by auto. apply index_key_ext. eapply Forall_impl; [exact Hl|].
    intros x Hx. by apply one_subject_role.
Qed.

(** What [removeOverride] names. *)
Definition removed_subject (roleId : string) (userId : option string) : subject :=
  if truthy userId then for_user (or_default "" userId) else for_role roleId.

Lemma removeOverride_subject r u l :
  truthy u = true ∨ r ≠ "" → Forall one_subject l →
  (if truthy u then without po_userId (or_default "" u) l else without po_roleId r l) =
    without po_subject (removed_subject r u) l.
Proof.
  intros Hr Hl. unfold removed_subject. destruct (truthy u) eqn:E.
  - apply without_ext. eapply Forall_impl; [exact Hl|]. intros x Hx.
    apply one_subject_user; [done|]. unfold truthy in E. destruct u; [|done].
    by apply negb_true_iff, bool_decide_eq_false in E.
  - destruct Hr as [|Hr]; [done|]. apply without_ext. eapply Forall_impl; [exact Hl|].
    intros x Hx. by apply one_subject_role.
Qed.

Lemma overrides_ok_lookup s t : state_ok s → overrides_ok (or_default [] (byTarget s !! t)).
Proof. intros Hs. destruct (byTarget s !! t) eqn:E; [by apply (Hs t)|by repeat constructor]. Qed.

Definition upsert_list (o : PermissionOverride) (l : list PermissionOverride) :=
  match override_index o l with Some i => <[i := o]> l | None => l ++ [o] end.

Lemma override_upsert_spec o l :
  one_subject o → overrides_ok l →
  overrides_ok (upsert_list o l) ∧
  ∀ x, find_key po_subject x (upsert_list o l) =
    if decide (x = po_subject o) then Some o else find_key po_subject x l.
Proof.
  intros Ho [Hnd Hf]. unfold upsert_list. rewrite override_index_subject by done.
  destruct (index_key po_subject (po_subject o) l) as [i|] eqn:E.
  - assert (Heq : <[i := o]> l = replace_key po_subject (po_subject o) o l)
      by (unfold replace_key; by rewrite E).
    split; [split; [rewrite Heq; by apply NoDup_replace|by apply Forall_insert]|].
    intros x. rewrite Heq, find_key_replace by done. case_decide; [|done].
    case_match eqn:Hk; [done|]. apply has_key_false, index_key_None in Hk. congruence.
  - apply index_key_None in E.
    split; [split; [apply NoDup_push; [by apply has_key_false|done]|]|].
    + apply Forall_app. split; [done|by apply Forall_singleton].
    + intros x. rewrite find_key_app, find_key_cons, find_key_nil. case_decide as Hx.
      * subst. apply find_key_None in E. rewrite E. by rewrite decide_True.
      * rewrite decide_False by auto. by destruct (find_key po_subject x l).
Qed.

Lemma overrides_perform_ok a s : args_ok a s → state_ok s → state_ok (perform a s).
Proof.
  intros Ha Hs. destruct a as [t l|t o|t r u|t b|e|]; simpl; try done.
  - by apply map_Forall_insert_2.
  - apply map_Forall_insert_2; [|done]. apply (override_upsert_spec o); [done|].
    by apply overrides_ok_lookup.
  - intros i l. simpl. rewrite lookup_alter. case_decide; [|apply Hs].
    intros (l0 & Hl0 & ->)%fmap_Some. destruct (Hs _ _ Hl0) as [Hnd Hf].
    rewrite removeOverride_subject by done. split; [by apply NoDup_without|].
    eapply Forall_sublist_of; [apply sublist_filter|done].
Qed.

Lemma overrides_reachable_ok s : reachable s → state_ok s.
Proof.
  revert s. apply reachable_invariant; [apply map_Forall_empty|].
  intros a s. apply overrides_perform_ok.
Qed.

(** a target has at most one override per role and per user; an upsert puts its
    override in force for its subject, replacing the one before, a removal takes
    the override of the subject it names away, and both leave the overrides of every
    other subject and target alone. *)
Theorem overrides_by_subject s t x :
  reachable s →
  NoDup (po_subject <$> or_default [] (byTarget s !! t)) ∧
  (∀ t' o, one_subject o →
     override_of (upsertOverride t' o s) t x =
       if decide (t = t' ∧ x = po_subject o) then Some o else override_of s t x) ∧
  (∀ t' r u, truthy u = true ∨ r ≠ "" →
     override_of (removeOverride t' r u s) t x =
       if decide (t = t' ∧ x = removed_subject r u) then None else override_of s t x).
Proof.
  intros Hs%overrides_reachable_ok. split; [by apply (overrides_ok_lookup s t)|].
  unfold override_of. split.
  - intros t' o Ho. simpl. rewrite lookup_insert. destruct (decide (t' = t)) as [->|Hne].
    + simpl. destruct (override_upsert_spec o (or_default [] (byTarget s !! t)) Ho) as [_ Hf];
        [by apply overrides_ok_lookup|]. unfold upsert_list in Hf. rewrite Hf.
      repeat case_decide; naive_solver.
    + repeat case_decide; naive_solver.
  - intros t' r u Hr. simpl. rewrite lookup_alter. destruct (decide (t' = t)) as [->|Hne].
    + destruct (byTarget s !! t) as [l|] eqn:E; simpl; [|by repeat case_decide].
      rewrite removeOverride_subject by (try done; by apply (Hs _ _ E)).
      rewrite find_key_without. repeat case_decide; naive_solver.
    + repeat case_decide; naive_solver.
Qed.

Definition demo_override (id role user : string) (allow : Z) : PermissionOverride :=
  {| po_id := id; po_targetId := "c"; po_roleId := role; po_allow := allow; po_deny := 0;
     po_userId := user |}.

Lemma overrides_by_subject_witness :
  let s := run [UpsertOverride "c" (demo_override "1" "r" "" 1);
                UpsertOverride "c" (demo_override "2" "" "u" 2)] initial in
  override_of s "c" (for_role "r") = Some (demo_override "1" "r" "" 1) ∧
  override_of (upsertOverride "c" (demo_override "3" "r" "" 4) s) "c" (for_role "r") =
    Some (demo_override "3" "r" "" 4) ∧
  override_of (removeOverride "c" "" (Some "u") s) "c" (for_user "u") = None.
Proof.
  assert (Hr : reachable (run [UpsertOverride "c" (demo_override "1" "r" "" 1);
                UpsertOverride "c" (demo_override "2" "" "u" 2)] initial)).
  { apply reachable_run. split; [right; done|]. split; [left; done|exact I]. }
  split; [reflexivity|]. split.
  - rewrite (proj1 (proj2 (overrides_by_subject _ "c" (for_role "r") Hr))); [reflexivity|].
    by right.
  - rewrite (proj2 (proj2 (overrides_by_subject _ "c" (for_user "u") Hr))); [reflexivity|].
    by left.
Defined.
