(* ===== verification/GatewayStatus.v ===== *)
(** * The gateway status store ([store/gateway.ts])

    What the rest of the client sees of the connection, and the channels on screen. *)

From S2P Require Export Prelude.

Inductive GatewayStatus := connecting | connected | disconnected | reconnecting.
#[export] Instance GatewayStatus_eq_dec : EqDecision GatewayStatus.
Proof. solve_decision. Defined.

Record GatewayState := {
  status : GatewayStatus;
  reconnectAttempt : Z;
  reconnectCount : Z;
  lastError : option string;
  viewedChannelIds : gset string;
}.

Definition emptyState : GatewayState :=
  {| status := disconnected; reconnectAttempt := 0; reconnectCount := 0; lastError := None;
     viewedChannelIds := ∅ |}.

Definition setStatus (x : GatewayStatus) (s : GatewayState) : GatewayState :=
  {| status := x; reconnectAttempt := reconnectAttempt s; reconnectCount := reconnectCount s;
     lastError := lastError s; viewedChannelIds := viewedChannelIds s |}.
Definition setReconnectAttempt (n : Z) (s : GatewayState) : GatewayState :=
  {| status := status s; reconnectAttempt := n; reconnectCount := reconnectCount s;
     lastError := lastError s; viewedChannelIds := viewedChannelIds s |}.
Definition incrementReconnectCount (s : GatewayState) : GatewayState :=
  {| status := status s; reconnectAttempt := reconnectAttempt s;
     reconnectCount := reconnectCount s + 1;
     lastError := lastError s; viewedChannelIds := viewedChannelIds s |}.
Definition setLastError (e : option string) (s : GatewayState) : GatewayState :=
  {| status := status s; reconnectAttempt := reconnectAttempt s;
     reconnectCount := reconnectCount s; lastError := e;
     viewedChannelIds := viewedChannelIds s |}.
Definition on_viewed f (s : GatewayState) : GatewayState :=
  {| status := status s; reconnectAttempt := reconnectAttempt s;
     reconnectCount := reconnectCount s; lastError := lastError s;
     viewedChannelIds := f (viewedChannelIds s) |}.
Definition addViewedChannel (channelId : string) : GatewayState → GatewayState :=
  on_viewed (λ ids, {[channelId]} ∪ ids).
Definition removeViewedChannel (channelId : string) : GatewayState → GatewayState :=
  on_viewed (λ ids, ids ∖ {[channelId]}).
Definition reset (s : GatewayState) : GatewayState := emptyState.
