(* ===== verification/Presence.v ===== *)
(** * The presence store ([store/presence.ts]) and the calls that fill it
    ([api/presence.ts])

    Everyone's presence, the user's own status, and the override (do not disturb,
    invisible, ..) the user has set, which may expire. *)

From S2P Require Export Models.

Record UserPresence := { up_status : PresenceStatus; statusText : string; lastUpdated : Z }.
Record StatusOverride := { so_status : PresenceStatus; expiresAt : Z }.

Record PresenceState := {
  byUser : gmap string UserPresence;
  myStatus : PresenceStatus;
  myOverride : option StatusOverride;
}.

Definition emptyState : PresenceState :=
  {| byUser := ∅; myStatus := OFFLINE; myOverride := None |}.

Definition on_byUser f (s : PresenceState) : PresenceState :=
  {| byUser := f (byUser s); myStatus := myStatus s; myOverride := myOverride s |}.

(** [now] is [Date.now()]. *)
Definition setPresence (now : Z) (userId : string) (x : PresenceStatus) (text : string)
    : PresenceState → PresenceState :=
  on_byUser <[userId := {| up_status := x; statusText := text; lastUpdated := now |}]>.
Definition setMyStatus (x : PresenceStatus) (s : PresenceState) : PresenceState :=
  {| byUser := byUser s; myStatus := x; myOverride := myOverride s |}.
Definition setMyOverride (o : option StatusOverride) (s : PresenceState) : PresenceState :=
  {| byUser := byUser s; myStatus := myStatus s; myOverride := o |}.

Definition presence_entry (now : Z) (e : PresenceStatus * string) : UserPresence :=
  {| up_status := e.1; statusText := e.2; lastUpdated := now |}.
Definition setBulkPresence (now : Z) (entries : list (string * (PresenceStatus * string)))
    : PresenceState → PresenceState :=
  on_byUser (λ m, foldl (λ m e, <[e.1 := presence_entry now e.2]> m) m entries).

(** Everything but the override, which outlives a reconnect *)
Definition reset (s : PresenceState) : PresenceState :=
  {| byUser := ∅; myStatus := OFFLINE; myOverride := myOverride s |}.

(** ** Answers of the presence service *)

(** [getMyPresence]: [o] is the override the server reports, [UNSPECIFIED] for none. *)
Definition getMyPresence (x o : PresenceStatus) (oExpires : Z) (s : PresenceState)
    : PresenceState :=
  if decide (o ≠ UNSPECIFIED)
  then setMyStatus o (setMyOverride (Some {| so_status := o; expiresAt := oExpires |}) s)
  else setMyStatus x (setMyOverride None s).

(** [setStatusOverride(status)], answered with a status and an expiry *)
Definition setStatusOverride (x answered : PresenceStatus) (expires : Z) (s : PresenceState)
    : PresenceState :=
  setMyStatus x (setMyOverride (Some {| so_status := answered; expiresAt := expires |}) s).

(** [clearStatusOverride()], then [getMyPresence()] with its answer *)
Definition clearStatusOverride (x o : PresenceStatus) (oExpires : Z) (s : PresenceState)
    : PresenceState := getMyPresence x o oExpires (setMyOverride None s).

(** ** What the handshake sets: the local status never hides an override *)

Definition announce_online (s : PresenceState) : PresenceState :=
  match myOverride s with
  | Some activeOverride => setMyStatus (so_status activeOverride) s
  | None => setMyStatus ONLINE s
  end.

Lemma foldl_insert_lookup {A} (f : A → UserPresence) (l : list (string * A))
    (m : gmap string UserPresence) u :
  foldl (λ m e, <[e.1 := f e.2]> m) m l !! u =
    match find_key fst u (reverse l) with Some e => Some (f e.2) | None => m !! u end.
Proof.
  revert m. induction l as [|[k e] l IH]; intros m; simpl; [done|].
  rewrite IH, reverse_cons, find_key_app, find_key_cons, find_key_nil.
  destruct (find_key fst u (reverse l)); [done|]. simpl. case_decide; subst; by simplify_map_eq.
Qed.

(** a bulk answer sets each listed user's presence to the last entry the answer has
    for them and leaves everyone else alone; and across a reconnect (going offline,
    the reset, and the announcement that follows the handshake) the override and the
    status it shows survive while the presences of others are forgotten. *)
Theorem presence_updates now entries u s :
  byUser (setBulkPresence now entries s) !! u =
    match find_key fst u (reverse entries) with
    | Some e => Some (presence_entry now e.2)
    | None => byUser s !! u
    end ∧
  (let s' := announce_online (reset (setMyStatus OFFLINE s)) in
   myOverride s' = myOverride s ∧ byUser s' = ∅ ∧
   myStatus s' = or_default ONLINE (so_status <$> myOverride s)).
Proof.
  split; [apply foldl_insert_lookup|]. unfold announce_online. simpl.
  destruct (myOverride s) eqn:E; simpl; by rewrite ?E.
Qed.
