(* ===== verification/Auth.v ===== *)
(** * The auth store ([store/auth.ts]) and the profile cache ([store/users.ts])

    The tokens and the user of the session, mirrored in local storage, and the profiles
    of other users with the time each was fetched. *)

From S2P Require Export Json.

Record StoredUserConnection := { platform : string; url : string; uc_label : string }.

Record StoredUser := {
  id : string;
  username : string;
  displayName : string;
  avatarUrl : string;
  emojiScale : number;
  bio : string;
  pronouns : string;
  bannerUrl : string;
  themeColorPrimary : string;
  themeColorSecondary : string;
  simpleMode : bool;
  dmPrivacy : string;
  friendRequestPrivacy : string;
  profilePrivacy : string;
  connections : list StoredUserConnection;
  createdAt : string;
}.

(** [PublicUser] of the protocol, and its conversion ([api/auth.ts]) *)
Record PublicUser := {
  pu_id : string;
  pu_username : string;
  pu_displayName : string;
  pu_avatarUrl : string;
  pu_bio : string;
  pu_pronouns : string;
  pu_bannerUrl : string;
  pu_themeColorPrimary : string;
  pu_themeColorSecondary : string;
}.

Definition publicUserToStored (user : PublicUser) : StoredUser :=
  {| id := pu_id user; username := pu_username user; displayName := pu_displayName user;
     avatarUrl := pu_avatarUrl user; emojiScale := Num.one; bio := pu_bio user;
     pronouns := pu_pronouns user; bannerUrl := pu_bannerUrl user;
     themeColorPrimary := pu_themeColorPrimary user;
     themeColorSecondary := pu_themeColorSecondary user; simpleMode := false;
     dmPrivacy := ""; friendRequestPrivacy := ""; profilePrivacy := ""; connections := [];
     createdAt := "" |}.

(** ** The auth store *)

Record AuthState := {
  accessToken : option string;
  refreshToken : option string;
  user : option StoredUser;
  isAuthenticated : bool;
  isLoading : bool;
  error : option string;
}.

Definition signedOut : AuthState :=
  {| accessToken := None; refreshToken := None; user := None; isAuthenticated := false;
     isLoading := false; error := None |}.

(** The three items of local storage; the user's is parsed JSON. *)
Record AuthStorage := {
  item_access : option string;
  item_refresh : option string;
  item_user : option json;
}.

Definition connection_json (c : StoredUserConnection) : json :=
  JObj [("platform", JStr (platform c)); ("url", JStr (url c)); ("label", JStr (uc_label c))].
Definition user_json (u : StoredUser) : json :=
  JObj [("id", JStr (id u)); ("username", JStr (username u));
    ("displayName", JStr (displayName u)); ("avatarUrl", JStr (avatarUrl u));
    ("emojiScale", json_of_number (emojiScale u)); ("bio", JStr (bio u));
    ("pronouns", JStr (pronouns u)); ("bannerUrl", JStr (bannerUrl u));
    ("themeColorPrimary", JStr (themeColorPrimary u));
    ("themeColorSecondary", JStr (themeColorSecondary u));
    ("simpleMode", JBool (simpleMode u)); ("dmPrivacy", JStr (dmPrivacy u));
    ("friendRequestPrivacy", JStr (friendRequestPrivacy u));
    ("profilePrivacy", JStr (profilePrivacy u));
    ("connections", JArr (connection_json <$> connections u));
    ("createdAt", JStr (createdAt u))].

(** The parsed item is used as it is: a view of the fields the client reads of it. *)
Definition field_string (k : string) (j : json) : string :=
  or_default "" (json_string (json_get k (Some j))).
Definition read_connection (j : json) : StoredUserConnection :=
  {| platform := field_string "platform" j; url := field_string "url" j;
     uc_label := field_string "label" j |}.
Definition read_user (j : json) : StoredUser :=
  {| id := field_string "id" j; username := field_string "username" j;
     displayName := field_string "displayName" j; avatarUrl := field_string "avatarUrl" j;
     emojiScale := match json_get "emojiScale" (Some j) with Some (JNum n) => n | _ => Num.nan end;
     bio := field_string "bio" j; pronouns := field_string "pronouns" j;
     bannerUrl := field_string "bannerUrl" j;
     themeColorPrimary := field_string "themeColorPrimary" j;
     themeColorSecondary := field_string "themeColorSecondary" j;
     simpleMode := json_truthy (json_get "simpleMode" (Some j));
     dmPrivacy := field_string "dmPrivacy" j;
     friendRequestPrivacy := field_string "friendRequestPrivacy" j;
     profilePrivacy := field_string "profilePrivacy" j;
     connections := match json_get "connections" (Some j) with
       | Some (JArr l) => read_connection <$> l | _ => [] end;
     createdAt := field_string "createdAt" j |}.

(** The initial state spread with [loadFromStorage()] *)
Definition loadFromStorage (st : AuthStorage) : AuthState :=
  {| accessToken := item_access st; refreshToken := item_refresh st;
     user := read_user <$> item_user st; isAuthenticated := truthy (item_access st);
     isLoading := false; error := None |}.

(** The store with its storage *)
Record AuthSystem := { auth : AuthState; storage : AuthStorage }.

Definition setAuth (access refresh : string) (u : StoredUser) (s : AuthSystem) : AuthSystem :=
  {| auth := {| accessToken := Some access; refreshToken := Some refresh; user := Some u;
                isAuthenticated := true; isLoading := isLoading (auth s); error := None |};
     storage := {| item_access := Some access; item_refresh := Some refresh;
                   item_user := Some (user_json u) |} |}.

(** The fields [updateUser] may be given *)
Record UserUpdates := {
  up_displayName : option string;
  up_avatarUrl : option string;
  up_emojiScale : option number;
  up_bio : option string;
  up_pronouns : option string;
  up_bannerUrl : option string;
  up_themeColorPrimary : option string;
  up_themeColorSecondary : option string;
  up_simpleMode : option bool;
  up_dmPrivacy : option string;
  up_connections : option (list StoredUserConnection);
}.

(** [Object.assign(state.user, updates)] *)
Definition assign_user (x : UserUpdates) (u : StoredUser) : StoredUser :=
  {| id := id u; username := username u;
     displayName := or_default (displayName u) (up_displayName x);
     avatarUrl := or_default (avatarUrl u) (up_avatarUrl x);
     emojiScale := or_default (emojiScale u) (up_emojiScale x);
     bio := or_default (bio u) (up_bio x);
     pronouns := or_default (pronouns u) (up_pronouns x);
     bannerUrl := or_default (bannerUrl u) (up_bannerUrl x);
     themeColorPrimary := or_default (themeColorPrimary u) (up_themeColorPrimary x);
     themeColorSecondary := or_default (themeColorSecondary u) (up_themeColorSecondary x);
     simpleMode := or_default (simpleMode u) (up_simpleMode x);
     dmPrivacy := or_default (dmPrivacy u) (up_dmPrivacy x);
     friendRequestPrivacy := friendRequestPrivacy u; profilePrivacy := profilePrivacy u;
     connections := or_default (connections u) (up_connections x);
     createdAt := createdAt u |}.

Definition updateUser (updates : UserUpdates) (s : AuthSystem) : AuthSystem :=
  match user (auth s) with
  | None => s
  | Some u =>
      let u := assign_user updates u in
      {| auth := {| accessToken := accessToken (auth s); refreshToken := refreshToken (auth s);
                    user := Some u; isAuthenticated := isAuthenticated (auth s);
                    isLoading := isLoading (auth s); error := error (auth s) |};
         storage := {| item_access := item_access (storage s);
                       item_refresh := item_refresh (storage s);
                       item_user := Some (user_json u) |} |}
  end.

Definition setTokens (access refresh : string) (s : AuthSystem) : AuthSystem :=
  {| auth := {| accessToken := Some access; refreshToken := Some refresh; user := user (auth s);
                isAuthenticated := isAuthenticated (auth s); isLoading := isLoading (auth s);
                error := error (auth s) |};
     storage := {| item_access := Some access; item_refresh := Some refresh;
                   item_user := item_user (storage s) |} |}.

Definition clearAuth (s : AuthSystem) : AuthSystem :=
  {| auth := {| accessToken := None; refreshToken := None; user := None;
                isAuthenticated := false; isLoading := isLoading (auth s); error := None |};
     storage := {| item_access := None; item_refresh := None; item_user := None |} |}.

Definition setLoading (loading : bool) (s : AuthSystem) : AuthSystem :=
  {| auth := {| accessToken := accessToken (auth s); refreshToken := refreshToken (auth s);
                user := user (auth s); isAuthenticated := isAuthenticated (auth s);
                isLoading := loading; error := error (auth s) |};
     storage := storage s |}.
Definition setError (e : option string) (s : AuthSystem) : AuthSystem :=
  {| auth := {| accessToken := accessToken (auth s); refreshToken := refreshToken (auth s);
                user := user (auth s); isAuthenticated := isAuthenticated (auth s);
                isLoading := false; error := e |};
     storage := storage s |}.

Inductive action :=
  | SetAuth (access refresh : string) (u : StoredUser)
  | UpdateUser (x : UserUpdates)
  | SetTokens (access refresh : string)
  | ClearAuth
  | SetLoading (b : bool)
  | SetError (e : option string)
  | ReloadPage.

Definition perform (a : action) (s : AuthSystem) : AuthSystem :=
  match a with
  | SetAuth x y u => setAuth x y u s
  | UpdateUser x => updateUser x s
  | SetTokens x y => setTokens x y s
  | ClearAuth => clearAuth s
  | SetLoading b => setLoading b s
  | SetError e => setError e s
  | ReloadPage => {| auth := loadFromStorage (storage s); storage := storage s |}
  end.

Definition scale_ok (n : number) : Prop := json_plain n ∧ Num.is_finite n = true.

(** A token is not empty, the emoji scale is a finite number, and tokens are renewed
    only in a session. *)
Definition args_ok (a : action) (s : AuthSystem) : Prop :=
  match a with
  | SetAuth x _ u => x ≠ "" ∧ scale_ok (emojiScale u)
  | UpdateUser x => match up_emojiScale x with Some n => scale_ok n | None => True end
  | SetTokens x _ => x ≠ "" ∧ isAuthenticated (auth s) = true
  | _ => True
  end.

#[export] Instance auth_store : Store AuthSystem action :=
  {| initial := {| auth := signedOut;
       storage := {| item_access := None; item_refresh := None; item_user := None |} |};
     exec := perform; admissible := args_ok |}.

Lemma read_connection_json c : read_connection (connection_json c) = c.
Proof. by destruct c. Qed.
Lemma read_user_json u : scale_ok (emojiScale u) → read_user (user_json u) = u.
Proof.
  intros [Hp Hf]. destruct u as [? ? ? ? n]. simpl in *. unfold read_user, user_json. simpl.
  unfold json_plain in Hp. rewrite Hp.
  unfold field_string; simpl. f_equal.
  rewrite <-list_fmap_compose. rewrite <-(list_fmap_id connections0) at 2.
  apply list_fmap_ext. intros i c _. apply read_connection_json.
Qed.

(** What the storage holds is what is in memory. *)
Record mirrored (s : AuthSystem) : Prop := {
  mir_access : item_access (storage s) = accessToken (auth s);
  mir_refresh : item_refresh (storage s) = refreshToken (auth s);
  mir_user : item_user (storage s) = user_json <$> user (auth s);
  mir_scale : ∀ u, user (auth s) = Some u → scale_ok (emojiScale u);
  mir_auth : isAuthenticated (auth s) = truthy (accessToken (auth s));
  mir_signed : isAuthenticated (auth s) = bool_decide (is_Some (accessToken (auth s)));
}.

Lemma mirrored_reload s : mirrored s →
  loadFromStorage (storage s) =
  {| accessToken := accessToken (auth s); refreshToken := refreshToken (auth s);
     user := user (auth s); isAuthenticated := isAuthenticated (auth s);
     isLoading := false; error := None |}.
Proof.
  intros [H1 H2 H3 H4 H5 _]. unfold loadFromStorage. rewrite H1, H2, H3, H5. f_equal.
  destruct (user (auth s)) as [u|]; [|done]. simpl. by rewrite read_user_json by by apply H4.
Qed.

Lemma truthy_Some x : x ≠ "" → truthy (Some x) = true.
Proof. intros. simpl. by rewrite bool_decide_eq_false_2. Qed.

Lemma auth_perform_mirrored a s : args_ok a s → mirrored s → mirrored (perform a s).
Proof.
  intros Ha Hs. destruct Hs as [H1 H2 H3 H4 H5 H6] eqn:E; clear E.
  destruct a as [x y u|x|x y| |b|e|]; simpl in *.
  - destruct Ha as [Hx Hu]. split; simpl; try done; [naive_solver|].
    by rewrite bool_decide_eq_false_2.
  - unfold updateUser. destruct (user (auth s)) as [u|] eqn:Eu; [|by split; rewrite ?Eu].
    split; simpl; try done. intros u' [= <-]. simpl.
    destruct (up_emojiScale x); simpl; [done|by apply H4].
  - destruct Ha as [Hx Hi]. split; simpl; try done.
    + rewrite Hi. by rewrite bool_decide_eq_false_2.
  - by split.
  - by split.
  - by split.
  - assert (Hm : mirrored s) by by split. pose proof (mirrored_reload s Hm) as Hr.
    rewrite Hr. by split.
Qed.

(** reloading the page, after any actions of the auth store, gives the same tokens,
    the same user and the same answer to whether anyone is signed in; and one is
    signed in exactly while there is an access token. *)
Theorem auth_survives_reload s :
  reachable s →
  auth (perform ReloadPage s) =
    {| accessToken := accessToken (auth s); refreshToken := refreshToken (auth s);
       user := user (auth s); isAuthenticated := isAuthenticated (auth s);
       isLoading := false; error := None |} ∧
  (isAuthenticated (auth s) = true ↔ is_Some (accessToken (auth s))).
Proof.
  intros Hs. assert (Hm : mirrored s).
  { revert s Hs. apply reachable_invariant; [|intros a s; apply auth_perform_mirrored].
    by split. }
  split; [by apply mirrored_reload|]. rewrite (mir_signed s Hm). apply bool_decide_eq_true.
Qed.

Definition demo_public : PublicUser :=
  {| pu_id := "u"; pu_username := "ada"; pu_displayName := "Ada"; pu_avatarUrl := "";
     pu_bio := ""; pu_pronouns := ""; pu_bannerUrl := ""; pu_themeColorPrimary := "";
     pu_themeColorSecondary := "" |}.

Lemma auth_survives_reload_witness :
  let s := run [SetAuth "a" "r" (publicUserToStored demo_public); SetTokens "a2" "r2"] initial in
  accessToken (auth (perform ReloadPage s)) = Some "a2" ∧
  user (auth (perform ReloadPage s)) = Some (publicUserToStored demo_public).
Proof.
  intros s.
  assert (Hs : reachable s).
  { apply reachable_run. split; [by split|]. split; [by split|exact I]. }
  rewrite (proj1 (auth_survives_reload s Hs)). split; reflexivity.
Defined.

(** ** The profile cache ([store/users.ts]) *)

Record UsersState := {
  profiles : gmap string StoredUser;
  profileFetchedAt : gmap string Z;
}.

Definition setProfile (now : Z) (userId : string) (profile : StoredUser) (s : UsersState)
    : UsersState :=
  {| profiles := <[userId := profile]> (profiles s);
     profileFetchedAt := <[userId := now]> (profileFetchedAt s) |}.

(** The spread [{...existing, ...profile}] of two complete records is the second. *)
Definition setProfiles (now : Z) (ps : list StoredUser) (s : UsersState) : UsersState :=
  {| profiles := foldl (λ m p, <[id p := p]> m) (profiles s) ps;
     profileFetchedAt := foldl (λ m p, <[id p := now]> m) (profileFetchedAt s) ps |}.

Definition getProfile (userId : string) (s : UsersState) : option StoredUser :=
  profiles s !! userId.

Definition isProfileFresh (now : Z) (userId : string) (ttlMs : Z) (s : UsersState) : bool :=
  match profileFetchedAt s !! userId with
  | Some fetchedAt => (now - fetchedAt <? ttlMs)%Z
  | None => false
  end.

Lemma fetched_lookup now (ps : list StoredUser) (m : gmap string Z) u :
  foldl (λ m p, <[id p := now]> m) m ps !! u =
    if has_key id u ps then Some now else m !! u.
Proof.
  revert m. induction ps as [|p ps IH]; intros m; simpl; [done|]. rewrite IH.
  unfold has_key. rewrite fmap_cons. destruct (decide (u = id p)) as [->|Hne].
  - rewrite (bool_decide_eq_true_2 (id p ∈ id p :: _)) by by apply elem_of_cons; left.
    case_bool_decide; [done|]. by simplify_map_eq.
  - rewrite lookup_insert_ne by done. repeat case_bool_decide; rewrite ?elem_of_cons in *; naive_solver.
Qed.

(** after a bulk answer exactly the listed profiles are those of the answer (the last
    entry, should one be listed twice), they are fresh for their whole time to live
    and no longer, and every other profile and its age is as before. *)
Theorem profiles_cached now ps u s ttl later :
  (0 ≤ later)%Z →
  getProfile u (setProfiles now ps s) =
    match find_key id u (reverse ps) with Some p => Some p | None => getProfile u s end ∧
  (has_key id u ps = true →
     (isProfileFresh (now + later) u ttl (setProfiles now ps s) = true ↔ (later < ttl)%Z)) ∧
  (has_key id u ps = false →
     isProfileFresh (now + later) u ttl (setProfiles now ps s) =
       isProfileFresh (now + later) u ttl s).
Proof.
  intros Hl. split; [apply build_index_lookup_gen|]. unfold isProfileFresh. simpl.
  rewrite fetched_lookup. split; intros Hk; rewrite Hk; [|done]. rewrite Z.ltb_lt. lia.
Qed.

Lemma profiles_cached_witness :
  let s := {| profiles := ∅; profileFetchedAt := ∅ |} in
  let u := publicUserToStored demo_public in
  getProfile "u" (setProfiles 7 [u] s) = Some u ∧
  (isProfileFresh (7 + 5) "u" 5 (setProfiles 7 [u] s) = true ↔ (5 < 5)%Z).
Proof.
  destruct (profiles_cached 7 [publicUserToStored demo_public] "u"
    {| profiles := ∅; profileFetchedAt := ∅ |} 5 5) as (H1 & H2 & _); [lia|].
  split; [exact H1|exact (H2 eq_refl)].
Defined.

(** a bulk answer made of public profiles replaces the private fields of a cached
    profile (here its connections and creation date) by the defaults, although the
    spread over the existing profile is meant to keep richer data. *)
Theorem bulk_profiles_lose_private_fields now (pu : PublicUser) s :
  ∃ p, getProfile (pu_id pu) (setProfiles now [publicUserToStored pu] s) = Some p ∧
    connections p = [] ∧ createdAt p = "" ∧ dmPrivacy p = "".
Proof.
  exists (publicUserToStored pu). split; [|done]. unfold getProfile. simpl.
  by rewrite lookup_insert_eq.
Qed.
