(* ===== verification/DecryptStore.v ===== *)
(** * Decryption into the message store ([crypto/decrypt-store.ts])

    Three parts of the client decrypt the same messages on their own: the gateway as a
    message arrives, the channel view for what it fetched, and the channel view again
    when keys become available.  Each one decrypts, which takes time in which other
    actions of the store run, then reads the message from the store again and writes
    the plaintext unless another one already has. *)

From S2P Require Export E2ee Messages.

Open Scope meza_scope.

(** A job of a batch: a message id with the parsed plaintext, or [None] if decryption
    failed. *)
Notation job := (string * option ParsedMessageContent)%type.

(** ** The plaintext of a stored message *)

Section plaintext.
(** The string a JSON value that is not a string is converted to *)
Context (to_string : json → string).

(** [new TextEncoder().encode(parsed.text)] *)
Definition encode_text (t : option json) : bytes :=
  match t with
  | None => []
  | Some (JStr s) => utf8 s
  | Some j => utf8 (to_string j)
  end.

(** [meta.k || fallback] *)
Definition meta_field (k : string) (meta : json) (fallback : string) : string :=
  let v := json_get k (Some meta) in
  if json_truthy v then
    match v with Some (JStr s) => s | Some j => to_string j | None => fallback end
  else fallback.

Definition enrich (attachmentMeta : option json) (att : Attachment) : Attachment :=
  match json_get (at_id att) attachmentMeta with
  | Some meta =>
      if json_truthy (Some meta) then
        {| at_id := at_id att; at_filename := meta_field "fn" meta (at_filename att);
           at_contentType := meta_field "ct" meta (at_contentType att);
           at_sizeBytes := at_sizeBytes att; at_url := at_url att;
           at_encryptedKey := at_encryptedKey att; at_width := at_width att;
           at_height := at_height att; at_hasThumbnail := at_hasThumbnail att;
           at_microThumbnail := at_microThumbnail att; at_isSpoiler := at_isSpoiler att |}
      else att
  | None => att
  end.

Definition plain_message (parsed : ParsedMessageContent) (stored : Message) : Message :=
  m_set_decrypted (encode_text (text parsed))
    (if json_truthy (attachmentMeta parsed) && negb (bool_decide (m_attachments stored = []))
     then enrich (attachmentMeta parsed) <$> m_attachments stored
     else m_attachments stored) stored.

(** The part of [decryptMessageInPlace] after its last [await]: read the message again,
    and give up if it is gone or already decrypted. *)
Definition finish (channelId id : string) (parsed : ParsedMessageContent) (s : MessageState)
    : option Message :=
  match indexed channelId id s with
  | None => None
  | Some stored => if (m_keyVersion stored =? 0)%Z then None else Some (plain_message parsed stored)
  end.

(** [finish] and the write of [decryptAndUpdateMessage] *)
Definition finish_single (channelId : string) (job : string * ParsedMessageContent)
    (s : MessageState) : MessageState :=
  match finish channelId job.1 job.2 s with
  | Some m => updateMessage channelId m s
  | None => s
  end.

(** *** The batch: results are read one by one and written together

    [Promise.allSettled] lets the decryptions of a batch end in any order, with other
    actions of the store in between. *)

Inductive batch_event :=
  | Settles (i : nat)
  | Meanwhile (a : action).

Definition batch_step (channelId : string) (jobs : list job)
    (st : MessageState * gmap nat Message) (ev : batch_event) : MessageState * gmap nat Message :=
  let '(s, settled) := st in
  match ev with
  | Meanwhile a => (perform a s, settled)
  | Settles i =>
      match jobs !! i with
      | Some (id, Some parsed) =>
          match finish channelId id parsed s with
          | Some m => (s, <[i := m]> settled)
          | None => (s, settled)
          end
      | _ => (s, settled)
      end
  end.

(** The results in the order of the batch, and the one write *)
Definition finish_batch (channelId : string)
    (jobs : list job) (events : list batch_event)
    (s : MessageState) : nat * MessageState :=
  let '(s, settled) := foldl (batch_step channelId jobs) (s, ∅) events in
  let results := omap (λ i, settled !! i) (seq 0 (length jobs)) in
  (length results, if decide (results = []) then s else bulkUpdateMessages channelId results s).

(** ** The store after an update *)

Lemma update_indexed c k m s :
  consistent s →
  indexed c k (updateMessage c m s) =
    if decide (k = m_id m) then (λ _, m) <$> indexed c k s else indexed c k s.
Proof.
  intros Hs. rewrite !consistent_indexed by eauto using update_consistent.
  unfold updateMessage. destruct (byChannel s !! c) as [ms|] eqn:Hc; simpl.
  - destruct (index_key m_id (m_id m) ms) as [i|] eqn:Hi; simpl.
    + rewrite lookup_insert_eq. simpl. rewrite (insert_key_alter _ _ _ _ Hi).
      rewrite find_key_replace by done. case_decide; [subst|done].
      unfold has_key. case_bool_decide as Hk.
      * destruct (find_key m_id (m_id m) ms) eqn:E; [done|]. by apply find_key_None in E.
      * apply find_key_None in Hk. by rewrite Hk.
    + rewrite Hc. simpl. case_decide; [subst|done].
      apply index_key_None, find_key_None in Hi. by rewrite Hi.
  - rewrite Hc. by case_decide.
Qed.

Lemma bulk_indexed c k us s :
  consistent s →
  indexed c k (bulkUpdateMessages c us s) =
    (λ m, or_default m (buildByIdIndex us !! k)) <$> indexed c k s.
Proof.
  intros Hs. rewrite !consistent_indexed by eauto using bulk_consistent.
  unfold bulkUpdateMessages. destruct (byChannel s !! c) as [ms|] eqn:Hc; simpl.
  - rewrite lookup_insert_eq. simpl. apply bulk_find.
    intros k' u ?%index_keys. tauto.
  - by rewrite Hc.
Qed.

(** Two lists with the same distinct keys in the same order and the same answers. *)
Lemma list_by_keys {A} (key : A → string) (l l' : list A) :
  NoDup (key <$> l) → key <$> l = key <$> l' →
  (∀ k, find_key key k l = find_key key k l') → l = l'.
Proof.
  revert l'. induction l as [|x l IH]; intros [|y l'] Hnd Hk Hf; try done.
  rewrite !fmap_cons in *. apply NoDup_cons in Hnd as [Hx Hnd]. injection Hk as Hxy Hk.
  pose proof (Hf (key x)) as Hx'. rewrite !find_key_cons, <-Hxy, !decide_True in Hx' by done.
  injection Hx' as <-. f_equal. apply IH; [done..|]. intros k.
  destruct (decide (k = key x)) as [->|Hne].
  - rewrite (proj2 (find_key_None key (key x) l)) by done.
    symmetry. apply find_key_None. by rewrite <-Hk.
  - specialize (Hf k). by rewrite !find_key_cons, !decide_False in Hf by auto.
Qed.

(** The fields that updates do not touch, and what determines the rest *)
Definition others (s : MessageState) :=
  (hasMore s, isLoading s, error s, viewMode s, pendingMessages s, replyingTo s).

Lemma state_by_lookup c s s' :
  consistent s → consistent s' → others s = others s' →
  (∀ c', c' ≠ c → byChannel s !! c' = byChannel s' !! c') →
  fmap m_id <$> byChannel s !! c = fmap m_id <$> byChannel s' !! c →
  (∀ k, indexed c k s = indexed c k s') → s = s'.
Proof.
  intros Hs Hs' Ho Hne Hkeys Hix.
  assert (Hc : byChannel s = byChannel s').
  { apply map_eq. intros c'. destruct (decide (c' = c)) as [->|]; [|by apply Hne].
    destruct (byChannel s !! c) as [l|] eqn:E, (byChannel s' !! c) as [l'|] eqn:E'; try done.
    f_equal. injection Hkeys as Hkeys. apply (list_by_keys m_id); [|done|].
    - by apply (consistent_loaded c s).
    - intros k. specialize (Hix k). rewrite !consistent_indexed, E, E' in Hix by done. done. }
  assert (Hi : byId s = byId s').
  { apply map_eq. intros c'. pose proof (Hs c') as H1. pose proof (Hs' c') as H2.
    rewrite <-Hc in H2. destruct (byChannel s !! c'), (byId s !! c'), (byId s' !! c');
      simpl in *; try done. destruct H1 as [_ ->], H2 as [_ ->]. done. }
  destruct s, s'. unfold others in Ho. simpl in *. by simplify_eq.
Qed.

(** *** One at a time *)

Definition finish_job (c : string) (s : MessageState) (j : job) : option Message :=
  match j.2 with Some parsed => finish c j.1 parsed s | None => None end.
Definition one_by_one (c : string) (jobs : list job) (s : MessageState) : MessageState :=
  foldl (λ s j, match j.2 with Some p => finish_single c (j.1, p) s | None => s end) s jobs.

Lemma finish_job_id c s j m : consistent s → finish_job c s j = Some m → m_id m = j.1.
Proof.
  intros Hs. unfold finish_job, finish. destruct (j.2); [|done].
  rewrite consistent_indexed by done. destruct (byChannel s !! c); [|done]. simpl.
  destruct (find_key m_id (j.1) l) eqn:E; [|done]. apply find_key_Some_inv in E as [_ E].
  by case_match; intros; simplify_eq.
Qed.
Lemma finish_job_local c s s' j :
  indexed c j.1 s = indexed c j.1 s' → finish_job c s j = finish_job c s' j.
Proof. intros E. unfold finish_job, finish. by rewrite E. Qed.
Lemma finish_job_present c s j : is_Some (finish_job c s j) → is_Some (indexed c j.1 s).
Proof.
  unfold finish_job, finish. destruct (j.2); [|by intros []].
  destruct (indexed c j.1 s); [done|by intros []].
Qed.

(** What a job leaves at an id *)
Definition after_job (c : string) (s : MessageState) (k : string) (j : option job)
    : option Message :=
  match j ≫= finish_job c s with Some m => Some m | None => indexed c k s end.

Lemma one_by_one_cons c j jobs s :
  one_by_one c (j :: jobs) s =
    one_by_one c jobs (match finish_job c s j with
      | Some m => updateMessage c m s | None => s end).
Proof.
  unfold one_by_one, finish_job, finish_single. simpl. f_equal. by destruct (j.2).
Qed.
Lemma step_consistent c s j :
  consistent s →
  consistent (match finish_job c s j with Some m => updateMessage c m s | None => s end).
Proof. intros. case_match; [|done]. by apply update_consistent. Qed.

Lemma one_by_one_consistent c jobs s : consistent s → consistent (one_by_one c jobs s).
Proof.
  revert s. induction jobs as [|j jobs IH]; intros s Hs; [done|].
  rewrite one_by_one_cons. by apply IH, step_consistent.
Qed.

Lemma step_indexed c s j k :
  consistent s →
  indexed c k (match finish_job c s j with Some m => updateMessage c m s | None => s end) =
    if decide (j.1 = k) then after_job c s k (Some j) else indexed c k s.
Proof.
  intros Hs. unfold after_job. simpl. destruct (finish_job c s j) as [m|] eqn:E.
  - rewrite update_indexed, (finish_job_id c s j m Hs E) by done.
    repeat case_decide; try congruence. subst.
    destruct (finish_job_present c s j) as [x ->]; [by eexists|done].
  - by case_decide.
Qed.

Lemma one_by_one_indexed c jobs s k :
  consistent s → NoDup (jobs.*1) →
  indexed c k (one_by_one c jobs s) = after_job c s k (find_key fst k jobs).
Proof.
  revert s. induction jobs as [|j jobs IH]; intros s Hs Hnd; [done|].
  rewrite fmap_cons, NoDup_cons in Hnd. destruct Hnd as [Hj Hnd].
  rewrite one_by_one_cons, IH by eauto using step_consistent.
  rewrite find_key_cons. unfold after_job at 1. rewrite step_indexed by done.
  case_decide as Hk.
  - subst k. by rewrite (proj2 (find_key_None fst (j.1) jobs)) by done.
  - unfold after_job. destruct (find_key fst k jobs) as [j'|] eqn:E; [|done]. simpl.
    apply find_key_Some_inv in E as [_ <-].
    rewrite (finish_job_local c _ s j'); [done|]. rewrite step_indexed by done.
    by rewrite decide_False.
Qed.

(** *** The batch *)

Lemma batch_settled c jobs s order settled i :
  foldl (batch_step c jobs) (s, settled) (Settles <$> order) =
    (s, (foldl (batch_step c jobs) (s, settled) (Settles <$> order)).2) ∧
  (foldl (batch_step c jobs) (s, settled) (Settles <$> order)).2 !! i =
    if decide (i ∈ order) then
      match jobs !! i ≫= finish_job c s with Some m => Some m | None => settled !! i end
    else settled !! i.
Proof.
  revert settled. induction order as [|o order IH]; intros settled;
    [split; [done|]; rewrite decide_False by set_solver; done|].
  rewrite fmap_cons. cbn [foldl].
  assert (Hstep : ∃ settled', batch_step c jobs (s, settled) (Settles o) = (s, settled') ∧
    settled' !! i = if decide (i = o) then
        match jobs !! i ≫= finish_job c s with Some m => Some m | None => settled !! i end
      else settled !! i).
  { unfold batch_step, finish_job.
    assert (Hother : ∀ m, jobs !! o ≫= finish_job c s = Some m →
      <[o := m]> settled !! i = if decide (i = o) then
        match jobs !! i ≫= finish_job c s with Some m => Some m | None => settled !! i end
      else settled !! i).
    { intros m Hm. destruct (decide (i = o)) as [->|]; [by rewrite Hm, lookup_insert_eq|].
      by rewrite lookup_insert_ne. }
    assert (Hnone : jobs !! o ≫= finish_job c s = None →
      settled !! i = if decide (i = o) then
        match jobs !! i ≫= finish_job c s with Some m => Some m | None => settled !! i end
      else settled !! i).
    { intros Hm. destruct (decide (i = o)) as [->|]; [by rewrite Hm|done]. }
    unfold finish_job in Hother, Hnone.
    destruct (jobs !! o) as [[id [p|]]|]; simpl in *; [|by eauto..].
    destruct (finish c id p s); eauto. }
  destruct Hstep as (settled' & -> & Hi). destruct (IH settled') as [IH1 IH2].
  split; [exact IH1|]. rewrite IH2, Hi.
  repeat case_decide; rewrite ?elem_of_cons in *; try tauto.
  destruct (jobs !! i ≫= finish_job c s); done.
Qed.

Lemma omap_seq {A B} (f : A → option B) (l : list A) :
  omap (λ i, l !! i ≫= f) (seq 0 (length l)) = omap f l.
Proof.
  assert (Hgen : ∀ pre, omap (λ i, (pre ++ l) !! i ≫= f) (seq (length pre) (length l)) = omap f l).
  { induction l as [|x l IH]; intros pre; [done|]. cbn [length seq omap list_omap].
    rewrite list_lookup_middle by done. simpl.
    specialize (IH (pre ++ [x])). rewrite <-app_assoc, length_app in IH. simpl in IH.
    rewrite Nat.add_1_r in IH. by rewrite <-IH. }
  apply (Hgen []).
Qed.

Lemma omap_ext_in {A B} (f g : A → option B) (l : list A) :
  (∀ x, x ∈ l → f x = g x) → omap f l = omap g l.
Proof.
  induction l as [|x l IH]; intros Hfg; [done|]. cbn [omap list_omap].
  rewrite (Hfg x) by set_solver. rewrite IH by set_solver. done.
Qed.

Lemma finish_batch_results c jobs order s :
  order ≡ₚ seq 0 (length jobs) →
  finish_batch c jobs (Settles <$> order) s =
    let results := omap (finish_job c s) jobs in
    (length results, if decide (results = []) then s else bulkUpdateMessages c results s).
Proof.
  intros Ho. unfold finish_batch.
  destruct (batch_settled c jobs s order ∅ 0) as [-> _].
  set (settled := (foldl _ _ _).2).
  assert (E : omap (λ i, settled !! i) (seq 0 (length jobs)) = omap (finish_job c s) jobs).
  { rewrite <-(omap_seq (finish_job c s) jobs). apply omap_ext_in. intros i Hi. unfold settled.
    destruct (batch_settled c jobs s order ∅ i) as [_ ->].
    rewrite decide_True by by rewrite Ho. rewrite lookup_empty.
    destruct (jobs !! i) as [j|]; simpl; [|done]. by destruct (finish_job c s j). }
  by rewrite E.
Qed.

Lemma results_index c jobs s k :
  consistent s → NoDup (jobs.*1) →
  buildByIdIndex (omap (finish_job c s) jobs) !! k = find_key fst k jobs ≫= finish_job c s.
Proof.
  intros Hs Hnd.
  assert (Hids : NoDup (m_id <$> omap (finish_job c s) jobs) ∧
    (∀ k, find_key m_id k (omap (finish_job c s) jobs) =
       find_key fst k jobs ≫= finish_job c s)).
  { induction jobs as [|j jobs IH]; [split; [constructor|done]|].
    rewrite fmap_cons, NoDup_cons in Hnd. destruct Hnd as [Hj Hnd].
    destruct (IH Hnd) as [IH1 IH2]. cbn [omap list_omap].
    assert (Hnone : find_key m_id (j.1) (omap (finish_job c s) jobs) = None).
    { change (@omap list _) with (@list_omap) in IH2.
      rewrite IH2, (proj2 (find_key_None fst (j.1) jobs)) by done. done. }
    destruct (finish_job c s j) as [m|] eqn:E.
    - pose proof (finish_job_id c s j m Hs E) as Hm. split.
      + rewrite fmap_cons, NoDup_cons, Hm. split; [|done]. by apply find_key_None.
      + intros k'. rewrite !find_key_cons, Hm. case_decide; [by subst|]. apply IH2.
    - split; [done|]. intros k'. rewrite find_key_cons. case_decide as Hk; [|apply IH2].
      subst k'. simpl. rewrite E. exact Hnone. }
  destruct Hids as [Hn Hf]. rewrite index_lookup by done. apply Hf.
Qed.

Lemma one_by_one_frame c jobs s :
  others (one_by_one c jobs s) = others s ∧
  (∀ c', c' ≠ c → byChannel (one_by_one c jobs s) !! c' = byChannel s !! c') ∧
  fmap m_id <$> byChannel (one_by_one c jobs s) !! c = fmap m_id <$> byChannel s !! c.
Proof.
  revert s. induction jobs as [|j jobs IH]; intros s; [done|]. rewrite one_by_one_cons.
  destruct (IH (match finish_job c s j with Some m => updateMessage c m s | None => s end))
    as (-> & IH2 & ->).
  assert (Hup : ∀ m, others (updateMessage c m s) = others s ∧
    (∀ c', c' ≠ c → byChannel (updateMessage c m s) !! c' = byChannel s !! c') ∧
    fmap m_id <$> byChannel (updateMessage c m s) !! c = fmap m_id <$> byChannel s !! c).
  { intros m. unfold updateMessage. destruct (byChannel s !! c) as [ms|] eqn:Hc; [|by rewrite Hc].
    destruct (index_key _ _ _) as [i|] eqn:Hi; [|by rewrite Hc]. split; [done|]. split.
    - intros c' Hne. simpl. by rewrite lookup_insert_ne.
    - simpl. rewrite lookup_insert_eq, (insert_key_alter _ _ _ _ Hi). simpl.
      by rewrite replace_key_keys. }
  destruct (finish_job c s j) as [m|]; [|done]. destruct (Hup m) as (-> & Hf & ->).
  split; [done|]. split; [|done]. intros c' Hne. by rewrite IH2, Hf.
Qed.
Lemma bulk_frame c us s :
  others (bulkUpdateMessages c us s) = others s ∧
  (∀ c', c' ≠ c → byChannel (bulkUpdateMessages c us s) !! c' = byChannel s !! c') ∧
  fmap m_id <$> byChannel (bulkUpdateMessages c us s) !! c = fmap m_id <$> byChannel s !! c.
Proof.
  unfold bulkUpdateMessages. destruct (byChannel s !! c) as [ms|] eqn:Hc; [|by rewrite Hc].
  split; [done|]. split.
  - intros c' Hne. simpl. by rewrite lookup_insert_ne.
  - simpl. rewrite lookup_insert_eq. simpl. f_equal. apply bulk_keys.
    intros k u ?%index_keys. tauto.
Qed.

Lemma bulk_nil c s : consistent s → bulkUpdateMessages c [] s = s.
Proof.
  intros Hs. destruct (bulk_frame c [] s) as (B1 & B2 & B3).
  apply (state_by_lookup c); try done; [by apply bulk_consistent|].
  intros k. rewrite bulk_indexed by done. by destruct (indexed c k s).
Qed.

(** C20: decrypting a batch and writing it at once ends, whatever the order in which the
    decryptions end, in exactly the state that decrypting its messages one by one does,
    and reports how many it wrote. *)
Theorem batch_equals_singles c jobs order s :
  consistent s → NoDup (jobs.*1) → order ≡ₚ seq 0 (length jobs) →
  finish_batch c jobs (Settles <$> order) s =
    (length (omap (finish_job c s) jobs), one_by_one c jobs s).
Proof.
  intros Hs Hnd Ho. rewrite finish_batch_results by done. cbv zeta. f_equal.
  set (results := omap (finish_job c s) jobs).
  assert (Heq : bulkUpdateMessages c results s = one_by_one c jobs s).
  { destruct (one_by_one_frame c jobs s) as (H1 & H2 & H3).
    destruct (bulk_frame c results s) as (B1 & B2 & B3).
    apply (state_by_lookup c); [by apply bulk_consistent|by apply one_by_one_consistent|
      congruence|intros; by rewrite B2, H2|congruence|].
    intros k. rewrite bulk_indexed, one_by_one_indexed by done. unfold results.
    rewrite results_index by done. unfold after_job.
    destruct (find_key fst k jobs) as [j|] eqn:E; simpl; [|by destruct (indexed c k s)].
    apply find_key_Some_inv in E as [_ <-].
    destruct (finish_job c s j) as [m|] eqn:Ef; [|by destruct (indexed c _ s)].
    destruct (finish_job_present c s j) as [x ->]; [by eexists|]. done. }
  case_decide as Hr; [|done]. rewrite <-Heq, Hr. symmetry. by apply bulk_nil.
Qed.
End plaintext.

(** ** Two paths, one message *)

Section races.
Context (to_string : json → string).

(** whichever path finishes first wins: a message that is gone or already decrypted
    is left alone; otherwise its content becomes the plaintext with key version zero,
    every other message stays as it is, and any other path that finishes the same
    message afterwards, with whatever it decrypted, changes nothing. *)
Theorem decrypt_once c id parsed s :
  consistent s →
  match indexed c id s with
  | Some stored =>
      if decide (m_keyVersion stored = 0%Z) then finish_single to_string c (id, parsed) s = s
      else
        let s' := finish_single to_string c (id, parsed) s in
        indexed c id s' = Some (plain_message to_string parsed stored) ∧
        (∀ k, k ≠ id → indexed c k s' = indexed c k s) ∧
        (∀ parsed', finish_single to_string c (id, parsed') s' = s')
  | None => finish_single to_string c (id, parsed) s = s
  end.
Proof.
  intros Hs.
  pose proof (step_indexed to_string c s (id, Some parsed)) as Hstep.
  unfold finish_job in Hstep. cbn [fst snd] in Hstep.
  destruct (indexed c id s) as [stored|] eqn:E.
  - case_decide as Hv.
    + unfold finish_single, finish. simpl. by rewrite E, Hv.
    + cbv zeta.
      assert (Hf : finish to_string c id parsed s = Some (plain_message to_string parsed stored)).
      { unfold finish. rewrite E. by rewrite (proj2 (Z.eqb_neq _ _)). }
      assert (Hi : indexed c id (finish_single to_string c (id, parsed) s) =
        Some (plain_message to_string parsed stored)).
      { unfold finish_single. cbn [fst snd]. rewrite Hstep by done.
        rewrite decide_True by done. unfold after_job, finish_job. simpl. by rewrite Hf. }
      split; [exact Hi|]. split.
      * intros k Hk. unfold finish_single. cbn [fst snd]. rewrite Hstep by done.
        by rewrite decide_False.
      * intros parsed'. unfold finish_single at 1, finish at 1. cbn [fst snd].
        by rewrite Hi.
  - unfold finish_single, finish. simpl. by rewrite E.
Qed.

(** The text a reader sees of a message *)
Definition shown_text (c id : string) (s : MessageState) : option (bytes * Z) :=
  (λ m, (m_encryptedContent m, m_keyVersion m)) <$> indexed c id s.

(** a decryption that was started before an edit arrived, and ends after it, wins over
    the decryption of the edit: the message is shown with its old text as decrypted,
    and the new text is never shown.  The guard cannot tell the two apart, since it
    looks at the key version only. *)
Theorem stale_decryption_wins c edited old new s :
  consistent s → indexed c (m_id edited) s ≠ None → (0 < m_keyVersion edited)%Z →
  let s1 := updateMessage c edited s in
  let s2 := finish_single to_string c (m_id edited, old) s1 in
  let s3 := finish_single to_string c (m_id edited, new) s2 in
  shown_text c (m_id edited) s3 = Some (encode_text to_string (text old), 0%Z).
Proof.
  intros Hs Hin Hv. cbv zeta. set (s1 := updateMessage c edited s).
  assert (Hi : indexed c (m_id edited) s1 = Some edited).
  { unfold s1. rewrite update_indexed, decide_True by done.
    by destruct (indexed c (m_id edited) s). }
  assert (Hs1 : consistent s1) by by apply update_consistent.
  assert (Hf : finish to_string c (m_id edited) old s1 = Some (plain_message to_string old edited)).
  { unfold finish. rewrite Hi, (proj2 (Z.eqb_neq _ _)) by lia. done. }
  assert (Hi2 : indexed c (m_id edited) (finish_single to_string c (m_id edited, old) s1) =
    Some (plain_message to_string old edited)).
  { unfold finish_single. cbn [fst snd]. rewrite Hf, update_indexed by done.
    rewrite decide_True by done. by rewrite Hi. }
  unfold shown_text, finish_single at 1, finish at 1. cbn [fst snd]. rewrite Hi2. simpl.
  by rewrite Hi2.
Qed.
End races.

(** ** The whole way: from the sender's text to the receiver's screen *)

Section delivery.
Context `{Crypto}.
Context (getKeyEnvelopes : nat → string → result string (list (Z * bytes))).
Context (stringify : json → string) (parse : string → result unit json).
Context (btoa : bytes → string) (to_string : json → string).

(** [decryptMessage] and [parseMessageContent] *)
Definition open_message (c : string) (msg : Message) (senderPublicKey : bytes)
    (cs : CryptoState) : result string ParsedMessageContent * CryptoState :=
  let '(r, cs) := decryptMessage getKeyEnvelopes c (m_keyVersion msg) (m_encryptedContent msg)
                    senderPublicKey cs in
  (let! plaintext := r in
   match parseMessageContent parse plaintext with
   | Ok parsed => Ok parsed
   | Throw _ => Throw "SyntaxError"
   end, cs).

(** [during] are the actions of the store that run while the decryption is awaited. *)
Definition decryptAndUpdateMessage (c : string) (msg : Message) (senderPublicKey : bytes)
    (during : list action) (cs : CryptoState) (s : MessageState)
    : result string bool * CryptoState * MessageState :=
  let '(r, cs) := open_message c msg senderPublicKey cs in
  let s := run during s in
  match r with
  | Throw e => (Throw e, cs, s)
  | Ok parsed =>
      match finish to_string c (m_id msg) parsed s with
      | None => (Ok false, cs, s)
      | Some m => (Ok true, cs, updateMessage c m s)
      end
  end.

(** The decryptions of a batch, for the messages whose author's key is known *)
Fixpoint open_all (c : string) (msgs : list Message) (pubKeys : gmap string bytes)
    (cs : CryptoState) : list job * CryptoState :=
  match msgs with
  | [] => ([], cs)
  | msg :: msgs =>
      match pubKeys !! m_authorId msg with
      | None => open_all c msgs pubKeys cs
      | Some pk =>
          let '(r, cs) := open_message c msg pk cs in
          let '(jobs, cs) := open_all c msgs pubKeys cs in
          ((m_id msg, result_opt r) :: jobs, cs)
      end
  end.

Definition decryptAndUpdateMessages (c : string) (msgs : list Message)
    (pubKeys : gmap string bytes) (events : list batch_event) (cs : CryptoState)
    (s : MessageState) : nat * CryptoState * MessageState :=
  let '(jobs, cs) := open_all c msgs pubKeys cs in
  let '(n, s) := finish_batch to_string c jobs events s in
  (n, cs, s).

Context `{!CryptoLaws}.
Context (K : bytes → Prop) (HK : keys_ok K).

(** The store after the write of [finish] *)
Lemma written_shows c id parsed s stored txt :
  text parsed = Some (JStr txt) → consistent s → indexed c id s = Some stored →
  m_keyVersion stored ≠ 0%Z →
  finish to_string c id parsed s = Some (plain_message to_string parsed stored) ∧
  shown_text c id (updateMessage c (plain_message to_string parsed stored) s) =
    Some (utf8 txt, 0%Z).
Proof.
  intros Ht Hcons Hst Hv. split.
  { unfold finish. rewrite Hst. by rewrite (proj2 (Z.eqb_neq _ _)). }
  unfold shown_text. rewrite update_indexed by done.
  assert (Hid' : m_id (plain_message to_string parsed stored) = id).
  { simpl. pose proof (consistent_indexed c s id Hcons) as E.
    rewrite Hst in E. destruct (byChannel _ !! c); [|done]. simpl in E.
    symmetry in E. by apply find_key_Some_inv in E as [_ E]. }
  rewrite decide_True by done. rewrite Hst. simpl. by rewrite Ht.
Qed.

(** What one member of a channel encrypts as a text, another one opens as that text. *)
Lemma sent_opens alice bob c v k nonce id txt msg e :
  identity alice = Some id → publicKey id = ed_public (secretKey id) →
  getLatestKeyVersion c (keys alice) = Some v →
  holds_key K alice c v k → holds_key K bob c v k → length nonce = 12 →
  parse (stringify (content_json btoa txt [])) = Ok (content_json btoa txt []) →
  (encryptMessage getKeyEnvelopes nonce c (buildMessageContent stringify btoa txt []) alice).1 =
    Ok e →
  m_keyVersion msg = keyVersion e → m_encryptedContent msg = data e →
  ∃ cs, open_message c msg (publicKey id) bob =
    (Ok {| text := Some (JStr txt); attachmentMeta := None |}, cs).
Proof.
  intros Hid Hpk Hl Ha Hb Hn Hjson Henc Hkv Hdata. unfold open_message. rewrite Hkv, Hdata.
  destruct (encrypted_opens getKeyEnvelopes K HK alice bob c v k nonce
    (buildMessageContent stringify btoa txt []) id e) as [Hdec _]; [done..|].
  destruct (decryptMessage _ c (keyVersion e) (data e) (publicKey id) bob) as [r cs].
  cbn [fst] in Hdec. subst r. exists cs. cbn [result_bind]. unfold parseMessageContent, buildMessageContent.
  rewrite decide_True by done. by rewrite from_utf8_utf8, Hjson.
Qed.

(** C2: end to end: a text that one member of a channel encrypts is the text another
    member's store shows for the message, marked as decrypted, provided that member
    holds the same key version and the message is still in their store, encrypted,
    when the decryption ends. *)
Theorem delivery alice bob c v k nonce id txt msg e during s stored :
  identity alice = Some id → publicKey id = ed_public (secretKey id) →
  getLatestKeyVersion c (keys alice) = Some v →
  holds_key K alice c v k → holds_key K bob c v k → length nonce = 12 →
  parse (stringify (content_json btoa txt [])) = Ok (content_json btoa txt []) →
  (encryptMessage getKeyEnvelopes nonce c (buildMessageContent stringify btoa txt []) alice).1 = Ok e →
  m_keyVersion msg = keyVersion e → m_encryptedContent msg = data e →
  consistent (run during s) → indexed c (m_id msg) (run during s) = Some stored →
  m_keyVersion stored ≠ 0%Z →
  (∃ cs, decryptAndUpdateMessage c msg (publicKey id) during bob s =
     (Ok true, cs, finish_single to_string c
        (m_id msg, {| text := Some (JStr txt); attachmentMeta := None |}) (run during s))) ∧
  shown_text c (m_id msg) (decryptAndUpdateMessage c msg (publicKey id) during bob s).2 =
    Some (utf8 txt, 0%Z).
Proof.
  intros Hid Hpk Hl Ha Hb Hn Hjson Henc Hkv Hdata Hcons Hst Hv.
  destruct (sent_opens alice bob c v k nonce id txt msg e) as [cs Hopen]; [done..|].
  unfold decryptAndUpdateMessage. rewrite Hopen.
  set (p := {| text := Some (JStr txt); attachmentMeta := None |}) in *.
  destruct (written_shows c (m_id msg) p (run during s) stored txt) as [Hf Hw]; [done..|].
  rewrite Hf. split; [|exact Hw]. exists cs. unfold finish_single. cbn [fst snd]. by rewrite Hf.
Qed.
End delivery.

(** ** Concrete inputs *)

#[local] Existing Instance toy.
#[local] Existing Instance toy_laws.

Definition encrypted_message (id : string) (content : bytes) (v : Z) : Message :=
  {| m_id := id; m_channelId := demo_channel; m_authorId := "alice";
     m_encryptedContent := content; m_attachments := []; m_createdAt := None;
     m_editedAt := None; m_replyToId := None; m_embeds := []; m_mentionedUserIds := [];
     m_mentionEveryone := false; m_mentionedRoleIds := []; m_keyVersion := v; m_type := 0 |}.
Definition plain_text (t : string) : ParsedMessageContent :=
  {| text := Some (JStr t); attachmentMeta := None |}.
Definition inbox : MessageState :=
  run [AddMessage demo_channel (encrypted_message "m1" [9]%Z 7);
       AddMessage demo_channel (encrypted_message "m2" [8]%Z 7)] initial.

Lemma inbox_consistent : consistent inbox.
Proof. apply reachable_consistent, reachable_run. by split. Qed.

Lemma batch_equals_singles_witness :
  let jobs := [("m1", Some (plain_text "hi")); ("m2", None); ("m3", Some (plain_text "?"))] in
  finish_batch (λ _, "") demo_channel jobs (Settles <$> [2; 0; 1]) inbox =
    (1, one_by_one (λ _, "") demo_channel jobs inbox) ∧
  shown_text demo_channel "m1" (one_by_one (λ _, "") demo_channel jobs inbox) =
    Some (utf8 "hi", 0%Z).
Proof.
  intros jobs. split; [|reflexivity].
  apply (batch_equals_singles (λ _, "") demo_channel jobs [2; 0; 1] inbox inbox_consistent).
  - apply (bool_decide_unpack _). reflexivity.
  - apply (Permutation_cons_app [0; 1] []). by simpl.
Defined.

Lemma decrypt_once_witness :
  shown_text demo_channel "m1"
    (finish_single (λ _, "") demo_channel ("m1", plain_text "other")
      (finish_single (λ _, "") demo_channel ("m1", plain_text "hi") inbox)) =
    Some (utf8 "hi", 0%Z).
Proof.
  pose proof (decrypt_once (λ _, "") demo_channel "m1" (plain_text "hi") inbox inbox_consistent)
    as (_ & _ & H).
  rewrite (H (plain_text "other")). reflexivity.
Defined.

Lemma stale_decryption_wins_witness :
  shown_text demo_channel "m1"
    (finish_single (λ _, "") demo_channel ("m1", plain_text "new")
      (finish_single (λ _, "") demo_channel ("m1", plain_text "old")
        (updateMessage demo_channel (encrypted_message "m1" [5]%Z 7) inbox))) =
    Some (utf8 "old", 0%Z).
Proof.
  apply (stale_decryption_wins (λ _, "") demo_channel (encrypted_message "m1" [5]%Z 7)
    (plain_text "old") (plain_text "new") inbox inbox_consistent); done.
Defined.

(** What the sender's client sends for the text "hi" *)
Definition sent : result string EncryptedMessage :=
  (encryptMessage no_server demo_nonce demo_channel
    (buildMessageContent (λ _, "json") (λ _, "") "hi" []) demo_member).1.
Definition hi_json (s : string) : result unit json := Ok (JObj [("t", JStr "hi")]).

Lemma delivery_witness :
  ∃ e msg, sent = Ok e ∧
    shown_text demo_channel "m1"
      (decryptAndUpdateMessage no_server hi_json (λ _, "") demo_channel msg
        (publicKey demo_identity) [AddMessage demo_channel msg] demo_member initial).2 =
      Some (utf8 "hi", 0%Z).
Proof.
  destruct sent as [e|] eqn:E; [|exfalso; vm_compute in E; discriminate].
  exists e, (encrypted_message "m1" (data e) (keyVersion e)). split; [reflexivity|].
  assert (Hv : keyVersion e = 7%Z).
  { revert E. unfold sent. clear. intros E. vm_compute in E. injection E as <-. reflexivity. }
  refine (proj2 (delivery no_server (λ _, "json") hi_json (λ _, "") (λ _, "")
    (λ k, k = demo_key) demo_keys_ok demo_member demo_member demo_channel 7 demo_key
    demo_nonce demo_identity "hi" _ e _ initial
    (encrypted_message "m1" (data e) (keyVersion e)) _ _ _ _ _ _ _ _ _ _ _ _ _));
    try first [exact demo_member_holds|exact E|reflexivity].
  - apply reachable_consistent. apply (reachable_run [_]). by split.
  - simpl. by rewrite Hv.
Defined.
