(* ===== verification/Search.v ===== *)
(** * Encrypted search ([search/query-parser.ts], [search/store.ts],
    [search/decrypt-results.ts])

    The query language, the decryption of what the server found, and the store of the
    search pane.  A search asks the local index and the server at once, waits, decrypts,
    and then merges; in the meantime the user may type on and search again.  A search
    in flight is a job of the model, known by the generation it was started in. *)

From S2P Require Export JsString DecryptStore.

Open Scope meza_scope.

(** ** Queries *)

Record ParsedQuery := { q_text : string; q_from : option (list string) }.

Definition is_from_filter (token : string) : bool :=
  startsWith "from:" (toLowerCase token) && (5 <? String.length token).

Definition parseQuery (input : string) : ParsedQuery :=
  let tokens := split_space (trim input) in
  let '(from, textParts) :=
    foldl (λ '(from, textParts) token,
      if is_from_filter token then (from ++ [str_slice 5 token], textParts)
      else (from, textParts ++ [token])) ([], []) tokens in
  {| q_text := join_space textParts;
     q_from := if decide (from = []) then None else Some from |}.

Lemma parse_partition q :
  let tokens := split_space (trim q) in
  let from := str_slice 5 <$> filter (λ t, is_from_filter t = true) tokens in
  parseQuery q =
    {| q_text := join_space (filter (λ t, is_from_filter t = false) tokens);
       q_from := if decide (from = []) then None else Some from |}.
Proof.
  cbv zeta. unfold parseQuery.
  assert (Hgen : ∀ tokens from parts,
    foldl (λ '(from, textParts) token,
      if is_from_filter token then (from ++ [str_slice 5 token], textParts)
      else (from, textParts ++ [token])) (from, parts) tokens =
    (from ++ (str_slice 5 <$> filter (λ t, is_from_filter t = true) tokens),
     parts ++ filter (λ t, is_from_filter t = false) tokens)).
  { induction tokens as [|t tokens IH]; intros from parts; [by rewrite !app_nil_r|].
    cbn [foldl]. rewrite !filter_cons. destruct (is_from_filter t) eqn:E;
      rewrite IH; repeat case_decide; try congruence; by rewrite <-app_assoc. }
  by rewrite (Hgen _ [] []).
Qed.

Lemma text_words q : Forall word (filter (λ t, is_from_filter t = false) (split_space (trim q))) ∨
  filter (λ t, is_from_filter t = false) (split_space (trim q)) = [""].
Proof.
  destruct (tokens_words q) as [->|Hw]; [by right|]. left.
  rewrite Forall_forall in *. intros t [_ Ht]%list_elem_of_filter. auto.
Qed.

(** the text of a parsed query is a query of its own: parsing it again gives the
    same text and no filter.  A query without filters that is already normal is its
    own text. *)
Theorem parse_text_stable (q : string) :
  parseQuery (q_text (parseQuery q)) = {| q_text := q_text (parseQuery q); q_from := None |}.
Proof.
  rewrite (parse_partition q). cbn [q_text].
  set (parts := filter (λ t, is_from_filter t = false) (split_space (trim q))).
  assert (Hparts : Forall (λ t, is_from_filter t = false) parts).
  { apply Forall_forall. by intros t [? _]%list_elem_of_filter. }
  assert (Hfrom : ∀ l, Forall (λ t, is_from_filter t = false) l →
    filter (λ t, is_from_filter t = true) l = [] ∧
    filter (λ t, is_from_filter t = false) l = l).
  { induction 1 as [|t l Ht Hl [IH1 IH2]]; [done|]. rewrite !filter_cons, IH1, IH2.
    repeat case_decide; split; congruence. }
  destruct (text_words q) as [Hw|E]; [fold parts in Hw|fold parts in E].
  - destruct (decide (parts = [])) as [->|Hne]; [done|].
    rewrite parse_partition. cbv zeta.
    rewrite (trim_join parts Hw), (split_join parts Hne Hw).
    destruct (Hfrom parts Hparts) as [-> ->]. done.
  - by rewrite E.
Qed.

(** ** What the server found *)

Record DecryptedSearchResult := { d_message : Message; decryptedContent : option json }.

Record SearchMessagesResult := { r_messages : list Message; r_hasMore : bool }.

Section decrypt_results.
Context `{Crypto}.
Context (getKeyEnvelopes : nat → string → result string (list (Z * bytes))).
Context (parse : string → result unit json).

(** The authors whose keys are asked for, each once *)
Definition search_authors (messages : list Message) : list string :=
  remove_dups (m_authorId <$> filter (λ m,
    (0 < m_keyVersion m)%Z ∧ m_encryptedContent m ≠ []) messages).

(** One message: what is shown for it, and the crypto state it leaves *)
Definition decrypt_result (pubKeys : gmap string bytes) (msg : Message) (cs : CryptoState)
    : result string DecryptedSearchResult * CryptoState :=
  let shown c := Ok {| d_message := msg; decryptedContent := c |} in
  if decide (m_encryptedContent msg = []) then (shown None, cs)
  else if decide (m_keyVersion msg = 0%Z) then
    (match parseMessageContent parse (m_encryptedContent msg) with
     | Ok parsed => shown (text parsed)
     | Throw _ => Throw "SyntaxError"
     end, cs)
  else match pubKeys !! m_authorId msg with
  | None => (shown None, cs)
  | Some senderKey =>
      let '(r, cs) := open_message getKeyEnvelopes parse (m_channelId msg) msg senderKey cs in
      (match r with Ok parsed => shown (text parsed) | Throw _ => shown None end, cs)
  end.

(** [Promise.all]: all of them, or the first error *)
Fixpoint decrypt_results (pubKeys : gmap string bytes) (messages : list Message)
    (cs : CryptoState) : result string (list DecryptedSearchResult) * CryptoState :=
  match messages with
  | [] => (Ok [], cs)
  | msg :: messages =>
      let '(r, cs) := decrypt_result pubKeys msg cs in
      let '(rs, cs) := decrypt_results pubKeys messages cs in
      (let! d := r in let! ds := rs in Ok (d :: ds), cs)
  end.

(** [getPublicKeys] answers with the keys it has, or fails; no key is asked for when no
    message needs one. *)
Definition decryptSearchResults (getPublicKeys : list string → result string (gmap string bytes))
    (messages : list Message) (cs : CryptoState)
    : result string (list DecryptedSearchResult) * CryptoState :=
  let authorIds := search_authors messages in
  let pubKeys :=
    if decide (authorIds = []) then ∅
    else match getPublicKeys authorIds with Ok ks => ks | Throw _ => ∅ end in
  decrypt_results pubKeys messages cs.

Lemma decrypt_result_message pubKeys msg cs d :
  (decrypt_result pubKeys msg cs).1 = Ok d → d_message d = msg.
Proof.
  unfold decrypt_result. repeat case_decide; simpl; [naive_solver|..].
  - case_match; naive_solver.
  - case_match; [|naive_solver]. destruct (open_message _ _ _ _ _ _) as [r cs']. simpl.
    destruct r; naive_solver.
Qed.
Lemma decrypt_results_messages pubKeys messages cs ds :
  (decrypt_results pubKeys messages cs).1 = Ok ds → d_message <$> ds = messages.
Proof.
  revert cs ds. induction messages as [|m ms IH]; intros cs ds; simpl; [naive_solver|].
  destruct (decrypt_result pubKeys m cs) as [r cs1] eqn:E1.
  destruct (decrypt_results pubKeys ms cs1) as [rs cs2] eqn:E2. simpl.
  rewrite result_bind_Ok. intros (d & -> & (ds' & -> & [= <-])%result_bind_Ok).
  rewrite fmap_cons. f_equal.
  - eapply decrypt_result_message. by rewrite E1.
  - eapply IH. by rewrite E2.
Qed.

(** A message that throws is one that claims to be plaintext and does not parse. *)
Definition readable (m : Message) : Prop :=
  m_encryptedContent m = [] ∨ m_keyVersion m ≠ 0%Z ∨
  ∃ p, parseMessageContent parse (m_encryptedContent m) = Ok p.
#[export] Instance readable_dec m : Decision (readable m).
Proof.
  unfold readable. destruct (parseMessageContent parse (m_encryptedContent m)) eqn:E.
  - left. eauto.
  - destruct (decide (m_encryptedContent m = [])); [left; tauto|].
    destruct (decide (m_keyVersion m = 0%Z)); [right|left; tauto].
    intros [?|[?|[? ?]]]; congruence.
Defined.

Lemma decrypt_result_ok pubKeys m cs :
  readable m ↔ ∃ d, (decrypt_result pubKeys m cs).1 = Ok d.
Proof.
  unfold decrypt_result, readable. case_decide as H1; [simpl; naive_solver|].
  case_decide as H2.
  - simpl. destruct (parseMessageContent parse (m_encryptedContent m)); naive_solver.
  - split; [intros _|naive_solver]. destruct (pubKeys !! m_authorId m); simpl; [|eauto].
    destruct (open_message _ _ _ _ _ _) as [[p|e] cs']; simpl; eauto.
Qed.

Lemma decrypt_results_ok pubKeys messages cs :
  Forall readable messages ↔ ∃ ds, (decrypt_results pubKeys messages cs).1 = Ok ds.
Proof.
  revert cs. induction messages as [|m ms IH]; intros cs.
  { split; [simpl; eauto|done]. }
  rewrite Forall_cons. simpl. pose proof (decrypt_result_ok pubKeys m cs) as Hm.
  destruct (decrypt_result pubKeys m cs) as [r cs1].
  specialize (IH cs1). destruct (decrypt_results pubKeys ms cs1) as [rs cs2]. simpl in *.
  rewrite Hm, IH. destruct r, rs; naive_solver.
Qed.
End decrypt_results.

(** ** The store *)

Record SearchHit := {
  h_id : string;
  h_channelId : string;
  h_authorId : string;
  h_createdAt : Z;
  h_hasAttachment : bool;
  h_hasMention : bool;
}.

Record SearchOpts := {
  o_channelId : option string;
  o_authorId : option string;
  o_before : option Z;
  o_after : option Z;
  o_hasAttachment : option bool;
  o_limit : option nat;
}.

Record SearchMessagesParams := {
  p_channelId : string;
  p_authorId : option string;
  p_hasAttachment : option bool;
}.

Inductive SearchSource := from_server | from_local.

Record SearchResultItem := {
  message : option Message;
  localHit : option SearchHit;
  content : option json;
  source : SearchSource;
}.

Definition getResultTimestamp (r : SearchResultItem) : Z :=
  match message r ≫= m_createdAt with
  | Some t => ts_seconds t * 1000
  | None => match localHit r with Some h => h_createdAt h | None => 0 end
  end.

Inductive SearchScope := scope_channel | scope_all.
#[export] Instance SearchScope_eq_dec : EqDecision SearchScope.
Proof. solve_decision. Defined.

Record SearchState := {
  query : string;
  channelId : string;
  authorId : string;
  hasAttachment : bool;
  scope : SearchScope;
  isLoading : bool;
  results : list SearchResultItem;
  hasMore : bool;
  error : option string;
}.

Definition emptyState : SearchState :=
  {| query := ""; channelId := ""; authorId := ""; hasAttachment := false;
     scope := scope_channel; isLoading := false; results := []; hasMore := false;
     error := None |}.

Definition setQuery q s := {| query := q; channelId := channelId s; authorId := authorId s;
  hasAttachment := hasAttachment s; scope := scope s; isLoading := isLoading s;
  results := results s; hasMore := hasMore s; error := error s |}.
Definition setChannelId c s := {| query := query s; channelId := c; authorId := authorId s;
  hasAttachment := hasAttachment s; scope := scope s; isLoading := isLoading s;
  results := results s; hasMore := hasMore s; error := error s |}.
Definition setAuthorId a s := {| query := query s; channelId := channelId s; authorId := a;
  hasAttachment := hasAttachment s; scope := scope s; isLoading := isLoading s;
  results := results s; hasMore := hasMore s; error := error s |}.
Definition setHasAttachment v s := {| query := query s; channelId := channelId s;
  authorId := authorId s; hasAttachment := v; scope := scope s; isLoading := isLoading s;
  results := results s; hasMore := hasMore s; error := error s |}.
Definition setScope v s := {| query := query s; channelId := channelId s;
  authorId := authorId s; hasAttachment := hasAttachment s; scope := v;
  isLoading := isLoading s; results := results s; hasMore := hasMore s; error := error s |}.
Definition show_results rs more s := {| query := query s; channelId := channelId s;
  authorId := authorId s; hasAttachment := hasAttachment s; scope := scope s;
  isLoading := isLoading s; results := rs; hasMore := more; error := error s |}.
Definition set_progress l e s := {| query := query s; channelId := channelId s;
  authorId := authorId s; hasAttachment := hasAttachment s; scope := scope s;
  isLoading := l; results := results s; hasMore := hasMore s; error := e |}.

(** A search in flight: what it asked the index and the server for, and, once both have
    answered and the decryption is awaited, their answers. *)
Record SearchJob := {
  j_local : option (string * SearchOpts);
  j_server : option SearchMessagesParams;
  j_answers : option (list SearchHit * SearchMessagesResult);
}.

(** The store, the generation counter of the module, and the searches in flight *)
Record SearchWorld := {
  st : SearchState;
  searchGeneration : Z;
  in_flight : gmap Z SearchJob;
}.

Definition on_st f w :=
  {| st := f (st w); searchGeneration := searchGeneration w; in_flight := in_flight w |}.
Definition on_jobs f w :=
  {| st := st w; searchGeneration := searchGeneration w; in_flight := f (in_flight w) |}.

(** [s || undefined] *)
Definition or_undefined (s : string) : option string := if decide (s = "") then None else Some s.

Definition search_job (s : SearchState) : SearchJob :=
  let parsed := parseQuery (query s) in
  let effectiveAuthorId := or_default (authorId s) (q_from parsed ≫= head) in
  {| j_local :=
       if decide (trim (q_text parsed) = "") then None
       else Some (q_text parsed,
         {| o_channelId :=
              if decide (scope s = scope_channel) then or_undefined (channelId s) else None;
            o_authorId := or_undefined effectiveAuthorId;
            o_before := None; o_after := None;
            o_hasAttachment := if hasAttachment s then Some true else None;
            o_limit := None |});
     j_server :=
       if decide (channelId s ≠ "" ∧ scope s = scope_channel) then
         Some {| p_channelId := channelId s; p_authorId := or_undefined effectiveAuthorId;
                 p_hasAttachment := if hasAttachment s then Some true else None |}
       else None;
     j_answers := None |}.

(** [search], up to its first [await] *)
Definition search (w : SearchWorld) : SearchWorld :=
  let s := st w in
  if decide (channelId s = "" ∧ trim (q_text (parseQuery (query s))) = "") then
    on_st (λ s, set_progress (isLoading s) None (show_results [] false s)) w
  else
    let gen := (searchGeneration w + 1)%Z in
    {| st := set_progress true None s; searchGeneration := gen;
       in_flight := <[gen := search_job s]> (in_flight w) |}.

Definition local_item (hit : SearchHit) : SearchResultItem :=
  {| message := None; localHit := Some hit; content := None; source := from_local |}.
Definition server_item (d : DecryptedSearchResult) : SearchResultItem :=
  {| message := Some (d_message d); localHit := None; content := decryptedContent d;
     source := from_server |}.

(** The answers merged: a local hit takes the place of the server's message. *)
Definition merge_results (localHits : list SearchHit) (decrypted : list DecryptedSearchResult)
    : list SearchResultItem :=
  let localIds := filter (λ i, i ≠ "") (h_id <$> localHits) in
  let uniqueServer := filter (λ d, m_id (d_message d) ∉ localIds) decrypted in
  js_sort (cmp_desc getResultTimestamp)
    ((local_item <$> localHits) ++ (server_item <$> uniqueServer)).

(** The last [set] of a search, and its [catch] block, both behind the generation check *)
Definition settle (gen : Z) (f : SearchState → SearchState) (w : SearchWorld) : SearchWorld :=
  let w := on_jobs (delete gen) w in
  if decide (gen = searchGeneration w) then on_st f w else w.

Definition complete (localHits : list SearchHit) (decrypted : list DecryptedSearchResult)
    (more : bool) (s : SearchState) : SearchState :=
  set_progress false (error s) (show_results (merge_results localHits decrypted) more s).

Definition RATE_LIMITED : string := "Search rate limited — please wait a few seconds".
Definition fail_with (err : option string) (s : SearchState) : SearchState :=
  let msg := or_default "Search failed" err in
  set_progress false
    (Some (if includes "Limit reached" msg || includes "rate limit" msg then RATE_LIMITED
           else msg)) s.

Definition reset (w : SearchWorld) : SearchWorld :=
  {| st := emptyState; searchGeneration := searchGeneration w + 1; in_flight := in_flight w |}.

(** What happens to the store: calls of its actions, the answers of the index and the
    server to a search ([None] for the message of something thrown that is no [Error]),
    and the end of the decryption of a search's messages. *)
Inductive search_event :=
  | SetQuery (q : string)
  | SetChannelId (c : string)
  | SetAuthorId (a : string)
  | SetHasAttachment (v : bool)
  | SetScope (v : SearchScope)
  | Search
  | Reset
  | Answers (gen : Z) (hits : list SearchHit) (res : SearchMessagesResult)
  | Decrypted (gen : Z) (getPublicKeys : list string → result string (gmap string bytes))
      (cs : CryptoState)
  | Fails (gen : Z) (err : option string).

Section store.
Context `{Crypto}.
Context (getKeyEnvelopes : nat → string → result string (list (Z * bytes))).
Context (parse : string → result unit json).

(** [Promise.all] of the two searches is fulfilled. *)
Definition answers (gen : Z) (hits : list SearchHit) (res : SearchMessagesResult)
    (w : SearchWorld) : SearchWorld :=
  match in_flight w !! gen with
  | Some {| j_local := l; j_server := p; j_answers := None |} =>
      let localHits := if l then hits else [] in
      match p with
      | None => settle gen (complete localHits [] false) w
      | Some _ =>
          if decide (gen = searchGeneration w) then
            on_jobs <[gen := {| j_local := l; j_server := p; j_answers := Some (localHits, res) |}]> w
          else on_jobs (delete gen) w
      end
  | _ => w
  end.

Definition decrypted (gen : Z) (getPublicKeys : list string → result string (gmap string bytes))
    (cs : CryptoState) (w : SearchWorld) : SearchWorld :=
  match in_flight w !! gen with
  | Some {| j_answers := Some (localHits, res) |} =>
      match (decryptSearchResults getKeyEnvelopes parse getPublicKeys (r_messages res) cs).1 with
      | Ok ds => settle gen (complete localHits ds (r_hasMore res)) w
      | Throw e => settle gen (fail_with (Some e)) w
      end
  | _ => w
  end.

(** One of the two searches rejects. *)
Definition fails (gen : Z) (err : option string) (w : SearchWorld) : SearchWorld :=
  match in_flight w !! gen with
  | Some {| j_answers := None |} => settle gen (fail_with err) w
  | _ => w
  end.

Definition search_step (ev : search_event) (w : SearchWorld) : SearchWorld :=
  match ev with
  | SetQuery q => on_st (setQuery q) w
  | SetChannelId c => on_st (setChannelId c) w
  | SetAuthorId a => on_st (setAuthorId a) w
  | SetHasAttachment v => on_st (setHasAttachment v) w
  | SetScope v => on_st (setScope v) w
  | Search => search w
  | Reset => reset w
  | Answers gen hits res => answers gen hits res w
  | Decrypted gen pk cs => decrypted gen pk cs w
  | Fails gen err => fails gen err w
  end.

#[local] Instance search_store : Store SearchWorld search_event :=
  {| initial := {| st := emptyState; searchGeneration := 0; in_flight := ∅ |};
     exec := search_step; admissible _ _ := True |}.

Definition newest_first : list SearchResultItem → Prop :=
  cmp_sorted (cmp_desc getResultTimestamp).

Definition search_wf (w : SearchWorld) : Prop :=
  (isLoading (st w) = true ↔ is_Some (in_flight w !! searchGeneration w)) ∧
  (∀ g, is_Some (in_flight w !! g) → (g ≤ searchGeneration w)%Z) ∧
  newest_first (results (st w)).

Lemma merge_sorted hits ds : newest_first (merge_results hits ds).
Proof. apply js_sort_sorted, _. Qed.

(** Settling a search: its job is gone, and an older one leaves the store alone. *)
Lemma settle_wf gen f w :
  search_wf w → (newest_first (results (f (st w)))) → isLoading (f (st w)) = false →
  search_wf (settle gen f w).
Proof.
  intros (Hl & Hg & Hs) Hf Hlf. unfold settle. simpl. case_decide as E.
  - subst gen. split; simpl; [rewrite Hlf, lookup_delete_eq; naive_solver|].
    split; [|done]. intros g [j [? Hj]%lookup_delete_Some]. eauto.
  - split; simpl; [by rewrite lookup_delete_ne|]. split; [|done].
    intros g [j [? Hj]%lookup_delete_Some]. eauto.
Qed.

Lemma settle_stale gen f w : gen ≠ searchGeneration w → st (settle gen f w) = st w.
Proof. intros Hne. unfold settle. by rewrite decide_False. Qed.
Lemma settle_current gen f w :
  gen = searchGeneration w → settle gen f w = on_st f (on_jobs (delete gen) w).
Proof. intros Hne. unfold settle. by rewrite decide_True. Qed.

Lemma search_step_wf ev w : search_wf w → search_wf (search_step ev w).
Proof.
  intros Hw. pose proof Hw as (Hl & Hg & Hs). destruct ev; try exact Hw; simpl.
  - unfold search. case_decide; [split; [exact Hl|]; split; [exact Hg|constructor]|].
    split; simpl; [by rewrite lookup_insert_eq|]. split; [|done].
    intros g. destruct (decide (g = searchGeneration w + 1)%Z) as [->|Hne]; [lia|].
    rewrite lookup_insert_ne by done. intros Hj%Hg. lia.
  - split; simpl.
    + split; [done|]. intros Hj%Hg. lia.
    + split; [|constructor]. intros g Hj%Hg. lia.
  - unfold answers. destruct (in_flight w !! gen) as [[l p [a|]]|] eqn:E; [done| |done].
    destruct p; [|apply settle_wf; [done|apply merge_sorted|done]].
    case_decide as Hgen; [subst gen|].
    + split; simpl; [by rewrite lookup_insert_eq, Hl, E|]. split; [|done].
      intros g. destruct (decide (g = searchGeneration w)) as [->|Hne]; [lia|].
      rewrite lookup_insert_ne by done. apply Hg.
    + split; simpl; [by rewrite lookup_delete_ne|]. split; [|done].
      intros g [j [? Hj]%lookup_delete_Some]. eauto.
  - unfold decrypted. destruct (in_flight w !! gen) as [[l p [[hits res]|]]|]; [|done..].
    destruct (decryptSearchResults _ _ _ _ _).1; apply settle_wf; try done; apply merge_sorted.
  - unfold fails. destruct (in_flight w !! gen) as [[l p [a|]]|]; try done.
    by apply settle_wf.
Qed.

(** The event of a search that is not the latest one *)
Definition stale (gen : Z) (ev : search_event) : Prop :=
  match ev with Answers g _ _ | Decrypted g _ _ | Fails g _ => g ≠ gen | _ => False end.

(** C35: in every reachable state of the search pane the results are newest first, and
    the pane shows that it is searching exactly while the latest search is in flight;
    what an older search brings, be it hits, messages or an error, changes nothing
    that is shown. *)
Theorem search_shows_latest (w : SearchWorld) :
  reachable w →
  newest_first (results (st w)) ∧
  (isLoading (st w) = true ↔ is_Some (in_flight w !! searchGeneration w)) ∧
  (∀ ev, stale (searchGeneration w) ev → st (search_step ev w) = st w).
Proof.
  intros Hw.
  assert (search_wf w) as (Hl & Hg & Hs).
  { revert w Hw. apply reachable_invariant; [|intros; by apply search_step_wf].
    split; [|split; [|constructor]]; simpl; [rewrite lookup_empty; naive_solver|].
    intros g. rewrite lookup_empty. by intros []. }
  split; [done|]. split; [done|]. intros [] Hev; try done; simpl in *.
  - unfold answers. destruct (in_flight w !! gen) as [[l [p|] [a|]]|]; try done.
    + by rewrite decide_False.
    + by apply settle_stale.
  - unfold decrypted. destruct (in_flight w !! gen) as [[l p [[hits res]|]]|]; try done.
    case_match; by apply settle_stale.
  - unfold fails. destruct (in_flight w !! gen) as [[l p [a|]]|]; try done.
    by apply settle_stale.
Qed.

(** The id a result row is known by *)
Definition item_id (r : SearchResultItem) : option string :=
  match message r with Some m => Some (m_id m) | None => h_id <$> localHit r end.

Lemma merge_elem hits ds r :
  r ∈ merge_results hits ds ↔
    (∃ h, h ∈ hits ∧ r = local_item h) ∨
    (∃ d, d ∈ ds ∧ m_id (d_message d) ∉ filter (λ i, i ≠ "") (h_id <$> hits) ∧ r = server_item d).
Proof.
  unfold merge_results. rewrite js_sort_elem_of, elem_of_app, !list_elem_of_fmap.
  split; intros [(x & H1 & H2)|(x & H1 & H2)]; [left; by eauto|right|left; by eauto|right].
  - apply list_elem_of_filter in H2 as [? ?]. by eauto.
  - destruct H2 as [? ->]. exists x. split; [done|]. by apply list_elem_of_filter.
Qed.

Lemma merge_ids hits ds :
  NoDup (h_id <$> hits) → NoDup (m_id ∘ d_message <$> ds) → "" ∉ h_id <$> hits →
  NoDup (item_id <$> merge_results hits ds).
Proof.
  intros Hh Hd Hne. unfold merge_results. apply js_sort_keys_NoDup.
  rewrite fmap_app, <-!list_fmap_compose.
  assert (E1 : item_id ∘ local_item <$> hits = Some <$> (h_id <$> hits)) by
    by rewrite <-list_fmap_compose.
  set (ds' := filter _ ds).
  assert (E2 : item_id ∘ server_item <$> ds' = Some <$> (m_id ∘ d_message <$> ds')) by
    by rewrite <-list_fmap_compose.
  rewrite E1, E2. apply NoDup_app. split; [by apply NoDup_fmap_2; [apply _|]|]. split.
  - intros x (i & -> & Hi)%list_elem_of_fmap (i' & [= <-] & (d & -> & Hd')%list_elem_of_fmap)%list_elem_of_fmap.
    apply list_elem_of_filter in Hd' as [Hd' _]. apply Hd'. apply list_elem_of_filter.
    split; [|done]. intros E. apply Hne. unfold compose in E. by rewrite <-E.
  - apply NoDup_fmap_2; [apply _|]. by apply (NoDup_filter_keys (m_id ∘ d_message)).
Qed.

(** What a search asked for is what its answers are taken from. *)
Definition asked_hits (j : SearchJob) (hits : list SearchHit) : list SearchHit :=
  if j_local j then hits else [].
Definition asked_messages (j : SearchJob) (res : SearchMessagesResult) : list Message :=
  if j_server j then r_messages res else [].

(** when the index and the server have answered the latest search, the pane stops
    searching, and either shows exactly the hits of the index and the messages of the
    server that are not among them, each message once; or, if the server sent a message
    that claims to be plaintext and cannot be parsed, shows an error and keeps the
    results it had. *)
Theorem search_answered (w : SearchWorld) j hits res getPublicKeys cs :
  let gen := searchGeneration w in
  let w' := run [Answers gen hits res; Decrypted gen getPublicKeys cs] w in
  in_flight w !! gen = Some j → j_answers j = None →
  isLoading (st w') = false ∧ searchGeneration w' = gen ∧ in_flight w' !! gen = None ∧
  (Forall (readable parse) (asked_messages j res) →
     error (st w') = error (st w) ∧
     (∀ h, h ∈ asked_hits j hits → local_item h ∈ results (st w')) ∧
     (∀ m, m ∈ asked_messages j res → Some (m_id m) ∈ item_id <$> results (st w')) ∧
     (∀ r, r ∈ results (st w') →
        (∃ h, h ∈ asked_hits j hits ∧ r = local_item h) ∨
        (∃ m, m ∈ asked_messages j res ∧ message r = Some m ∧ source r = from_server)) ∧
     (NoDup (h_id <$> asked_hits j hits) → "" ∉ h_id <$> asked_hits j hits →
      NoDup (m_id <$> asked_messages j res) → NoDup (item_id <$> results (st w')))) ∧
  (¬ Forall (readable parse) (asked_messages j res) →
     results (st w') = results (st w) ∧ error (st w') ≠ None).
Proof.
  cbv zeta. intros Hj Ha. destruct j as [l p a]. simpl in Ha. subst a.
  assert (Hmerge : ∀ ds, d_message <$> ds = asked_messages
      {| j_local := l; j_server := p; j_answers := None |} res →
    let hs := if l then hits else [] in
    (∀ h, h ∈ hs → local_item h ∈ merge_results hs ds) ∧
    (∀ m, m ∈ d_message <$> ds → Some (m_id m) ∈ item_id <$> merge_results hs ds) ∧
    (∀ r, r ∈ merge_results hs ds → (∃ h, h ∈ hs ∧ r = local_item h) ∨
       (∃ m, m ∈ d_message <$> ds ∧ message r = Some m ∧ source r = from_server)) ∧
    (NoDup (h_id <$> hs) → "" ∉ h_id <$> hs → NoDup (m_id <$> (d_message <$> ds)) →
       NoDup (item_id <$> merge_results hs ds))).
  { intros ds _ hs. split; [|split; [|split]].
    - intros h Hh. apply merge_elem. eauto.
    - intros m (d & -> & Hd)%list_elem_of_fmap. apply list_elem_of_fmap.
      destruct (decide (m_id (d_message d) ∈ filter (λ i, i ≠ "") (h_id <$> hs))) as [Hi|Hi].
      + apply list_elem_of_filter in Hi as [_ (h & E & Hh)%list_elem_of_fmap].
        exists (local_item h). simpl. split; [by rewrite E|]. apply merge_elem. eauto.
      + exists (server_item d). split; [done|]. apply merge_elem. eauto.
    - intros r [?|(d & Hd & _ & ->)]%merge_elem; [by left|]. right. exists (d_message d).
      split; [by apply list_elem_of_fmap_2|done].
    - intros Hh He Hd. apply merge_ids; [done| |done]. by rewrite list_fmap_compose. }
  unfold run. cbn [foldl exec search_store search_step]. unfold answers. rewrite Hj.
  destruct p as [p|].
  - rewrite decide_True by done. unfold decrypted. simpl. rewrite lookup_insert_eq.
    unfold asked_messages in *. simpl in *.
    pose proof (decrypt_results_ok getKeyEnvelopes parse
      (if decide (search_authors (r_messages res) = []) then ∅
       else match getPublicKeys (search_authors (r_messages res)) with
            | Ok ks => ks | Throw _ => ∅ end) (r_messages res) cs) as Hok.
    unfold decryptSearchResults in *.
    destruct (decrypt_results _ _ _ _ _) as [[ds|e] cs'] eqn:E; simpl in *;
      rewrite settle_current by done; simpl; rewrite lookup_delete_eq.
    + split; [done|]. split; [done|]. split; [done|].
      assert (Hms : d_message <$> ds = r_messages res).
      { eapply decrypt_results_messages. by rewrite E. }
      pose proof (Hmerge ds Hms) as Hm. rewrite Hms in Hm.
      split; [intros _; split; [done|exact Hm]|]. intros []. apply Hok. eauto.
    + split; [done|]. split; [done|]. split; [done|].
      split; [intros (? & [=])%Hok|done].
  - rewrite settle_current by done. unfold decrypted. simpl. rewrite lookup_delete_eq. simpl.
    rewrite lookup_delete_eq. unfold asked_messages in *. simpl in *.
    split; [done|]. split; [done|]. split; [done|].
    split; [intros _; split; [done|exact (Hmerge [] eq_refl)]|]. by intros [].
Qed.

(** searching for an empty text while a search is in flight empties the results but
    leaves that search the latest one: the pane keeps showing that it is searching, and
    when the index answers, the results of the old text appear under the empty query. *)
Theorem cleared_search_returns (w : SearchWorld) hits res :
  channelId (st w) = "" → trim (q_text (parseQuery (query (st w)))) ≠ "" →
  let gen := (searchGeneration w + 1)%Z in
  let cleared := run [Search; SetQuery ""; Search] w in
  let w' := run [Answers gen hits res] cleared in
  results (st cleared) = [] ∧ isLoading (st cleared) = true ∧
  query (st w') = "" ∧ results (st w') = merge_results hits [].
Proof.
  intros Hc Ht gen.
  assert (E : search w = {| st := set_progress true None (st w); searchGeneration := gen;
    in_flight := <[gen := search_job (st w)]> (in_flight w) |}).
  { unfold search. by rewrite decide_False by tauto. }
  unfold run. cbn [foldl exec search_store search_step]. rewrite E.
  unfold search. rewrite decide_True by (split; [exact Hc|done]).
  split; [done|]. split; [done|].
  unfold answers. simpl. rewrite lookup_insert_eq.
  unfold search_job. rewrite Hc, (decide_False (P := "" ≠ "" ∧ _)), decide_False by naive_solver.
  by rewrite settle_current.
Qed.

(** the words of a query do not reach the server, and nothing compares its messages
    with them: two queries that differ in their words only ask the server for the same,
    and every message it sends is shown, whatever it says. *)
Theorem server_ignores_text (s : SearchState) q q' :
  q_from (parseQuery q) = q_from (parseQuery q') →
  j_server (search_job (setQuery q s)) = j_server (search_job (setQuery q' s)).
Proof. intros E. unfold search_job. simpl. by rewrite E. Qed.
End store.

(** ** A search of a channel *)

#[local] Existing Instance toy.

Definition demo_hit (id : string) (t : Z) : SearchHit :=
  {| h_id := id; h_channelId := demo_channel; h_authorId := "u1"; h_createdAt := t;
     h_hasAttachment := false; h_hasMention := false |}.
Definition demo_found : SearchMessagesResult :=
  {| r_messages := [encrypted_message "m1" [5]%Z 7; encrypted_message "m2" [6]%Z 7];
     r_hasMore := true |}.
Definition no_keys : list string → result string (gmap string bytes) := λ _, Throw "offline".

(** Two searches, the first of which is still in flight when the second one starts *)
Definition demo_searches : list search_event :=
  [SetChannelId demo_channel; SetQuery "hello"; Search; SetQuery "hello world"; Search].
#[local] Instance demo_store : Store SearchWorld search_event := search_store no_server hi_json.
Definition searching : SearchWorld := run demo_searches initial.

Example parse_text_stable_demo :
  parseQuery "  From:alice  hello	world from:bob " =
    {| q_text := "hello world"; q_from := Some ["alice"; "bob"] |} ∧
  parseQuery "hello world" = {| q_text := "hello world"; q_from := None |}.
Proof. split; vm_compute; reflexivity. Qed.

Lemma searching_reachable : reachable searching.
Proof. apply (reachable_run (Store0 := demo_store)). vm_compute. repeat split. Qed.

Lemma search_shows_latest_witness :
  searchGeneration searching = 2%Z ∧ isLoading (st searching) = true ∧
  st (search_step no_server hi_json (Answers 1 [demo_hit "m1" 5] demo_found) searching) =
    st searching.
Proof.
  destruct (search_shows_latest no_server hi_json searching searching_reachable)
    as (_ & Hl & Hst).
  split; [reflexivity|]. split; [apply Hl; vm_compute; eauto|].
  apply Hst. vm_compute. discriminate.
Defined.

Lemma search_answered_witness :
  let w' := run [Answers 2 [demo_hit "m1" 5] demo_found; Decrypted 2 no_keys demo_member] searching in
  isLoading (st w') = false ∧ local_item (demo_hit "m1" 5) ∈ results (st w') ∧
  Some "m2" ∈ item_id <$> results (st w') ∧ NoDup (item_id <$> results (st w')).
Proof.
  cbv zeta.
  destruct (search_answered no_server hi_json searching (search_job (st searching))
    [demo_hit "m1" 5] demo_found no_keys demo_member) as (Hl & _ & _ & Hok & _);
    [vm_compute; reflexivity..|].
  destruct Hok as (_ & Hh & Hm & _ & Hn).
  { apply (bool_decide_unpack _). vm_compute. exact I. }
  split; [exact Hl|]. split; [apply Hh; vm_compute; constructor|].
  split; [apply (Hm (encrypted_message "m2" [6]%Z 7)); vm_compute; repeat constructor|].
  apply Hn; vm_compute.
  - repeat constructor. intros H. inversion H.
  - intros H. inversion H as [|? ? ? H']. inversion H'.
  - repeat constructor; [intros H; inversion H as [|? ? ? H']; inversion H'|intros H; inversion H].
Defined.

Lemma cleared_search_returns_witness :
  let w' := run [SetQuery "hello"; Search; SetQuery ""; Search; Answers 1 [demo_hit "m1" 5] demo_found]
    initial in
  query (st w') = "" ∧ results (st w') = [local_item (demo_hit "m1" 5)].
Proof.
  cbv zeta.
  destruct (cleared_search_returns no_server hi_json (run [SetQuery "hello"] initial)
    [demo_hit "m1" 5] demo_found) as (_ & _ & Hq & Hr); [reflexivity|vm_compute; discriminate|].
  split; [exact Hq|exact Hr].
Defined.

Lemma server_ignores_text_witness :
  j_server (search_job (setQuery "cats" (st searching))) =
    j_server (search_job (setQuery "dogs" (st searching))).
Proof. apply server_ignores_text. vm_compute. reflexivity. Defined.
