(* ===== verification/SearchIndex.v ===== *)
(** * The search index ([search/search-worker.ts], [search/indexer.ts])

    The query side of the worker: merging, filtering and ordering what the third-party
    index finds in each channel.  And the filling of the index: which messages become
    documents, and the backfill of a channel page by page. *)

From S2P Require Export Search.

Open Scope meza_scope.

(** ** The worker's search *)

Section worker.
(** The documents the index of a channel finds for a query, an author tag and a limit,
    per field; [None] for a hit without a document *)
Context (idx_search : string → string → option string → nat → list (list (option SearchHit))).

Definition nonzero (o : option Z) (p : Z → bool) : bool :=
  match o with Some t => negb (t =? 0)%Z && p t | None => false end.

Definition filtered_out (opts : SearchOpts) (doc : SearchHit) : bool :=
  nonzero (o_before opts) (λ t, (t <=? h_createdAt doc)%Z) ||
  nonzero (o_after opts) (λ t, (h_createdAt doc <=? t)%Z) ||
  (match o_hasAttachment opts with Some b => b | None => false end && negb (h_hasAttachment doc)).

(** One hit: the ids seen and the results *)
Definition consider (opts : SearchOpts) (acc : list string * list SearchHit)
    (hit : option SearchHit) : list string * list SearchHit :=
  let '(seen, results) := acc in
  match hit with
  | None => acc
  | Some doc =>
      if decide (h_id doc ∈ seen) then acc
      else (seen ++ [h_id doc],
            if filtered_out opts doc then results else results ++ [doc])
  end.

(** The documents found, in the order in which they are considered; [indexes] are the
    channels with an index, in the order of the [Map]. *)
Definition found (query : string) (opts : SearchOpts) (indexes : list string)
    : list (option SearchHit) :=
  let channelIds :=
    if truthy (o_channelId opts) then [or_default "" (o_channelId opts)] else indexes in
  let limit := or_default 25 (o_limit opts) in
  let tag := if truthy (o_authorId opts) then o_authorId opts else None in
  concat ((λ id, if decide (id ∈ indexes) then concat (idx_search id query tag limit) else [])
    <$> channelIds).

Definition worker_search (query : string) (opts : SearchOpts) (indexes : list string)
    : list SearchHit :=
  let '(_, results) := foldl (consider opts) ([], []) (found query opts indexes) in
  take (or_default 25 (o_limit opts)) (js_sort (cmp_desc h_createdAt) results).

(** The first document with each id *)
Definition first_with_id (docs : list (option SearchHit)) (d : SearchHit) : Prop :=
  ∃ l l', docs = l ++ Some d :: l' ∧ ∀ d', Some d' ∈ l → h_id d' ≠ h_id d.

Lemma consider_all opts docs :
  let '(seen, results) := foldl (consider opts) ([], []) docs in
  (∀ i, i ∈ seen ↔ ∃ d, Some d ∈ docs ∧ h_id d = i) ∧
  NoDup (h_id <$> results) ∧ (∀ d, d ∈ results → h_id d ∈ seen) ∧
  (∀ d, d ∈ results ↔ first_with_id docs d ∧ filtered_out opts d = false).
Proof.
  induction docs as [|hit docs IH] using rev_ind.
  { simpl. split; [set_solver|]. split; [constructor|]. split; [set_solver|].
    intros d. split; [set_solver|]. intros [(l & l' & E & _) _]. by destruct l. }
  rewrite foldl_app. destruct (foldl (consider opts) ([], []) docs) as [seen results].
  destruct IH as (Hseen & Hnd & Hin & Hres). cbn [foldl].
  assert (Hold : ∀ d, first_with_id docs d → first_with_id (docs ++ [hit]) d).
  { intros d (l & l' & -> & Hl). exists l, (l' ++ [hit]). by rewrite <-app_assoc. }
  assert (Hnew : ∀ d, first_with_id (docs ++ [hit]) d → first_with_id docs d ∨
    hit = Some d ∧ ∀ d', Some d' ∈ docs → h_id d' ≠ h_id d).
  { intros d (l & l' & E & Hl). destruct l' as [|x l' _] using rev_ind.
    - apply app_inj_tail in E as [-> ->]. by right.
    - rewrite app_comm_cons, app_assoc in E. apply app_inj_tail in E as [-> _].
      left. by exists l, l'. }
  destruct hit as [doc|]; simpl.
  2:{ split; [intros i; rewrite Hseen; set_solver|]. split; [done|]. split; [done|].
      intros d. rewrite Hres. split; [intros []; auto|].
      intros [[?|[? _]]%Hnew ?]; [auto|done]. }
  case_decide as Hs.
  - split; [intros i; rewrite Hseen; split; [set_solver|]|split; [done|split; [done|]]].
    + intros (d & Hd & <-). apply elem_of_app in Hd as [?|[= ->]%list_elem_of_singleton]; [eauto|].
      by apply Hseen.
    + intros d. rewrite Hres. split; [intros []; auto|].
      intros [[?|[[= ->] Hno]]%Hnew ?]; [auto|]. apply Hseen in Hs as (d' & Hd' & E).
      by destruct (Hno d').
  - assert (Hdoc : first_with_id (docs ++ [Some doc]) doc).
    { exists docs, []. split; [done|]. intros d' Hd' E. apply Hs, Hseen. eauto. }
    split; [|split; [|split]].
    + intros i. rewrite elem_of_app, list_elem_of_singleton, Hseen. set_solver.
    + destruct (filtered_out opts doc); [done|]. rewrite fmap_app. apply NoDup_app.
      split; [done|]. split; [|apply NoDup_singleton].
      intros i (d & -> & Hd)%list_elem_of_fmap E%list_elem_of_singleton. apply Hs.
      rewrite <-E. by apply Hin.
    + intros d. destruct (filtered_out opts doc); set_solver.
    + intros d.
      destruct (filtered_out opts doc) eqn:Hf.
      * rewrite Hres. split; [intros []; auto|]. intros [[?|[[= ->] _]]%Hnew ?]; [auto|congruence].
      * rewrite elem_of_app, list_elem_of_singleton, Hres. split.
        -- intros [[]| ->]; auto.
        -- intros [[?|[[= ->] _]]%Hnew ?]; auto.
Qed.

(** The elements dropped from a sorted list come after those kept. *)
Lemma sorted_cut (l : list SearchHit) n d r :
  cmp_sorted (cmp_desc h_createdAt) l → d ∈ drop n l → r ∈ take n l →
  (h_createdAt d ≤ h_createdAt r)%Z.
Proof.
  intros Hs Hd Hr. rewrite <-(take_drop n l) in Hs. apply StronglySorted_app in Hs as (H & _ & _).
  specialize (H r d Hr Hd). unfold cmp_desc in H. lia.
Qed.

(** the worker answers with at most the limit, newest first, each id once: documents
    that the index of a searched channel found, that are the first with their id and
    that pass the filters; and with all of these there are, except that when the limit
    is reached those left out are not newer than any that is shown. *)
Theorem worker_search_top query opts indexes :
  let res := worker_search query opts indexes in
  let docs := found query opts indexes in
  cmp_sorted (cmp_desc h_createdAt) res ∧ NoDup (h_id <$> res) ∧
  length res ≤ or_default 25 (o_limit opts) ∧
  (∀ d, d ∈ res → first_with_id docs d ∧ filtered_out opts d = false) ∧
  (∀ d, first_with_id docs d → filtered_out opts d = false →
     d ∈ res ∨ length res = or_default 25 (o_limit opts) ∧
               ∀ r, r ∈ res → (h_createdAt d ≤ h_createdAt r)%Z).
Proof.
  cbv zeta. unfold worker_search. set (n := or_default 25 (o_limit opts)).
  pose proof (consider_all opts (found query opts indexes)) as Hall.
  destruct (foldl (consider opts) ([], []) (found query opts indexes)) as [seen results].
  destruct Hall as (_ & Hnd & _ & Hres). set (l := js_sort (cmp_desc h_createdAt) results).
  assert (Hl : cmp_sorted (cmp_desc h_createdAt) l) by apply js_sort_sorted, _.
  assert (Hel : ∀ d, d ∈ l ↔ d ∈ results) by (intros; apply js_sort_elem_of).
  assert (Hnl : NoDup (h_id <$> l)) by by apply js_sort_keys_NoDup.
  split; [|split; [|split; [|split]]].
  - rewrite <-(take_drop n l) in Hl. by apply StronglySorted_app in Hl as (_ & ? & _).
  - rewrite fmap_take. eapply sublist_NoDup; [exact Hnl|]. apply sublist_take.
  - rewrite length_take. lia.
  - intros d (i & Hi & _)%elem_of_take. by apply Hres, Hel, (list_elem_of_lookup_2 _ i).
  - intros d Hd Hf. assert (Hin : d ∈ l) by (by apply Hel, Hres).
    rewrite <-(take_drop n l), elem_of_app in Hin. destruct Hin as [|Hin]; [by left|right].
    split.
    + rewrite length_take. assert (n < length l); [|lia].
      destruct (decide (n < length l)); [done|]. rewrite drop_ge in Hin by lia. set_solver.
    + intros r Hr. by apply (sorted_cut l n).
Qed.
End worker.

(** ** Filling the index *)

Record IndexableMessage := {
  i_id : string;
  i_channelId : string;
  i_authorId : string;
  i_content : json;
  i_createdAt : Z;
  i_hasAttachment : bool;
  i_hasMention : bool;
}.

Section indexer.
Context (parse : string → result unit json).
(** [Date.now()], for a message without a time *)
Context (now : Z).

Definition toIndexable (channelId : string) (msg : Message)
    : result unit (option IndexableMessage) :=
  if decide (m_encryptedContent msg = []) then Ok None
  else if (0 <? m_keyVersion msg)%Z then Ok None
  else
    let! parsed := parseMessageContent parse (m_encryptedContent msg) in
    match text parsed with
    | Some t =>
        if json_truthy (Some t) then
          Ok (Some {| i_id := m_id msg; i_channelId := channelId; i_authorId := m_authorId msg;
                      i_content := t;
                      i_createdAt := match m_createdAt msg with
                                     | Some c => ts_seconds c * 1000 | None => now end;
                      i_hasAttachment := negb (bool_decide (m_attachments msg = []));
                      i_hasMention := negb (bool_decide (m_mentionedUserIds msg = [])) ||
                                      m_mentionEveryone msg |})
        else Ok None
    | None => Ok None
    end.

Fixpoint toBatch (channelId : string) (msgs : list Message)
    : result unit (list IndexableMessage) :=
  match msgs with
  | [] => Ok []
  | msg :: msgs =>
      let! i := toIndexable channelId msg in
      let! batch := toBatch channelId msgs in
      Ok (match i with Some i => i :: batch | None => batch end)
  end.

(** *** Backfill *)

Definition BATCH_SIZE : nat := 100.
Definition TOTAL_PAGES : nat := 30.

(** The server's answer to a page's request, [before] a message or from the newest, and
    whether the controller is aborted before the request and after the answer *)
Context (getMessages : option string → result unit (list Message * bool)).
Context (aborted_before aborted_after : nat → bool).

(** The loop from a page on: the requests made, the batches added, and how it ended *)
Fixpoint backfill_pages (channelId : string) (fuel page : nat) (beforeId : option string)
    : list (option string) * list (list IndexableMessage) * result unit unit :=
  match fuel with
  | 0 => ([], [], Ok tt)
  | S fuel =>
      if aborted_before page then ([], [], Ok tt)
      else match getMessages beforeId with
      | Throw e => ([beforeId], [], Throw e)
      | Ok (messages, more) =>
          if aborted_after page then ([beforeId], [], Ok tt)
          else if decide (messages = []) then ([beforeId], [], Ok tt)
          else match toBatch channelId messages with
          | Throw e => ([beforeId], [], Throw e)
          | Ok batch =>
              let added := if decide (batch = []) then [] else [batch] in
              let beforeId' :=
                match last messages with Some oldest => Some (m_id oldest) | None => beforeId end in
              if more then
                let '(reqs, batches, r) := backfill_pages channelId fuel (S page) beforeId' in
                (beforeId :: reqs, added ++ batches, r)
              else ([beforeId], added, Ok tt)
          end
      end
  end.

(** The module's sets *)
Record BackfillState := { backfilling : gset string; backfilled : gset string }.

(** A backfill that runs to its end *)
Definition backfillChannel (channelId : string) (s : BackfillState)
    : list (option string) * list (list IndexableMessage) * BackfillState :=
  if decide (channelId ∈ backfilling s ∨ channelId ∈ backfilled s) then ([], [], s)
  else
    let '(reqs, batches, r) := backfill_pages channelId TOTAL_PAGES 0 None in
    let totalIndexed := length (concat batches) in
    (reqs, batches,
     {| backfilling := backfilling s ∖ {[channelId]};
        backfilled :=
          if r then if decide (0 < totalIndexed) then {[channelId]} ∪ backfilled s else backfilled s
          else backfilled s |}).

(** The channel's messages, newest first, and a server that pages through them *)
Context (history : list Message).
Definition serves : Prop :=
  getMessages None = Ok (take BATCH_SIZE history, bool_decide (BATCH_SIZE < length history)) ∧
  ∀ i m, history !! i = Some m →
    getMessages (Some (m_id m)) =
      Ok (take BATCH_SIZE (drop (S i) history),
          bool_decide (BATCH_SIZE < length (drop (S i) history))).

Definition cursor (n : nat) : option string :=
  match n with 0 => None | S i => m_id <$> history !! i end.

Lemma serves_cursor n :
  serves → n ≤ length history →
  getMessages (cursor n) = Ok (take BATCH_SIZE (drop n history),
    bool_decide (BATCH_SIZE < length (drop n history))).
Proof.
  intros [H1 H2] Hn. destruct n as [|i]; [exact H1|]. simpl.
  destruct (lookup_lt_is_Some_2 history i) as [m Hm]; [lia|]. rewrite Hm. by apply H2.
Qed.

Lemma toBatch_app c l l' b b' :
  toBatch c l = Ok b → toBatch c l' = Ok b' → toBatch c (l ++ l') = Ok (b ++ b').
Proof.
  revert b. induction l as [|m l IH]; intros b; simpl; [by intros [= <-]|].
  intros (i & -> & (b0 & Hb0 & [= <-])%result_bind_Ok)%result_bind_Ok Hb'.
  simpl. rewrite (IH b0 Hb0 Hb'). simpl. by destruct i.
Qed.
Lemma toBatch_split c l l' b :
  toBatch c (l ++ l') = Ok b →
  ∃ b1 b2, toBatch c l = Ok b1 ∧ toBatch c l' = Ok b2 ∧ b = b1 ++ b2.
Proof.
  revert b. induction l as [|m l IH]; intros b; simpl; [intros Hb; by exists [], b|].
  intros (i & -> & (b0 & Hb0 & [= <-])%result_bind_Ok)%result_bind_Ok.
  destruct (IH b0 Hb0) as (b1 & b2 & -> & -> & ->). simpl.
  exists (match i with Some i => i :: b1 | None => b1 end), b2. by destruct i.
Qed.

Lemma backfill_from c fuel page n b :
  serves → (∀ p, aborted_before p = false) → (∀ p, aborted_after p = false) →
  n ≤ length history → toBatch c (take (fuel * BATCH_SIZE) (drop n history)) = Ok b →
  let '(reqs, batches, r) := backfill_pages c fuel page (cursor n) in
  concat batches = b ∧ r = Ok tt ∧ length reqs ≤ fuel.
Proof.
  intros Hserves Hb1 Hb2. revert page n b. induction fuel as [|fuel IH]; intros page n b Hn Hb.
  { simpl in *. by injection Hb as <-. }
  cbn [backfill_pages]. rewrite Hb1, (serves_cursor n Hserves Hn), Hb2.
  set (rest := drop n history) in *. set (page_msgs := take BATCH_SIZE rest).
  assert (Esplit : take (S fuel * BATCH_SIZE) rest =
    page_msgs ++ take (fuel * BATCH_SIZE) (drop BATCH_SIZE rest)).
  { rewrite <-(take_drop BATCH_SIZE (take (S fuel * BATCH_SIZE) rest)).
    rewrite take_take, skipn_firstn_comm, Nat.min_l by (unfold BATCH_SIZE; lia).
    unfold page_msgs. do 2 f_equal. unfold BATCH_SIZE. lia. }
  rewrite Esplit in Hb. destruct (toBatch_split _ _ _ _ Hb) as (b1 & b2 & E1 & E2 & ->).
  case_decide as He.
  { rewrite He in E1. injection E1 as <-.
    assert (rest = []) as Hrest.
    { destruct rest as [|m rest']; [done|]. unfold page_msgs, BATCH_SIZE in He. by simpl in He. }
    rewrite Hrest in E2. rewrite drop_nil, take_nil in E2. injection E2 as <-.
    simpl. split; [done|]. split; [done|lia]. }
  rewrite E1.
  assert (Hadd : concat (if decide (b1 = []) then [] else [b1]) = b1).
  { case_decide; [by subst|]. simpl. apply app_nil_r. }
  case_bool_decide as Hmore.
  - assert (Hlast : match last page_msgs with Some oldest => Some (m_id oldest)
        | None => cursor n end = cursor (n + BATCH_SIZE)).
    { assert (Hlen : length page_msgs = BATCH_SIZE)
        by (unfold page_msgs; rewrite length_take; lia).
      rewrite last_lookup, Hlen. unfold page_msgs. rewrite lookup_take by (unfold BATCH_SIZE; lia).
      unfold rest. rewrite lookup_drop. unfold BATCH_SIZE in *. simpl pred.
      replace (n + 100) with (S (n + 99)) by lia. simpl cursor.
      destruct (lookup_lt_is_Some_2 history (n + 99)) as [m Hm]; [|by rewrite Hm].
      unfold rest in Hmore. rewrite length_drop in Hmore. lia. }
    rewrite Hlast. unfold rest in *. rewrite drop_drop in E2. rewrite length_drop in Hmore.
    specialize (IH (S page) (n + BATCH_SIZE) b2 ltac:(lia) E2).
    destruct (backfill_pages c fuel (S page) (cursor (n + BATCH_SIZE))) as [[reqs batches] r].
    destruct IH as (I1 & I2 & I3). split; [|split; [done|simpl; lia]].
    rewrite concat_app, Hadd. by f_equal.
  - rewrite (drop_ge rest BATCH_SIZE) in E2 by lia. rewrite take_nil in E2. injection E2 as <-.
    split; [by rewrite Hadd, app_nil_r|]. split; [done|simpl; lia].
Qed.

(** a backfill that is not cancelled indexes the newest three thousand messages of
    the channel, each that can be read exactly once, with at most thirty requests, and
    marks the channel so that it is not done again; a second call makes no request. *)
Theorem backfill_covers c s b :
  serves → (∀ p, aborted_before p = false) → (∀ p, aborted_after p = false) →
  c ∉ backfilling s → c ∉ backfilled s → toBatch c (take 3000 history) = Ok b →
  let '(reqs, batches, s') := backfillChannel c s in
  concat batches = b ∧ length reqs ≤ 30 ∧
  (b ≠ [] → c ∈ backfilled s' ∧ (backfillChannel c s').1 = ([], [])) ∧
  (b = [] → backfilled s' = backfilled s) ∧ c ∉ backfilling s'.
Proof.
  intros Hserves Hb1 Hb2 Hc1 Hc2 Hb.
  pose proof (backfill_from c TOTAL_PAGES 0 0 b Hserves Hb1 Hb2 (Nat.le_0_l _) Hb) as Hfrom.
  unfold backfillChannel at 1. rewrite decide_False by tauto.
  change (cursor 0) with (@None string) in Hfrom.
  destruct (backfill_pages c TOTAL_PAGES 0 None) as [[reqs batches] r].
  destruct Hfrom as (<- & -> & Hlen).
  split; [done|]. split; [done|]. split; [|split; [|simpl; set_solver]].
  - intros Hne. case_decide as Hd; [|destruct (concat batches); simpl in *; [done|lia]].
    simpl. split; [set_solver|]. unfold backfillChannel. rewrite decide_True; [done|].
    right. simpl. set_solver.
  - intros ->. by rewrite decide_False by (simpl; lia).
Qed.

(** a backfill that is cancelled after its first page is marked as complete all the
    same: the rest of the channel is not indexed, and no later backfill of the session
    makes a request. *)
Theorem cancelled_backfill_is_final c s ms b :
  c ∉ backfilling s → c ∉ backfilled s →
  getMessages None = Ok (ms, true) → toBatch c ms = Ok b → b ≠ [] →
  aborted_before 0 = false → aborted_after 0 = false → aborted_before 1 = true →
  let '(reqs, batches, s') := backfillChannel c s in
  reqs = [None] ∧ batches = [b] ∧ c ∈ backfilled s' ∧ (backfillChannel c s').1 = ([], []).
Proof.
  intros Hc1 Hc2 Hget Hb Hne Ha0 Ha0' Ha1. unfold backfillChannel at 1.
  rewrite decide_False by tauto. unfold TOTAL_PAGES. cbn [backfill_pages].
  rewrite Ha0, Hget, Ha0'. case_decide as Hms; [subst ms; simpl in Hb; congruence|].
  rewrite Hb, Ha1. rewrite decide_False by done. simpl. rewrite app_nil_r.
  rewrite decide_True by (destruct b; [done|simpl; lia]). simpl.
  split; [done|]. split; [done|]. split; [set_solver|].
  unfold backfillChannel. rewrite decide_True; [done|]. right. simpl. set_solver.
Qed.
End indexer.

(** ** Concrete inputs *)

(** An index of one channel with one field *)
Definition demo_index (hits : list SearchHit) (c q : string) (tag : option string) (limit : nat)
    : list (list (option SearchHit)) := [take limit (Some <$> hits)].

Example worker_search_demo :
  worker_search (demo_index [demo_hit "m1" 5; demo_hit "m2" 7; demo_hit "m1" 5; demo_hit "m3" 6])
    "hi" {| o_channelId := None; o_authorId := None; o_before := None; o_after := Some 5%Z;
            o_hasAttachment := None; o_limit := None |} ["c1"] =
  [demo_hit "m2" 7; demo_hit "m3" 6].
Proof. vm_compute. reflexivity. Qed.

Definition plain (id : string) : Message := encrypted_message id [104; 105]%Z 0.
Definition demo_history : list Message := [plain "m2"; plain "m1"].
Definition demo_pages (before : option string) : result unit (list Message * bool) :=
  match before with
  | None => Ok (demo_history, false)
  | Some "m2" => Ok ([plain "m1"], false)
  | _ => Ok ([], false)
  end.
Definition no_json (s : string) : result unit json := Throw tt.
Definition no_backfill : BackfillState := {| backfilling := ∅; backfilled := ∅ |}.

Definition demo_batch : list IndexableMessage :=
  or_default [] (result_opt (toBatch no_json 0 "c1" demo_history)).

Lemma backfill_covers_witness :
  length demo_batch = 2 ∧
    let '(reqs, batches, s') :=
      backfillChannel no_json 0 demo_pages (λ _, false) (λ _, false) "c1" no_backfill in
    concat batches = demo_batch ∧ length reqs ≤ 30.
Proof.
  split; [vm_compute; reflexivity|].
  pose proof (backfill_covers no_json 0 demo_pages (λ _, false) (λ _, false) demo_history
    "c1" no_backfill demo_batch) as H.
  destruct (backfillChannel _ _ _ _ _ _ _) as [[reqs batches] s'].
  destruct H as (H1 & H2 & _); [|reflexivity|reflexivity|set_solver..|
    vm_compute; reflexivity|split; [exact H1|exact H2]].
  split; [reflexivity|]. intros [|[|i]] m Hm; [..|done]; injection Hm as <-; reflexivity.
Defined.

Lemma cancelled_backfill_is_final_witness :
  let '(reqs, batches, s') :=
    backfillChannel no_json 0 (λ _, Ok (demo_history, true)) (λ p, bool_decide (p = 1))
      (λ _, false) "c1" no_backfill in
  reqs = [None] ∧ "c1" ∈ backfilled s'.
Proof.
  pose proof (cancelled_backfill_is_final no_json 0 (λ _, Ok (demo_history, true))
    (λ p, bool_decide (p = 1)) (λ _, false) "c1" no_backfill demo_history
    demo_batch) as H.
  destruct (backfillChannel _ _ _ _ _ _ _) as [[reqs batches] s'].
  destruct H as (H1 & _ & H2 & _); 
    [set_solver|set_solver|reflexivity|reflexivity|discriminate|reflexivity|reflexivity|reflexivity|].
  split; [exact H1|exact H2].
Defined.
