(* ===== verification/Connection.v ===== *)
(** * The gateway connection ([gateway/gateway.ts])

    One WebSocket to the server: the handshake, the heartbeat, the reconnect schedule
    and the reactions to the browser going offline, online and into view.  The events
    of a socket carry the generation it was opened in; handlers of an older generation
    do nothing.  Times are milliseconds.  The sockets, their states and what was sent on
    each are part of the model, so that it can be said what a server sees. *)

From stdpp Require Import pretty.
From S2P Require Export GatewayStatus Presence.

(** ** State *)

Inductive GatewayOpCode := IDENTIFY | HEARTBEAT | TYPING_START.
Inductive ReadyState := CONNECTING | OPEN | CLOSING | CLOSED.

#[export] Instance ReadyState_eq_dec : EqDecision ReadyState.
Proof. solve_decision. Defined.

Record Socket := { readyState : ReadyState; auth_token : string; sent : list GatewayOpCode }.

Record Connection := {
  gw : GatewayState;
  presence : PresenceState;
  ws : option Z;
  sockets : gmap Z Socket;
  heartbeatTimer : bool;
  reconnectTimer : option Z;
  reconnectDelay : Z;
  reconnectAttempts : Z;
  generation : Z;
  lastHeartbeatAck : Z;
  hasConnectedBefore : bool;
  lastReconnectRefetch : Z;
  lastRedistributeTime : Z;
  reconnectGraceUntil : Z;
  isOnline : bool;
  typingThrottles : gmap string Z;
  accessToken : option string;
  clock : Z;
}.

Definition initial_connection (online : bool) : Connection :=
  {| gw := GatewayStatus.emptyState; presence := Presence.emptyState; ws := None; sockets := ∅;
     heartbeatTimer := false; reconnectTimer := None; reconnectDelay := 1000;
     reconnectAttempts := 0; generation := 0; lastHeartbeatAck := 0;
     hasConnectedBefore := false; lastReconnectRefetch := 0; lastRedistributeTime := 0;
     reconnectGraceUntil := 0; isOnline := online; typingThrottles := ∅;
     accessToken := None; clock := 0 |}.

Definition on_gw f (s : Connection) : Connection :=
  {| gw := f (gw s); presence := presence s; ws := ws s; sockets := sockets s;
     heartbeatTimer := heartbeatTimer s; reconnectTimer := reconnectTimer s;
     reconnectDelay := reconnectDelay s; reconnectAttempts := reconnectAttempts s;
     generation := generation s; lastHeartbeatAck := lastHeartbeatAck s;
     hasConnectedBefore := hasConnectedBefore s;
     lastReconnectRefetch := lastReconnectRefetch s;
     lastRedistributeTime := lastRedistributeTime s;
     reconnectGraceUntil := reconnectGraceUntil s; isOnline := isOnline s;
     typingThrottles := typingThrottles s; accessToken := accessToken s; clock := clock s |}.
Definition on_presence f (s : Connection) : Connection :=
  {| gw := gw s; presence := f (presence s); ws := ws s; sockets := sockets s;
     heartbeatTimer := heartbeatTimer s; reconnectTimer := reconnectTimer s;
     reconnectDelay := reconnectDelay s; reconnectAttempts := reconnectAttempts s;
     generation := generation s; lastHeartbeatAck := lastHeartbeatAck s;
     hasConnectedBefore := hasConnectedBefore s;
     lastReconnectRefetch := lastReconnectRefetch s;
     lastRedistributeTime := lastRedistributeTime s;
     reconnectGraceUntil := reconnectGraceUntil s; isOnline := isOnline s;
     typingThrottles := typingThrottles s; accessToken := accessToken s; clock := clock s |}.
(** The socket variable, the sockets and the generation *)
Definition on_socket w f g (s : Connection) : Connection :=
  {| gw := gw s; presence := presence s; ws := w; sockets := f (sockets s);
     heartbeatTimer := heartbeatTimer s; reconnectTimer := reconnectTimer s;
     reconnectDelay := reconnectDelay s; reconnectAttempts := reconnectAttempts s;
     generation := g; lastHeartbeatAck := lastHeartbeatAck s;
     hasConnectedBefore := hasConnectedBefore s;
     lastReconnectRefetch := lastReconnectRefetch s;
     lastRedistributeTime := lastRedistributeTime s;
     reconnectGraceUntil := reconnectGraceUntil s; isOnline := isOnline s;
     typingThrottles := typingThrottles s; accessToken := accessToken s; clock := clock s |}.
Definition set_heartbeat h a (s : Connection) : Connection :=
  {| gw := gw s; presence := presence s; ws := ws s; sockets := sockets s;
     heartbeatTimer := h; reconnectTimer := reconnectTimer s;
     reconnectDelay := reconnectDelay s; reconnectAttempts := reconnectAttempts s;
     generation := generation s; lastHeartbeatAck := a;
     hasConnectedBefore := hasConnectedBefore s;
     lastReconnectRefetch := lastReconnectRefetch s;
     lastRedistributeTime := lastRedistributeTime s;
     reconnectGraceUntil := reconnectGraceUntil s; isOnline := isOnline s;
     typingThrottles := typingThrottles s; accessToken := accessToken s; clock := clock s |}.
(** The reconnect timer, delay and attempts *)
Definition set_backoff t d n (s : Connection) : Connection :=
  {| gw := gw s; presence := presence s; ws := ws s; sockets := sockets s;
     heartbeatTimer := heartbeatTimer s; reconnectTimer := t;
     reconnectDelay := d; reconnectAttempts := n;
     generation := generation s; lastHeartbeatAck := lastHeartbeatAck s;
     hasConnectedBefore := hasConnectedBefore s;
     lastReconnectRefetch := lastReconnectRefetch s;
     lastRedistributeTime := lastRedistributeTime s;
     reconnectGraceUntil := reconnectGraceUntil s; isOnline := isOnline s;
     typingThrottles := typingThrottles s; accessToken := accessToken s; clock := clock s |}.
(** What remembers earlier connections: the flag and the times of the last refetch, the
    last redistribution of keys, and the end of the quiet period *)
Definition set_history b r d q (s : Connection) : Connection :=
  {| gw := gw s; presence := presence s; ws := ws s; sockets := sockets s;
     heartbeatTimer := heartbeatTimer s; reconnectTimer := reconnectTimer s;
     reconnectDelay := reconnectDelay s; reconnectAttempts := reconnectAttempts s;
     generation := generation s; lastHeartbeatAck := lastHeartbeatAck s;
     hasConnectedBefore := b; lastReconnectRefetch := r; lastRedistributeTime := d;
     reconnectGraceUntil := q; isOnline := isOnline s;
     typingThrottles := typingThrottles s; accessToken := accessToken s; clock := clock s |}.
(** Connectivity, throttles, token and clock *)
Definition set_env o th t c (s : Connection) : Connection :=
  {| gw := gw s; presence := presence s; ws := ws s; sockets := sockets s;
     heartbeatTimer := heartbeatTimer s; reconnectTimer := reconnectTimer s;
     reconnectDelay := reconnectDelay s; reconnectAttempts := reconnectAttempts s;
     generation := generation s; lastHeartbeatAck := lastHeartbeatAck s;
     hasConnectedBefore := hasConnectedBefore s;
     lastReconnectRefetch := lastReconnectRefetch s;
     lastRedistributeTime := lastRedistributeTime s;
     reconnectGraceUntil := reconnectGraceUntil s; isOnline := o;
     typingThrottles := th; accessToken := t; clock := c |}.

(** ** Operations *)

Definition push_op (op : GatewayOpCode) (k : Socket) : Socket :=
  {| readyState := readyState k; auth_token := auth_token k; sent := sent k ++ [op] |}.
Definition set_ready (r : ReadyState) (k : Socket) : Socket :=
  {| readyState := r; auth_token := auth_token k; sent := sent k |}.
(** [socket.close()]: nothing happens on one that is closing or closed. *)
Definition close_socket (k : Socket) : Socket :=
  match readyState k with CONNECTING | OPEN => set_ready CLOSING k | _ => k end.

Definition on_current f (s : Connection) : Connection :=
  match ws s with
  | Some g => on_socket (ws s) (alter f g) (generation s) s
  | None => s
  end.

Definition sendEnvelope (op : GatewayOpCode) : Connection → Connection :=
  on_current (λ k, if decide (readyState k = OPEN) then push_op op k else k).

Definition startHeartbeat (s : Connection) : Connection :=
  set_heartbeat true (lastHeartbeatAck s) s.
Definition stopHeartbeat (s : Connection) : Connection :=
  set_heartbeat false (lastHeartbeatAck s) s.

Definition scheduleReconnect (s : Connection) : Connection :=
  if negb (isOnline s) then on_gw (setStatus reconnecting) s
  else if (10 <=? reconnectAttempts s)%Z then s
  else
    let n := (reconnectAttempts s + 1)%Z in
    set_backoff (Some (reconnectDelay s)) (Z.min (reconnectDelay s * 2) 30000) n
      (on_gw (λ g, setReconnectAttempt n (setStatus reconnecting g)) s).

Definition disconnect (preserveReconnect : bool) (s : Connection) : Connection :=
  let s := on_presence (setMyStatus OFFLINE) s in
  let s := on_socket (ws s) id (generation s + 1) s in
  let s := stopHeartbeat s in
  let s := set_backoff None (reconnectDelay s) (reconnectAttempts s) s in
  let s := on_current close_socket s in
  let s := on_socket None id (generation s) s in
  let s := set_env (isOnline s) ∅ (accessToken s) (clock s) s in
  let s := set_heartbeat false 0 s in
  let s := if preserveReconnect then s
           else set_history false 0 (lastRedistributeTime s) (reconnectGraceUntil s) s in
  on_gw (setStatus disconnected) s.

Definition connect (token : string) (s : Connection) : Connection :=
  let s := disconnect true s in
  let gen := (generation s + 1)%Z in
  let s := on_gw (λ g, setLastError None (setStatus connecting g)) s in
  on_socket (Some gen)
    <[gen := {| readyState := CONNECTING; auth_token := token; sent := [] |}]> gen s.

(** [if (freshToken) connect(freshToken)] *)
Definition connect_with_token (s : Connection) : Connection :=
  if truthy (accessToken s) then connect (or_default "" (accessToken s)) s else s.

Definition onopen (gen : Z) (s : Connection) : Connection :=
  if decide (gen ≠ generation s) then s
  else
    let s := sendEnvelope IDENTIFY s in
    let s := startHeartbeat (set_heartbeat (heartbeatTimer s) (clock s) s) in
    let s := set_backoff (reconnectTimer s) 1000 0 s in
    let s := on_gw (λ g, setReconnectAttempt 0 (setStatus connected g)) s in
    on_presence announce_online s.

Definition close_text (reason : string) (code : Z) : string :=
  if decide (reason = "") then ("WebSocket closed (code " +:+ pretty code +:+ ")")%string
  else reason.

Definition onclose (gen : Z) (reason : string) (code : Z) (s : Connection) : Connection :=
  if decide (gen ≠ generation s) then s
  else
    let s := stopHeartbeat s in
    let s := on_gw (setLastError (Some (close_text reason code))) s in
    scheduleReconnect s.

(** The interval's callback *)
Definition heartbeat (s : Connection) : Connection :=
  if ((0 <? lastHeartbeatAck s) && (45000 <? clock s - lastHeartbeatAck s))%Z
  then on_current close_socket s
  else sendEnvelope HEARTBEAT s.

Definition REDISTRIBUTE_COOLDOWN_MS : Z := 5000.
Definition RECONNECT_REFETCH_COOLDOWN_MS : Z := 3000.

(** Whether a valid READY makes the client fetch everything again *)
Definition refetches (s : Connection) : bool :=
  hasConnectedBefore s && (RECONNECT_REFETCH_COOLDOWN_MS <? clock s - lastReconnectRefetch s)%Z.
(** Whether it redistributes the cached channel keys *)
Definition redistributes (session_ready : bool) (cachedIds : list string) (s : Connection) : bool :=
  session_ready && (REDISTRIBUTE_COOLDOWN_MS <? clock s - lastRedistributeTime s)%Z &&
  negb (bool_decide (cachedIds = [])).

(** What a valid READY does to the connection *)
Definition on_ready (session_ready : bool) (cachedIds : list string) (s : Connection) : Connection :=
  let refetch := refetches s in
  let redistribute := redistributes session_ready cachedIds s in
  let s := if refetch then on_presence Presence.reset (on_gw incrementReconnectCount s) else s in
  set_history true (if refetch then clock s else lastReconnectRefetch s)
    (if redistribute then clock s else lastRedistributeTime s) (clock s + 3000) s.

Definition sendTyping (channelId : string) (s : Connection) : Connection :=
  let lastSent := or_default 0%Z (typingThrottles s !! channelId) in
  if (clock s - lastSent <? 3000)%Z then s
  else sendEnvelope TYPING_START
         (set_env (isOnline s) (<[channelId := clock s]> (typingThrottles s)) (accessToken s)
            (clock s) s).

Definition go_online (s : Connection) : Connection :=
  let s := set_env true (typingThrottles s) (accessToken s) (clock s) s in
  if decide (status (gw s) = reconnecting)
  then connect_with_token (set_backoff None 1000 (reconnectAttempts s) s)
  else s.
Definition go_offline (s : Connection) : Connection :=
  let s := set_env false (typingThrottles s) (accessToken s) (clock s) s in
  set_backoff None (reconnectDelay s) (reconnectAttempts s) s.
Definition becomes_visible (s : Connection) : Connection :=
  if decide (status (gw s) = reconnecting)
  then connect_with_token (set_backoff None 1000 (reconnectAttempts s) s)
  else if decide (status (gw s) = connected ∧ is_Some (ws s)) then
    if ((0 <? lastHeartbeatAck s) && (45000 <? clock s - lastHeartbeatAck s))%Z
    then on_current close_socket s else s
  else s.

(** ** Events *)

Inductive event :=
  | Connect (token : string)
  | Disconnect (preserveReconnect : bool)
  | SocketOpens (gen : Z)
  | SocketCloses (gen : Z) (reason : string) (code : Z)
  | Ready (gen : Z) (session_ready : bool) (cachedIds : list string)
  | BadReady (gen : Z)
  | HeartbeatAck (gen : Z)
  | HeartbeatFires
  | ReconnectFires
  | GoesOnline
  | GoesOffline
  | BecomesVisible
  | SendsTyping (channelId : string)
  | ForgetsThrottle (channelId : string)
  | ViewsChannel (channelId : string)
  | LeavesChannel (channelId : string)
  | SetsPresence (f : PresenceState → PresenceState)
  | SetsToken (token : string)
  | Tick (ms : Z).

(** [socket.onmessage]: only an open socket has messages, and the handler of a socket of
    an older generation ignores them. *)
Definition receives (gen : Z) (s : Connection) : bool :=
  match sockets s !! gen with
  | Some k => bool_decide (readyState k = OPEN) && bool_decide (gen = generation s)
  | None => false
  end.
Definition onmessage (gen : Z) (f : Connection → Connection) (s : Connection) : Connection :=
  if receives gen s then f s else s.

(** A socket opens once, from connecting, and closes once. *)
Definition step (e : event) (s : Connection) : Connection :=
  match e with
  | Connect token => connect token s
  | Disconnect p => disconnect p s
  | SocketOpens g =>
      match sockets s !! g with
      | Some k =>
          if decide (readyState k = CONNECTING)
          then onopen g (on_socket (ws s) (alter (set_ready OPEN) g) (generation s) s) else s
      | None => s
      end
  | SocketCloses g reason code =>
      match sockets s !! g with
      | Some k =>
          if decide (readyState k = CLOSED) then s
          else onclose g reason code
                 (on_socket (ws s) (alter (set_ready CLOSED) g) (generation s) s)
      | None => s
      end
  | Ready g b ids => onmessage g (on_ready b ids) s
  | BadReady g => onmessage g scheduleReconnect s
  | HeartbeatAck g => onmessage g (λ s, set_heartbeat (heartbeatTimer s) (clock s) s) s
  | HeartbeatFires => if heartbeatTimer s then heartbeat s else s
  | ReconnectFires =>
      match reconnectTimer s with
      | Some _ => connect_with_token (set_backoff None (reconnectDelay s) (reconnectAttempts s) s)
      | None => s
      end
  | GoesOnline => go_online s
  | GoesOffline => go_offline s
  | BecomesVisible => becomes_visible s
  | SendsTyping c => sendTyping c s
  | ForgetsThrottle c =>
      set_env (isOnline s) (delete c (typingThrottles s)) (accessToken s) (clock s) s
  | ViewsChannel c => on_gw (addViewedChannel c) s
  | LeavesChannel c => on_gw (removeViewedChannel c) s
  | SetsPresence f => on_presence f s
  | SetsToken t => set_env (isOnline s) (typingThrottles s) (Some t) (clock s) s
  | Tick ms => set_env (isOnline s) (typingThrottles s) (accessToken s) (clock s + ms) s
  end.

(** A token is not empty, time does not run backwards, and the user is signed in when the
    client tries again. *)
Definition event_ok (e : event) (s : Connection) : Prop :=
  match e with
  | SetsToken t => t ≠ ""
  | Tick ms => (0 ≤ ms)%Z
  | ReconnectFires | GoesOnline | BecomesVisible => truthy (accessToken s) = true
  | _ => True
  end.

#[export] Instance connection_store : Store Connection event :=
  {| initial := initial_connection true; exec := step; admissible := event_ok |}.

(** ** What holds of every connection

    The live socket, if any, is the one the variable names; nothing but IDENTIFY opens a
    conversation, and it is sent once; an open socket is watched by the heartbeat. *)

Definition socket_wf (s : Connection) (g : Z) (k : Socket) : Prop :=
  (g ≤ generation s)%Z ∧
  (readyState k = CONNECTING ∨ readyState k = OPEN → ws s = Some g) ∧
  match readyState k with
  | CONNECTING => sent k = [] ∧ reconnectTimer s = None
  | OPEN => heartbeatTimer s = true ∧ ∃ l, sent k = IDENTIFY :: l ∧ IDENTIFY ∉ l
  | _ => sent k = [] ∨ ∃ l, sent k = IDENTIFY :: l ∧ IDENTIFY ∉ l
  end.

(** What is waited for while a connection is wanted: the end of the current socket, the
    timer, or the network; or the client has given up. *)
Definition pending (s : Connection) : Prop :=
  (∃ g k, ws s = Some g ∧ sockets s !! g = Some k ∧ readyState k ≠ CLOSED) ∨
  is_Some (reconnectTimer s) ∨
  (isOnline s = false ∧ status (gw s) = reconnecting) ∨
  (status (gw s) = connecting ∧ reconnectAttempts s = 10%Z).

Record connection_wf (s : Connection) : Prop := {
  wf_sockets : map_Forall (socket_wf s) (sockets s);
  wf_ws : ∀ g, ws s = Some g → g = generation s ∧ is_Some (sockets s !! g);
  wf_ws_none : ws s = None → sockets s !! generation s = None;
  wf_disconnected : status (gw s) = disconnected ↔ ws s = None;
  wf_heartbeat : heartbeatTimer s = true →
    ∃ g k, ws s = Some g ∧ sockets s !! g = Some k ∧ readyState k ∈ [OPEN; CLOSING];
  wf_delay : (1000 ≤ reconnectDelay s ≤ 30000)%Z;
  wf_attempts : (0 ≤ reconnectAttempts s ≤ 10)%Z;
  wf_connected : status (gw s) = connected → reconnectAttempts s = 0%Z ∧ heartbeatTimer s = true;
  wf_timer : is_Some (reconnectTimer s) → status (gw s) = reconnecting;
  wf_reconnecting :
    status (gw s) = reconnecting → isOnline s = true → is_Some (reconnectTimer s);
  wf_pending : status (gw s) ≠ disconnected → pending s;
}.

Ltac wf_same := intros []; split; assumption.

Lemma wf_set_env th t c s : connection_wf s → connection_wf (set_env (isOnline s) th t c s).
Proof. wf_same. Qed.
Lemma wf_on_presence f s : connection_wf s → connection_wf (on_presence f s).
Proof. wf_same. Qed.
Lemma wf_set_history b r d q s : connection_wf s → connection_wf (set_history b r d q s).
Proof. wf_same. Qed.
Lemma wf_ack a s : connection_wf s → connection_wf (set_heartbeat (heartbeatTimer s) a s).
Proof. wf_same. Qed.
Lemma wf_viewed f s : connection_wf s → connection_wf (on_gw (on_viewed f) s).
Proof. wf_same. Qed.
Lemma wf_count s : connection_wf s → connection_wf (on_gw incrementReconnectCount s).
Proof. wf_same. Qed.

(** What may happen to the current socket without an event of its own *)
Definition keeps_socket (f : Socket → Socket) : Prop :=
  ∀ s g k, connection_wf s → ws s = Some g → sockets s !! g = Some k →
    socket_wf s g (f k) ∧
    (readyState k ≠ CLOSED → readyState (f k) ≠ CLOSED) ∧
    (readyState k ∈ [OPEN; CLOSING] → readyState (f k) ∈ [OPEN; CLOSING]).

Lemma wf_on_current f s : keeps_socket f → connection_wf s → connection_wf (on_current f s).
Proof.
  unfold on_current. intros Hf Hwf. destruct (ws s) as [g|] eqn:Hws; [|done].
  assert (∀ k, sockets s !! g = Some k →
    socket_wf s g (f k) ∧ (readyState k ≠ CLOSED → readyState (f k) ≠ CLOSED) ∧
    (readyState k ∈ [OPEN; CLOSING] → readyState (f k) ∈ [OPEN; CLOSING])) as Hg
    by (intros; by apply Hf). clear Hf. destruct Hwf. rewrite <-Hws.
  split; simpl; try assumption.
  - apply map_Forall_lookup_2. intros g' k'. rewrite lookup_alter.
    case_decide; subst; [|by apply wf_sockets0].
    intros (k & Hk & ->)%fmap_Some. by apply Hg.
  - intros g' Hg'. rewrite lookup_alter_is_Some. auto.
  - intros. congruence.
  - intros (g' & k & Hg' & Hk & Hr)%wf_heartbeat0. simplify_eq/=.
    exists g, (f k). rewrite lookup_alter_eq, Hk. split; [done|]. split; [done|].
    by apply Hg.
  - intros [(g' & k & Hg' & Hk & Hr)|Hp]%wf_pending0; [|by right]. left. simplify_eq/=.
    exists g, (f k). rewrite lookup_alter_eq, Hk. split; [done|]. split; [done|].
    by apply Hg.
Qed.

Lemma keeps_push_op op : op ≠ IDENTIFY →
  keeps_socket (λ k, if decide (readyState k = OPEN) then push_op op k else k).
Proof.
  intros Hop s g k Hwf Hws Hk. pose proof (wf_sockets s Hwf g k Hk) as (Hle & Hlive & Hst).
  case_decide as Hr; [|done]. split; [|done]. split; [done|]. split; [done|].
  simpl. rewrite Hr in *. destruct Hst as (Hh & l & -> & Hl). split; [done|].
  exists (l ++ [op]). set_solver.
Qed.
Lemma keeps_close : keeps_socket close_socket.
Proof.
  intros s g k Hwf Hws Hk. pose proof (wf_sockets s Hwf g k Hk) as (Hle & Hlive & Hst).
  unfold close_socket.
  destruct (readyState k) eqn:Hr; rewrite <-?Hr; unfold socket_wf; simpl;
    rewrite ?Hr; (split; [|set_solver]); naive_solver.
Qed.
#[local] Hint Resolve wf_set_env wf_on_presence wf_set_history wf_ack wf_count wf_viewed
  wf_on_current keeps_close : meza.

(** The state after a teardown *)
Lemma disconnect_eq p s :
  disconnect p s =
    {| gw := setStatus disconnected (gw s); presence := setMyStatus OFFLINE (presence s);
       ws := None;
       sockets := match ws s with
                  | Some g => alter close_socket g (sockets s) | None => sockets s end;
       heartbeatTimer := false; reconnectTimer := None; reconnectDelay := reconnectDelay s;
       reconnectAttempts := reconnectAttempts s; generation := generation s + 1;
       lastHeartbeatAck := 0; hasConnectedBefore := p && hasConnectedBefore s;
       lastReconnectRefetch := if p then lastReconnectRefetch s else 0;
       lastRedistributeTime := lastRedistributeTime s;
       reconnectGraceUntil := reconnectGraceUntil s; isOnline := isOnline s;
       typingThrottles := ∅; accessToken := accessToken s; clock := clock s |}.
Proof. destruct s as [? ? [g|] ? ? ? ? ? ? ? ? ? ? ? ? ? ? ?], p; reflexivity. Qed.

Lemma connect_eq token s :
  connect token s =
    let g := (generation s + 2)%Z in
    {| gw := setLastError None (setStatus connecting (gw s));
       presence := setMyStatus OFFLINE (presence s); ws := Some g;
       sockets := <[g := {| readyState := CONNECTING; auth_token := token; sent := [] |}]>
         (match ws s with
          | Some g => alter close_socket g (sockets s) | None => sockets s end);
       heartbeatTimer := false; reconnectTimer := None; reconnectDelay := reconnectDelay s;
       reconnectAttempts := reconnectAttempts s; generation := g;
       lastHeartbeatAck := 0; hasConnectedBefore := hasConnectedBefore s;
       lastReconnectRefetch := lastReconnectRefetch s;
       lastRedistributeTime := lastRedistributeTime s;
       reconnectGraceUntil := reconnectGraceUntil s; isOnline := isOnline s;
       typingThrottles := ∅; accessToken := accessToken s; clock := clock s |}.
Proof.
  unfold connect. rewrite disconnect_eq. simpl. by rewrite <-Z.add_assoc.
Qed.

(** After a teardown no socket is live. *)
Lemma torn_down s g k :
  connection_wf s →
  match ws s with Some g => alter close_socket g (sockets s) | None => sockets s end !! g
    = Some k →
  (g ≤ generation s)%Z ∧ (readyState k = CLOSING ∨ readyState k = CLOSED) ∧
  (sent k = [] ∨ ∃ l, sent k = IDENTIFY :: l ∧ IDENTIFY ∉ l).
Proof.
  intros [] Hk.
  assert (∃ k0, sockets s !! g = Some k0 ∧ sent k = sent k0 ∧
    (k = k0 ∧ ws s ≠ Some g ∨ k = close_socket k0)) as (k0 & Hk0 & Hsent & Hcase).
  { destruct (ws s) as [g'|]; [|naive_solver]. rewrite lookup_alter in Hk.
    case_decide; subst; [|naive_solver]. apply fmap_Some in Hk as (k0 & ? & ->).
    exists k0. split; [done|]. split; [|by right]. unfold close_socket.
    by destruct (readyState k0). }
  destruct (wf_sockets0 g k0 Hk0) as (Hle & Hlive & Hst). split; [done|].
  rewrite Hsent. split.
  - destruct Hcase as [[-> Hne]| ->].
    + destruct (readyState k0); naive_solver.
    + unfold close_socket. destruct (readyState k0) eqn:E; simpl; auto.
  - destruct (readyState k0); naive_solver.
Qed.

Lemma wf_disconnect p s : connection_wf s → connection_wf (disconnect p s).
Proof.
  intros Hwf. rewrite disconnect_eq. pose proof (torn_down s) as Hdown. destruct Hwf eqn:E.
  split; simpl; try done; try by intros [].
  - intros g k Hk. destruct (Hdown g k Hwf Hk) as (Hle & Hr & Hsent).
    split; simpl; [lia|]. destruct Hr as [-> | ->]; naive_solver.
  - intros _. apply eq_None_not_Some. intros [k Hk].
    destruct (Hdown _ k Hwf Hk). lia.
Qed.
Lemma wf_connect token s : connection_wf s → connection_wf (connect token s).
Proof.
  intros Hwf. rewrite connect_eq. pose proof (torn_down s) as Hdown. destruct Hwf eqn:E.
  split; simpl; try done; try by intros [].
  - apply map_Forall_lookup_2. intros g k. rewrite lookup_insert. case_decide.
    + intros [= <-]. split; simpl; [lia|]. naive_solver.
    + intros Hk. destruct (Hdown g k Hwf Hk) as (Hle & Hr & Hsent).
      split; simpl; [lia|]. destruct Hr as [-> | ->]; naive_solver.
  - intros g [= <-]. split; [done|]. rewrite lookup_insert_eq. eauto.
  - left. exists (generation s + 2)%Z. eexists. simpl. rewrite lookup_insert_eq. done.
Qed.
(** Trying again, with the timer cleared and the delay as given *)
Lemma connect_with_token_eq d n s :
  truthy (accessToken s) = true →
  connect_with_token (set_backoff None d n s) =
    set_backoff None d n (connect (or_default "" (accessToken s)) s).
Proof. unfold connect_with_token. simpl. intros ->. by rewrite !connect_eq. Qed.

Lemma wf_retry d s :
  truthy (accessToken s) = true → (1000 ≤ d ≤ 30000)%Z → connection_wf s →
  connection_wf (connect_with_token (set_backoff None d (reconnectAttempts s) s)).
Proof.
  intros Htok Hd Hwf. rewrite connect_with_token_eq by done.
  apply (wf_connect (or_default "" (accessToken s))) in Hwf. revert Hwf.
  rewrite connect_eq. intros []. by split.
Qed.
#[local] Hint Resolve wf_disconnect wf_connect wf_retry : meza.

(** Scheduling an attempt, from a state that may have lost its socket *)
Record closing_wf (s : Connection) : Prop := {
  cl_sockets : map_Forall (socket_wf s) (sockets s);
  cl_ws : ∀ g, ws s = Some g → g = generation s ∧ is_Some (sockets s !! g);
  cl_ws_some : is_Some (ws s);
  cl_connecting : ∀ g k, sockets s !! g = Some k → readyState k ≠ CONNECTING;
  cl_heartbeat : heartbeatTimer s = true →
    ∃ g k, ws s = Some g ∧ sockets s !! g = Some k ∧ readyState k ∈ [OPEN; CLOSING];
  cl_delay : (1000 ≤ reconnectDelay s ≤ 30000)%Z;
  cl_attempts : (0 ≤ reconnectAttempts s ≤ 10)%Z;
  cl_status : status (gw s) ≠ disconnected;
  cl_connected : status (gw s) = connected → reconnectAttempts s = 0%Z;
  cl_timer : is_Some (reconnectTimer s) → status (gw s) = reconnecting;
  cl_reconnecting :
    status (gw s) = reconnecting → isOnline s = true → is_Some (reconnectTimer s);
}.

Lemma wf_scheduleReconnect s : closing_wf s → connection_wf (scheduleReconnect s).
Proof.
  intros []. destruct cl_ws_some0 as [g0 Hw]. unfold scheduleReconnect. destruct (isOnline s) eqn:Ho; simpl.
  - destruct (Z.leb_spec 10 (reconnectAttempts s)).
    + split; try assumption; try done.
      * congruence.
      * split; congruence.
      * intros Hc. specialize (cl_connected0 Hc). lia.
      * auto.
      * intros _. unfold pending. destruct (status (gw s)) eqn:E.
        -- right; right; right. split; [done|lia].
        -- specialize (cl_connected0 eq_refl). lia.
        -- done.
        -- right; left. auto.
    + split; simpl; try done.
      * intros g k Hk. specialize (cl_sockets0 g k Hk). specialize (cl_connecting0 g k Hk).
        destruct cl_sockets0 as (Hle & Hlive & Hst). split; [done|]. split; [done|].
        by destruct (readyState k).
      * congruence.
      * split; congruence.
      * lia.
      * lia.
      * intros _. right; left. eauto.
  - split; simpl; try assumption; try done.
    * congruence.
      * split; congruence.
    * congruence.
    * intros _. right; right; left. done.
Qed.

Lemma wf_onopen g s : connection_wf s → connection_wf (step (SocketOpens g) s).
Proof.
  intros Hwf. simpl. destruct (sockets s !! g) as [k|] eqn:Hk; [|done].
  case_decide as Hr; [|done]. destruct Hwf.
  destruct (wf_sockets0 g k Hk) as (Hle & Hlive & Hst). rewrite Hr in *.
  destruct Hst as [Hsent Htimer]. specialize (Hlive (or_introl eq_refl)).
  destruct (wf_ws0 g Hlive) as [-> _]. unfold onopen. rewrite decide_False by (simpl; auto).
  unfold sendEnvelope, on_current; simpl. rewrite Hlive; simpl.
  unfold announce_online; simpl.
  split; simpl; try done.
  - apply map_Forall_lookup_2. intros g' k'. destruct (decide (generation s = g')) as [<-|Hne].
    + rewrite !lookup_alter_eq, Hk. simpl. intros [= <-]. unfold socket_wf; simpl. rewrite Hsent.
      split; [lia|]. split; [done|]. split; [done|]. exists []. split; [done|apply not_elem_of_nil].
    + rewrite !lookup_alter_ne by done. intros Hk'.
      destruct (wf_sockets0 g' k' Hk') as (Hle' & Hlive' & Hst').
      split; [done|]. simpl. split; [rewrite Hlive in Hlive'; done|].
      rewrite Htimer in *. destruct (readyState k'); try done. naive_solver.
  - intros g [= <-]. rewrite !lookup_alter_is_Some. eauto.
  - intros _. exists (generation s). eexists. split; [done|]. simpl.
    rewrite !lookup_alter_eq, Hk. simpl. split; [done|]. set_solver.
  - intros Hs. rewrite Htimer in Hs. by destruct Hs.
  - intros _. left. exists (generation s). eexists. split; [done|]. simpl.
    rewrite !lookup_alter_eq, Hk. done.
Qed.

Lemma wf_onclose g r c s : connection_wf s → connection_wf (step (SocketCloses g r c) s).
Proof.
  intros Hwf. simpl. destruct (sockets s !! g) as [k|] eqn:Hk; [|done].
  case_decide as Hr; [done|]. destruct Hwf. unfold onclose; simpl.
  destruct (wf_sockets0 g k Hk) as (Hle & Hlive & Hst).
  assert (sent k = [] ∨ ∃ l, sent k = IDENTIFY :: l ∧ IDENTIFY ∉ l)
    by (destruct (readyState k); naive_solver).
  assert (map_Forall (λ g k, (g ≤ generation s)%Z ∧
    (readyState k = CONNECTING ∨ readyState k = OPEN → ws s = Some g)
    ∧ True) (sockets s)) as Hall.
  { intros g' k' Hk'. by destruct (wf_sockets0 g' k' Hk') as (? & ? & ?). }
  case_decide as Hg.
  - (* an older socket *)
    assert (ws s ≠ Some g) as Hne by (intros Hw; by destruct (wf_ws0 g Hw)).
    split; simpl; try assumption.
    + apply map_Forall_lookup_2. intros g' k'. rewrite lookup_alter.
      case_decide; subst; [|by apply wf_sockets0].
      rewrite Hk. intros [= <-]. split; [done|]. naive_solver.
    + intros g' Hg'. rewrite lookup_alter_is_Some. auto.
    + intros Hn. simpl. rewrite lookup_alter_None. auto.
    + intros (g' & k' & Hg' & Hk' & Hr')%wf_heartbeat0. exists g', k'.
      rewrite lookup_alter_ne by congruence. done.
    + intros [(g' & k' & Hg' & Hk' & Hr')|Hp]%wf_pending0; [|by right]. left. exists g', k'.
      simpl. rewrite lookup_alter_ne by congruence. done.
  - (* the current one *)
    subst g. apply wf_scheduleReconnect.
    assert (ws s = Some (generation s)) as Hw.
    { destruct (ws s) as [g|] eqn:Hw; [by destruct (wf_ws0 g eq_refl) as [-> _]|].
      rewrite (wf_ws_none0 eq_refl) in Hk. done. }
    split; simpl; try done.
    + apply map_Forall_lookup_2. intros g' k'. rewrite lookup_alter. case_decide; subst.
      * rewrite Hk. intros [= <-]. split; [done|]. naive_solver.
      * intros Hk'. destruct (wf_sockets0 g' k' Hk') as (Hle' & Hlive' & Hst').
        split; [done|]. split; [done|]. simpl.
        destruct (readyState k') eqn:Hr'; try done; specialize (Hlive' ltac:(auto)); congruence.
    + intros g' Hg'. rewrite lookup_alter_is_Some. auto.
    + intros g' k'. rewrite lookup_alter. case_decide; subst.
      * rewrite Hk. by intros [= <-].
      * intros Hk' Hc. destruct (wf_sockets0 g' k' Hk') as (Hle' & Hlive' & Hst').
        specialize (Hlive' (or_introl Hc)). congruence.
    + rewrite wf_disconnected0. congruence.
    + intros Hc. by apply wf_connected0.
Qed.

Lemma wf_onmessage g f s :
  (∀ k, sockets s !! g = Some k → readyState k = OPEN → ws s = Some g →
    connection_wf s → connection_wf (f s)) →
  connection_wf s → connection_wf (onmessage g f s).
Proof.
  intros Hf Hwf. unfold onmessage, receives.
  destruct (sockets s !! g) as [k|] eqn:Hk; [|done].
  destruct (_ && _) eqn:E; [|done]. apply andb_true_iff in E as [Hr%bool_decide_eq_true _].
  eapply Hf; try done. apply (wf_sockets s Hwf g k Hk). auto.
Qed.

Lemma wf_bad_ready g s : connection_wf s → connection_wf (onmessage g scheduleReconnect s).
Proof.
  apply wf_onmessage. intros k Hk Hr Hws Hwf. apply wf_scheduleReconnect.
  pose proof (wf_ws s Hwf g Hws) as [-> _]. destruct Hwf. split; try assumption.
  - eauto.
  - intros g' k' Hk' Hc. destruct (wf_sockets0 g' k' Hk') as (_ & Hlive & _).
    specialize (Hlive (or_introl Hc)). simplify_eq. congruence.
  - rewrite wf_disconnected0. congruence.
  - intros Hc. by apply wf_connected0.
Qed.

#[local] Hint Resolve wf_onopen wf_onclose wf_bad_ready : meza.

Lemma wf_go_online s :
  truthy (accessToken s) = true → connection_wf s → connection_wf (go_online s).
Proof.
  intros Htok Hwf. unfold go_online. simpl. case_decide as Hst.
  - rewrite connect_with_token_eq by done. simpl.
    apply (wf_connect (or_default "" (accessToken s))) in Hwf. revert Hwf.
    rewrite !connect_eq. intros []. split; simpl; try assumption; try done.
    intros _. left. exists (generation s + 2)%Z. eexists. simpl.
    rewrite lookup_insert_eq. done.
  - destruct Hwf. split; try assumption; try done.
    intros Hd. destruct (wf_pending0 Hd) as [?|[?|[[??]|?]]]; unfold pending; simpl; tauto.
Qed.
Lemma wf_go_offline s : connection_wf s → connection_wf (go_offline s).
Proof.
  intros []. unfold go_offline. split; simpl; try assumption; try done.
  - intros g k Hk. destruct (wf_sockets0 g k Hk) as (Hle & Hlive & Hst).
    split; [done|]. split; [done|]. simpl. destruct (readyState k); naive_solver.
  - intros Hd. unfold pending; simpl.
    destruct (wf_pending0 Hd) as [?|[?|[[??]|?]]]; tauto.
Qed.
Lemma wf_becomes_visible s :
  truthy (accessToken s) = true → connection_wf s → connection_wf (becomes_visible s).
Proof.
  intros Htok Hwf. unfold becomes_visible. destruct (decide _).
  - apply wf_retry; [done|lia|done].
  - destruct (decide _); [|done]. destruct (_ && _); auto with meza.
Qed.

Lemma wf_sendEnvelope op s : op ≠ IDENTIFY → connection_wf s → connection_wf (sendEnvelope op s).
Proof. intros Hop. by apply wf_on_current, keeps_push_op. Qed.
Lemma wf_on_ready b ids s : connection_wf s → connection_wf (on_ready b ids s).
Proof. unfold on_ready. destruct (refetches s); auto with meza. Qed.
Lemma wf_heartbeat_fires s : connection_wf s → connection_wf (heartbeat s).
Proof.
  unfold heartbeat. destruct (_ && _); [auto with meza|]. by apply wf_sendEnvelope.
Qed.
Lemma wf_sendTyping c s : connection_wf s → connection_wf (sendTyping c s).
Proof.
  intros Hwf. unfold sendTyping. destruct (_ <? _)%Z; [done|].
  apply wf_sendEnvelope; [done|]. by apply wf_set_env.
Qed.
#[local] Hint Resolve wf_go_online wf_go_offline wf_becomes_visible wf_on_ready
  wf_heartbeat_fires wf_sendTyping : meza.

Lemma step_wf e s : event_ok e s → connection_wf s → connection_wf (step e s).
Proof.
  intros Hok Hwf.
  destruct e; cbn [event_ok] in Hok; cbn [step]; auto with meza;
    try (apply wf_onmessage; auto with meza).
  - by apply wf_onopen.
  - by apply wf_onclose.
  - by destruct (heartbeatTimer s); auto with meza.
  - destruct (reconnectTimer s); [|done]. apply wf_retry; try done. apply Hwf.
  - by apply wf_viewed.
  - by apply wf_viewed.
Qed.

Lemma connection_reachable_wf s : reachable s → connection_wf s.
Proof.
  apply (reachable_invariant connection_wf); [|intros e s'; apply step_wf].
  split; simpl; try done; try by intros [].
Qed.

(** C17: at most one socket is live and it is the one the client uses; IDENTIFY is the first
    thing a server hears on every socket and is never repeated; an open socket has
    identified itself and is watched by the heartbeat; a connection reported as
    [connected] has a watched socket and no failed attempts; and the delay and the number
    of attempts stay within their limits. *)
Theorem connection_safety (s : Connection) :
  reachable s →
  (∀ g k, sockets s !! g = Some k →
    (readyState k = CONNECTING ∨ readyState k = OPEN → ws s = Some g) ∧
    (sent k = [] ∨ ∃ l, sent k = IDENTIFY :: l ∧ IDENTIFY ∉ l) ∧
    (readyState k = OPEN → sent k ≠ [] ∧ heartbeatTimer s = true)) ∧
  (status (gw s) = connected → reconnectAttempts s = 0%Z ∧
    ∃ g k, ws s = Some g ∧ sockets s !! g = Some k ∧ readyState k ∈ [OPEN; CLOSING]) ∧
  (status (gw s) = disconnected ↔ ws s = None) ∧
  (1000 ≤ reconnectDelay s ≤ 30000)%Z ∧ (0 ≤ reconnectAttempts s ≤ 10)%Z.
Proof.
  intros []%connection_reachable_wf. split; [|split; [|done]].
  - intros g k Hk. destruct (wf_sockets0 g k Hk) as (_ & Hlive & Hst). split; [done|].
    clear -Hst. destruct (readyState k).
    + destruct Hst as [? _]. split; [by left|done].
    + destruct Hst as (? & l & -> & ?). split; [right; eauto|done].
    + done.
    + done.
  - intros Hc. destruct (wf_connected0 Hc). auto.
Qed.

(** C18: while a connection is wanted the client waits for something that continues it: the
    end of a socket that is not closed, the reconnect timer, or the return of the
    network; the only other case is that ten attempts in a row have failed. *)
Theorem reconnect_armed (s : Connection) :
  reachable s → status (gw s) ≠ disconnected →
  (∃ g k, ws s = Some g ∧ sockets s !! g = Some k ∧ readyState k ≠ CLOSED) ∨
  is_Some (reconnectTimer s) ∨
  (isOnline s = false ∧ status (gw s) = reconnecting) ∨
  (status (gw s) = connecting ∧ reconnectAttempts s = 10%Z).
Proof. intros Hs%connection_reachable_wf. apply Hs. Qed.

(** *** The reconnect schedule *)

(** The current socket closes; then the timer that sets fires. *)
Definition socket_fails (reason : string) (code : Z) (s : Connection) : Connection :=
  step (SocketCloses (generation s) reason code) s.
Definition attempt_fails (reason : string) (code : Z) (s : Connection) : Connection :=
  step ReconnectFires (socket_fails reason code s).

Record trying (n : Z) (s : Connection) : Prop := {
  try_online : isOnline s = true;
  try_token : truthy (accessToken s) = true;
  try_ws : ws s = Some (generation s);
  try_socket : ∃ k, sockets s !! generation s = Some k ∧ readyState k ≠ CLOSED;
  try_attempts : reconnectAttempts s = n;
  try_delay : reconnectDelay s = Z.min (1000 * 2 ^ n) 30000;
}.

Lemma double_delay n :
  (0 ≤ n)%Z → Z.min (Z.min (1000 * 2 ^ n) 30000 * 2) 30000 = Z.min (1000 * 2 ^ (n + 1)) 30000.
Proof. intros Hn. rewrite Z.pow_add_r by lia. lia. Qed.

(** What the close of the current socket does, online *)
Lemma socket_fails_eq n r c s :
  trying n s →
  let closed := on_socket (ws s) (alter (set_ready CLOSED) (generation s)) (generation s) s in
  let s' := on_gw (setLastError (Some (close_text r c))) (stopHeartbeat closed) in
  socket_fails r c s =
    if (10 <=? n)%Z then s'
    else set_backoff (Some (reconnectDelay s)) (Z.min (reconnectDelay s * 2) 30000) (n + 1)
           (on_gw (λ g, setReconnectAttempt (n + 1) (setStatus reconnecting g)) s').
Proof.
  intros [Ho _ _ (k & Hk & Hr) Hn _]. unfold socket_fails. cbn [step]. rewrite Hk.
  rewrite decide_False by done. unfold onclose. rewrite decide_False by auto.
  unfold scheduleReconnect. simpl. rewrite Ho, Hn. simpl. by destruct (10 <=? n)%Z.
Qed.

Lemma attempt_fails_trying n r c s :
  (0 ≤ n < 10)%Z → trying n s →
  reconnectTimer (socket_fails r c s) = Some (Z.min (1000 * 2 ^ n) 30000) ∧
  status (gw (socket_fails r c s)) = reconnecting ∧
  trying (n + 1) (attempt_fails r c s) ∧
  status (gw (attempt_fails r c s)) = connecting ∧
  reconnectTimer (attempt_fails r c s) = None.
Proof.
  intros Hn Ht. unfold attempt_fails. rewrite (socket_fails_eq n) by done.
  rewrite (proj2 (Z.leb_gt 10 n)) by lia. destruct Ht. cbn [step].
  simpl. rewrite try_delay0. split; [done|]. split; [done|].
  rewrite connect_with_token_eq by done. rewrite connect_eq. simpl.
  split; [|done]. split; simpl; try done.
  - eexists. by rewrite lookup_insert_eq.
  - apply double_delay. lia.
Qed.

Lemma attempts_fail n r c s :
  (n ≤ 10)%nat → trying 0 s → trying (Z.of_nat n) (Nat.iter n (attempt_fails r c) s).
Proof.
  intros Hn Hs. induction n as [|n IH]; [done|].
  rewrite Nat2Z.inj_succ, <-Z.add_1_r. apply attempt_fails_trying; [lia|]. apply IH. lia.
Qed.

(** C23: after n failed attempts in a row, for n below ten, the close of the socket schedules
    the next attempt in [min(1000 * 2^n, 30000)] milliseconds; the close after the tenth
    schedules nothing. *)
Theorem backoff_schedule (s : Connection) r c n :
  trying 0 s → (n < 10)%nat →
  let after n := socket_fails r c (Nat.iter n (attempt_fails r c) s) in
  reconnectTimer (after n) = Some (Z.min (1000 * 2 ^ Z.of_nat n) 30000) ∧
  reconnectAttempts (after n) = (Z.of_nat n + 1)%Z ∧
  status (gw (after n)) = reconnecting ∧
  reconnectTimer (after 10%nat) = None ∧ status (gw (after 10%nat)) = connecting.
Proof.
  intros Hs Hn after. subst after. cbv beta.
  pose proof (attempts_fail n r c s ltac:(lia) Hs) as Hn'.
  destruct (attempt_fails_trying (Z.of_nat n) r c _ ltac:(lia) Hn') as (Ht & Hst & _).
  split; [done|]. split; [|split; [done|]].
  - rewrite (socket_fails_eq (Z.of_nat n)) by done.
    by rewrite (proj2 (Z.leb_gt 10 (Z.of_nat n))) by lia.
  - pose proof (attempts_fail 9 r c s ltac:(lia) Hs) as H9.
    destruct (attempt_fails_trying 9 r c _ ltac:(lia) H9) as (_ & _ & H10 & Hst10 & Ht10).
    rewrite (Nat.iter_succ 9). revert H10 Hst10 Ht10.
    generalize (attempt_fails r c (Nat.iter 9 (attempt_fails r c) s)). clear.
    intros s10 H10 Hst10 Ht10. rewrite (socket_fails_eq _ r c _ H10). done.
Qed.

(** *** Giving up *)

(** The user's own actions *)
Definition user_action (e : event) : bool :=
  match e with Connect _ | Disconnect _ => true | _ => false end.

Record gave_up (s : Connection) : Prop := {
  up_wf : connection_wf s;
  up_status : status (gw s) = connecting;
  up_timer : reconnectTimer s = None;
  up_heartbeat : heartbeatTimer s = false;
  up_socket : ∃ g k, ws s = Some g ∧ sockets s !! g = Some k ∧ readyState k = CLOSED;
}.

Lemma gave_up_no_live s g k :
  gave_up s → sockets s !! g = Some k → readyState k ∈ [CLOSING; CLOSED].
Proof.
  intros [Hwf _ _ _ (g' & k' & Hws & Hk' & Hc)] Hk.
  destruct (wf_sockets s Hwf g k Hk) as (_ & Hlive & _).
  destruct (readyState k) eqn:E; try set_solver; specialize (Hlive ltac:(auto)); congruence.
Qed.

Lemma gave_up_onmessage f s g : gave_up s → onmessage g f s = s.
Proof.
  intros Hup. unfold onmessage, receives. destruct (sockets s !! g) as [k|] eqn:Hk; [|done].
  rewrite bool_decide_eq_false_2; [done|]. pose proof (gave_up_no_live s g k Hup Hk) as Hnl.
  intros E. rewrite E in Hnl. set_solver.
Qed.

Lemma gave_up_step e s :
  event_ok e s → user_action e = false → gave_up s → gave_up (step e s).
Proof.
  intros Hok Huser Hup. pose proof (gave_up_no_live s) as Hnl.
  pose proof (step_wf e s Hok (up_wf s Hup)) as Hwf.
  destruct e; try done; cbn [step] in *.
  - destruct (sockets s !! gen) as [k|] eqn:Hk; [|done].
    rewrite decide_False; [done|]. specialize (Hnl gen k Hup Hk). intros E.
    rewrite E in Hnl. set_solver.
  - destruct (sockets s !! gen) as [k|] eqn:Hk; [|done].
    case_decide as Hc; [done|]. unfold onclose in *. simpl in *.
    destruct Hup as [Hwf0 Hst Ht Hh (g & k' & Hws & Hk' & Hc')].
    pose proof (wf_ws s Hwf0 g Hws) as [-> _].
    destruct (decide (gen ≠ generation s)) as [Hne|Heq].
    + split; try done. exists (generation s), k'. simpl. by rewrite lookup_alter_ne.
    + apply dec_stable in Heq as ->. congruence.
  - by rewrite gave_up_onmessage.
  - by rewrite gave_up_onmessage.
  - by rewrite gave_up_onmessage.
  - by rewrite (up_heartbeat s Hup).
  - by rewrite (up_timer s Hup).
  - unfold go_online in *. simpl in *.
    rewrite decide_False in Hwf |- * by (rewrite (up_status s Hup); done).
    by destruct Hup; split.
  - by destruct Hup; split.
  - unfold becomes_visible. rewrite (up_status s Hup). by rewrite !decide_False by naive_solver.
  - destruct Hup. split; try done; unfold sendTyping, sendEnvelope, on_current;
      destruct (_ <? _)%Z; simpl; try done; destruct (ws s) as [g|] eqn:Hws; try done;
      destruct up_socket0 as (g' & k & ? & Hk & Hc); try congruence; simplify_eq;
      exists g', k; simpl; rewrite ?lookup_alter_eq, Hk; simpl;
      rewrite ?decide_False by congruence; done.
  - by destruct Hup; split.
  - by destruct Hup; split.
  - by destruct Hup; split.
  - by destruct Hup; split.
  - by destruct Hup; split.
  - by destruct Hup; split.
Qed.

(** once ten attempts have failed the client is inert: whatever the browser reports --
    the network going and returning, the page coming into view, timers, late events of
    old sockets -- it opens no socket and keeps showing [connecting]. *)
Theorem gives_up_for_good (s : Connection) es :
  gave_up s → admissible_run es s → Forall (λ e, user_action e = false) es →
  status (gw (run es s)) = connecting ∧ reconnectTimer (run es s) = None ∧
  (∀ g k, sockets (run es s) !! g = Some k → readyState k ∈ [CLOSING; CLOSED]).
Proof.
  intros Hup Hok Hes. assert (gave_up (run es s)) as Hr.
  { revert s Hup Hok. induction Hes as [|e es He _ IH]; intros s Hup Hok; [done|].
    destruct Hok as [Hok Hoks]. apply IH; [|done]. by apply gave_up_step. }
  split; [apply Hr|]. split; [apply Hr|]. intros g k. by apply gave_up_no_live.
Qed.

(** *** Reading the theorems on a session that connects, drops and reconnects *)

Definition session_start : list event := [Tick 5000; SetsToken "jwt"; Connect "jwt"].
Definition connection_demo : Connection :=
  run (session_start ++
       [SocketOpens 2; Ready 2 true ["c1"]; SendsTyping "c1"; SendsTyping "c1"; Tick 30000;
        HeartbeatFires; HeartbeatAck 2; SocketCloses 2 "" 1006; ReconnectFires;
        SocketCloses 4 "" 1006])
    (initial_connection true).

Ltac run_ok :=
  apply (reachable_run (Store0 := connection_store)); vm_compute; repeat split; discriminate.

Example connection_demo_reachable : reachable connection_demo.
Proof. run_ok. Qed.

Lemma connection_safety_witness :
  reachable connection_demo ∧
  (sent <$> sockets connection_demo !! 2%Z) = Some [IDENTIFY; TYPING_START; HEARTBEAT] ∧
  reconnectAttempts connection_demo = 2%Z ∧ (reconnectDelay connection_demo ≤ 30000)%Z.
Proof.
  split; [exact connection_demo_reachable|]. split; [vm_compute; reflexivity|].
  split; [vm_compute; reflexivity|].
  exact (proj2 (proj1 (proj2 (proj2 (proj2
    (connection_safety connection_demo connection_demo_reachable)))))).
Defined.

Lemma reconnect_armed_witness :
  reachable connection_demo ∧ status (gw connection_demo) = reconnecting ∧
  reconnectTimer connection_demo = Some 2000%Z ∧
  ((∃ g k, ws connection_demo = Some g ∧ sockets connection_demo !! g = Some k ∧
      readyState k ≠ CLOSED) ∨
   is_Some (reconnectTimer connection_demo) ∨
   (isOnline connection_demo = false ∧ status (gw connection_demo) = reconnecting) ∨
   (status (gw connection_demo) = connecting ∧ reconnectAttempts connection_demo = 10%Z)).
Proof.
  split; [exact connection_demo_reachable|]. split; [vm_compute; reflexivity|].
  split; [vm_compute; reflexivity|].
  apply (reconnect_armed connection_demo connection_demo_reachable).
  intros E. vm_compute in E. discriminate E.
Defined.

Definition first_attempt : Connection := run session_start (initial_connection true).
Lemma first_attempt_trying : trying 0 first_attempt.
Proof. split; try (vm_compute; reflexivity). eexists. split; [vm_compute; reflexivity|done]. Qed.

Lemma backoff_schedule_witness :
  trying 0 first_attempt ∧
  reconnectTimer (socket_fails "" 1006 (Nat.iter 4 (attempt_fails "" 1006) first_attempt)) =
    Some 16000%Z ∧
  reconnectTimer (socket_fails "" 1006 (Nat.iter 7 (attempt_fails "" 1006) first_attempt)) =
    Some 30000%Z.
Proof.
  split; [exact first_attempt_trying|]. split.
  - exact (proj1 (backoff_schedule first_attempt "" 1006 4 first_attempt_trying ltac:(lia))).
  - exact (proj1 (backoff_schedule first_attempt "" 1006 7 first_attempt_trying ltac:(lia))).
Defined.

Definition exhausted : Connection :=
  run (session_start ++
       concat ((λ n, [SocketCloses (2 * n) "" 1006; ReconnectFires]) <$> seqZ 1 10) ++
       [SocketCloses 22 "" 1006])
    (initial_connection true).

Lemma exhausted_gave_up : gave_up exhausted.
Proof.
  split; try (vm_compute; reflexivity).
  - apply connection_reachable_wf. run_ok.
  - eexists _, _. split; [vm_compute; reflexivity|].
    split; [vm_compute; reflexivity|done].
Qed.

Lemma gives_up_for_good_witness :
  gave_up exhausted ∧ reconnectAttempts exhausted = 10%Z ∧
  status (gw (run [GoesOffline; GoesOnline; BecomesVisible; Tick 600000] exhausted)) = connecting.
Proof.
  split; [exact exhausted_gave_up|]. split; [vm_compute; reflexivity|].
  apply (gives_up_for_good exhausted [GoesOffline; GoesOnline; BecomesVisible; Tick 600000]
    exhausted_gave_up).
  - repeat (split; [vm_compute; try reflexivity; try discriminate|]). done.
  - repeat constructor.
Defined.
