(* ===== verification/Notifier.v ===== *)
(** * Desktop notifications and sounds ([notify/desktop-notifier.ts], [utils/dm.ts],
    [maybePlaySound] of [gateway/gateway.ts])

    What the client shows and plays for an incoming message, as functions of the stores
    it reads: the notification's text, where it leads, and whether there is one. *)

From stdpp Require Import pretty.
From S2P Require Import Channels Dms Blocks Auth NotificationSettings Presence.

(** [a || b] on strings *)
Definition str_or (a b : string) : string := if decide (a = "") then b else a.
(** [l.join(', ')] *)
Fixpoint join_names (l : list string) : string :=
  match l with
  | [] => ""
  | [x] => x
  | x :: l => (x +:+ ", " +:+ join_names l)%string
  end.

(** ** Names of conversations ([utils/dm.ts]) *)

Definition CHANNEL_TYPE_DM : Z := 3.
Definition CHANNEL_TYPE_GROUP_DM : Z := 4.

Definition isGroupDM (dm : DMChannel) : bool :=
  bool_decide (ch_type <$> dm_channel dm = Some CHANNEL_TYPE_GROUP_DM).

Definition isSelfDM (dm : DMChannel) (currentUserId : string) : bool :=
  bool_decide (ch_type <$> dm_channel dm = Some CHANNEL_TYPE_DM) &&
  match dm_participants dm with
  | [p] => bool_decide (u_id p = currentUserId)
  | _ => false
  end.

Definition getDMDisplayName (dm : DMChannel) (currentUserId : string) : string :=
  match isSelfDM dm currentUserId, dm_participants dm with
  | true, self :: _ =>
      (str_or (str_or (u_displayName self) (u_username self)) "You" +:+ " (its you!)")%string
  | _, _ =>
      let channelName := ch_name <$> dm_channel dm in
      if isGroupDM dm && truthy channelName && negb (bool_decide (channelName = Some "Group DM"))
      then or_default "" channelName
      else
        let others := filter (λ p, u_id p ≠ currentUserId) (dm_participants dm) in
        if decide (others = []) then "Group DM"
        else join_names ((λ p, str_or (u_displayName p) (u_username p)) <$> others)
  end.

(** ** The notification *)

Inductive notification_kind := kind_dm | kind_channel.
Record DesktopNotification := {
  title : string;
  body : string;
  dn_channelId : string;
  dn_kind : notification_kind;
  dn_userId : string;
}.

Record BuildInput := {
  bi_channelId : string;
  recipientUserId : string;
  isMention : bool;
  isDM : bool;
  senderName : string;
  channelName : option string;
  groupName : option string;
}.

Definition buildDesktopNotification (i : BuildInput) : DesktopNotification :=
  let make t b :=
    {| title := t; body := b; dn_channelId := bi_channelId i;
       dn_kind := if isDM i then kind_dm else kind_channel; dn_userId := recipientUserId i |} in
  if isDM i then
    if truthy (groupName i)
    then make (or_default "" (groupName i)) (senderName i +:+ " sent a message")%string
    else make (senderName i) (if isMention i then "mentioned you" else "sent you a message")
  else
    make (if truthy (channelName i) then ("#" +:+ or_default "" (channelName i))%string
          else senderName i)
      (if isMention i then (senderName i +:+ " mentioned you")%string
       else (senderName i +:+ " sent a message")%string).

Section notifier.
(** The stores as they are when a message arrives *)
Context (users : Auth.UsersState) (dmStore : Dms.DMState) (channelStore : Channels.ChannelState).

Definition find_dm (channelId : string) : option DMChannel :=
  find_key dm_channelId (Some channelId) (Dms.dmChannels dmStore).

Definition resolveSenderName (authorId channelId : string) : string :=
  match Auth.getProfile authorId users with
  | Some profile => str_or (str_or (Auth.displayName profile) (Auth.username profile)) "Someone"
  | None =>
      match find_dm channelId ≫= λ dm, find_key u_id authorId (dm_participants dm) with
      | Some p => str_or (str_or (u_displayName p) (u_username p)) "Someone"
      | None => "Someone"
      end
  end.

(** The names of the channel and of the group *)
Definition resolveLocation (channelId : string) (dm : bool) (currentUserId : option string)
    : option string * option string :=
  if dm then
    match find_dm channelId with
    | Some d =>
        if isGroupDM d then (None, Some (getDMDisplayName d (or_default "" currentUserId)))
        else (None, None)
    | None => (None, None)
    end
  else
    let serverId := Channels.channelToServer channelStore !! channelId in
    let channel :=
      if truthy serverId
      then Channels.byServer channelStore !! or_default "" serverId ≫= find_key ch_id channelId
      else None in
    (ch_name <$> channel, None).

(** What else the decisions read: the app, the window, the time, the user's status *)
Record Surroundings := {
  electron : bool;
  inFront : bool;
  isPrimaryTab : bool;
  now : Z;
  graceUntil : Z;
  ownStatus : PresenceStatus;
  blocks : Blocks.BlockState;
  settings : NotificationSettings.NotificationSettingsState;
}.

Definition maybeShowDesktopNotification (w : Surroundings) (channelId authorId : string)
    (mention dm : bool) (currentUserId : option string) : option DesktopNotification :=
  if negb (electron w) then None
  else if (now w <? graceUntil w)%Z then None
  else if inFront w then None
  else if decide (ownStatus w = DND) then None
  else if Blocks.isBlocked authorId (blocks w) then None
  else
    let build :=
      let '(cname, gname) := resolveLocation channelId dm currentUserId in
      Some (buildDesktopNotification
        {| bi_channelId := channelId; recipientUserId := or_default "" currentUserId;
           isMention := mention; isDM := dm;
           senderName := resolveSenderName authorId channelId;
           channelName := cname; groupName := gname |}) in
    match NotificationSettings.badgeMode (settings w) with
    | badge_off => None
    | mentions_dms => if negb mention && negb dm then None else build
    | all => build
    end.

(** Whether [maybePlaySound(type, authorId)] plays *)
Definition maybePlaySound (w : Surroundings) (type : string) (authorId : option string) : bool :=
  if negb (isPrimaryTab w) then false
  else if (now w <? graceUntil w)%Z then false
  else if negb (NotificationSettings.soundEnabled (settings w)) then false
  else if negb (or_default false (NotificationSettings.enabledSounds (settings w) !! type))
  then false
  else if decide (ownStatus w = DND) then false
  else if truthy authorId && Blocks.isBlocked (or_default "" authorId) (blocks w) then false
  else true.

Lemma sound_only_when w type author :
  maybePlaySound w type (Some author) = true →
  ownStatus w ≠ DND ∧ (graceUntil w ≤ now w)%Z ∧
  NotificationSettings.soundEnabled (settings w) = true ∧
  NotificationSettings.enabledSounds (settings w) !! type = Some true ∧
  (author ≠ "" → Blocks.isBlocked author (blocks w) = false).
Proof.
  unfold maybePlaySound. destruct (isPrimaryTab w); simpl; [|done].
  destruct (Z.ltb_spec (now w) (graceUntil w)); [done|].
  destruct (NotificationSettings.soundEnabled (settings w)); simpl; [|done].
  destruct (NotificationSettings.enabledSounds (settings w) !! type) as [[]|]; simpl; try done.
  destruct (decide (ownStatus w = DND)); [done|].
  destruct (Blocks.isBlocked author (blocks w)) eqn:Hb; [|done].
  case_bool_decide; simpl; [|done]. by subst.
Qed.

(** A notification never names the message's text and leads its recipient to the
    conversation; there is none for a blocked author, in do-not-disturb, in the quiet
    period after a reconnect, with the window in front, or below the chosen level. *)
Lemma notification_only_when w c author mention dm me n :
  maybeShowDesktopNotification w c author mention dm me = Some n →
  dn_channelId n = c ∧ dn_userId n = or_default "" me ∧
  dn_kind n = (if dm then kind_dm else kind_channel) ∧
  ownStatus w ≠ DND ∧ Blocks.isBlocked author (blocks w) = false ∧ inFront w = false ∧
  (graceUntil w ≤ now w)%Z ∧
  (NotificationSettings.badgeMode (settings w) = mentions_dms → mention = true ∨ dm = true) ∧
  NotificationSettings.badgeMode (settings w) ≠ badge_off.
Proof.
  unfold maybeShowDesktopNotification. destruct (electron w); simpl; [|done].
  destruct (Z.ltb_spec (now w) (graceUntil w)); [done|].
  destruct (inFront w); [done|]. destruct (decide (ownStatus w = DND)); [done|].
  destruct (Blocks.isBlocked author (blocks w)); [done|].
  assert (∀ i, let b := buildDesktopNotification i in
    dn_channelId b = bi_channelId i ∧ dn_userId b = recipientUserId i ∧
    dn_kind b = if isDM i then kind_dm else kind_channel) as Hb.
  { intros [? ? ? dm' ? ? g]. unfold buildDesktopNotification; simpl.
    by destruct dm', (truthy g). }
  destruct (resolveLocation c dm me) as [cname gname].
  destruct (NotificationSettings.badgeMode (settings w)); try done.
  - intros [= <-]. destruct (Hb {| bi_channelId := c; recipientUserId := or_default "" me;
      isMention := mention; isDM := dm; senderName := resolveSenderName author c;
      channelName := cname; groupName := gname |}) as (-> & -> & ->). done.
  - destruct (negb mention && negb dm) eqn:E; [done|]. intros [= <-].
    destruct (Hb {| bi_channelId := c; recipientUserId := or_default "" me;
      isMention := mention; isDM := dm; senderName := resolveSenderName author c;
      channelName := cname; groupName := gname |}) as (-> & -> & ->).
    repeat split; try done. destruct mention, dm; auto.
Qed.
End notifier.
