(* ===== verification/Client.v ===== *)
(** * The client: its stores, side by side

    The gateway, the API calls and the user interface act on one set of stores.  The
    client is their product: a state for every component, an action on one of them
    leaving the others alone, and the remaining state the gateway keeps or reads.
    Because every change goes through an action of a component's own store, whatever
    is proved of a store in isolation holds of it inside the client. *)

From S2P Require Import Connection Messages Channels ChannelGroups Roles Members Servers.
From S2P Require Import Dms Friends Blocks Reactions Pins ReadState NotificationSettings.
From S2P Require Import Emojis Sounds PermissionOverrides Typing VoiceParticipants Auth.
From S2P Require Import ChannelKeys Notifier.

(** ** Components *)

Inductive component :=
  | C_connection | C_messages | C_channels | C_groups | C_roles | C_members | C_servers
  | C_dms | C_friends | C_blocks | C_reactions | C_pins | C_readStates | C_settings
  | C_emojis | C_sounds | C_overrides | C_typing.

#[export] Instance component_eq_dec : EqDecision component.
Proof. solve_decision. Defined.

Definition state_of (c : component) : Type :=
  match c with
  | C_connection => Connection.Connection
  | C_messages => Messages.MessageState
  | C_channels => Channels.ChannelState
  | C_groups => ChannelGroups.ChannelGroupState
  | C_roles => Roles.RoleSystem
  | C_members => Members.MemberState
  | C_servers => Servers.ServerState
  | C_dms => Dms.DMState
  | C_friends => Friends.FriendState
  | C_blocks => Blocks.BlockState
  | C_reactions => Reactions.ReactionState
  | C_pins => Pins.PinState
  | C_readStates => ReadState.ReadStateState
  | C_settings => NotificationSettings.NotificationSettingsState
  | C_emojis => Emojis.EmojiState
  | C_sounds => Sounds.SoundState
  | C_overrides => PermissionOverrides.PermissionOverrideState
  | C_typing => Typing.TypingSystem
  end.

Definition action_of (c : component) : Type :=
  match c with
  | C_connection => Connection.event
  | C_messages => Messages.action
  | C_channels => Channels.action
  | C_groups => ChannelGroups.action
  | C_roles => Roles.action
  | C_members => Members.action
  | C_servers => Servers.action
  | C_dms => Dms.action
  | C_friends => Friends.action
  | C_blocks => Blocks.action
  | C_reactions => Reactions.action
  | C_pins => Pins.action
  | C_readStates => ReadState.action
  | C_settings => NotificationSettings.action
  | C_emojis => Emojis.action
  | C_sounds => Sounds.action
  | C_overrides => PermissionOverrides.action
  | C_typing => Typing.action
  end.

(** ** What else the gateway reads and keeps, and what it asks of other parts *)

Inductive effect :=
  | DecryptInBackground (channelId : string) (msg : Message) (gen : Z)
  | IndexIncoming (channelId : string) (msg : Message)
  | RemoveIndexed (channelId : string) (ids : list string)
  | PlaySound (type : string)
  | ShowNotification (n : DesktopNotification)
  | FetchDMChannels
  | FetchChannels (serverId : string)
  | DistributeToJoiner (serverId userId : string) (inviter : bool) (gen : Z)
  | DistributeToMember (channelId userId : string) (gen : Z)
  | AnswerKeyRequest (channelId userId : string) (gen : Z)
  | CleanupSpoke (instanceUrl serverId reason : string)
  | RedistributeKeys (channelIds : list string)
  | PrefetchKeys (channelIds : list string) (gen : Z) (deferred : bool)
  | PrefetchSounds
  | GetMyPresence
  | ListEmojis (serverId : string)
  | ListUserEmojis
  (** what a logout asks for: [disconnectAllSpokes] and [resetSearchState] *)
  | DisconnectSpokes
  | ResetSearch.

Record Local := {
  sessionReady : bool;
  keys : ChannelKeys.KeyState;
  users : Auth.UsersState;
  voice : VoiceParticipants.VoiceState;
  onElectron : bool;
  windowInFront : bool;
  primaryTab : bool;
  pendingDMFetchChannels : gset string;
  (** The requests made so far, oldest first *)
  log : list effect;
}.

Definition set_session b (l : Local) : Local :=
  {| sessionReady := b; keys := keys l; users := users l; voice := voice l;
     onElectron := onElectron l; windowInFront := windowInFront l;
     primaryTab := primaryTab l; pendingDMFetchChannels := pendingDMFetchChannels l;
     log := log l |}.
Definition on_keys f (l : Local) : Local :=
  {| sessionReady := sessionReady l; keys := f (keys l); users := users l; voice := voice l;
     onElectron := onElectron l; windowInFront := windowInFront l;
     primaryTab := primaryTab l; pendingDMFetchChannels := pendingDMFetchChannels l;
     log := log l |}.
Definition on_users f (l : Local) : Local :=
  {| sessionReady := sessionReady l; keys := keys l; users := f (users l); voice := voice l;
     onElectron := onElectron l; windowInFront := windowInFront l;
     primaryTab := primaryTab l; pendingDMFetchChannels := pendingDMFetchChannels l;
     log := log l |}.
Definition on_voice f (l : Local) : Local :=
  {| sessionReady := sessionReady l; keys := keys l; users := users l; voice := f (voice l);
     onElectron := onElectron l; windowInFront := windowInFront l;
     primaryTab := primaryTab l; pendingDMFetchChannels := pendingDMFetchChannels l;
     log := log l |}.
Definition set_windows front tab (l : Local) : Local :=
  {| sessionReady := sessionReady l; keys := keys l; users := users l; voice := voice l;
     onElectron := onElectron l; windowInFront := front;
     primaryTab := tab; pendingDMFetchChannels := pendingDMFetchChannels l;
     log := log l |}.
Definition on_pendingFetch f (l : Local) : Local :=
  {| sessionReady := sessionReady l; keys := keys l; users := users l; voice := voice l;
     onElectron := onElectron l; windowInFront := windowInFront l;
     primaryTab := primaryTab l; pendingDMFetchChannels := f (pendingDMFetchChannels l);
     log := log l |}.
Definition push_log es (l : Local) : Local :=
  {| sessionReady := sessionReady l; keys := keys l; users := users l; voice := voice l;
     onElectron := onElectron l; windowInFront := windowInFront l;
     primaryTab := primaryTab l; pendingDMFetchChannels := pendingDMFetchChannels l;
     log := log l ++ es |}.

(** ** The product *)

Record Client := { stores : ∀ c, state_of c; local : Local }.

Section client.
(** [localeCompare] on names, and the id of the signed-in user, from whom the reaction
    store computes [isMe] *)
Context (localeCompare : string → string → Z) (self : string).

Definition store_of (c : component) : Store (state_of c) (action_of c) :=
  match c with
  | C_connection => Connection.connection_store
  | C_messages => Messages.message_store
  | C_channels => Channels.channel_store
  | C_groups => ChannelGroups.channel_group_store
  | C_roles => Roles.role_store
  | C_members => Members.member_store
  | C_servers => Servers.server_store
  | C_dms => Dms.dm_store
  | C_friends => Friends.friend_store
  | C_blocks => Blocks.block_store
  | C_reactions => Reactions.reaction_store self
  | C_pins => Pins.pin_store
  | C_readStates => ReadState.read_state_store
  | C_settings => NotificationSettings.notification_store
  | C_emojis => Emojis.emoji_store localeCompare
  | C_sounds => Sounds.sound_store localeCompare
  | C_overrides => PermissionOverrides.override_store
  | C_typing => Typing.typing_store
  end.
#[local] Existing Instance store_of.

(** Replacing the state of one component *)
Definition put_state (c : component) (x : state_of c) (f : ∀ c, state_of c) :
    ∀ c, state_of c :=
  λ c', match decide (c = c') with
        | left e => match e in _ = c' return state_of c' with eq_refl => x end
        | right _ => f c'
        end.

(** [useXStore.getState().action(..)] *)
Definition act (c : component) (a : action_of c) (s : Client) : Client :=
  {| stores := put_state c (exec a (stores s c)) (stores s); local := local s |}.
Definition on_local f (s : Client) : Client := {| stores := stores s; local := f (local s) |}.
Definition emit (es : list effect) : Client → Client := on_local (push_log es).

Definition initial_local (electron : bool) : Local :=
  {| sessionReady := false;
     keys := {| identityKeypair := None; masterKey := None; channelKeyCache := ∅;
                persistTimeout := false; calls := 0; draws := 0 |};
     users := {| Auth.profiles := ∅; Auth.profileFetchedAt := ∅ |};
     voice := VoiceParticipants.voice_initial; onElectron := electron; windowInFront := true;
     primaryTab := true; pendingDMFetchChannels := ∅; log := [] |}.
Definition initial_client (electron : bool) : Client :=
  {| stores := λ c, initial (Store := store_of c); local := initial_local electron |}.

(** *** Reading after an action *)

Lemma stores_act_eq c a s : stores (act c a s) c = exec a (stores s c).
Proof. destruct c; reflexivity. Qed.
Lemma stores_act_ne c c' a s : c ≠ c' → stores (act c a s) c' = stores s c'.
Proof. simpl. unfold put_state. intros Hne. by destruct (decide (c = c')). Qed.
Lemma stores_emit es s c : stores (emit es s) c = stores s c.
Proof. done. Qed.

(** *** Runs of the client are runs of every store *)

(** [s'] is reached from [s] by admissible actions of each store. *)
Definition steps (s s' : Client) : Prop :=
  ∀ c, rtc (store_step (Store0 := store_of c)) (stores s c) (stores s' c).

#[export] Instance steps_refl : Reflexive steps.
Proof. by intros s c. Qed.
#[export] Instance steps_trans : Transitive steps.
Proof. intros s1 s2 s3 H1 H2 c. etrans; [apply H1|apply H2]. Qed.

Lemma steps_act c a s : admissible a (stores s c) → steps s (act c a s).
Proof.
  intros Hok c'. destruct (decide (c = c')) as [<-|Hne].
  - rewrite stores_act_eq. by apply rtc_once, store_step_exec.
  - by rewrite stores_act_ne.
Qed.
Lemma steps_on_local f s : steps s (on_local f s).
Proof. by intros c. Qed.
Lemma steps_emit es s : steps s (emit es s).
Proof. by intros c. Qed.
Lemma steps_then s s' s'' : steps s s' → steps s' s'' → steps s s''.
Proof. apply transitivity. Qed.

Definition sound (s : Client) : Prop :=
  ∀ c, reachable (Store0 := store_of c) (stores s c).

Lemma sound_initial b : sound (initial_client b).
Proof. intros c. apply reachable_initial. Qed.
Lemma sound_steps s s' : sound s → steps s s' → sound s'.
Proof. intros Hs Hst c. unfold reachable. etrans; [apply Hs|apply Hst]. Qed.
End client.

#[export] Hint Resolve steps_act steps_on_local steps_emit : meza.
