(* ===== verification/Dispatch.v ===== *)
(** * What the gateway does with what it receives ([dispatch] of [gateway/gateway.ts])

    Every event the server pushes and the READY payload of a handshake, handled as the
    code does: which stores change, in which order, under which conditions, and what is
    asked of other parts (decryption, search, key distribution, refetches, sounds and
    notifications), which the client's log records. *)

From S2P Require Export Client.
From S2P Require Import Connection Json Auth Notifier.

(** ** Events *)

Inductive GatewayEvent :=
  | MessageCreate (msg : Message)
  | MessageUpdate (msg : Message)
  | MessageDelete (channelId messageId : string)
  | MessageBulkDelete (channelId : string) (messageIds : list string)
  | TypingStart (channelId userId : string)
  | ChannelCreate (channel : Channel)
  | ChannelUpdate (channel : Channel)
  | ChannelDelete (channelId serverId : string)
  | MemberJoin (member : Member)
  | MemberUpdate (member : Member)
  | MemberRemove (serverId userId : string)
  | RoleCreate (role : Role)
  | RoleUpdate (role : Role)
  | RoleDelete (serverId roleId : string)
  | RolesReordered (serverId : string) (roles : list Role)
  | PinAdd (pin : PinnedMessage)
  | PinRemove (channelId messageId : string)
  | ReactionAdd (messageId emoji userId : string) (customEmoji : option CustomEmoji)
  | ReactionRemove (messageId emoji userId : string)
  | EmojiCreate (emoji : CustomEmoji)
  | EmojiUpdate (emoji : CustomEmoji)
  | EmojiDelete (serverId emojiId : string)
  | SoundCreate (sound : SoundboardSound)
  | SoundUpdate (sound : SoundboardSound)
  | SoundDelete (soundId serverId : string)
  | EmbedsUpdate (channelId messageId : string) (embeds : list LinkEmbed)
  | ReadStateUpdate (channelId lastReadMessageId : string) (unreadCount : Z)
  | ChannelMemberAdd (serverId channelId userId : string)
  | ChannelMemberRemove (serverId channelId userId : string)
  | ChannelGroupCreate (group : ChannelGroup)
  | ChannelGroupUpdate (group : ChannelGroup)
  | ChannelGroupDelete (serverId channelGroupId : string)
  | PermissionsUpdated (serverId : string)
  | PermissionOverrideUpdate (serverId : string) (override : option PermissionOverride)
  | PermissionOverrideDelete (serverId targetId overrideId : string)
  | FederationRemoved (serverId instanceUrl reason : string)
  | DMRequestReceived (dm : DMChannel)
  | DMRequestAccepted (dm : DMChannel)
  | DMRequestDeclined (channelId : string)
  | UserBlocked (userId channelId : string)
  | UserUnblocked (userId : string)
  | FriendRequestReceived (user : option User)
  | FriendRequestAccepted (user : option User)
  | FriendRequestDeclined (user : option User)
  | FriendRemoved (user : option User)
  | FriendRequestCancelled (user : option User)
  | KeyRequest (channelId userId : string)
  | ServerUpdate (server : option Server)
  | UserUpdate (user : option PublicUser)
  | PresenceUpdate (userId : string) (status : PresenceStatus) (statusText : string)
  (** Cases of the protocol [dispatch] has no branch for *)
  | Unhandled.

(** [s] as a condition: a string that is not empty *)
Definition nonempty (s : string) : bool := negb (bool_decide (s = "")).
(** [x && f()] for an optional message *)
Definition with_some {A} (o : option A) (f : A → Client → Client) (s : Client) : Client :=
  match o with Some a => f a s | None => s end.
Definition when (b : bool) (f : Client → Client) (s : Client) : Client :=
  if b then f s else s.

(** ** Reading the stores *)

Definition connection (s : Client) : Connection.Connection := stores s C_connection.
Definition messages (s : Client) : Messages.MessageState := stores s C_messages.
Definition channels (s : Client) : Channels.ChannelState := stores s C_channels.
Definition dms (s : Client) : Dms.DMState := stores s C_dms.
Definition readStates (s : Client) : ReadState.ReadStateState := stores s C_readStates.
Definition overrides (s : Client) : PermissionOverrides.PermissionOverrideState :=
  stores s C_overrides.
Definition servers (s : Client) : Servers.ServerState := stores s C_servers.

Definition now (s : Client) : Z := clock (connection s).
Definition gen_of (s : Client) : Z := generation (connection s).

Definition isDMChannel (channelId : string) (s : Client) : bool :=
  has_key dm_channelId (Some channelId) (Dms.dmChannels (dms s)).
Definition isServerChannel (channelId : string) (s : Client) : bool :=
  bool_decide (map_Exists (λ _ chs, has_key ch_id channelId chs = true)
    (Channels.byServer (channels s))).
Definition isViewed (channelId : string) (s : Client) : bool :=
  bool_decide (channelId ∈ viewedChannelIds (gw (connection s))).

Definition surroundings (s : Client) : Surroundings :=
  {| electron := onElectron (local s); inFront := windowInFront (local s);
     isPrimaryTab := primaryTab (local s); Notifier.now := now s;
     graceUntil := reconnectGraceUntil (connection s);
     ownStatus := Presence.myStatus (presence (connection s));
     blocks := stores s C_blocks; settings := stores s C_settings |}.

Section dispatch.
(** [localeCompare]; [Date.prototype.toISOString]; the signed-in user *)
Context (localeCompare : string → string → Z) (toISOString : Z → string) (self : string).

#[local] Notation act := (Client.act localeCompare self).

Definition play_sound (type : string) (authorId : option string) (s : Client) : Client :=
  when (maybePlaySound (surroundings s) type authorId) (emit [PlaySound type]) s.

Definition show_notification (channelId authorId : string) (mention dm : bool) (s : Client)
    : Client :=
  with_some
    (maybeShowDesktopNotification (users (local s)) (dms s) (channels s) (surroundings s)
      channelId authorId mention dm (Some self))
    (λ n, emit [ShowNotification n]) s.

Definition decryptInBackground (msg : Message) (s : Client) : Client :=
  emit [DecryptInBackground (m_channelId msg) msg (gen_of s)] s.

(** ** Messages *)

(** The counter, the sound and the notification of someone else's new message *)
Definition count_unread (msg : Message) (likelyDM : bool) (s : Client) : Client :=
  let c := m_channelId msg in
  let mention := bool_decide (self ∈ m_mentionedUserIds msg) || m_mentionEveryone msg in
  let s :=
    when (negb (isViewed c s))
      (λ s,
        let s := act C_readStates
          (if mention || likelyDM then ReadState.IncrementUnreadWithMention c
           else ReadState.IncrementUnread c) s in
        play_sound (if mention then "mention" else if likelyDM then "dm" else "message")
          (Some (m_authorId msg)) s) s in
  show_notification c (m_authorId msg) mention likelyDM s.

(** The message itself: the attachments of the user's own message, whose plaintext is
    kept, or the message as it comes *)
Definition store_message (msg : Message) (s : Client) : Client :=
  let c := m_channelId msg in
  let existingOwn :=
    if decide (m_authorId msg = self ∧ (0 < m_keyVersion msg)%Z)
    then Messages.indexed c (m_id msg) (messages s) else None in
  match existingOwn with
  | Some own =>
      act C_messages (Messages.UpdateMessage c (m_set_attachments (m_attachments msg) own)) s
  | None =>
      let s := act C_messages (Messages.AddMessage c msg) s in
      when ((0 <? m_keyVersion msg)%Z && sessionReady (local s)) (decryptInBackground msg) s
  end.

(** The conversation moves to the top, or is fetched if it is new. *)
Definition bump_conversation (msg : Message) (knownDM likelyDM : bool) (s : Client) : Client :=
  let c := m_channelId msg in
  if knownDM then act C_dms (Dms.BumpDMChannel c) s
  else if likelyDM && negb (bool_decide (m_authorId msg = self)) then
    when (negb (bool_decide (c ∈ pendingDMFetchChannels (local s))))
      (λ s, emit [FetchDMChannels] (on_local (on_pendingFetch ({[c]} ∪.)) s)) s
  else s.

Definition on_messageCreate (msg : Message) (s : Client) : Client :=
  let c := m_channelId msg in
  let alreadySeen := bool_decide (is_Some (Messages.indexed c (m_id msg) (messages s))) in
  let s := store_message msg s in
  let s := act C_typing (Typing.ClearUser c (m_authorId msg)) s in
  let knownDM := isDMChannel c s in
  let likelyDM := knownDM || negb (isServerChannel c s) in
  let s :=
    when (negb alreadySeen && negb (bool_decide (m_authorId msg = self)))
      (count_unread msg likelyDM) s in
  let s := bump_conversation msg knownDM likelyDM s in
  emit [IndexIncoming c msg] s.

Definition on_messageUpdate (msg : Message) (s : Client) : Client :=
  let s := act C_messages (Messages.UpdateMessage (m_channelId msg) msg) s in
  if (0 <? m_keyVersion msg)%Z && sessionReady (local s) then decryptInBackground msg s
  else emit [IndexIncoming (m_channelId msg) msg] s.

(** ** Channels, members and permissions *)

Definition on_channelUpdate (ch : Channel) (s : Client) : Client :=
  let existing :=
    Channels.byServer (channels s) !! ch_serverId ch ≫= find_key ch_id (ch_id ch) in
  let flips :=
    match existing with Some e => negb (ch_permissionsSynced e) | None => false end in
  let s := when (ch_permissionsSynced ch && flips)
    (act C_overrides (PermissionOverrides.SetOverrides (ch_id ch) [])) s in
  act C_channels (Channels.UpdateChannel ch) s.

Definition on_channelDelete (channelId : string) (s : Client) : Client :=
  let s := act C_channels (Channels.RemoveChannel channelId) s in
  let s := act C_connection (Connection.ForgetsThrottle channelId) s in
  when (bool_decide (VoiceParticipants.channelId (voice (local s)) = Some channelId))
    (on_local (on_voice VoiceParticipants.disconnect)) s.

Definition on_memberJoin (member : Member) (s : Client) : Client :=
  let s := act C_members (Members.AddMember member) s in
  when (negb (bool_decide (mb_userId member = self)) && nonempty (mb_serverId member)
        && sessionReady (local s))
    (emit [DistributeToJoiner (mb_serverId member) (mb_userId member)
       (bool_decide (mb_inviterUserId member = self)) (gen_of s)]) s.

Definition on_memberRemove (serverId userId : string) (s : Client) : Client :=
  let s := act C_members (Members.RemoveMember serverId userId) s in
  when (bool_decide (userId = self))
    (λ s,
      let s := act C_servers (Servers.RemoveServer serverId) s in
      let s := act C_channels (Channels.RemoveServerChannels serverId) s in
      let s := act C_roles (Roles.RemoveServerRoles serverId) s in
      let s := act C_groups (ChannelGroups.RemoveServerGroups serverId) s in
      act C_emojis (Emojis.RemoveServerEmojis serverId) s) s.

Definition on_channelMemberAdd (serverId channelId userId : string) (s : Client) : Client :=
  let s := when (bool_decide (userId = self) && nonempty serverId)
    (emit [FetchChannels serverId]) s in
  let s := when (negb (nonempty serverId) && nonempty channelId) (emit [FetchDMChannels]) s in
  when (negb (bool_decide (userId = self)) && nonempty channelId && sessionReady (local s))
    (emit [DistributeToMember channelId userId (gen_of s)]) s.

Definition on_channelMemberRemove (serverId channelId userId : string) (s : Client) : Client :=
  let s := when (bool_decide (userId = self) && nonempty serverId)
    (emit [FetchChannels serverId]) s in
  let s := when (negb (nonempty serverId) && nonempty channelId)
    (λ s, if bool_decide (userId = self) then act C_dms (Dms.RemoveDMChannel channelId) s
          else emit [FetchDMChannels] s) s in
  when (nonempty channelId && bool_decide (userId = self))
    (act C_connection (Connection.ForgetsThrottle channelId)) s.

Definition on_overrideUpdate (serverId : string) (override : option PermissionOverride)
    (s : Client) : Client :=
  let s := with_some override
    (λ o, act C_overrides (PermissionOverrides.UpsertOverride (po_targetId o) o)) s in
  when (nonempty serverId) (emit [FetchChannels serverId]) s.

Definition on_overrideDelete (serverId targetId overrideId : string) (s : Client) : Client :=
  let s := when (nonempty targetId && nonempty overrideId)
    (λ s, with_some
      (PermissionOverrides.byTarget (overrides s) !! targetId ≫= find_key po_id overrideId)
      (λ m, act C_overrides (PermissionOverrides.RemoveOverride targetId (po_roleId m)
         (Some (po_userId m)))) s) s in
  when (nonempty serverId) (emit [FetchChannels serverId]) s.

(** ** Everything else *)

Definition on_userUpdate (user : PublicUser) (s : Client) : Client :=
  on_local (on_users (Auth.setProfile (now s) (pu_id user) (publicUserToStored user))) s.

Definition on_friendRequest (user : User) (s : Client) : Client :=
  play_sound "dm" None
    (act C_friends (Friends.AddIncomingRequest
       {| fr_user := Some user; fr_direction := "incoming";
          fr_createdAt := toISOString (now s) |}) s).

Definition dispatch (e : GatewayEvent) : Client → Client :=
  match e with
  | MessageCreate msg => on_messageCreate msg
  | MessageUpdate msg => on_messageUpdate msg
  | MessageDelete c id => λ s,
      emit [RemoveIndexed c [id]] (act C_messages (Messages.RemoveMessage c id) s)
  | MessageBulkDelete c ids => λ s,
      emit [RemoveIndexed c ids] (act C_messages (Messages.RemoveMessages c ids) s)
  | TypingStart c u =>
      when (negb (bool_decide (u = self))) (act C_typing (Typing.SetTyping c u))
  | ChannelCreate ch => act C_channels (Channels.AddChannel ch)
  | ChannelUpdate ch => on_channelUpdate ch
  | ChannelDelete c _ => on_channelDelete c
  | MemberJoin m => on_memberJoin m
  | MemberUpdate m => act C_members (Members.UpdateMember m)
  | MemberRemove sid uid => on_memberRemove sid uid
  | RoleCreate r => act C_roles (Roles.AddRole r)
  | RoleUpdate r => act C_roles (Roles.UpdateRole r)
  | RoleDelete sid rid => λ s,
      act C_members (Members.StripRoleFromAll sid rid)
        (act C_roles (Roles.RemoveRole sid rid) s)
  | RolesReordered sid rs => act C_roles (Roles.SetRoles sid rs)
  | PinAdd pin =>
      with_some (pm_message pin) (λ m, act C_pins (Pins.AddPin (m_channelId m) pin))
  | PinRemove c id => act C_pins (Pins.RemovePin c id)
  | ReactionAdd m e u custom => λ s,
      with_some custom
        (λ ce, when (nonempty (ce_id ce))
           (act C_emojis (Emojis.SetReactionEmojis {[ce_id ce := ce]})))
        (act C_reactions (Reactions.AddReaction m e u (bool_decide (u = self))) s)
  | ReactionRemove m e u =>
      act C_reactions (Reactions.RemoveReaction m e u (bool_decide (u = self)))
  | EmojiCreate e => act C_emojis (Emojis.AddEmoji e)
  | EmojiUpdate e => act C_emojis (Emojis.UpdateEmoji e)
  | EmojiDelete sid eid => act C_emojis (Emojis.RemoveEmoji sid eid)
  | SoundCreate x => act C_sounds (Sounds.AddSound x)
  | SoundUpdate x => act C_sounds (Sounds.UpdateSound x)
  | SoundDelete i sid => act C_sounds (Sounds.RemoveSound i (Some sid))
  | EmbedsUpdate c id es => act C_messages (Messages.PatchEmbeds c id es)
  | ReadStateUpdate c last n => act C_readStates (ReadState.UpdateReadState c last n)
  | ChannelMemberAdd sid c u => on_channelMemberAdd sid c u
  | ChannelMemberRemove sid c u => on_channelMemberRemove sid c u
  | ChannelGroupCreate g => act C_groups (ChannelGroups.AddGroup g)
  | ChannelGroupUpdate g => act C_groups (ChannelGroups.UpdateGroup g)
  | ChannelGroupDelete sid gid => act C_groups (ChannelGroups.RemoveGroup sid gid)
  | PermissionsUpdated sid => when (nonempty sid) (emit [FetchChannels sid])
  | PermissionOverrideUpdate sid o => on_overrideUpdate sid o
  | PermissionOverrideDelete sid t o => on_overrideDelete sid t o
  | FederationRemoved sid url reason =>
      when (nonempty url) (emit [CleanupSpoke url sid (str_or reason "Removed from federation")])
  | DMRequestReceived dm => λ s,
      play_sound "dm" None (act C_dms (Dms.AddMessageRequest dm) s)
  | DMRequestAccepted dm =>
      with_some (dm_channelId dm)
        (λ id, when (nonempty id) (act C_dms (Dms.MoveRequestToActive id)))
  | DMRequestDeclined c => act C_dms (Dms.RemoveMessageRequest c)
  | UserBlocked u c => λ s,
      when (nonempty u) (act C_blocks (Blocks.AddBlockedUserId u))
        (when (nonempty c) (act C_dms (Dms.RemoveDMChannel c)) s)
  | UserUnblocked u => λ s,
      emit [FetchDMChannels] (when (nonempty u) (act C_blocks (Blocks.RemoveBlockedUser u)) s)
  | FriendRequestReceived u => with_some u on_friendRequest
  | FriendRequestAccepted u => with_some u (λ u, act C_friends (Friends.AcceptFriend u))
  | FriendRequestDeclined u | FriendRequestCancelled u =>
      with_some u (λ u, act C_friends (Friends.RemoveIncomingRequest (u_id u)))
  | FriendRemoved u => with_some u (λ u, act C_friends (Friends.RemoveFriend (u_id u)))
  | KeyRequest c u => λ s,
      when (negb (bool_decide (u = self)) && sessionReady (local s)
            && ChannelKeys.hasChannelKey c (keys (local s)))
        (emit [AnswerKeyRequest c u (gen_of s)]) s
  | ServerUpdate sv => with_some sv (λ sv, act C_servers (Servers.AddServer sv))
  | UserUpdate u => with_some u on_userUpdate
  | PresenceUpdate u x text => λ s,
      when (nonempty u)
        (act C_connection (Connection.SetsPresence (Presence.setPresence (now s) u x text))) s
  | Unhandled => λ s, s
  end.

(** ** The READY payload *)

(** [typeof obj.k === 'string'] for a member that may be missing *)
Definition is_string (j : option json) : bool :=
  match j with Some (JStr _) => true | _ => false end.

Definition read_state_ok (rs : json) : bool :=
  match rs with
  | JObj _ | JArr _ =>
      is_string (json_get "channel_id" (Some rs)) &&
      is_string (json_get "last_read_message_id" (Some rs)) &&
      match json_get "unread_count" (Some rs) with Some (JNum _) => true | _ => false end
  | _ => false
  end.

Definition validateReadyPayload (data : json) : bool :=
  match data with
  | JObj _ | JArr _ =>
      match json_get "user_id" (Some data) with
      | Some (JStr _) | None => true
      | _ => false
      end &&
      match json_get "channel_ids" (Some data) with
      | None | Some JNull => true
      | Some (JArr ids) => forallb (λ id, is_string (Some id)) ids
      | _ => false
      end &&
      match json_get "read_states" (Some data) with
      | None | Some JNull => true
      | Some (JArr l) => forallb read_state_ok l
      | _ => false
      end
  | _ => false
  end.

(** The integer a number is; the server's counts are integers. *)
Definition number_to_Z (n : number) : Z :=
  match n with
  | SpecFloat.S754_finite s m e =>
      let v := if (0 <=? e)%Z then Z.shiftl (Zpos m) e else Z.shiftr (Zpos m) (- e) in
      if s then (- v)%Z else v
  | _ => 0%Z
  end.

Definition string_of (j : option json) : string := or_default "" (json_string j).
Definition number_of (j : option json) : Z :=
  match j with Some (JNum n) => number_to_Z n | _ => 0%Z end.

Definition read_entry (rs : json) : ReadState.ReadStateEntry :=
  {| ReadState.rs_channelId := string_of (json_get "channel_id" (Some rs));
     ReadState.rs_lastReadMessageId := string_of (json_get "last_read_message_id" (Some rs));
     ReadState.rs_unreadCount := number_of (json_get "unread_count" (Some rs)) |}.

(** The lists of a payload, where they are arrays *)
Definition ready_read_states (data : json) : option (list ReadState.ReadStateEntry) :=
  match json_get "read_states" (Some data) with
  | Some (JArr l) => Some (read_entry <$> l)
  | _ => None
  end.
Definition ready_channel_ids (data : json) : list string :=
  match json_get "channel_ids" (Some data) with
  | Some (JArr ids) => (λ id, string_of (Some id)) <$> ids
  | _ => []
  end.

Definition on_ready (gen : Z) (data : json) (s : Client) : Client :=
  let cached := ChannelKeys.getCachedChannelIds (keys (local s)) in
  let session := sessionReady (local s) in
  let refetch := refetches (connection s) in
  let redistribute := redistributes session cached (connection s) in
  let s := with_some (ready_read_states data)
    (λ l, act C_readStates (ReadState.SetReadStates l)) s in
  let s := when refetch (act C_typing Typing.Reset) s in
  let s := act C_connection (Connection.Ready gen session cached) s in
  let s := when redistribute (emit [RedistributeKeys cached]) s in
  let ids := ready_channel_ids data in
  let s := when (negb (bool_decide (ids = []))) (emit [PrefetchKeys ids gen (negb session)]) s in
  let s := emit [PrefetchSounds; GetMyPresence] s in
  emit ((ListEmojis <$> (map_to_list (Servers.servers (servers s))).*1) ++ [ListUserEmojis]) s.

(** [JSON.parse] has thrown, or returned a value. *)
Definition receive_ready (gen : Z) (payload : result unit json) (s : Client) : Client :=
  match payload with
  | Ok data =>
      if validateReadyPayload data then on_ready gen data s
      else act C_connection (Connection.BadReady gen) s
  | Throw _ => act C_connection (Connection.BadReady gen) s
  end.

(** ** Steps of the client *)

Inductive client_event :=
  | Receive (gen : Z) (e : GatewayEvent)
  | ReceiveReady (gen : Z) (payload : result unit json)
  (** An action of a store by another part: an API call, a view *)
  | Act (c : component) (a : action_of c)
  | Elapse (ms : Z)
  | SessionChanges (ready : bool)
  | KeysChange (f : ChannelKeys.KeyState → ChannelKeys.KeyState)
  | UsersChange (f : Auth.UsersState → Auth.UsersState)
  | VoiceChanges (f : VoiceParticipants.VoiceState → VoiceParticipants.VoiceState)
  | WindowsChange (front tab : bool)
  | DMFetchSettles (channelId : string).

Definition client_step (e : client_event) (s : Client) : Client :=
  match e with
  | Receive gen e => when (receives gen (connection s)) (dispatch e) s
  | ReceiveReady gen payload => when (receives gen (connection s)) (receive_ready gen payload) s
  | Act c a => act c a s
  | Elapse ms =>
      act C_typing (Typing.Tick ms) (act C_connection (Connection.Tick ms) s)
  | SessionChanges b => on_local (set_session b) s
  | KeysChange f => on_local (on_keys f) s
  | UsersChange f => on_local (on_users f) s
  | VoiceChanges f => on_local (on_voice f) s
  | WindowsChange front tab => on_local (set_windows front tab) s
  | DMFetchSettles c => on_local (on_pendingFetch (λ ids, ids ∖ {[c]})) s
  end.

(** The actions that are not left to other parts: time passes for every store at once,
    and READY is handled above. *)
Definition others_may (c : component) : action_of c → Prop :=
  match c with
  | C_connection => λ a,
      match a with
      | Connection.Tick _ | Connection.Ready _ _ _ | Connection.BadReady _ => False
      | _ => True
      end
  | C_typing => λ a, match a with Typing.Tick _ => False | _ => True end
  | _ => λ _, True
  end.

(** What the server guarantees of an event *)
Definition event_args_ok (e : GatewayEvent) (s : Client) : Prop :=
  match e with
  | ChannelCreate ch => Channels.args_ok (Channels.AddChannel ch) (channels s)
  | MemberJoin m | MemberUpdate m => Members.roles_once m
  | MemberRemove sid _ => sid ≠ ""
  | RolesReordered _ rs => NoDup (r_id <$> rs)
  | ReadStateUpdate _ _ n => (0 ≤ n)%Z
  | PermissionOverrideUpdate _ (Some o) => PermissionOverrides.one_subject o
  | _ => True
  end.

Definition client_event_ok (e : client_event) (s : Client) : Prop :=
  match e with
  | Receive _ e => event_args_ok e s
  | ReceiveReady _ (Ok data) =>
      Forall (λ x, 0 ≤ ReadState.rs_unreadCount x)%Z (or_default [] (ready_read_states data))
  | Act c a =>
      others_may c a ∧ admissible (Store := store_of localeCompare self c) a (stores s c)
  | Elapse ms => (0 ≤ ms)%Z
  | _ => True
  end.

#[export] Instance client_store : Store Client client_event :=
  {| initial := initial_client localeCompare self true; exec := client_step;
     admissible := client_event_ok |}.
End dispatch.

Section theorems.
Context (localeCompare : string → string → Z).
Context (toISOString : Z → string) (self : string).

#[local] Notation act := (Client.act localeCompare self).
#[local] Notation steps := (Client.steps localeCompare self).
#[local] Notation sound := (Client.sound localeCompare self).
#[local] Notation dispatched := (dispatch localeCompare toISOString self).
#[local] Notation client_stepped := (client_step localeCompare toISOString self).
#[local] Existing Instance store_of.

(** ** Every event is a run of every store *)

Lemma steps_when b f s : (b = true → steps s (f s)) → steps s (when b f s).
Proof. destruct b; [intros Hf; by apply Hf|]. reflexivity. Qed.
Lemma steps_with_some {A} (o : option A) f s :
  (∀ a, o = Some a → steps s (f a s)) → steps s (with_some o f s).
Proof. destruct o; [intros Hf; by apply Hf|]. reflexivity. Qed.
Lemma steps_play type a s : steps s (play_sound type a s).
Proof. apply steps_when. intros _. apply steps_emit. Qed.

(** An action of another component is admissible exactly when it was before. *)
Ltac admissible_now := first [done | by repeat case_match | idtac].

(** Follow the order in which a handler updates the client. *)
Ltac walk :=
  lazymatch goal with
  | |- Client.steps _ _ ?s ?s => reflexivity
  | |- Client.steps _ _ ?s (Client.act _ _ _ _ ?s') =>
      apply (steps_then _ _ s s'); [walk|apply steps_act; admissible_now]
  | |- Client.steps _ _ ?s (emit _ ?s') =>
      apply (steps_then _ _ s s'); [walk|apply steps_emit]
  | |- Client.steps _ _ ?s (on_local _ ?s') =>
      apply (steps_then _ _ s s'); [walk|apply steps_on_local]
  | |- Client.steps _ _ ?s (play_sound _ _ ?s') =>
      apply (steps_then _ _ s s'); [walk|apply steps_play]
  | |- Client.steps _ _ ?s (when _ _ ?s') =>
      apply (steps_then _ _ s s'); [walk|apply steps_when; intros ?; cbv beta; walk]
  | |- Client.steps _ _ ?s (with_some _ _ ?s') =>
      apply (steps_then _ _ s s');
        [walk|apply steps_with_some; intros ? ?; cbv beta zeta; walk]
  | |- Client.steps _ _ _ (match ?b with _ => _ end) => destruct b eqn:?; walk
  | |- Client.steps _ _ _ (let x := _ in _) => cbv zeta; walk
  | |- _ => idtac
  end.

Lemma steps_count_unread msg b s : steps s (count_unread localeCompare self msg b s).
Proof. unfold count_unread, show_notification. cbv zeta. walk. Qed.
Lemma steps_messageCreate msg s : steps s (on_messageCreate localeCompare self msg s).
Proof.
  unfold on_messageCreate, bump_conversation, store_message, decryptInBackground. cbv zeta.
  walk. all: try apply steps_count_unread.
Qed.

Lemma steps_dispatch e s : event_args_ok e s → sound s → steps s (dispatched e s).
Proof.
  intros Hok Hs. destruct e; cbn [dispatch]; cbn [event_args_ok] in Hok;
    rewrite ?bool_decide_eq_true;
    try apply steps_messageCreate;
    unfold on_messageUpdate, decryptInBackground, on_channelUpdate, on_channelDelete,
      on_memberJoin, on_memberRemove, on_channelMemberAdd, on_channelMemberRemove,
      on_overrideUpdate, on_overrideDelete, on_userUpdate, on_friendRequest;
    cbv beta zeta; walk.
  - split; constructor.
  - by simplify_eq.
  - match goal with Ho : _ = Some ?o |- _ =>
      apply bind_Some in Ho as (l & Hl & [Ho _]%find_key_Some_inv);
      pose proof (PermissionOverrides.overrides_reachable_ok _ (Hs C_overrides) _ l Hl)
        as [_ Hone]; rewrite Forall_forall in Hone; specialize (Hone o Ho) as [[Hu _]|[_ Hr]]
    end; simpl.
    + left. by rewrite bool_decide_eq_false_2.
    + by right.
Qed.

Lemma steps_receive_ready gen payload s :
  client_event_ok localeCompare self (ReceiveReady gen payload) s → sound s →
  steps s (receive_ready localeCompare self gen payload s).
Proof.
  intros Hok Hs. unfold receive_ready, on_ready. cbv zeta. destruct payload as [data|]; walk.
  match goal with Hl : ready_read_states data = Some _ |- _ =>
    cbn [client_event_ok] in Hok; rewrite Hl in Hok; exact Hok end.
Qed.

Lemma steps_client e s :
  client_event_ok localeCompare self e s → sound s → steps s (client_stepped e s).
Proof.
  intros Hok Hs. destruct e; cbn [client_step].
  - apply steps_when. intros _. by apply steps_dispatch.
  - apply steps_when. intros _. by apply steps_receive_ready.
  - apply steps_act. apply Hok.
  - walk.
  - walk.
  - walk.
  - walk.
  - walk.
  - walk.
  - walk.
Qed.

#[local] Notation client := (client_store localeCompare toISOString self).

(** Whatever the server sends and the other parts do, in any order, every store of the
    client is in a state its own actions reach. *)
Lemma client_sound s : reachable (Store0 := client) s → sound s.
Proof.
  apply (reachable_invariant (Store0 := client) sound); [apply sound_initial|].
  intros e s' Hok Hs. eapply sound_steps; [exact Hs|]. by apply steps_client.
Qed.
End theorems.
