(* ===== verification/DispatchFacts.v ===== *)
(** * What the gateway's handlers do to the client

    The stores' invariants hold of the client as a whole; what a new message changes,
    and that a second delivery of it changes nothing; the user's own messages; leaving a
    server; the sounds and notifications a message may cause; and the READY payload. *)

From S2P Require Import Connection Json Auth Notifier Dispatch.

Section facts.
Context (localeCompare : string → string → Z) `{!Comparator localeCompare}.
Context (toISOString : Z → string) (self : string).

#[local] Notation act := (Client.act localeCompare self).
#[local] Notation dispatched := (dispatch localeCompare toISOString self).
#[local] Notation stepped := (client_step localeCompare toISOString self).
#[local] Notation client := (client_store localeCompare toISOString self).
#[local] Existing Instance store_of.

(** ** Every store is well formed *)

Record client_wf (s : Client) : Prop := {
  cw_connection : Connection.connection_wf (connection s);
  cw_messages : Messages.consistent (messages s);
  cw_channels : Channels.well_formed (channels s);
  cw_groups : ServerLists.lists_ok cg_id ChannelGroups.by_position
    (ChannelGroups.byServer (stores s C_groups));
  cw_roles : Roles.system_ok (stores s C_roles);
  cw_members : Members.state_ok (stores s C_members);
  cw_servers : ∀ id sv, Servers.servers (servers s) !! id = Some sv → sv_id sv = id;
  cw_dms : Dms.well_formed (dms s);
  cw_friends : Friends.well_formed (stores s C_friends);
  cw_blocks : Blocks.well_formed (stores s C_blocks);
  cw_reactions : Reactions.well_formed self (stores s C_reactions);
  cw_pins : Pins.ids_ok (stores s C_pins);
  cw_readStates : ReadState.counters_ok (readStates s);
  cw_settings : NotificationSettings.well_formed (stores s C_settings);
  cw_emojis : Emojis.emojis_ok localeCompare (stores s C_emojis);
  cw_sounds : ServerLists.lists_ok ss_id (Sounds.by_name localeCompare)
    (Sounds.owners (stores s C_sounds));
  cw_overrides : PermissionOverrides.state_ok (overrides s);
  cw_typing : Typing.well_formed (stores s C_typing);
}.

Lemma reachable_client_wf s : reachable (Store0 := client) s → client_wf s.
Proof.
  intros Hs%client_sound.
  split; [apply Connection.connection_reachable_wf, (Hs C_connection)
    |apply Messages.reachable_consistent, (Hs C_messages)
    |apply Channels.channels_reachable_wf, (Hs C_channels)
    |apply ChannelGroups.groups_reachable_ok, (Hs C_groups)
    |apply Roles.roles_reachable_ok, (Hs C_roles)
    |apply Members.members_reachable_ok, (Hs C_members)
    |apply Servers.reachable_keys, (Hs C_servers)
    |apply Dms.dms_reachable_wf, (Hs C_dms)
    |apply Friends.friends_reachable_wf, (Hs C_friends)
    |apply Blocks.blocks_reachable_wf, (Hs C_blocks)
    |apply Reactions.reachable_well_formed, (Hs C_reactions)
    |apply Pins.pins_reachable_ok, (Hs C_pins)
    |apply ReadState.read_reachable_ok, (Hs C_readStates)
    |apply NotificationSettings.notification_reachable_wf, (Hs C_settings)
    |apply Emojis.emojis_reachable_ok, (Hs C_emojis)
    |apply Sounds.sounds_reachable_ok, (Hs C_sounds)
    |apply PermissionOverrides.overrides_reachable_ok, (Hs C_overrides)
    |apply Typing.typing_reachable_wf, (Hs C_typing)]; assumption.
Qed.

(** C1: whatever the server pushes and whatever the API calls and views do, in any order,
    every one of the client's eighteen stores keeps its invariant: messages agree with
    their index, lists are sorted and free of duplicates, counters are not negative,
    at most one socket is live, and so on.  The list of conversations is the exception: it
    can name one twice, as [Dms.accepted_listed_twice] shows. *)
Theorem client_well_formed s : reachable (Store0 := client) s → client_wf s.
Proof. apply reachable_client_wf. Qed.

(** ** What a handler leaves alone *)

Definition leaves (c : component) (f : Client → Client) : Prop :=
  ∀ s, stores (f s) c = stores s c.

Lemma leaves_act c c' a : c' ≠ c → leaves c (act c' a).
Proof. intros Hne s. by apply stores_act_ne. Qed.
Lemma leaves_emit c es : leaves c (emit es).
Proof. done. Qed.
Lemma leaves_on_local c f : leaves c (on_local f).
Proof. done. Qed.
Lemma leaves_when c b f : leaves c f → leaves c (when b f).
Proof. intros Hf s. destruct b; [apply Hf|done]. Qed.
Lemma leaves_with_some {A} c (o : option A) f : (∀ a, leaves c (f a)) → leaves c (with_some o f).
Proof. intros Hf s. destruct o; [apply Hf|done]. Qed.
Lemma leaves_play c type a : leaves c (play_sound type a).
Proof. intros s. by apply leaves_when. Qed.
Lemma leaves_show c ch a m d : leaves c (show_notification self ch a m d).
Proof. intros s. by apply leaves_with_some. Qed.

(** ** A new message *)

Definition mentions (msg : Message) : bool :=
  bool_decide (self ∈ m_mentionedUserIds msg) || m_mentionEveryone msg.
Definition is_direct (c : string) (s : Client) : bool :=
  isDMChannel c s || negb (isServerChannel c s).
Definition stored (msg : Message) (s : Client) : option Message :=
  Messages.indexed (m_channelId msg) (m_id msg) (messages s).
(** The user's own message, already in the list as plaintext *)
Definition own_echo (msg : Message) : Prop := m_authorId msg = self ∧ (0 < m_keyVersion msg)%Z.

Lemma count_unread_readStates msg b s :
  readStates (count_unread localeCompare self msg b s) =
    (if isViewed (m_channelId msg) s then λ x, x
     else if mentions msg || b then ReadState.incrementUnreadWithMention (m_channelId msg)
     else ReadState.incrementUnread (m_channelId msg)) (readStates s).
Proof.
  unfold count_unread, readStates. cbv zeta. rewrite leaves_show. unfold when at 1.
  fold (mentions msg). destruct (isViewed (m_channelId msg) s); simpl; [done|].
  rewrite leaves_play, stores_act_eq. by destruct (_ || _).
Qed.
Lemma leaves_count_unread c msg b :
  c ≠ C_readStates → leaves c (count_unread localeCompare self msg b).
Proof.
  intros Hne s. unfold count_unread. cbv zeta. rewrite leaves_show. apply leaves_when.
  intros s'. rewrite leaves_play. by apply leaves_act.
Qed.

Lemma leaves_store_message c msg :
  c ≠ C_messages → leaves c (store_message localeCompare self msg).
Proof.
  intros Hne s. unfold store_message. cbv zeta. destruct (if decide _ then _ else _).
  - by apply leaves_act.
  - rewrite leaves_when by done. by apply leaves_act.
Qed.
Lemma leaves_bump c msg k l :
  c ≠ C_dms → leaves c (bump_conversation localeCompare self msg k l).
Proof.
  intros Hne s. unfold bump_conversation. destruct k; [by apply leaves_act|].
  destruct (_ && _); [|done]. by apply leaves_when.
Qed.

(** The state a new message's sender is told from: before the counters move *)
Lemma messageCreate_stores c msg s :
  stores (dispatched (MessageCreate msg) s) c =
    stores (bump_conversation localeCompare self msg (isDMChannel (m_channelId msg) s)
        (is_direct (m_channelId msg) s)
      (when (negb (bool_decide (is_Some (stored msg s))) &&
             negb (bool_decide (m_authorId msg = self)))
        (count_unread localeCompare self msg (is_direct (m_channelId msg) s))
        (act C_typing (Typing.ClearUser (m_channelId msg) (m_authorId msg))
          (store_message localeCompare self msg s)))) c.
Proof.
  cbn [dispatch]. unfold on_messageCreate. cbv zeta. rewrite leaves_emit.
  assert (∀ ch, isDMChannel ch (act C_typing (Typing.ClearUser (m_channelId msg)
    (m_authorId msg)) (store_message localeCompare self msg s)) = isDMChannel ch s) as ->.
  { intros ch. unfold isDMChannel, dms. by rewrite leaves_act, leaves_store_message. }
  assert (∀ ch, isServerChannel ch (act C_typing (Typing.ClearUser (m_channelId msg)
    (m_authorId msg)) (store_message localeCompare self msg s)) = isServerChannel ch s) as ->.
  { intros ch. unfold isServerChannel, channels. by rewrite leaves_act, leaves_store_message. }
  done.
Qed.

Lemma messageCreate_frame msg s k :
  k ∉ [C_messages; C_typing; C_readStates; C_dms] →
  stores (dispatched (MessageCreate msg) s) k = stores s k.
Proof.
  intros Hk. rewrite !not_elem_of_cons in Hk. destruct Hk as (H1 & H2 & H3 & H4 & _).
  rewrite messageCreate_stores, leaves_bump by done.
  rewrite leaves_when by (by apply leaves_count_unread). rewrite leaves_act by done.
  by apply leaves_store_message.
Qed.

(** What a delivery does to the messages *)
Definition deliver (msg : Message) (M : Messages.MessageState) : Messages.MessageState :=
  let existing := Messages.indexed (m_channelId msg) (m_id msg) M in
  match (if decide (own_echo msg) then existing else None) with
  | Some own =>
      Messages.updateMessage (m_channelId msg) (m_set_attachments (m_attachments msg) own) M
  | None => Messages.addMessage (m_channelId msg) msg M
  end.

Lemma messageCreate_messages msg s :
  messages (dispatched (MessageCreate msg) s) = deliver msg (messages s).
Proof.
  unfold messages at 1. rewrite messageCreate_stores, leaves_bump by done.
  rewrite leaves_when by (by apply leaves_count_unread). rewrite leaves_act by done.
  unfold store_message. cbv zeta. fold (own_echo msg). unfold deliver.
  destruct (if decide _ then _ else _); [by rewrite stores_act_eq|].
  rewrite leaves_when by done. by rewrite stores_act_eq.
Qed.

Lemma messageCreate_readStates msg s :
  readStates (dispatched (MessageCreate msg) s) =
    (if negb (bool_decide (is_Some (stored msg s))) && negb (bool_decide (m_authorId msg = self))
        && negb (isViewed (m_channelId msg) s)
     then if mentions msg || is_direct (m_channelId msg) s
       then ReadState.incrementUnreadWithMention (m_channelId msg) (readStates s)
       else ReadState.incrementUnread (m_channelId msg) (readStates s)
     else readStates s).
Proof.
  unfold readStates at 1. rewrite messageCreate_stores, leaves_bump by done.
  assert (∀ c, c ≠ C_messages → c ≠ C_typing → stores (act C_typing
    (Typing.ClearUser (m_channelId msg) (m_authorId msg))
    (store_message localeCompare self msg s)) c = stores s c) as Hsame.
  { intros c H1 H2. by rewrite leaves_act, leaves_store_message. }
  unfold when. destruct (negb _ && negb _); cbn [andb]; [|by apply (Hsame C_readStates)].
  change (stores ?x C_readStates) with (readStates x).
  rewrite count_unread_readStates. unfold isViewed, connection, readStates.
  rewrite !Hsame by done. simpl. by destruct (bool_decide _), (_ || _).
Qed.

(** *** Counting *)

Definition unread (c : string) (s : Client) : Z := ReadState.getUnreadCount c (readStates s).
Definition mention_count (c : string) (s : Client) : Z :=
  or_default 0%Z (ReadState.mentionOrDmCount <$> ReadState.byChannel (readStates s) !! c).
(** A message that is counted: someone else's, not in the list yet, in a channel that is
    not on screen *)
Definition counted (msg : Message) (s : Client) : bool :=
  negb (bool_decide (is_Some (stored msg s))) && negb (bool_decide (m_authorId msg = self))
  && negb (isViewed (m_channelId msg) s).

Lemma messageCreate_counters msg s c :
  let s' := dispatched (MessageCreate msg) s in
  let here b := (if counted msg s && bool_decide (c = m_channelId msg) && b then 1 else 0)%Z in
  unread c s' = (unread c s + here true)%Z ∧
  mention_count c s' = (mention_count c s + here (mentions msg || is_direct (m_channelId msg) s))%Z.
Proof.
  intros s' here. subst s' here. unfold unread, mention_count. rewrite messageCreate_readStates.
  fold (counted msg s). destruct (counted msg s); simpl; [|lia].
  unfold ReadState.getUnreadCount.
  destruct (mentions msg || is_direct (m_channelId msg) s); simpl; rewrite lookup_insert;
    case_bool_decide; repeat case_decide; subst; try done; simpl; try lia;
    destruct (ReadState.byChannel (readStates s) !! m_channelId msg); simpl; lia.
Qed.

(** C5: a new message raises the unread count of its channel by one, and the mention count
    exactly when it mentions the user or everyone or the conversation is a direct one;
    the user's own messages, messages in the list already and messages of a channel on
    screen are not counted; no other channel's counters move; and the sockets, the
    channels, the servers and everything else but messages, typing, counters and the
    order of conversations are left alone. *)
Theorem new_message_counts msg s c :
  let s' := dispatched (MessageCreate msg) s in
  let here b := (if counted msg s && bool_decide (c = m_channelId msg) && b then 1 else 0)%Z in
  unread c s' = (unread c s + here true)%Z ∧
  mention_count c s' =
    (mention_count c s + here (mentions msg || is_direct (m_channelId msg) s))%Z ∧
  (∀ k, k ∉ [C_messages; C_typing; C_readStates; C_dms] → stores s' k = stores s k).
Proof.
  intros s' here. destruct (messageCreate_counters msg s c) as [Hu Hm].
  split; [exact Hu|]. split; [exact Hm|]. intros k Hk. by apply messageCreate_frame.
Qed.

(** *** A second delivery *)

Lemma update_same c m (s : Messages.MessageState) :
  Messages.consistent s → Messages.indexed c (m_id m) s = Some m →
  Messages.updateMessage c m s = s.
Proof.
  intros Hs Hm. pose proof Hm as Hf. rewrite (Messages.consistent_indexed _ _ _ Hs) in Hf.
  unfold Messages.updateMessage. destruct (Messages.byChannel s !! c) as [ms|] eqn:Hc; [|done].
  destruct (index_key m_id (m_id m) ms) as [i|] eqn:Hi; [|done].
  assert (ms !! i = Some m) as Hget.
  { unfold index_key in Hi. simpl in Hf. unfold find_key in Hf.
    destruct (list_find _ ms) as [[i' m']|] eqn:E; [|done]. simplify_eq/=.
    by apply list_find_Some in E as (? & _). }
  rewrite list_insert_id by done. unfold Messages.on_lists. destruct s; f_equal; simpl in *.
  - by apply insert_id.
  - unfold Messages.indexed in Hm. simpl in Hm.
    destruct (byId !! c) as [ix|] eqn:Hix; [|done]. simpl in Hm.
    apply alter_id. intros x Hx. rewrite Hix in Hx. simplify_eq. by apply insert_id.
Qed.

Lemma update_known_indexed c m (s : Messages.MessageState) x :
  Messages.consistent s → Messages.indexed c (m_id m) s = Some x →
  Messages.indexed c (m_id m) (Messages.updateMessage c m s) = Some m.
Proof.
  intros Hs Hm. pose proof Hm as Hf. rewrite (Messages.consistent_indexed _ _ _ Hs) in Hf.
  unfold Messages.updateMessage. destruct (Messages.byChannel s !! c) as [ms|] eqn:Hc; [|done].
  simpl in Hf. destruct (index_key m_id (m_id m) ms) as [i|] eqn:Hi.
  - unfold Messages.indexed in *. simpl. rewrite lookup_alter_eq.
    destruct (Messages.byId s !! c) as [ix|]; [|done]. simpl. by rewrite lookup_insert_eq.
  - apply index_key_None, find_key_None in Hi. congruence.
Qed.

Lemma add_known c m (s : Messages.MessageState) x :
  Messages.indexed c (m_id m) s = Some x → Messages.addMessage c m s = s.
Proof.
  unfold Messages.addMessage. intros ->. by destruct (Messages.viewMode s !! c) as [[]|].
Qed.
Lemma add_indexed c m (s : Messages.MessageState) :
  Messages.viewMode s !! c ≠ Some Messages.historical →
  ∃ x, Messages.indexed c (m_id m) (Messages.addMessage c m s) = Some x ∧
       (Messages.indexed c (m_id m) s = None → x = m).
Proof.
  intros Hv. destruct (Messages.indexed c (m_id m) s) as [x|] eqn:E.
  - exists x. by rewrite (add_known c m s x).
  - exists m. split; [|done]. unfold Messages.addMessage. rewrite E.
    destruct (Messages.viewMode s !! c) as [[]|]; try done;
      unfold Messages.indexed; simpl; rewrite lookup_insert_eq; simpl; by rewrite lookup_insert_eq.
Qed.

Lemma indexed_id c id (M : Messages.MessageState) m :
  Messages.consistent M → Messages.indexed c id M = Some m → m_id m = id.
Proof.
  intros Hs. rewrite (Messages.consistent_indexed _ _ _ Hs).
  by intros (l & _ & [_ ?]%find_key_Some_inv)%bind_Some.
Qed.

Lemma deliver_consistent msg M : Messages.consistent M → Messages.consistent (deliver msg M).
Proof.
  intros HM. unfold deliver. destruct (if decide _ then _ else _).
  - by apply Messages.update_consistent.
  - by apply Messages.add_consistent.
Qed.

Lemma deliver_indexed msg M :
  Messages.consistent M → Messages.viewMode M !! m_channelId msg ≠ Some Messages.historical →
  ∃ x, Messages.indexed (m_channelId msg) (m_id msg) (deliver msg M) = Some x ∧
    (own_echo msg → m_set_attachments (m_attachments msg) x = x).
Proof.
  intros HM Hlive. unfold deliver. destruct (decide (own_echo msg)) as [Hown|Hown].
  - destruct (Messages.indexed _ _ M) as [own|] eqn:E.
    + pose proof (indexed_id _ _ _ _ HM E) as Hid.
      pose proof (update_known_indexed (m_channelId msg)
        (m_set_attachments (m_attachments msg) own) M own HM) as Hupd.
      simpl in Hupd. rewrite Hid in Hupd. eexists. split; [by apply Hupd|done].
    + destruct (add_indexed (m_channelId msg) msg M Hlive) as (x & Hx & Heq).
      exists x. split; [done|]. intros _. rewrite (Heq E). by destruct msg.
  - destruct (add_indexed (m_channelId msg) msg M Hlive) as (x & Hx & _). by exists x.
Qed.

Lemma deliver_again msg M :
  Messages.consistent M → Messages.viewMode M !! m_channelId msg ≠ Some Messages.historical →
  deliver msg (deliver msg M) = deliver msg M.
Proof.
  intros HM Hlive. pose proof (deliver_consistent msg M HM) as HM'.
  destruct (deliver_indexed msg M HM Hlive) as (x & Hx & Hown).
  unfold deliver at 1. rewrite Hx. destruct (decide (own_echo msg)) as [Ho|Ho].
  - rewrite Hown by done. apply update_same; [done|].
    by rewrite (indexed_id _ _ _ _ HM' Hx).
  - by rewrite (add_known _ _ _ x).
Qed.

(** C19: a second delivery of a message the client has handled changes neither the messages
    nor any counter, as long as the channel shows the present. *)
Theorem redelivery_idempotent msg s :
  client_wf s →
  Messages.viewMode (messages s) !! m_channelId msg ≠ Some Messages.historical →
  let s' := dispatched (MessageCreate msg) s in
  messages (dispatched (MessageCreate msg) s') = messages s' ∧
  readStates (dispatched (MessageCreate msg) s') = readStates s'.
Proof.
  intros Hwf Hlive s'. subst s'. pose proof (cw_messages s Hwf) as HM. split.
  - rewrite !messageCreate_messages. by apply deliver_again.
  - rewrite messageCreate_readStates. unfold stored. rewrite messageCreate_messages.
    destruct (deliver_indexed msg _ HM Hlive) as (x & -> & _).
    by rewrite bool_decide_eq_true_2.
Qed.

(** the server's echo of the user's own encrypted message leaves the plaintext in the
    list as it is, with the echo's attachments; and it is not counted. *)
Theorem own_echo_keeps_plaintext msg s own :
  client_wf s → own_echo msg → stored msg s = Some own →
  let s' := dispatched (MessageCreate msg) s in
  stored msg s' = Some (m_set_attachments (m_attachments msg) own) ∧
  readStates s' = readStates s ∧
  (∀ c id, (c, id) ≠ (m_channelId msg, m_id msg) →
    Messages.indexed c id (messages s') = Messages.indexed c id (messages s)).
Proof.
  intros Hwf Hown Hst s'. subst s'. pose proof (cw_messages s Hwf) as HM.
  pose proof (indexed_id _ _ _ _ HM Hst) as Hid.
  split; [|split].
  - unfold stored in *. rewrite messageCreate_messages. unfold deliver.
    rewrite decide_True, Hst by done.
    pose proof (update_known_indexed (m_channelId msg)
      (m_set_attachments (m_attachments msg) own) (messages s) own HM) as Hupd.
    simpl in Hupd. rewrite Hid in Hupd. by apply Hupd.
  - rewrite messageCreate_readStates, Hst. done.
  - intros c id' Hne. rewrite messageCreate_messages. unfold deliver.
    rewrite decide_True by done. unfold stored in Hst. rewrite Hst.
    unfold Messages.updateMessage. simpl. rewrite Hid.
    destruct (Messages.byChannel _ !! _); [|done]. destruct (index_key _ _ _); [|done].
    unfold Messages.indexed; simpl. rewrite lookup_alter. case_decide; [|done]. subst.
    destruct (Messages.byId _ !! _); [|done]. simpl. rewrite lookup_insert_ne; [done|].
    congruence.
Qed.

(** while a channel shows older messages, deliveries are recognised only among the
    loaded messages: a duplicate of a message that waits in the buffer is counted again,
    although it is buffered once. *)
Theorem historical_duplicates_counted msg s :
  Messages.viewMode (messages s) !! m_channelId msg = Some Messages.historical →
  stored msg s = None → m_authorId msg ≠ self → isViewed (m_channelId msg) s = false →
  let s' := dispatched (MessageCreate msg) s in
  let s'' := dispatched (MessageCreate msg) s' in
  unread (m_channelId msg) s'' = (unread (m_channelId msg) s + 2)%Z ∧
  Messages.pendingMessages (messages s'') = Messages.pendingMessages (messages s').
Proof.
  intros Hmode Hnone Hauthor Hview s' s''.
  assert (isViewed (m_channelId msg) s' = false) as Hview'.
  { unfold isViewed, connection, s'. by rewrite messageCreate_frame by set_solver. }
  assert (Messages.indexed (m_channelId msg) (m_id msg) (messages s) = None) as Hn by done.
  assert (∃ p, has_key m_id (m_id msg) p = true ∧
    messages s' = Messages.on_pending <[m_channelId msg := p]> (messages s)) as (p & Hp & Hs').
  { unfold s'. rewrite messageCreate_messages. unfold deliver. rewrite Hn, decide_False by (by intros []).
    unfold Messages.addMessage. rewrite Hmode, Hn. case_match eqn:E; [by eexists|].
    eexists. split; [|done]. apply has_key_true. exists msg. set_solver. }
  assert (stored msg s' = None) as Hnone' by (unfold stored; by rewrite Hs').
  assert (Messages.viewMode (messages s') !! m_channelId msg = Some Messages.historical)
    as Hmode' by (by rewrite Hs').
  split.
  - destruct (messageCreate_counters msg s' (m_channelId msg)) as [Hu _].
    destruct (messageCreate_counters msg s (m_channelId msg)) as [Hu0 _].
    unfold s''. rewrite Hu. unfold s' at 1. rewrite Hu0. unfold counted.
    rewrite Hnone, Hnone', Hview, Hview'. rewrite (bool_decide_eq_false_2 _ Hauthor).
    rewrite (bool_decide_eq_true_2 (m_channelId msg = m_channelId msg)) by done. simpl. lia.
  - unfold s''. rewrite messageCreate_messages. unfold deliver.
    fold (stored msg s'). rewrite Hnone', decide_False by (by intros []).
    unfold Messages.addMessage. rewrite Hmode'. fold (stored msg s'). rewrite Hnone'.
    rewrite Hs'. simpl. rewrite lookup_insert_eq. simpl. rewrite Hp. simpl.
    apply insert_insert_eq.
Qed.

(** *** What a message may cause *)

Definition sound_type (msg : Message) (likelyDM : bool) : string :=
  if mentions msg then "mention" else if likelyDM then "dm" else "message".
Definition notification_for (msg : Message) (likelyDM : bool) (s : Client)
    : option DesktopNotification :=
  maybeShowDesktopNotification (users (local s)) (dms s) (channels s) (surroundings s)
    (m_channelId msg) (m_authorId msg) (mentions msg) likelyDM (Some self).

Lemma log_when_emit b es s e :
  e ∈ log (local (when b (emit es) s)) ↔ e ∈ log (local s) ∨ (b = true ∧ e ∈ es).
Proof. destruct b; simpl; [rewrite elem_of_app|]; naive_solver. Qed.

Lemma surroundings_act_readStates a s : surroundings (act C_readStates a s) = surroundings s.
Proof. done. Qed.
Lemma surroundings_when_emit b es s : surroundings (when b (emit es) s) = surroundings s.
Proof. by destruct b. Qed.

Lemma log_count_unread msg b s e :
  e ∈ log (local (count_unread localeCompare self msg b s)) →
  e ∈ log (local s) ∨
  (isViewed (m_channelId msg) s = false ∧ e = PlaySound (sound_type msg b) ∧
   maybePlaySound (surroundings s) (sound_type msg b) (Some (m_authorId msg)) = true) ∨
  (∃ n, e = ShowNotification n ∧ notification_for msg b s = Some n).
Proof.
  unfold count_unread. cbv zeta. fold (mentions msg). fold (sound_type msg b).
  set (s1 := when (negb (isViewed (m_channelId msg) s)) _ s).
  assert (notification_for msg b s1 = notification_for msg b s) as Hn.
  { unfold s1, notification_for, play_sound. destruct (isViewed _ _); [done|]. simpl.
    by destruct (maybePlaySound _ _ _). }
  assert (e ∈ log (local s1) → e ∈ log (local s) ∨
    (isViewed (m_channelId msg) s = false ∧ e = PlaySound (sound_type msg b) ∧
     maybePlaySound (surroundings s) (sound_type msg b) (Some (m_authorId msg)) = true)) as H1.
  { unfold s1. destruct (isViewed (m_channelId msg) s); simpl; [by left|].
    unfold play_sound. rewrite log_when_emit, list_elem_of_singleton.
    intros [?|[? ->]]; [by left|]. right. by rewrite surroundings_act_readStates in *. }
  unfold show_notification. fold (notification_for msg b s1). rewrite Hn.
  destruct (notification_for msg b s) as [n|]; simpl; [|tauto].
  rewrite elem_of_app, list_elem_of_singleton. intros [?| ->]; [tauto|]. eauto.
Qed.

(** The view a message's alerts are decided in is the one before it arrived. *)
Lemma store_message_view msg s :
  let s' := act C_typing (Typing.ClearUser (m_channelId msg) (m_authorId msg))
    (store_message localeCompare self msg s) in
  surroundings s' = surroundings s ∧ users (local s') = users (local s) ∧
  dms s' = dms s ∧ channels s' = channels s ∧
  isViewed (m_channelId msg) s' = isViewed (m_channelId msg) s ∧
  (∀ e, e ∈ log (local s') → e ∈ log (local s) ∨
     e = DecryptInBackground (m_channelId msg) msg (gen_of s)).
Proof.
  unfold store_message. cbv zeta. destruct (if decide _ then _ else _); simpl.
  - repeat split; auto.
  - destruct (_ && _); simpl; repeat split; auto.
    intros e. rewrite elem_of_app, list_elem_of_singleton. tauto.
Qed.

Lemma log_messageCreate msg s e :
  e ∈ log (local (dispatched (MessageCreate msg) s)) →
  e ∈ log (local s) ∨ e = DecryptInBackground (m_channelId msg) msg (gen_of s) ∨
  e = FetchDMChannels ∨ e = IndexIncoming (m_channelId msg) msg ∨
  (counted msg s = true ∧ e = PlaySound (sound_type msg (is_direct (m_channelId msg) s)) ∧
   maybePlaySound (surroundings s) (sound_type msg (is_direct (m_channelId msg) s))
     (Some (m_authorId msg)) = true) ∨
  (stored msg s = None ∧ m_authorId msg ≠ self ∧ ∃ n, e = ShowNotification n ∧
   notification_for msg (is_direct (m_channelId msg) s) s = Some n).
Proof.
  cbn [dispatch]. unfold on_messageCreate. cbv zeta.
  destruct (store_message_view msg s) as (Hsur & Husers & Hdms & Hch & Hview & Hlog).
  set (s1 := act C_typing _ _) in *. simpl. rewrite elem_of_app, list_elem_of_singleton.
  intros [He| ->]; [|tauto].
  set (direct := isDMChannel (m_channelId msg) s1 || negb (isServerChannel (m_channelId msg) s1)) in *.
  assert (direct = is_direct (m_channelId msg) s) as Hdirect.
  { unfold direct, is_direct, isDMChannel, isServerChannel. by rewrite Hdms, Hch. }
  assert (e = FetchDMChannels ∨ e ∈ log (local (when
    (negb (bool_decide (is_Some (stored msg s))) && negb (bool_decide (m_authorId msg = self)))
    (count_unread localeCompare self msg direct) s1))) as [->|He'].
  { revert He. unfold bump_conversation. destruct (isDMChannel _ _); [by right|].
    destruct (_ && _); [|by right]. destruct (negb (bool_decide (_ ∈ pendingDMFetchChannels _)));
      simpl; [|by right].
    rewrite elem_of_app, list_elem_of_singleton. tauto. }
  { tauto. }
  clear He. revert He'. unfold when. destruct (_ && negb _) eqn:E.
  - apply andb_true_iff in E as [E1%negb_true_iff%bool_decide_eq_false E2]. unfold counted.
    intros [He|[(Hv & -> & Hp)|(n & -> & Hn)]]%log_count_unread.
    + apply Hlog in He. tauto.
    + do 4 right. left. rewrite <-Hdirect, <-Hsur. rewrite Hview in Hv. rewrite E2, Hv.
      by rewrite bool_decide_eq_false_2 by done.
    + do 5 right. apply negb_true_iff, bool_decide_eq_false in E2.
      split; [by apply eq_None_not_Some|]. split; [done|]. exists n. split; [done|].
      rewrite <-Hdirect. revert Hn. unfold notification_for. by rewrite Hsur, Husers, Hdms, Hch.
  - intros He%Hlog. tauto.
Qed.

(** a new message makes a sound only if it is counted, and never in do-not-disturb, in
    the quiet period after a reconnect, from a blocked author, or when its sound is
    switched off; it is announced on the desktop only if it is someone else's and new,
    to the signed-in user and for its own conversation, and again never in
    do-not-disturb or from a blocked author, nor with the window in front; and whatever
    else it asks for is its decryption, its indexing or the list of conversations. *)
Theorem message_alerts msg s e :
  e ∈ log (local (dispatched (MessageCreate msg) s)) → e ∉ log (local s) →
  match e with
  | PlaySound t =>
      counted msg s = true ∧ Presence.myStatus (presence (connection s)) ≠ DND ∧
      (reconnectGraceUntil (connection s) ≤ now s)%Z ∧
      NotificationSettings.enabledSounds (stores s C_settings) !! t = Some true ∧
      (m_authorId msg ≠ "" → Blocks.isBlocked (m_authorId msg) (stores s C_blocks) = false)
  | ShowNotification n =>
      stored msg s = None ∧ m_authorId msg ≠ self ∧
      dn_channelId n = m_channelId msg ∧ dn_userId n = self ∧
      Presence.myStatus (presence (connection s)) ≠ DND ∧
      Blocks.isBlocked (m_authorId msg) (stores s C_blocks) = false ∧
      windowInFront (local s) = false
  | DecryptInBackground c m g => c = m_channelId msg ∧ m = msg ∧ g = gen_of s
  | IndexIncoming c m => c = m_channelId msg ∧ m = msg
  | FetchDMChannels => True
  | _ => False
  end.
Proof.
  intros [?|[ ->|[ ->|[ ->|[(Hc & -> & Hp)|(Hn & Ha & n & -> & Hshow)]]]]]%log_messageCreate
    Hnew; try done.
  - apply sound_only_when in Hp as (? & ? & ? & ? & ?). done.
  - apply notification_only_when in Hshow as (? & ? & ? & ? & ? & ? & ? & ? & ?). done.
Qed.

(** ** Messages of old sockets *)

(** once the client has connected again, nothing that arrives on a socket opened before
    -- an event, a READY -- changes it. *)
Theorem stale_messages_ignored (s : Client) token gen k e payload :
  reachable (Store0 := client) s → sockets (connection s) !! gen = Some k →
  let s' := act C_connection (Connection.Connect token) s in
  stepped (Receive gen e) s' = s' ∧ stepped (ReceiveReady gen payload) s' = s'.
Proof.
  intros Hs Hk s'. pose proof (cw_connection s (reachable_client_wf s Hs)) as Hwf.
  assert (receives gen (connection s') = false) as Hno.
  { unfold s', connection. rewrite stores_act_eq.
    change (exec _ ?x) with (Connection.connect token x). unfold receives.
    rewrite connect_eq. simpl. pose proof (wf_sockets _ Hwf gen k Hk) as (Hle & _).
    unfold connection in Hle. rewrite (bool_decide_eq_false_2 (gen = _)) by lia.
    destruct (<[_ := _]> _ !! gen); [|done]. apply andb_false_r. }
  split; cbn [client_step]; by rewrite Hno.
Qed.

(** ** READY *)

(** What [validateReadyPayload] checks of one read state *)
Definition read_state_shape (rs : json) : Prop :=
  ∃ c last n, json_get "channel_id" (Some rs) = Some (JStr c) ∧
    json_get "last_read_message_id" (Some rs) = Some (JStr last) ∧
    json_get "unread_count" (Some rs) = Some (JNum n).

Lemma is_string_Some j : is_string j = true ↔ ∃ s, j = Some (JStr s).
Proof. destruct j as [[]|]; naive_solver. Qed.

Lemma read_state_ok_shape rs : read_state_ok rs = true → read_state_shape rs.
Proof.
  unfold read_state_ok. intros H.
  assert (is_string (json_get "channel_id" (Some rs)) &&
    is_string (json_get "last_read_message_id" (Some rs)) &&
    match json_get "unread_count" (Some rs) with Some (JNum _) => true | _ => false end
    = true) as Hrs by (by destruct rs).
  apply andb_true_iff in Hrs as [[[c Hc]%is_string_Some [l Hl]%is_string_Some]%andb_true_iff Hn].
  destruct (json_get "unread_count" (Some rs)) as [[]|] eqn:E; try done.
  by exists c, l, n.
Qed.

Lemma validate_read_states data l :
  validateReadyPayload data = true → json_get "read_states" (Some data) = Some (JArr l) →
  Forall read_state_shape l.
Proof.
  intros Hv Hl.
  assert (forallb read_state_ok l = true) as Hall.
  { destruct data; try done; cbn [validateReadyPayload] in Hv;
      rewrite Hl in Hv; by apply andb_true_iff in Hv as [_ ?]. }
  apply Forall_forall. intros rs Hrs. apply read_state_ok_shape.
  rewrite forallb_forall in Hall. apply Hall. by apply list_elem_of_In.
Qed.

Lemma ready_stores gen data s :
  receives gen (connection s) = true →
  let s' := Dispatch.on_ready localeCompare self gen data s in
  readStates s' =
    match ready_read_states data with
    | Some l => ReadState.setReadStates l (readStates s) | None => readStates s end ∧
  connection s' = Connection.on_ready (sessionReady (local s))
    (ChannelKeys.getCachedChannelIds (keys (local s))) (connection s) ∧
  stores s' C_typing =
    if refetches (connection s)
    then Typing.perform Typing.Reset (stores s C_typing) else stores s C_typing.
Proof.
  intros Hrec. cbv zeta. unfold Dispatch.on_ready. cbv zeta.
  set (s1 := with_some _ _ s).
  assert (connection s1 = connection s ∧ stores s1 C_typing = stores s C_typing ∧
    readStates s1 = match ready_read_states data with
    | Some l => ReadState.setReadStates l (readStates s) | None => readStates s end)
    as (Hc1 & Ht1 & Hr1) by (unfold s1; by destruct (ready_read_states data)).
  set (s2 := when _ _ s1).
  assert (connection s2 = connection s ∧ readStates s2 = readStates s1 ∧ stores s2 C_typing =
    if refetches (connection s)
    then Typing.perform Typing.Reset (stores s C_typing) else stores s C_typing)
    as (Hc2 & Hr2 & Ht2).
  { unfold s2. destruct (refetches _); simpl; [|done]. rewrite <-Ht1. done. }
  unfold readStates, connection in *. rewrite !leaves_emit, !leaves_when by done.
  rewrite leaves_act by done. rewrite Hr2, Hr1. split; [done|].
  rewrite stores_act_eq, leaves_act, Ht2 by done. split; [|done]. simpl. unfold onmessage. by rewrite Hc2, Hrec.
Qed.

(** a READY whose payload does not parse or has the wrong shape changes no store but the
    connection, which schedules another attempt; one that is accepted has, in every read
    state it lists, the fields the client goes on to read, and they replace the
    read-state table; sounds are held back for three seconds; and the typing indicators
    and presences are dropped exactly when everything is fetched again. *)
Theorem ready_payload gen payload s :
  receives gen (connection s) = true →
  let s' := stepped (ReceiveReady gen payload) s in
  match payload with
  | Ok data =>
      if validateReadyPayload data then
        (∀ l, json_get "read_states" (Some data) = Some (JArr l) →
           Forall read_state_shape l ∧
           readStates s' = ReadState.setReadStates (read_entry <$> l) (readStates s)) ∧
        reconnectGraceUntil (connection s') = (now s + 3000)%Z ∧
        hasConnectedBefore (connection s') = true ∧
        (refetches (connection s) = true →
           Presence.byUser (presence (connection s')) = ∅ ∧
           Typing.byChannel (Typing.store (stores s' C_typing)) = ∅) ∧
        (refetches (connection s) = false →
           presence (connection s') = presence (connection s) ∧
           stores s' C_typing = stores s C_typing)
      else (∀ c, c ≠ C_connection → stores s' c = stores s c) ∧ local s' = local s ∧
        connection s' = scheduleReconnect (connection s)
  | Throw _ => (∀ c, c ≠ C_connection → stores s' c = stores s c) ∧ local s' = local s ∧
        connection s' = scheduleReconnect (connection s)
  end.
Proof.
  intros Hrec s'. unfold s'. cbn [client_step]. rewrite Hrec. cbn [when].
  assert (∀ s, receives gen (connection s) = true →
    let s' := act C_connection (BadReady gen) s in
    (∀ c, c ≠ C_connection → stores s' c = stores s c) ∧ local s' = local s ∧
    connection s' = scheduleReconnect (connection s)) as Hbad.
  { intros s0 Hr s0'. split; [intros; by apply stores_act_ne|]. split; [done|].
    unfold s0', connection. rewrite stores_act_eq. simpl. unfold onmessage.
    unfold connection in Hr. by rewrite Hr. }
  destruct payload as [data|]; [|by apply Hbad]. cbn [receive_ready].
  destruct (validateReadyPayload data) eqn:Hv; [|by apply Hbad]. clear Hbad.
  destruct (ready_stores gen data s Hrec) as (Hread & Hconn & Htyp). split; [|split; [|split]].
  - intros l Hl. split; [by apply (validate_read_states data)|].
    rewrite Hread. unfold ready_read_states. by rewrite Hl.
  - rewrite Hconn. unfold Connection.on_ready, now. by destruct (refetches _).
  - rewrite Hconn. unfold Connection.on_ready. by destruct (refetches _).
  - rewrite Hconn, Htyp. unfold Connection.on_ready.
    split; intros Hf; by rewrite Hf.
Qed.

(** ** Leaving a server *)

(** when the user is removed from a server, the server, its channels, roles, channel
    groups and emojis are gone from the stores and no channel is looked up under it any
    more; the server's sounds are not among what is cleaned up. *)
Theorem self_removal sid (s : Client) :
  let s' := dispatched (MemberRemove sid self) s in
  Servers.servers (servers s') !! sid = None ∧
  Channels.byServer (channels s') !! sid = None ∧
  Roles.byServer (Roles.store (stores s' C_roles)) !! sid = None ∧
  ChannelGroups.byServer (stores s' C_groups) !! sid = None ∧
  Emojis.byServer (stores s' C_emojis) !! sid = None ∧
  (∀ ch, ch ∈ or_default [] (Channels.byServer (channels s) !! sid) →
     Channels.channelToServer (channels s') !! ch_id ch = None) ∧
  (∀ sid', sid' ≠ sid →
     Servers.servers (servers s') !! sid' = Servers.servers (servers s) !! sid' ∧
     Channels.byServer (channels s') !! sid' = Channels.byServer (channels s) !! sid') ∧
  stores s' C_sounds = stores s C_sounds.
Proof.
  intros s'. unfold s'. cbn [dispatch]. unfold on_memberRemove.
  rewrite bool_decide_eq_true_2 by done. cbn [when].
  unfold servers, channels. repeat split; simpl; try apply lookup_delete_eq;
    try (by apply lookup_delete_ne).
  intros ch Hch. rewrite (lookup_delete_all ch_id), decide_True; [done|].
  by apply list_elem_of_fmap_2.
Qed.
End facts.

(** ** A session *)

Definition demo_compare (a b : string) : Z := cmp_str (λ x : string, x) a b.
#[export] Instance demo_comparator : Comparator demo_compare.
Proof. apply (cmp_str_comparator (λ x : string, x)). Qed.
Definition demo_iso (t : Z) : string := "1970-01-01T00:00:00.000Z".

Definition demo_channel : Channel :=
  {| ch_id := "c1"; ch_serverId := "s1"; ch_name := "general"; ch_type := 1; ch_position := 0;
     ch_topic := ""; ch_isPrivate := false; ch_channelGroupId := None;
     ch_permissionsSynced := true |}.
Definition demo_message (id author : string) (v : Z) : Message :=
  {| m_id := id; m_channelId := "c1"; m_authorId := author; m_encryptedContent := [104; 105]%Z;
     m_attachments := []; m_createdAt := None; m_editedAt := None; m_replyToId := None; m_embeds := [];
     m_mentionedUserIds := []; m_mentionEveryone := false;
     m_mentionedRoleIds := []; m_keyVersion := v; m_type := 0 |}.
Definition demo_ready : json :=
  JObj [("user_id", JStr "me"); ("channel_ids", JArr [JStr "c1"]);
        ("read_states", JArr [JObj [("channel_id", JStr "c1");
          ("last_read_message_id", JStr "00"); ("unread_count", JNum Num.two)]])].

(** Sign-in, the handshake, a channel, and the user's own message shown as plaintext *)
Definition demo_events : list client_event :=
  [Act C_connection (SetsToken "jwt"); Elapse 5000; Act C_connection (Connection.Connect "jwt");
   Act C_connection (SocketOpens 2); ReceiveReady 2 (Ok demo_ready);
   Receive 2 (ChannelCreate demo_channel);
   Act C_messages (Messages.AddMessage "c1" (demo_message "01" "me" 0)); Elapse 4000].
#[local] Notation demo_store := (client_store demo_compare demo_iso "me").
Definition demo_client : Client :=
  run (Store0 := demo_store) demo_events (initial_client demo_compare "me" true).

Lemma demo_client_reachable : reachable (Store0 := demo_store) demo_client.
Proof.
  apply (reachable_run (Store0 := demo_store)).
  vm_compute. repeat split; try discriminate; try (by repeat constructor).
  intros ? H. inversion H.
Qed.
Lemma demo_client_wf : client_wf demo_compare "me" demo_client.
Proof. exact (reachable_client_wf _ demo_iso _ _ demo_client_reachable). Qed.

Lemma client_well_formed_witness :
  reachable (Store0 := demo_store) demo_client ∧
  Channels.byServer (channels demo_client) !! "s1" = Some [demo_channel] ∧
  client_wf demo_compare "me" demo_client.
Proof.
  split; [exact demo_client_reachable|]. split; [vm_compute; reflexivity|].
  exact (client_well_formed demo_compare demo_iso "me" demo_client demo_client_reachable).
Defined.

Lemma redelivery_idempotent_witness :
  let s' := dispatch demo_compare demo_iso "me" (MessageCreate (demo_message "02" "bob" 0))
    demo_client in
  unread "c1" s' = 3%Z ∧
  messages (dispatch demo_compare demo_iso "me" (MessageCreate (demo_message "02" "bob" 0)) s') =
    messages s'.
Proof.
  split; [vm_compute; reflexivity|].
  refine (proj1 (redelivery_idempotent demo_compare demo_iso "me"
    (demo_message "02" "bob" 0) demo_client demo_client_wf _)).
  intros E. vm_compute in E. discriminate E.
Defined.

Lemma own_echo_keeps_plaintext_witness :
  own_echo "me" (demo_message "01" "me" 3) ∧
  stored (demo_message "01" "me" 3)
    (dispatch demo_compare demo_iso "me" (MessageCreate (demo_message "01" "me" 3)) demo_client) =
    Some (demo_message "01" "me" 0).
Proof.
  split; [split; [reflexivity|vm_compute; reflexivity]|].
  refine (proj1 (own_echo_keeps_plaintext demo_compare demo_iso "me"
    (demo_message "01" "me" 3) demo_client (demo_message "01" "me" 0) demo_client_wf _ _)).
  - split; [reflexivity|vm_compute; reflexivity].
  - vm_compute. reflexivity.
Defined.

(** The same channel, scrolled back to older messages and then left *)
Definition demo_historical : Client :=
  act demo_compare "me" C_messages (Messages.SetViewMode "c1" Messages.historical) demo_client.

Lemma historical_duplicates_counted_witness :
  let deliver := dispatch demo_compare demo_iso "me" (MessageCreate (demo_message "02" "bob" 0)) in
  unread "c1" (deliver (deliver demo_historical)) = (2 + 2)%Z.
Proof.
  refine (proj1 (historical_duplicates_counted demo_compare demo_iso "me"
    (demo_message "02" "bob" 0) demo_historical _ _ _ _)).
  - vm_compute. reflexivity.
  - vm_compute. reflexivity.
  - discriminate.
  - vm_compute. reflexivity.
Defined.

Lemma message_alerts_witness :
  PlaySound "message" ∈ log (local
    (dispatch demo_compare demo_iso "me" (MessageCreate (demo_message "02" "bob" 0)) demo_client)) ∧
  Presence.myStatus (presence (connection demo_client)) ≠ DND.
Proof.
  assert (PlaySound "message" ∈ log (local (dispatch demo_compare demo_iso "me"
    (MessageCreate (demo_message "02" "bob" 0)) demo_client))) as Hin.
  { apply list_elem_of_In. vm_compute. tauto. }
  split; [exact Hin|].
  apply (message_alerts demo_compare demo_iso "me" (demo_message "02" "bob" 0) demo_client
    (PlaySound "message") Hin).
  intros H%list_elem_of_In. vm_compute in H. intuition discriminate.
Defined.

Lemma stale_messages_ignored_witness :
  let s' := act demo_compare "me" C_connection (Connection.Connect "jwt") demo_client in
  client_step demo_compare demo_iso "me" (Receive 2 (MessageDelete "c1" "01")) s' = s'.
Proof.
  destruct (sockets (connection demo_client) !! 2%Z) as [k|] eqn:Hk.
  - exact (proj1 (stale_messages_ignored demo_compare demo_iso "me" demo_client "jwt" 2 k
      (MessageDelete "c1" "01") (Ok JNull) demo_client_reachable Hk)).
  - vm_compute in Hk. discriminate Hk.
Defined.

Lemma ready_payload_witness :
  let s' := client_step demo_compare demo_iso "me" (ReceiveReady 2 (Ok (JBool true)))
    demo_client in
  connection s' = scheduleReconnect (connection demo_client) ∧
  status (gw (connection s')) = reconnecting.
Proof.
  split; [|vm_compute; reflexivity].
  refine (proj2 (proj2 (ready_payload demo_compare demo_iso "me" 2 (Ok (JBool true))
    demo_client _))).
  vm_compute. reflexivity.
Defined.
