(* ===== verification/Spokes.v ===== *)
(** * The gateways of federated servers ([gateway/spoke-gateway.ts])

    A server of another instance (a "spoke") has a WebSocket of its own, beside the main
    one of [Connection].  The gateway objects are kept by instance URL; the handlers of a
    socket hold the object they were made with and the generation it had.  One timer sends
    the heartbeats of all of them.  What a spoke pushes goes into the same stores. *)

From S2P Require Import Connection DispatchFacts.
From S2P Require Export Dispatch Federation.

Open Scope meza_scope.

(** ** State *)

Record SpokeGateway := {
  g_url : string;
  g_ws : option nat;
  g_generation : Z;
  g_lastHeartbeatSent : Z;
  g_lastHeartbeatAck : Z;
  g_reconnectTimer : option Z;
  g_reconnectDelay : Z;
  g_reconnectAttempts : Z;
}.

(** A socket, with the object and the generation its handlers hold *)
Record SpokeSocket := {
  k_readyState : ReadyState;
  k_token : string;
  k_sent : list (GatewayOpCode * string);
  k_owner : nat;
  k_gen : Z;
}.

Record Spokes := {
  (** the map from instance URLs to objects, and the objects *)
  spokeGateways : jsobj nat;
  gateways : gmap nat SpokeGateway;
  spokeSockets : gmap nat SpokeSocket;
  heartbeatCoordinator : bool;
  (** the number of the next object or socket *)
  fresh_id : nat;
  now_ms : Z;
  federated : FederationState;
  home : Client;
}.

Definition HEARTBEAT_INTERVAL_MS : Z := 30000.
Definition HEARTBEAT_ACK_TIMEOUT_MS : Z := 45000.
Definition MAX_RECONNECT_ATTEMPTS : Z := 10.
Definition MAX_RECONNECT_DELAY_MS : Z := 30000.

Definition on_map f (s : Spokes) : Spokes :=
  {| spokeGateways := f (spokeGateways s); gateways := gateways s;
     spokeSockets := spokeSockets s; heartbeatCoordinator := heartbeatCoordinator s;
     fresh_id := fresh_id s; now_ms := now_ms s; federated := federated s; home := home s |}.
Definition on_gateways f (s : Spokes) : Spokes :=
  {| spokeGateways := spokeGateways s; gateways := f (gateways s);
     spokeSockets := spokeSockets s; heartbeatCoordinator := heartbeatCoordinator s;
     fresh_id := fresh_id s; now_ms := now_ms s; federated := federated s; home := home s |}.
Definition on_sockets f (s : Spokes) : Spokes :=
  {| spokeGateways := spokeGateways s; gateways := gateways s;
     spokeSockets := f (spokeSockets s); heartbeatCoordinator := heartbeatCoordinator s;
     fresh_id := fresh_id s; now_ms := now_ms s; federated := federated s; home := home s |}.
Definition set_coordinator b (s : Spokes) : Spokes :=
  {| spokeGateways := spokeGateways s; gateways := gateways s;
     spokeSockets := spokeSockets s; heartbeatCoordinator := b;
     fresh_id := fresh_id s; now_ms := now_ms s; federated := federated s; home := home s |}.
Definition take_id (s : Spokes) : Spokes :=
  {| spokeGateways := spokeGateways s; gateways := gateways s;
     spokeSockets := spokeSockets s; heartbeatCoordinator := heartbeatCoordinator s;
     fresh_id := fresh_id s + 1; now_ms := now_ms s; federated := federated s;
     home := home s |}.
Definition elapse ms (s : Spokes) : Spokes :=
  {| spokeGateways := spokeGateways s; gateways := gateways s;
     spokeSockets := spokeSockets s; heartbeatCoordinator := heartbeatCoordinator s;
     fresh_id := fresh_id s; now_ms := now_ms s + ms; federated := federated s;
     home := home s |}.
Definition on_federated f (s : Spokes) : Spokes :=
  {| spokeGateways := spokeGateways s; gateways := gateways s;
     spokeSockets := spokeSockets s; heartbeatCoordinator := heartbeatCoordinator s;
     fresh_id := fresh_id s; now_ms := now_ms s; federated := f (federated s);
     home := home s |}.
Definition on_home f (s : Spokes) : Spokes :=
  {| spokeGateways := spokeGateways s; gateways := gateways s;
     spokeSockets := spokeSockets s; heartbeatCoordinator := heartbeatCoordinator s;
     fresh_id := fresh_id s; now_ms := now_ms s; federated := federated s;
     home := f (home s) |}.

Definition set_g_ws w gen (g : SpokeGateway) : SpokeGateway :=
  {| g_url := g_url g; g_ws := w; g_generation := gen;
     g_lastHeartbeatSent := g_lastHeartbeatSent g; g_lastHeartbeatAck := g_lastHeartbeatAck g;
     g_reconnectTimer := g_reconnectTimer g; g_reconnectDelay := g_reconnectDelay g;
     g_reconnectAttempts := g_reconnectAttempts g |}.
Definition set_g_beats sent ack (g : SpokeGateway) : SpokeGateway :=
  {| g_url := g_url g; g_ws := g_ws g; g_generation := g_generation g;
     g_lastHeartbeatSent := sent; g_lastHeartbeatAck := ack;
     g_reconnectTimer := g_reconnectTimer g; g_reconnectDelay := g_reconnectDelay g;
     g_reconnectAttempts := g_reconnectAttempts g |}.
Definition set_g_backoff t d n (g : SpokeGateway) : SpokeGateway :=
  {| g_url := g_url g; g_ws := g_ws g; g_generation := g_generation g;
     g_lastHeartbeatSent := g_lastHeartbeatSent g; g_lastHeartbeatAck := g_lastHeartbeatAck g;
     g_reconnectTimer := t; g_reconnectDelay := d; g_reconnectAttempts := n |}.

Definition set_k_ready r (k : SpokeSocket) : SpokeSocket :=
  {| k_readyState := r; k_token := k_token k; k_sent := k_sent k; k_owner := k_owner k;
     k_gen := k_gen k |}.
Definition push_k op (k : SpokeSocket) : SpokeSocket :=
  {| k_readyState := k_readyState k; k_token := k_token k; k_sent := k_sent k ++ [op];
     k_owner := k_owner k; k_gen := k_gen k |}.
(** [ws.close()] *)
Definition close_k (k : SpokeSocket) : SpokeSocket :=
  match k_readyState k with CONNECTING | OPEN => set_k_ready CLOSING k | _ => k end.

(** [readyState <= WebSocket.OPEN] *)
Definition live (r : ReadyState) : bool :=
  match r with CONNECTING | OPEN => true | _ => false end.

Definition ready_of (w : option nat) (s : Spokes) : option ReadyState :=
  k_readyState <$> (w ≫= λ k, spokeSockets s !! k).
Definition is_open (g : SpokeGateway) (s : Spokes) : bool :=
  bool_decide (ready_of (g_ws g) s = Some OPEN).
Definition gateway_of (url : string) (s : Spokes) : option (nat * SpokeGateway) :=
  o ← obj_get url (spokeGateways s); g ← gateways s !! o; Some (o, g).

(** ** Connecting *)

Definition updateStatus (url : string) (st : SpokeConnectionStatus) (err : option string)
    : Spokes → Spokes := on_federated (updateSpokeStatus url st err).

(** [if (!gw.ws || gw.ws.readyState !== OPEN) return; gw.ws.send(..)] *)
Definition sendSpoke (op : GatewayOpCode) (payload : string) (o : nat) (s : Spokes) : Spokes :=
  match gateways s !! o with
  | Some g =>
      match g_ws g with
      | Some k => if is_open g s then on_sockets (alter (push_k (op, payload)) k) s else s
      | None => s
      end
  | None => s
  end.

Definition new_gateway (url : string) : SpokeGateway :=
  {| g_url := url; g_ws := None; g_generation := 0; g_lastHeartbeatSent := 0;
     g_lastHeartbeatAck := 0; g_reconnectTimer := None; g_reconnectDelay := 1000;
     g_reconnectAttempts := 0 |}.

(** The object of a URL: the one in the map, or a new one *)
Definition open_gateway (url : string) (s : Spokes) : nat * SpokeGateway * Spokes :=
  match gateway_of url s with
  | Some (o, g) => (o, g, s)
  | None => (fresh_id s, new_gateway url, take_id s)
  end.

(** The address is one the client has joined the server at, so [new URL] is taken to accept
    it. *)
Definition connectSpoke (url : string) (s : Spokes) : Spokes :=
  match gateway_of url s ≫= λ '(_, g), ready_of (g_ws g) s with
  | Some (CONNECTING | OPEN) => s
  | _ =>
      match obj_get url (spokes (federated s)) with
      | Some spoke =>
          if bool_decide (accessToken spoke = "") then s
          else
            let '(o, g, s) := open_gateway url s in
            let gen := (g_generation g + 1)%Z in
            let k := fresh_id s in
            let s := updateStatus url connecting None (on_map (obj_set url o) s) in
            on_sockets <[k := {| k_readyState := CONNECTING; k_token := accessToken spoke;
                                 k_sent := []; k_owner := o; k_gen := gen |}]>
              (on_gateways <[o := set_g_ws (Some k) gen g]> (take_id s))
      | None => s
      end
  end.

Definition disconnectSpoke (url : string) (s : Spokes) : Spokes :=
  match gateway_of url s with
  | None => s
  | Some (o, g) =>
      let s := match g_ws g with Some k => on_sockets (alter close_k k) s | None => s end in
      let s := on_gateways <[o := set_g_backoff None (g_reconnectDelay g)
        (g_reconnectAttempts g) (set_g_ws None (g_generation g + 1) g)]> s in
      let s := on_map (obj_delete url) s in
      let s := if bool_decide (spokeGateways s = []) then set_coordinator false s else s in
      updateStatus url disconnected None s
  end.

Definition disconnectAllSpokes (s : Spokes) : Spokes :=
  foldl (λ s url, disconnectSpoke url s) s (fst <$> spokeGateways s).

(** A timer that is pending is replaced; [connectSpoke] is what it runs. *)
Definition scheduleReconnect (o : nat) (s : Spokes) : Spokes :=
  match gateways s !! o with
  | None => s
  | Some g =>
      if (MAX_RECONNECT_ATTEMPTS <=? g_reconnectAttempts g)%Z
      then updateStatus (g_url g) error (Some "Max reconnect attempts reached") s
      else
        on_gateways <[o := set_g_backoff (Some (g_reconnectDelay g))
          (Z.min (g_reconnectDelay g * 2) MAX_RECONNECT_DELAY_MS)
          (g_reconnectAttempts g + 1) g]>
          (updateStatus (g_url g) reconnecting None s)
  end.

(** *** The handlers of a socket *)

(** [gen !== gw.generation] *)
Definition is_current (k : SpokeSocket) (s : Spokes) : bool :=
  match gateways s !! k_owner k with
  | Some g => bool_decide (k_gen k = g_generation g)
  | None => false
  end.

Definition onopen (k : SpokeSocket) (s : Spokes) : Spokes :=
  if is_current k s then
    let s := sendSpoke IDENTIFY (k_token k) (k_owner k) s in
    let s := on_gateways (alter (λ g,
      set_g_backoff (g_reconnectTimer g) 1000 0 (set_g_beats (now_ms s) (now_ms s) g))
      (k_owner k)) s in
    set_coordinator true s
  else s.

Definition onclose (k : SpokeSocket) (s : Spokes) : Spokes :=
  if is_current k s then
    scheduleReconnect (k_owner k)
      (on_gateways (alter (λ g, set_g_ws None (g_generation g) g) (k_owner k)) s)
  else s.

(** *** The heartbeat of all spokes *)

Definition stale_ack (g : SpokeGateway) (s : Spokes) : bool :=
  (0 <? g_lastHeartbeatAck g)%Z &&
  (HEARTBEAT_ACK_TIMEOUT_MS <? now_ms s - g_lastHeartbeatAck g)%Z.

Definition close_gateway (g : SpokeGateway) (s : Spokes) : Spokes :=
  match g_ws g with Some k => on_sockets (alter close_k k) s | None => s end.

Definition beat (o : nat) (s : Spokes) : Spokes :=
  match gateways s !! o with
  | Some g =>
      if is_open g s then
        if stale_ack g s then close_gateway g s
        else if (HEARTBEAT_INTERVAL_MS <=? now_ms s - g_lastHeartbeatSent g)%Z then
          on_gateways (alter (set_g_beats (now_ms s) (g_lastHeartbeatAck g)) o)
            (sendSpoke HEARTBEAT "" o s)
        else s
      else s
  | None => s
  end.
Definition beat_all (s : Spokes) : Spokes :=
  foldl (λ s kv, beat kv.2 s) s (spokeGateways s).

(** *** The browser *)

Definition retry_now (url : string) (o : nat) (s : Spokes) : Spokes :=
  match gateways s !! o with
  | Some g =>
      if is_open g s then s
      else connectSpoke url
        (on_gateways <[o := set_g_backoff (g_reconnectTimer g) 1000 0 g]> s)
  | None => s
  end.
Definition goes_online (s : Spokes) : Spokes :=
  foldl (λ s kv, retry_now kv.1 kv.2 s) s (spokeGateways s).
Definition turns_visible (s : Spokes) : Spokes :=
  foldl (λ s kv, match gateways s !! kv.2 with
                 | Some g => if stale_ack g s then close_gateway g s else s
                 | None => s
                 end) s (spokeGateways s).

(** The URLs [reconnectAllSpokes] connects, one after the other *)
Definition reconnect_order (s : Spokes) : list string :=
  instanceUrl <$> obj_values (spokes (federated s)).

Section events.
Context (localeCompare : string → string → Z) (self : string).

#[local] Notation act := (Client.act localeCompare self).

(** ** What a spoke pushes *)

(** [val.serverId], if the payload of the event has such a field *)
Definition event_serverId (e : GatewayEvent) : option string :=
  match e with
  | ChannelCreate ch | ChannelUpdate ch => Some (ch_serverId ch)
  | ChannelDelete _ sid => Some sid
  | MemberJoin m | MemberUpdate m => Some (mb_serverId m)
  | RoleCreate r | RoleUpdate r => Some (r_serverId r)
  | EmojiCreate x | EmojiUpdate x => Some (ce_serverId x)
  | SoundCreate x | SoundUpdate x => Some (ss_serverId x)
  | SoundDelete _ sid => Some sid
  | ChannelGroupCreate g | ChannelGroupUpdate g => Some (cg_serverId g)
  | MemberRemove sid _ | RoleDelete sid _ | RolesReordered sid _ | EmojiDelete sid _
  | ChannelMemberAdd sid _ _ | ChannelMemberRemove sid _ _ | ChannelGroupDelete sid _
  | PermissionsUpdated sid | PermissionOverrideUpdate sid _
  | PermissionOverrideDelete sid _ _ | FederationRemoved sid _ _ => Some sid
  | _ => None
  end.

(** The event names a server, and it is not the spoke's. *)
Definition foreign (expected : string) (e : GatewayEvent) : bool :=
  match event_serverId e with
  | Some sid => nonempty sid && negb (bool_decide (sid = expected))
  | None => false
  end.

Definition count_spoke_message (msg : Message) (s : Client) : Client :=
  when (negb (bool_decide (m_authorId msg = self)) && negb (isViewed (m_channelId msg) s))
    (act C_readStates
      (if bool_decide (self ∈ m_mentionedUserIds msg) || m_mentionEveryone msg
       then ReadState.IncrementUnreadWithMention (m_channelId msg)
       else ReadState.IncrementUnread (m_channelId msg))) s.

(** What an event does to the stores *)
Definition spoke_stores (t : Z) (e : GatewayEvent) : Client → Client :=
  match e with
  | MessageCreate msg => λ s,
      count_spoke_message msg
        (act C_typing (Typing.ClearUser (m_channelId msg) (m_authorId msg))
          (act C_messages (Messages.AddMessage (m_channelId msg) msg) s))
  | MessageUpdate msg => act C_messages (Messages.UpdateMessage (m_channelId msg) msg)
  | MessageDelete c id => act C_messages (Messages.RemoveMessage c id)
  | MessageBulkDelete c ids => λ s,
      foldl (λ s id, act C_messages (Messages.RemoveMessage c id) s) s ids
  | TypingStart c u =>
      when (negb (bool_decide (u = self))) (act C_typing (Typing.SetTyping c u))
  | ChannelCreate ch => act C_channels (Channels.AddChannel ch)
  | ChannelUpdate ch => act C_channels (Channels.UpdateChannel ch)
  | ChannelDelete c _ => act C_channels (Channels.RemoveChannel c)
  | MemberJoin m => act C_members (Members.AddMember m)
  | MemberUpdate m => act C_members (Members.UpdateMember m)
  | MemberRemove sid u => act C_members (Members.RemoveMember sid u)
  | ServerUpdate sv => with_some sv (λ sv, act C_servers (Servers.AddServer sv))
  | RoleCreate r => act C_roles (Roles.AddRole r)
  | RoleUpdate r => act C_roles (Roles.UpdateRole r)
  | RoleDelete sid rid => λ s,
      act C_members (Members.StripRoleFromAll sid rid) (act C_roles (Roles.RemoveRole sid rid) s)
  | RolesReordered sid rs => act C_roles (Roles.SetRoles sid rs)
  | ReactionAdd m e u custom => λ s,
      with_some custom
        (λ ce, when (nonempty (ce_id ce))
           (act C_emojis (Emojis.SetReactionEmojis {[ce_id ce := ce]})))
        (act C_reactions (Reactions.AddReaction m e u (bool_decide (u = self))) s)
  | ReactionRemove m e u =>
      act C_reactions (Reactions.RemoveReaction m e u (bool_decide (u = self)))
  | PinAdd pin =>
      with_some (pm_message pin) (λ m, act C_pins (Pins.AddPin (m_channelId m) pin))
  | PinRemove c id => act C_pins (Pins.RemovePin c id)
  | EmbedsUpdate c id es => act C_messages (Messages.PatchEmbeds c id es)
  | ReadStateUpdate c last n => act C_readStates (ReadState.UpdateReadState c last n)
  | PresenceUpdate u x text =>
      act C_connection (Connection.SetsPresence (Presence.setPresence t u x text))
  | ChannelGroupCreate g => act C_groups (ChannelGroups.AddGroup g)
  | ChannelGroupUpdate g => act C_groups (ChannelGroups.UpdateGroup g)
  | ChannelGroupDelete sid gid => act C_groups (ChannelGroups.RemoveGroup sid gid)
  | PermissionOverrideUpdate _ o =>
      with_some o (λ o, act C_overrides (PermissionOverrides.UpsertOverride (po_targetId o) o))
  | PermissionOverrideDelete _ t o => λ s,
      when (nonempty t && nonempty o)
        (λ s, with_some
          (PermissionOverrides.byTarget (overrides s) !! t ≫= find_key po_id o)
          (λ m, act C_overrides (PermissionOverrides.RemoveOverride t (po_roleId m)
             (Some (po_userId m)))) s) s
  | _ => λ s, s
  end.

(** The transport of a spoke is made anew when it is needed; dropping it changes nothing
    that is modelled. *)
Definition cleanupSpoke (url sid : string) (s : Spokes) : Spokes :=
  let s := on_federated (removeSpoke url) (disconnectSpoke url s) in
  on_home (λ s,
    act C_groups (ChannelGroups.RemoveServerGroups sid)
      (act C_roles (Roles.RemoveServerRoles sid)
        (act C_channels (Channels.RemoveServerChannels sid)
          (act C_servers (Servers.RemoveServer sid) s)))) s.

Definition dispatchSpokeEvent (url expected : string) (e : GatewayEvent) (s : Spokes)
    : Spokes :=
  if foreign expected e then s
  else
    let s := on_home (λ c, spoke_stores (Dispatch.now c) e c) s in
    match e with
    | MemberRemove _ u =>
        if bool_decide (u = self) then cleanupSpoke url expected s else s
    | _ => s
    end.

Inductive SpokeOp := OpReady | OpHeartbeatAck | OpEvent (e : GatewayEvent) | OpOther.

Definition dispatchSpokeOp (o : nat) (op : SpokeOp) (s : Spokes) : Spokes :=
  match gateways s !! o with
  | None => s
  | Some g =>
      match obj_get (g_url g) (spokes (federated s)) with
      | None => s
      | Some spoke =>
          match op with
          | OpReady => updateStatus (g_url g) connected None s
          | OpHeartbeatAck =>
              on_gateways <[o := set_g_beats (g_lastHeartbeatSent g) (now_ms s) g]> s
          | OpEvent e => dispatchSpokeEvent (g_url g) (serverId spoke) e s
          | OpOther => s
          end
      end
  end.

(** ** Steps *)

Inductive spoke_event :=
  | ConnectSpoke (url : string)
  | DisconnectSpoke (url : string)
  | DisconnectAll
  | Cleanup (url sid : string)
  | Opens (k : nat)
  | Closes (k : nat)
  | Gets (k : nat) (op : SpokeOp)
  | BeatFires
  | RetryFires (o : nat)
  | Online
  | Visible
  | Elapses (ms : Z)
  | Federates (a : Federation.action)
  | HomeChanges (f : Client → Client).

Definition spoke_step (e : spoke_event) (s : Spokes) : Spokes :=
  match e with
  | ConnectSpoke url => connectSpoke url s
  | DisconnectSpoke url => disconnectSpoke url s
  | DisconnectAll => disconnectAllSpokes s
  | Cleanup url sid => cleanupSpoke url sid s
  | Opens k =>
      match spokeSockets s !! k with
      | Some x =>
          if bool_decide (k_readyState x = CONNECTING)
          then onopen x (on_sockets (alter (set_k_ready OPEN) k) s) else s
      | None => s
      end
  | Closes k =>
      match spokeSockets s !! k with
      | Some x =>
          if bool_decide (k_readyState x = CLOSED) then s
          else onclose x (on_sockets (alter (set_k_ready CLOSED) k) s)
      | None => s
      end
  | Gets k op =>
      match spokeSockets s !! k with
      | Some x =>
          if bool_decide (k_readyState x = OPEN) && is_current x s
          then dispatchSpokeOp (k_owner x) op s else s
      | None => s
      end
  | BeatFires => if heartbeatCoordinator s then beat_all s else s
  | RetryFires o =>
      match gateways s !! o with
      | Some g =>
          match g_reconnectTimer g with
          | Some _ => connectSpoke (g_url g) (on_gateways <[o :=
              set_g_backoff None (g_reconnectDelay g) (g_reconnectAttempts g) g]> s)
          | None => s
          end
      | None => s
      end
  | Online => goes_online s
  | Visible => turns_visible s
  | Elapses ms => elapse ms s
  | Federates a => on_federated (Federation.perform a) s
  | HomeChanges f => on_home f s
  end.

Definition initial_spokes (electron : bool) : Spokes :=
  {| spokeGateways := []; gateways := ∅; spokeSockets := ∅; heartbeatCoordinator := false;
     fresh_id := 0; now_ms := 0; federated := Federation.initialState;
     home := initial_client localeCompare self electron |}.

#[export] Instance spoke_store : Store Spokes spoke_event :=
  {| initial := initial_spokes true; exec := spoke_step; admissible := λ _ _, True |}.
End events.

(** ** What is true of the gateways of federated servers

    An invariant of the sockets, the generations and the one heartbeat timer; what a spoke
    can and cannot change in the stores it shares with the home server. *)

#[local] Arguments obj_get : simpl never.
#[local] Arguments obj_set : simpl never.
#[local] Arguments obj_delete : simpl never.
#[local] Arguments updateSpokeStatus : simpl never.

Lemma alter_as_insert {A} (f : A → A) (m : gmap nat A) k x :
  m !! k = Some x → alter f k m = <[k := f x]> m.
Proof.
  intros Hk. apply map_eq. intros k'. rewrite lookup_alter, lookup_insert.
  case_decide as E; [|done]. subst k'. by rewrite Hk.
Qed.

(** ** The invariant *)

Definition is_heartbeat (m : GatewayOpCode * string) : Prop := m = (HEARTBEAT, "").

Definition sent_ok (x : SpokeSocket) : Prop :=
  match k_readyState x with
  | CONNECTING => k_sent x = []
  | OPEN => ∃ l, k_sent x = (IDENTIFY, k_token x) :: l ∧ Forall is_heartbeat l
  | _ => k_sent x = [] ∨ ∃ l, k_sent x = (IDENTIFY, k_token x) :: l ∧ Forall is_heartbeat l
  end.

(** The next delay and the number of attempts are within their bounds.  A timer that is
    pending was armed with the delay from before it was doubled, and the next delay is
    twice that, at most half a minute, or has been reset since. *)
Definition backoff_ok (g : SpokeGateway) : Prop :=
  (1000 ≤ g_reconnectDelay g ≤ 30000)%Z ∧ (0 ≤ g_reconnectAttempts g ≤ 10)%Z ∧
  match g_reconnectTimer g with
  | Some d => (1000 ≤ d ≤ 30000)%Z ∧
      (g_reconnectDelay g = Z.min (2 * d) 30000 ∨ g_reconnectDelay g = 1000)%Z
  | None => True
  end.

(** The timer is cleared; the backoff is reset, whether a timer is pending or not. *)
Lemma backoff_disarmed g g' :
  backoff_ok g →
  backoff_ok (set_g_backoff None (g_reconnectDelay g) (g_reconnectAttempts g) g').
Proof. intros (H1 & H2 & _). split; [exact H1|]. by split; [exact H2|]. Qed.
Lemma backoff_reset g g' :
  backoff_ok g → backoff_ok (set_g_backoff (g_reconnectTimer g) 1000 0 g').
Proof.
  intros (_ & _ & H). split_and!; cbn; try lia. destruct (g_reconnectTimer g); [|done].
  split; [apply H|by right].
Qed.

Record spokes_wf (s : Spokes) : Prop := {
  sw_keys : obj_keys_ok (spokeGateways s);
  sw_map : ∀ url o, obj_get url (spokeGateways s) = Some o →
    ∃ g, gateways s !! o = Some g ∧ g_url g = url;
  sw_fresh : ∀ o g, gateways s !! o = Some g → o < fresh_id s;
  sw_fresh_sockets : ∀ k x, spokeSockets s !! k = Some x → k < fresh_id s;
  (** the socket of a gateway that is in the map *)
  sw_ws : ∀ o g k, gateways s !! o = Some g → g_ws g = Some k →
    obj_get (g_url g) (spokeGateways s) = Some o ∧
    ∃ x, spokeSockets s !! k = Some x ∧ k_owner x = o ∧ k_gen x = g_generation g;
  (** a socket, its object, and whose the generation is *)
  sw_owner : ∀ k x, spokeSockets s !! k = Some x →
    ∃ g, gateways s !! k_owner x = Some g ∧ (k_gen x ≤ g_generation g)%Z ∧
      (k_gen x = g_generation g → g_ws g = Some k ∨ g_ws g = None) ∧
      (live (k_readyState x) = true → g_ws g = Some k);
  sw_sent : ∀ k x, spokeSockets s !! k = Some x → sent_ok x;
  sw_backoff : ∀ o g, gateways s !! o = Some g → backoff_ok g;
  sw_beats : ∀ k x, spokeSockets s !! k = Some x → k_readyState x = OPEN →
    heartbeatCoordinator s = true;
}.

(** Only five of the fields matter. *)
Lemma wf_same s s' :
  spokeGateways s' = spokeGateways s → gateways s' = gateways s →
  spokeSockets s' = spokeSockets s → fresh_id s' = fresh_id s →
  heartbeatCoordinator s' = heartbeatCoordinator s → spokes_wf s → spokes_wf s'.
Proof. intros E1 E2 E3 E4 E5 []. split; rewrite ?E1, ?E2, ?E3, ?E4, ?E5; done. Qed.

Lemma wf_on_federated f s : spokes_wf s → spokes_wf (on_federated f s).
Proof. by apply wf_same. Qed.
Lemma wf_on_home f s : spokes_wf s → spokes_wf (on_home f s).
Proof. by apply wf_same. Qed.
Lemma wf_elapse ms s : spokes_wf s → spokes_wf (elapse ms s).
Proof. by apply wf_same. Qed.
Lemma wf_updateStatus url st err s : spokes_wf s → spokes_wf (updateStatus url st err s).
Proof. apply wf_on_federated. Qed.

(** Changing the heartbeat times and the backoff of a gateway *)
Lemma wf_retime o g g' s :
  gateways s !! o = Some g → g_url g' = g_url g → g_ws g' = g_ws g →
  g_generation g' = g_generation g → backoff_ok g' →
  spokes_wf s → spokes_wf (on_gateways <[o := g']> s).
Proof.
  intros Ho Hu Hw Hg Hb [H1 H2 H3 H4 H5 H6 H7 H8 H9]. split; cbn; try done.
  - intros url o' Hu'. destruct (H2 _ _ Hu') as (h & Hh & E).
    destruct (decide (o = o')) as [<-|Hne].
    + rewrite lookup_insert_eq. exists g'. split; [done|]. congruence.
    + rewrite lookup_insert_ne by done. eauto.
  - intros o' h. rewrite lookup_insert. case_decide; [subst; intros _|]; eauto.
  - intros o' h k. rewrite lookup_insert. case_decide as E; [|apply H5].
    subst o'. intros [= <-]. rewrite Hu, Hw, Hg. by apply H5.
  - intros k x Hx. destruct (H6 _ _ Hx) as (h & Hh & Hrest).
    rewrite lookup_insert. case_decide as E; [|eauto].
    rewrite <-E, Ho in Hh. injection Hh as <-. exists g'. by rewrite Hw, Hg.
  - intros o' h. rewrite lookup_insert. case_decide; [by intros [= <-]|apply H8].
Qed.

(** Changing a socket without making it live or open *)
Lemma wf_socket k f s :
  (∀ x, spokeSockets s !! k = Some x →
    k_owner (f x) = k_owner x ∧ k_gen (f x) = k_gen x ∧
    (live (k_readyState (f x)) = true → live (k_readyState x) = true) ∧
    (k_readyState (f x) = OPEN → k_readyState x = OPEN) ∧ (sent_ok x → sent_ok (f x))) →
  spokes_wf s → spokes_wf (on_sockets (alter f k) s).
Proof.
  intros Hf [H1 H2 H3 H4 H5 H6 H7 H8 H9].
  assert (Hlook : ∀ k' y, alter f k (spokeSockets s) !! k' = Some y →
    ∃ x, spokeSockets s !! k' = Some x ∧ k_owner y = k_owner x ∧ k_gen y = k_gen x ∧
      (live (k_readyState y) = true → live (k_readyState x) = true) ∧
      (k_readyState y = OPEN → k_readyState x = OPEN) ∧ (sent_ok x → sent_ok y)).
  { intros k' y. rewrite lookup_alter. case_decide as E; [|eauto 10].
    subst k'. destruct (spokeSockets s !! k) as [x|] eqn:Hx; [|done].
    intros [= <-]. exists x. split; [done|]. by apply Hf. }
  split; cbn; try done.
  - intros k' y (x & Hx & _)%Hlook. by eapply H4.
  - intros o g k' Ho Hw. destruct (H5 _ _ _ Ho Hw) as (Hm & x & Hx & Hown & Hgen).
    split; [done|]. rewrite lookup_alter. case_decide as E; [|eauto].
    subst k'. rewrite Hx. destruct (Hf _ Hx) as (E1 & E2 & _). exists (f x).
    split; [done|]. by rewrite E1, E2.
  - intros k' y (x & Hx & E1 & E2 & Hl & _)%Hlook.
    destruct (H6 _ _ Hx) as (g & Hg & Hle & Hc & Hlv). exists g.
    rewrite E1, E2. split_and!; auto.
  - intros k' y (x & Hx & _ & _ & _ & _ & Hs)%Hlook. by eapply Hs, H7.
  - intros k' y (x & Hx & _ & _ & _ & Ho & _)%Hlook. intros Hy. by eapply H9, Ho.
Qed.

Lemma close_k_ok x :
  k_owner (close_k x) = k_owner x ∧ k_gen (close_k x) = k_gen x ∧
  (live (k_readyState (close_k x)) = true → live (k_readyState x) = true) ∧
  (k_readyState (close_k x) = OPEN → k_readyState x = OPEN) ∧
  (sent_ok x → sent_ok (close_k x)).
Proof.
  unfold close_k, sent_ok. destruct (k_readyState x) eqn:E; cbn; rewrite ?E; cbn;
    split_and!; auto; done.
Qed.
Lemma wf_close_socket k s : spokes_wf s → spokes_wf (on_sockets (alter close_k k) s).
Proof. apply wf_socket. intros x _. apply close_k_ok. Qed.
Lemma wf_close_gateway g s : spokes_wf s → spokes_wf (close_gateway g s).
Proof. unfold close_gateway. destruct (g_ws g); [apply wf_close_socket|done]. Qed.

(** ** Each operation *)

Lemma gateway_of_Some url s o g :
  gateway_of url s = Some (o, g) →
  obj_get url (spokeGateways s) = Some o ∧ gateways s !! o = Some g.
Proof.
  unfold gateway_of. intros (o' & Ho & (g' & Hg & [= <- <-])%bind_Some)%bind_Some. done.
Qed.
Lemma gateway_of_None url s :
  spokes_wf s → gateway_of url s = None → obj_get url (spokeGateways s) = None.
Proof.
  unfold gateway_of. intros Hs Hn. destruct (obj_get url _) as [o|] eqn:E; [|done].
  destruct (sw_map _ Hs _ _ E) as (g & Hg & _). cbn in Hn. by rewrite Hg in Hn.
Qed.

(** The handlers that are current belong to the socket of the gateway, or to the one it
    has lost. *)
Lemma current_ws k x s :
  spokes_wf s → spokeSockets s !! k = Some x → is_current x s = true →
  ∃ g, gateways s !! k_owner x = Some g ∧ (g_ws g = Some k ∨ g_ws g = None).
Proof.
  intros Hs Hx. unfold is_current. destruct (sw_owner _ Hs _ _ Hx) as (g & -> & _ & Hc & _).
  rewrite bool_decide_eq_true. eauto.
Qed.

(** A map that grows by an object without a socket *)
Lemma wf_new url s :
  spokes_wf s → obj_get url (spokeGateways s) = None →
  let o := fresh_id s in
  spokes_wf (on_map (obj_set url o) (on_gateways <[o := new_gateway url]> (take_id s))).
Proof.
  intros Hs Hn o. pose proof Hs as [H1 H2 H3 H4 H5 H6 H7 H8 H9].
  assert (Hfresh : gateways s !! o = None).
  { destruct (gateways s !! o) eqn:E; [|done]. apply H3 in E. subst o. lia. }
  split; cbn; try done.
  - by apply obj_set_ok.
  - intros url' o'. rewrite obj_get_set. case_decide as E.
    + intros [= <-]. exists (new_gateway url). by rewrite lookup_insert_eq.
    + intros Hu. destruct (H2 _ _ Hu) as (g & Hg & Hgu). exists g.
      rewrite lookup_insert_ne; [done|]. intros <-. by rewrite Hfresh in Hg.
  - intros o' g. rewrite lookup_insert. case_decide as E; [subst; lia|].
    intros Hg. apply H3 in Hg. lia.
  - intros k x Hx. apply H4 in Hx. lia.
  - intros o' g k. rewrite lookup_insert. case_decide as E; [by intros [= <-]|].
    intros Hg Hw. destruct (H5 _ _ _ Hg Hw) as [Hm Hk]. split; [|done].
    rewrite obj_get_set. case_decide as E'; [|done]. by rewrite E', Hn in Hm.
  - intros k x Hx. destruct (H6 _ _ Hx) as (g & Hg & Hrest). exists g. split; [|done].
    rewrite lookup_insert_ne; [done|]. intros E. by rewrite <-E, Hfresh in Hg.
  - intros o' g. rewrite lookup_insert. case_decide; [intros [= <-]|apply H8].
    unfold backoff_ok. cbn. lia.
Qed.

(** A gateway without a live socket gets one. *)
Lemma wf_attach url o g token s :
  spokes_wf s → gateway_of url s = Some (o, g) →
  (∀ r, ready_of (g_ws g) s = Some r → live r = false) →
  let gen := (g_generation g + 1)%Z in
  let k := fresh_id s in
  spokes_wf (on_sockets <[k := {| k_readyState := CONNECTING; k_token := token;
                                  k_sent := []; k_owner := o; k_gen := gen |}]>
    (on_gateways <[o := set_g_ws (Some k) gen g]> (take_id s))).
Proof.
  intros Hs Ho Hdead gen k. apply gateway_of_Some in Ho as [Hmap Ho].
  pose proof Hs as [H1 H2 H3 H4 H5 H6 H7 H8 H9].
  assert (Hurl : g_url g = url).
  { destruct (H2 _ _ Hmap) as (g' & Hg' & E). rewrite Ho in Hg'. by injection Hg' as <-. }
  assert (Hk : spokeSockets s !! k = None).
  { destruct (spokeSockets s !! k) eqn:E; [|done]. apply H4 in E. subst k. lia. }
  split; cbn; try done.
  - intros url' o' Hu'. destruct (H2 _ _ Hu') as (g' & Hg' & E).
    destruct (decide (o = o')) as [<-|Hne].
    + rewrite lookup_insert_eq. exists (set_g_ws (Some k) gen g). split; [done|]. cbn.
      congruence.
    + rewrite lookup_insert_ne by done. eauto.
  - intros o' g'. rewrite lookup_insert. case_decide as E.
    + subst o'. intros _. apply H3 in Ho. lia.
    + intros Hg'. apply H3 in Hg'. lia.
  - intros k' x. rewrite lookup_insert. case_decide as E; [subst; lia|].
    intros Hx. apply H4 in Hx. lia.
  - intros o' g' k'. rewrite lookup_insert. case_decide as E.
    + subst o'. intros [= <-]. cbn. intros [= <-]. rewrite Hurl. split; [done|].
      rewrite lookup_insert_eq. by eexists.
    + intros Hg' Hw. destruct (H5 _ _ _ Hg' Hw) as (Hm & x & Hx & Hrest). split; [done|].
      exists x. split; [|done]. rewrite lookup_insert_ne; [done|]. intros <-. by rewrite Hk in Hx.
  - intros k' x. rewrite lookup_insert. case_decide as E.
    + subst k'. intros [= <-]. cbn. exists (set_g_ws (Some k) gen g).
      rewrite lookup_insert_eq. cbn. split_and!; auto. lia.
    + intros Hx. destruct (H6 _ _ Hx) as (g' & Hg' & Hle & Hc & Hl).
      destruct (decide (o = k_owner x)) as [Eo|Hne].
      * rewrite <-Eo, Ho in Hg'. injection Hg' as <-. rewrite <-Eo.
        exists (set_g_ws (Some k) gen g). rewrite lookup_insert_eq. subst gen. cbn.
        split_and!; [done|lia|intros Eg; exfalso; lia|].
        intros Hlx. specialize (Hl Hlx). rewrite (Hdead (k_readyState x)) in Hlx; [done|].
        unfold ready_of. rewrite Hl. cbn. by rewrite Hx.
      * exists g'. rewrite lookup_insert_ne by done. done.
  - intros k' x. rewrite lookup_insert. case_decide; [by intros [= <-]|apply H7].
  - intros o' g'. rewrite lookup_insert. case_decide; [intros [= <-]|apply H8].
    by apply (H8 o g).
  - intros k' x. rewrite lookup_insert. case_decide; [by intros [= <-]|apply H9].
Qed.

Lemma wf_reput url o s :
  spokes_wf s → obj_get url (spokeGateways s) = Some o → spokes_wf (on_map (obj_set url o) s).
Proof.
  intros [H1 H2 H3 H4 H5 H6 H7 H8 H9] Hm.
  assert (Hget : ∀ url', obj_get url' (obj_set url o (spokeGateways s)) =
    obj_get url' (spokeGateways s)).
  { intros url'. rewrite obj_get_set. by case_decide as E; [rewrite E|]. }
  split; cbn; try done.
  - by apply obj_set_ok.
  - intros url' o'. rewrite Hget. apply H2.
  - intros o' g k. rewrite Hget. apply H5.
Qed.

Lemma wf_connectSpoke url s : spokes_wf s → spokes_wf (connectSpoke url s).
Proof.
  intros Hs. unfold connectSpoke, open_gateway.
  destruct (gateway_of url s) as [[o g]|] eqn:E; cbn.
  - assert (Hm : spokes_wf (on_map (obj_set url o) s)).
    { apply wf_reput; [done|]. by apply gateway_of_Some in E as []. }
    assert (Eo : gateway_of url (on_map (obj_set url o) s) = Some (o, g)).
    { unfold gateway_of. cbn. rewrite obj_get_set, decide_True by done. cbn.
      apply gateway_of_Some in E as [_ ->]. done. }
    assert (Hend : ∀ v, (∀ r, ready_of (g_ws g) s = Some r → live r = false) →
      spokes_wf (on_sockets
        <[fresh_id s := {| k_readyState := CONNECTING; k_token := accessToken v; k_sent := [];
             k_owner := o; k_gen := (g_generation g + 1)%Z |}]>
        (on_gateways <[o := set_g_ws (Some (fresh_id s)) (g_generation g + 1) g]>
          (take_id (updateStatus url connecting None (on_map (obj_set url o) s)))))).
    { intros v Hd. pose proof (wf_attach url o g (accessToken v) _ Hm Eo Hd) as Hw.
      revert Hw. by apply wf_same. }
    destruct (ready_of (g_ws g) s) as [[]|] eqn:Er; try done;
      (destruct (obj_get url (spokes (federated s))) as [v|]; [|done]);
      (case_bool_decide; [done|]); apply Hend; by intros r [= <-].
  - destruct (obj_get url (spokes (federated s))) as [v|]; [|done].
    case_bool_decide; [done|].
    pose proof (wf_new url s Hs (gateway_of_None _ _ Hs E)) as Hn. cbv zeta in Hn.
    set (s1 := on_map _ _) in Hn.
    assert (Eo : gateway_of url s1 = Some (fresh_id s, new_gateway url)).
    { unfold gateway_of, s1. cbn. rewrite obj_get_set, decide_True by done. cbn.
      by rewrite lookup_insert_eq. }
    pose proof (wf_attach url _ _ (accessToken v) s1 Hn Eo ltac:(done)) as Hw.
    unfold s1 in Hw. cbn in Hw. revert Hw. apply wf_same; try done.
    cbn. by rewrite insert_insert_eq.
Qed.

Lemma wf_disconnectSpoke url s : spokes_wf s → spokes_wf (disconnectSpoke url s).
Proof.
  intros Hs. unfold disconnectSpoke.
  destruct (gateway_of url s) as [[o g]|] eqn:E; [|done].
  apply gateway_of_Some in E as [Hm Ho]. apply wf_updateStatus.
  set (s1 := match g_ws g with Some _ => _ | None => _ end).
  assert (Hs1 : spokes_wf s1) by (subst s1; destruct (g_ws g); [by apply wf_close_socket|done]).
  assert (Hmap : spokeGateways s1 = spokeGateways s ∧ gateways s1 = gateways s)
    by (subst s1; by destruct (g_ws g)).
  destruct Hmap as [Em Eg]. rewrite <-Em in Hm. rewrite <-Eg in Ho.
  assert (Hdead : ∀ k x, spokeSockets s1 !! k = Some x → k_owner x = o →
    live (k_readyState x) = false).
  { intros k x Hx Hown. destruct (live (k_readyState x)) eqn:El; [|done]. exfalso.
    destruct (sw_owner _ Hs1 _ _ Hx) as (g' & Hg' & _ & _ & Hl).
    rewrite Hown, Ho in Hg'. injection Hg' as <-. specialize (Hl El).
    subst s1. rewrite Hl in Hx. cbn in Hx. rewrite lookup_alter_eq in Hx.
    destruct (spokeSockets s !! k) as [y|]; [|done]. injection Hx as <-.
    unfold close_k in El. by destruct (k_readyState y) eqn:Ey; cbn in El; rewrite ?Ey in El. }
  clearbody s1. clear Hs Em Eg s. rename s1 into s.
  pose proof Hs1 as [H1 H2 H3 H4 H5 H6 H7 H8 H9].
  assert (Hurl : g_url g = url).
  { destruct (H2 _ _ Hm) as (g' & Hg' & E). rewrite Ho in Hg'. by injection Hg' as <-. }
  set (g' := set_g_backoff _ _ _ _).
  assert (Hw : spokes_wf (on_map (obj_delete url) (on_gateways <[o := g']> s))).
  { split; cbn; try done.
    - by apply obj_delete_ok.
    - intros url' o'. rewrite obj_get_delete. case_decide as E; [done|]. intros Hu.
      destruct (H2 _ _ Hu) as (h & Hh & Eh). exists h. split; [|done].
      rewrite lookup_insert_ne; [done|]. intros <-. rewrite Ho in Hh.
      injection Hh as <-. congruence.
    - intros o' h. rewrite lookup_insert. case_decide; [subst; intros _|]; eauto.
    - intros o' h k. rewrite lookup_insert. case_decide as E; [by intros [= <-]|].
      intros Hh Hk. destruct (H5 _ _ _ Hh Hk) as [Hmap Hx]. split; [|done].
      rewrite obj_get_delete, decide_False; [done|]. intros Eu. rewrite Eu, Hm in Hmap.
      by injection Hmap as <-.
    - intros k x Hx. destruct (H6 _ _ Hx) as (h & Hh & Hle & Hc & Hl).
      rewrite lookup_insert. case_decide as E; [|eauto].
      rewrite <-E, Ho in Hh. injection Hh as <-. exists g'. cbn.
      split_and!; [done|lia|auto|]. intros El. by rewrite (Hdead k x) in El.
    - intros o' h. rewrite lookup_insert. case_decide; [intros [= <-]|apply H8].
      by apply backoff_disarmed, (H8 o g). }
  case_bool_decide as Hempty; [|exact Hw].
  destruct Hw as [W1 W2 W3 W4 W5 W6 W7 W8 W9]. split; try done.
  intros k x Hx Hopen. exfalso. destruct (W6 _ _ Hx) as (h & Hh & _ & _ & Hl).
  rewrite Hopen in Hl. destruct (W5 _ _ _ Hh (Hl eq_refl)) as [Hmap _].
  by rewrite Hempty in Hmap.
Qed.

Lemma wf_spoke_schedule o s : spokes_wf s → spokes_wf (scheduleReconnect o s).
Proof.
  intros Hs. unfold scheduleReconnect. destruct (gateways s !! o) as [g|] eqn:E; [|done].
  destruct (Z.leb_spec MAX_RECONNECT_ATTEMPTS (g_reconnectAttempts g));
    [by apply wf_updateStatus|].
  apply (wf_retime o g); [done..| |by apply wf_updateStatus].
  pose proof (sw_backoff _ Hs _ _ E) as (H1 & H2 & _).
  unfold backoff_ok, MAX_RECONNECT_ATTEMPTS, MAX_RECONNECT_DELAY_MS in *. cbn. lia.
Qed.

Lemma wf_sendHeartbeat o s : spokes_wf s → spokes_wf (sendSpoke HEARTBEAT "" o s).
Proof.
  intros Hs. unfold sendSpoke. destruct (gateways s !! o) as [g|]; [|done].
  destruct (g_ws g) as [k|] eqn:Ek; [|done]. destruct (is_open g s) eqn:Eo; [|done].
  apply wf_socket; [|done]. intros x Hx. split_and!; try done.
  unfold is_open, ready_of in Eo. rewrite Ek in Eo. cbn in Eo. rewrite Hx in Eo.
  apply bool_decide_eq_true in Eo. injection Eo as Eo. unfold sent_ok, push_k. cbn. rewrite Eo.
  intros (l & -> & Hl). exists (l ++ [(HEARTBEAT, "")]). split; [done|].
  apply Forall_app. by repeat constructor.
Qed.

Lemma wf_beat o s : spokes_wf s → spokes_wf (beat o s).
Proof.
  intros Hs. unfold beat. destruct (gateways s !! o) as [g|] eqn:E; [|done].
  destruct (is_open g s); [|done]. destruct (stale_ack g s); [by apply wf_close_gateway|].
  destruct (_ <=? _)%Z; [|done]. pose proof (wf_sendHeartbeat o s Hs) as Hw.
  assert (Eg : gateways (sendSpoke HEARTBEAT "" o s) = gateways s).
  { unfold sendSpoke. rewrite E. destruct (g_ws g); [|done]. by destruct (is_open g s). }
  set (s1 := sendSpoke _ _ _ _) in *. clearbody s1. rewrite <-Eg in E.
  assert (Ha : on_gateways (alter (set_g_beats (now_ms s) (g_lastHeartbeatAck g)) o) s1 =
    on_gateways <[o := set_g_beats (now_ms s) (g_lastHeartbeatAck g) g]> s1).
  { unfold on_gateways. f_equal. by apply alter_as_insert. }
  rewrite Ha. apply (wf_retime o g); [done..| |done]. by apply (sw_backoff _ Hw o g).
Qed.

Lemma wf_fold {A} (f : Spokes → A → Spokes) (l : list A) s :
  (∀ s x, spokes_wf s → spokes_wf (f s x)) → spokes_wf s → spokes_wf (foldl f s l).
Proof. intros Hf. revert s. induction l as [|x l IH]; intros s Hs; [done|]. by apply IH, Hf. Qed.

(** A connecting socket opens, and identifies itself before anything else. *)
Lemma wf_opens k x s :
  spokes_wf s → spokeSockets s !! k = Some x → k_readyState x = CONNECTING →
  spokes_wf (onopen x (on_sockets (alter (set_k_ready OPEN) k) s)).
Proof.
  intros Hs Hx Hr. destruct (sw_owner _ Hs _ _ Hx) as (g & Hg & _ & _ & Hl).
  rewrite Hr in Hl. specialize (Hl eq_refl).
  destruct (sw_ws _ Hs _ _ _ Hg Hl) as (Hm & x' & Hx' & _ & Hgen).
  rewrite Hx in Hx'. injection Hx' as <-.
  unfold onopen, is_current. cbn. rewrite Hg, bool_decide_eq_true_2 by done.
  unfold sendSpoke, is_open, ready_of. cbn. rewrite Hg, Hl. cbn.
  rewrite lookup_alter_eq, Hx. cbn. rewrite bool_decide_eq_true_2 by done.
  pose proof (sw_sent _ Hs _ _ Hx) as Hsent. unfold sent_ok in Hsent. rewrite Hr in Hsent.
  set (g' := set_g_backoff (g_reconnectTimer g) 1000 0 (set_g_beats (now_ms s) (now_ms s) g)).
  assert (Hw : spokes_wf (on_gateways <[k_owner x := g']> s)).
  { apply (wf_retime _ g); [done..| |done]. by apply backoff_reset, (sw_backoff _ Hs (k_owner x) g). }
  pose proof Hw as [H1 H2 H3 H4 H5 H6 H7 H8 H9]. cbn in *.
  set (y := push_k (IDENTIFY, k_token x) (set_k_ready OPEN x)).
  assert (Hy : alter (push_k (IDENTIFY, k_token x)) k
    (alter (set_k_ready OPEN) k (spokeSockets s)) = <[k := y]> (spokeSockets s)).
  { rewrite (alter_as_insert _ (spokeSockets s) k x) by done.
    rewrite (alter_as_insert _ _ k (set_k_ready OPEN x)) by apply lookup_insert_eq.
    apply insert_insert_eq. }
  assert (Hgs : alter (λ g, set_g_backoff (g_reconnectTimer g) 1000 0
    (set_g_beats (now_ms s) (now_ms s) g)) (k_owner x) (gateways s) =
    <[k_owner x := g']> (gateways s)) by exact (alter_as_insert _ _ _ _ Hg).
  split; cbn; rewrite ?Hy, ?Hgs; try done.
  - intros k' z. rewrite lookup_insert. case_decide as E; [|apply H4].
    intros _. rewrite <-E. by eapply H4.
  - intros o h k' Ho Hw'. destruct (H5 _ _ _ Ho Hw') as (Hmap & z & Hz & E1 & E2).
    split; [done|]. rewrite lookup_insert. case_decide as E; [|eauto].
    exists y. rewrite <-E, Hx in Hz. by injection Hz as <-.
  - intros k' z. rewrite lookup_insert. case_decide as E; [|apply H6].
    intros [= <-]. rewrite <-E. destruct (H6 _ _ Hx) as (h & Hh & Hle & Hc & _).
    cbn. exists h. split_and!; [done..|]. intros _.
    rewrite lookup_insert_eq in Hh. by injection Hh as <-.
  - intros k' z. rewrite lookup_insert. case_decide as E; [intros [= <-]|apply H7].
    unfold sent_ok. cbn. exists []. by rewrite Hsent.
Qed.

Lemma wf_closes k x s :
  spokes_wf s → spokeSockets s !! k = Some x →
  spokes_wf (onclose x (on_sockets (alter (set_k_ready CLOSED) k) s)).
Proof.
  intros Hs Hx.
  assert (Hw : spokes_wf (on_sockets (alter (set_k_ready CLOSED) k) s)).
  { apply wf_socket; [|done]. intros y _. split_and!; try done.
    unfold sent_ok. cbn. destruct (k_readyState y); auto. }
  unfold onclose. destruct (is_current x _) eqn:Ec; [|done]. apply wf_spoke_schedule.
  assert (Hx' : spokeSockets (on_sockets (alter (set_k_ready CLOSED) k) s) !! k =
    Some (set_k_ready CLOSED x)) by (cbn; by rewrite lookup_alter_eq, Hx).
  set (s1 := on_sockets _ _) in *. clearbody s1.
  destruct (current_ws k _ _ Hw Hx' Ec) as (g & Hg & Hgw).
  change (k_owner (set_k_ready CLOSED x)) with (k_owner x) in Hg.
  assert (Ha : on_gateways (alter (λ g, set_g_ws None (g_generation g) g) (k_owner x)) s1 =
    on_gateways <[k_owner x := set_g_ws None (g_generation g) g]> s1).
  { unfold on_gateways. f_equal. exact (alter_as_insert _ _ _ _ Hg). }
  rewrite Ha. pose proof Hw as [H1 H2 H3 H4 H5 H6 H7 H8 H9].
  set (g' := set_g_ws _ _ g). split; cbn; try done.
  - intros url o Hu. destruct (H2 _ _ Hu) as (h & Hh & E). rewrite lookup_insert.
    case_decide as Eo; [|eauto]. exists g'. split; [done|]. rewrite <-Eo, Hg in Hh.
    by injection Hh as <-.
  - intros o h. rewrite lookup_insert. case_decide; [subst; intros _|]; eauto.
  - intros o h k'. rewrite lookup_insert. case_decide; [by intros [= <-]|apply H5].
  - intros k' z Hz. destruct (H6 _ _ Hz) as (h & Hh & Hle & Hc & Hl).
    rewrite lookup_insert. case_decide as Eo; [|eauto].
    rewrite <-Eo, Hg in Hh. injection Hh as <-. exists g'. cbn. split_and!; [done|done|auto|].
    intros Hlive. specialize (Hl Hlive).
    destruct Hgw as [Hgw|Hgw]; rewrite Hgw in Hl; [|done]. injection Hl as ->.
    rewrite Hx' in Hz. by injection Hz as <-.
  - intros o h. rewrite lookup_insert. case_decide; [intros [= <-]|apply H8].
    exact (H8 _ _ Hg).
Qed.

Section events.
Context (localeCompare : string → string → Z) (self : string).
#[local] Existing Instance spoke_store.

Lemma wf_cleanupSpoke url sid s :
  spokes_wf s → spokes_wf (cleanupSpoke localeCompare self url sid s).
Proof. intros Hs. by apply wf_on_home, wf_on_federated, wf_disconnectSpoke. Qed.

Lemma wf_dispatchSpokeEvent url sid e s :
  spokes_wf s → spokes_wf (dispatchSpokeEvent localeCompare self url sid e s).
Proof.
  intros Hs. unfold dispatchSpokeEvent. destruct (foreign sid e); [done|].
  destruct e; try (by apply wf_on_home). case_bool_decide; [|by apply wf_on_home].
  by apply wf_cleanupSpoke, wf_on_home.
Qed.

Lemma wf_dispatchSpokeOp o op s :
  spokes_wf s → spokes_wf (dispatchSpokeOp localeCompare self o op s).
Proof.
  intros Hs. unfold dispatchSpokeOp. destruct (gateways s !! o) as [g|] eqn:E; [|done].
  destruct (obj_get _ _) as [v|]; [|done]. destruct op; [| |by apply wf_dispatchSpokeEvent|done].
  - by apply wf_updateStatus.
  - apply (wf_retime o g); [done..| |done]. by apply (sw_backoff _ Hs o g).
Qed.

Lemma wf_spoke_step e s : spokes_wf s → spokes_wf (spoke_step localeCompare self e s).
Proof.
  intros Hs. destruct e; cbn [spoke_step].
  - by apply wf_connectSpoke.
  - by apply wf_disconnectSpoke.
  - apply wf_fold; [|done]. intros s' url. apply wf_disconnectSpoke.
  - by apply wf_cleanupSpoke.
  - destruct (spokeSockets s !! k) as [x|] eqn:E; [|done]. case_bool_decide; [|done].
    by apply wf_opens.
  - destruct (spokeSockets s !! k) as [x|] eqn:E; [|done]. case_bool_decide; [done|].
    by apply wf_closes.
  - destruct (spokeSockets s !! k) as [x|] eqn:E; [|done].
    destruct (_ && _); [|done]. by apply wf_dispatchSpokeOp.
  - destruct (heartbeatCoordinator s); [|done]. apply wf_fold; [|done].
    intros s' kv. apply wf_beat.
  - destruct (gateways s !! o) as [g|] eqn:E; [|done].
    destruct (g_reconnectTimer g); [|done]. apply wf_connectSpoke.
    apply (wf_retime o g); [done..| |done]. by apply backoff_disarmed, (sw_backoff _ Hs o g).
  - apply wf_fold; [|done]. intros s' kv Hs'. unfold retry_now.
    destruct (gateways s' !! kv.2) as [g|] eqn:E; [|done]. destruct (is_open g s'); [done|].
    apply wf_connectSpoke. apply (wf_retime _ g); [done..| |done].
    by apply backoff_reset, (sw_backoff _ Hs' kv.2 g).
  - apply wf_fold; [|done]. intros s' kv Hs'.
    destruct (gateways s' !! kv.2) as [g|]; [|done].
    destruct (stale_ack g s'); [by apply wf_close_gateway|done].
  - by apply wf_elapse.
  - by apply wf_on_federated.
  - by apply wf_on_home.
Qed.

Lemma wf_initial_spokes : spokes_wf (initial (Store := spoke_store localeCompare self)).
Proof. split; cbn; try done; try by apply NoDup_nil. Qed.

Lemma reachable_wf (s : Spokes) :
  reachable (Store0 := spoke_store localeCompare self) s → spokes_wf s.
Proof.
  apply reachable_invariant; [apply wf_initial_spokes|]. intros e s' _. apply wf_spoke_step.
Qed.
End events.

(** ** What a spoke can change *)

Section reach.
Context (localeCompare : string → string → Z) (self : string).

#[local] Notation act := (Client.act localeCompare self).

(** What is listed of a server *)
Record rows := {
  row_channels : option (list Channel);
  row_members : option (list Member);
  row_roles : option (list Role);
  row_groups : option (list ChannelGroup);
}.
Definition rows_of (sid : string) (s : Client) : rows :=
  {| row_channels := Channels.byServer (stores s C_channels) !! sid;
     row_members := Members.byServer (stores s C_members) !! sid;
     row_roles := Roles.byServer (Roles.store (stores s C_roles)) !! sid;
     row_groups := ChannelGroups.byServer (stores s C_groups) !! sid |}.

(** The actions that leave the rows of a server alone *)
Definition spares (sid : string) (c : component) : action_of c → Prop :=
  match c with
  | C_channels => λ a,
      match a with
      | Channels.AddChannel ch | Channels.UpdateChannel ch => ch_serverId ch ≠ sid
      | Channels.RemoveServerChannels i => i ≠ sid
      | _ => False
      end
  | C_members => λ a,
      match a with
      | Members.AddMember m | Members.UpdateMember m => mb_serverId m ≠ sid
      | Members.RemoveMember i _ | Members.StripRoleFromAll i _ => i ≠ sid
      | _ => False
      end
  | C_roles => λ a,
      match a with
      | Roles.AddRole r | Roles.UpdateRole r => r_serverId r ≠ sid
      | Roles.RemoveRole i _ | Roles.SetRoles i _ | Roles.RemoveServerRoles i => i ≠ sid
      | _ => False
      end
  | C_groups => λ a,
      match a with
      | ChannelGroups.AddGroup g | ChannelGroups.UpdateGroup g => cg_serverId g ≠ sid
      | ChannelGroups.RemoveGroup i _ | ChannelGroups.RemoveServerGroups i => i ≠ sid
      | _ => False
      end
  | _ => λ _, True
  end.

Lemma rows_act sid c a s : spares sid c a → rows_of sid (act c a s) = rows_of sid s.
Proof.
  intros Ha. unfold rows_of. destruct c; cbn in Ha; try reflexivity.
  - rewrite stores_act_eq, !stores_act_ne by done. destruct a; try done; cbn -[js_sort];
      unfold Channels.addChannel, Channels.updateChannel, Channels.removeServerChannels;
      repeat case_match; cbn -[js_sort];
      rewrite ?lookup_insert_ne, ?lookup_delete_ne by done; done.
  - rewrite stores_act_eq, !stores_act_ne by done. destruct a; try done; cbn -[js_sort];
      unfold ChannelGroups.addGroup, ChannelGroups.updateGroup;
      repeat case_match; cbn -[js_sort];
      rewrite ?lookup_insert_ne, ?lookup_alter_ne, ?lookup_delete_ne by done; done.
  - rewrite stores_act_eq, !stores_act_ne by done. destruct a; try done; cbn -[js_sort];
      unfold Roles.addRole, Roles.updateRole;
      repeat case_match; cbn -[js_sort];
      rewrite ?lookup_insert_ne, ?lookup_alter_ne, ?lookup_delete_ne by done; done.
  - rewrite stores_act_eq, !stores_act_ne by done. destruct a; try done; cbn;
      unfold Members.addMember, Members.updateMember;
      repeat case_match; cbn;
      rewrite ?lookup_insert_ne, ?lookup_alter_ne by done; done.
Qed.
Lemma rows_when sid b f s :
  (b = true → rows_of sid (f s) = rows_of sid s) → rows_of sid (when b f s) = rows_of sid s.
Proof. destruct b; [intros Hf; by apply Hf|done]. Qed.

Lemma foreign_false expected e i sid :
  foreign expected e = false → event_serverId e = Some i → sid ≠ expected → sid ≠ "" → i ≠ sid.
Proof.
  unfold foreign, nonempty. intros Hf Hi H1 H2 ->. rewrite Hi, !bool_decide_eq_false_2 in Hf by done.
  done.
Qed.

(** One action after the other *)
Ltac spare :=
  repeat first
    [ rewrite rows_act by (cbn; first [done | by eapply foreign_false]) | reflexivity ].

Lemma rows_spoke_stores t expected e sid s :
  foreign expected e = false → sid ≠ expected → sid ≠ "" →
  (∀ c i, e ≠ ChannelDelete c i) →
  rows_of sid (spoke_stores localeCompare self t e s) = rows_of sid s.
Proof.
  intros Hf H1 H2 Hd. destruct e; cbn [spoke_stores]; try reflexivity; try (by spare).
  - unfold count_spoke_message. etrans; [apply rows_when; intros _; by spare|]. by spare.
  - clear Hf Hd. revert s. induction messageIds as [|m ids IH]; intros s; [done|].
    cbn [foldl]. rewrite IH. by spare.
  - apply rows_when. intros _. by spare.
  - by destruct (Hd channelId serverId).
  - destruct (pm_message pin); cbn [with_some]; [by spare|done].
  - destruct customEmoji; cbn [with_some]; [|by spare].
    etrans; [apply rows_when; intros _; by spare|]. by spare.
  - destruct override; cbn [with_some]; [by spare|done].
  - apply rows_when. intros _. destruct (_ ≫= _); cbn [with_some]; [by spare|done].
  - destruct server; cbn [with_some]; [by spare|done].
Qed.

(** The components a spoke has no handler for *)
Definition untouched (c : component) : Prop :=
  c ∈ [C_dms; C_friends; C_blocks; C_sounds; C_settings].

Definition harmless (s s' : Client) : Prop :=
  local s' = local s ∧ (∀ c, untouched c → stores s' c = stores s c) ∧
  ∃ f, stores s' C_connection = Connection.on_presence f (stores s C_connection).

#[export] Instance harmless_preorder : PreOrder harmless.
Proof.
  split.
  - intros s. split_and!; [done|done|]. exists (λ p, p). by destruct (stores s C_connection).
  - intros s1 s2 s3 (L1 & U1 & f1 & C1) (L2 & U2 & f2 & C2).
    split_and!; [by rewrite L2|intros c Hc; by rewrite U2, U1|].
    exists (λ p, f2 (f1 p)). by rewrite C2, C1.
Qed.

(** The actions a spoke's events are made of *)
Definition mild (c : component) : action_of c → Prop :=
  match c with
  | C_connection => λ a, match a with Connection.SetsPresence _ => True | _ => False end
  | C_dms | C_friends | C_blocks | C_sounds | C_settings => λ _, False
  | _ => λ _, True
  end.
Lemma harmless_act c a s : mild c a → harmless s (act c a s).
Proof.
  intros Ha. split_and!; [done| |].
  - intros c' Hc'. apply stores_act_ne. intros ->. unfold untouched in Hc'.
    destruct c'; cbn in Ha; try done; set_solver.
  - destruct (decide (c = C_connection)) as [->|Hne].
    + rewrite stores_act_eq. destruct a; try done. by eexists.
    + exists (λ p, p). rewrite stores_act_ne by done. by destruct (stores s C_connection).
Qed.
Lemma harmless_when b f s : harmless s (f s) → harmless s (when b f s).
Proof. by destruct b. Qed.
Lemma harmless_with {A} (o : option A) f s :
  (∀ a, harmless s (f a s)) → harmless s (with_some o f s).
Proof. destruct o; cbn; [eauto|reflexivity]. Qed.

Lemma harmless_spoke_stores t e s : harmless s (spoke_stores localeCompare self t e s).
Proof.
  destruct e; cbn [spoke_stores]; try reflexivity; try (by apply harmless_act).
  - etrans; [|by apply harmless_when, harmless_act].
    etrans; [|by apply harmless_act]. by apply harmless_act.
  - revert s. induction messageIds as [|m ids IH]; intros s; [done|]. cbn [foldl].
    etrans; [|apply IH]. by apply harmless_act.
  - by apply harmless_when, harmless_act.
  - etrans; [|by apply harmless_act]. by apply harmless_act.
  - apply harmless_with. intros m. by apply harmless_act.
  - etrans; [|apply harmless_with; intros ce; by apply harmless_when, harmless_act].
    by apply harmless_act.
  - apply harmless_with. intros m. by apply harmless_act.
  - apply harmless_when, harmless_with. intros m. by apply harmless_act.
  - apply harmless_with. intros m. by apply harmless_act.
Qed.

(** *** Leaving a spoke leaves the others *)

Lemma disconnect_home url s : home (disconnectSpoke url s) = home s.
Proof.
  unfold disconnectSpoke. destruct (gateway_of url s) as [[o g]|]; [|done].
  destruct (g_ws g); cbn; by case_bool_decide.
Qed.
Lemma get_disconnect url url' s :
  url' ≠ url → obj_get url' (spokes (federated (disconnectSpoke url s))) =
    obj_get url' (spokes (federated s)).
Proof.
  intros Hne. unfold disconnectSpoke. destruct (gateway_of url s) as [[o g]|]; [|done].
  assert (Hget : ∀ s1 : Spokes, federated s1 = federated s →
    obj_get url' (spokes (federated (updateStatus url disconnected None s1))) =
    obj_get url' (spokes (federated s))).
  { intros s1 E. unfold updateStatus, updateSpokeStatus. cbn. rewrite obj_get_modify, E.
    by rewrite decide_False. }
  apply Hget. by destruct (g_ws g); cbn; case_bool_decide.
Qed.
Lemma get_removeSpoke url url' f :
  url' ≠ url → obj_get url' (spokes (removeSpoke url f)) = obj_get url' (spokes f).
Proof.
  intros Hne. unfold removeSpoke. destruct (obj_get url (spokes f)); [|done]. cbn.
  by rewrite obj_get_delete, decide_False.
Qed.
Lemma gateway_disconnect url url' s :
  spokes_wf s → url' ≠ url → gateway_of url' (disconnectSpoke url s) = gateway_of url' s.
Proof.
  intros Hs Hne. unfold disconnectSpoke.
  destruct (gateway_of url s) as [[o g]|] eqn:E; [|done].
  apply gateway_of_Some in E as [Hm Ho].
  assert (Hgo : ∀ s1 g', spokeGateways s1 = obj_delete url (spokeGateways s) →
    gateways s1 = <[o := g']> (gateways s) → gateway_of url' s1 = gateway_of url' s).
  { intros s1 g' E1 E2. unfold gateway_of. rewrite E1, obj_get_delete, decide_False by done.
    destruct (obj_get url' (spokeGateways s)) as [o'|] eqn:Eu; [|done]. cbn.
    rewrite E2, lookup_insert_ne; [done|]. intros <-.
    destruct (sw_map _ Hs _ _ Eu) as (h & Hh & Ehu).
    destruct (sw_map _ Hs _ _ Hm) as (h' & Hh' & Ehu'). congruence. }
  eapply Hgo; by destruct (g_ws g); cbn; case_bool_decide.
Qed.

Lemma rows_cleanup url expected sid s :
  sid ≠ expected →
  rows_of sid (home (cleanupSpoke localeCompare self url expected s)) = rows_of sid (home s).
Proof.
  intros Hne. unfold cleanupSpoke. cbn -[Client.act disconnectSpoke].
  rewrite !rows_act by done. by rewrite disconnect_home.
Qed.
Lemma harmless_cleanup url expected s :
  harmless (home s) (home (cleanupSpoke localeCompare self url expected s)).
Proof.
  unfold cleanupSpoke. cbn -[Client.act disconnectSpoke]. rewrite disconnect_home.
  do 3 (etrans; [|by apply harmless_act]). by apply harmless_act.
Qed.

(** C15: what a federated server cannot do by what it pushes.  An event that names another
    server is dropped.  Any other leaves the channels, members, roles and groups of every
    other server alone, unless it deletes a channel; the conversations, friends, blocks,
    settings and sounds, the session, its keys and the connection to the home server are
    never touched, nothing is asked of other parts of the client, and no other
    spoke's credentials or connection change. *)
Theorem spoke_confined url expected e (s : Spokes) :
  let s' := dispatchSpokeEvent localeCompare self url expected e s in
  (foreign expected e = true → s' = s) ∧
  (∀ sid, sid ≠ expected → sid ≠ "" → (∀ c i, e ≠ ChannelDelete c i) →
    rows_of sid (home s') = rows_of sid (home s)) ∧
  harmless (home s) (home s') ∧
  ∀ url', url' ≠ url →
    obj_get url' (spokes (federated s')) = obj_get url' (spokes (federated s)) ∧
    (spokes_wf s → gateway_of url' s' = gateway_of url' s).
Proof.
  intros s'. subst s'. unfold dispatchSpokeEvent. destruct (foreign expected e) eqn:Ef.
  { split_and!; try done. }
  split; [done|].
  assert (Hstores : ∀ sid, sid ≠ expected → sid ≠ "" → (∀ c i, e ≠ ChannelDelete c i) →
    rows_of sid (spoke_stores localeCompare self (Dispatch.now (home s)) e (home s)) =
    rows_of sid (home s)) by (intros sid; by apply rows_spoke_stores).
  pose proof (harmless_spoke_stores (Dispatch.now (home s)) e (home s)) as Hh.
  set (s1 := on_home _ s).
  assert (Hplain : (∀ sid, sid ≠ expected → sid ≠ "" → (∀ c i, e ≠ ChannelDelete c i) →
      rows_of sid (home s1) = rows_of sid (home s)) ∧ harmless (home s) (home s1) ∧
    ∀ url', url' ≠ url →
      obj_get url' (spokes (federated s1)) = obj_get url' (spokes (federated s)) ∧
      (spokes_wf s → gateway_of url' s1 = gateway_of url' s)) by by split_and!.
  destruct e; try exact Hplain. case_bool_decide; [|exact Hplain].
  destruct Hplain as (H1 & H2 & H3).
  split_and!.
  - intros sid Hs Hn Hd. rewrite <-(H1 sid) by done. apply rows_cleanup; done.
  - etrans; [exact H2|]. apply harmless_cleanup.
  - intros url' Hne. destruct (H3 url' Hne) as [E1 E2]. split.
    + etrans; [|exact E1]. etrans; [by apply get_removeSpoke|]. by apply get_disconnect.
    + intros Hwf. etrans; [|by apply E2].
      apply (gateway_disconnect url url' s1); [by apply wf_on_home|done].
Qed.
End reach.

(** ** Theorems *)

Section theorems.
Context (localeCompare : string → string → Z) (self : string).
#[local] Notation step := (spoke_step localeCompare self).
#[local] Notation reached := (reachable (Store0 := spoke_store localeCompare self)).

(** C21: whatever happens to the connections of federated servers, in any order: a server has
    at most one socket that connects or is open, which belongs to the gateway kept under
    its URL; the first thing sent on a socket is the token it was made with, and nothing
    but heartbeats follows; while a socket is open the heartbeat timer runs; the timer of a
    retry is armed for one second to half a minute, the next delay is twice as long, capped
    at half a minute, or has been reset to one second, and at most ten retries follow each
    other. *)
Theorem spoke_connections_safe (s : Spokes) :
  reached s →
  (∀ k x, spokeSockets s !! k = Some x → live (k_readyState x) = true →
     ∃ g, gateway_of (g_url g) s = Some (k_owner x, g) ∧ g_ws g = Some k ∧
       (∀ k' x' g', spokeSockets s !! k' = Some x' → live (k_readyState x') = true →
         gateways s !! k_owner x' = Some g' → g_url g' = g_url g → k' = k)) ∧
  (∀ k x, spokeSockets s !! k = Some x → sent_ok x ∧
     (k_readyState x = OPEN → heartbeatCoordinator s = true)) ∧
  (∀ o g, gateways s !! o = Some g → backoff_ok g).
Proof.
  intros Hs%reachable_wf.
  assert (Hlive : ∀ k x, spokeSockets s !! k = Some x → live (k_readyState x) = true →
    ∃ g, gateways s !! k_owner x = Some g ∧ g_ws g = Some k ∧
      obj_get (g_url g) (spokeGateways s) = Some (k_owner x)).
  { intros k x Hx Hl. destruct (sw_owner _ Hs _ _ Hx) as (g & Hg & _ & _ & Hw).
    exists g. split_and!; [done|auto|]. by apply (sw_ws _ Hs _ _ k Hg), Hw. }
  split_and!.
  - intros k x Hx Hl. destruct (Hlive k x Hx Hl) as (g & Hg & Hw & Hm).
    exists g. split; [unfold gateway_of; rewrite Hm; cbn; by rewrite Hg|]. split; [done|].
    intros k' x' g' Hx' Hl' Hg' Hu.
    destruct (Hlive k' x' Hx' Hl') as (h & Hh & Hw' & Hm').
    rewrite Hh in Hg'. injection Hg' as <-. rewrite Hu, Hm in Hm'. injection Hm' as Ho.
    rewrite <-Ho, Hg in Hh. injection Hh as <-. rewrite Hw in Hw'. by injection Hw'.
  - intros k x Hx. split; [by apply (sw_sent _ Hs k)|]. by apply (sw_beats _ Hs k).
  - apply (sw_backoff _ Hs).
Qed.

(** a connection that is lost is tried again.  When the socket of a gateway closes, a
    retry is armed after the current delay, which doubles up to half a minute, and the
    user is told; after the tenth attempt in a row none is armed and the error is shown.
    When the retry is due, a socket is opened with the token of that moment; only if the
    credentials are gone nothing more happens. *)
Theorem spoke_reconnects (s : Spokes) k x o g v :
  reached s → spokeSockets s !! k = Some x → gateways s !! o = Some g →
  g_ws g = Some k → k_readyState x ≠ CLOSED →
  obj_get (g_url g) (spokes (federated s)) = Some v →
  let s1 := step (Closes k) s in
  let n := g_reconnectAttempts g in
  if (n <? MAX_RECONNECT_ATTEMPTS)%Z then
    let g1 := set_g_backoff (Some (g_reconnectDelay g))
      (Z.min (g_reconnectDelay g * 2) 30000) (n + 1) (set_g_ws None (g_generation g) g) in
    gateways s1 !! o = Some g1 ∧
    (status <$> obj_get (g_url g) (spokes (federated s1))) = Some reconnecting ∧
    let s2 := step (RetryFires o) s1 in
    if bool_decide (accessToken v = "") then
      ∃ g2, gateways s2 !! o = Some g2 ∧ g_ws g2 = None ∧ g_reconnectTimer g2 = None
    else
      ∃ g2 k2, gateways s2 !! o = Some g2 ∧ g_ws g2 = Some k2 ∧ g_reconnectTimer g2 = None ∧
        spokeSockets s2 !! k2 = Some {| k_readyState := CONNECTING;
          k_token := accessToken v; k_sent := []; k_owner := o;
          k_gen := (g_generation g + 1)%Z |}
  else
    gateways s1 !! o = Some (set_g_ws None (g_generation g) g) ∧
    (status <$> obj_get (g_url g) (spokes (federated s1))) = Some error.
Proof.
  intros Hs%reachable_wf Hx Hg Hw Hr Hv s1 n.
  destruct (sw_ws _ Hs _ _ _ Hg Hw) as (Hm & x' & Hx' & Hown & Hgen).
  rewrite Hx in Hx'. injection Hx' as <-.
  set (g0 := set_g_ws None (g_generation g) g).
  assert (E1 : s1 = scheduleReconnect o
    (on_gateways <[o := g0]> (on_sockets (alter (set_k_ready CLOSED) k) s))).
  { unfold s1. cbn [spoke_step]. rewrite Hx, bool_decide_eq_false_2 by done.
    unfold onclose, is_current. cbn. rewrite Hown, Hg, bool_decide_eq_true_2 by done.
    f_equal. unfold on_gateways. f_equal. exact (alter_as_insert _ _ _ _ Hg). }
  clearbody s1. subst s1. unfold scheduleReconnect. cbn -[updateStatus].
  rewrite lookup_insert_eq. cbn -[updateStatus].
  destruct (Z.ltb_spec n MAX_RECONNECT_ATTEMPTS) as [Hn|Hn].
  - rewrite (proj2 (Z.leb_gt _ _)) by done. cbn. rewrite insert_insert_eq, lookup_insert_eq.
    split; [done|].
    assert (Hf1 : obj_get (g_url g)
        (spokes (updateSpokeStatus (g_url g) reconnecting None (federated s))) =
      Some {| instanceUrl := instanceUrl v; accessToken := accessToken v;
              refreshToken := refreshToken v; shadowUserId := shadowUserId v;
              serverId := serverId v; status := reconnecting; lastError := None |}).
    { unfold updateSpokeStatus. cbn. by rewrite obj_get_modify, decide_True, Hv by done. }
    rewrite Hf1. split; [done|].
    cbn. unfold connectSpoke, gateway_of. cbn. rewrite Hm. cbn.
    rewrite lookup_insert_eq. cbn. rewrite Hf1. cbn.
    case_bool_decide as Et.
    + cbn. rewrite lookup_insert_eq. by eexists.
    + unfold open_gateway, gateway_of. cbn. rewrite Hm. cbn. rewrite lookup_insert_eq. cbn.
      eexists _, _. rewrite lookup_insert_eq. split_and!; [done..|apply lookup_insert_eq].
  - rewrite (proj2 (Z.leb_le _ _)) by done. cbn. rewrite lookup_insert_eq. split; [done|].
    unfold updateSpokeStatus. cbn. by rewrite obj_get_modify, decide_True, Hv by done.
Qed.

(** the events that name no server are believed whatever they speak of.  A spoke can put
    a message into any channel of the home server or any conversation, change or delete
    the messages there, remove any channel, replace the entry of any server, and set
    anyone's presence. *)
Theorem spoke_reaches_home url expected (s : Spokes) msg c id sv u p text :
  let got e := home (dispatchSpokeEvent localeCompare self url expected e s) in
  Dispatch.messages (got (MessageCreate msg)) =
    Messages.addMessage (m_channelId msg) msg (Dispatch.messages (home s)) ∧
  Dispatch.messages (got (MessageUpdate msg)) =
    Messages.updateMessage (m_channelId msg) msg (Dispatch.messages (home s)) ∧
  Messages.indexed c id (Messages.removeMessage c id (Dispatch.messages (home s))) =
    Messages.indexed c id (Dispatch.messages (got (MessageDelete c id))) ∧
  Dispatch.channels (got (ChannelDelete c expected)) =
    Channels.removeChannel c (Dispatch.channels (home s)) ∧
  Servers.servers (Dispatch.servers (got (ServerUpdate (Some sv)))) !! sv_id sv = Some sv ∧
  Presence.byUser (Connection.presence (Dispatch.connection (got (PresenceUpdate u p text)))) =
    Presence.byUser (Presence.setPresence (Dispatch.now (home s)) u p text
      (Connection.presence (Dispatch.connection (home s)))).
Proof.
  intros got. subst got. unfold dispatchSpokeEvent, foreign.
  split_and!; try reflexivity.
  - cbn [event_serverId]. cbn. unfold count_spoke_message. unfold when.
    destruct (_ && _); reflexivity.
  - cbn [event_serverId]. rewrite bool_decide_eq_true_2 by done. rewrite andb_false_r.
    reflexivity.
  - cbn. apply lookup_insert_eq.
Qed.

(** on a federated server the user has another id, which the client stores and never
    reads.  The removal of that user is an ordinary member leaving: the connection, the
    credentials and the server stay; and the user's own messages, sent there, are
    counted as someone else's. *)
Theorem shadow_user_ignored url expected (s : Spokes) shadow msg :
  shadow ≠ self → m_authorId msg = shadow →
  isViewed (m_channelId msg) (home s) = false →
  let s1 := dispatchSpokeEvent localeCompare self url expected (MemberRemove expected shadow) s in
  let s2 := dispatchSpokeEvent localeCompare self url expected (MessageCreate msg) s in
  (federated s1 = federated s ∧ spokeGateways s1 = spokeGateways s ∧
   spokeSockets s1 = spokeSockets s ∧
   Dispatch.servers (home s1) = Dispatch.servers (home s)) ∧
  ReadState.unreadCount <$> ReadState.byChannel (Dispatch.readStates (home s2)) !! m_channelId msg =
    Some (or_default 0 (ReadState.unreadCount <$>
      ReadState.byChannel (Dispatch.readStates (home s)) !! m_channelId msg) + 1)%Z.
Proof.
  intros Hne Ha Hv s1 s2. split.
  - subst s1. unfold dispatchSpokeEvent, foreign. cbn [event_serverId].
    rewrite (bool_decide_eq_true_2 (expected = expected)) by done. rewrite andb_false_r.
    by rewrite bool_decide_eq_false_2.
  - subst s2. unfold dispatchSpokeEvent, foreign. cbn [event_serverId].
    cbn [home on_home spoke_stores]. unfold count_spoke_message, when.
    rewrite Ha, bool_decide_eq_false_2 by done.
    match goal with |- context [isViewed _ ?c] =>
      change (isViewed (m_channelId msg) c) with (isViewed (m_channelId msg) (home s)) end.
    rewrite Hv. cbn [negb andb].
    unfold Dispatch.readStates. rewrite stores_act_eq, !stores_act_ne by done.
    destruct (_ || _); cbn;
      [unfold ReadState.incrementUnreadWithMention|unfold ReadState.incrementUnread];
      cbn; rewrite lookup_insert_eq; by destruct (ReadState.byChannel _ !! _).
Qed.
End theorems.

(** ** Instances *)

Definition demo_url : string := "https://spoke".
Definition demo_credentials : SpokeCredentials :=
  {| c_instanceUrl := demo_url; c_accessToken := "a"; c_refreshToken := "r";
     c_shadowUserId := "shadow"; c_serverId := "s1" |}.
Definition demo_spoke_events : list spoke_event :=
  [Federates (Federation.AddSpoke demo_credentials); ConnectSpoke demo_url; Opens 1;
   Gets 1 OpReady].
#[local] Notation demo_compare := (λ _ _ : string, 0%Z).
Definition demo_spokes : Spokes :=
  run (Store0 := spoke_store demo_compare "me") demo_spoke_events
    (initial_spokes demo_compare "me" true).

Lemma demo_spokes_reached : reachable (Store0 := spoke_store demo_compare "me") demo_spokes.
Proof.
  apply (reachable_run (Store0 := spoke_store demo_compare "me") demo_spoke_events).
  repeat split.
Qed.

Definition demo_spoke_socket : SpokeSocket :=
  {| k_readyState := OPEN; k_token := "a"; k_sent := [(IDENTIFY, "a")]; k_owner := 0;
     k_gen := 1 |}.
Lemma demo_spoke_socket_there : spokeSockets demo_spokes !! 1 = Some demo_spoke_socket.
Proof. vm_compute. reflexivity. Qed.

Lemma spoke_connections_safe_witness :
  ∃ g, gateway_of (g_url g) demo_spokes = Some (0, g) ∧ g_ws g = Some 1.
Proof.
  destruct (proj1 (spoke_connections_safe demo_compare "me" demo_spokes demo_spokes_reached)
    1 demo_spoke_socket demo_spoke_socket_there eq_refl) as (g & H1 & H2 & _).
  exists g. split; [exact H1|exact H2].
Defined.

Definition demo_spoke_gateway : SpokeGateway :=
  {| g_url := demo_url; g_ws := Some 1; g_generation := 1; g_lastHeartbeatSent := 0;
     g_lastHeartbeatAck := 0; g_reconnectTimer := None; g_reconnectDelay := 1000;
     g_reconnectAttempts := 0 |}.

Lemma spoke_reconnects_witness :
  ∃ k2, spokeSockets (spoke_step demo_compare "me" (RetryFires 0)
    (spoke_step demo_compare "me" (Closes 1) demo_spokes)) !! k2 =
    Some {| k_readyState := CONNECTING; k_token := "a"; k_sent := []; k_owner := 0;
            k_gen := 2 |}.
Proof.
  destruct (spoke_reconnects demo_compare "me" demo_spokes 1 demo_spoke_socket 0
    demo_spoke_gateway
    {| instanceUrl := demo_url; accessToken := "a"; refreshToken := "r";
       shadowUserId := "shadow"; serverId := "s1"; status := connected; lastError := None |}
    demo_spokes_reached demo_spoke_socket_there)
    as (_ & _ & g2 & k2 & _ & _ & _ & Hk); try (vm_compute; reflexivity).
  - vm_compute. discriminate.
  - exists k2. exact Hk.
Defined.

Lemma shadow_user_ignored_witness :
  ReadState.unreadCount <$> ReadState.byChannel (Dispatch.readStates
    (home (dispatchSpokeEvent demo_compare "me" demo_url "s1"
      (MessageCreate (demo_message "01" "shadow" 0)) demo_spokes))) !! "c1" = Some 1%Z.
Proof.
  refine (proj2 (shadow_user_ignored demo_compare "me" demo_url "s1" demo_spokes "shadow"
    (demo_message "01" "shadow" 0) _ eq_refl _)); [discriminate|].
  vm_compute. reflexivity.
Defined.
