(* ===== verification/BlobUrls.v ===== *)
(** * Blob URLs ([crypto/blob-urls.ts])

    Decrypted media are shown through object URLs, which the browser keeps until they
    are revoked.  The manager counts the references to each; the browser's table of live
    URLs and the references the components hold are part of the model, so that leaks
    and uses after revocation can be spoken of. *)

From S2P Require Export Prelude.

Record BlobEntry := { url : nat; refCount : Z }.

(** [blobMap]; the URLs that are live in the browser, with what they show; the number of
    URLs made so far; and the references held per key *)
Record Blobs (Blob : Type) := {
  blobMap : gmap string BlobEntry;
  live : gmap nat Blob;
  made : nat;
  held : gmap string Z;
}.
Arguments blobMap {Blob}.
Arguments live {Blob}.
Arguments made {Blob}.
Arguments held {Blob}.

Section blobs.
Context {Blob : Type}.
Implicit Types (key : string) (blob : Blob) (s : Blobs Blob).

Definition holds s key : Z := or_default 0%Z (held s !! key).

(** The URL returned, and the state *)
Definition acquireBlobURL key blob s : nat * Blobs Blob :=
  let held := <[key := (holds s key + 1)%Z]> (held s) in
  match blobMap s !! key with
  | Some existing =>
      (url existing,
       {| blobMap := <[key := {| url := url existing; refCount := refCount existing + 1 |}]> (blobMap s);
          live := live s; made := made s; held := held |})
  | None =>
      (made s,
       {| blobMap := <[key := {| url := made s; refCount := 1 |}]> (blobMap s);
          live := <[made s := blob]> (live s); made := S (made s); held := held |})
  end.

Definition releaseBlobURL key s : Blobs Blob :=
  let held := <[key := (holds s key - 1)%Z]> (held s) in
  match blobMap s !! key with
  | None => {| blobMap := blobMap s; live := live s; made := made s; held := held |}
  | Some entry =>
      let n := (refCount entry - 1)%Z in
      if (n <=? 0)%Z then
        {| blobMap := delete key (blobMap s); live := delete (url entry) (live s);
           made := made s; held := held |}
      else
        {| blobMap := <[key := {| url := url entry; refCount := n |}]> (blobMap s);
           live := live s; made := made s; held := held |}
  end.

(** The components that held references are gone. *)
Definition releaseAllBlobURLs s : Blobs Blob :=
  {| blobMap := ∅;
     live := filter (λ ub, Forall (λ ke, url ke.2 ≠ ub.1) (map_to_list (blobMap s))) (live s);
     made := made s; held := ∅ |}.

Inductive blob_event :=
  | Acquire (key : string) (blob : Blob)
  | Release (key : string)
  | ReleaseAll.

(** A component releases what it acquired. *)
#[export] Instance blob_store : Store (Blobs Blob) blob_event :=
  {| initial := {| blobMap := ∅; live := ∅; made := 0; held := ∅ |};
     exec e s :=
       match e with
       | Acquire key blob => (acquireBlobURL key blob s).2
       | Release key => releaseBlobURL key s
       | ReleaseAll => releaseAllBlobURLs s
       end;
     admissible e s := match e with Release key => (0 < holds s key)%Z | _ => True end |}.

Definition blobs_wf s : Prop :=
  (∀ key, 0 ≤ holds s key)%Z ∧
  (∀ key, (refCount <$> blobMap s !! key) =
     if decide (holds s key = 0%Z) then None else Some (holds s key)) ∧
  (∀ u, is_Some (live s !! u) ↔ ∃ key e, blobMap s !! key = Some e ∧ url e = u) ∧
  (∀ u, is_Some (live s !! u) → u < made s) ∧
  (∀ k k' e e', blobMap s !! k = Some e → blobMap s !! k' = Some e' → url e = url e' → k = k').

Lemma held_insert s s' key n key' :
  held s' = <[key := n]> (held s) → holds s' key' = if decide (key' = key) then n else holds s key'.
Proof. intros E. unfold holds. rewrite E, lookup_insert. by repeat case_decide. Qed.

Lemma acquire_wf key blob s : blobs_wf s → blobs_wf (acquireBlobURL key blob s).2.
Proof.
  intros (H0 & Hc & Hl & Hm & Hi). unfold acquireBlobURL.
  pose proof (Hc key) as Hck. pose proof (H0 key) as H0k.
  destruct (blobMap s !! key) as [e|] eqn:E; simpl in Hck.
  - set (s' := Build_Blobs _ _ _ _ _).
    assert (Hh : ∀ k, holds s' k = if decide (k = key) then (holds s key + 1)%Z else holds s k)
      by (intros; by apply held_insert).
    destruct (decide (holds s key = 0%Z)) as [|Hne]; [done|]. injection Hck as Hck.
    split; [intros k; rewrite Hh; case_decide; [lia|apply H0]|]. split; [|split; [|split]].
    + intros k. rewrite Hh. simpl. rewrite lookup_insert.
      destruct (decide (key = k)) as [<-|Hk].
      * rewrite (decide_True (P := key = key)) by done. rewrite decide_False by lia.
        simpl. by rewrite Hck.
      * rewrite (decide_False (P := k = key)) by auto. apply Hc.
    + intros u. simpl. rewrite Hl. split.
      * intros (k & e' & Hk & <-). destruct (decide (k = key)) as [->|Hne'].
        -- exists key. eexists. rewrite lookup_insert_eq. split; [done|]. simpl. congruence.
        -- exists k, e'. by rewrite lookup_insert_ne.
      * intros (k & e' & Hk & <-). rewrite lookup_insert in Hk. case_decide as Hkk.
        -- injection Hk as <-. subst. eauto.
        -- eauto.
    + exact Hm.
    + simpl. intros k k' e1 e2. rewrite !lookup_insert. intros H1 H2 Hu.
      repeat case_decide; simplify_eq/=; eauto; (exfalso; eauto) || (symmetry in Hu; exfalso; eauto).
  - set (s' := Build_Blobs _ _ _ _ _).
    assert (Hh : ∀ k, holds s' k = if decide (k = key) then (holds s key + 1)%Z else holds s k)
      by (intros; by apply held_insert).
    destruct (decide (holds s key = 0%Z)) as [Hz|]; [|done].
    assert (Hfresh : live s !! made s = None).
    { apply eq_None_not_Some. intros Hs%Hm. lia. }
    assert (Hfresh' : ∀ k e, blobMap s !! k = Some e → url e ≠ made s).
    { intros k e Hk Hu. assert (is_Some (live s !! url e)) as Hs by (apply Hl; eauto).
      apply Hm in Hs. lia. }
    split; [intros k; rewrite Hh; case_decide; [lia|apply H0]|]. split; [|split; [|split]].
    + intros k. rewrite Hh. simpl. rewrite lookup_insert.
      destruct (decide (key = k)) as [<-|Hk].
      * rewrite (decide_True (P := key = key)) by done. by rewrite Hz.
      * rewrite (decide_False (P := k = key)) by auto. apply Hc.
    + intros u. simpl. rewrite lookup_insert. case_decide as Hu.
      * subst u. split; [|eauto]. intros _. exists key. eexists. by rewrite lookup_insert_eq.
      * rewrite Hl. split; intros (k & e & Hk & <-).
        -- exists k, e. rewrite lookup_insert_ne by congruence. done.
        -- rewrite lookup_insert in Hk. case_decide; [by simplify_eq|eauto].
    + intros u. simpl. rewrite lookup_insert. case_decide; [intros; lia|intros Hs%Hm; lia].
    + simpl. intros k k' e1 e2. rewrite !lookup_insert. intros H1 H2 Hu.
      repeat case_decide; simplify_eq/=; eauto; exfalso; eapply Hfresh'; eauto.
Qed.

Lemma release_wf key s : (0 < holds s key)%Z → blobs_wf s → blobs_wf (releaseBlobURL key s).
Proof.
  intros Hpos (H0 & Hc & Hl & Hm & Hi). unfold releaseBlobURL.
  pose proof (Hc key) as Hck. rewrite decide_False in Hck by lia.
  destruct (blobMap s !! key) as [e|] eqn:E; [|done]. injection Hck as Hck.
  assert (Hh : ∀ s' k, held s' = <[key := (holds s key - 1)%Z]> (held s) →
    holds s' k = if decide (k = key) then (holds s key - 1)%Z else holds s k)
    by (intros; by apply held_insert).
  destruct (Z.leb_spec (refCount e - 1) 0) as [Hlast|Hmore].
  - set (s' := Build_Blobs _ _ _ _ _). specialize (Hh s').
    split; [intros k; rewrite Hh by done; case_decide; [lia|apply H0]|].
    split; [|split; [|split]].
    + intros k. rewrite Hh by done. simpl. rewrite lookup_delete.
      destruct (decide (key = k)) as [<-|Hk].
      * rewrite (decide_True (P := key = key)) by done. by rewrite decide_True by lia.
      * rewrite (decide_False (P := k = key)) by auto. apply Hc.
    + intros u. simpl. rewrite lookup_delete. case_decide as Hu.
      * subst u. split; [by intros []|]. intros (k & e' & Hk & Hu).
        apply lookup_delete_Some in Hk as [Hne Hk]. exfalso. apply Hne. symmetry. by eapply Hi.
      * rewrite Hl. split; intros (k & e' & Hk & <-).
        -- exists k, e'. rewrite lookup_delete_ne; [done|]. intros <-. congruence.
        -- apply lookup_delete_Some in Hk as [_ Hk]. eauto.
    + intros u. simpl. rewrite lookup_delete. case_decide; [by intros []|apply Hm].
    + simpl. intros k k' e1 e2 [_ H1]%lookup_delete_Some [_ H2]%lookup_delete_Some. eauto.
  - set (s' := Build_Blobs _ _ _ _ _). specialize (Hh s').
    split; [intros k; rewrite Hh by done; case_decide; [lia|apply H0]|].
    split; [|split; [|split]].
    + intros k. rewrite Hh by done. simpl. rewrite lookup_insert.
      destruct (decide (key = k)) as [<-|Hk].
      * rewrite (decide_True (P := key = key)) by done. rewrite decide_False by lia.
        simpl. by rewrite Hck.
      * rewrite (decide_False (P := k = key)) by auto. apply Hc.
    + intros u. simpl. rewrite Hl. split; intros (k & e' & Hk & <-).
      * destruct (decide (k = key)) as [->|Hne].
        -- exists key. eexists. rewrite lookup_insert_eq. split; [done|]. simpl. congruence.
        -- exists k, e'. by rewrite lookup_insert_ne.
      * rewrite lookup_insert in Hk. case_decide; [|eauto]. simplify_eq/=. eauto.
    + exact Hm.
    + simpl. intros k k' e1 e2. rewrite !lookup_insert. intros H1 H2 Hu.
      repeat case_decide; simplify_eq/=; eauto; (exfalso; eauto) || (symmetry in Hu; exfalso; eauto).
Qed.

Lemma release_all_wf s : blobs_wf s → blobs_wf (releaseAllBlobURLs s).
Proof.
  intros (H0 & Hc & Hl & Hm & Hi).
  assert (Hnone : ∀ u, ¬ is_Some (live (releaseAllBlobURLs s) !! u)).
  { intros u [b Hb]. simpl in Hb. apply map_lookup_filter_Some in Hb as [Hb Hall].
    destruct (proj1 (Hl u)) as (k & e & Hk & Hu); [eauto|].
    rewrite Forall_forall in Hall. apply (Hall (k, e)); [by apply elem_of_map_to_list|done]. }
  assert (Hz : ∀ k, holds (releaseAllBlobURLs s) k = 0%Z)
    by (intros k; unfold holds; simpl; by rewrite lookup_empty).
  split; [intros k; by rewrite Hz|]. split; [|split; [|split]].
  - intros k. rewrite Hz. simpl. by rewrite lookup_empty.
  - intros u. split; [intros Hs; by apply Hnone in Hs|]. intros (k & e & Hk & _).
    simpl in Hk. by rewrite lookup_empty in Hk.
  - intros u Hs. by apply Hnone in Hs.
  - intros k k' e e' Hk. simpl in Hk. by rewrite lookup_empty in Hk.
Qed.

Lemma blobs_reachable_wf s : reachable s → blobs_wf s.
Proof.
  revert s. apply reachable_invariant.
  - assert (Hz : ∀ k, holds (initial : Blobs Blob) k = 0%Z)
      by (intros k; unfold holds; simpl; by rewrite lookup_empty).
    split; [intros k; by rewrite Hz|]. split; [|split; [|split]].
    + intros k. rewrite Hz. simpl. by rewrite lookup_empty.
    + intros u. simpl. rewrite lookup_empty. split; [by intros []|].
      intros (k & e & Hk & _). by rewrite lookup_empty in Hk.
    + intros u. simpl. rewrite lookup_empty. by intros [].
    + simpl. intros k k' e e' Hk. by rewrite lookup_empty in Hk.
  - intros [key blob|key|] s Hok Hs.
    + by apply acquire_wf.
    + by apply release_wf.
    + by apply release_all_wf.
Qed.

(** as long as a component releases only what it acquired, no object URL leaks and
    none is used after its revocation: the manager's count of a key is the number of
    references held, the URL of a key someone holds is live, and every live URL is that
    of a key someone holds; acquiring a held key again gives the same URL, which keeps
    showing the first blob. *)
Theorem blob_urls_counted (s : Blobs Blob) :
  reachable s →
  (∀ key, (0 < holds s key)%Z ↔ is_Some (blobMap s !! key)) ∧
  (∀ key e, blobMap s !! key = Some e → refCount e = holds s key ∧ is_Some (live s !! url e)) ∧
  (∀ u, is_Some (live s !! u) → ∃ key e, blobMap s !! key = Some e ∧ url e = u ∧ (0 < holds s key)%Z) ∧
  (∀ key blob e, blobMap s !! key = Some e →
     let '(u, s') := acquireBlobURL key blob s in u = url e ∧ live s' = live s).
Proof.
  intros Hs. destruct (blobs_reachable_wf s Hs) as (H0 & Hc & Hl & Hm & Hi).
  assert (Hiff : ∀ key e, blobMap s !! key = Some e → refCount e = holds s key ∧ (0 < holds s key)%Z).
  { intros key e E. specialize (Hc key). specialize (H0 key). rewrite E in Hc. simpl in Hc.
    case_decide; [done|]. injection Hc as ->. split; [done|lia]. }
  split; [|split; [|split]].
  - intros key. split; [|intros [e E]; by apply (Hiff key e)].
    intros Hpos. specialize (Hc key). rewrite decide_False in Hc by lia.
    destruct (blobMap s !! key); [eauto|done].
  - intros key e E. split; [by apply Hiff|]. apply Hl. eauto.
  - intros u (key & e & E & <-)%Hl. exists key, e. split; [done|]. split; [done|]. by eapply Hiff.
  - intros key blob e E. unfold acquireBlobURL. by rewrite E.
Qed.
End blobs.

Lemma blob_urls_counted_witness :
  let s : Blobs string := run [Acquire "a" "cat"; Acquire "b" "dog"; Acquire "a" "cat"; Release "b";
    Release "a"] initial in
  live s !! 0 = Some "cat" ∧ live s !! 1 = None ∧ (0 < holds s "a")%Z.
Proof.
  cbv zeta. set (s := run _ _).
  assert (Hs : reachable s) by (apply reachable_run; vm_compute; repeat split; discriminate).
  destruct (blob_urls_counted s Hs) as (H1 & H2 & H3 & H4).
  split; [vm_compute; reflexivity|]. split; [vm_compute; reflexivity|].
  apply (proj2 (H1 "a")). vm_compute. eauto.
Defined.
