(* ===== verification/Retry.v ===== *)
(** * Retrying with backoff ([utils/retry.ts])

    [retryWithBackoff] as a function of what the outside decides: how each call of the
    function ends, when the signal says that the caller gave up, and what
    [Math.random] draws.  The calls and the waits are a trace. *)

From S2P Require Export Prelude.

Open Scope Z_scope.

(** The moments of an attempt at which the signal is read *)
Inductive moment := before_call | after_call | after_wait.

Inductive failure (E : Type) :=
  | BadAttempts
  | Cancelled
  | Failed (e : E)
  | Unreachable.
Arguments BadAttempts {E}.
Arguments Cancelled {E}.
Arguments Failed {E}.
Arguments Unreachable {E}.

Inductive effect := Calls (attempt : Z) | Waits (attempt delayMs : Z).

Section retry.
Context {E T : Type}.
Context (fn : Z → result E T) (cancelled : Z → moment → bool).
(** [!shouldRetry || shouldRetry(err)], and [Math.floor(Math.random() * delay)] in an
    attempt *)
Context (retryable : E → bool) (floor_random : Z → Z → Z).
Context (maxAttempts initialDelayMs maxDelayMs : Z).

(** The loop, with as much fuel as there are attempts left *)
Fixpoint attempts (fuel : nat) (attempt delay : Z) : result (failure E) T * list effect :=
  match fuel with
  | O => (Throw Unreachable, [])
  | S fuel =>
      if cancelled attempt before_call then (Throw Cancelled, [])
      else match fn attempt with
      | Ok result =>
          (if cancelled attempt after_call then Throw Cancelled else Ok result, [Calls attempt])
      | Throw err =>
          if cancelled attempt after_call then (Throw (Failed err), [Calls attempt])
          else if attempt =? maxAttempts then (Throw (Failed err), [Calls attempt])
          else if negb (retryable err) then (Throw (Failed err), [Calls attempt])
          else
            let jitteredDelay := Z.max 1 (floor_random attempt delay) in
            let '(r, tr) :=
              if cancelled attempt after_wait then (Throw (Failed err), [])
              else attempts fuel (attempt + 1) (Z.min (delay * 2) maxDelayMs) in
            (r, Calls attempt :: Waits attempt jitteredDelay :: tr)
      end
  end.

Definition retryWithBackoff : result (failure E) T * list effect :=
  if maxAttempts <? 1 then (Throw BadAttempts, [])
  else attempts (Z.to_nat maxAttempts) 1 initialDelayMs.

(** The bound of the delay of an attempt: the initial delay doubled each time, capped
    from the second on *)
Definition delay_bound (attempt : Z) : Z :=
  if attempt <=? 1 then initialDelayMs else Z.min (initialDelayMs * 2 ^ (attempt - 1)) maxDelayMs.

Definition calls (tr : list effect) : list Z :=
  omap (λ e, match e with Calls a => Some a | _ => None end) tr.

Lemma calls_retry i d tr : calls (Calls i :: Waits i d :: tr) = i :: calls tr.
Proof. done. Qed.
Lemma calls_app tr tr' : calls (tr ++ tr') = calls tr ++ calls tr'.
Proof. apply omap_app. Qed.

(** The call of an attempt fails in a way that leads to another attempt. *)
Definition goes_on (i : Z) : Prop :=
  cancelled i before_call = false ∧ cancelled i after_call = false ∧
  cancelled i after_wait = false ∧ ∃ e, fn i = Throw e ∧ retryable e = true.

Context (Hrandom : ∀ i d, 0 < d → 0 ≤ floor_random i d < d).
Context (Hinitial : 0 < initialDelayMs) (Hmax : 0 < maxDelayMs).

Lemma delay_bound_pos i : 0 < delay_bound i.
Proof.
  unfold delay_bound. destruct (Z.leb_spec i 1); [done|].
  apply Z.min_glb_lt; [|done]. apply Z.mul_pos_pos; [done|]. apply Z.pow_pos_nonneg; lia.
Qed.
Lemma delay_bound_next i : 1 ≤ i → Z.min (delay_bound i * 2) maxDelayMs = delay_bound (i + 1).
Proof.
  intros Hi. unfold delay_bound. destruct (Z.leb_spec (i + 1) 1); [lia|].
  assert (Hp : 2 ^ (i + 1 - 1) = 2 ^ (i - 1) * 2).
  { replace (i + 1 - 1) with (Z.succ (i - 1)) by lia. rewrite Z.pow_succ_r by lia. lia. }
  rewrite Hp. destruct (Z.leb_spec i 1).
  - assert (i = 1) as -> by lia. simpl. f_equal; lia.
  - assert (0 < 2 ^ (i - 1)) by (apply Z.pow_pos_nonneg; lia). nia.
Qed.

(** The calls of a run from an attempt on, and its waits *)
Definition trace_ok (first : Z) (tr : list effect) : Prop :=
  (∃ n, calls tr = seqZ first n ∧ 0 ≤ n ∧ first + n ≤ maxAttempts + 1) ∧
  (∀ i d, Waits i d ∈ tr → first ≤ i < maxAttempts ∧ 1 ≤ d ≤ delay_bound i).

Lemma attempts_ok fuel i :
  1 ≤ i → i + Z.of_nat fuel = maxAttempts + 1 → (0 < fuel)%nat →
  let '(r, tr) := attempts fuel i (delay_bound i) in r ≠ Throw Unreachable ∧ trace_ok i tr.
Proof.
  revert i. induction fuel as [|fuel IH]; intros i Hi Hf Hpos; [lia|]. cbn [attempts].
  assert (Hnil : trace_ok i []).
  { split; [exists 0; split; [done|lia]|]. intros ? ? []%not_elem_of_nil. }
  assert (Hone : trace_ok i [Calls i]).
  { split; [exists 1; split; [done|lia]|]. intros ? ? [[=]|[]%not_elem_of_nil]%elem_of_cons. }
  destruct (cancelled i before_call); [done|].
  destruct (fn i) as [v|e]; [by destruct (cancelled i after_call)|].
  destruct (cancelled i after_call); [done|].
  destruct (Z.eqb_spec i maxAttempts) as [->|Hne]; [done|].
  destruct (retryable e); simpl negb; cbv iota; [|done].
  pose proof (delay_bound_pos i) as Hb. pose proof (Hrandom i _ Hb) as Hr.
  assert (Hcons : ∀ tr, trace_ok (i + 1) tr →
    trace_ok i (Calls i :: Waits i (Z.max 1 (floor_random i (delay_bound i))) :: tr)).
  { intros tr [(n & Hn & Hn1 & Hn2) Hw]. split.
    - exists (n + 1). split; [|lia]. rewrite calls_retry, (seqZ_cons i) by lia. f_equal. rewrite Hn. f_equal; lia.
    - intros j d [[=]|[[= -> ->]|Hin]%elem_of_cons]%elem_of_cons; [lia|].
      apply Hw in Hin. lia. }
  destruct (cancelled i after_wait).
  - split; [done|]. apply Hcons. split; [exists 0; split; [done|lia]|].
    intros ? ? []%not_elem_of_nil.
  - rewrite delay_bound_next by done. specialize (IH (i + 1)).
    destruct (attempts fuel (i + 1) (delay_bound (i + 1))) as [r tr].
    destruct IH as [H1 H2]; [lia..|]. split; [done|by apply Hcons].
Qed.

(** [retryWithBackoff] always comes to an end: it calls the function with the
    attempts 1, 2, ... in order, at most [maxAttempts] times and not at all when that is
    less than one, waits only between two attempts, and each time at least a millisecond
    and at most the initial delay doubled for every attempt made, capped by the maximum
    from the second wait on. *)
Theorem retry_terminates :
  let '(r, tr) := retryWithBackoff in
  r ≠ Throw Unreachable ∧
  (maxAttempts < 1 → r = Throw BadAttempts ∧ tr = []) ∧
  (1 ≤ maxAttempts →
     (∃ n, calls tr = seqZ 1 n ∧ 0 ≤ n ≤ maxAttempts) ∧
     ∀ i d, Waits i d ∈ tr → 1 ≤ i < maxAttempts ∧ 1 ≤ d ≤ delay_bound i).
Proof.
  unfold retryWithBackoff. destruct (Z.ltb_spec maxAttempts 1); [split; [done|]; split; [done|lia]|].
  pose proof (attempts_ok (Z.to_nat maxAttempts) 1) as Hok.
  change (delay_bound 1) with initialDelayMs in Hok.
  destruct (attempts _ _ _) as [r tr]. destruct Hok as [H1 [(n & H2 & H3 & H4) H5]]; [lia..|].
  split; [done|]. split; [lia|]. intros _. split; [|done]. exists n. split; [done|lia].
Qed.

Lemma attempts_skip fuel i n delay :
  (∀ j, i ≤ j < i + Z.of_nat n → goes_on j) → i + Z.of_nat n ≤ maxAttempts → (n < fuel)%nat →
  ∃ delay' pre, attempts fuel i delay =
    (let '(r, tr) := attempts (fuel - n) (i + Z.of_nat n) delay' in (r, pre ++ tr)) ∧
    calls pre = seqZ i (Z.of_nat n).
Proof.
  revert fuel i delay. induction n as [|n IH]; intros fuel i delay Hgo Hmx Hf.
  - exists delay, []. rewrite Nat.sub_0_r, Z.add_0_r. split; [|done]. by destruct (attempts _ _ _).
  - destruct fuel as [|fuel]; [lia|].
    destruct (Hgo i ltac:(lia)) as (Hc1 & Hc2 & Hc3 & e & He & Hre).
    destruct (IH fuel (i + 1) (Z.min (delay * 2) maxDelayMs)) as (d' & pre & IH1 & IH2).
    { intros j Hj. apply Hgo. lia. }
    { lia. }
    { lia. }
    exists d', (Calls i :: Waits i (Z.max 1 (floor_random i delay)) :: pre). split.
    + cbn [attempts]. rewrite Hc1, He, Hc2, (proj2 (Z.eqb_neq _ _)), Hre, Hc3 by lia.
      simpl negb. cbv iota. rewrite IH1. simpl Nat.sub.
      replace (i + 1 + Z.of_nat n) with (i + Z.of_nat (S n)) by lia.
      destruct (attempts (fuel - n) (i + Z.of_nat (S n)) d') as [r tr]. reflexivity.
    + rewrite calls_retry, (seqZ_cons i) by lia. f_equal.
      rewrite IH2. f_equal; lia.
Qed.

(** the result is that of the first call that succeeds, when every call before it
    fails in a way worth a retry and the caller does not give up; when all of
    [maxAttempts] calls fail so, it is the error of the last one; an error that is not
    worth a retry is thrown at once; and a caller that gives up before a call makes no
    further one. *)
Theorem retry_result k :
  1 ≤ k ≤ maxAttempts → (∀ i, 1 ≤ i < k → goes_on i) →
  let '(r, tr) := retryWithBackoff in
  (cancelled k before_call = true → r = Throw Cancelled ∧ calls tr = seqZ 1 (k - 1)) ∧
  (cancelled k before_call = false → cancelled k after_call = false →
     (∀ v, fn k = Ok v → r = Ok v ∧ calls tr = seqZ 1 k) ∧
     (∀ e, fn k = Throw e → retryable e = false ∨ k = maxAttempts →
        r = Throw (Failed e) ∧ calls tr = seqZ 1 k)).
Proof.
  intros Hk Hgo. unfold retryWithBackoff. destruct (Z.ltb_spec maxAttempts 1); [lia|].
  destruct (attempts_skip (Z.to_nat maxAttempts) 1 (Z.to_nat (k - 1)) initialDelayMs)
    as (d & pre & Eq & Hpre); [intros j Hj; apply Hgo; lia|lia|lia|].
  rewrite Eq. clear Eq. rewrite !Z2Nat.id in * by lia.
  replace (1 + (k - 1)) with k by lia.
  destruct (Z.to_nat maxAttempts - Z.to_nat (k - 1))%nat as [|fuel] eqn:Ef; [lia|].
  cbn [attempts].
  assert (Hcalls : calls (pre ++ [Calls k]) = seqZ 1 k).
  { rewrite calls_app, Hpre.
    trans (seqZ 1 ((k - 1) + 1)); [|f_equal; lia]. rewrite seqZ_app by lia.
    replace (1 + (k - 1)) with k by lia. done. }
  destruct (cancelled k before_call) eqn:Hc1.
  { split; [|done]. intros _. by rewrite app_nil_r. }
  destruct (fn k) as [v|e] eqn:Hf.
  - split; [done|]. intros _ ->. split; [|done]. by intros v' [= ->].
  - destruct (cancelled k after_call) eqn:Hc2; [split; [done|]; done|].
    destruct (Z.eqb_spec k maxAttempts) as [->|Hne].
    { split; [done|]. intros _ _. split; [done|]. by intros e' [= ->]. }
    destruct (retryable e) eqn:Hre; simpl negb; cbv iota.
    + destruct (if cancelled k after_wait then _ else _) as [r tr].
      split; [done|]. intros _ _. split; [done|]. intros e' [= ->] [?|?]; congruence.
    + split; [done|]. intros _ _. split; [done|]. by intros e' [= ->].
Qed.
End retry.

(** ** Three attempts, the third of which succeeds *)

Definition third_time (i : Z) : result string string := if i <? 3 then Throw "busy" else Ok "done".
Definition never (i : Z) (m : moment) : bool := false.
Definition half (i d : Z) : Z := d / 2.

Lemma retry_terminates_witness :
  (retryWithBackoff third_time never (λ _, true) half 5 1000 30000).1 ≠ Throw Unreachable.
Proof.
  pose proof (retry_terminates third_time never (λ _, true) half 5 1000 30000) as H.
  destruct (retryWithBackoff third_time never (λ _, true) half 5 1000 30000) as [r tr].
  destruct H as [H _]; [intros i d Hd; unfold half; split; [apply Z.div_pos|apply Z.div_lt]; lia|lia..|].
  exact H.
Defined.

Lemma retry_result_witness :
  (retryWithBackoff third_time never (λ _, true) half 5 1000 30000).1 = Ok "done".
Proof.
  pose proof (retry_result third_time never (λ _, true) half 5 1000 30000 3) as H.
  destruct (retryWithBackoff third_time never (λ _, true) half 5 1000 30000) as [r tr].
  destruct H as [_ H]; [lia| |].
  - intros i Hi. split; [reflexivity|]. split; [reflexivity|]. split; [reflexivity|].
    exists "busy". unfold third_time. rewrite (proj2 (Z.ltb_lt i 3)) by lia. split; reflexivity.
  - destruct (H eq_refl eq_refl) as [Hv _]. apply (Hv "done" eq_refl).
Defined.
