(* ===== verification/MediaQueue.v ===== *)
(** * The queue of media requests ([api/media-queue.ts])

    A semaphore: at most [max] requests for media are in flight, and the others wait in
    the order in which they were made. *)

From S2P Require Export Prelude.

Section semaphore.
Context {J : Type}.
(** The number of slots, and whether a job is the one given *)
Context (max : nat).

(** [active] and [queue] of the closure, and, for the statements, the jobs in flight, the
    finished ones, and the order in which jobs were started *)
Record Semaphore := {
  active : nat;
  queue : list J;
  running : list J;
  finished : list J;
  started : list J;
}.

(** [run()] of a job *)
Definition start (j : J) (s : Semaphore) : Semaphore :=
  {| active := active s + 1; queue := queue s; running := running s ++ [j];
     finished := finished s; started := started s ++ [j] |}.

Definition enqueue (j : J) (s : Semaphore) : Semaphore :=
  if decide (active s < max) then start j s
  else {| active := active s; queue := queue s ++ [j]; running := running s;
          finished := finished s; started := started s |}.

(** [active--; queue.shift()?.()] *)
Definition release (s : Semaphore) : Semaphore :=
  let s := {| active := active s - 1; queue := queue s; running := running s;
              finished := finished s; started := started s |} in
  match queue s with
  | j :: q => start j {| active := active s; queue := q; running := running s;
                         finished := finished s; started := started s |}
  | [] => s
  end.

(** The [i]-th job in flight settles, with or without success. *)
Definition finish (i : nat) (s : Semaphore) : Semaphore :=
  match running s !! i with
  | Some j =>
      release {| active := active s; queue := queue s;
                 running := take i (running s) ++ drop (S i) (running s);
                 finished := finished s ++ [j]; started := started s |}
  | None => s
  end.

Inductive event := Enqueue (j : J) | Finish (i : nat).
Definition step (e : event) (s : Semaphore) : Semaphore :=
  match e with Enqueue j => enqueue j s | Finish i => finish i s end.

#[local] Instance semaphore_store : Store Semaphore event :=
  {| initial := {| active := 0; queue := []; running := []; finished := []; started := [] |};
     exec := step; admissible := λ _ _, True |}.

(** The jobs that were made, in order *)
Definition asked (es : list event) : list J :=
  es ≫= (λ e, match e with Enqueue j => [j] | Finish _ => [] end).

Record fair (jobs : list J) (s : Semaphore) : Prop := {
  fair_active : active s = length (running s);
  fair_max : active s ≤ max;
  fair_full : queue s ≠ [] → active s = max;
  (** first come, first served *)
  fair_order : started s ++ queue s = jobs;
  fair_jobs : started s ≡ₚ running s ++ finished s;
}.

Lemma fair_enqueue jobs j s : fair jobs s → fair (jobs ++ [j]) (enqueue j s).
Proof.
  intros [H1 H2 H3 H4 H5]. unfold enqueue. case_decide as Hlt.
  - assert (Hq : queue s = []) by (destruct (queue s); [done|]; specialize (H3 ltac:(done)); lia).
    split; simpl.
    + rewrite length_app. simpl. lia.
    + lia.
    + by rewrite Hq.
    + rewrite Hq, app_nil_r in H4. by rewrite Hq, app_nil_r, H4.
    + rewrite H5. solve_Permutation.
  - split; simpl; try done; [intros; lia|]. by rewrite app_assoc, H4.
Qed.

Lemma fair_finish jobs i s : 0 < max → fair jobs s → fair jobs (finish i s).
Proof.
  intros Hmax [H1 H2 H3 H4 H5]. unfold finish. destruct (running s !! i) as [j|] eqn:Hi; [|by split].
  pose proof (lookup_lt_Some _ _ _ Hi) as Hlt.
  assert (Hlen : length (take i (running s) ++ drop (S i) (running s)) = length (running s) - 1)
    by (rewrite length_app, length_take, length_drop; lia).
  assert (Hperm : running s ≡ₚ j :: take i (running s) ++ drop (S i) (running s)).
  { rewrite <-(take_drop_middle _ _ _ Hi) at 1. solve_Permutation. }
  unfold release. simpl. destruct (queue s) as [|j' q] eqn:Eq; split; simpl.
  - lia.
  - lia.
  - done.
  - done.
  - rewrite H5, Hperm at 1. solve_Permutation.
  - rewrite length_app. simpl. specialize (H3 ltac:(done)). lia.
  - specialize (H3 ltac:(done)). lia.
  - specialize (H3 ltac:(done)). lia.
  - by rewrite <-app_assoc.
  - rewrite H5, Hperm at 1. solve_Permutation.
Qed.

(** From a queue that nothing is added to, finishing the first job in flight again and
    again finishes every job. *)
Definition drain (n : nat) (s : Semaphore) : Semaphore := run (replicate n (Finish 0)) s.

Lemma finish_waiting s jobs :
  fair jobs s → running s ≠ [] →
  length (running (finish 0 s)) + length (queue (finish 0 s)) + 1 =
    length (running s) + length (queue s).
Proof.
  intros [H1 _ _ _ _] Hr. unfold finish. destruct (running s) as [|j l]; [done|].
  cbn [lookup list_lookup]. unfold release. cbn [queue].
  destruct (queue s) as [|j2 q]; simpl; rewrite ?length_app, ?drop_0; simpl; lia.
Qed.

Lemma drain_ends jobs s n :
  0 < max → fair jobs s → length (running s) + length (queue s) ≤ n →
  fair jobs (drain n s) ∧ running (drain n s) = [] ∧ queue (drain n s) = [].
Proof.
  intros Hmax. revert s. induction n as [|n IH]; intros s Hs Hn.
  - change (drain 0 s) with s. split; [done|]. split; apply length_zero_iff_nil; lia.
  - change (drain (S n) s) with (drain n (finish 0 s)).
    destruct (running s) as [|j l] eqn:Er.
    + assert (Hq : queue s = []).
      { clear IH. destruct Hs as [H1 _ H3 _ _]. destruct (queue s); [done|].
        specialize (H3 ltac:(done)). rewrite Er in H1. simpl in H1. lia. }
      assert (Hf : finish 0 s = s) by (unfold finish; by rewrite Er).
      apply IH; rewrite Hf; [done|]. rewrite Er, Hq. simpl. lia.
    + apply IH; [by apply fair_finish|].
      pose proof (finish_waiting s jobs Hs ltac:(by rewrite Er)) as Hw. rewrite Er in Hw. lia.
Qed.

(** C36: the queue of media requests is fair.  At any time at most [max] requests are in
    flight, none waits while a slot is free, they are started in the order in which they
    were made, and each is waiting, in flight or finished; and whatever is waiting is
    started and finished once those before it are. *)
Theorem media_queue_fair (es : list event) :
  0 < max →
  let s := run es initial in
  active s = length (running s) ∧ active s ≤ max ∧ (queue s ≠ [] → active s = max) ∧
  started s ++ queue s = asked es ∧ started s ≡ₚ running s ++ finished s ∧
  let s' := drain (length (asked es)) s in
  queue s' = [] ∧ running s' = [] ∧ started s' = asked es ∧ finished s' ≡ₚ asked es.
Proof.
  intros Hmax s.
  assert (Hs : fair (asked es) s).
  { subst s. rewrite <-(app_nil_l (asked es)).
    assert (H0 : fair [] (initial : Semaphore)) by (split; simpl; [done|lia|done|done|done]).
    revert H0. generalize (initial : Semaphore), (@nil J).
    induction es as [|e es IH]; intros s jobs Hs; [by rewrite app_nil_r|].
    cbn [run foldl]. destruct e as [j|i]; cbn [exec semaphore_store step].
    - change (asked (Enqueue j :: es)) with ([j] ++ asked es).
      rewrite (app_assoc jobs [j] (asked es)). apply IH. by apply fair_enqueue.
    - change (asked (Finish i :: es)) with (asked es). apply IH. by apply fair_finish. }
  pose proof Hs as [H1 H2 H3 H4 H5]. split_and!; [done..|].
  destruct (drain_ends (asked es) s (length (asked es)) Hmax Hs) as (Hd & Hr & Hq).
  { rewrite <-H4, length_app, (Permutation_length H5), length_app. lia. }
  cbv zeta. destruct Hd as [_ _ _ D4 D5]. rewrite Hq, app_nil_r in D4.
  split_and!; [done..|]. rewrite Hr in D5. simpl in D5. etrans; [symmetry; exact D5|]. by rewrite D4.
Qed.
End semaphore.

#[local] Instance two_slots : Store (Semaphore (J := nat)) event := semaphore_store 2.

Lemma media_queue_fair_witness :
  let s := run [Enqueue 1; Enqueue 2; Enqueue 3; Finish 1] (initial : Semaphore (J := nat)) in
  active s ≤ 2 ∧ started s = [1; 2; 3] ∧ running s = [1; 3].
Proof.
  intros s. destruct (media_queue_fair (J := nat) 2
    [Enqueue 1; Enqueue 2; Enqueue 3; Finish 1] ltac:(lia)) as (_ & H2 & _).
  split; [exact H2|]. split; reflexivity.
Defined.
