(* ===== verification/Programs.v ===== *)
(** * Asynchronous functions

    An [async] function is the tree of what it does between its awaits: it reads and
    changes the page's state, asks for something and waits, starts another function, or
    waits for one that was started.  A page runs many of them; each piece between two
    awaits runs to completion, and which waiting function goes on next is arbitrary.
    A program logic shows an invariant of the page's state by going through the tree of
    each function once, whatever the others do at its awaits. *)

From S2P Require Export Prelude.

Open Scope meza_scope.

(** ** Programs *)

Section programs.
(** The state of the page, what is thrown, the values of promises, the requests and
    their answers *)
Context {S E V : Type} {Req : Type} {Resp : Req → Type}.

Inductive prog (A : Type) : Type :=
  | Ret (a : A)
  | Raise (e : E)
  | Look (k : S → prog A)
  | Do (f : S → S) (k : prog A)
  | Await (q : Req) (k : result E (Resp q) → prog A)
  (** call an [async] function, which runs up to its first [await]; its promise *)
  | Spawn (p : prog V) (k : nat → prog A)
  | WaitFor (pid : nat) (k : result E V → prog A).

#[local] Arguments Ret {A} a.
#[local] Arguments Raise {A} e.
#[local] Arguments Look {A} k.
#[local] Arguments Do {A} f k.
#[local] Arguments Await {A} q k.
#[local] Arguments Spawn {A} p k.
#[local] Arguments WaitFor {A} pid k.

Fixpoint bind {A B} (p : prog A) (f : A → prog B) : prog B :=
  match p with
  | Ret a => f a
  | Raise e => Raise e
  | Look k => Look (λ s, bind (k s) f)
  | Do g k => Do g (bind k f)
  | Await q k => Await q (λ r, bind (k r) f)
  | Spawn p k => Spawn p (λ pid, bind (k pid) f)
  | WaitFor pid k => WaitFor pid (λ r, bind (k r) f)
  end.

(** [try { p } catch (e) { h(e) }] *)
Fixpoint catch {A} (p : prog A) (h : E → prog A) : prog A :=
  match p with
  | Ret a => Ret a
  | Raise e => h e
  | Look k => Look (λ s, catch (k s) h)
  | Do g k => Do g (catch k h)
  | Await q k => Await q (λ r, catch (k r) h)
  | Spawn p k => Spawn p (λ pid, catch (k pid) h)
  | WaitFor pid k => WaitFor pid (λ r, catch (k r) h)
  end.

Definition of_result {A} (r : result E A) : prog A :=
  match r with Ok a => Ret a | Throw e => Raise e end.
Definition await (q : Req) : prog (Resp q) := Await q of_result.
Definition wait_for (pid : nat) : prog V := WaitFor pid of_result.
Definition look {A} (f : S → A) : prog A := Look (λ s, Ret (f s)).
Definition modify (f : S → S) : prog unit := Do f (Ret tt).

(** [for (const x of l) f(x)], and [for (..) l'.push(f(x))] *)
Fixpoint for_each {A} (l : list A) (f : A → prog unit) : prog unit :=
  match l with
  | [] => Ret tt
  | x :: l => bind (f x) (λ _, for_each l f)
  end.
Fixpoint collect {A B} (l : list A) (f : A → prog B) : prog (list B) :=
  match l with
  | [] => Ret []
  | x :: l => bind (f x) (λ y, bind (collect l f) (λ ys, Ret (y :: ys)))
  end.

(** ** Pages *)

Record page := { st : S; threads : gmap nat (prog V); next : nat }.

Definition on_st f (c : page) : page :=
  {| st := f (st c); threads := threads c; next := next c |}.
Definition put_thread pid p (c : page) : page :=
  {| st := st c; threads := <[pid := p]> (threads c); next := next c |}.
Definition reserve (c : page) : page :=
  {| st := st c; threads := threads c; next := next c + 1 |}.

(** Run a program up to where it has to wait, or to its end. *)
Fixpoint exec {A} (p : prog A) (c : page) : prog A * page :=
  match p with
  | Look k => exec (k (st c)) c
  | Do f k => exec k (on_st f c)
  | Spawn p k =>
      let pid := next c in
      let '(p', c') := exec p (reserve c) in
      exec (k pid) (put_thread pid p' c')
  | p => (p, c)
  end.

Definition launch (p : prog V) (c : page) : page :=
  let '(p', c') := exec p (reserve c) in put_thread (next c) p' c'.

Definition continue_with (tid : nat) (p : prog V) (c : page) : page :=
  let '(p', c') := exec p c in put_thread tid p' c'.

(** The request a thread waits for is answered. *)
Definition answer (tid : nat) (a : ∀ q, result E (Resp q)) (c : page) : page :=
  match threads c !! tid with
  | Some (Await q k) => continue_with tid (k (a q)) c
  | _ => c
  end.
(** The promise a thread waits for is settled, and the thread goes on. *)
Definition settle (tid : nat) (c : page) : page :=
  match threads c !! tid with
  | Some (WaitFor pid k) =>
      match threads c !! pid with
      | Some (Ret v) => continue_with tid (k (Ok v)) c
      | Some (Raise e) => continue_with tid (k (Throw e)) c
      | _ => c
      end
  | _ => c
  end.

(** A program that starts no other, when nothing runs at its awaits: what it asks for,
    how it ends, and the state it leaves *)
Fixpoint alone {A} (a : ∀ q, result E (Resp q)) (p : prog A) (s : S)
    : option (list Req * result E A * S) :=
  match p with
  | Ret x => Some ([], Ok x, s)
  | Raise e => Some ([], Throw e, s)
  | Look k => alone a (k s) s
  | Do f k => alone a k (f s)
  | Await q k =>
      '(asked, r, s') ← alone a (k (a q)) s; Some (q :: asked, r, s')
  | Spawn _ _ | WaitFor _ _ => None
  end.

(** What a thread does when its request is answered, or its promise settled *)
Lemma answer_at tid a q k (c : page) :
  threads c !! tid = Some (Await q k) → answer tid a c = continue_with tid (k (a q)) c.
Proof. unfold answer. by intros ->. Qed.
Lemma answer_ended tid a e (c : page) : threads c !! tid = Some (Raise e) → answer tid a c = c.
Proof. unfold answer. by intros ->. Qed.
Lemma settle_at tid pid k r (c : page) :
  threads c !! tid = Some (WaitFor pid k) → threads c !! pid = Some (of_result r) →
  settle tid c = continue_with tid (k r) c.
Proof. unfold settle. intros -> ->. by destruct r. Qed.

Definition fresh_page (s : S) : page := {| st := s; threads := ∅; next := 0 |}.

Lemma alone_bind {A B} a (p : prog A) (f : A → prog B) s asked x s1 asked' r s2 :
  alone a p s = Some (asked, Ok x, s1) → alone a (f x) s1 = Some (asked', r, s2) →
  alone a (bind p f) s = Some (asked ++ asked', r, s2).
Proof.
  intros Hp Hf. revert s asked Hp.
  induction p as [A y|A e|A k IH|A g k IH|A q k IH|A p IHp k IH|A pid k IH];
    intros s asked; cbn [alone bind]; try done.
  - by intros [= <- -> ->].
  - by apply IH.
  - by apply IH.
  - intros (((l & r') & s') & Hk & [= <- -> ->])%bind_Some. by rewrite (IH _ _ _ Hf _ _ Hk).
Qed.
Lemma alone_bind_raise {A B} a (p : prog A) (f : A → prog B) s asked e s1 :
  alone a p s = Some (asked, Throw e, s1) →
  alone a (bind p f) s = Some (asked, Throw e, s1).
Proof.
  revert s asked.
  induction p as [A y|A e'|A k IH|A g k IH|A q k IH|A p IHp k IH|A pid k IH];
    intros s asked; cbn [alone bind]; try done.
  - by intros [= <- -> ->].
  - by apply IH.
  - by apply IH.
  - intros (((l & r') & s') & Hk & [= <- -> ->])%bind_Some. by rewrite (IH _ _ _ _ Hk).
Qed.

Lemma alone_catch {A} a (p : prog A) h s asked r s1 asked' r' s2 :
  alone a p s = Some (asked, r, s1) →
  match r with
  | Ok x => (asked', r', s2) = ([], Ok x, s1)
  | Throw e => alone a (h e) s1 = Some (asked', r', s2)
  end →
  alone a (catch p h) s = Some (asked ++ asked', r', s2).
Proof.
  revert s asked.
  induction p as [A y|A e'|A k IH|A g k IH|A q k IH|A p IHp k IH|A pid k IH];
    intros s asked; cbn [alone catch]; try done.
  - intros [= <- <- <-]. by intros [= -> -> ->].
  - by intros [= <- <- <-].
  - by apply IH.
  - by apply IH.
  - intros (((l & r0) & s') & Hk & [= <- -> ->])%bind_Some Hr. by rewrite (IH _ _ _ _ _ _ Hk Hr).
Qed.

(** ** Safety *)

Section logic.
(** What holds of the world outside, which only grows; the invariant of the page's
    state; the requests that may be made, and the answers they may get *)
Context {G : Type} (ext : relation G) `{!PreOrder ext}.
Context (inv : G → S → Prop) (req_ok : G → Req → Prop).
Context (resp_ok : ∀ (g : G) (q : Req), result E (Resp q) → Prop).

Fixpoint safe {A} (g : G) (p : prog A) (Q : G → A → Prop) : Prop :=
  match p with
  | Ret a => ∀ g', ext g g' → Q g' a
  | Raise _ => True
  | Look k => ∀ g' s, ext g g' → inv g' s → safe g' (k s) Q
  | Do f k => (∀ g' s, ext g g' → inv g' s → inv g' (f s)) ∧ safe g k Q
  | Await q k =>
      (∀ g', ext g g' → req_ok g' q) ∧
      ∀ g' r, ext g g' → resp_ok g' q r → safe g' (k r) Q
  | Spawn p k => safe g p (λ _ _, True) ∧ ∀ pid, safe g (k pid) Q
  | WaitFor pid k => ∀ g' r, ext g g' → safe g' (k r) Q
  end.

Lemma safe_mono {A} (p : prog A) Q Q' g g' :
  ext g g' → (∀ h a, ext g' h → Q h a → Q' h a) → safe g p Q → safe g' p Q'.
Proof.
  revert Q Q' g g'.
  induction p as [A a|A e|A k IH|A f k IH|A q k IH|A p IHp k IH|A pid k IH];
    intros Q Q' g g' Hg HQ; cbn [safe].
  - intros Ha h Hh. apply HQ; [done|]. apply Ha. by etrans.
  - done.
  - intros Hk h s Hh Hs.
    apply (IH s Q Q' h h); [done| |apply Hk; [by etrans|done]].
    intros h' a Hh' Ha. apply HQ; [by etrans|done].
  - intros [Hf Hk]. split; [|by apply (IH Q Q' g g')].
    intros h s Hh. apply Hf. by etrans.
  - intros [Hq Hk]. split.
    + intros h Hh. apply Hq. by etrans.
    + intros h r Hh Hr. apply (IH r Q Q' h h); [done| |apply Hk; [by etrans|done]].
      intros h' a Hh' Ha. apply HQ; [by etrans|done].
  - intros [Hp Hk]. split; [by apply (IHp (λ _ _, True) (λ _ _, True) g g')|].
    intros pid. by apply (IH pid Q Q' g g').
  - intros Hk h r Hh. apply (IH r Q Q' h h); [done| |apply Hk; by etrans].
    intros h' a Hh' Ha. apply HQ; [by etrans|done].
Qed.
Lemma safe_ext {A} (p : prog A) Q g g' : ext g g' → safe g p Q → safe g' p Q.
Proof. intros Hg. by apply safe_mono. Qed.
Lemma safe_weaken {A} (p : prog A) Q Q' g :
  (∀ h a, ext g h → Q h a → Q' h a) → safe g p Q → safe g p Q'.
Proof. by apply safe_mono. Qed.

Lemma safe_Ret {A} (a : A) (Q : G → A → Prop) g : (∀ g', ext g g' → Q g' a) → safe g (Ret a) Q.
Proof. done. Qed.

Lemma safe_bind {A B} (p : prog A) (f : A → prog B) Q R g :
  safe g p Q → (∀ h a, ext g h → Q h a → safe h (f a) R) → safe g (bind p f) R.
Proof.
  revert g.
  induction p as [A a|A e|A k IH|A h k IH|A q k IH|A p IHp k IH|A pid k IH];
    intros g; cbn [safe bind]; intros Hp Hf.
  - apply Hf; [done|]. by apply Hp.
  - done.
  - intros h s Hh Hs. apply (IH s f Q h); [by apply Hp|].
    intros h' a Hh'. apply Hf. by etrans.
  - destruct Hp as [H1 H2]. split; [done|]. by apply (IH f Q).
  - destruct Hp as [H1 H2]. split; [done|]. intros h r Hh Hr.
    apply (IH r f Q h); [by apply H2|]. intros h' a Hh'. apply Hf. by etrans.
  - destruct Hp as [H1 H2]. split; [done|]. intros pid. by apply (IH pid f Q).
  - intros h r Hh. apply (IH r f Q h); [by apply Hp|].
    intros h' a Hh'. apply Hf. by etrans.
Qed.

Lemma safe_catch {A} (p : prog A) (f : E → prog A) Q g :
  safe g p Q → (∀ h e, ext g h → safe h (f e) Q) → safe g (catch p f) Q.
Proof.
  revert g.
  induction p as [A a|A e|A k IH|A h k IH|A q k IH|A p IHp k IH|A pid k IH];
    intros g; cbn [safe catch]; intros Hp Hf.
  - done.
  - by apply Hf.
  - intros h s Hh Hs. apply IH; [by apply Hp|]. intros h' a Hh'. apply Hf. by etrans.
  - destruct Hp as [H1 H2]. split; [done|]. by apply IH.
  - destruct Hp as [H1 H2]. split; [done|]. intros h r Hh Hr.
    apply IH; [by apply H2|]. intros h' a Hh'. apply Hf. by etrans.
  - destruct Hp as [H1 H2]. split; [done|]. intros pid. by apply IH.
  - intros h r Hh. apply IH; [by apply Hp|]. intros h' a Hh'. apply Hf. by etrans.
Qed.

Lemma safe_of_result {A} (r : result E A) Q g :
  (∀ a, r = Ok a → ∀ g', ext g g' → Q g' a) → safe g (of_result r) Q.
Proof. destruct r; [|done]. intros H g' Hg'. by apply H. Qed.
Lemma safe_await q Q g :
  (∀ g', ext g g' → req_ok g' q) →
  (∀ g' g'' a, ext g g' → resp_ok g' q (Ok a) → ext g' g'' → Q g'' a) →
  safe g (await q) Q.
Proof.
  intros Hq HQ. split; [done|]. intros g' r Hg Hr. apply safe_of_result.
  intros a -> g'' Hg''. by eapply HQ.
Qed.
Lemma safe_wait_for pid (Q : G → V → Prop) g :
  (∀ g' v, ext g g' → Q g' v) → safe g (wait_for pid) Q.
Proof.
  intros HQ g' r Hg. apply safe_of_result. intros a _ g'' Hg''. apply HQ. by etrans.
Qed.
Lemma safe_look {A} (f : S → A) (Q : G → A → Prop) g :
  (∀ g' g'' s, ext g g' → inv g' s → ext g' g'' → Q g'' (f s)) → safe g (look f) Q.
Proof. intros HQ g' s Hg Hs g'' Hg''. by eapply HQ. Qed.
Lemma safe_modify (f : S → S) (Q : G → unit → Prop) g :
  (∀ g' s, ext g g' → inv g' s → inv g' (f s)) → (∀ g', ext g g' → Q g' tt) →
  safe g (modify f) Q.
Proof. intros Hf HQ. split; [done|]. exact HQ. Qed.

Lemma safe_for_each {A} (l : list A) (f : A → prog unit) g :
  (∀ x h, x ∈ l → ext g h → safe h (f x) (λ _ _, True)) →
  safe g (for_each l f) (λ _ _, True).
Proof.
  revert g. induction l as [|x l IH]; intros g Hf; [done|]. cbn [for_each].
  apply (safe_bind _ _ (λ _ _, True)); [apply Hf; [by left|done]|].
  intros h a Hh _. apply IH. intros y h' Hy Hh'. apply Hf; [by right|]. by etrans.
Qed.

(** *** Pages of safe programs *)

Record page_safe (g : G) (c : page) : Prop := {
  ps_inv : inv g (st c);
  ps_threads : map_Forall (λ _ p, safe g p (λ _ _, True)) (threads c);
}.

Context (inv_mono : ∀ g g' s, ext g g' → inv g s → inv g' s).

Lemma page_safe_ext g g' c : ext g g' → page_safe g c → page_safe g' c.
Proof.
  intros Hg [H1 H2]. split; [by eapply inv_mono|].
  intros pid p Hp. eapply safe_ext; [exact Hg|]. by apply (H2 pid).
Qed.
Lemma put_thread_safe g pid p c :
  safe g p (λ _ _, True) → page_safe g c → page_safe g (put_thread pid p c).
Proof. intros Hp [H1 H2]. split; [done|]. by apply map_Forall_insert_2. Qed.

Lemma exec_safe {A} (p : prog A) Q g c :
  safe g p Q → page_safe g c → page_safe g (exec p c).2 ∧ safe g (exec p c).1 Q.
Proof.
  revert c Q.
  induction p as [A a|A e|A k IH|A h k IH|A q k IH|A p IHp k IH|A pid k IH];
    intros c Q; cbn [exec]; intros Hp Hc; try by split.
  - apply IH; [|done]. apply Hp; [done|]. apply Hc.
  - destruct Hp as [H1 H2]. apply IH; [done|]. destruct Hc as [H3 H4].
    split; [|done]. by apply H1.
  - destruct Hp as [H1 H2].
    destruct (IHp (reserve c) (λ _ _, True)) as [H3 H4]; [done| |].
    { destruct Hc. by split. }
    destruct (exec p (reserve c)) as [p' c'].
    apply IH; [done|]. by apply put_thread_safe.
Qed.

Lemma launch_safe g p c :
  safe g p (λ _ _, True) → page_safe g c → page_safe g (launch p c).
Proof.
  intros Hp Hc. unfold launch.
  destruct (exec_safe p (λ _ _, True) g (reserve c)) as [H1 H2]; [done| |].
  { destruct Hc. by split. }
  destruct (exec p (reserve c)) as [p' c']. by apply put_thread_safe.
Qed.
Lemma continue_safe g tid p c :
  safe g p (λ _ _, True) → page_safe g c → page_safe g (continue_with tid p c).
Proof.
  intros Hp Hc. unfold continue_with.
  destruct (exec_safe p (λ _ _, True) g c) as [H1 H2]; [done..|].
  destruct (exec p c) as [p' c']. by apply put_thread_safe.
Qed.
Lemma answer_safe g tid a c :
  (∀ q k, threads c !! tid = Some (Await q k) → resp_ok g q (a q)) →
  page_safe g c → page_safe g (answer tid a c).
Proof.
  intros Ha Hc. unfold answer.
  destruct (threads c !! tid) as [[]|] eqn:Ht; try done.
  apply continue_safe; [|done]. destruct Hc as [_ Hall].
  specialize (Hall _ _ Ht) as [_ Hk]. by eapply Hk, Ha.
Qed.
Lemma settle_safe g tid c : page_safe g c → page_safe g (settle tid c).
Proof.
  intros Hc. unfold settle.
  destruct (threads c !! tid) as [[]|] eqn:Ht; try done.
  pose proof (ps_threads _ _ Hc _ _ Ht) as Hk.
  destruct (threads c !! pid) as [[]|]; try done; (apply continue_safe; [by apply Hk|done]).
Qed.
Lemma fresh_page_safe g s : inv g s → page_safe g (fresh_page s).
Proof. intros Hs. split; [done|]. apply map_Forall_empty. Qed.
End logic.

(** ** Every run of a program

    What a program does to the page, asks for and starts, in order, and how it ends,
    whatever the state when it looks and whatever it is answered. *)

Inductive deed :=
  | Changed (f : S → S)
  | Asked (q : Req)
  | Started (p : prog V).

Fixpoint every_run {A} (p : prog A) (done : list deed)
    (Q : list deed → result E A → Prop) : Prop :=
  match p with
  | Ret a => Q done (Ok a)
  | Raise e => Q done (Throw e)
  | Look k => ∀ s, every_run (k s) done Q
  | Do f k => every_run k (done ++ [Changed f]) Q
  | Await q k => ∀ r, every_run (k r) (done ++ [Asked q]) Q
  | Spawn p k => ∀ pid, every_run (k pid) (done ++ [Started p]) Q
  | WaitFor _ k => ∀ r, every_run (k r) done Q
  end.

Lemma every_run_mono {A} (p : prog A) l Q Q' :
  (∀ l' r, Q (l ++ l') r → Q' (l ++ l') r) → every_run p l Q → every_run p l Q'.
Proof.
  revert l Q Q'. induction p as [A a|A e|A k IH|A f k IH|A q k IH|A p IHp k IH|A pid k IH];
    intros l Q Q' HQ; cbn [every_run].
  - specialize (HQ [] (Ok a)). by rewrite app_nil_r in HQ.
  - specialize (HQ [] (Throw e)). by rewrite app_nil_r in HQ.
  - intros Hk s. by apply (IH s l Q Q').
  - apply (IH _ Q Q'). intros l' r. rewrite <-app_assoc. apply HQ.
  - intros Hk r. apply (IH r _ Q Q'); [|apply Hk]. intros l' r'. rewrite <-app_assoc. apply HQ.
  - intros Hk pid. apply (IH pid _ Q Q'); [|apply Hk]. intros l' r'. rewrite <-app_assoc. apply HQ.
  - intros Hk r. by apply (IH r l Q Q').
Qed.
Lemma every_run_bind {A B} (p : prog A) (f : A → prog B) l Q :
  every_run p l (λ l' r, match r with
    | Ok a => every_run (f a) l' Q | Throw e => Q l' (Throw e) end) →
  every_run (bind p f) l Q.
Proof.
  revert l. induction p as [A a|A e|A k IH|A g k IH|A q k IH|A p IHp k IH|A pid k IH];
    intros l; cbn [every_run bind]; auto.
Qed.
Lemma every_run_catch {A} (p : prog A) h l Q :
  every_run p l (λ l' r, match r with
    | Ok a => Q l' (Ok a) | Throw e => every_run (h e) l' Q end) →
  every_run (catch p h) l Q.
Proof.
  revert l. induction p as [A a|A e|A k IH|A g k IH|A q k IH|A p IHp k IH|A pid k IH];
    intros l; cbn [every_run catch]; auto.
Qed.

(** A program that does not fail *)
Fixpoint sure {A} (p : prog A) : Prop :=
  match p with
  | Ret _ => True
  | Raise _ => False
  | Look k => ∀ s, sure (k s)
  | Do _ k => sure k
  | Await _ k => ∀ r, sure (k r)
  | Spawn _ k => ∀ pid, sure (k pid)
  | WaitFor _ k => ∀ r, sure (k r)
  end.

Lemma sure_bind {A B} (p : prog A) (f : A → prog B) :
  sure p → (∀ a, sure (f a)) → sure (bind p f).
Proof. induction p; cbn [sure bind]; auto. Qed.
Lemma sure_catch {A} (p : prog A) h : (∀ e, sure (h e)) → sure (catch p h).
Proof. induction p; cbn [sure catch]; auto. Qed.
Lemma sure_run {A} (p : prog A) l Q :
  sure p → (∀ l' a, Q (l ++ l') (Ok a)) → every_run p l Q.
Proof.
  revert l. induction p as [A a|A e|A k IH|A g k IH|A q k IH|A p IHp k IH|A pid k IH];
    intros l; cbn [sure every_run]; intros Hp HQ; try done.
  - specialize (HQ [] a). by rewrite app_nil_r in HQ.
  - intros s. by apply IH.
  - apply IH; [done|]. intros l' b. rewrite <-app_assoc. apply HQ.
  - intros r. apply IH; [done|]. intros l' b. rewrite <-app_assoc. apply HQ.
  - intros pid. apply IH; [done|]. intros l' b. rewrite <-app_assoc. apply HQ.
  - intros r. by apply IH.
Qed.

(** *** What runs stops at an [await] or at its end *)

Definition waiting {A} (p : prog A) : Prop :=
  match p with Ret _ | Raise _ | Await _ _ | WaitFor _ _ => True | _ => False end.

Lemma exec_waiting {A} (p : prog A) c : waiting (exec p c).1.
Proof.
  revert c. induction p; intros c; cbn [exec]; try done.
  destruct (exec p (reserve c)) as [p' c']. done.
Qed.

Lemma exec_bind {A B} (p : prog A) (f : A → prog B) c a c' :
  exec p c = (Ret a, c') → exec (bind p f) c = exec (f a) c'.
Proof.
  revert c. induction p; intros c; cbn [exec bind]; try done; eauto.
  - by intros [= -> ->].
  - destruct (exec p (reserve c)). eauto.
Qed.

(** Threads that were there are left alone, and new ones get new numbers. *)
Lemma exec_threads {A} (p : prog A) c :
  next c ≤ next (exec p c).2 ∧
  ∀ tid, tid < next c → threads (exec p c).2 !! tid = threads c !! tid.
Proof.
  revert c. induction p as [A a|A e|A k IH|A h k IH|A q k IH|A p IHp k IH|A pid k IH];
    intros c; cbn [exec]; try by split.
  - apply IH.
  - exact (IH (on_st h c)).
  - destruct (IHp (reserve c)) as [H1 H2]. destruct (exec p (reserve c)) as [p' c'].
    simpl in H1, H2. destruct (IH (next c) (put_thread (next c) p' c')) as [H3 H4].
    simpl in H3, H4. split; [lia|]. intros tid Ht. rewrite H4 by lia.
    rewrite lookup_insert_ne by lia. apply H2. lia.
Qed.
End programs.

#[global] Arguments prog S E V {Req} Resp A.
#[global] Arguments Ret {S E V Req Resp A} a.
#[global] Arguments Raise {S E V Req Resp A} e.
#[global] Arguments Look {S E V Req Resp A} k.
#[global] Arguments Do {S E V Req Resp A} f k.
#[global] Arguments Await {S E V Req Resp A} q k.
#[global] Arguments Spawn {S E V Req Resp A} p k.
#[global] Arguments WaitFor {S E V Req Resp A} pid k.
#[global] Arguments page S E V {Req} Resp.
#[global] Arguments deed S E V {Req} Resp.
#[global] Arguments Changed {S E V Req Resp} f.
#[global] Arguments Asked {S E V Req Resp} q.
#[global] Arguments Started {S E V Req Resp} p.

Notation "'let*' x ':=' p 'in' k" := (bind p (λ x, k))
  (at level 200, x name, p at level 100, k at level 200) : meza_scope.
Notation "p ;; k" := (bind p (λ _, k))
  (at level 100, k at level 200, right associativity) : meza_scope.
