(* ===== verification/Verification.v ===== *)
(** * Who is shown as verified ([ui/stores/verification.ts], [crypto/key-monitor.ts],
    [gateway.ts])

    The badge of a contact is shown from a table in memory, which is loaded from
    IndexedDB when a session starts; the first key seen of every user is kept there too,
    and the gateway compares the keys it fetches with it.  The operations are asynchronous
    here: each access to IndexedDB is awaited, and other functions run meanwhile.
    ([KeyMonitor] has the same operations as single steps.) *)

From S2P Require Export Programs KeyMonitor.

Open Scope meza_scope.

(** ** State *)

Record Vault := {
  (** the two tables of IndexedDB, and whether the callback is registered *)
  monitor : MonitorState;
  records : gmap string VerificationRecord;
  keyChangedUsers : gset string;
  (** [signingKeyCache] of the gateway: a key and when it was fetched *)
  signingKeyCache : gmap string (bytes * Z);
  clock : Z;
}.

Definition on_monitor f (s : Vault) : Vault :=
  {| monitor := f (monitor s); records := records s; keyChangedUsers := keyChangedUsers s;
     signingKeyCache := signingKeyCache s; clock := clock s |}.
Definition set_shown r k (s : Vault) : Vault :=
  {| monitor := monitor s; records := r; keyChangedUsers := k;
     signingKeyCache := signingKeyCache s; clock := clock s |}.
Definition on_signingKeys f (s : Vault) : Vault :=
  {| monitor := monitor s; records := records s; keyChangedUsers := keyChangedUsers s;
     signingKeyCache := f (signingKeyCache s); clock := clock s |}.

(** What a function waits for: IndexedDB, or the server's answer about a user's key *)
Inductive vault_request := Idb | FetchKey (userId : string).
Definition vault_answer (q : vault_request) : Type :=
  match q with Idb => unit | FetchKey _ => option bytes end.

Definition vprog : Type → Type := prog Vault string unit vault_answer.
Definition vpage : Type := page Vault string unit vault_answer.

Section sha256.
Context (sha256 : bytes → bytes).

(** ** IndexedDB *)

(** A transaction: it takes effect when it completes. *)
Definition idb {A} (f : MonitorState → A * MonitorState) : vprog A :=
  await Idb ;;
  Look (λ s, let r := f (monitor s) in Do (on_monitor (λ _, r.2)) (Ret r.1)).

Definition loadCachedKey (userId : string) : vprog (option CachedKey) :=
  idb (λ m, (cachedKeys m !! userId, m)).
Definition storeCachedKey (userId : string) (k : CachedKey) : vprog unit :=
  idb (λ m, (tt, KeyMonitor.on_keys <[userId := k]> m)).
Definition loadVerification (userId : string) : vprog (option VerificationRecord) :=
  idb (λ m, (verifications m !! userId, m)).
Definition storeVerification (userId : string) (r : VerificationRecord) : vprog unit :=
  idb (λ m, (tt, on_verifications <[userId := r]> m)).
Definition deleteVerification (userId : string) : vprog unit :=
  idb (λ m, (tt, on_verifications (delete userId) m)).
Definition loadAllVerifications : vprog (list (string * VerificationRecord)) :=
  idb (λ m, (map_to_list (verifications m), m)).

(** ** The store *)

(** [onKeyChanged] of the store *)
Definition key_changed (userId : string) : vprog unit :=
  deleteVerification userId ;;
  modify (λ s, set_shown (delete userId (records s)) ({[userId]} ∪ keyChangedUsers s) s).

Definition setVerified (userId : string) (publicKey : bytes) : vprog unit :=
  let* now := look clock in
  storeVerification userId
    {| verified := true; publicKeyHash := hashPublicKey sha256 publicKey; verifiedAt := now |} ;;
  let* record := loadVerification userId in
  match record with
  | Some r => modify (λ s, set_shown (<[userId := r]> (records s)) (keyChangedUsers s) s)
  | None => Ret tt
  end.

Definition clearVerified (userId : string) : vprog unit :=
  deleteVerification userId ;;
  modify (λ s, set_shown (delete userId (records s)) (keyChangedUsers s) s).

Definition isVerified (userId : string) (s : Vault) : bool :=
  match records s !! userId with Some r => verified r | None => false end.
Definition hasKeyChanged (userId : string) (s : Vault) : bool :=
  bool_decide (userId ∈ keyChangedUsers s).
Definition dismissKeyChange (userId : string) (s : Vault) : Vault :=
  set_shown (records s) (keyChangedUsers s ∖ {[userId]}) s.

(** The loop of [pruneStaleVerifications] *)
Fixpoint prune (stale : list string) (l : list (string * VerificationRecord))
    : vprog (list string) :=
  match l with
  | [] => Ret stale
  | (userId, r) :: l =>
      if verified r then
        let* cached := loadCachedKey userId in
        match cached with
        | Some c =>
            if bool_decide (publicKeyHash r = hashPublicKey sha256 (ck_publicKey c))
            then prune stale l
            else deleteVerification userId ;; prune (stale ++ [userId]) l
        | None => prune stale l
        end
      else prune stale l
  end.
Definition pruneStaleVerifications : vprog (list string) :=
  let* l := loadAllVerifications in prune [] l.

Definition hydrate : vprog unit :=
  let* staleUserIds := pruneStaleVerifications in
  let* l := loadAllVerifications in
  modify (λ s, set_shown (list_to_map l) (list_to_set staleUserIds) s) ;;
  modify (on_monitor (KeyMonitor.onKeyChanged true)).

(** ** The gateway *)

(** The callback is called without waiting for it. *)
Definition cachePublicKey (userId : string) (publicKey : bytes) : vprog KeyCacheResult :=
  let* cached := loadCachedKey userId in
  match cached with
  | None =>
      let* now := look clock in
      storeCachedKey userId {| ck_publicKey := publicKey; firstSeenAt := now |} ;;
      Ret first_seen
  | Some c =>
      if keysEqual (ck_publicKey c) publicKey then Ret unchanged
      else
        storeCachedKey userId {| ck_publicKey := publicKey; firstSeenAt := firstSeenAt c |} ;;
        Look (λ s, if callback (monitor s) then Spawn (key_changed userId) (λ _, Ret changed)
                   else Ret changed)
  end.

Definition SIGNING_KEY_TTL_MS : Z := 15 * 60 * 1000.

(** The request and what follows it, all of it in a [try] *)
Definition fetch_key (userId : string) : vprog (option bytes) :=
  catch
    (let* key := await (FetchKey userId) in
     match key : option bytes with
     | Some pk =>
         modify (λ s, on_signingKeys <[userId := (pk, clock s)]> s) ;;
         let* result := cachePublicKey userId pk in
         match result with
         | changed => deleteVerification userId ;; Ret (Some pk)
         | _ => Ret (Some pk)
         end
     | None => Ret None
     end)
    (λ _, Ret None).

Definition getOrFetchPublicKey (userId : string) : vprog (option bytes) :=
  Look (λ s,
    match signingKeyCache s !! userId with
    | Some (key, fetchedAt) =>
        if (clock s - fetchedAt <? SIGNING_KEY_TTL_MS)%Z then Ret (Some key)
        else fetch_key userId
    | None => fetch_key userId
    end).

(** ** Alone, the functions do what [KeyMonitor] says *)

(** IndexedDB works and the server gives a key. *)
Definition working (key : option bytes) (q : vault_request) : result string (vault_answer q) :=
  match q with Idb => Ok tt | FetchKey _ => Ok key end.

Lemma on_monitor_id s : on_monitor (λ _, monitor s) s = s.
Proof. by destruct s. Qed.

#[local] Notation pruned l acc := (foldl (λ '(stale, m) '(userId, r),
  if is_stale sha256 m userId r then (stale ++ [userId], clearVerification userId m)
  else (stale, m)) acc l).

Lemma pruned_cons u r l stale m :
  pruned ((u, r) :: l) (stale, m) =
  (if is_stale sha256 m u r then pruned l (stale ++ [u], clearVerification u m)
   else pruned l (stale, m)).
Proof. cbn [foldl]. by destruct (is_stale sha256 m u r). Qed.

Lemma prune_alone key l stale s :
  ∃ asked, alone (working key) (prune stale l) s =
    Some (asked, Ok (pruned l (stale, monitor s)).1,
          on_monitor (λ _, (pruned l (stale, monitor s)).2) s).
Proof.
  revert stale s. induction l as [|[u r] l IH]; intros stale s; [by destruct s; eexists|].
  rewrite pruned_cons. cbn [prune].
  assert (Hst : is_stale sha256 (monitor s) u r =
    (if verified r then
       match cachedKeys (monitor s) !! u with
       | Some c => negb (bool_decide (publicKeyHash r = hashPublicKey sha256 (ck_publicKey c)))
       | None => false
       end
     else false)) by reflexivity.
  rewrite Hst. clear Hst. destruct (verified r); [|apply IH].
  unfold loadCachedKey, idb. cbn. rewrite on_monitor_id.
  destruct (cachedKeys (monitor s) !! u) as [c|]; cbn.
  - case_bool_decide; cbn.
    + destruct (IH stale s) as [asked ->]. by eexists.
    + destruct (IH (stale ++ [u]) (on_monitor (λ _, clearVerification u (monitor s)) s))
        as [asked E].
      unfold clearVerification at 1 in E. rewrite E. by eexists.
  - destruct (IH stale s) as [asked ->]. by eexists.
Qed.

(** when a session starts, [hydrate] shows exactly what [pruneStaleVerifications] of
    [KeyMonitor] leaves: a user is shown as verified when IndexedDB has a verified record
    of theirs that is not of another key than the one last seen of them; the users of the
    records that were removed are shown with a warning; from then on changes are
    reported to the store. *)
Theorem hydrate_shows key s u :
  ∃ asked s', alone (working key) hydrate s = Some (asked, Ok tt, s') ∧
  callback (monitor s') = true ∧ cachedKeys (monitor s') = cachedKeys (monitor s) ∧
  records s' = verifications (monitor s') ∧
  (hasKeyChanged u s' = true ↔
    ∃ r, verifications (monitor s) !! u = Some r ∧ is_stale sha256 (monitor s) u r = true) ∧
  (isVerified u s' = true ↔
    ∃ r, verifications (monitor s) !! u = Some r ∧ verified r = true ∧
      ∀ c, cachedKeys (monitor s) !! u = Some c →
        publicKeyHash r = hashPublicKey sha256 (ck_publicKey c)).
Proof.
  pose proof (prune_exact sha256 (monitor s) u) as Hp.
  unfold KeyMonitor.pruneStaleVerifications in Hp.
  destruct (prune_alone key (map_to_list (verifications (monitor s))) [] s) as [asked E].
  set (m := pruned _ _) in *. destruct m as [stale m].
  destruct Hp as (Hin & Hlook & Hkeys & _). cbn in E.
  assert (Ha : alone (working key) (pruneStaleVerifications) s =
    Some (Idb :: asked, Ok stale, on_monitor (λ _, m) s)).
  { unfold pruneStaleVerifications, loadAllVerifications, idb. cbn.
    rewrite on_monitor_id, E. reflexivity. }
  eexists _, _. split.
  { unfold hydrate. eapply (alone_bind _ _ _ _ _ _ _ _ _ _ Ha). reflexivity. }
  cbn. rewrite list_to_map_to_list. split_and!; [done|done|done| |].
  - unfold hasKeyChanged. cbn. rewrite bool_decide_eq_true, elem_of_list_to_set. exact Hin.
  - unfold isVerified. cbn. rewrite Hlook. case_decide as Hst.
    + apply Hin in Hst as (r & Hr & Hst). split; [done|]. intros (r' & Hr' & Hv & Hc).
      rewrite Hr in Hr'. injection Hr' as <-. unfold is_stale in Hst. rewrite Hv in Hst.
      destruct (cachedKeys (monitor s) !! u) as [c|]; [|done].
      by rewrite bool_decide_eq_true_2 in Hst by (by apply Hc).
    + destruct (verifications (monitor s) !! u) as [r|]; [|split; [done|by intros (? & ? & _)]].
      split; [|by intros (r' & [= <-] & ? & _)].
      intros Hv. exists r. split_and!; [done..|]. intros c Hc.
      destruct (decide (publicKeyHash r = hashPublicKey sha256 (ck_publicKey c)))
        as [|Hne]; [done|]. destruct Hst. apply Hin. exists r. split; [done|].
      unfold is_stale. by rewrite Hv, Hc, bool_decide_eq_false_2.
Qed.
(** *** A key that changes *)

Lemma answer_put tid a q k (c : vpage) :
  answer tid a (put_thread tid (Await q k) c) =
  continue_with tid (k (a q)) (put_thread tid (Await q k) c).
Proof. unfold answer. cbn. by rewrite lookup_insert_eq. Qed.

(** The gateway has no recent key of the user. *)
Definition no_recent_key (u : string) (s : Vault) : Prop :=
  match signingKeyCache s !! u with
  | Some (_, fetchedAt) => (SIGNING_KEY_TTL_MS ≤ clock s - fetchedAt)%Z
  | None => True
  end.

Lemma setVerified_alone key u pk s :
  alone (working key) (setVerified u pk) s =
  let r := {| verified := true; publicKeyHash := hashPublicKey sha256 pk;
              verifiedAt := clock s |} in
  let s' := on_monitor (on_verifications <[u := r]>) s in
  Some ([Idb; Idb], Ok tt, set_shown (<[u := r]> (records s)) (keyChangedUsers s) s').
Proof.
  unfold setVerified, storeVerification, loadVerification, idb. cbn.
  by rewrite lookup_insert_eq.
Qed.

(** C14: while the store is listening, a key that differs from the one last seen takes the
    badge away: fetched for a message, it ends with the new key in the cache and the
    signing-key cache, the record gone from IndexedDB, the user not shown as verified
    and shown with a warning; nobody else's badge or warning changes. *)
Theorem key_change_clears u pk old s :
  callback (monitor s) = true → cachedKeys (monitor s) !! u = Some old →
  keysEqual (ck_publicKey old) pk = false → no_recent_key u s →
  let c := foldl (λ c tid, answer tid (working (Some pk)) c)
    (launch (getOrFetchPublicKey u ;; Ret tt) (fresh_page s : vpage)) [0; 0; 0; 1; 0]%nat in
  threads c !! 0 = Some (Ret tt) ∧ threads c !! 1 = Some (Ret tt) ∧
  ck_publicKey <$> cachedKeys (monitor (st c)) !! u = Some pk ∧
  signingKeyCache (st c) !! u = Some (pk, clock s) ∧
  verifications (monitor (st c)) = delete u (verifications (monitor s)) ∧
  isVerified u (st c) = false ∧ hasKeyChanged u (st c) = true ∧
  ∀ v, v ≠ u →
    isVerified v (st c) = isVerified v s ∧ hasKeyChanged v (st c) = hasKeyChanged v s.
Proof.
  intros Hcb Hold Hne Hn c.
  assert (Hc : c = foldl (λ c tid, answer tid (working (Some pk)) c)
    (launch (fetch_key u ;; Ret tt) (fresh_page s : vpage)) [0; 0; 0; 1; 0]%nat).
  { unfold c, launch, getOrFetchPublicKey, no_recent_key in *. cbn [bind Programs.exec].
    cbn. destruct (signingKeyCache s !! u) as [[k t]|]; [|done].
    by rewrite (proj2 (Z.ltb_ge _ _)) by lia. }
  clearbody c. subst c. cbn [foldl].
  assert (E : launch (fetch_key u ;; Ret tt) (fresh_page s : vpage) =
    put_thread 0 (fetch_key u ;; Ret tt) (reserve (fresh_page s))) by reflexivity.
  rewrite E. unfold fetch_key, await. cbn [bind catch]. rewrite answer_put.
  unfold continue_with. cbn. rewrite answer_put.
  unfold continue_with. cbn. rewrite Hold, Hne. cbn.  rewrite answer_put.
  unfold continue_with. cbn. rewrite Hcb. cbn.
  erewrite (answer_at 1 _ Idb); [|cbn; rewrite lookup_insert_ne by done; apply lookup_insert_eq].
  unfold continue_with. cbn.
  erewrite (answer_at 0 _ Idb); [|cbn; rewrite lookup_insert_ne by done; apply lookup_insert_eq].
  unfold continue_with. cbn.
  rewrite !lookup_insert_eq, lookup_insert_ne, lookup_insert_eq by done.
  unfold isVerified, hasKeyChanged. cbn.
  split_and!; [done..|by rewrite delete_delete_eq|by rewrite lookup_delete_eq| |].
  - apply bool_decide_eq_true. set_solver.
  - intros v Hv. split; [by rewrite lookup_delete_ne|].
    apply bool_decide_ext. set_solver.
Qed.

(** the key that a user was verified with in the dialog is not remembered as a key
    seen: when the gateway has not seen a key of the user before, the next key it
    fetches, whichever it is, counts as the first, and the user stays shown as
    verified without a warning, whether the store is listening or not; only the start of
    the next session removes the record when it is of another key. *)
Theorem verified_before_seen u checked pk s :
  cachedKeys (monitor s) !! u = None → no_recent_key u s →
  hashPublicKey sha256 checked ≠ hashPublicKey sha256 pk →
  ∃ asked s1 asked' s2 asked'' s3,
  alone (working (Some pk)) (setVerified u checked) s = Some (asked, Ok tt, s1) ∧
  alone (working (Some pk)) (getOrFetchPublicKey u) s1 = Some (asked', Ok (Some pk), s2) ∧
  isVerified u s2 = true ∧ hasKeyChanged u s2 = hasKeyChanged u s ∧
  isVerificationValid sha256 u pk (monitor s2) = false ∧
  alone (working (Some pk)) hydrate s2 = Some (asked'', Ok tt, s3) ∧
  isVerified u s3 = false ∧ hasKeyChanged u s3 = true.
Proof.
  intros Hc Hn Hh.
  pose proof (setVerified_alone (Some pk) u checked s) as E1. cbn zeta in E1.
  match type of E1 with _ = Some (_, _, ?x) => set (s1 := x) in E1 end.
  assert (E2 : ∃ asked s2, alone (working (Some pk)) (getOrFetchPublicKey u) s1 =
      Some (asked, Ok (Some pk), s2) ∧ records s2 = records s1 ∧
      verifications (monitor s2) = verifications (monitor s1) ∧
      keyChangedUsers s2 = keyChangedUsers s1 ∧
      ck_publicKey <$> cachedKeys (monitor s2) !! u = Some pk).
  { eexists _, _. split.
    { unfold getOrFetchPublicKey, no_recent_key in *. cbn.
      destruct (signingKeyCache s !! u) as [[k t]|];
        [rewrite (proj2 (Z.ltb_ge _ _)) by lia|]; unfold fetch_key; cbn; rewrite Hc;
        reflexivity. }
    cbn. by rewrite lookup_insert_eq. }
  destruct E2 as (asked & s2 & E2 & Hr & Hv & Hk & Hpk).
  destruct (hydrate_shows (Some pk) s2 u) as (asked'' & s3 & E3 & _ & _ & _ & H1 & H2).
  set (r := {| verified := true; publicKeyHash := hashPublicKey sha256 checked;
               verifiedAt := clock s |}).
  assert (Hru : records s2 !! u = Some r ∧ verifications (monitor s2) !! u = Some r)
    by (rewrite Hr, Hv; unfold s1; cbn; by rewrite !lookup_insert_eq).
  destruct Hru as [Hru Hvu].
  destruct (cachedKeys (monitor s2) !! u) as [c|] eqn:Hcu; [|done].
  injection Hpk as Hpk.
  eexists _, s1, _, s2, _, s3. split_and!; [exact E1|exact E2| | | |exact E3| |].
  - unfold isVerified. by rewrite Hru.
  - unfold hasKeyChanged. by rewrite Hk.
  - unfold isVerificationValid. rewrite Hvu. by apply bool_decide_eq_false.
  - apply not_true_iff_false. rewrite H2. intros (r' & Hr' & _ & Heq).
    rewrite Hvu in Hr'. injection Hr' as <-. apply Hh.
    rewrite <-Hpk. by apply Heq.
  - apply H1. exists r. split; [done|]. unfold is_stale. rewrite Hcu. cbn.
    rewrite Hpk. by rewrite bool_decide_eq_false_2.
Qed.
End sha256.

Definition demo_vault : Vault :=
  {| monitor := on_verifications (λ _, ∅) (KeyMonitor.onKeyChanged true demo_monitor);
     records := ∅; keyChangedUsers := ∅; signingKeyCache := ∅; clock := 7 |}.

Lemma key_change_clears_witness :
  let c := foldl (λ c tid, answer tid (working (Some [3]%Z)) c)
    (launch (getOrFetchPublicKey "u" ;; Ret tt) (fresh_page demo_vault : vpage))
    [0; 0; 0; 1; 0]%nat in
  hasKeyChanged "u" (st c) = true.
Proof.
  refine (proj1 (proj2 (proj2 (proj2 (proj2 (proj2 (proj2 (key_change_clears (λ b, b)
    "u" [3]%Z {| ck_publicKey := [1; 2]%Z; firstSeenAt := 5 |} demo_vault _ _ _ _)))))))).
  - reflexivity.
  - vm_compute. reflexivity.
  - vm_compute. reflexivity.
  - exact I.
Defined.

Lemma verified_before_seen_witness :
  ∃ s1 s2 asked asked',
    alone (working (Some [3]%Z)) (setVerified (λ b, b) "v" [9]%Z) demo_vault =
      Some (asked, Ok tt, s1) ∧
    alone (working (Some [3]%Z)) (getOrFetchPublicKey "v") s1 =
      Some (asked', Ok (Some [3]%Z), s2) ∧
    isVerified "v" s2 = true.
Proof.
  assert (H := verified_before_seen (λ b, b) "v" [9]%Z [3]%Z demo_vault).
  destruct H as (a & s1 & b & s2 & c & s3 & H1 & H2 & H3 & _).
  - vm_compute. reflexivity.
  - exact I.
  - vm_compute. discriminate.
  - exists s1, s2, a, b. auto.
Defined.
