(* ===== verification/KeyServer.v ===== *)
(** * The key service of the server ([server/cmd/keys/service.go],
    [server/internal/store/key_envelope_store.go])

    What the server does with a channel's keys: the current version of each channel and
    an envelope per member and version, changed by two transactions.  Whom the caller
    may reach (permissions, membership, the pages of the member list) is decided by
    other parts of the server and comes as an argument. *)

From S2P Require Export ChannelKeys.

Open Scope meza_scope.

(** The tables [channel_key_versions] and [channel_key_envelopes] *)
Record KeyServer := {
  current_version : gmap string Z;
  envelopes : gmap (string * string * Z) bytes;
}.
Definition no_server_keys : KeyServer := {| current_version := ∅; envelopes := ∅ |}.

(** [INSERT .. ON CONFLICT .. DO UPDATE], for a batch *)
Definition upsert (c : string) (v : Z) (envs : list (string * bytes))
    (t : gmap (string * string * Z) bytes) : gmap (string * string * Z) bytes :=
  foldl (λ t e, <[(c, e.1, v) := e.2]> t) t envs.

(** ** The store *)

Definition store_key_envelopes (c : string) (version : Z) (envs : list (string * bytes))
    (s : KeyServer) : KeyServer :=
  {| current_version := match current_version s !! c with
       | Some _ => current_version s
       | None => <[c := version]> (current_version s)
       end;
     envelopes := upsert c version envs (envelopes s) |}.

(** [ORDER BY key_version ASC] *)
Definition get_key_envelopes (c user : string) (s : KeyServer) : list (Z * bytes) :=
  js_sort (cmp_asc fst)
    (omap (λ kv, if decide (kv.1.1 = (c, user)) then Some (kv.1.2, kv.2) else None)
       (map_to_list (envelopes s))).

(** [DELETE .. WHERE channel_id = c AND key_version < v AND user_id != ALL(ids)] *)
Definition clean_up (c : string) (v : Z) (ids : list string)
    : gmap (string * string * Z) bytes → gmap (string * string * Z) bytes :=
  filter (λ kv, ¬ (kv.1.1.1 = c ∧ (kv.1.2 < v)%Z ∧ kv.1.1.2 ∉ ids)).

(** [None] is [ErrVersionMismatch]. *)
Definition rotated_version (c : string) (expected : Z) (s : KeyServer) : option Z :=
  if decide (expected = 0)%Z then
    match current_version s !! c with Some _ => None | None => Some 1%Z end
  else
    match current_version s !! c with
    | Some cur => if decide (cur = expected) then Some (cur + 1)%Z else None
    | None => None
    end.

Definition rotate_channel_key (c : string) (expected : Z) (envs : list (string * bytes))
    (s : KeyServer) : option (Z * KeyServer) :=
  newVersion ← rotated_version c expected s;
  Some (newVersion,
    {| current_version := <[c := newVersion]> (current_version s);
       envelopes :=
         (if decide (envs = []) then id else clean_up c newVersion envs.*1)
           (upsert c newVersion envs (envelopes s)) |}).

(** ** The service *)

Definition maxEnvelopeSize : nat := 93.
Definition envelopeVersion : Z := 2.
Definition maxEnvelopeBatch : nat := 1000.

Definition envelope_valid (e : string * bytes) : bool :=
  negb (bool_decide (e.1 = "")) && bool_decide (length e.2 = maxEnvelopeSize) &&
  bool_decide (head e.2 = Some envelopeVersion).
Definition validateEnvelopes (envs : list (string * bytes)) : bool :=
  negb (bool_decide (envs = [])) && bool_decide (length envs ≤ maxEnvelopeBatch) &&
  forallb envelope_valid envs.

Inductive key_request :=
  | GetKeyEnvelopes (c : string)
  | StoreKeyEnvelopes (c : string) (version : Z) (envs : list (string * bytes))
  | RotateChannelKey (c : string) (expected : Z) (envs : list (string * bytes))
  | ListMembersWithViewChannel (c cursor : string)
  (** a promise of the platform, not a request: the Web Crypto API, a timer *)
  | Pause.

Definition key_answer (q : key_request) : Type :=
  match q with
  | GetKeyEnvelopes _ => list (Z * bytes)
  | StoreKeyEnvelopes _ _ _ => unit
  | RotateChannelKey _ _ _ => Z
  | ListMembersWithViewChannel _ _ => list (string * bytes) * string
  | Pause => unit
  end.

(** What other parts of the server say to a request: whether the caller may see the
    channel or is a member of it, whether the recipients are members of its server, and
    the page of members *)
Record Verdict := {
  hasView : bool;
  isChannelMember : bool;
  recipientsAreMembers : bool;
  memberPage : list (string * bytes) * string;
}.

(** One request of a signed-in user *)
Definition serve (user : string) (w : Verdict) (q : key_request) (s : KeyServer)
    : result string (key_answer q) * KeyServer :=
  match q with
  | GetKeyEnvelopes c =>
      if bool_decide (c = "") then (Throw "channel_id is required", s)
      else if hasView w then (Ok (get_key_envelopes c user s), s)
      else if isChannelMember w then (Ok (get_key_envelopes c user s), s)
      else (Throw "no access to this channel's keys", s)
  | StoreKeyEnvelopes c version envs =>
      if bool_decide (c = "") then (Throw "channel_id is required", s)
      else if bool_decide (version = 0)%Z then (Throw "key_version must be > 0", s)
      else if negb (hasView w) then (Throw "no ViewChannel permission on this channel", s)
      else if negb (validateEnvelopes envs) then (Throw "invalid envelopes", s)
      else if negb (recipientsAreMembers w) then (Throw "envelope targets non-member", s)
      else (Ok tt, store_key_envelopes c version envs s)
  | RotateChannelKey c expected envs =>
      if bool_decide (c = "") then (Throw "channel_id is required", s)
      else if negb (hasView w) then (Throw "no ViewChannel permission on this channel", s)
      else if negb (validateEnvelopes envs) then (Throw "invalid envelopes", s)
      else if negb (recipientsAreMembers w) then (Throw "envelope targets non-member", s)
      else match rotate_channel_key c expected envs s with
           | Some (v, s') => (Ok v, s')
           | None => (Throw "key version mismatch for channel", s)
           end
  | ListMembersWithViewChannel c cursor =>
      if bool_decide (c = "") then (Throw "channel_id is required", s)
      else if hasView w then (Ok (memberPage w), s)
      else (Throw "no ViewChannel permission on this channel", s)
  | Pause => (Ok tt, s)
  end.

(** ** Facts *)

Lemma upsert_lookup c v envs t k e :
  upsert c v envs t !! k = Some e →
  t !! k = Some e ∨ ∃ u, k = (c, u, v) ∧ (u, e) ∈ envs.
Proof.
  revert t. unfold upsert. induction envs as [|[u b] envs IH]; intros t; simpl; [auto|].
  intros [E|(u' & -> & E)]%IH.
  - apply lookup_insert_Some in E as [[<- <-]|[_ E]]; [|auto].
    right. exists u. split; [done|by left].
  - right. exists u'. split; [done|by right].
Qed.

Lemma get_key_envelopes_elem c u s v e :
  (v, e) ∈ get_key_envelopes c u s ↔ envelopes s !! (c, u, v) = Some e.
Proof.
  unfold get_key_envelopes. rewrite js_sort_perm, list_elem_of_omap. split.
  - intros ([[[c' u'] v'] e'] & Hin%elem_of_map_to_list & E). simpl in E.
    case_decide; simplify_eq. done.
  - intros E. exists ((c, u, v), e). split; [by apply elem_of_map_to_list|].
    simpl. by rewrite decide_True.
Qed.

Lemma rotate_spec c x envs s v s' :
  rotate_channel_key c x envs s = Some (v, s') →
  rotated_version c x s = Some v ∧ current_version s' = <[c := v]> (current_version s) ∧
  ∀ k e, envelopes s' !! k = Some e →
    envelopes s !! k = Some e ∨ ∃ u, k = (c, u, v) ∧ (u, e) ∈ envs.
Proof.
  unfold rotate_channel_key. destruct (rotated_version c x s) as [v'|]; simpl; [|done].
  intros [= -> <-]. split; [done|]. split; [done|]. intros k e. simpl.
  case_decide; [apply upsert_lookup|].
  unfold clean_up. intros [E _]%map_lookup_filter_Some. by apply upsert_lookup.
Qed.
