(* ===== verification/KeyPrograms.v ===== *)
(** * Channel keys, with everything that runs in between ([crypto/channel-keys.ts])

    The operations of the channel-keys module that ask the server, as programs: between
    the awaits of one, others run and change the cache.  Fetches and lazy
    initialisations of the same channel share one promise. *)

From S2P Require Export Programs KeyServer JsObject.

Open Scope meza_scope.

(** The module's state, its two tables of promises in flight, and the queues that the
    workers of a prefetch share *)
Record KeyModule := {
  ks : KeyState;
  fetchInFlight : gmap string nat;
  lazyInitInFlight : gmap string nat;
  queues : gmap nat (list string);
}.
Definition on_ks f m : KeyModule :=
  {| ks := f (ks m); fetchInFlight := fetchInFlight m;
     lazyInitInFlight := lazyInitInFlight m; queues := queues m |}.
Definition on_fetch f m : KeyModule :=
  {| ks := ks m; fetchInFlight := f (fetchInFlight m);
     lazyInitInFlight := lazyInitInFlight m; queues := queues m |}.
Definition on_lazy f m : KeyModule :=
  {| ks := ks m; fetchInFlight := fetchInFlight m;
     lazyInitInFlight := f (lazyInitInFlight m); queues := queues m |}.
Definition on_queues f m : KeyModule :=
  {| ks := ks m; fetchInFlight := fetchInFlight m;
     lazyInitInFlight := lazyInitInFlight m; queues := f (queues m) |}.

(** [clearChannelKeyCache]: the keys and the tables of promises.  Operations that are under
    way go on. *)
Definition clear_module (m : KeyModule) : KeyModule :=
  on_lazy (λ _, ∅) (on_fetch (λ _, ∅) (on_ks clearChannelKeyCache m)).

(** The values of promises are booleans; a promise of nothing has [true]. *)
Definition kprog : Type → Type := prog KeyModule string bool key_answer.
Definition kpage : Type := page KeyModule string bool key_answer.

Section key_programs.
Context `{Crypto}.
Context (random_key random_secret random_nonce : nat → bytes).
(** how many pages of members are followed at most; see [distributeKeyToAllMembers] *)
Context (max_pages : nat).

Definition keys {A} (f : KeyState → A) : kprog A := look (λ m, f (ks m)).
Definition set_keys (f : KeyState → KeyState) : kprog unit := modify (on_ks f).
Definition pause : kprog unit := await Pause.

(** [identityKeypair.publicKey] where the identity may have gone since it was tested *)
Definition need_identity : kprog IdentityKeypair :=
  let* id := keys identityKeypair in
  match id with
  | Some id => Ret id
  | None => Raise "Cannot read properties of null"
  end.

Definition generateChannelKey : kprog bytes :=
  Look (λ m, Do (on_ks (count 0 1)) (Ret (random_key (draws (ks m))))).

(** The envelopes of several members are made at once, each with random values of its
    own. *)
Definition wrap_all (c : string) (key : bytes) (members : list (string * bytes))
    : kprog (list (string * bytes)) :=
  let* r := Look (λ m, Do (on_ks (count 0 (length members)))
              (Ret (wrap_members random_secret random_nonce (draws (ks m)) c key members))) in
  pause ;; of_result r.
Definition wrap_one (c : string) (key : bytes) (user : string) (pub : bytes)
    : kprog (list (string * bytes)) := wrap_all c key [(user, pub)].

(** ** Fetching *)

Definition cache_envelope (c : string) (e : Z * bytes) : kprog unit :=
  let* id := need_identity in
  let* aad := of_result (buildKeyWrapAAD c (publicKey id)) in
  pause ;;
  let* key := of_result (unwrapChannelKey e.2 (secretKey id) aad) in
  set_keys (setCachedKey c e.1 key).

Definition doFetchAndCache (c : string) : kprog bool :=
  let* id := keys identityKeypair in
  match id with
  | None => Raise "Channel keys not initialized"
  | Some _ =>
      let* envelopes := await (GetKeyEnvelopes c) in
      match envelopes : list (Z * bytes) with
      | [] => Ret true
      | _ => for_each envelopes (cache_envelope c) ;; set_keys schedulePersist ;; Ret true
      end
  end.

(** [promise.finally(f)], where [f] only changes the state *)
Definition finally (pid : nat) (f : KeyModule → KeyModule) : kprog bool :=
  WaitFor pid (λ r, Do f (of_result r)).

(** The promise that is in flight for [c], or a new one *)
Definition coalesce (table : KeyModule → gmap string nat)
    (upd : (gmap string nat → gmap string nat) → KeyModule → KeyModule)
    (c : string) (body : kprog bool) : kprog nat :=
  Look (λ m,
    match table m !! c with
    | Some existing => Ret existing
    | None =>
        Spawn body (λ inner,
        Spawn (finally inner (upd (delete c))) (λ promise,
        Do (upd <[c := promise]>) (Ret promise)))
    end).

Definition start_fetch (c : string) : kprog nat :=
  coalesce fetchInFlight on_fetch c (doFetchAndCache c).
(** [await fetchAndCacheChannelKeys(c)] *)
Definition fetchAndCacheChannelKeys (c : string) : kprog bool :=
  let* pid := start_fetch c in wait_for pid.

Definition getChannelKey (c : string) (version : Z) : kprog bytes :=
  let* k := keys (λ s, cached s c version) in
  match k with
  | Some key => Ret key
  | None =>
      fetchAndCacheChannelKeys c ;;
      let* k := keys (λ s, cached s c version) in
      match k with Some key => Ret key | None => Raise "Channel key not available" end
  end.

(** ** Distribution *)

(** The [Map] of a page: the members that have registered a key *)
Definition page_keys (members : list (string * bytes)) : list (string * bytes) :=
  foldl (λ m e, if bool_decide (e.2 = []) then m else obj_set e.1 e.2 m) [] members.

Fixpoint distribute_pages (fuel : nat) (c : string) (key : bytes) (version : Z)
    (cursor : string) : kprog bool :=
  match fuel with
  | 0 => Raise "the pages do not end"
  | S fuel =>
      let* page := await (ListMembersWithViewChannel c cursor) in
      let memberPubKeys := page_keys page.1 in
      (if bool_decide (memberPubKeys = []) then Ret tt
       else let* envelopes := wrap_all c key memberPubKeys in
            await (StoreKeyEnvelopes c version envelopes) ;; Ret tt) ;;
      if bool_decide (page.2 = "") then Ret true
      else pause ;; distribute_pages fuel c key version page.2
  end.
Definition distributeKeyToAllMembers (c : string) (key : bytes) (version : Z) : kprog bool :=
  distribute_pages max_pages c key version "".

Definition distributeKeyToMember (c user : string) (pub : bytes) : kprog bool :=
  let send version :=
    let* k := keys (λ s, cached s c version) in
    match k with
    | None => Ret true
    | Some key =>
        let* envs := wrap_one c key user pub in
        await (StoreKeyEnvelopes c version envs) ;; Ret true
    end in
  let* version := keys (getLatestKeyVersion c) in
  match version with
  | Some version => send version
  | None =>
      let* ok := catch (fetchAndCacheChannelKeys c) (λ _, Ret false) in
      if negb ok then Ret true
      else
        let* version := keys (getLatestKeyVersion c) in
        match version with None => Ret true | Some version => send version end
  end.

Definition redistribute_one (c : string) : kprog unit :=
  let* version := keys (getLatestKeyVersion c) in
  match version with
  | None => Ret tt
  | Some version =>
      let* k := keys (λ s, cached s c version) in
      match k with
      | None => Ret tt
      | Some key =>
          catch (distributeKeyToAllMembers c key version ;; Ret tt) (λ _, Ret tt)
      end
  end.
Definition redistributeChannelKeys (ids : list string) : kprog bool :=
  for_each ids redistribute_one ;; Ret true.

(** ** Making keys *)

(** [try { await fetch(c); return hasChannelKey(c) } catch { .. false }] *)
Definition fetched_key (c : string) : kprog bool :=
  catch (fetchAndCacheChannelKeys c ;; keys (hasChannelKey c)) (λ _, Ret false).

Definition doLazyInit (c userId : string) : kprog bool :=
  let* id := keys identityKeypair in
  match id with
  | None => Ret false
  | Some _ =>
      let* found := fetched_key c in
      if found : bool then Ret true
      else
        let* newKey := generateChannelKey in
        let* id := need_identity in
        let* selfEnvelope := wrap_one c newKey userId (publicKey id) in
        catch
          (let* newVersion := await (RotateChannelKey c 0 selfEnvelope) in
           set_keys (λ s, schedulePersist (setCachedKey c newVersion newKey s)) ;;
           Spawn (distributeKeyToAllMembers c newKey newVersion) (λ _, Ret true))
          (λ _, fetched_key c)
  end.
Definition lazyInitChannelKey (c userId : string) : kprog bool :=
  let* pid := coalesce lazyInitInFlight on_lazy c (doLazyInit c userId) in wait_for pid.

Definition createKey (c : string) : kprog (bytes * Z) :=
  Look (λ m, Do (on_ks (λ s, (createChannelKey random_key c s).2))
               (Ret (createChannelKey random_key c (ks m)).1)).
Definition provisionChannelKeyBatched (c : string) : kprog bool :=
  let* id := keys identityKeypair in
  match id with
  | None => Ret true
  | Some _ =>
      let* kv := createKey c in distributeKeyToAllMembers c kv.1 kv.2
  end.

(** The loop of [rotateChannelKey], with [attempts] more to come *)
Fixpoint rotate_attempts (attempts : nat) (c : string) (members : list (string * bytes))
    (currentVersion : Z) : kprog bool :=
  let* newKey := generateChannelKey in
  let* envelopes := wrap_all c newKey members in
  let* r := Await (RotateChannelKey c currentVersion envelopes) Ret in
  match r : result string Z with
  | Ok newVersion =>
      set_keys (λ s, schedulePersist (setCachedKey c newVersion newKey s)) ;; Ret true
  | Throw err =>
      match attempts with
      | 0 => Raise err
      | S attempts =>
          fetchAndCacheChannelKeys c ;;
          let* latest := keys (getLatestKeyVersion c) in
          match latest with
          | Some v =>
              if negb (v =? 0)%Z && (currentVersion <? v)%Z
              then rotate_attempts attempts c members v else Raise err
          | None => Raise err
          end
      end
  end.
Definition rotateChannelKey : string → list (string * bytes) → Z → kprog bool :=
  rotate_attempts 1.

(** ** Prefetching *)

(** [queue.shift()] *)
Definition shift (qid : nat) : kprog (option string) :=
  Look (λ m,
    match queues m !! qid with
    | Some (id :: rest) => Do (on_queues <[qid := rest]>) (Ret (Some id))
    | _ => Ret None
    end).
(** A worker takes at most as many channels as the queue had at first. *)
Fixpoint worker (fuel : nat) (qid : nat) : kprog bool :=
  match fuel with
  | 0 => Ret true
  | S fuel =>
      let* id := shift qid in
      match id with
      | None => Ret true
      | Some id =>
          if bool_decide (id = "") then Ret true
          else catch (fetchAndCacheChannelKeys id) (λ _, Ret true) ;; worker fuel qid
      end
  end.
Definition new_queue (l : list string) : kprog nat :=
  Look (λ m, let qid := fresh (dom (queues m)) in
             Do (on_queues <[qid := l]>) (Ret qid)).
Fixpoint spawn_workers (n : nat) (fuel qid : nat) : kprog (list nat) :=
  match n with
  | 0 => Ret []
  | S n => Spawn (worker fuel qid) (λ pid,
             let* pids := spawn_workers n fuel qid in Ret (pid :: pids))
  end.
Definition prefetchChannelKeys (ids : list string) (concurrency : nat) : kprog bool :=
  let* queue := keys (λ s, filter (λ id, hasChannelKey id s = false) ids) in
  if bool_decide (queue = []) then Ret true
  else
    let* qid := new_queue queue in
    let* pids := spawn_workers (concurrency `min` length queue) (length queue) qid in
    for_each pids (λ pid, wait_for pid ;; Ret tt) ;; Ret true.

End key_programs.
