(* ===== verification/KeyAgreement.v ===== *)
(** * Many clients and one server: who holds which channel key

    Any number of clients run the operations of the channel-keys module at once; their
    requests reach the server in any order, answers are late or lost, users sign in and
    out.  As long as keys are made by [lazyInitChannelKey] and [rotateChannelKey] alone,
    all clients that hold a version of a channel's key hold the same key.  With
    [provisionChannelKeyBatched], which makes version 1 without asking, they may not. *)

From S2P Require Export KeyPrograms.

Open Scope meza_scope.

Section system.
Context `{Crypto}.
(** The random values, by client and draw; the user of each client; the identities *)
Context (random_key random_secret random_nonce : nat → nat → bytes).
Context (user : nat → string) (secret_of : string → bytes).
Context (max_pages : nat).

Definition id_of (u : string) : IdentityKeypair :=
  {| secretKey := secret_of u; publicKey := ed_public (secret_of u) |}.

Inductive key_call :=
  | Fetch (c : string)
  | GetKey (c : string) (version : Z)
  | LazyInit (c : string)
  | ToMember (c u : string) (pub : bytes)
  | Redistribute (ids : list string)
  | Rotate (c : string) (members : list (string * bytes)) (current : Z)
  | Prefetch (ids : list string) (concurrency : nat)
  | Provision (c : string).

Definition call_body (i : nat) (call : key_call) : kprog bool :=
  match call with
  | Fetch c => fetchAndCacheChannelKeys c
  | GetKey c v => getChannelKey c v ;; Ret true
  | LazyInit c =>
      lazyInitChannelKey (random_key i) (random_secret i) (random_nonce i) max_pages c (user i)
  | ToMember c u pub => distributeKeyToMember (random_secret i) (random_nonce i) c u pub
  | Redistribute ids =>
      redistributeChannelKeys (random_secret i) (random_nonce i) max_pages ids
  | Rotate c members cur =>
      rotateChannelKey (random_key i) (random_secret i) (random_nonce i) c members cur
  | Prefetch ids n => prefetchChannelKeys ids n
  | Provision c =>
      provisionChannelKeyBatched (random_key i) (random_secret i) (random_nonce i) max_pages c
  end.

Record KeySystem := { pages : nat → kpage; srv : KeyServer }.
Definition on_page (i : nat) (f : kpage → kpage) (s : KeySystem) : KeySystem :=
  {| pages := λ j, if decide (i = j) then f (pages s i) else pages s j; srv := srv s |}.

Definition is_pause (q : key_request) : bool :=
  match q with Pause => true | _ => false end.
Definition platform_answer (q : key_request) : result string (key_answer q) :=
  match q with Pause => Ok tt | _ => Throw "not a promise of the platform" end.

(** The server handles the request a thread waits for; the thread will go on with the
    answer, or, if the answer is lost, with an error. *)
Definition served (i tid : nat) (w : Verdict) (lost : bool) (s : KeySystem) : KeySystem :=
  match threads (pages s i) !! tid with
  | Some (Await q k) =>
      if is_pause q then s
      else
        let '(r, srv') := serve (user i) w q (srv s) in
        let r := if lost then Throw "network error" else r in
        on_page i (put_thread tid (Await Pause (λ _, k r))) {| pages := pages s; srv := srv' |}
  | _ => s
  end.
(** The request never reaches the server. *)
Definition fails (i tid : nat) (err : string) (s : KeySystem) : KeySystem :=
  match threads (pages s i) !! tid with
  | Some (Await q k) =>
      if is_pause q then s
      else on_page i (put_thread tid (Await Pause (λ _, k (Throw err)))) s
  | _ => s
  end.
Definition wakes (tid : nat) (c : kpage) : kpage :=
  match threads c !! tid with
  | Some (Await q _) => if is_pause q then answer tid platform_answer c else c
  | _ => c
  end.

Inductive key_event :=
  | SignsIn (i mk : nat)
  | SignsOut (i : nat)
  | Calls (i : nat) (call : key_call)
  | Served (i tid : nat) (w : Verdict) (lost : bool)
  | Fails (i tid : nat) (err : string)
  | Wakes (i tid : nat)
  | Settles (i tid : nat).

Definition key_step (e : key_event) (s : KeySystem) : KeySystem :=
  match e with
  | SignsIn i mk => on_page i (on_st (on_ks (initChannelKeys (id_of (user i)) mk))) s
  | SignsOut i => on_page i (on_st clear_module) s
  | Calls i call => on_page i (launch (call_body i call)) s
  | Served i tid w lost => served i tid w lost s
  | Fails i tid err => fails i tid err s
  | Wakes i tid => on_page i (wakes tid) s
  | Settles i tid => on_page i (settle tid) s
  end.

Definition registered (m : string * bytes) : Prop := m.2 = publicKey (id_of m.1).

(** Public keys that are passed around are those the members registered; and keys are
    made by the two operations that ask the server. *)
Definition key_event_ok (e : key_event) (s : KeySystem) : Prop :=
  match e with
  | Calls _ (ToMember _ u pub) => registered (u, pub)
  | Calls _ (Rotate _ members _) => Forall registered members
  | Calls _ (Provision _) => False
  | Served _ _ w _ => Forall (λ m, m.2 = [] ∨ registered m) (memberPage w).1
  | _ => True
  end.

Definition no_keys : KeyState :=
  {| identityKeypair := None; masterKey := None; channelKeyCache := ∅; persistTimeout := false;
     calls := 0; draws := 0 |}.
Definition fresh_module : KeyModule :=
  {| ks := no_keys; fetchInFlight := ∅; lazyInitInFlight := ∅; queues := ∅ |}.

#[export] Instance key_system : Store KeySystem key_event :=
  {| initial := {| pages := λ _, fresh_page fresh_module; srv := no_server_keys |};
     exec := key_step; admissible := key_event_ok |}.

(** ** The invariant *)

(** [env], addressed to [u], opens to [k]. *)
Definition sealed (c : string) (k : bytes) (e : string * bytes) : Prop :=
  (let! aad := buildKeyWrapAAD c (publicKey (id_of e.1)) in
   unwrapChannelKey e.2 (secretKey (id_of e.1)) aad) = Ok k.

(** The key of every version of every channel, as the server's transactions decided it *)
Notation Ghost := (gmap (string * Z) bytes) (only parsing).

Implicit Types (g h : gmap (string * Z) bytes) (i : nat).

Definition req_ok (g : Ghost) (q : key_request) : Prop :=
  match q with
  | StoreKeyEnvelopes c v envs => ∃ k, g !! (c, v) = Some k ∧ Forall (sealed c k) envs
  | RotateChannelKey c _ envs => ∃ k, length k = 32 ∧ Forall (sealed c k) envs
  | _ => True
  end.
Definition resp_ok (i : nat) (g : Ghost) (q : key_request)
    : result string (key_answer q) → Prop :=
  match q with
  | GetKeyEnvelopes c => λ r, ∀ l v e, r = Ok l → (v, e) ∈ l →
      ∃ k, g !! (c, v) = Some k ∧ sealed c k (user i, e)
  | RotateChannelKey c _ envs => λ r, ∀ v k, r = Ok v → Forall (sealed c k) envs →
      g !! (c, v) = Some k
  | ListMembersWithViewChannel _ _ => λ r, ∀ p, r = Ok p →
      Forall (λ m, m.2 = [] ∨ registered m) p.1
  | _ => λ _, True
  end.
Record client_ok (i : nat) (g : Ghost) (m : KeyModule) : Prop := {
  co_identity : identityKeypair (ks m) = None ∨ identityKeypair (ks m) = Some (id_of (user i));
  co_cached : ∀ c v k, cached (ks m) c v = Some k → g !! (c, v) = Some k;
  co_length : ∀ cv k, g !! cv = Some k → length k = 32;
}.
Record server_ok (g : Ghost) (s : KeyServer) : Prop := {
  so_envelopes : ∀ c u v e, envelopes s !! (c, u, v) = Some e →
    ∃ k, g !! (c, v) = Some k ∧ sealed c k (u, e);
  so_versions : ∀ c v, is_Some (g !! (c, v)) ↔
    ∃ n, current_version s !! c = Some n ∧ (1 ≤ v ≤ n)%Z;
  so_positive : ∀ c n, current_version s !! c = Some n → (1 ≤ n)%Z;
  so_length : ∀ cv k, g !! cv = Some k → length k = 32;
}.

#[local] Notation safe_for i := (safe (S:=KeyModule) (E:=string) (V:=bool) (⊆) (client_ok i) req_ok (resp_ok i)).
#[local] Notation page_ok i := (page_safe (S:=KeyModule) (E:=string) (V:=bool) (⊆) (client_ok i) req_ok (resp_ok i)).

Definition agreed (s : KeySystem) : Prop :=
  ∃ g, server_ok g (srv s) ∧ ∀ i, page_ok i g (pages s i).

(** ** Every program is safe *)

Context `{!CryptoLaws}.
Context (Hkey : ∀ i n, length (random_key i n) = 32).
Context (Hnonce : ∀ i n, length (random_nonce i n) = 12).
Context (Hsecret : ∀ i n, rejectLowOrderPoint (x_public (random_secret i n)) = Ok tt).

Lemma wrap_sealed i n c k members envs :
  length k = 32 → Forall registered members →
  wrap_members (random_secret i) (random_nonce i) n c k members = Ok envs →
  Forall (sealed c k) envs.
Proof.
  intros Hk Hm. revert n envs. induction Hm as [|[u pub] members Hu _ IH]; intros n envs; simpl.
  - intros [= <-]. constructor.
  - intros (e & He & (es & Hes & [= <-])%result_bind_Ok)%result_bind_Ok.
    constructor; [|by eapply IH].
    unfold wrap_for in He. apply result_bind_Ok in He as (aad & Haad & He).
    apply result_bind_Ok in He as (env & Hw & [= <-]). unfold registered in Hu. simpl in *.
    subst pub. unfold sealed. simpl. rewrite Haad. simpl.
    eapply unwrap_wrap; [exact Hk|apply Hnonce|apply Hsecret|exact Hw].
Qed.

Lemma sealed_inj c k k' e : sealed c k e → sealed c k' e → k = k'.
Proof. unfold sealed. intros E1 E2. rewrite E1 in E2. by injection E2. Qed.

(** *** The pieces of programs *)

Lemma client_ok_mono i g g' m :
  g ⊆ g' → (∀ cv k, g' !! cv = Some k → length k = 32) → client_ok i g m → client_ok i g' m.
Proof.
  intros Hg Hl [H1 H2 H3]. split; [done| |done].
  intros c v k Hc. eapply lookup_weaken; [by apply H2|done].
Qed.

Lemma client_ok_same_ks i g m m' :
  ks m' = ks m → client_ok i g m → client_ok i g m'.
Proof. intros E [H1 H2 H3]. split; by rewrite ?E. Qed.
Lemma client_ok_count i g a b m : client_ok i g m → client_ok i g (on_ks (count a b) m).
Proof. intros [H1 H2 H3]. by split. Qed.
Lemma client_ok_persist i g m : client_ok i g m → client_ok i g (on_ks schedulePersist m).
Proof. intros [H1 H2 H3]. by split. Qed.

Lemma cached_set c v k s c' v' k' :
  cached (setCachedKey c v k s) c' v' = Some k' →
  (c' = c ∧ v' = v ∧ k' = k) ∨ cached s c' v' = Some k'.
Proof.
  rewrite cached_setCachedKey. case_decide as E; [|auto]. subst c'.
  rewrite prune_lookup. case_decide; [|done]. rewrite lookup_insert.
  case_decide as E; [by intros [= <-]; auto|].
  unfold cached. destruct (channelKeyCache s !! c); simpl; [auto|]. by rewrite lookup_empty.
Qed.
Lemma client_ok_set i g c v k m :
  g !! (c, v) = Some k → client_ok i g m →
  client_ok i g (on_ks (setCachedKey c v k) m).
Proof.
  intros Hg [H1 H2 H3]. split; [done| |done].
  intros c' v' k' [(-> & -> & ->)|Hc]%cached_set; [done|by apply H2].
Qed.

#[local] Notation Anything := (λ _ _, True) (only parsing).
Lemma s_bind {A B} i g (p : kprog A) (f : A → kprog B) Q R :
  safe_for i g p Q → (∀ h a, g ⊆ h → Q h a → safe_for i h (f a) R) →
  safe_for i g (bind p f) R.
Proof. apply (safe_bind (⊆)). Qed.
Lemma s_catch {A} i g (p : kprog A) (f : string → kprog A) Q :
  safe_for i g p Q → (∀ h e, g ⊆ h → safe_for i h (f e) Q) → safe_for i g (catch p f) Q.
Proof. apply (safe_catch (⊆)). Qed.
Lemma s_await i g (q : key_request) (Q : gmap (string * Z) bytes → key_answer q → Prop) :
  (∀ g', g ⊆ g' → req_ok g' q) →
  (∀ g' g'' a, g ⊆ g' → resp_ok i g' q (Ok a) → g' ⊆ g'' → Q g'' a) →
  safe_for i g (await q) Q.
Proof. apply (safe_await (⊆)). Qed.
Lemma s_result {A} i g (r : result string A) Q :
  (∀ a, r = Ok a → ∀ g', g ⊆ g' → Q g' a) → safe_for i g (of_result r) Q.
Proof. apply (safe_of_result (⊆)). Qed.
Lemma s_each {A} i g (l : list A) (f : A → kprog unit) :
  (∀ x h, x ∈ l → g ⊆ h → safe_for i h (f x) Anything) →
  safe_for i g (for_each l f) Anything.
Proof. apply (safe_for_each (⊆)). Qed.
Lemma s_wait_for i g pid : safe_for i g (wait_for pid) Anything.
Proof. by apply (safe_wait_for (⊆)). Qed.
Lemma s_ext {A} i g g' (p : kprog A) Q : g ⊆ g' → safe_for i g p Q → safe_for i g' p Q.
Proof. apply (safe_ext (⊆)). Qed.

Lemma safe_keys {A} i g (f : KeyState → A) (Q : gmap (string * Z) bytes → A → Prop) :
  (∀ g' g'' (m : KeyModule), g ⊆ g' → client_ok i g' m → g' ⊆ g'' → Q g'' (f (ks m))) →
  safe_for i g (keys f) Q.
Proof. intros HQ. by apply (safe_look (⊆)). Qed.
Lemma safe_keys' {A} i g (f : KeyState → A) : safe_for i g (keys f) (λ _ _, True).
Proof. by apply safe_keys. Qed.
Lemma safe_set_keys i g f :
  (∀ g' (m : KeyModule), g ⊆ g' → client_ok i g' m → client_ok i g' (on_ks f m)) →
  safe_for i g (set_keys f) (λ _ _, True).
Proof. intros Hf. by apply (safe_modify (⊆)). Qed.
Lemma safe_pause i g : safe_for i g pause (λ _ _, True).
Proof. by apply (s_await i g Pause (λ _ _, True)). Qed.
Lemma safe_seq {A B} i g (p : kprog A) (q : kprog B) R :
  safe_for i g p (λ _ _, True) → (∀ g', g ⊆ g' → safe_for i g' q R) →
  safe_for i g (p ;; q) R.
Proof. intros Hp Hq. eapply s_bind; [exact Hp|]. intros g' a Hg _. by apply Hq. Qed.

Lemma safe_need_identity i g :
  safe_for i g need_identity (λ _ id, id = id_of (user i)).
Proof.
  eapply s_bind; [apply (safe_keys i g _ (λ _ o, o = None ∨ o = Some (id_of (user i))))|].
  - intros g' g'' m _ [H1 _ _] _. exact H1.
  - intros g' [id|] Hg [E|E]; simplify_eq; simpl; [|done..]. done.
Qed.

Lemma safe_generate i g :
  safe_for i g (generateChannelKey (random_key i)) (λ _ k, length k = 32).
Proof.
  intros g' m Hg Hm. split; [intros; by apply client_ok_count|].
  intros g'' Hg''. apply Hkey.
Qed.

Lemma safe_wrap_all i g c k members :
  length k = 32 → Forall registered members →
  safe_for i g (wrap_all (random_secret i) (random_nonce i) c k members)
    (λ _ envs, Forall (sealed c k) envs).
Proof.
  intros Hk Hm g' m Hg Hcm. cbn [bind]. split; [intros; by apply client_ok_count|].
  apply safe_seq; [apply safe_pause|]. intros g'' _. apply s_result.
  intros envs Hw ? _. by eapply wrap_sealed.
Qed.
Lemma safe_wrap_one i g c k u pub :
  length k = 32 → registered (u, pub) →
  safe_for i g (wrap_one (random_secret i) (random_nonce i) c k u pub)
    (λ _ envs, Forall (sealed c k) envs).
Proof. intros Hk Hu. apply safe_wrap_all; [done|]. by repeat constructor. Qed.

(** *** Fetching *)

Lemma safe_cache_envelope i g c v e k :
  g !! (c, v) = Some k → sealed c k (user i, e) →
  safe_for i g (cache_envelope c (v, e)) (λ _ _, True).
Proof.
  intros Hk Hs. eapply s_bind; [apply safe_need_identity|]. intros g1 id H1 ->.
  unfold sealed in Hs. cbn [fst snd] in *.
  eapply s_bind; [apply (s_result i _ _ (λ _ aad,
    unwrapChannelKey e (secretKey (id_of (user i))) aad = Ok k))|].
  - intros aad Ha ? _. by rewrite Ha in Hs.
  - intros g2 aad H2 Hu. apply safe_seq; [apply safe_pause|]. intros g3 H3. rewrite Hu.
    simpl. apply safe_set_keys. intros g' m Hg'. apply client_ok_set.
    eapply lookup_weaken; [exact Hk|]. by rewrite H1, H2, H3.
Qed.

Lemma safe_doFetch i g c : safe_for i g (doFetchAndCache c) (λ _ _, True).
Proof.
  eapply s_bind; [apply safe_keys'|]. intros g1 [id|] H1 _; [|done].
  eapply s_bind; [apply (s_await i _ (GetKeyEnvelopes c) (λ g (l : list (Z * bytes)),
    ∀ v e, (v, e) ∈ l → ∃ k, g !! (c, v) = Some k ∧ sealed c k (user i, e)))|].
  - done.
  - intros g' g'' l _ Hr Hg'' v e Hin. destruct (Hr l v e eq_refl Hin) as (k & Hk & Hs).
    exists k. split; [by eapply lookup_weaken|done].
  - intros g2 l H2 Hl.
    assert (Hall : safe_for i g2
      (for_each l (cache_envelope c);; set_keys schedulePersist;; Ret true) (λ _ _, True)).
    { apply safe_seq.
      - apply s_each. intros [v e] h Hin Hh.
        destruct (Hl v e Hin) as (k & Hk & Hs). eapply safe_cache_envelope; [|exact Hs].
        by eapply lookup_weaken.
      - intros g3 _. apply safe_seq; [|done].
        apply safe_set_keys. intros ? ? _. apply client_ok_persist. }
    destruct l; [done|]. exact Hall.
Qed.

Lemma safe_coalesce i g table upd c body :
  (∀ f m, ks (upd f m) = ks m) → safe_for i g body (λ _ _, True) →
  safe_for i g (coalesce table upd c body) (λ _ _, True).
Proof.
  intros Hupd Hb g' m Hg Hm. destruct (table m !! c); [done|].
  split; [by eapply s_ext|]. intros inner. split.
  - intros h r Hh. split; [|by apply s_result].
    intros ? ? _. by apply client_ok_same_ks.
  - intros promise. split; [|done]. intros ? ? _. by apply client_ok_same_ks.
Qed.

Lemma safe_coalesced_wait i g table upd c body :
  (∀ f m, ks (upd f m) = ks m) → safe_for i g body (λ _ _, True) →
  safe_for i g (let* pid := coalesce table upd c body in wait_for pid) (λ _ _, True).
Proof.
  intros Hupd Hb. eapply s_bind; [by apply safe_coalesce|].
  intros g' pid _ _. by apply s_wait_for.
Qed.
Lemma safe_fetch i g c : safe_for i g (fetchAndCacheChannelKeys c) (λ _ _, True).
Proof.
  unfold fetchAndCacheChannelKeys, start_fetch.
  apply safe_coalesced_wait; [done|]. apply safe_doFetch.
Qed.

Lemma safe_fetched_key i g c : safe_for i g (fetched_key c) (λ _ _, True).
Proof.
  apply s_catch; [|done]. apply safe_seq; [apply safe_fetch|]. intros. apply safe_keys'.
Qed.
Lemma safe_getChannelKey i g c v : safe_for i g (getChannelKey c v) (λ _ _, True).
Proof.
  eapply s_bind; [apply safe_keys'|]. intros g1 [k|] _ _; [done|].
  apply safe_seq; [apply safe_fetch|]. intros g2 _.
  eapply s_bind; [apply safe_keys'|]. by intros g3 [k|] _ _.
Qed.

(** *** Distribution *)

Lemma page_keys_registered l :
  Forall (λ m, m.2 = [] ∨ registered m) l → Forall registered (page_keys l).
Proof.
  intros Hl. unfold page_keys.
  assert (Hgen : ∀ acc, Forall registered acc →
    Forall registered (foldl (λ m e, if bool_decide (e.2 = []) then m else obj_set e.1 e.2 m) acc l)).
  { induction Hl as [|e l He _ IH]; intros acc Hacc; simpl; [done|]. apply IH.
    case_bool_decide as E; [done|]. destruct He as [|He]; [done|].
    apply Forall_forall. intros x [Hx|Hx]%obj_set_elem; [|by rewrite Forall_forall in Hacc; auto].
    subst x. by destruct e. }
  by apply Hgen.
Qed.

Lemma safe_distribute_pages fuel i g c k v cursor :
  g !! (c, v) = Some k → length k = 32 →
  safe_for i g (distribute_pages (random_secret i) (random_nonce i) fuel c k v cursor)
    (λ _ _, True).
Proof.
  intros Hk Hlen. revert g cursor Hk. induction fuel as [|fuel IH]; intros g cursor Hk; [done|].
  eapply s_bind; [apply (s_await i _ (ListMembersWithViewChannel c cursor)
    (λ _ p, Forall (λ m, m.2 = [] ∨ registered m) p.1)); [done|]|].
  - intros g1 g2 p _ Hr _. by apply Hr.
  - intros g1 p H1 Hp. apply safe_seq.
    + case_bool_decide as E; [done|].
      eapply s_bind; [apply safe_wrap_all; [done|by apply page_keys_registered]|].
      intros g2 envs H2 Hs. apply safe_seq; [|done].
      apply (s_await i _ (StoreKeyEnvelopes c v envs) (λ _ _, True)); [|done].
      intros g3 H3. exists k. split; [|done]. eapply lookup_weaken; [exact Hk|].
      by rewrite H1, H2.
    + intros g2 H2. case_bool_decide as E; [done|]. apply safe_seq; [apply safe_pause|].
      intros g3 H3. apply IH. eapply lookup_weaken; [exact Hk|]. by rewrite H1, H2.
Qed.

Lemma safe_send i g c u pub v k :
  registered (u, pub) → g !! (c, v) = Some k → length k = 32 →
  safe_for i g (let* envs := wrap_one (random_secret i) (random_nonce i) c k u pub in
                await (StoreKeyEnvelopes c v envs) ;; Ret true) (λ _ _, True).
Proof.
  intros Hu Hk Hlen. eapply s_bind; [by apply safe_wrap_one|]. intros g1 envs H1 Hs.
  apply safe_seq; [|done].
  apply (s_await i _ (StoreKeyEnvelopes c v envs) (λ _ _, True)); [|done].
  intros g2 H2. exists k. split; [|done]. eapply lookup_weaken; [exact Hk|]. by rewrite H1.
Qed.

(** A key that was read from the cache is the key of its version. *)
Lemma safe_keys_cached i g c v :
  safe_for i g (keys (λ s, cached s c v))
    (λ h o, ∀ k, o = Some k → h !! (c, v) = Some k ∧ length k = 32).
Proof.
  apply safe_keys. intros g1 g2 m _ [_ H2 H3] Hg k Hk. split; [|by eapply H3, H2].
  eapply lookup_weaken; [by apply H2|done].
Qed.

Lemma safe_toMember i g c u pub :
  registered (u, pub) →
  safe_for i g (distributeKeyToMember (random_secret i) (random_nonce i) c u pub) (λ _ _, True).
Proof.
  intros Hu.
  assert (Hsend : ∀ g v, safe_for i g (let* k := keys (λ s, cached s c v) in
    match k with
    | None => Ret true
    | Some key =>
        let* envs := wrap_one (random_secret i) (random_nonce i) c key u pub in
        await (StoreKeyEnvelopes c v envs) ;; Ret true
    end) (λ _ _, True)).
  { intros g0 v. eapply s_bind; [apply safe_keys_cached|].
    intros g1 [k|] _ Hk; [|done]. destruct (Hk k eq_refl). by apply safe_send. }
  eapply s_bind; [apply safe_keys'|]. intros g1 [v|] _ _; [apply Hsend|].
  eapply s_bind; [apply s_catch; [apply safe_fetch|done]|]. intros g2 [] _ _; [|done].
  eapply s_bind; [apply safe_keys'|]. intros g3 [v|] _ _; [apply Hsend|done].
Qed.

Lemma safe_redistribute i g ids :
  safe_for i g (redistributeChannelKeys (random_secret i) (random_nonce i) max_pages ids)
    (λ _ _, True).
Proof.
  apply safe_seq; [|done]. apply s_each. intros c h _ _.
  eapply s_bind; [apply safe_keys'|]. intros g1 [v|] _ _; [|done].
  eapply s_bind; [apply safe_keys_cached|]. intros g2 [k|] _ Hk; [|done].
  destruct (Hk k eq_refl). apply s_catch; [|done]. apply safe_seq; [|done].
  by apply safe_distribute_pages.
Qed.

(** *** Making keys *)

Lemma safe_lazyInit i g c :
  safe_for i g (lazyInitChannelKey (random_key i) (random_secret i) (random_nonce i) max_pages
    c (user i)) (λ _ _, True).
Proof.
  apply safe_coalesced_wait; [done|].
  eapply s_bind; [apply safe_keys'|]. intros g1 [id|] _ _; [|done].
  eapply s_bind; [apply safe_fetched_key|]. intros g2 [] _ _; [done|].
  eapply s_bind; [apply safe_generate|]. intros g3 newKey _ Hlen.
  eapply s_bind; [apply safe_need_identity|]. intros g4 ? _ ->.
  eapply s_bind; [by apply safe_wrap_one|]. intros g5 envs _ Hs.
  apply s_catch; [|intros; apply safe_fetched_key].
  eapply s_bind; [apply (s_await i _ (RotateChannelKey c 0 envs)
    (λ h v, h !! (c, v) = Some newKey)); [intros ? _; by exists newKey|]|].
  - intros g6 g7 v _ Hr Hg. eapply lookup_weaken; [|exact Hg]. by apply Hr.
  - intros g6 v _ Hv. apply safe_seq.
    + apply safe_set_keys. intros g' m Hg Hm.
      apply (client_ok_persist i g' (on_ks (setCachedKey c v newKey) m)).
      apply client_ok_set; [|done]. exact (lookup_weaken _ _ _ _ Hv Hg).
    + intros g7 H7. split; [|done]. apply safe_distribute_pages; [|done].
      exact (lookup_weaken _ _ _ _ Hv H7).
Qed.

Lemma safe_rotate attempts i g c members cur :
  Forall registered members →
  safe_for i g (rotate_attempts (random_key i) (random_secret i) (random_nonce i) attempts c
    members cur) (λ _ _, True).
Proof.
  intros Hm. revert g cur. induction attempts as [|attempts IH]; intros g cur;
    cbn [rotate_attempts].
  all: eapply s_bind; [apply safe_generate|]; intros g1 newKey _ Hlen;
    eapply s_bind; [by apply safe_wrap_all|]; intros g2 envs _ Hs;
    (split; [intros ? _; by exists newKey|]); intros g3 r _ Hr; cbn [bind]; destruct r as [v|err].
  1,3: assert (Hv : g3 !! (c, v) = Some newKey) by (by apply Hr);
    (apply safe_seq; [|done]); apply safe_set_keys; intros g' m Hg Hcm;
    apply (client_ok_persist i g' (on_ks (setCachedKey c v newKey) m));
    (apply client_ok_set; [|done]); exact (lookup_weaken _ _ _ _ Hv Hg).
  - done.
  - apply safe_seq; [apply safe_fetch|]. intros g4 _.
    eapply s_bind; [apply safe_keys'|]. intros g5 [v|] _ _; [|done].
    case_match eqn:E; [apply IH|done].
Qed.

(** *** Prefetching *)

Lemma safe_worker fuel i g qid : safe_for i g (worker fuel qid) (λ _ _, True).
Proof.
  revert g. induction fuel as [|fuel IH]; intros g; [done|].
  eapply (s_bind i g _ _ (λ _ _, True)).
  - intros g1 m _ Hm. case_match eqn:E; [|done]. case_match eqn:E'; [done|].
    split; [|done]. intros ? ? _. by apply client_ok_same_ks.
  - intros g1 [id|] _ _; [|done]. case_bool_decide as E; [done|].
    apply safe_seq; [apply s_catch; [apply safe_fetch|done]|]. intros. apply IH.
Qed.
Lemma safe_prefetch i g ids n : safe_for i g (prefetchChannelKeys ids n) (λ _ _, True).
Proof.
  eapply s_bind; [apply safe_keys'|]. intros g1 q _ _. case_bool_decide as E; [done|].
  eapply (s_bind i g1 _ _ (λ _ _, True)).
  - intros g2 m _ Hm. split; [|done]. intros ? ? _. by apply client_ok_same_ks.
  - intros g2 qid _ _. eapply (s_bind i g2 _ _ (λ _ _, True)).
    + generalize (n `min` length q). intros w. revert g2. induction w as [|w IH]; intros g2; [done|].
      split; [apply safe_worker|]. intros pid.
      eapply s_bind; [apply IH|]. done.
    + intros g3 pids _ _. apply safe_seq; [|done]. apply s_each. intros pid h _ _.
      apply safe_seq; [apply s_wait_for|done].
Qed.

Lemma safe_call i g call s :
  key_event_ok (Calls i call) s → safe_for i g (call_body i call) (λ _ _, True).
Proof.
  destruct call; cbn [call_body key_event_ok]; intros Hok.
  - apply safe_fetch.
  - apply safe_seq; [apply safe_getChannelKey|done].
  - apply safe_lazyInit.
  - by apply safe_toMember.
  - apply safe_redistribute.
  - by apply safe_rotate.
  - apply safe_prefetch.
  - done.
Qed.

(** ** Every step of the system keeps the invariant *)

Lemma on_page_agreed i f s g :
  server_ok g (srv s) → (∀ j, page_ok j g (pages s j)) → page_ok i g (f (pages s i)) →
  agreed (on_page i f s).
Proof.
  intros Hs Hp Hf. exists g. split; [done|]. intros j. simpl.
  destruct (decide (i = j)) as [<-|]; auto.
Qed.

Lemma ext_pages g g' s :
  g ⊆ g' → (∀ cv k, g' !! cv = Some k → length k = 32) →
  (∀ j, page_ok j g (pages s j)) → ∀ j, page_ok j g' (pages s j).
Proof.
  intros Hg Hl Hp j. destruct (Hp j) as [H1 H2]. split; [by eapply client_ok_mono|].
  intros tid p Ht. eapply (s_ext j); [exact Hg|]. by apply (H2 tid).
Qed.

(** A thread that was given its answer, but has not gone on yet *)
Lemma replied_safe i g tid q k r (c : kpage) :
  page_ok i g c → threads c !! tid = Some (Await q k) → resp_ok i g q r →
  page_ok i g (put_thread tid (Await Pause (λ _, k r)) c).
Proof.
  intros Hc Ht Hr. apply put_thread_safe; [|done]. split; [done|]. intros g' r' Hg _.
  eapply (s_ext i); [exact Hg|].
  pose proof (ps_threads _ _ _ _ _ _ Hc _ _ Ht) as [_ Hk]. by apply Hk.
Qed.

Lemma rotated_fresh g c x s v :
  server_ok g s → rotated_version c x s = Some v → g !! (c, v) = None.
Proof.
  intros Hs Hv. apply eq_None_not_Some. intros (n & Hn & Hle)%(so_versions _ _ Hs).
  unfold rotated_version in Hv. rewrite Hn in Hv. repeat case_decide; simplify_eq. lia.
Qed.

(** The server's answer, and a ghost state that accounts for it *)
Lemma serve_ok i g w q s r s' :
  server_ok g s → req_ok g q → Forall (λ m, m.2 = [] ∨ registered m) (memberPage w).1 →
  is_pause q = false → serve (user i) w q s = (r, s') →
  ∃ g', g ⊆ g' ∧ server_ok g' s' ∧ resp_ok i g' q r.
Proof.
  intros Hs Hq Hw Hp. destruct q as [c|c v envs|c x envs|c cursor|]; simpl in *; [| | | |done].
  - intros E. exists g. split; [done|].
    assert (s' = s ∧ ∀ l, r = Ok l → l = get_key_envelopes c (user i) s) as [-> Hr]
      by (repeat case_match; naive_solver).
    split; [done|]. intros l v e Hl Hin. rewrite (Hr l Hl), get_key_envelopes_elem in Hin.
    by apply (so_envelopes _ _ Hs).
  - intros E. exists g. split; [done|]. split; [|done].
    destruct Hq as (k & Hk & Henv).
    assert (s' = s ∨ s' = store_key_envelopes c v envs s) as [->| ->]
      by (repeat case_match; naive_solver); [done|].
    destruct (Hs) as [H1 H2 H3 H4]. destruct (proj1 (H2 c v)) as (n & Hn & _); [by eauto|].
    split; simpl; rewrite ?Hn; [|done..].
    + intros c' u v' e [He|(u' & [= -> -> ->] & Hin)]%upsert_lookup; [by apply H1|].
      exists k. split; [done|]. rewrite Forall_forall in Henv. by apply (Henv (u', e)).
  - destruct Hq as (k & Hlen & Henv). intros E.
    assert ((s' = s ∧ ∃ err, r = Throw err) ∨
      (envs ≠ [] ∧ ∃ v, rotate_channel_key c x envs s = Some (v, s') ∧ r = Ok v))
      as [[-> [err ->]]|(Hne & v & Hrot & ->)].
    { unfold validateEnvelopes in E. repeat case_match; simplify_eq; eauto.
      right. split; [|by eauto]. intros ->. simpl in *. done. }
    { exists g. split; [done|]. split; [done|]. done. }
    pose proof (rotate_spec _ _ _ _ _ _ Hrot) as (Hv & Hcur & Henvs).
    pose proof (rotated_fresh g _ _ _ _ Hs Hv) as Hfresh.
    exists (<[(c, v) := k]> g). split; [by apply insert_subseteq|].
    assert (Hmono : ∀ cv k', g !! cv = Some k' → <[(c, v) := k]> g !! cv = Some k').
    { intros cv k' Hk'. rewrite lookup_insert_ne; [done|]. intros <-. by rewrite Hfresh in Hk'. }
    split.
    + destruct Hs as [H1 H2 H3 H4]. split.
      * intros c' u v' e [He|(u' & [= -> -> ->] & Hin)]%Henvs.
        -- destruct (H1 _ _ _ _ He) as (k' & Hk' & Hsl). exists k'. eauto.
        -- exists k. rewrite lookup_insert_eq. split; [done|].
           rewrite Forall_forall in Henv. by apply (Henv (u', e)).
      * intros c' v'. rewrite Hcur. destruct (decide (c' = c)) as [->|Hc].
        -- rewrite lookup_insert_eq, lookup_insert_is_Some', H2. unfold rotated_version in Hv.
           split.
           ++ intros [[= <-]|(n & Hn & Hle)]; [exists v|exists v]; (split; [done|]);
                [|rewrite Hn in Hv]; repeat case_decide; repeat case_match; simplify_eq; try lia.
              all: specialize (H3 c _ ltac:(eassumption)); lia.
           ++ intros (n & [= <-] & Hle). destruct (decide (v' = v)) as [->|Hvv]; [by left|right].
              repeat case_decide; repeat case_match; simplify_eq; [lia|].
              eexists. split; [reflexivity|]. lia.
        -- rewrite !lookup_insert_ne by congruence. apply H2.
      * intros c' n. rewrite Hcur. intros [[<- <-]|[_ Hn]]%lookup_insert_Some; [|by eapply H3].
        unfold rotated_version in Hv. repeat case_decide; repeat case_match; simplify_eq; [lia|].
        specialize (H3 c _ ltac:(eassumption)); lia.
      * intros cv k' [[_ <-]|[_ ?]]%lookup_insert_Some; eauto.
    + intros v' k' [= <-] Hs'. rewrite lookup_insert_eq. f_equal.
      destruct envs as [|e envs]; [done|]. apply Forall_cons in Henv as [He _].
      apply Forall_cons in Hs' as [He' _]. by eapply sealed_inj.
  - intros E. exists g. split; [done|].
    assert (s' = s ∧ ∀ p, r = Ok p → p = memberPage w) as [-> Hr]
      by (repeat case_match; naive_solver).
    split; [done|]. intros p Hpg. by rewrite (Hr p Hpg).
Qed.

Lemma error_ok i g q err : resp_ok i g q (Throw err).
Proof. by destruct q. Qed.

Lemma agreed_initial : agreed initial.
Proof.
  exists ∅. split.
  - split; simpl; intros *; rewrite ?lookup_empty; try done. split; [by intros []|].
    by intros (n & [=] & _).
  - intros i. apply fresh_page_safe. split; [by left| |done].
    intros c v k. unfold cached. simpl. by rewrite lookup_empty.
Qed.

Lemma on_st_page_ok i g f (c : kpage) :
  (∀ m, client_ok i g m → client_ok i g (f m)) → page_ok i g c → page_ok i g (on_st f c).
Proof. intros Hf [H1 H2]. split; [by apply Hf|done]. Qed.

Lemma agreed_served i tid w lost s :
  Forall (λ m, m.2 = [] ∨ registered m) (memberPage w).1 → agreed s →
  agreed (served i tid w lost s).
Proof.
  intros Hw (g & Hs & Hp). unfold served.
  destruct (threads (pages s i) !! tid) as [[]|] eqn:Ht; try (by exists g).
  destruct (is_pause q) eqn:Eq; [by exists g|].
  destruct (serve (user i) w q (srv s)) as [r srv'] eqn:Es.
  pose proof (ps_threads _ _ _ _ _ _ (Hp i) _ _ Ht) as [Hq _].
  destruct (serve_ok i g w q (srv s) r srv' Hs (Hq g ltac:(done)) Hw Eq Es) as (g' & Hg & Hs' & Hr).
  pose proof (ext_pages g g' s Hg (so_length _ _ Hs') Hp) as Hp'.
  apply (on_page_agreed i _ _ g'); [done..|]. apply replied_safe; [done|done|].
  destruct lost; [apply error_ok|done].
Qed.

Lemma agreed_step e s : key_event_ok e s → agreed s → agreed (key_step e s).
Proof.
  destruct e as [i mk|i|i call|i tid w lost|i tid err|i tid|i tid]; cbn [key_step]; intros Hok Hs.
  4: by apply agreed_served.
  all: destruct Hs as (g & Hs & Hp).
  - apply (on_page_agreed _ _ _ g); [done..|]. apply on_st_page_ok; [|done].
    intros m [H1 H2 H3]. by split; [right| |].
  - apply (on_page_agreed _ _ _ g); [done..|]. apply on_st_page_ok; [|done].
    intros m [H1 H2 H3]. split; [by left| |done]. intros c v k. unfold cached. simpl.
    by rewrite lookup_empty.
  - apply (on_page_agreed _ _ _ g); [done..|]. apply (launch_safe (⊆)); [|done].
    by eapply safe_call.
  - unfold fails. destruct (threads (pages s i) !! tid) as [[]|] eqn:Ht; try (by exists g).
    destruct (is_pause q); [by exists g|].
    apply (on_page_agreed _ _ _ g); [done..|]. apply replied_safe; [done|done|].
    apply error_ok.
  - apply (on_page_agreed _ _ _ g); [done..|]. unfold wakes.
    destruct (threads (pages s i) !! tid) as [[]|] eqn:Ht; try done.
    destruct (is_pause q) eqn:Eq; [|done]. apply (answer_safe (⊆)); [|done].
    intros q' k' Hq'. rewrite Ht in Hq'. simplify_eq. by destruct q'.
  - apply (on_page_agreed _ _ _ g); [done..|]. by apply (settle_safe (⊆)).
Qed.

Lemma reachable_agreed s : reachable s → agreed s.
Proof.
  apply reachable_invariant; [apply agreed_initial|]. intros e s' Hok Hs.
  by apply agreed_step.
Qed.

(** C6: as long as channel keys are made by lazy initialisation and rotation, all clients
    agree on them, whatever requests and answers overtake each other or are lost and
    whoever signs in and out: two clients that hold a version of a channel's key hold the
    same key; and an envelope the server has for that version opens, for the member it is
    addressed to, to that key. *)
Theorem clients_agree_on_keys (s : KeySystem) :
  reachable s →
  ∀ c v i k, cached (ks (st (pages s i))) c v = Some k →
    (∀ j k', cached (ks (st (pages s j))) c v = Some k' → k' = k) ∧
    (∀ u e, envelopes (srv s) !! (c, u, v) = Some e → sealed c k (u, e)).
Proof.
  intros (g & Hs & Hp)%reachable_agreed c v i k Hk.
  pose proof (co_cached _ _ _ (ps_inv _ _ _ _ _ _ (Hp i)) _ _ _ Hk) as Hg. split.
  - intros j k' Hk'. pose proof (co_cached _ _ _ (ps_inv _ _ _ _ _ _ (Hp j)) _ _ _ Hk') as Hg'.
    rewrite Hg in Hg'. by injection Hg'.
  - intros u e He. destruct (so_envelopes _ _ Hs _ _ _ _ He) as (k' & Hk' & Hsl).
    rewrite Hg in Hk'. by injection Hk' as <-.
Qed.
End system.

(** ** Two clients *)

#[local] Existing Instance toy.
#[local] Existing Instance toy_laws.

Definition demo_user (i : nat) : string := match i with 0 => "alice" | _ => "bob" end.
Definition demo_secret_of (u : string) : bytes :=
  replicate 32 (if bool_decide (u = "alice") then 1 else 2)%Z.
Definition demo_key_at (i n : nat) : bytes := replicate 32 (Z.of_nat (100 + 10 * i + n)).
Definition demo_secret_at (i n : nat) : bytes := replicate 32 (Z.of_nat (50 + 10 * i + n)).
Definition demo_nonce_at (i n : nat) : bytes := replicate 12 (Z.of_nat (20 + 10 * i + n)).
Definition demo_c : string := Aad.demo_channel.

#[local] Instance demo_system : Store KeySystem key_event :=
  key_system demo_key_at demo_secret_at demo_nonce_at demo_user demo_secret_of 3.

(** The server lets both see the channel, whose members they are. *)
Definition demo_verdict : Verdict :=
  {| hasView := true; isChannelMember := true; recipientsAreMembers := true;
     memberPage := ((λ u, (u, publicKey (id_of demo_secret_of u))) <$> ["alice"; "bob"], "") |}.
Definition demo_serve (i tid : nat) : list key_event :=
  [Served i tid demo_verdict false; Wakes i tid].
(** A lazy initialisation that finds no key and is about to ask for version 1 *)
Definition demo_asks (i : nat) : list key_event :=
  demo_serve i 2 ++ [Settles i 3; Settles i 1; Wakes i 1].

(** Both start at once; alice's request arrives first; bob's is refused, and what he
    fetches then is the envelope that alice distributed in the meantime. *)
Definition demo_race : list key_event :=
  [SignsIn 0 0; SignsIn 1 0; Calls 0 (LazyInit demo_c); Calls 1 (LazyInit demo_c)] ++
  demo_asks 0 ++ demo_asks 1 ++ demo_serve 0 1 ++ demo_serve 1 1 ++
  demo_serve 0 5 ++ [Wakes 0 5] ++ demo_serve 0 5 ++
  demo_serve 1 5 ++ [Wakes 1 5; Settles 1 6; Settles 1 1].

Definition holds (i : nat) (v : Z) (s : KeySystem) : option bytes :=
  cached (ks (st (pages s i))) demo_c v.

Definition demo_event (e : key_event) : Prop :=
  match e with
  | Served _ _ w _ => w = demo_verdict
  | Calls _ (ToMember _ _ _) | Calls _ (Rotate _ _ _) | Calls _ (Provision _) => False
  | _ => True
  end.
Lemma demo_admissible l (s : KeySystem) : Forall demo_event l → admissible_run l s.
Proof.
  intros Hl. revert s. induction Hl as [|e l He _ IH]; intros s; [done|]. split; [|apply IH].
  destruct e as [| |i []|i tid w lost| | |]; simpl in *; try done. subst w.
  repeat constructor; by right.
Qed.
Lemma demo_race_reachable : reachable (run demo_race initial).
Proof. apply reachable_run, demo_admissible. repeat constructor. Qed.

Lemma clients_agree_on_keys_witness :
  let s := run demo_race initial in
  holds 0 1 s = Some (demo_key_at 0 0) ∧
  (∀ k', holds 1 1 s = Some k' → k' = demo_key_at 0 0) ∧ is_Some (holds 1 1 s) ∧
  (∀ e, envelopes (srv s) !! (demo_c, "bob", 1%Z) = Some e →
     sealed demo_secret_of demo_c (demo_key_at 0 0) ("bob", e)).
Proof.
  assert (H0 : holds 0 1 (run demo_race initial) = Some (demo_key_at 0 0))
    by (vm_compute; reflexivity).
  assert (H3 : is_Some (holds 1 1 (run demo_race initial)))
    by (exists (demo_key_at 0 0); vm_compute; reflexivity).
  assert (Hk : ∀ i n, length (demo_key_at i n) = 32) by (intros; apply length_replicate).
  assert (Hn : ∀ i n, length (demo_nonce_at i n) = 12) by (intros; apply length_replicate).
  assert (Hl : ∀ i n, rejectLowOrderPoint (x_public (demo_secret_at i n)) = Ok tt)
    by (intros; vm_compute; reflexivity).
  generalize demo_race_reachable, H0, H3. generalize (run demo_race initial).
  intros s Hs Hh Hb. unfold holds in *.
  destruct (clients_agree_on_keys demo_key_at demo_secret_at demo_nonce_at demo_user
    demo_secret_of 3 Hk Hn Hl s Hs demo_c 1%Z 0 _ Hh) as [H1 H2].
  split; [exact Hh|]. split; [exact (H1 1)|]. split; [exact Hb|exact (H2 "bob")].
Defined.

(** a channel that is being created can end up with two keys.  Its creator makes
    version 1 alone and uploads it without asking whether there is one; a member who
    opens the channel in the meantime finds no key and has the server make version 1.
    Then each holds a key the other does not have, under the same version, and, having
    one, neither fetches another; the server's envelopes hold whatever came last. *)
Theorem creation_splits_keys :
  ∃ events : list key_event,
    let s := run events initial in
    holds 0 1 s = Some (demo_key_at 0 0) ∧ holds 1 1 s = Some (demo_key_at 1 0) ∧
    demo_key_at 0 0 ≠ demo_key_at 1 0 ∧
    (∃ e, envelopes (srv s) !! (demo_c, "bob", 1%Z) = Some e ∧
       sealed demo_secret_of demo_c (demo_key_at 0 0) ("bob", e)) ∧
    let s' := run [Calls 0 (LazyInit demo_c); Calls 1 (GetKey demo_c 1)] s in
    holds 0 1 s' = holds 0 1 s ∧ holds 1 1 s' = holds 1 1 s.
Proof.
  exists ([SignsIn 0 0; SignsIn 1 0; Calls 0 (Provision demo_c); Calls 1 (LazyInit demo_c)] ++
    demo_asks 1 ++ demo_serve 1 1 ++ demo_serve 0 0 ++ [Wakes 0 0] ++ demo_serve 0 0).
  intros s. subst s. split_and!;
    [vm_compute; reflexivity|vm_compute; reflexivity|by vm_compute| |
     intros s'; subst s'; split; vm_compute; reflexivity].
  match goal with |- ∃ e, envelopes ?t !! ?k = _ ∧ _ => exists (or_default [] (envelopes t !! k)) end.
  split; vm_compute; reflexivity.
Qed.
