(* ===== verification/KeyDistribution.v ===== *)
(** * Whom a channel key reaches ([distributeKeyToAllMembers] of [crypto/channel-keys.ts])

    Following the pages of the member list, the operation sends every member that has
    registered a key an envelope that opens to the channel key.  One member whose key is
    refused stops it for everyone on that page and after. *)

From S2P Require Import KeyPrograms KeyAgreement.

Open Scope meza_scope.

Section distribution.
Context `{CryptoLaws}.
Context (random_secret random_nonce : nat → bytes) (secret_of : string → bytes).
Context (Hnonce : ∀ n, length (random_nonce n) = 12).
Context (Hsecret : ∀ n, rejectLowOrderPoint (x_public (random_secret n)) = Ok tt).

#[local] Notation distribute := (distribute_pages random_secret random_nonce).
#[local] Notation sealed := (sealed secret_of).
#[local] Notation registered := (registered secret_of).

(** How the server answers *)
Context (a : ∀ q, result string (key_answer q)).

(** The pages of the member list, from a cursor to the end *)
Inductive listed (c : string)
    : string → list (list (string * bytes)) → Prop :=
  | listed_last cursor ms :
      a (ListMembersWithViewChannel c cursor) = Ok (ms, "") → listed c cursor [ms]
  | listed_next cursor ms next rest :
      a (ListMembersWithViewChannel c cursor) = Ok (ms, next) → next ≠ "" →
      listed c next rest → listed c cursor (ms :: rest).

(** A registered key that the curve library accepts, whatever the ephemeral secret; and
    one that it never does, such as a point of low order *)
Definition accepted (c : string) (m : string * bytes) : Prop :=
  ∀ n k, ∃ env, wrap_for random_secret random_nonce n c k m = Ok (m.1, env).
Definition refused (c : string) (m : string * bytes) : Prop :=
  ∀ n k, ∃ e, wrap_for random_secret random_nonce n c k m = Throw e.

Lemma page_keys_elem ms u pub :
  (u, pub) ∈ ms → pub ≠ [] → ∃ pub', (u, pub') ∈ page_keys ms.
Proof.
  intros Hin Hne. unfold page_keys.
  assert (Hkeep : ∀ (l acc : list (string * bytes)) p0, (u, p0) ∈ acc →
    ∃ p', (u, p') ∈ foldl (λ m e, if bool_decide (e.2 = []) then m else obj_set e.1 e.2 m) acc l).
  { induction l as [|[u' p'] l IH]; intros acc p0 Hacc; simpl; [eauto|].
    case_bool_decide; [by eapply IH|].
    assert (Hget : is_Some (obj_get u (obj_set u' p' acc))).
    { rewrite obj_get_set. case_decide; [done|]. unfold obj_get.
      destruct (find_key fst u acc) eqn:E; [by eexists|].
      apply find_key_None in E. destruct E. apply list_elem_of_fmap. by exists (u, p0). }
    destruct Hget as [p1 Hp1]. unfold obj_get in Hp1.
    destruct (find_key fst u (obj_set u' p' acc)) as [[u1 p2]|] eqn:E; [|done].
    apply find_key_Some_inv in E as [E Eu]. simpl in Eu. subst u1. by eapply IH. }
  revert Hin. generalize (@nil (string * bytes)).
  induction ms as [|[u' p'] ms IH]; intros acc; [by intros ?%elem_of_nil|].
  intros [[= -> ->]|Hin]%elem_of_cons; simpl; [|by apply IH].
  rewrite bool_decide_eq_false_2 by done. eapply (Hkeep ms _ p').
  assert (Hg : obj_get u' (obj_set u' p' acc) = Some p') by (rewrite obj_get_set; by case_decide).
  unfold obj_get in Hg. destruct (find_key fst u' (obj_set u' p' acc)) as [[u1 p1]|] eqn:E; [|done].
  apply find_key_Some_inv in E as [E Eu]. simpl in *. congruence.
Qed.
Lemma page_keys_from ms x : x ∈ page_keys ms → x ∈ ms ∧ x.2 ≠ [].
Proof.
  unfold page_keys.
  assert (Hgen : ∀ acc, x ∈ foldl (λ m e, if bool_decide (e.2 = []) then m
      else obj_set e.1 e.2 m) acc ms → x ∈ acc ∨ (x ∈ ms ∧ x.2 ≠ [])).
  { induction ms as [|[u p] ms IH]; intros acc; simpl; [auto|]. intros [Hx|[Hx Hn]]%IH.
    - case_bool_decide; [auto|]. apply obj_set_elem in Hx as [->|Hx]; [|auto].
      right. split; [by left|done].
    - right. split; [by right|done]. }
  intros [Hx%elem_of_nil|Hx]%Hgen; done.
Qed.

Lemma wrap_members_total n c k ms :
  Forall (accepted c) ms → is_Some (result_opt (wrap_members random_secret random_nonce n c k ms)).
Proof.
  intros Hm. revert n. induction Hm as [|m ms Hm _ IH]; intros n; [done|]. simpl.
  destruct (Hm n k) as [env ->]. destruct (IH (S n)) as [es Hes]. simpl.
  by destruct (wrap_members _ _ (S n) c k ms).
Qed.
Lemma wrap_members_stops n c k ms m :
  m ∈ ms → refused c m →
  ∃ e, wrap_members random_secret random_nonce n c k ms = Throw e.
Proof.
  intros Hin Hm. revert n. induction ms as [|x ms IH]; intros n; [by apply elem_of_nil in Hin|].
  simpl. destruct (wrap_for _ _ n c k x) as [y|e] eqn:E; simpl; [|by eauto].
  apply elem_of_cons in Hin as [->|Hin]; [destruct (Hm n k) as [e He]; congruence|].
  destruct (IH Hin (S n)) as [e ->]. by eauto.
Qed.

Definition asks_page (q : key_request) : bool :=
  match q with ListMembersWithViewChannel _ _ => true | _ => false end.

(** Requests for pages, and envelopes of [k] *)
Definition only_sends (c : string) (k : bytes) (v : Z) (q : key_request) : Prop :=
  match q with
  | StoreKeyEnvelopes c' v' envs => c' = c ∧ v' = v ∧ Forall (sealed c k) envs
  | ListMembersWithViewChannel c' _ => c' = c
  | Pause => True
  | _ => False
  end.

(** What a page leads to *)
Definition page_ok (c : string) (ms : list (string * bytes)) : Prop :=
  Forall (λ m, m.2 = [] ∨ (registered m ∧ accepted c m)) ms.

Lemma wrap_page n c k ms m :
  length k = 32 → page_ok c ms → a Pause = Ok tt → n = draws (ks m) →
  ∃ envs m', alone a (wrap_all random_secret random_nonce c k (page_keys ms)) m =
      Some ([Pause], Ok envs, m') ∧
    Forall (sealed c k) envs ∧
    (∀ u pub, (u, pub) ∈ ms → pub ≠ [] → ∃ env, (u, env) ∈ envs).
Proof.
  intros Hk Hms Hp ->.
  assert (Hall : Forall (λ x, registered x ∧ accepted c x) (page_keys ms)).
  { apply Forall_forall. intros x [Hx Hn]%page_keys_from. unfold page_ok in Hms.
    rewrite Forall_forall in Hms. destruct (Hms x Hx) as [|Hx']; [done|]. exact Hx'. }
  apply Forall_and in Hall as [Hreg Hacc].
  destruct (wrap_members_total (draws (ks m)) c k _ Hacc) as [envs Henvs].
  destruct (wrap_members _ _ (draws (ks m)) c k (page_keys ms)) as [envs'|] eqn:E; [|done].
  injection Henvs as ->. exists envs. eexists. split.
  - unfold wrap_all. cbn [bind alone]. unfold pause, await. cbn [bind alone].
    rewrite Hp. cbn. rewrite E. done.
  - split.
    + apply (wrap_sealed (λ _, random_secret) (λ _, random_nonce) secret_of (λ _, Hnonce)
        (λ _, Hsecret) 0 (draws (ks m)) c k (page_keys ms)); done.
    + intros u pub Hin Hne. destruct (page_keys_elem ms u pub Hin Hne) as [pub' Hin'].
      destruct (wrap_members_elem _ _ _ _ _ _ _ _ _ E Hin') as (n' & env & _ & Henv).
      by exists env.
Qed.

(** One page: its members with a key are sent theirs, in one request. *)
Lemma send_page c k v ms m :
  length k = 32 → page_ok c ms → a Pause = Ok tt →
  (∀ envs, a (StoreKeyEnvelopes c v envs) = Ok tt) →
  ∃ asked m',
    alone a (if bool_decide (page_keys ms = []) then Ret tt
       else let* envelopes := wrap_all random_secret random_nonce c k (page_keys ms) in
            await (StoreKeyEnvelopes c v envelopes) ;; Ret tt) m = Some (asked, Ok tt, m') ∧
    (∀ u pub, (u, pub) ∈ ms → pub ≠ [] →
       ∃ envs env, StoreKeyEnvelopes c v envs ∈ asked ∧ (u, env) ∈ envs ∧
         sealed c k (u, env)) ∧
    length (filter (λ q, asks_page q = true) asked) = 0 ∧
    Forall (only_sends c k v) asked.
Proof.
  intros Hk Hms Hp Hst. case_bool_decide as E.
  - exists [], m. split; [done|]. split; [|by split].
    intros u pub Hin Hpub. destruct (page_keys_elem ms u pub Hin Hpub) as [pub' Hin'].
    rewrite E in Hin'. by apply elem_of_nil in Hin'.
  - destruct (wrap_page _ c k ms m Hk Hms Hp eq_refl) as (envs & m' & Hw & Hs & Hall).
    exists [Pause; StoreKeyEnvelopes c v envs], m'. split_and!.
    + assert (X : alone a (await (StoreKeyEnvelopes c v envs) ;; Ret tt : kprog unit) m' =
        Some ([StoreKeyEnvelopes c v envs], Ok tt, m'))
        by (unfold await; cbn [bind alone]; by rewrite Hst).
      exact (alone_bind a _ _ _ _ _ _ _ _ _ Hw X).
    + intros u pub Hin Hpub. destruct (Hall u pub Hin Hpub) as [env Henv].
      exists envs, env. split; [set_solver|]. split; [done|].
      rewrite Forall_forall in Hs. by apply (Hs (u, env)).
    + done.
    + by repeat constructor.
Qed.

(** What follows the program of [E], when run alone *)
Ltac then_alone E l m' :=
  lazymatch type of E with
  | alone ?a ?p ?m = Some (_, _, ?m1) =>
      lazymatch goal with
      | |- context [alone a (bind p ?f) m] =>
          assert (X : alone a (f tt) m1 = Some (l, Ok true, m'))
      end
  end.

(** C32: the distribution of a channel key reaches everyone: if the server's member list
    ends within the bound on pages and each request is answered, the operation follows
    the list once from page to page, ends, and has sent every member with a registered
    key an envelope that opens, for this member, to the channel key; it sends nothing
    else. *)
Theorem distribution_reaches_all fuel c k v ps (m : KeyModule) :
  length k = 32 → listed c "" ps → length ps ≤ fuel → Forall (page_ok c) ps →
  a Pause = Ok tt → (∀ envs, a (StoreKeyEnvelopes c v envs) = Ok tt) →
  ∃ asked m', alone a (distribute fuel c k v "") m = Some (asked, Ok true, m') ∧
    (∀ u pub, (u, pub) ∈ concat ps → pub ≠ [] →
       ∃ envs env, StoreKeyEnvelopes c v envs ∈ asked ∧ (u, env) ∈ envs ∧
         sealed c k (u, env)) ∧
    length (filter (λ q, asks_page q = true) asked) = length ps ∧
    Forall (only_sends c k v) asked.
Proof.
  intros Hk Hl Hf Hps Hpause Hstore. revert fuel Hf m.
  induction Hl as [cursor ms Ha|cursor ms next rest Ha Hne Hl IH]; intros [|fuel] Hf m;
    simpl in Hf; try lia.
  - apply Forall_cons in Hps as [Hms _].
    destruct (send_page c k v ms m Hk Hms Hpause Hstore) as (asked & m' & E & H1 & H2 & H3).
    exists (ListMembersWithViewChannel c cursor :: asked), m'. split_and!.
    + cbn [distribute_pages]. unfold await at 1. cbn [bind alone]. rewrite Ha. cbn [bind of_result].
      cbn [fst snd]. then_alone E (@nil key_request) m'; [done|].
      by rewrite (alone_bind a _ _ _ _ _ _ _ _ _ E X), app_nil_r.
    + intros u pub. rewrite concat_cons, app_nil_r. intros Hin Hpub.
      destruct (H1 u pub Hin Hpub) as (envs & env & Hq & Henv & Hs).
      exists envs, env. split; [by right|done].
    + rewrite filter_cons, decide_True by done. simpl. by rewrite H2.
    + by constructor.
  - apply Forall_cons in Hps as [Hms Hps].
    destruct (send_page c k v ms m Hk Hms Hpause Hstore) as (asked & m1 & E & H1 & H2 & H3).
    destruct (IH Hps fuel ltac:(lia) m1) as (asked' & m2 & E' & H1' & H2' & H3').
    exists (ListMembersWithViewChannel c cursor :: asked ++ Pause :: asked'), m2. split_and!.
    + cbn [distribute_pages]. unfold await at 1. cbn [bind alone]. rewrite Ha. cbn [bind of_result].
      cbn [fst snd]. then_alone E (Pause :: asked') m2.
      { rewrite bool_decide_eq_false_2 by done. unfold pause, await. cbn [bind alone].
        rewrite Hpause. cbn [bind of_result]. by rewrite E'. }
      by rewrite (alone_bind a _ _ _ _ _ _ _ _ _ E X).
    + intros u pub. rewrite concat_cons, elem_of_app. intros [Hin|Hin] Hpub.
      * destruct (H1 u pub Hin Hpub) as (envs & env & Hq & Henv & Hs).
        exists envs, env. split; [|done]. right. apply elem_of_app. by left.
      * destruct (H1' u pub Hin Hpub) as (envs & env & Hq & Henv & Hs).
        exists envs, env. split; [|done]. right. apply elem_of_app. right. by right.
    + rewrite filter_cons, decide_True by done. rewrite filter_app, filter_cons. simpl.
      rewrite length_app, H2, H2'. done.
    + constructor; [done|]. apply Forall_app. split; [done|]. by constructor.
Qed.
(** one registered key that the curve library refuses (a point of low order; the
    server checks its length only) stops the distribution before anything is sent, and
    with it that of every later page; and a rotation that is to include this member
    fails before the server is asked. *)
Theorem one_bad_key_stops_distribution fuel attempts random_key c k v cur ms next u pub
    (m : KeyModule) :
  a (ListMembersWithViewChannel c "") = Ok (ms, next) → a Pause = Ok tt →
  NoDup ms.*1 → (u, pub) ∈ ms → pub ≠ [] → refused c (u, pub) →
  (∃ e m', alone a (distribute (S fuel) c k v "") m =
     Some ([ListMembersWithViewChannel c ""; Pause], Throw e, m')) ∧
  (∃ e m', alone a (rotate_attempts random_key random_secret random_nonce attempts c ms cur) m =
     Some ([Pause], Throw e, m')).
Proof.
  intros Ha Hp Hnd Hin Hne Hbad.
  assert (Hin' : (u, pub) ∈ page_keys ms).
  { destruct (page_keys_elem ms u pub Hin Hne) as [pub' Hpub'].
    destruct (page_keys_from ms _ Hpub') as [Hms _].
    assert (pub' = pub) as <-; [|done].
    apply list_elem_of_lookup in Hin as [i Hi]. apply list_elem_of_lookup in Hms as [j Hj].
    assert (i = j) as <-; [|congruence].
    eapply NoDup_lookup; [exact Hnd|rewrite list_lookup_fmap, Hi; done|].
    by rewrite list_lookup_fmap, Hj. }
  split.
  - destruct (wrap_members_stops (draws (ks m)) c k _ _ Hin' Hbad) as [e He].
    exists e. eexists. cbn [distribute_pages]. unfold await at 1. cbn [bind alone]. rewrite Ha.
    cbn [bind of_result fst snd].
    rewrite bool_decide_eq_false_2 by (intros E; rewrite E in Hin'; by apply elem_of_nil in Hin').
    unfold wrap_all, pause, await. cbn [bind alone]. rewrite Hp. cbn [bind of_result alone].
    rewrite He. reflexivity.
  - destruct (wrap_members_stops (S (draws (ks m))) c (random_key (draws (ks m))) _ _ Hin Hbad)
      as [e He].
    exists e. eexists. destruct attempts; cbn [rotate_attempts]; unfold generateChannelKey,
      wrap_all, pause, await; cbn [bind alone]; rewrite Hp; cbn [bind of_result alone ks on_ks count draws];
      rewrite Nat.add_1_r, He; reflexivity.
Qed.
End distribution.

(** ** Handing on the keys of several channels *)

Section redistribution.
Context `{Crypto} (random_secret random_nonce : nat → bytes).
Context (a : ∀ q, result string (key_answer q)).

(** Alone, a program asks only for what [P] allows, and leaves the cached keys alone. *)
Definition within {A} (P : key_request → Prop) (p : kprog A) : Prop :=
  ∀ m, ∃ asked r m', alone a p m = Some (asked, r, m') ∧ Forall P asked ∧
    channelKeyCache (ks m') = channelKeyCache (ks m).

Lemma within_bind {A B} P (p : kprog A) (f : A → kprog B) :
  within P p → (∀ x, within P (f x)) → within P (bind p f).
Proof.
  intros Hp Hf m. destruct (Hp m) as (asked & [x|e] & m1 & E & H1 & C1).
  - destruct (Hf x m1) as (asked' & r & m2 & E' & H2 & C2).
    exists (asked ++ asked'), r, m2. split; [by eapply alone_bind|].
    split; [by apply Forall_app|by rewrite C2].
  - exists asked, (Throw e), m1. split; [by apply alone_bind_raise|done].
Qed.
Lemma within_await P q : P q → within P (await q).
Proof.
  intros Hq m. unfold await. cbn [alone]. destruct (a q); cbn [of_result alone];
    (do 3 eexists; split; [reflexivity|]); (split; [by apply Forall_singleton|done]).
Qed.
Lemma within_pause (P : key_request → Prop) : P Pause → within P pause.
Proof. apply (within_await P Pause). Qed.
Lemma within_of_result {A} P (r : result string A) : within P (of_result r).
Proof.
  intros m. destruct r; cbn [of_result alone]; (do 3 eexists; split; [reflexivity|]);
    by (split; [apply Forall_nil|]).
Qed.
Lemma within_ret {A} P (x : A) : within P (Ret x).
Proof. apply (within_of_result P (Ok x)). Qed.
Lemma within_wrap_all P c key ms :
  P Pause → within P (wrap_all random_secret random_nonce c key ms).
Proof.
  intros HP m. unfold wrap_all. cbn [bind alone].
  destruct (within_bind P pause (λ _, of_result (wrap_members random_secret random_nonce
    (draws (ks m)) c key ms)) (within_await P Pause HP) (λ _, within_of_result P _)
    (on_ks (count 0 (length ms)) m)) as (asked & r & m' & E & H1 & H2).
  by exists asked, r, m'.
Qed.

(** After the first page of a channel's members *)
Definition follows (c : string) (q : key_request) : Prop :=
  match q with
  | ListMembersWithViewChannel c' cursor => c' = c ∧ cursor ≠ ""
  | StoreKeyEnvelopes c' _ _ => c' = c
  | Pause => True
  | _ => False
  end.

Lemma page_within c key v page rest :
  within (follows c) rest →
  within (follows c)
    ((if bool_decide (page_keys page = []) then Ret tt
      else let* envelopes := wrap_all random_secret random_nonce c key (page_keys page) in
           await (StoreKeyEnvelopes c v envelopes) ;; Ret tt) ;; (rest : kprog bool)).
Proof.
  intros Hrest. apply within_bind; [|done]. destruct (bool_decide _); [apply within_ret|].
  apply within_bind; [by apply within_wrap_all|]. intros envs.
  apply within_bind; [by apply within_await|]. intros _. apply within_ret.
Qed.

Lemma pages_within fuel c key v cursor :
  cursor ≠ "" → within (follows c) (distribute_pages random_secret random_nonce fuel c key v cursor).
Proof.
  revert cursor. induction fuel as [|fuel IH]; intros cursor Hc; cbn [distribute_pages].
  { apply (within_of_result _ (Throw _)). }
  apply within_bind; [by apply within_await|]. intros [page next]. apply page_within.
  cbn [snd]. case_bool_decide; [apply within_ret|].
  apply within_bind; [by apply within_pause|]. intros _. by apply IH.
Qed.

(** The members of a channel are asked for from the first page on. *)
Lemma pages_first fuel c key v m :
  ∃ asked r m', alone a (distribute_pages random_secret random_nonce (S fuel) c key v "") m =
      Some (ListMembersWithViewChannel c "" :: asked, r, m') ∧
    Forall (follows c) asked ∧ channelKeyCache (ks m') = channelKeyCache (ks m).
Proof.
  cbn [distribute_pages]. unfold await at 1. cbn [bind alone].
  destruct (a (ListMembersWithViewChannel c "")) as [[page next]|e]; cbn [of_result bind].
  - destruct (page_within c key v page (if bool_decide (next = "") then Ret true
      else pause ;; distribute_pages random_secret random_nonce fuel c key v next) ) with m
      as (asked & r & m' & E & H1 & H2).
    { case_bool_decide; [apply within_ret|].
      apply within_bind; [by apply within_pause|]. intros _. by apply pages_within. }
    exists asked, r, m'. split; [|done].
    exact (f_equal (λ o, '(l, r0, s') ← o;
      Some (ListMembersWithViewChannel c "" :: l, r0, s')) E).
  - cbn [alone]. do 3 eexists. split; [reflexivity|]. by split; [apply Forall_nil|].
Qed.

(** The channels whose members are asked for, in order *)
Definition first_pages : list key_request → list string :=
  omap (λ q, match q with
    | ListMembersWithViewChannel c cursor => if decide (cursor = "") then Some c else None
    | _ => None
    end).
(** What concerns the channels [ids] *)
Definition concerns (ids : list string) (q : key_request) : Prop :=
  match q with
  | ListMembersWithViewChannel c _ | StoreKeyEnvelopes c _ _ => c ∈ ids
  | Pause => True
  | _ => False
  end.

Lemma follows_first c asked : Forall (follows c) asked → first_pages asked = [].
Proof.
  induction 1 as [|q asked Hq Ha IH]; [done|]. destruct q; cbn in *; try done.
  destruct Hq. by rewrite decide_False.
Qed.
Lemma follows_concerns c ids asked :
  c ∈ ids → Forall (follows c) asked → Forall (concerns ids) asked.
Proof.
  intros Hc Ha. eapply Forall_impl; [exact Ha|]. intros [] Hq; cbn in *; try done; [by subst|].
  by destruct Hq as [-> _].
Qed.

Lemma redistribute_one_asks max_pages c m :
  versions_ok (ks m) →
  ∃ asked m', alone a (redistribute_one random_secret random_nonce (S max_pages) c) m =
      Some (asked, Ok tt, m') ∧
    first_pages asked = (if hasChannelKey c (ks m) then [c] else []) ∧
    Forall (concerns [c]) asked ∧ channelKeyCache (ks m') = channelKeyCache (ks m).
Proof.
  intros Hm. unfold redistribute_one, keys. cbn [look bind alone].
  pose proof (getLatest_spec c (ks m)) as Hspec.
  destruct (getLatestKeyVersion c (ks m)) as [v|] eqn:Ev.
  - destruct (Hspec v Hm eq_refl) as [[k Hk] _]. cbn [look bind alone]. rewrite Hk.
    assert (hasChannelKey c (ks m) = true) as ->.
    { unfold getLatestKeyVersion in Ev. unfold hasChannelKey. case_match; [|done].
      case_decide; [done|]. apply bool_decide_eq_true. lia. }
    destruct (pages_first max_pages c k v m) as (asked & r & m' & E & H1 & H2).
    exists (ListMembersWithViewChannel c "" :: asked), m'. split; [|split; [|split; [|done]]].
    + unfold distributeKeyToAllMembers. rewrite <-(app_nil_r (_ :: asked)). destruct r as [b|e].
      * pose proof (alone_bind a _ (λ _, Ret tt) m _ _ _ [] (Ok tt) m' E eq_refl) as E'.
        rewrite app_nil_r in E'. exact (alone_catch a _ (λ _, Ret tt) _ _ _ _ [] _ _ E' eq_refl).
      * pose proof (alone_bind_raise a _ (λ _, Ret tt) m _ _ _ E) as E'.
        exact (alone_catch a _ (λ _, Ret tt) _ _ _ _ [] (Ok tt) m' E' eq_refl).
    + cbn [first_pages omap list_omap]. rewrite decide_True by done.
      f_equal. by apply (follows_first c).
    + constructor; [by apply list_elem_of_singleton|].
      eapply follows_concerns; [|exact H1]. by apply list_elem_of_singleton.
  - exists [], m. split; [done|]. split; [|by split; [apply Forall_nil|]].
    unfold getLatestKeyVersion in Ev. unfold hasChannelKey. case_match; [|done].
    case_decide as Hz; [|done]. rewrite Hz. by rewrite bool_decide_eq_false_2 by lia.
Qed.

(** Redistribution asks for the members of each channel that has a key, in the order of
    the list, goes on after failures, and concerns no other channel. *)
Lemma redistribution_asks max_pages ids m :
  versions_ok (ks m) →
  ∃ asked m', alone a (redistributeChannelKeys random_secret random_nonce (S max_pages) ids) m =
      Some (asked, Ok true, m') ∧
    first_pages asked = filter (λ c, hasChannelKey c (ks m) = true) ids ∧
    Forall (concerns ids) asked.
Proof.
  intros Hm. unfold redistributeChannelKeys.
  assert (Hgo : ∃ asked m',
      alone a (for_each ids (redistribute_one random_secret random_nonce (S max_pages))) m =
        Some (asked, Ok tt, m') ∧
      first_pages asked = filter (λ c, hasChannelKey c (ks m) = true) ids ∧
      Forall (concerns ids) asked).
  { revert m Hm. induction ids as [|c ids IH]; intros m Hm.
    { exists [], m. by split; [|split; [|apply Forall_nil]]. }
    destruct (redistribute_one_asks max_pages c m Hm) as (asked & m1 & E1 & H1 & H2 & C).
    destruct (IH m1) as (asked' & m2 & E2 & H1' & H2').
    { unfold versions_ok. by rewrite C. }
    exists (asked ++ asked'), m2. split; [by eapply alone_bind|]. split.
    - unfold first_pages in *. rewrite omap_app, H1, H1', filter_cons.
      assert (filter (λ x, hasChannelKey x (ks m1) = true) ids =
        filter (λ x, hasChannelKey x (ks m) = true) ids) as ->.
      { apply list_filter_iff. intros x. unfold hasChannelKey. by rewrite C. }
      by destruct (hasChannelKey c (ks m)).
    - apply Forall_app. split; [eapply Forall_impl; [exact H2|]|eapply Forall_impl; [exact H2'|]];
        intros [] Hq; cbn in *; set_solver. }
  destruct Hgo as (asked & m' & E & H1 & H2). exists asked, m'.
  split; [|done]. rewrite <-(app_nil_r asked). by eapply alone_bind.
Qed.
End redistribution.

(** ** Two pages of members, and a member with a bad key *)

#[local] Existing Instance toy.
#[local] Existing Instance toy_laws.

(** Three members, the second without a key, on two pages *)
Definition two_pages : list (list (string * bytes)) :=
  [[("alice", publicKey (id_of demo_secret_of "alice")); ("guest", [])];
   [("bob", publicKey (id_of demo_secret_of "bob"))]].
Definition paging_server (q : key_request) : result string (key_answer q) :=
  match q with
  | ListMembersWithViewChannel _ cursor =>
      if bool_decide (cursor = "") then Ok (or_default [] (two_pages !! 0), "guest")
      else Ok (or_default [] (two_pages !! 1), "")
  | StoreKeyEnvelopes _ _ _ => Ok tt
  | Pause => Ok tt
  | _ => Throw "unexpected"
  end.

Lemma demo_accepted u : registered demo_secret_of u →
  accepted (demo_secret_at 0) (demo_nonce_at 0) demo_c u.
Proof.
  intros Hu n k. destruct u as [u pub]. unfold registered in Hu. simpl in Hu. subst pub.
  eexists. reflexivity.
Qed.

Lemma distribution_reaches_all_witness :
  listed paging_server demo_c "" two_pages ∧
  ∃ asked m', alone paging_server (distribute_pages (demo_secret_at 0) (demo_nonce_at 0) 5
      demo_c (demo_key_at 0 0) 1 "") fresh_module = Some (asked, Ok true, m') ∧
    (∃ envs env, StoreKeyEnvelopes demo_c 1 envs ∈ asked ∧ ("bob", env) ∈ envs ∧
       sealed demo_secret_of demo_c (demo_key_at 0 0) ("bob", env)) ∧
    length (filter (λ q, asks_page q = true) asked) = 2.
Proof.
  assert (Hl : listed paging_server demo_c "" two_pages).
  { apply (listed_next _ _ _ _ "guest"); [reflexivity|done|]. apply listed_last. reflexivity. }
  split; [exact Hl|].
  destruct (distribution_reaches_all (demo_secret_at 0) (demo_nonce_at 0) demo_secret_of
    ltac:(intros; apply length_replicate) ltac:(intros; vm_compute; reflexivity)
    paging_server 5 demo_c (demo_key_at 0 0) 1%Z two_pages fresh_module
    ltac:(apply length_replicate) Hl ltac:(simpl; lia)) as (asked & m' & H1 & H2 & H3 & _).
  - assert (Hm : ∀ u, let m := (u, publicKey (id_of demo_secret_of u)) in
      m.2 = [] ∨ registered demo_secret_of m ∧
        accepted (demo_secret_at 0) (demo_nonce_at 0) demo_c m)
      by (intros u m; right; split; [reflexivity|apply demo_accepted; reflexivity]).
    unfold two_pages, page_ok. rewrite !Forall_cons, !Forall_nil.
    split_and!; try apply Hm; try done. by left.
  - reflexivity.
  - reflexivity.
  - exists asked, m'. split; [exact H1|]. split; [|exact H3].
    apply (H2 "bob" (publicKey (id_of demo_secret_of "bob"))); [|discriminate].
    apply elem_of_app. right. by left.
Defined.

(** The curve library with its check that a point is not of low order *)
Definition strict : Crypto :=
  {| ed_public := toy_public; ed_sign := @ed_sign toy; ed_verify := @ed_verify toy;
     to_montgomery := λ pk, if decide (pk = replicate 32 0%Z) then Throw "bad point"
       else Ok (replicate 32 9%Z);
     to_montgomery_secret := @to_montgomery_secret toy; x_public := @x_public toy;
     x_shared := @x_shared toy; hkdf := @hkdf toy; gcm_encrypt := @gcm_encrypt toy;
     gcm_decrypt := @gcm_decrypt toy |}.

Definition bad_page : list (string * bytes) :=
  [("alice", publicKey (id_of demo_secret_of "alice")); ("mallory", replicate 32 0%Z)].
Definition bad_server (q : key_request) : result string (key_answer q) :=
  match q with
  | ListMembersWithViewChannel _ _ => Ok (bad_page, "")
  | Pause => Ok tt
  | _ => Throw "unexpected"
  end.

Lemma one_bad_key_stops_distribution_witness :
  (∃ e m', alone bad_server (@distribute_pages strict (demo_secret_at 0) (demo_nonce_at 0) 3
     demo_c (demo_key_at 0 0) 1 "") fresh_module =
     Some ([ListMembersWithViewChannel demo_c ""; Pause], Throw e, m')) ∧
  (∃ e m', alone bad_server (@rotateChannelKey strict (demo_key_at 0) (demo_secret_at 0)
     (demo_nonce_at 0) demo_c bad_page 1) fresh_module = Some ([Pause], Throw e, m')).
Proof.
  apply (@one_bad_key_stops_distribution strict (demo_secret_at 0) (demo_nonce_at 0) bad_server 2 1
    (demo_key_at 0) demo_c (demo_key_at 0 0) 1%Z 1%Z bad_page "" "mallory"
    (replicate 32 0%Z) fresh_module).
  - reflexivity.
  - reflexivity.
  - repeat constructor; set_solver.
  - right. by left.
  - discriminate.
  - intros n k. exists "bad point". reflexivity.
Defined.
