(* ===== verification/GatewayKeys.v ===== *)
(** * What the gateway does in the background ([gateway/gateway.ts])

    Some events ask for work that takes several requests: an encrypted message waits for
    its channel's key and for its author's, and is then decrypted in place; a member who
    joins, or asks for a key, is sent the keys.  Every such function remembers the
    generation of the connection it was started under and gives up when another one has
    begun.  [Dispatch] emits these tasks; here they are programs. *)

From S2P Require Export Dispatch KeyPrograms.
From S2P Require Import ChannelKeys Primitives Json DecryptStore.

Open Scope meza_scope.

(** ** State *)

Record Gateway := {
  client : Client;
  fetches : gmap string nat;
  inits : gmap string nat;
  prefetchQueues : gmap nat (list string);
  (** the retries under way, and the queues that the workers of a distribution share *)
  keyRetryInFlight : gmap string nat;
  distributionQueues : gmap nat (list string);
}.
Definition on_client f (s : Gateway) : Gateway :=
  {| client := f (client s); fetches := fetches s; inits := inits s;
     prefetchQueues := prefetchQueues s; keyRetryInFlight := keyRetryInFlight s;
     distributionQueues := distributionQueues s |}.
Definition on_retries f (s : Gateway) : Gateway :=
  {| client := client s; fetches := fetches s; inits := inits s;
     prefetchQueues := prefetchQueues s; keyRetryInFlight := f (keyRetryInFlight s);
     distributionQueues := distributionQueues s |}.
Definition on_distributions f (s : Gateway) : Gateway :=
  {| client := client s; fetches := fetches s; inits := inits s;
     prefetchQueues := prefetchQueues s; keyRetryInFlight := keyRetryInFlight s;
     distributionQueues := f (distributionQueues s) |}.

(** The channel-keys module works on the same state. *)
Definition key_module (s : Gateway) : KeyModule :=
  {| ks := Client.keys (local (client s)); fetchInFlight := fetches s;
     lazyInitInFlight := inits s; queues := prefetchQueues s |}.
Definition on_key_module (f : KeyModule → KeyModule) (s : Gateway) : Gateway :=
  let m := f (key_module s) in
  {| client := Client.on_local (Client.on_keys (λ _, ks m)) (client s);
     fetches := fetchInFlight m; inits := lazyInitInFlight m; prefetchQueues := queues m;
     keyRetryInFlight := keyRetryInFlight s; distributionQueues := distributionQueues s |}.

(** What is awaited: the requests of the key module; the outcome of
    [getOrFetchPublicKey] (a function of [Verification]); timers and promises of the
    platform *)
Inductive gateway_request :=
  | Keys (q : key_request)
  | PublicKeyOf (userId : string)
  | Timer.
Definition gateway_answer (q : gateway_request) : Type :=
  match q with Keys q => key_answer q | PublicKeyOf _ => option bytes | Timer => unit end.
Definition gprog : Type → Type := prog Gateway string bool gateway_answer.
Definition gpage : Type := page Gateway string bool gateway_answer.

Fixpoint on_module {A} (p : kprog A) : gprog A :=
  match p with
  | Ret a => Ret a
  | Raise e => Raise e
  | Look k => Look (λ s, on_module (k (key_module s)))
  | Do f k => Do (on_key_module f) (on_module k)
  | Await q k => Await (Keys q) (λ r : result string (gateway_answer (Keys q)), on_module (k r))
  | Spawn p k => Spawn (on_module p) (λ pid, on_module (k pid))
  | WaitFor pid k => WaitFor pid (λ r, on_module (k r))
  end.

Definition has_key_of (c : string) (s : Gateway) : bool :=
  hasChannelKey c (Client.keys (local (client s))).

(** ** Retrying *)

(** [gen !== generation] *)
Definition stale (gen : Z) (s : Gateway) : bool := negb (gen_of (client s) =? gen)%Z.

(** Other parts of the client change its state.  [disconnect], with which [connect] begins,
    is what moves the generation on; it also forgets the retries under way, which are not
    stopped by that. *)
Definition changed (f : Client → Client) (s : Gateway) : Gateway :=
  let s' := on_client f s in
  if stale (gen_of (client s)) s' then on_retries (λ _, ∅) s' else s'.

Definition outcome {A} (p : gprog A) : gprog (result string A) :=
  catch (let* a := p in Ret (Ok a)) (λ e, Ret (Throw e)).

(** The loop of [retryWithBackoff], with [more] attempts after this one; the signal is the
    generation, and every error is retried. *)
Fixpoint retry {A} (more : nat) (fn : gprog A) (gen : Z) : gprog A :=
  Look (λ s,
    if stale gen s then Raise "Cancelled"
    else
      let* r := outcome (let* a := fn in
        Look (λ s, if stale gen s then Raise "Cancelled" else Ret a)) in
      match r with
      | Ok a => Ret a
      | Throw err =>
          Look (λ s,
            if stale gen s then Raise err
            else
              match more with
              | 0 => Raise err
              | S more =>
                  await Timer ;;
                  Look (λ s, if stale gen s then Raise err else retry more fn gen)
              end)
      end).

Definition fetchPublicKeyWithRetry (userId : string) (gen : Z) : gprog (option bytes) :=
  catch
    (let* pk := retry 2
       (let* pk := await (PublicKeyOf userId) in
        match pk : option bytes with
        | Some pk => Ret pk
        | None => Raise "public key not available"
        end) gen in
     Ret (Some pk))
    (λ _, Ret None).

Section background.
Context `{Crypto}.
Context (localeCompare : string → string → Z) (self : string).
Context (parse : string → result unit json) (to_string : json → string).
Context (random_secret random_nonce : nat → bytes) (max_pages : nat).

(** ** The key of a channel *)

Definition fetch_and_look (c : string) : gprog bool :=
  on_module (KeyPrograms.fetchAndCacheChannelKeys c) ;;
  Look (λ s, if has_key_of c s then Ret true else Raise "key not yet available").
(** The promise of [retryWithBackoff], and of the function around it *)
Definition key_retry (c : string) (gen : Z) : gprog bool := retry 2 (fetch_and_look c) gen.
Definition key_promise (c : string) (gen : Z) : gprog bool :=
  Spawn (key_retry c gen) (λ p,
    let* ok := catch (wait_for p ;; look (has_key_of c)) (λ _, Ret false) in
    Do (on_retries (delete c)) (Ret ok)).
Definition ensureChannelKey (c : string) (gen : Z) : gprog bool :=
  Look (λ s,
    if has_key_of c s then Ret true
    else
      match keyRetryInFlight s !! c with
      | Some existing => wait_for existing
      | None =>
          Spawn (key_promise c gen) (λ promise,
          Do (on_retries <[c := promise]>) (wait_for promise))
      end).

(** ** Decryption *)

(** The keys of the page, as the decryption sees them; it signs nothing, and the cache of
    imported keys changes no result. *)
Definition crypto_of (s : Gateway) : CryptoState :=
  {| E2ee.identity := None; E2ee.keys := Client.keys (local (client s)); aesKeyCache := ∅ |}.
(** The key has been fetched before. *)
Definition no_fetch (n : nat) (c : string) : result string (list (Z * bytes)) :=
  Throw "not needed".

(** The message is written, unless it is gone or has been decrypted, and indexed. *)
Definition write_plaintext (c id : string) (parsed : ParsedMessageContent) (s : Client) : Client :=
  match finish to_string c id parsed (messages s) with
  | Some m =>
      emit [IndexIncoming c m]
        (Client.act localeCompare self C_messages (Messages.UpdateMessage c m) s)
  | None => s
  end.
Definition decryptAndUpdateMessage (c : string) (msg : Message) (pk : bytes) : gprog bool :=
  on_module (KeyPrograms.getChannelKey c (m_keyVersion msg)) ;;
  Look (λ s,
    let r := (open_message no_fetch parse c msg pk (crypto_of s)).1 in
    await Timer ;;
    let* parsed := of_result r in
    Do (on_client (write_plaintext c (m_id msg) parsed)) (Ret true)).

Definition decryptInBackground (c : string) (msg : Message) (gen : Z) : gprog bool :=
  Look (λ s,
    if stale gen s then Ret true
    else
      Spawn (ensureChannelKey c gen) (λ promise,
      let* ok := wait_for promise in
      if negb ok then Ret true
      else
        Look (λ s,
          if stale gen s then Ret true
          else
            catch
              (let* pubKey := await (PublicKeyOf (m_authorId msg)) in
               match pubKey : option bytes with
               | None => Ret true
               | Some pk =>
                   Look (λ s, if stale gen s then Ret true
                              else decryptAndUpdateMessage c msg pk)
               end)
              (λ _, Ret true)))).

(** ** Keys for others *)

Definition send_key (c userId : string) (pk : bytes) : gprog bool :=
  on_module (distributeKeyToMember random_secret random_nonce c userId pk).

Definition public_channels (serverId : string) (s : Gateway) : list string :=
  ch_id <$> filter (λ ch, ch_isPrivate ch = false)
    (or_default [] (Channels.byServer (channels (client s)) !! serverId)).

(** [queue.shift()] *)
Definition shift (qid : nat) : gprog (option string) :=
  Look (λ s,
    match distributionQueues s !! qid with
    | Some (id :: rest) => Do (on_distributions <[qid := rest]>) (Ret (Some id))
    | _ => Ret None
    end).
(** A worker takes at most as many channels as the queue had at first. *)
Fixpoint distributeWorker (fuel qid : nat) (userId : string) (pk : bytes) : gprog bool :=
  match fuel with
  | 0 => Ret true
  | S fuel =>
      let* id := shift qid in
      match id with
      | None => Ret true
      | Some id =>
          catch (send_key id userId pk) (λ _, Ret true) ;; distributeWorker fuel qid userId pk
      end
  end.
Fixpoint start_workers (n fuel qid : nat) (userId : string) (pk : bytes) : gprog (list nat) :=
  match n with
  | 0 => Ret []
  | S n => Spawn (distributeWorker fuel qid userId pk) (λ pid,
             let* pids := start_workers n fuel qid userId pk in Ret (pid :: pids))
  end.
Definition distribute_all (serverId userId : string) (pk : bytes) : gprog bool :=
  Look (λ s,
    let queue := public_channels serverId s in
    let qid := fresh (dom (distributionQueues s)) in
    Do (on_distributions <[qid := queue]>)
      (let* pids := start_workers (5 `min` length queue) (length queue) qid userId pk in
       for_each pids (λ pid, wait_for pid ;; Ret tt) ;; Ret true)).

(** [memberJoin], after the timer *)
Definition distribute_to_joiner (serverId userId : string) (gen : Z) : gprog bool :=
  await Timer ;;
  Look (λ s,
    if stale gen s then Ret true
    else
      catch
        (let* pk := fetchPublicKeyWithRetry userId gen in
         match pk with
         | None => Ret true
         | Some pk => Look (λ s, if stale gen s then Ret true else distribute_all serverId userId pk)
         end)
        (λ _, Ret true)).
(** [channelMemberAdd], and [keyRequest] after its timer *)
Definition distribute_to_member (c userId : string) (gen : Z) : gprog bool :=
  let* pk := fetchPublicKeyWithRetry userId gen in
  match pk with
  | None => Ret true
  | Some pk =>
      Look (λ s, if stale gen s then Ret true
                 else catch (send_key c userId pk) (λ _, Ret true))
  end.
Definition answer_key_request (c userId : string) (gen : Z) : gprog bool :=
  await Timer ;;
  Look (λ s, if stale gen s then Ret true else distribute_to_member c userId gen).

(** What an event has asked for *)
Definition task (e : effect) : gprog bool :=
  match e with
  | DecryptInBackground c msg gen => decryptInBackground c msg gen
  | DistributeToJoiner sid u _ gen => distribute_to_joiner sid u gen
  | DistributeToMember c u gen => distribute_to_member c u gen
  | AnswerKeyRequest c u gen => answer_key_request c u gen
  | PrefetchKeys ids gen _ =>
      Look (λ s, if stale gen s then Ret true else on_module (prefetchChannelKeys ids 5))
  | RedistributeKeys ids =>
      on_module (redistributeChannelKeys random_secret random_nonce max_pages ids)
  | _ => Ret true
  end.
End background.

(** ** What the tasks come to *)

Section facts.
Context `{Crypto} `{!CryptoLaws}.
Context (localeCompare : string → string → Z) (self : string).
Context (parse : string → result unit json) (to_string : json → string).
Context (random_secret random_nonce : nat → bytes).

#[local] Notation decrypt := (decryptInBackground localeCompare self parse to_string).
#[local] Notation joiner := (distribute_to_joiner random_secret random_nonce).
#[local] Notation written c id parsed :=
  (on_st (on_client (write_plaintext localeCompare self to_string c id parsed))).

(** *** Decryption *)

Lemma decrypts_with_key c msg pk k (P : gpage) :
  cached (Client.keys (local (client (st P)))) c (m_keyVersion msg) = Some k →
  ∃ j, Programs.exec (catch
      (decryptAndUpdateMessage localeCompare self parse to_string c msg pk) (λ _, Ret true)) P =
    (Await Timer j, P) ∧
  ∀ Q, Programs.exec (j (Ok tt)) Q =
    (Ret true,
     match (open_message no_fetch parse c msg pk (crypto_of (st P))).1 with
     | Ok parsed => written c (m_id msg) parsed Q
     | Throw _ => Q
     end).
Proof.
  intros Hk. unfold decryptAndUpdateMessage, KeyPrograms.getChannelKey. cbn.
  rewrite Hk. cbn. eexists. split; [reflexivity|]. intros Q. cbn.
  by destruct (open_message _ _ _ _ _ _).1.
Qed.

(** A member of the channel has encrypted [txt] as [msg], and this page has the key. *)
Definition sent_as (c : string) (msg : Message) (pk : bytes) (txt : string) (s : Gateway) : Prop :=
  ∃ (K : bytes → Prop) stringify btoa alice v k nonce id e,
  keys_ok K ∧ E2ee.identity alice = Some id ∧ publicKey id = ed_public (secretKey id) ∧
  pk = publicKey id ∧ getLatestKeyVersion c (E2ee.keys alice) = Some v ∧
  holds_key K alice c v k ∧ holds_key K (crypto_of s) c v k ∧ length nonce = 12 ∧
  parse (stringify (content_json btoa txt [])) = Ok (content_json btoa txt []) ∧
  (encryptMessage no_fetch nonce c (buildMessageContent stringify btoa txt []) alice).1 = Ok e ∧
  m_keyVersion msg = E2ee.keyVersion e ∧ m_encryptedContent msg = E2ee.data e.
Lemma sent_shown c msg pk txt s cl stored :
  sent_as c msg pk txt s → Messages.consistent (messages cl) →
  Messages.indexed c (m_id msg) (messages cl) = Some stored → m_keyVersion stored ≠ 0%Z →
  ∃ parsed, (open_message no_fetch parse c msg pk (crypto_of s)).1 = Ok parsed ∧
    shown_text c (m_id msg)
      (messages (write_plaintext localeCompare self to_string c (m_id msg) parsed cl)) =
    Some (utf8 txt, 0%Z).
Proof.
  intros (K & stringify & btoa & alice & v & k & nonce & id & e & HK & Hid & Hpk & -> & Hl & Ha &
    Hb & Hn & Hj & He & Hv & Hd) Hcons Hst Hv0.
  destruct (sent_opens no_fetch stringify parse btoa K HK alice (crypto_of s) c v k nonce id txt
    msg e) as [cs Ho]; [done..|].
  eexists. rewrite Ho. split; [reflexivity|]. unfold write_plaintext.
  destruct (written_shows to_string c (m_id msg)
    {| text := Some (JStr txt); attachmentMeta := None |} (messages cl) stored txt) as [Hf Hw];
    [done..|].
  rewrite Hf. exact Hw.
Qed.

(** C7: what becomes of an encrypted message that arrives.  Its task does nothing when the
    connection has been replaced; otherwise it waits for the channel's key and, unless
    the key is not to be had or the connection has been replaced by then, for its
    author's; when that is there too, and the connection is still the same, the message
    is decrypted and, whatever has happened meanwhile, written into the store and
    indexed.  A message that a member of the channel has encrypted is shown as the text
    that was sent. *)
Theorem arrival_decrypted c msg gen (P : gpage) :
  (stale gen (st P) = true → Programs.exec (decrypt c msg gen) P = (Ret true, P)) ∧
  (stale gen (st P) = false →
    let '(p, P1) := Programs.exec (ensureChannelKey c gen) (reserve P) in
    ∃ j, Programs.exec (decrypt c msg gen) P = (WaitFor (next P) j, put_thread (next P) p P1) ∧
    (∀ Q, Programs.exec (j (Ok false)) Q = (Ret true, Q)) ∧
    (∀ Q, stale gen (st Q) = true → Programs.exec (j (Ok true)) Q = (Ret true, Q)) ∧
    ∀ Q, stale gen (st Q) = false →
      ∃ j1, Programs.exec (j (Ok true)) Q = (Await (PublicKeyOf (m_authorId msg)) j1, Q) ∧
      (∀ r Q1, (∀ pk, r = Ok (Some pk) → stale gen (st Q1) = true) →
        Programs.exec (j1 r) Q1 = (Ret true, Q1)) ∧
      ∀ pk Q1 k, stale gen (st Q1) = false →
        cached (Client.keys (local (client (st Q1)))) c (m_keyVersion msg) = Some k →
        ∃ j2, Programs.exec (j1 (Ok (Some pk))) Q1 = (Await Timer j2, Q1) ∧
        ∀ Q2, Programs.exec (j2 (Ok tt)) Q2 =
          (Ret true,
           match (open_message no_fetch parse c msg pk (crypto_of (st Q1))).1 with
           | Ok parsed => written c (m_id msg) parsed Q2
           | Throw _ => Q2
           end) ∧
        (∀ txt cl stored, sent_as c msg pk txt (st Q1) → client (st Q2) = cl →
          Messages.consistent (messages cl) →
          Messages.indexed c (m_id msg) (messages cl) = Some stored →
          m_keyVersion stored ≠ 0%Z →
          shown_text c (m_id msg) (messages (client (st (Programs.exec (j2 (Ok tt)) Q2).2))) =
            Some (utf8 txt, 0%Z))).
Proof.
  unfold decrypt. cbn [Programs.exec]. split.
  - intros ->. done.
  - intros ->. cbn [Programs.exec]. destruct (Programs.exec (ensureChannelKey c gen) (reserve P)) as [p P1].
    eexists. split; [reflexivity|]. split; [done|]. split.
    + intros Q Hq. cbn. by rewrite Hq.
    + intros Q Hq. cbn. rewrite Hq. eexists. split; [reflexivity|]. split.
      * intros r Q1 Hr. destruct r as [[pk|]|e]; cbn; try done. by rewrite (Hr pk).
      * intros pk Q1 k Hs Hk.
        destruct (decrypts_with_key c msg pk k Q1 Hk) as (j2 & Ej & Hj). exists j2. split.
        { cbn. rewrite Hs. exact Ej. }
        intros Q2. split; [apply Hj|]. intros txt cl stored Hsent Hcl Hcons Hst Hv.
        destruct (sent_shown c msg pk txt (st Q1) cl stored) as (parsed & Ho & Hshow); [done..|].
        rewrite Hj, Ho. cbn. by rewrite Hcl.
Qed.
End facts.
(** *** Whose keys a member who joins is sent *)

Section joiners.
Context `{Crypto}.
Context (localeCompare : string → string → Z) (self : string).
Context (parse : string → result unit json) (to_string : json → string).
Context (random_secret random_nonce : nat → bytes).

#[local] Notation decrypt := (decryptInBackground localeCompare self parse to_string).
#[local] Notation joiner := (distribute_to_joiner random_secret random_nonce).

(** The server that is joined; its channels that have been listed as not private *)
Context (sid : string).
Definition listed_public (s : Gateway) (c : string) : Prop :=
  ∃ l ch, Channels.byServer (channels (client s)) !! sid = Some l ∧ ch ∈ l ∧
    ch_isPrivate ch = false ∧ ch_id ch = c.
Lemma public_listed c s : c ∈ public_channels sid s → listed_public s c.
Proof.
  unfold public_channels. intros (ch & -> & [Hp Hc]%list_elem_of_filter)%list_elem_of_fmap.
  destruct (Channels.byServer _ !! sid) as [l|] eqn:E; [by exists l, ch|].
  by apply not_elem_of_nil in Hc.
Qed.
Definition Seen : Type := string → Prop.
Definition grows (g g' : Seen) : Prop := ∀ c, g c → g' c.
#[local] Instance grows_preorder : PreOrder grows.
Proof. split; [by intros g c|]. intros g1 g2 g3 H1 H2 c Hc. by apply H2, H1. Qed.

Definition lists_seen (g : Seen) (s : Gateway) : Prop :=
  (∀ c, listed_public s c → g c) ∧
  (∀ qid l, distributionQueues s !! qid = Some l → ∀ c, c ∈ l → g c).
(** Keys are stored for channels that have been seen only. *)
Definition sends_seen (g : Seen) (q : gateway_request) : Prop :=
  match q with Keys (StoreKeyEnvelopes c _ _) => g c | _ => True end.
#[local] Notation ok := (safe grows lists_seen sends_seen (λ _ _ _, True)).
#[local] Notation ok' g p := (ok g p (λ _ _, True)).

(** A program of the key module that stores envelopes for the channels of [P] only *)
Fixpoint stores_only {A} (P : string → Prop) (p : kprog A) : Prop :=
  match p with
  | Ret _ | Raise _ => True
  | Look k => ∀ m, stores_only P (k m)
  | Do f k => stores_only P k
  | Await q k => (match q with StoreKeyEnvelopes c _ _ => P c | _ => True end) ∧
                 ∀ r, stores_only P (k r)
  | Spawn p k => stores_only P p ∧ ∀ pid, stores_only P (k pid)
  | WaitFor pid k => ∀ r, stores_only P (k r)
  end.
Lemma only_bind {A B} P (p : kprog A) (f : A → kprog B) :
  stores_only P p → (∀ a, stores_only P (f a)) → stores_only P (bind p f).
Proof. induction p; cbn; naive_solver. Qed.
Lemma only_catch {A} P (p : kprog A) f :
  stores_only P p → (∀ e, stores_only P (f e)) → stores_only P (catch p f).
Proof. induction p; cbn; naive_solver. Qed.
Lemma only_result {A} P (r : result string A) : stores_only P (of_result r).
Proof. by destruct r. Qed.
Lemma only_each {A} P (l : list A) f : (∀ x, stores_only P (f x)) → stores_only P (for_each l f).
Proof. intros Hf. induction l as [|x l IH]; [done|]. by apply only_bind. Qed.

Lemma only_fetch P c : stores_only P (KeyPrograms.fetchAndCacheChannelKeys c).
Proof.
  unfold KeyPrograms.fetchAndCacheChannelKeys, start_fetch, coalesce. cbn. intros m.
  destruct (fetchInFlight m !! c); cbn; [intros r; apply only_result|].
  split.
  - unfold doFetchAndCache. cbn. intros m'. destruct (identityKeypair (ks m')); [|done]. cbn.
    split; [done|]. intros [[|e l]|]; [done| |done]. cbn [of_result bind].
    apply only_bind; [|done]. apply (only_each P (e :: l)). intros x. unfold cache_envelope.
    apply only_bind; [|intros id; apply only_bind; [apply only_result|]].
    + unfold need_identity. cbn. intros m2. by destruct (identityKeypair (ks m2)).
    + intros aad. cbn. split; [done|]. intros r. apply only_bind; [apply only_result|].
      intros _. apply only_bind; [apply only_result|]. done.
  - intros pid. cbn. split; [intros r; apply only_result|]. intros pid' r. apply only_result.
Qed.
Lemma only_distribute c u pk :
  stores_only (λ c', c' = c) (distributeKeyToMember random_secret random_nonce c u pk).
Proof.
  unfold distributeKeyToMember.
  assert (∀ v, stores_only (λ c', c' = c)
    (let* k := KeyPrograms.keys (λ s, cached s c v) in
     match k with
     | None => Ret true
     | Some key =>
         let* envs := wrap_one random_secret random_nonce c key u pk in
         await (StoreKeyEnvelopes c v envs) ;; Ret true
     end)) as Hsend.
  { intros v. cbn. intros m. destruct (cached (ks m) c v); [|done]. cbn. intros m'.
    split; [done|]. intros r. apply only_bind.
    - apply only_bind; [apply only_result|]. intros _. apply only_result.
    - intros envs. cbn. split; [done|]. intros r'. apply only_bind; [apply only_result|done]. }
  cbn [bind]. unfold KeyPrograms.keys at 1. cbn [look bind stores_only]. intros m.
  destruct (getLatestKeyVersion c (ks m)); [apply Hsend|].
  apply only_bind; [apply only_catch; [apply only_fetch|done]|]. intros [|]; [|done].
  cbn [negb]. unfold KeyPrograms.keys at 1. cbn [look bind stores_only]. intros m'.
  destruct (getLatestKeyVersion c (ks m')); [apply Hsend|done].
Qed.

Lemma lists_seen_module g f s : lists_seen g s → lists_seen g (on_key_module f s).
Proof. done. Qed.
Lemma ok_on_module {A} P (p : kprog A) g :
  stores_only P p → (∀ c, P c → g c) → ok' g (on_module p).
Proof.
  revert g. induction p as [A a|A e|A k IH|A f k IH|A q k IH|A p IHp k IH|A pid k IH];
    intros g; cbn [stores_only on_module safe]; intros Hp Hg; try done.
  - intros g' s Hg' Hs. apply IH; [done|]. intros c Hc. by apply Hg', Hg.
  - split; [|by apply IH]. intros g' s _. apply lists_seen_module.
  - destruct Hp as [Hq Hk]. split.
    + intros g' Hg'. destruct q; cbn; try done. by apply Hg', Hg.
    + intros g' r Hg' _. apply IH; [done|]. intros c Hc. by apply Hg', Hg.
  - destruct Hp as [H1 H2]. split; [by apply IHp|]. intros pid. by apply IH.
  - intros g' r Hg'. apply IH; [done|]. intros c Hc. by apply Hg', Hg.
Qed.
Lemma ok_fetch c g : ok' g (on_module (KeyPrograms.fetchAndCacheChannelKeys c)).
Proof. by apply (ok_on_module (λ _, False)); [apply only_fetch|]. Qed.

Lemma lists_seen_messages g f s :
  channels (f (client s)) = channels (client s) → lists_seen g s → lists_seen g (on_client f s).
Proof.
  intros Hf [H1 H2]. split; [|done]. intros c. unfold listed_public. cbn.
  rewrite Hf. apply H1.
Qed.
Lemma changed_parts f s :
  client (changed f s) = f (client s) ∧ distributionQueues (changed f s) = distributionQueues s.
Proof. unfold changed. by case_match. Qed.

Lemma ok_bind {A B} (p : gprog A) (f : A → gprog B) g :
  ok' g p → (∀ h a, grows g h → ok' h (f a)) → ok' g (bind p f).
Proof. intros Hp Hf. eapply (safe_bind grows); [exact Hp|]. intros h a Hh _. by apply Hf. Qed.
Lemma ok_catch {A} (p : gprog A) (f : string → gprog A) g :
  ok' g p → (∀ h e, grows g h → ok' h (f e)) → ok' g (catch p f).
Proof. apply (safe_catch grows). Qed.
Lemma ok_look {A} (k : Gateway → gprog A) g :
  (∀ h s, grows g h → lists_seen h s → ok' h (k s)) → ok' g (Look k).
Proof. intros Hk h s. apply Hk. Qed.
Lemma ok_result {A} (r : result string A) g : ok' g (of_result r : gprog A).
Proof. by destruct r. Qed.
Lemma ok_timer g : ok' g (await Timer : gprog unit).
Proof. split; [done|]. intros h r _ _. apply ok_result. Qed.
Lemma ok_public_key u g : ok' g (await (PublicKeyOf u) : gprog (option bytes)).
Proof. split; [done|]. intros h r _ _. apply ok_result. Qed.
Lemma ok_wait pid g : ok' g (wait_for pid : gprog bool).
Proof. intros h r _. apply ok_result. Qed.
Lemma ok_unless_stale {A} gen (x y : gprog A) g :
  (∀ h, grows g h → ok' h x) → (∀ h s, grows g h → lists_seen h s → ok' h y) →
  ok' g (Look (λ s, if stale gen s then x else y)).
Proof. intros Hx Hy. apply ok_look. intros h s Hh Hs. destruct (stale gen s); eauto. Qed.

Lemma ok_retry {A} n (fn : gprog A) gen g : (∀ h, grows g h → ok' h fn) → ok' g (retry n fn gen).
Proof.
  revert g. induction n as [|n IH]; intros g Hfn; apply ok_unless_stale; try done;
    intros h _ Hh _.
  all: apply ok_bind; [apply ok_catch; [|done]; apply ok_bind; [|done];
    apply ok_bind; [by apply Hfn|intros; by apply ok_unless_stale]|].
  all: intros h1 [a|e] Hh1; [done|]; apply ok_unless_stale; try done.
  intros h2 _ Hh2 _. apply ok_bind; [apply ok_timer|]. intros h3 _ Hh3.
  apply ok_unless_stale; [done|]. intros h4 _ Hh4 _. apply IH. intros h5 Hh5. apply Hfn.
  by do 5 (etrans; [eassumption|]).
Qed.
Lemma ok_fetchPublicKey u gen g : ok' g (fetchPublicKeyWithRetry u gen).
Proof.
  apply ok_catch; [|done]. apply ok_bind; [|done]. apply ok_retry. intros h _.
  apply ok_bind; [apply ok_public_key|]. by intros h1 [] _.
Qed.

Lemma ok_send c u pk g : g c → ok' g (send_key random_secret random_nonce c u pk).
Proof. intros Hc. eapply ok_on_module; [apply only_distribute|]. by intros c' ->. Qed.

Lemma ok_shift qid g : ok g (shift qid) (λ h o, ∀ c, o = Some c → h c).
Proof.
  intros h s Hh Hs. destruct (distributionQueues s !! qid) as [[|id l]|] eqn:E; try done.
  split.
  - intros h' s' Hh' [H1 H2]. split; [done|]. intros q l'. cbn.
    rewrite lookup_insert. case_decide; [intros [= <-]|apply H2].
    intros c Hc. apply Hh'. apply (proj2 Hs _ _ E). by right.
  - intros h' Hh' c [= <-]. apply Hh'. apply (proj2 Hs _ _ E). by left.
Qed.
Lemma ok_worker n qid u pk g : ok' g (distributeWorker random_secret random_nonce n qid u pk).
Proof.
  revert g. induction n as [|n IH]; intros g; [done|]. cbn [distributeWorker].
  eapply (safe_bind grows); [apply ok_shift|]. intros h [id|] Hh Hid; [|done].
  apply ok_bind; [|intros; apply IH]. apply ok_catch; [|done]. by apply ok_send, Hid.
Qed.
Lemma ok_start m n qid u pk g : ok' g (start_workers random_secret random_nonce m n qid u pk).
Proof.
  revert g. induction m as [|m IH]; intros g; [done|]. cbn [start_workers safe].
  split; [apply ok_worker|]. intros pid. apply ok_bind; [apply IH|done].
Qed.
Lemma ok_distribute_all u pk g :
  ok' g (distribute_all random_secret random_nonce sid u pk).
Proof.
  apply ok_look. intros h s Hh [Hs _]. cbn [safe]. split.
  - intros h' s' Hh' [H1 H2]. split; [done|]. intros q l. cbn.
    rewrite lookup_insert. case_decide; [intros [= <-]|apply H2].
    intros c Hc. by apply Hh', Hs, public_listed.
  - apply ok_bind; [apply ok_start|]. intros h' pids Hh'. apply ok_bind; [|done].
    apply (safe_for_each grows). intros pid h2 _ _. apply ok_bind; [apply ok_wait|done].
Qed.
Lemma ok_joiner u gen g : ok' g (joiner sid u gen).
Proof.
  apply ok_bind; [apply ok_timer|]. intros h _ _. apply ok_unless_stale; [done|].
  intros h1 _ _ _. apply ok_catch; [|done]. apply ok_bind; [apply ok_fetchPublicKey|].
  intros h2 [pk|] _; [|done]. apply ok_unless_stale; [done|].
  intros h3 _ _ _. apply ok_distribute_all.
Qed.

Lemma ok_ensure c gen g : ok' g (ensureChannelKey c gen).
Proof.
  apply ok_look. intros h s Hh _. destruct (has_key_of c s); [done|].
  destruct (keyRetryInFlight s !! c); [apply ok_wait|]. cbn [safe]. split; [|intros pid; split].
  - split.
    + apply ok_retry. intros h1 _. apply ok_bind; [apply ok_fetch|]. intros h2 _ _.
      apply ok_look. intros h3 s' _ _. by destruct (has_key_of c s').
    + intros pid. apply ok_bind; [|by intros h1 ok _; split].
      apply ok_catch; [|done]. apply ok_bind; [apply ok_wait|]. by intros h1 _ _ h2 s'.
  - done.
  - apply ok_wait.
Qed.
Lemma write_keeps_channels c id p s :
  channels (write_plaintext localeCompare self to_string c id p s) = channels s.
Proof. unfold write_plaintext. by destruct (finish _ _ _ _ _). Qed.
#[local] Arguments KeyPrograms.fetchAndCacheChannelKeys : simpl never.
Lemma only_getKey P c v : stores_only P (KeyPrograms.getChannelKey c v).
Proof.
  unfold KeyPrograms.getChannelKey. cbn. intros m. destruct (cached (ks m) c v); [done|].
  apply only_bind; [apply only_fetch|]. intros _. cbn. intros m'. by destruct (cached (ks m') c v).
Qed.
Lemma ok_decrypt c msg gen g : ok' g (decrypt c msg gen).
Proof.
  apply ok_unless_stale; [done|]. intros h _ _ _. cbn [safe]. split; [apply ok_ensure|].
  intros pid. apply ok_bind; [apply ok_wait|]. intros h1 [|] _; [|done]. cbn [negb].
  apply ok_unless_stale; [done|]. intros h2 _ _ _. apply ok_catch; [|done].
  apply ok_bind; [apply ok_public_key|]. intros h3 [pk|] _; [|done].
  apply ok_unless_stale; [done|]. intros h4 _ _ _. apply ok_bind.
  - by apply (ok_on_module (λ _, False)); [apply only_getKey|].
  - intros h5 _ _. apply ok_look. intros h6 s _ _. apply ok_bind; [apply ok_timer|].
    intros h7 _ _. apply ok_bind; [apply ok_result|]. intros h8 parsed _. split; [|done].
    intros h9 s' _. apply lists_seen_messages. apply write_keeps_channels.
Qed.

(** The page of a client that decrypts and serves those who join the server: any number of tasks of
    both kinds, whose requests are answered in any order, while other parts of the client
    change it.  [g] collects the channels that have been listed as not private. *)
Inductive joining : Seen → gpage → Prop :=
  | joining_fresh s :
      distributionQueues s = ∅ → joining (listed_public s) (fresh_page s)
  | joining_join g P u gen : joining g P → joining g (launch (joiner sid u gen) P)
  | joining_decrypt g P c msg gen : joining g P → joining g (launch (decrypt c msg gen) P)
  | joining_answer g P tid a : joining g P → joining g (answer tid a P)
  | joining_settle g P tid : joining g P → joining g (settle tid P)
  | joining_change g P f :
      joining g P →
      let P' := on_st (changed f) P in
      joining (λ c, g c ∨ listed_public (st P') c) P'.

(** The channel whose key a thread is sending *)
Definition sends_key_of (tid : nat) (P : gpage) : option string :=
  match threads P !! tid with
  | Some (Await (Keys (StoreKeyEnvelopes c _ _)) _) => Some c
  | _ => None
  end.

#[local] Notation page_ok := (page_safe grows lists_seen sends_seen (λ _ _ _, True)).
Lemma lists_seen_mono g g' s : grows g g' → lists_seen g s → lists_seen g' s.
Proof.
  intros Hg [H1 H2]. split; [intros c Hc; by eapply Hg, H1|].
  intros q l Hl c Hc. by eapply Hg, (H2 q l).
Qed.
Lemma joining_ok g P : joining g P → page_ok g P.
Proof.
  induction 1 as [s Hq|g P u gen _ IH|g P c msg gen _ IH|g P tid a _ IH|g P tid _ IH|
    g P f _ IH P'].
  - apply fresh_page_safe. split; [done|]. intros q l. by rewrite Hq, lookup_empty.
  - apply (launch_safe grows); [apply ok_joiner|done].
  - apply (launch_safe grows); [apply ok_decrypt|done].
  - by apply (answer_safe grows).
  - by apply (settle_safe grows).
  - assert (grows g (λ c, g c ∨ listed_public (st P') c)) as Hg by (intros c; auto).
    destruct (page_safe_ext grows lists_seen sends_seen _ lists_seen_mono _ _ _ Hg IH) as [H1 H2].
    split; [|exact H2]. split; [intros c; by right|]. unfold P'. cbn.
    rewrite (proj2 (changed_parts f (st P))). exact (proj2 H1).
Qed.

(** C8: whose keys a member who joins is sent.  Whatever the server answers, in which order
    the tasks go on and what other parts of the client do meanwhile, the key of a channel
    is sent only if it is a channel of the server that has been listed as not private. *)
Theorem joiners_get_public_keys g P tid c :
  joining g P → sends_key_of tid P = Some c → g c.
Proof.
  intros Hp%joining_ok. unfold sends_key_of.
  destruct (threads P !! tid) as [[| | | |[[| | | |]| |]| |]|] eqn:E; try done.
  intros [= ->]. destruct Hp as [_ Hall]. specialize (Hall _ _ E) as [Hq _]. by apply (Hq g).
Qed.
End joiners.

(** *** A retry that outlives its connection *)

(** After a reconnection a message does not wait for a retry that was begun before it.  But
    that retry, when it ends, takes whatever the table has for the channel out of it, also a
    retry that was begun on the new connection, which later messages then do not share. *)
Lemma outlived_retry_unregisters `{Crypto} c gen (P : gpage) f :
  (gen_of (f (client (st P))) ≠ gen_of (client (st P)) →
    keyRetryInFlight (changed f (st P)) !! c = None) ∧
  (∃ j P2, Programs.exec (key_promise c gen) P = (WaitFor (next P) j, P2) ∧
    ∀ e Q p, keyRetryInFlight (st Q) !! c = Some p →
      let Q' := (Programs.exec (j (Throw e)) Q).2 in
      keyRetryInFlight (st Q') !! c = None ∧ threads Q' = threads Q).
Proof.
  split.
  - intros Hne. unfold changed, stale. cbn.
    by rewrite (proj2 (Z.eqb_neq (gen_of (f (client (st P)))) _)) by done.
  - unfold key_promise. cbn [Programs.exec].
    destruct (Programs.exec (key_retry c gen) (reserve P)) as [p2 P2]. do 2 eexists.
    split; [reflexivity|]. intros e Q p Hp. cbn. split; [|done]. by rewrite lookup_delete_eq.
Qed.

(** ** A concrete page: two channels, one of them private, and a member who joins *)

#[local] Existing Instance toy.

Definition demo_channel_of (id : string) (private : bool) : Channel :=
  {| ch_id := id; ch_serverId := "s1"; ch_name := id; ch_type := 0;
     ch_position := 0; ch_topic := ""; ch_isPrivate := private; ch_channelGroupId := None;
     ch_permissionsSynced := true |}.
Definition demo_joined : Gateway :=
  {| client := Client.on_local (Client.on_keys (λ _, setCachedKey demo_channel 7 demo_key demo_keys))
       (Client.act (λ _ _, 0%Z) "me" C_channels
         (Channels.SetChannels "s1" [demo_channel_of demo_channel false; demo_channel_of "c2" true])
         (initial_client (λ _ _, 0%Z) "me" false));
     fetches := ∅; inits := ∅; prefetchQueues := ∅; keyRetryInFlight := ∅;
     distributionQueues := ∅ |}.
Definition demo_answer (q : gateway_request) : result string (gateway_answer q) :=
  match q with
  | PublicKeyOf _ => Ok (Some (ed_public demo_secret))
  | Timer | Keys Pause => Ok tt
  | _ => Throw "offline"
  end.
Definition demo_page : gpage :=
  answer 1 demo_answer (answer 0 demo_answer (answer 0 demo_answer
    (launch (distribute_to_joiner (λ _, demo_secret) (λ _, demo_nonce) "s1" "bob" 0)
      (fresh_page demo_joined)))).

Lemma joiners_get_public_keys_witness :
  listed_public "s1" demo_joined demo_channel.
Proof.
  apply (joiners_get_public_keys (λ _ _, 0%Z) "me" (λ _, Throw tt) (λ _, "")
    (λ _, demo_secret) (λ _, demo_nonce)
    "s1" (listed_public "s1" demo_joined) demo_page 1 demo_channel).
  - do 3 apply joining_answer. apply joining_join, joining_fresh. reflexivity.
  - vm_compute. reflexivity.
Defined.

(** A page that has the channel's key and a message encrypted by its owner *)
#[local] Existing Instance toy_laws.
Definition demo_hi : EncryptedMessage :=
  match (encryptMessage no_fetch demo_nonce demo_channel
    (buildMessageContent (λ _, "json") (λ _, "") "hi" []) demo_member).1 with
  | Ok e => e
  | Throw _ => {| E2ee.keyVersion := 0; E2ee.data := [] |}
  end.
Definition demo_message : Message :=
  encrypted_message "m1" (E2ee.data demo_hi) (E2ee.keyVersion demo_hi).
Definition demo_arrived : gpage :=
  on_st (on_client (Client.act (λ _ _, 0%Z) "me" C_messages
    (Messages.AddMessage demo_channel demo_message))) (fresh_page demo_joined).

Lemma demo_sent_as :
  sent_as hi_json demo_channel demo_message (publicKey demo_identity) "hi" (st demo_arrived).
Proof.
  exists (λ k, k = demo_key), (λ _, "json"), (λ _, ""), demo_member, 7%Z, demo_key, demo_nonce,
    demo_identity, demo_hi.
  split_and!; try first [exact demo_keys_ok|exact demo_member_holds|reflexivity].
  by split.
Qed.

Lemma arrival_decrypted_witness :
  ∃ j j1 j2,
  (Programs.exec (decryptInBackground (λ _ _, 0%Z) "me" hi_json (λ _, "") demo_channel
     demo_message 0) demo_arrived).1 = WaitFor 0 j ∧
  Programs.exec (j (Ok true)) demo_arrived = (Await (PublicKeyOf "alice") j1, demo_arrived) ∧
  Programs.exec (j1 (Ok (Some (publicKey demo_identity)))) demo_arrived =
    (Await Timer j2, demo_arrived) ∧
  shown_text demo_channel "m1"
    (messages (client (st (Programs.exec (j2 (Ok tt)) demo_arrived).2))) = Some (utf8 "hi", 0%Z).
Proof.
  pose proof (proj2 (arrival_decrypted (λ _ _, 0%Z) "me" hi_json (λ _, "") demo_channel demo_message 0
    demo_arrived) eq_refl) as Ha.
  destruct (Programs.exec (ensureChannelKey demo_channel 0) (reserve demo_arrived)) as [p P1].
  destruct Ha as (j & Ej & _ & _ & Hj). exists j.
  destruct (Hj demo_arrived eq_refl) as (j1 & E1 & _ & H1). exists j1.
  destruct (H1 (publicKey demo_identity) demo_arrived demo_key eq_refl eq_refl) as (j2 & E2 & H2).
  exists j2. split; [by rewrite Ej|]. split; [exact E1|]. split; [exact E2|].
  apply (proj2 (H2 demo_arrived) "hi" (client (st demo_arrived)) demo_message demo_sent_as eq_refl).
  - apply Messages.reachable_consistent. apply (reachable_run [Messages.AddMessage demo_channel demo_message]).
    by split.
  - reflexivity.
  - discriminate.
Defined.
