(* ===== verification/Invites.v ===== *)
(** * Invites ([store/invite.ts], [utils/base64url.ts], [utils/deep-link.ts])

    The invite a visitor came with, mirrored in the tab's session storage; the encoding
    of the secret that travels in the fragment of its link; and the links themselves. *)

From Stdlib Require Import String.
From S2P Require Export Base64 JsString.

Open Scope meza_scope.

(** ** Base64 for URLs *)

Definition dash : Ascii.ascii := Ascii.ascii_of_nat 45.
Definition underscore : Ascii.ascii := Ascii.ascii_of_nat 95.
Definition plus_sign : Ascii.ascii := Ascii.ascii_of_nat 43.
Definition slash : Ascii.ascii := Ascii.ascii_of_nat 47.
Definition hash_sign : Ascii.ascii := Ascii.ascii_of_nat 35.
Definition question_mark : Ascii.ascii := Ascii.ascii_of_nat 63.

(** [s.replace(/a/g, b)] *)
Definition replace_all (a b : Ascii.ascii) (l : list Ascii.ascii) : list Ascii.ascii :=
  (λ c, if decide (c = a) then b else c) <$> l.
(** [s.replace(/=+$/, '')] *)
Definition strip_equals (l : list Ascii.ascii) : list Ascii.ascii :=
  reverse ((fix strip l := match l with
            | c :: l' => if decide (c = equals_sign) then strip l' else l
            | [] => [] end) (reverse l)).

Definition bytesToBase64Url (b : bytes) : string :=
  string_of_list_ascii (strip_equals (replace_all slash underscore
    (replace_all plus_sign dash (list_ascii_of_string (btoa b))))).

(** [padEnd] to a multiple of four *)
Definition base64UrlToBytes (s : string) : result string bytes :=
  let b64 := replace_all underscore slash (replace_all dash plus_sign (list_ascii_of_string s)) in
  atob (string_of_list_ascii
    (b64 ++ replicate ((4 - length b64 `mod` 4) `mod` 4) equals_sign)).

(** ** Links *)

Record DeepLinkInvite := { host : string; code : string; secret : option string }.

(** [s.split(c)] *)
Fixpoint split_at (c : Ascii.ascii) (s : string) : list string :=
  match s with
  | EmptyString => [""]
  | String a s' =>
      if decide (a = c) then "" :: split_at c s'
      else match split_at c s' with
           | t :: ts => String a t :: ts
           | [] => [String a EmptyString]
           end
  end.
Definition part (i : nat) (l : list string) : option string := l !! i.

(** [[a-z0-9]], ignoring case, and [[a-z0-9.-]] *)
Definition alphanumeric (a : Ascii.ascii) : bool :=
  let n := Ascii.nat_of_ascii a in
  ((48 <=? n) && (n <=? 57)) || ((65 <=? n) && (n <=? 90)) || ((97 <=? n) && (n <=? 122)).
Definition host_char (a : Ascii.ascii) : bool :=
  alphanumeric a || bool_decide (a = dash) || bool_decide (a = Ascii.ascii_of_nat 46).

(** [/^[a-z0-9]([a-z0-9.-]*[a-z0-9])?$/i] *)
Definition valid_host (s : string) : bool :=
  let l := list_ascii_of_string s in
  match head l, last l with
  | Some a, Some z => alphanumeric a && alphanumeric z && forallb host_char l
  | _, _ => false
  end.
(** [/^[a-z0-9]{8}$/i] *)
Definition valid_code (s : string) : bool :=
  let l := list_ascii_of_string s in bool_decide (length l = 8) && forallb alphanumeric l.

Definition link_prefix : string := "meza://i/".

Section links.
(** [new URLSearchParams(query).get(name)] *)
Context (search_param : string → string → option string).

Definition parseDeepLink (url : string) : option DeepLinkInvite :=
  if startsWith link_prefix url then
    let rest := str_slice (String.length link_prefix) url in
    let query := split_at question_mark rest in
    let fragment := split_at hash_sign (or_default "" (part 0 query)) in
    let segments := split_at slash (or_default "" (part 0 fragment)) in
    match segments with
    | host :: code :: _ =>
        if negb (bool_decide (host = "")) && valid_host host && valid_code code then
          Some {| host := host; code := code;
                  secret :=
                    if truthy (part 1 fragment) then part 1 fragment
                    else if truthy (part 1 query) then
                      let s := search_param (or_default "" (part 1 query)) "s" in
                      if truthy s then s else None
                    else None |}
        else None
    | _ => None
    end
  else None.
End links.

Definition buildDeepLinkUrl (invite : DeepLinkInvite) : string :=
  (link_prefix +:+ host invite +:+ "/" +:+ code invite +:+
   (if truthy (secret invite) then "#" +:+ or_default "" (secret invite) else ""))%string.

(** The links of the web application: [/invite/{code}#{secret}], given as the path and
    the fragment of the location *)
Definition inviteUrl (origin code : string) (secret : option bytes) : string :=
  (origin +:+ "/invite/" +:+ code +:+
   match secret with Some s => "#" +:+ bytesToBase64Url s | None => "" end)%string.

(** ** The store *)

Record InviteState := {
  pendingCode : option string;
  pendingHost : option string;
  inviteSecret : option string;
  pendingNonce : Z;
}.
(** The three items of session storage *)
Record InviteItems := {
  item_code : option string;
  item_host : option string;
  item_secret : option string;
}.
Record Invites := { invite : InviteState; items : InviteItems }.

Definition loaded (i : InviteItems) : InviteState :=
  {| pendingCode := item_code i; pendingHost := item_host i; inviteSecret := item_secret i;
     pendingNonce := 0 |}.

(** [if (x) setItem(key, x) else removeItem(key)] *)
Definition kept (x : option string) : option string := if truthy x then x else None.

Definition setPendingCode (x : option string) (s : Invites) : Invites :=
  {| invite := {| pendingCode := x; pendingHost := pendingHost (invite s);
                  inviteSecret := inviteSecret (invite s);
                  pendingNonce := pendingNonce (invite s) + 1 |};
     items := {| item_code := kept x; item_host := item_host (items s);
                 item_secret := item_secret (items s) |} |}.
Definition setPendingHost (x : option string) (s : Invites) : Invites :=
  {| invite := {| pendingCode := pendingCode (invite s); pendingHost := x;
                  inviteSecret := inviteSecret (invite s);
                  pendingNonce := pendingNonce (invite s) |};
     items := {| item_code := item_code (items s); item_host := kept x;
                 item_secret := item_secret (items s) |} |}.
Definition setInviteSecret (x : option string) (s : Invites) : Invites :=
  {| invite := {| pendingCode := pendingCode (invite s); pendingHost := pendingHost (invite s);
                  inviteSecret := x; pendingNonce := pendingNonce (invite s) |};
     items := {| item_code := item_code (items s); item_host := item_host (items s);
                 item_secret := kept x |} |}.
Definition clearPendingCode (s : Invites) : Invites :=
  {| invite := {| pendingCode := None; pendingHost := None; inviteSecret := None;
                  pendingNonce := pendingNonce (invite s) |};
     items := {| item_code := None; item_host := None; item_secret := None |} |}.

Definition applyDeepLinkInvite (i : DeepLinkInvite) (s : Invites) : Invites :=
  setInviteSecret (secret i) (setPendingCode (Some (code i)) (setPendingHost (Some (host i)) s)).

(** [/^\/invite\/([a-z0-9]{8})$/i], and the fragment of the location without its [#] *)
Definition invite_path : string := "/invite/".
Definition open_location (path fragment : string) (s : Invites) : Invites :=
  if startsWith invite_path path && valid_code (str_slice 8 path) then
    let s := setPendingCode (Some (toLowerCase (str_slice 8 path))) s in
    if bool_decide (fragment = "") then s else setInviteSecret (Some fragment) s
  else s.

Inductive action :=
  | SetPendingCode (x : option string)
  | SetPendingHost (x : option string)
  | SetInviteSecret (x : option string)
  | ClearPendingCode
  | ApplyDeepLink (i : DeepLinkInvite)
  | OpenLocation (path fragment : string)
  | ReloadTab.

Definition perform (a : action) (s : Invites) : Invites :=
  match a with
  | SetPendingCode x => setPendingCode x s
  | SetPendingHost x => setPendingHost x s
  | SetInviteSecret x => setInviteSecret x s
  | ClearPendingCode => clearPendingCode s
  | ApplyDeepLink i => applyDeepLinkInvite i s
  | OpenLocation p f => open_location p f s
  | ReloadTab => {| invite := loaded (items s); items := items s |}
  end.

#[export] Instance invite_store : Store Invites action :=
  {| initial := {| invite := loaded {| item_code := None; item_host := None; item_secret := None |};
                   items := {| item_code := None; item_host := None; item_secret := None |} |};
     exec := perform; admissible := λ _ _, True |}.

(** The storage holds what is in memory, where that is not empty. *)
Definition mirrored (s : Invites) : Prop :=
  item_code (items s) = kept (pendingCode (invite s)) ∧
  item_host (items s) = kept (pendingHost (invite s)) ∧
  item_secret (items s) = kept (inviteSecret (invite s)).

Lemma kept_idem x : kept (kept x) = kept x.
Proof. unfold kept. destruct (truthy x) eqn:E; [by rewrite E|done]. Qed.

Lemma reachable_mirrored s : reachable s → mirrored s.
Proof.
  apply reachable_invariant; [done|]. intros a s' _ (H1 & H2 & H3). unfold mirrored.
  destruct a; simpl; try done.
  - unfold open_location. destruct (startsWith _ _ && _); [|done]. by case_bool_decide.
  - by rewrite H1, H2, H3, !kept_idem.
Qed.

(** ** The round trips *)

Lemma replace_back a b (l : list Ascii.ascii) :
  b ∉ l → replace_all b a (replace_all a b l) = l.
Proof.
  unfold replace_all. induction l as [|c l IH]; intros Hb; [done|].
  apply not_elem_of_cons in Hb as [Hc Hl]. rewrite !fmap_cons, IH by done. f_equal.
  repeat case_decide; congruence.
Qed.
Lemma replace_length a b l : length (replace_all a b l) = length l.
Proof. apply length_fmap. Qed.
Lemma replace_elem a b c l : c ∈ replace_all a b l → c = b ∨ (c ∈ l ∧ c ≠ a).
Proof.
  unfold replace_all. intros (x & -> & Hx)%list_elem_of_fmap. case_decide; [by left|by right].
Qed.

Lemma strip_app l n : last l ≠ Some equals_sign →
  strip_equals (l ++ replicate n equals_sign) = l.
Proof.
  intros Hl. unfold strip_equals. rewrite reverse_app, reverse_replicate.
  induction n as [|n IH]; cbn [replicate app]; [|by rewrite decide_True].
  destruct (reverse l) as [|c r] eqn:E.
  - apply (f_equal reverse) in E. by rewrite reverse_involutive in E.
  - assert (Hl' : l = reverse r ++ [c]) by (rewrite <-(reverse_involutive l), E; apply reverse_cons).
    rewrite Hl', last_snoc in Hl. rewrite decide_False by congruence.
    by rewrite <-E, reverse_involutive.
Qed.

Definition url_chars (b : bytes) : list Ascii.ascii :=
  replace_all slash underscore (replace_all plus_sign dash (b64_char <$> sextets b)).

Lemma char_not i : (0 ≤ i < 64)%Z →
  b64_char i ≠ dash ∧ b64_char i ≠ underscore ∧ b64_char i ≠ equals_sign ∧
  b64_char i ≠ hash_sign ∧ b64_char i ≠ question_mark.
Proof.
  intros Hi.
  assert (Hall : Forall (λ i, b64_char i ≠ dash ∧ b64_char i ≠ underscore ∧
    b64_char i ≠ equals_sign ∧ b64_char i ≠ hash_sign ∧ b64_char i ≠ question_mark) (seqZ 0 64)).
  { apply (bool_decide_unpack _). vm_compute. exact I. }
  rewrite Forall_forall in Hall. apply Hall, elem_of_seqZ. lia.
Qed.
Lemma digits_not b c :
  octets b → c ∈ b64_char <$> sextets b →
  c ≠ dash ∧ c ≠ underscore ∧ c ≠ equals_sign ∧ c ≠ hash_sign ∧ c ≠ question_mark.
Proof.
  intros Hb (i & -> & Hi)%list_elem_of_fmap. apply char_not.
  pose proof (sextets_range b Hb) as Hr. rewrite Forall_forall in Hr. by apply Hr.
Qed.

Lemma padding_replicate b : padding b = replicate (length (padding b)) equals_sign.
Proof. unfold padding. by destruct (length b `mod` 3) as [|[|[|?]]]. Qed.

Lemma url_chars_not b c :
  octets b → c ∈ url_chars b → c ≠ equals_sign ∧ c ≠ hash_sign ∧ c ≠ question_mark ∧ c ≠ slash.
Proof.
  intros Hb [-> | [[-> | [Hc Hp]]%replace_elem Hs]]%replace_elem; [done|done|].
  destruct (digits_not b c Hb Hc) as (_ & _ & H1 & H2 & H3). done.
Qed.

Lemma url_text b : octets b → bytesToBase64Url b = string_of_list_ascii (url_chars b).
Proof.
  intros Hb. unfold bytesToBase64Url, btoa. rewrite list_ascii_of_string_of_list_ascii.
  f_equal. unfold replace_all. rewrite !fmap_app, padding_replicate, !fmap_replicate.
  rewrite !decide_False by done. apply strip_app.
  intros E. change (last (url_chars b) = Some equals_sign) in E.
  apply last_Some_elem_of in E. by destruct (url_chars_not b _ Hb E).
Qed.

(** The secret in a link is read back as it was. *)
Lemma base64Url_roundtrip b : octets b → base64UrlToBytes (bytesToBase64Url b) = Ok b.
Proof.
  intros Hb. rewrite url_text by done. unfold base64UrlToBytes.
  rewrite list_ascii_of_string_of_list_ascii. cbv zeta.
  assert (Hback : replace_all underscore slash (replace_all dash plus_sign (url_chars b)) =
    b64_char <$> sextets b).
  { unfold url_chars.
    assert (Hcomm : ∀ l, underscore ∉ l → dash ∉ l →
      replace_all underscore slash (replace_all dash plus_sign
        (replace_all slash underscore (replace_all plus_sign dash l))) = l).
    { clear. unfold replace_all. induction l as [|c l IH]; intros H1 H2; [done|].
      apply not_elem_of_cons in H1 as [H1 H1'], H2 as [H2 H2'].
      rewrite !fmap_cons, IH by done. f_equal.
      destruct (decide (c = plus_sign)) as [->|]; [done|].
      destruct (decide (c = slash)) as [->|]; [done|].
      rewrite (decide_False (P := c = dash)) by congruence.
      by rewrite decide_False by congruence. }
    apply Hcomm; intros Hin; by destruct (digits_not b _ Hb Hin) as (? & ? & _). }
  rewrite Hback, length_fmap.
  assert (Hpad : (4 - length (sextets b) `mod` 4) `mod` 4 = length (padding b)).
  { destruct (sextets_padding b) as [E|[E Ep]]; [|by rewrite E, Ep].
    rewrite E. assert (length (padding b) < 3).
    { unfold padding. by destruct (length b `mod` 3) as [|[|[|?]]]; simpl; lia. }
    replace (4 - (4 - length (padding b))) with (length (padding b)) by lia.
    apply Nat.mod_small. lia. }
  rewrite Hpad, <-padding_replicate. fold (btoa b). by apply atob_btoa.
Qed.

Lemma list_ascii_append s t :
  list_ascii_of_string (s +:+ t) = list_ascii_of_string s ++ list_ascii_of_string t.
Proof. induction s as [|a s IH]; [done|]. simpl. by rewrite IH. Qed.

(** A text without the separator is one part. *)
Lemma split_none c s : c ∉ list_ascii_of_string s → split_at c s = [s].
Proof.
  induction s as [|a s IH]; [done|]. simpl. intros [Ha Hs]%not_elem_of_cons.
  rewrite decide_False by congruence. by rewrite IH.
Qed.
Lemma split_first c s t :
  c ∉ list_ascii_of_string s → split_at c (s +:+ String c t) = s :: split_at c t.
Proof.
  induction s as [|a s IH]; simpl; [by rewrite decide_True|].
  intros [Ha Hs]%not_elem_of_cons. rewrite decide_False by congruence. by rewrite IH.
Qed.

Lemma alphanumeric_not a c :
  alphanumeric a = true → c ∈ [hash_sign; question_mark; slash] → a ≠ c.
Proof. intros Ha Hc ->. rewrite !elem_of_cons, elem_of_nil in Hc. naive_solver. Qed.
Lemma valid_code_chars s c :
  valid_code s = true → c ∈ [hash_sign; question_mark; slash] → c ∉ list_ascii_of_string s.
Proof.
  unfold valid_code. intros [_ H]%andb_true_iff Hc Hin.
  rewrite forallb_forall in H. specialize (H c). rewrite <-list_elem_of_In in H.
  by eapply (alphanumeric_not c c); [apply H|..].
Qed.
Lemma valid_host_chars s c :
  valid_host s = true → c ∈ [hash_sign; question_mark; slash] → c ∉ list_ascii_of_string s.
Proof.
  unfold valid_host. cbv zeta.
  destruct (head (list_ascii_of_string s)), (last (list_ascii_of_string s)); try done.
  intros [_ H]%andb_true_iff Hc Hin.
  rewrite forallb_forall in H. specialize (H c). rewrite <-list_elem_of_In in H.
  specialize (H Hin). unfold host_char in H. rewrite !elem_of_cons, elem_of_nil in Hc.
  destruct Hc as [-> | [-> | [-> | []]]]; done.
Qed.

Lemma startsWith_append p s : startsWith p (p +:+ s) = true.
Proof. induction p as [|a p IH]; [done|]. simpl. by rewrite Ascii.eqb_refl, IH. Qed.
Lemma str_slice_append p s : str_slice (String.length p) (p +:+ s) = s.
Proof. by induction p. Qed.

Lemma append_assoc (s t u : string) : s +:+ t +:+ u = (s +:+ t) +:+ u.
Proof. induction s as [|a s IH]; [done|].
  change (String a (s +:+ t +:+ u) = String a ((s +:+ t) +:+ u)). by rewrite IH.
Qed.
Lemma append_nil (s : string) : s +:+ "" = s.
Proof. induction s as [|a s IH]; [done|].
  change (String a (s +:+ "") = String a s). by rewrite IH.
Qed.

Lemma parse_build search_param h c s :
  valid_host h = true → valid_code c = true →
  match s with Some t => t ≠ "" ∧ question_mark ∉ list_ascii_of_string t ∧
                         hash_sign ∉ list_ascii_of_string t | None => True end →
  parseDeepLink search_param (buildDeepLinkUrl {| host := h; code := c; secret := s |}) =
    Some {| host := h; code := c; secret := s |}.
Proof.
  intros Hh Hc Hs. unfold parseDeepLink, buildDeepLinkUrl. cbn [host code secret].
  rewrite startsWith_append, str_slice_append. cbv zeta.
  set (f := if truthy s then _ else _).
  assert (Hf : question_mark ∉ list_ascii_of_string f).
  { subst f. destruct s as [[|a t]|]; simpl; [set_solver| |set_solver].
    destruct Hs as (_ & Hs & _). apply not_elem_of_cons. by split. }
  assert (Hq : split_at question_mark (h +:+ "/" +:+ c +:+ f) = [h +:+ "/" +:+ c +:+ f]).
  { apply split_none. rewrite !list_ascii_append, !elem_of_app. simpl.
    pose proof (valid_host_chars h question_mark Hh ltac:(set_solver)).
    pose proof (valid_code_chars c question_mark Hc ltac:(set_solver)).
    assert (question_mark ≠ slash) by done. set_solver. }
  rewrite Hq. unfold part. cbn [lookup list_lookup or_default].
  assert (Hhash : hash_sign ∉ list_ascii_of_string (h +:+ "/" +:+ c)).
  { rewrite !list_ascii_append, !elem_of_app. simpl.
    pose proof (valid_host_chars h hash_sign Hh ltac:(set_solver)).
    pose proof (valid_code_chars c hash_sign Hc ltac:(set_solver)).
    assert (hash_sign ≠ slash) by done. set_solver. }
  assert (Hsplit : split_at hash_sign (h +:+ "/" +:+ c +:+ f) =
    (h +:+ "/" +:+ c) :: match s with Some t => [t] | None => [] end).
  { subst f. destruct s as [[|a t]|].
    - by destruct Hs.
    - destruct Hs as (_ & _ & Hs). simpl truthy. cbv iota. cbn [or_default].
      replace (h +:+ "/" +:+ c +:+ "#" +:+ String a t)
        with ((h +:+ "/" +:+ c) +:+ String hash_sign (String a t)).
      + rewrite split_first by done. f_equal. by apply split_none.
      + rewrite <-!append_assoc. done.
    - simpl truthy. cbv iota. rewrite append_nil. by apply split_none. }
  rewrite Hsplit.
  assert (Hslash : split_at slash (h +:+ "/" +:+ c) = [h; c]).
  { change ("/" +:+ c) with (String slash c).
    rewrite split_first by (apply valid_host_chars; [done|set_solver]). f_equal.
    apply split_none, valid_code_chars; [done|set_solver]. }
  cbn [lookup list_lookup or_default]. rewrite Hslash, Hh, Hc.
  assert (h ≠ "") as Hne by by intros ->.
  rewrite bool_decide_eq_false_2 by done. cbn [negb andb]. f_equal. f_equal.
  destruct s as [[|a t]|]; [by destruct Hs|done..].
Qed.

Lemma base64Url_nonempty b : octets b → b ≠ [] → bytesToBase64Url b ≠ "".
Proof.
  intros Hb Hne E. rewrite url_text in E by done.
  assert (length (url_chars b) = 0) as Hl.
  { apply (f_equal (λ s, length (list_ascii_of_string s))) in E.
    by rewrite list_ascii_of_string_of_list_ascii in E. }
  unfold url_chars in Hl. rewrite !replace_length, length_fmap in Hl.
  destruct (sextets_length b) as [?|[Es _]]; [lia|]. destruct b as [|? [|? [|? ?]]]; done.
Qed.

Lemma base64Url_clean b c :
  octets b → c ∈ [question_mark; hash_sign] → c ∉ list_ascii_of_string (bytesToBase64Url b).
Proof.
  intros Hb Hc. rewrite url_text by done. rewrite list_ascii_of_string_of_list_ascii.
  intros Hin. destruct (url_chars_not b c Hb Hin) as (_ & H1 & H2 & _). set_solver.
Qed.

(** the secret of an invite arrives.  A deep link made for a host, a code and a secret
    is parsed into just these; applying it leaves the encoded secret in the store, where
    it survives a reload of the tab, and decoding it gives the octets of the secret.  A
    text that is not such a link is refused: whatever is parsed has a valid host and a
    code of eight letters and digits. *)
Theorem deep_link_delivers search_param (h c : string) (s : bytes) (st : Invites) :
  (valid_host h = true → valid_code c = true → octets s → s ≠ [] →
   ∃ i, parseDeepLink search_param (buildDeepLinkUrl
          {| host := h; code := c; secret := Some (bytesToBase64Url s) |}) = Some i ∧
     let st' := perform ReloadTab (perform (ApplyDeepLink i) st) in
     pendingHost (invite st') = Some h ∧ pendingCode (invite st') = Some c ∧
     base64UrlToBytes (or_default "" (inviteSecret (invite st'))) = Ok s) ∧
  (∀ url i, parseDeepLink search_param url = Some i →
     valid_host (host i) = true ∧ valid_code (code i) = true ∧ secret i ≠ Some "").
Proof.
  split.
  - intros Hh Hc Hs Hne. eexists. split; [apply parse_build; [done..|]|].
    + split; [by apply base64Url_nonempty|].
      split; (apply base64Url_clean; [done|set_solver]).
    + assert (h ≠ "" ∧ c ≠ "") as [Hh' Hc'] by (split; by intros ->).
      pose proof (base64Url_nonempty s Hs Hne) as Hs'.
      assert (Hk : ∀ x, x ≠ "" → kept (Some x) = Some x).
      { intros x Hx. unfold kept. by destruct x. }
      cbv zeta. simpl. rewrite !Hk by done. split; [done|]. split; [done|].
      by apply base64Url_roundtrip.
  - intros url i. unfold parseDeepLink. destruct (startsWith _ _); [|done]. cbv zeta.
    destruct (split_at slash _) as [|x [|y l]]; [done..|].
    destruct (negb _ && valid_host x && valid_code y) eqn:E; [|done].
    apply andb_true_iff in E as [[_ E1]%andb_true_iff E2]. intros [= <-]. simpl.
    split; [done|]. split; [done|].
    destruct (truthy (part 1 (split_at hash_sign _))) eqn:E3.
    + intros E. by rewrite E in E3.
    + destruct (truthy (part 1 (split_at question_mark _))); [|done].
      destruct (truthy (search_param _ _)) eqn:E4; [|done]. intros E. by rewrite E in E4.
Qed.

Lemma deep_link_delivers_witness :
  ∃ i, parseDeepLink (λ _ _, None) "meza://i/meza.chat/a1b2c3d4#__79" = Some i ∧
    base64UrlToBytes (or_default "" (inviteSecret (invite (perform (ApplyDeepLink i) initial)))) =
      Ok [255; 254; 253]%Z.
Proof.
  destruct (deep_link_delivers (λ _ _, None) "meza.chat" "a1b2c3d4" [255; 254; 253]%Z initial)
    as [H _].
  destruct (H eq_refl eq_refl) as (i & Hi & _ & _ & Hs).
  { repeat constructor; discriminate. }
  { discriminate. }
  exists i. split; [exact Hi|].
  assert (Ei : Some i = Some {| host := "meza.chat"; code := "a1b2c3d4"; secret := Some "__79" |})
    by (rewrite <-Hi; reflexivity).
  injection Ei as ->. reflexivity.
Defined.
