(* ===== verification/App.v ===== *)
(** * The page: everything the remote calls read and change ([api/client.ts])

    The state of the client as the API functions see it, the requests they send, and
    the interceptor every request goes through: it adds the access token, renews it when
    the server refuses it (one renewal at a time, whoever asked), and tries once more. *)

From S2P Require Export Programs KeyPrograms Dispatch.
From S2P Require Import Auth Invites.
From S2P Require Federation VoiceParticipants AudioSettings StreamSettings Keybinds.

Open Scope meza_scope.

(** ** What is thrown *)

(** [Code] of the Connect library *)
Inductive Code :=
  | Canceled | Unknown | InvalidArgument | DeadlineExceeded | NotFound | AlreadyExists
  | PermissionDenied | ResourceExhausted | FailedPrecondition | Aborted | OutOfRange
  | Unimplemented | Internal | Unavailable | DataLoss | Unauthenticated.
#[export] Instance Code_eq_dec : EqDecision Code.
Proof. solve_decision. Defined.

Inductive failure :=
  | ConnectError (code : Code) (message : string)
  | Error (message : string).

Definition message_of (e : failure) : string :=
  match e with ConnectError _ m | Error m => m end.

(** ** Requests *)

Record ChannelUpdates := {
  up_name : option string;
  up_topic : option string;
  up_position : option Z;
  up_isPrivate : option bool;
  up_slowModeSeconds : option Z;
  up_isDefault : option bool;
  up_channelGroupId : option string;
  up_contentWarning : option string;
}.
Record RoleUpdates := {
  ru_name : option string;
  ru_permissions : option Z;
  ru_color : option Z;
  ru_isSelfAssignable : option bool;
}.
Record ServerUpdates := {
  su_name : option string;
  su_iconUrl : option string;
  su_welcomeMessage : option string;
  su_rules : option string;
  su_onboardingEnabled : option bool;
  su_rulesRequired : option bool;
  su_defaultChannelPrivacy : option bool;
  su_bannerUrl : option string;
}.
Record GroupUpdates := { gu_name : option string; gu_position : option Z }.

(** The message of [sendMessage] as it goes to the server *)
Record Outgoing := {
  og_channelId : string;
  og_encryptedContent : bytes;
  og_keyVersion : Z;
  og_nonce : string;
  og_attachmentIds : list string;
  og_replyToId : option string;
  og_mentionedUserIds : list string;
  og_mentionedRoleIds : list string;
  og_mentionEveryone : bool;
}.

(** A page of messages: before, after or around a message *)
Record PageRequest := {
  pr_channelId : string;
  pr_before : string;
  pr_after : string;
  pr_around : string;
  pr_limit : Z;
}.

Record SearchRequest := {
  sr_channelId : string;
  sr_authorId : option string;
  sr_hasAttachment : option bool;
  sr_mentionedUserId : option string;
  sr_beforeId : option string;
  sr_afterId : option string;
  sr_limit : Z;
}.

Record TemplateChannel := {
  tc_name : string;
  tc_type : Z;
  tc_isDefault : bool;
  tc_isPrivate : bool;
  tc_roleNames : list string;
  tc_groupName : option string;
}.
Record TemplateRole := {
  tr_name : string;
  tr_permissions : Z;
  tr_color : Z;
  tr_isSelfAssignable : bool;
}.
Record Template := {
  t_name : string;
  t_iconUrl : option string;
  t_channels : list TemplateChannel;
  t_roles : list TemplateRole;
  t_welcomeMessage : option string;
  t_rules : option string;
  t_onboardingEnabled : bool;
  t_rulesRequired : bool;
  t_everyonePermissions : option Z;
  t_channelGroups : list (string * list string);
}.

Record SystemMessageUpdates := {
  sy_welcomeChannelId : option string;
  sy_modLogChannelId : option string;
  sy_joinEnabled : option bool;
  sy_joinTemplate : option string;
  sy_leaveEnabled : option bool;
  sy_leaveTemplate : option string;
  sy_kickEnabled : option bool;
  sy_kickTemplate : option string;
  sy_banEnabled : option bool;
  sy_banTemplate : option string;
  sy_timeoutEnabled : option bool;
  sy_timeoutTemplate : option string;
}.

(** The parameters of the account requests, as far as the client makes them *)
Record Registration := {
  rg_email : string;
  rg_username : string;
  rg_authKey : bytes;
  rg_salt : bytes;
  rg_encryptedKeyBundle : bytes;
  rg_keyBundleIv : bytes;
  rg_initialKeyPackages : list bytes;
  rg_recoveryEncryptedKeyBundle : option bytes;
  rg_recoveryKeyBundleIv : option bytes;
  rg_recoveryVerifier : option bytes;
}.
Record PasswordChange := {
  pc_oldAuthKey : bytes;
  pc_newAuthKey : bytes;
  pc_newSalt : bytes;
  pc_newEncryptedKeyBundle : bytes;
  pc_newKeyBundleIv : bytes;
  pc_newRecoveryEncryptedKeyBundle : bytes;
  pc_newRecoveryKeyBundleIv : bytes;
  pc_newRecoveryVerifier : option bytes;
}.
Record Recovery := {
  rc_email : string;
  rc_newAuthKey : bytes;
  rc_newSalt : bytes;
  rc_newEncryptedKeyBundle : bytes;
  rc_newKeyBundleIv : bytes;
  rc_newRecoveryEncryptedKeyBundle : bytes;
  rc_newRecoveryKeyBundleIv : bytes;
  rc_recoveryVerifier : option bytes;
  rc_newRecoveryVerifier : option bytes;
}.
Record ProfileUpdates := {
  pf_displayName : option string;
  pf_avatarUrl : option string;
  pf_emojiScale : option number;
  pf_bio : option string;
  pf_pronouns : option string;
  pf_bannerUrl : option string;
  pf_themeColorPrimary : option string;
  pf_themeColorSecondary : option string;
  pf_simpleMode : option bool;
  pf_audioPreferences : option AudioPreferences;
  pf_dmPrivacy : option string;
  pf_friendRequestPrivacy : option string;
  pf_profilePrivacy : option string;
  pf_connections : option (list UserConnection);
  pf_clearConnections : option bool;
}.
Record Upload := {
  ul_filename : string;
  ul_contentType : string;
  ul_sizeBytes : Z;
  ul_purpose : Z;
  ul_originalContentType : string;
}.
Record Completion := {
  cu_uploadId : string;
  cu_width : Z;
  cu_height : Z;
  cu_encryptedKey : bytes;
  cu_isSpoiler : bool;
}.

Inductive rpc :=
  | KeyRpc (q : key_request)
  | GetPublicKeys (ids : list string)
  | RefreshToken (token : string)
  | ListServers
  | CreateServer (name : string) (iconUrl : option string)
  | GetServer (sid : string)
  | UpdateServer (sid : string) (u : ServerUpdates)
  | CreateServerFromTemplate (t : Template)
  | ListChannels (sid : string)
  | CreateChannel (sid name : string) (type : Z) (isPrivate : bool) (group : option string)
  | UpdateChannel (c : string) (u : ChannelUpdates)
  | DeleteChannel (c : string)
  | SyncChannelPermissions (c : string)
  | GetMessages (p : PageRequest)
  | SendMessage (m : Outgoing)
  | EditMessage (c id : string) (content : bytes) (keyVersion : Z)
  | DeleteMessage (c id : string)
  | GetReplies (c id : string) (limit : option Z)
  | GetMessagesByIDs (c : string) (ids : list string)
  | AckMessage (c id : string)
  | SearchMessages (p : SearchRequest)
  | CreateInvite (sid : string) (encryptedChannelKeys channelKeysIv : bytes)
  | RevokeInvite (code : string)
  | JoinServer (code : string)
  | ListMembers (sid after : string) (limit : Z)
  | KickMember (sid uid : string)
  | BanMember (sid uid : string) (reason : option string)
  | UnbanMember (sid uid : string)
  | UpdateMember (sid uid : string) (nickname : option string)
  | SetMemberRoles (sid uid : string) (roles : list string)
  | TimeoutMember (sid uid : string) (seconds : Z)
  | RemoveTimeout (sid uid : string)
  | AddChannelMember (c uid : string)
  | RemoveChannelMember (c uid : string)
  | ListChannelMembers (c : string)
  | AcknowledgeRules (sid : string)
  | CompleteOnboarding (sid : string) (channels roles : list string)
  | ListRoles (sid : string)
  | CreateRole (sid name : string) (permissions color : Z)
  | UpdateRole (rid : string) (u : RoleUpdates)
  | DeleteRole (rid : string)
  | ReorderRoles (sid : string) (ids : list string)
  | PinMessage (c id : string)
  | UnpinMessage (c id : string)
  | GetPinnedMessages (c before : string) (limit : Z)
  | RpcListEmojis (sid : string)
  | RpcListUserEmojis
  | CreateEmoji (sid name attachment : string)
  | UpdateEmoji (id name : string)
  | DeleteEmoji (id : string)
  | ListServerSounds (sid : string)
  | ListUserSounds
  | CreateSound (name attachment sid : string)
  | UpdateSound (id name : string)
  | DeleteSound (id : string)
  | AddReaction (c id emoji : string)
  | RemoveReaction (c id emoji : string)
  | GetReactions (c : string) (ids : list string)
  | CreateOrGetDMChannel (uid : string)
  | CreateGroupDMChannel (uids : list string) (name : option string)
  | ListDMChannels
  | ListMessageRequests
  | AcceptMessageRequest (c : string)
  | DeclineMessageRequest (c : string)
  | ReverseDecline (c : string)
  | BlockUser (uid : string)
  | UnblockUser (uid : string)
  | ListBlocks
  | SendFriendRequest (to : string + string)
  | AcceptFriendRequest (uid : string)
  | DeclineFriendRequest (uid : string)
  | CancelFriendRequest (uid : string)
  | RpcRemoveFriend (uid : string)
  | ListFriends
  | ListFriendRequests
  | ListChannelGroups (sid : string)
  | CreateChannelGroup (sid name : string)
  | UpdateChannelGroup (gid : string) (u : GroupUpdates)
  | DeleteChannelGroup (gid : string)
  | SetPermissionOverride (target role : string) (allow deny : Z) (uid : string)
  | DeletePermissionOverride (target role uid : string)
  | ListPermissionOverrides (target : string)
  | GetEffectivePermissions (sid c uid : string)
  | ResolveInvite (code : string)
  | ListBans (sid : string)
  | ReportMessage (id : string) (category : Z) (reason : string)
  | ReportUser (uid sid : string) (category : Z) (reason idempotencyKey : string)
  | ListReports (sid : string) (status : Z) (cursor : string) (limit : Z)
  | ResolveReport (id : string) (action : Z) (note : string)
  | GetSystemMessageConfig (sid : string)
  | UpdateSystemMessageConfig (sid : string) (u : SystemMessageUpdates)
  | CreateWebhook (c name : string) (avatarUrl : option string)
  | GetWebhook (id : string)
  | UpdateWebhook (id : string) (name avatarUrl : option string)
  | DeleteWebhook (id : string)
  | ListChannelWebhooks (c : string)
  | ListServerWebhooks (sid : string)
  | RegenerateWebhookToken (id : string)
  | ListWebhookDeliveries (id : string) (limit : Z)
  | RpcRegister (p : Registration)
  | RpcLogin (identifier : string) (authKey : bytes)
  | GetSalt (identifier : string)
  | UpdateProfile (p : ProfileUpdates)
  | GetProfile (uid : string)
  | ChangePassword (p : PasswordChange)
  | ListDevices
  | RevokeDevice (id : string)
  | RevokeAllOtherDevices
  | GetRecoveryBundle (email : string)
  | RecoverAccount (p : Recovery)
  | RegisterPublicKey (key : bytes)
  | GetMutualServers (uid : string)
  | GetMutualFriends (uid : string)
  | GetUserVoiceActivity (uid : string)
  | UpdatePresence (status : PresenceStatus) (text : option string)
  | GetPresence (uid : string)
  | GetBulkPresence (uids : list string)
  | RpcSetStatusOverride (status : PresenceStatus) (seconds : Z)
  | RpcClearStatusOverride
  | RpcGetMyPresence
  | JoinVoiceChannel (c : string)
  | LeaveVoiceChannel (c : string)
  | GetVoiceChannelState (c : string)
  | GetStreamPreviewToken (c : string)
  | GetNotificationPreferences
  | UpdateNotificationPreference (scopeType scopeId level : string)
  | GetVAPIDPublicKey
  | CreateUpload (u : Upload)
  | CompleteUpload (u : Completion)
  | GetDownloadURL (id : string) (thumbnail : bool)
  | ResolveRemoteInvite (inviteUrl : string)
  | CreateFederationAssertion (targetInstanceUrl : string)
  | FederationJoin (assertionToken inviteCode : string)
  | FederationLeave (sid : string)
  | FederationRefresh (refreshToken assertionToken : string).

(** ** Answers *)

Record TemplateAnswer := {
  ta_server : option Server;
  ta_channels : list Channel;
  ta_roles : list Role;
  ta_channelGroups : list ChannelGroup;
  (** the code of the invite the server made *)
  ta_invite : option string;
}.
Record JoinAnswer := {
  ja_server : option Server;
  ja_encryptedChannelKeys : bytes;
  ja_channelKeysIv : bytes;
}.
Record ResolvedInvite := {
  ri_server : option Server;
  ri_memberCount : Z;
  ri_invite : option Invite;
}.
(** The answers that may sign a user in; the last three are of a login only. *)
Record SignIn := {
  si_accessToken : string;
  si_refreshToken : string;
  si_user : option User;
  si_encryptedKeyBundle : bytes;
  si_keyBundleIv : bytes;
  si_salt : bytes;
}.
Record RecoveryBundle := {
  rb_recoveryEncryptedKeyBundle : bytes;
  rb_recoveryKeyBundleIv : bytes;
  rb_salt : bytes;
}.
Record VoiceActivity := {
  va_channelId : string;
  va_channelName : string;
  va_serverId : string;
  va_serverName : string;
  va_isStreamingVideo : bool;
}.
Record VoiceMember := {
  vm_userId : string;
  vm_isMuted : bool;
  vm_isDeafened : bool;
  vm_isStreamingVideo : bool;
}.
Record VoiceTicket := {
  vt_livekitUrl : string;
  vt_livekitToken : string;
  vt_roomName : string;
  vt_canScreenShare : bool;
}.
Record MyPresence := {
  mp_status : PresenceStatus;
  mp_statusText : string;
  mp_overrideStatus : PresenceStatus;
  mp_overrideExpiresAt : Z;
}.
Record UploadTicket := {
  ut_uploadId : string;
  ut_uploadUrl : string;
  ut_thumbnailUploadUrl : string;
}.
Record Uploaded := {
  ud_attachmentId : string;
  ud_url : string;
  ud_hasThumbnail : bool;
  ud_width : Z;
  ud_height : Z;
  ud_microThumbnail : bytes;
}.
Record FederationJoined := {
  fj_server : option Server;
  fj_channels : list Channel;
  fj_members : list Member;
  fj_accessToken : string;
  fj_refreshToken : string;
  fj_userId : string;
}.
Record DMAnswer := { da_dmChannel : option DMChannel; da_created : bool }.

Definition rpc_answer (q : rpc) : Type :=
  match q with
  | KeyRpc q => key_answer q
  | GetPublicKeys _ => gmap string bytes
  | RefreshToken _ => string * string
  | ListServers => list Server
  | CreateServer _ _ | GetServer _ | UpdateServer _ _ => option Server
  | CreateServerFromTemplate _ => TemplateAnswer
  | ListChannels _ => list Channel
  | CreateChannel _ _ _ _ _ | UpdateChannel _ _ | SyncChannelPermissions _ => option Channel
  | GetMessages _ => list Message * bool
  | SendMessage _ => string * option Timestamp
  | EditMessage _ _ _ _ => option Timestamp
  | GetReplies _ _ _ => list Message * Z
  | GetMessagesByIDs _ _ => list Message
  | SearchMessages _ => list Message * bool
  | CreateInvite _ _ _ => option string
  | JoinServer _ => JoinAnswer
  | ListMembers _ _ _ => list Member * list PublicUser
  | TimeoutMember _ _ _ | RemoveTimeout _ _ => option Member
  | ListChannelMembers _ => list Member
  | AcknowledgeRules _ => option Timestamp
  | CompleteOnboarding _ _ _ => option Timestamp * list string * list string
  | ListRoles _ => list Role
  | CreateRole _ _ _ _ | UpdateRole _ _ => option Role
  | PinMessage _ _ => option PinnedMessage
  | GetPinnedMessages _ _ _ => list PinnedMessage * bool
  | RpcListEmojis _ | RpcListUserEmojis => list CustomEmoji
  | CreateEmoji _ _ _ | UpdateEmoji _ _ => option CustomEmoji
  | ListServerSounds _ | ListUserSounds => list SoundboardSound
  | CreateSound _ _ _ | UpdateSound _ _ => option SoundboardSound
  | GetReactions _ _ => gmap string (list ReactionGroup) * gmap string CustomEmoji
  | CreateOrGetDMChannel _ | CreateGroupDMChannel _ _ => DMAnswer
  | ListDMChannels | ListMessageRequests => list DMChannel
  | AcceptMessageRequest _ | ReverseDecline _ => option DMChannel
  | ListBlocks | ListFriends => list User
  | SendFriendRequest _ => bool
  | ListFriendRequests => list FriendRequestEntry * list FriendRequestEntry
  | ListChannelGroups _ => list ChannelGroup
  | CreateChannelGroup _ _ | UpdateChannelGroup _ _ => option ChannelGroup
  | SetPermissionOverride _ _ _ _ _ => option PermissionOverride
  | ListPermissionOverrides _ => list PermissionOverride
  | GetEffectivePermissions _ _ _ => Z
  | ResolveInvite _ => ResolvedInvite
  | ListBans _ => list Ban
  | ReportMessage _ _ _ | ReportUser _ _ _ _ _ | ResolveReport _ _ _ => option Report
  | ListReports _ _ _ _ => list Report * string
  | GetSystemMessageConfig _ | UpdateSystemMessageConfig _ _ =>
      option ServerSystemMessageConfig
  | CreateWebhook _ _ _ => option Webhook * string * string
  | GetWebhook _ | UpdateWebhook _ _ _ => option Webhook
  | ListChannelWebhooks _ | ListServerWebhooks _ => list Webhook
  | RegenerateWebhookToken _ => string * string
  | ListWebhookDeliveries _ _ => list WebhookDelivery
  | RpcRegister _ | RpcLogin _ _ | RecoverAccount _ => SignIn
  | GetSalt _ => bytes
  | UpdateProfile _ | GetProfile _ => option User
  | ListDevices => list Device
  | RevokeAllOtherDevices => Z
  | GetRecoveryBundle _ => RecoveryBundle
  | GetMutualServers _ => list Server
  | GetMutualFriends _ => list User
  | GetUserVoiceActivity _ => list VoiceActivity
  | GetPresence _ => string * (PresenceStatus * string)
  | GetBulkPresence _ => list (string * (PresenceStatus * string))
  | RpcSetStatusOverride _ _ => PresenceStatus * Z
  | RpcGetMyPresence => MyPresence
  | JoinVoiceChannel _ => VoiceTicket
  | GetStreamPreviewToken _ => string * string * string
  | GetVoiceChannelState _ => list VoiceMember
  | GetNotificationPreferences => list (string * string * string)
  | GetVAPIDPublicKey => string
  | CreateUpload _ => UploadTicket
  | CompleteUpload _ => Uploaded
  | GetDownloadURL _ _ => string
  | ResolveRemoteInvite _ => string * string
  | CreateFederationAssertion _ => string
  | FederationJoin _ _ => FederationJoined
  | FederationRefresh _ _ => string * string
  | _ => unit
  end.

(** Requests that bypass the transport: the logout, and the objects behind signed URLs *)
Inductive web :=
  | PostLogout (token : string)
  | PutObject (url contentType : string) (data : bytes)
  | GetObject (url : string).
Record HttpAnswer := { http_status : Z; http_contentType : string; http_body : bytes }.

(** What a program waits for: an answer to a request sent with a token or without, to the
    home server or to a federated one, a plain HTTP answer, or the platform *)
Inductive request :=
  | Wire (token : option string) (q : rpc)
  | SpokeWire (instanceUrl : string) (token : option string) (q : rpc)
  | Fetch (w : web)
  (** the transaction that clears the four object stores of [crypto/storage.ts] *)
  | ClearCryptoStorage
  | Tick.
Definition response (q : request) : Type :=
  match q with Wire _ q | SpokeWire _ _ q => rpc_answer q | Fetch _ => HttpAnswer
  | ClearCryptoStorage | Tick => unit end.

(** The values of promises that are shared *)
Inductive value :=
  | Nothing
  | Flag (b : bool)
  | Emojis_ (l : list CustomEmoji).
Definition flag_of (v : value) : bool := match v with Flag b => b | _ => true end.

(** ** The page *)

(** The stores that only the sign-in and the settings touch *)
Record Others := {
  federation : Federation.FederationState;
  participants : VoiceParticipants.VoiceParticipantsState;
  audio : AudioSettings.AudioSettingsState;
  stream : StreamSettings.StreamStore;
  keybinds : Keybinds.KeybindOverridesState;
  (** local storage: how often emojis were used *)
  frequentEmojis : option json;
  (** [refreshPromises] of [federation-transport.ts] *)
  spokePromises : gmap string nat;
}.

Record App := {
  client : Client;
  authSystem : AuthSystem;
  (** [identity] of [session.ts] *)
  identity : option IdentityKeypair;
  keyFetches : gmap string nat;
  keyInits : gmap string nat;
  keyQueues : gmap nat (list string);
  (** the server ids of the spokes the federation store keeps in local storage *)
  federatedIds : gset string;
  invites : Invites;
  emojiInflight : gmap string nat;
  personalEmojiInflight : option nat;
  refreshPromise : option nat;
  others : Others;
}.

Definition on_client f (s : App) : App :=
  {| client := f (client s); authSystem := authSystem s; identity := identity s;
     keyFetches := keyFetches s; keyInits := keyInits s; keyQueues := keyQueues s;
     federatedIds := federatedIds s;
     invites := invites s; emojiInflight := emojiInflight s;
     personalEmojiInflight := personalEmojiInflight s; refreshPromise := refreshPromise s;
     others := others s |}.
Definition on_auth f (s : App) : App :=
  {| client := client s; authSystem := f (authSystem s); identity := identity s;
     keyFetches := keyFetches s; keyInits := keyInits s; keyQueues := keyQueues s;
     federatedIds := federatedIds s;
     invites := invites s; emojiInflight := emojiInflight s;
     personalEmojiInflight := personalEmojiInflight s; refreshPromise := refreshPromise s;
     others := others s |}.
Definition on_invites f (s : App) : App :=
  {| client := client s; authSystem := authSystem s; identity := identity s;
     keyFetches := keyFetches s; keyInits := keyInits s; keyQueues := keyQueues s;
     federatedIds := federatedIds s;
     invites := f (invites s); emojiInflight := emojiInflight s;
     personalEmojiInflight := personalEmojiInflight s; refreshPromise := refreshPromise s;
     others := others s |}.
Definition on_emojiInflight f (s : App) : App :=
  {| client := client s; authSystem := authSystem s; identity := identity s;
     keyFetches := keyFetches s; keyInits := keyInits s; keyQueues := keyQueues s;
     federatedIds := federatedIds s;
     invites := invites s; emojiInflight := f (emojiInflight s);
     personalEmojiInflight := personalEmojiInflight s; refreshPromise := refreshPromise s;
     others := others s |}.
Definition set_personalEmojiInflight x (s : App) : App :=
  {| client := client s; authSystem := authSystem s; identity := identity s;
     keyFetches := keyFetches s; keyInits := keyInits s; keyQueues := keyQueues s;
     federatedIds := federatedIds s;
     invites := invites s; emojiInflight := emojiInflight s;
     personalEmojiInflight := x; refreshPromise := refreshPromise s;
     others := others s |}.
Definition set_refreshPromise x (s : App) : App :=
  {| client := client s; authSystem := authSystem s; identity := identity s;
     keyFetches := keyFetches s; keyInits := keyInits s; keyQueues := keyQueues s;
     federatedIds := federatedIds s;
     invites := invites s; emojiInflight := emojiInflight s;
     personalEmojiInflight := personalEmojiInflight s; refreshPromise := x;
     others := others s |}.

Definition on_others f (s : App) : App :=
  {| client := client s; authSystem := authSystem s; identity := identity s;
     keyFetches := keyFetches s; keyInits := keyInits s; keyQueues := keyQueues s;
     federatedIds := federatedIds s; invites := invites s; emojiInflight := emojiInflight s;
     personalEmojiInflight := personalEmojiInflight s; refreshPromise := refreshPromise s;
     others := f (others s) |}.

(** The channel-keys module's part of the page *)
Definition key_module (s : App) : KeyModule :=
  {| ks := Client.keys (local (client s)); fetchInFlight := keyFetches s;
     lazyInitInFlight := keyInits s; queues := keyQueues s |}.
Definition put_key_module (m : KeyModule) (s : App) : App :=
  {| client := on_local (on_keys (λ _, ks m)) (client s); authSystem := authSystem s;
     identity := identity s; keyFetches := fetchInFlight m; keyInits := lazyInitInFlight m;
     keyQueues := queues m; federatedIds := federatedIds s;
     invites := invites s; emojiInflight := emojiInflight s;
     personalEmojiInflight := personalEmojiInflight s; refreshPromise := refreshPromise s;
     others := others s |}.
Definition on_key_module (f : KeyModule → KeyModule) (s : App) : App :=
  put_key_module (f (key_module s)) s.

(** [serverIndex] of the federation store *)
Definition serverIndex (s : App) : gmap string string :=
  Federation.serverIndex (federation (others s)).

Definition user_id (s : App) : option string := Auth.id <$> Auth.user (auth (authSystem s)).

Definition aprog : Type → Type := prog App failure value response.
Definition apage : Type := page App failure value response.

(** ** The interceptor *)

(** [next(req)] *)
Definition wire (token : option string) (q : rpc) : aprog (rpc_answer q) :=
  Await (Wire token q) (λ r : result failure (rpc_answer q), of_result r).

Definition is_public (q : rpc) : bool :=
  match q with
  | RpcRegister _ | RpcLogin _ _ | GetSalt _ | RefreshToken _ | ResolveInvite _ => true
  | _ => false
  end.

(** [await import('./auth.ts')] and the renewal itself; the promise's value says whether
    the tokens are new. *)
Definition refreshTokens : aprog value :=
  let* refreshToken := look (λ s, Auth.refreshToken (auth (authSystem s))) in
  if truthy refreshToken then
    catch
      (await Tick ;;
       let* res := wire None (RefreshToken (or_default "" refreshToken)) in
       modify (on_auth (Auth.setTokens res.1 res.2)) ;; Ret (Flag true))
      (λ _, modify (on_auth Auth.clearAuth) ;; Ret (Flag false))
  else modify (on_auth Auth.clearAuth) ;; Ret (Flag false).

(** [p.finally(f)] *)
Definition settled (pid : nat) (f : App → App) : aprog value :=
  WaitFor pid (λ r, Do f (of_result r)).

(** The renewal that is running, or a new one *)
Definition renewal : aprog nat :=
  Look (λ s,
    match refreshPromise s with
    | Some existing => Ret existing
    | None =>
        Spawn refreshTokens (λ inner,
        Spawn (settled inner (set_refreshPromise None)) (λ promise,
        Do (set_refreshPromise (Some promise)) (Ret promise)))
    end).

(** The value of the [Authorization] header: a token that is not empty *)
Definition access_token (s : App) : option string :=
  let t := Auth.accessToken (auth (authSystem s)) in if truthy t then t else None.

(** The header a request is sent with *)
Definition header (q : rpc) (s : App) : option string :=
  if is_public q then None else access_token s.

Definition refused (e : failure) : bool :=
  match e with ConnectError Unauthenticated _ => true | _ => false end.

(** A retry without a token keeps the header of the first attempt. *)
Definition retry (sent : option string) (q : rpc) : aprog (rpc_answer q) :=
  let* fresh := look access_token in
  wire (match fresh with Some _ => fresh | None => sent end) q.

Definition call (q : rpc) : aprog (rpc_answer q) :=
  if is_public q then wire None q
  else
    let* sent := look access_token in
    Await (Wire sent q) (λ r : result failure (rpc_answer q),
      match r with
      | Ok a => Ret a
      | Throw err =>
          if refused err then
            let* promise := renewal in
            let* success := wait_for promise in
            if flag_of success then retry sent q else Raise err
          else Raise err
      end).

(** ** The operations on channel keys, as part of the page *)

Definition to_key {A} (r : result failure A) : result string A :=
  match r with Ok a => Ok a | Throw e => Throw (message_of e) end.
Definition key_flag (r : result failure value) : result string bool :=
  match r with Ok v => Ok (flag_of v) | Throw e => Throw (message_of e) end.

(** [call] with its failure as a value *)
Definition attempt {A} (p : aprog A) : aprog (result failure A) :=
  catch (let* a := p in Ret (Ok a)) (λ e, Ret (Throw e)).

Definition key_await {A} (q : key_request) :
    (result string (key_answer q) → aprog A) → aprog A :=
  match q as q' return ((result string (key_answer q') → aprog A) → aprog A) with
  | Pause => λ k, Await Tick (λ r, k (to_key r))
  | q' => λ k, let* r := attempt (call (KeyRpc q')) in k (to_key r)
  end.

Fixpoint embed {A} (p : kprog A) : aprog A :=
  match p with
  | Ret a => Ret a
  | Raise e => Raise (Error e)
  | Look k => Look (λ s, embed (k (key_module s)))
  | Do f k => Do (on_key_module f) (embed k)
  | Await q k => key_await q (λ r, embed (k r))
  | Spawn p k => Spawn (let* b := embed p in Ret (Flag b)) (λ pid, embed (k pid))
  | WaitFor pid k => WaitFor pid (λ r, embed (k (key_flag r)))
  end.
