(* ===== verification/Calls.v ===== *)
(** * The remote calls ([api/chat.ts])

    Every function of the chat API as a program over the page: what it does to the
    stores before it asks, what it asks, what it does with the answer, and what it
    throws.  Other functions, the gateway and the views run while it waits. *)

From S2P Require Export App.
From S2P Require Import Auth Notifier Permissions KeyStorage Invites.

Open Scope meza_scope.

(** ** Errors *)

Definition mapChatError (err : failure) : string :=
  match err with
  | ConnectError code _ =>
      match code with
      | PermissionDenied => "You do not have access"
      | NotFound => "Not found"
      | InvalidArgument => "Invalid input. Please check your request."
      | AlreadyExists => "You are already a member of this server"
      | ResourceExhausted => "Limit reached. Please try again later."
      | Unauthenticated => "Your session has expired. Please log in again."
      | _ => "Something went wrong. Please try again."
      end
  | Error _ => "Network error. Please check your connection."
  end.

Definition mapReportError (err : failure) : string :=
  match err with
  | ConnectError AlreadyExists _ =>
      "You've already reported this — we're reviewing it."
  | ConnectError ResourceExhausted _ =>
      "You've sent too many reports recently. Please try again later."
  | ConnectError InvalidArgument message =>
      if bool_decide (message = "") then "Please pick a category before submitting."
      else message
  | _ => mapChatError err
  end.

Record UploadedFile := {
  uf_attachmentId : string;
  uf_filename : string;
  uf_contentType : string;
  uf_sizeBytes : Z;
  uf_url : string;
  uf_hasThumbnail : bool;
  uf_width : Z;
  uf_height : Z;
  uf_microThumbnail : bytes;
}.
Record SendParams := {
  sp_channelId : string;
  sp_encryptedContent : bytes;
  sp_keyVersion : option Z;
  sp_nonce : string;
  sp_plaintext : option bytes;
  sp_uploadedFiles : option (list UploadedFile);
  sp_replyToId : option string;
  sp_mentionedUserIds : option (list string);
  sp_mentionedRoleIds : option (list string);
  sp_mentionEveryone : option bool;
}.
Record PageOptions := {
  po_before : option string;
  po_after : option string;
  po_around : option string;
  po_limit : option Z;
}.

Definition TEXT : Z := 1.

(** What the functions take from the platform and the rest of the application *)
Class Environment := {
  (** [String.prototype.localeCompare] and [Date.prototype.toISOString] *)
  localeCompare : string → string → Z;
  toISOString : Z → string;
  (** the user for whom the reaction store computes [me] *)
  self : string;
  (** the [n]-th random value: channel keys, the secrets and nonces of envelopes, the
      secrets of invites and the nonces of their bundles *)
  random_key : nat → bytes;
  random_secret : nat → bytes;
  random_nonce : nat → bytes;
  random_invite : nat → bytes;
  random_iv : nat → bytes;
  (** JSON text, and the string a JSON value is converted to *)
  stringify : json → string;
  parse : string → result unit json;
  to_string : json → string;
  (** [getAppOrigin()] *)
  app_origin : string;
  (** how many pages of members the distribution of a key follows at most *)
  max_pages : nat;
}.

Section calls.
Context `{Crypto} `{Environment}.

(** ** The stores *)

Definition act (c : component) (a : action_of c) : aprog unit :=
  modify (on_client (Client.act localeCompare self c a)).
(** [if (x) store.action(x)] *)
Definition act_some {A} (o : option A) (f : A → aprog unit) : aprog unit :=
  match o with Some a => f a | None => Ret tt end.

(** [catch (err) { throw new Error(mapChatError(err)) }] *)
Definition rethrow {A} (p : aprog A) : aprog A :=
  catch p (λ err, Raise (Error (mapChatError err))).
(** [catch (err) { store.setError(mapChatError(err)); throw err }] *)
Definition reporting {A} (c : component) (setError : option string → action_of c)
    (p : aprog A) : aprog A :=
  catch p (λ err, act c (setError (Some (mapChatError err))) ;; Raise err).
(** [store.setError(null)] before *)
Definition clearing {A} (c : component) (setError : option string → action_of c)
    (p : aprog A) : aprog A :=
  act c (setError None) ;; reporting c setError p.
(** [store.setLoading(true)] before that *)
Definition loading {A} (c : component) (setLoading : bool → action_of c)
    (setError : option string → action_of c) (p : aprog A) : aprog A :=
  act c (setLoading true) ;; clearing c setError p.

(** ** Profiles *)

Definition isZero (n : number) : bool := Num.eqn n Num.zero || Num.is_nan n.

Definition toStoredUser (user : User) : StoredUser :=
  {| Auth.id := u_id user; Auth.username := u_username user;
     Auth.displayName := u_displayName user; Auth.avatarUrl := u_avatarUrl user;
     Auth.emojiScale := if isZero (u_emojiScale user) then Num.one else u_emojiScale user;
     Auth.bio := u_bio user; Auth.pronouns := u_pronouns user;
     Auth.bannerUrl := u_bannerUrl user;
     Auth.themeColorPrimary := u_themeColorPrimary user;
     Auth.themeColorSecondary := u_themeColorSecondary user;
     Auth.simpleMode := u_simpleMode user;
     Auth.dmPrivacy := str_or (u_dmPrivacy user) "message_requests";
     Auth.friendRequestPrivacy := str_or (u_friendRequestPrivacy user) "everyone";
     Auth.profilePrivacy := str_or (u_profilePrivacy user) "everyone";
     Auth.connections := (λ c, {| Auth.platform := uc_platform c; Auth.url := uc_url c;
       Auth.uc_label := Models.uc_label c |}) <$> u_connections user;
     Auth.createdAt := match u_createdAt user with
       | Some t => toISOString (ts_seconds t * 1000) | None => "" end |}.

(** Every participant's profile, with the time at which it came *)
Definition cacheDMParticipants (dmChannels : list DMChannel) : aprog unit :=
  modify (on_client (λ s, on_local (on_users (λ u,
    foldl (λ u p, Auth.setProfile (Dispatch.now s) (u_id p) (toStoredUser p) u) u
      (dmChannels ≫= dm_participants))) s)).

(** ** Channel keys *)

Definition keyed {A} (p : kprog A) : aprog A := embed p.

(** The keys of the members that have one, in the order of the ids *)
Definition member_keys (pubKeys : gmap string bytes) (ids : list string)
    : list (string * bytes) :=
  foldl (λ m userId, match pubKeys !! userId with
                     | Some pk => obj_set userId pk m | None => m end) [] ids.

Definition provisionChannelKey (channelId : string) (memberUserIds : list string)
    : aprog unit :=
  let* ready := look (λ s, sessionReady (local (client s))) in
  if negb ready then Ret tt
  else
    let* id := look identity in
    match id with
    | None => Ret tt
    | Some _ =>
        let* kv := keyed (createKey random_key channelId) in
        let* pubKeys := call (GetPublicKeys memberUserIds) in
        let memberPubKeys := member_keys pubKeys memberUserIds in
        if bool_decide (memberPubKeys = []) then Ret tt
        else
          let* envelopes :=
            keyed (wrap_all random_secret random_nonce channelId kv.1 memberPubKeys) in
          let* _ := call (KeyRpc (StoreKeyEnvelopes channelId kv.2 envelopes)) in Ret tt
    end.

(** A program whose failures are only logged *)
Definition logged (p : aprog unit) : aprog unit := catch p (λ _, Ret tt).
(** A program that is started and not waited for *)
Definition background {A} (p : aprog A) : aprog unit :=
  Spawn (let* _ := p in Ret Nothing) (λ _, Ret tt).

Definition redistribute (ids : list string) : aprog unit :=
  background (keyed (redistributeChannelKeys random_secret random_nonce max_pages ids)).
Definition hasKey (s : App) (c : string) : bool :=
  ChannelKeys.hasChannelKey c (Client.keys (local (client s))).

Definition distributeKeysForServer (serverId : string) : aprog unit :=
  let* channelIds := look (λ s,
    ch_id <$> filter (λ ch, hasKey s (ch_id ch) = true)
      (or_default [] (Channels.byServer (channels (client s)) !! serverId))) in
  if bool_decide (channelIds = []) then Ret tt else redistribute channelIds.

(** The channels of a group, server by server.  The order of the servers is that of the
    map, where the source has that in which they were loaded. *)
Definition group_channels (targetId : string) (s : App) : list string :=
  (map_to_list (Channels.byServer (channels (client s)))).*2 ≫= (λ chs,
    ch_id <$> filter (λ ch, ch_channelGroupId ch = Some targetId ∧ hasKey s (ch_id ch) = true)
      chs).

Definition distributeKeysForOverrideTarget (targetId : string) : aprog unit :=
  let* known := look (λ s,
    truthy (Channels.channelToServer (channels (client s)) !! targetId)) in
  if known : bool then
    let* has := look (λ s, hasKey s targetId) in
    if has : bool then redistribute [targetId] else Ret tt
  else
    let* channelIds := look (group_channels targetId) in
    if bool_decide (channelIds = []) then Ret tt else redistribute channelIds.

(** ** Servers *)

Definition setServers (l : list Server) : aprog unit :=
  Look (λ s, act C_servers (Servers.SetServers (serverIndex s) (federatedIds s) l)).
Definition addServer (sv : Server) : aprog unit := act C_servers (Servers.AddServer sv).

Definition listServers : aprog (list Server) :=
  loading C_servers Servers.SetLoading Servers.SetError
    (let* servers := call ListServers in setServers servers ;; Ret servers).

Definition createServer (name : string) (iconUrl : option string) : aprog (option Server) :=
  loading C_servers Servers.SetLoading Servers.SetError
    (let* server := call (CreateServer name iconUrl) in
     act_some server addServer ;;
     act C_servers (Servers.SetLoading false) ;; Ret server).

Definition getServer (serverId : string) : aprog (option Server) :=
  rethrow (let* server := call (GetServer serverId) in
           act_some server addServer ;; Ret server).
Definition updateServer (serverId : string) (updates : ServerUpdates)
    : aprog (option Server) :=
  rethrow (let* server := call (UpdateServer serverId updates) in
           act_some server addServer ;; Ret server).

(** ** Channels *)

Definition listChannels (serverId : string) : aprog (list Channel) :=
  loading C_channels Channels.SetLoading Channels.SetError
    (let* channels := call (ListChannels serverId) in
     act C_channels (Channels.SetChannels serverId channels) ;; Ret channels).

Definition createChannel (serverId name : string) (type : Z) (isPrivate : bool)
    (channelGroupId : option string) : aprog (option Channel) :=
  loading C_channels Channels.SetLoading Channels.SetError
    (let* channel := call (CreateChannel serverId name type isPrivate channelGroupId) in
     act_some channel (λ ch,
       act C_channels (Channels.AddChannel ch) ;;
       logged
         (if isPrivate then
            let* userId := look user_id in
            if truthy userId then provisionChannelKey (ch_id ch) [or_default "" userId]
            else Ret tt
          else
            let* _ := keyed (provisionChannelKeyBatched random_key random_secret random_nonce
              max_pages (ch_id ch)) in Ret tt)) ;;
     act C_channels (Channels.SetLoading false) ;; Ret channel).

Definition updateChannel (channelId : string) (updates : ChannelUpdates)
    : aprog (option Channel) :=
  clearing C_channels Channels.SetError
    (let* channel := call (UpdateChannel channelId updates) in
     act_some channel (λ ch, act C_channels (Channels.UpdateChannel ch)) ;; Ret channel).

Definition deleteChannel (channelId : string) : aprog unit :=
  clearing C_channels Channels.SetError
    (let* _ := call (DeleteChannel channelId) in
     act C_channels (Channels.RemoveChannel channelId)).

Definition syncChannelPermissions (channelId : string) : aprog (option Channel) :=
  clearing C_channels Channels.SetError
    (let* channel := call (SyncChannelPermissions channelId) in
     act_some channel (λ ch, act C_channels (Channels.UpdateChannel ch)) ;;
     act C_overrides (PermissionOverrides.SetOverrides channelId []) ;; Ret channel).

(** ** Messages *)

Definition getMessages (channelId : string) (opts : PageOptions)
    : aprog (list Message * bool) :=
  act C_messages (Messages.SetLoading channelId true) ;;
  clearing C_messages (Messages.SetError channelId)
    (let* res := call (GetMessages
       {| pr_channelId := channelId; pr_before := or_default "" (po_before opts);
          pr_after := or_default "" (po_after opts);
          pr_around := or_default "" (po_around opts);
          pr_limit := or_default 50%Z (po_limit opts) |}) in
     act C_messages
       (if truthy (po_around opts) then Messages.SetMessages channelId res.1
        else if truthy (po_before opts) then Messages.PrependMessages channelId res.1
        else Messages.HydrateMessages channelId res.1) ;;
     act C_messages (Messages.SetHasMore channelId res.2) ;;
     act C_messages (Messages.SetLoading channelId false) ;; Ret res).

Definition upload_attachment (f : UploadedFile) : Attachment :=
  {| at_id := uf_attachmentId f; at_filename := uf_filename f;
     at_contentType := uf_contentType f; at_sizeBytes := uf_sizeBytes f;
     at_url := uf_url f; at_encryptedKey := []; at_width := uf_width f;
     at_height := uf_height f; at_hasThumbnail := uf_hasThumbnail f;
     at_microThumbnail := uf_microThumbnail f; at_isSpoiler := false |}.

Definition outgoing (p : SendParams) : Outgoing :=
  {| og_channelId := sp_channelId p; og_encryptedContent := sp_encryptedContent p;
     og_keyVersion := or_default 0%Z (sp_keyVersion p); og_nonce := sp_nonce p;
     og_attachmentIds := uf_attachmentId <$> or_default [] (sp_uploadedFiles p);
     og_replyToId := sp_replyToId p;
     og_mentionedUserIds := or_default [] (sp_mentionedUserIds p);
     og_mentionedRoleIds := or_default [] (sp_mentionedRoleIds p);
     og_mentionEveryone := or_default false (sp_mentionEveryone p) |}.

(** The message as it is shown before the gateway delivers it *)
Definition optimisticMsg (p : SendParams) (authorId messageId : string)
    (createdAt : option Timestamp) : Message :=
  {| m_id := messageId; m_channelId := sp_channelId p; m_authorId := authorId;
     m_encryptedContent := or_default (sp_encryptedContent p) (sp_plaintext p);
     m_attachments := upload_attachment <$> or_default [] (sp_uploadedFiles p);
     m_createdAt := createdAt; m_editedAt := None; m_replyToId := sp_replyToId p;
     m_embeds := []; m_mentionedUserIds := or_default [] (sp_mentionedUserIds p);
     m_mentionEveryone := or_default false (sp_mentionEveryone p);
     m_mentionedRoleIds := or_default [] (sp_mentionedRoleIds p);
     m_keyVersion := 0; m_type := 0 |}.

Definition sendMessage (params : SendParams) : aprog (string * option Timestamp) :=
  reporting C_messages (Messages.SetError (sp_channelId params))
    (let* res := call (SendMessage (outgoing params)) in
     let* authorId := look (λ s, or_default "" (user_id s)) in
     act C_messages (Messages.AddMessage (sp_channelId params)
       (optimisticMsg params authorId res.1 res.2)) ;;
     Ret res).

Definition editMessage (channelId messageId : string) (encryptedContent : bytes)
    (keyVersion : option Z) : aprog (option Timestamp) :=
  rethrow (call (EditMessage channelId messageId encryptedContent (or_default 0%Z keyVersion))).
Definition deleteMessage (channelId messageId : string) : aprog unit :=
  rethrow (call (DeleteMessage channelId messageId)).
Definition getReplies (channelId messageId : string) (limit : option Z)
    : aprog (list Message * Z) := rethrow (call (GetReplies channelId messageId limit)).
Definition getMessagesByIDs (channelId : string) (ids : list string)
    : aprog (list Message) := rethrow (call (GetMessagesByIDs channelId ids)).
Definition ackMessage (channelId messageId : string) : aprog unit :=
  rethrow (call (AckMessage channelId messageId)).
Definition searchMessages (c : string) (author : option string) (hasAttachment : option bool)
    (mentioned before after : option string) (limit : option Z) : aprog (list Message * bool) :=
  rethrow (call (SearchMessages
    {| sr_channelId := c; sr_authorId := author; sr_hasAttachment := hasAttachment;
       sr_mentionedUserId := mentioned; sr_beforeId := before; sr_afterId := after;
       sr_limit := or_default 25%Z limit |})).

(** ** Moderation *)

Definition kickMember (serverId userId : string) : aprog unit :=
  rethrow (call (KickMember serverId userId)).
Definition banMember (serverId userId : string) (reason : option string) : aprog unit :=
  rethrow (call (BanMember serverId userId reason)).
Definition unbanMember (serverId userId : string) : aprog unit :=
  rethrow (call (UnbanMember serverId userId)).

(** ** Roles *)

Definition listRoles (serverId : string) : aprog (list Role) :=
  loading C_roles Roles.SetLoading Roles.SetError
    (let* roles := call (ListRoles serverId) in
     act C_roles (Roles.SetRoles serverId roles) ;; Ret roles).

Definition createRole (serverId name : string) (permissions color : Z)
    : aprog (option Role) :=
  clearing C_roles Roles.SetError
    (let* role := call (CreateRole serverId name permissions color) in
     act_some role (λ r, act C_roles (Roles.AddRole r)) ;; Ret role).

Definition views (permissions : Z) : bool :=
  negb (Z.land permissions (Permissions VIEW_CHANNEL) =? 0)%Z.

(** The permissions the role has in the store, if some server's list has it.  A role is
    in one list only, so the order of the servers does not matter. *)
Definition old_permissions (roleId : string) (s : App) : Z :=
  or_default 0%Z (r_permissions <$>
    find_key r_id roleId
      (concat (map_to_list (Roles.byServer (Roles.store (stores (client s) C_roles)))).*2)).

Definition updateRole (roleId : string) (updates : RoleUpdates) : aprog (option Role) :=
  act C_roles (Roles.SetError None) ;;
  let* oldPerms := look (old_permissions roleId) in
  reporting C_roles Roles.SetError
    (let* role := call (UpdateRole roleId updates) in
     act_some role (λ r,
       act C_roles (Roles.UpdateRole r) ;;
       let* ready := look (λ s, sessionReady (local (client s))) in
       if bool_decide (is_Some (ru_permissions updates)) && ready &&
          negb (bool_decide (r_serverId r = "")) &&
          negb (views oldPerms) && views (r_permissions r)
       then distributeKeysForServer (r_serverId r) else Ret tt) ;;
     Ret role).

Definition deleteRole (roleId : string) : aprog unit := rethrow (call (DeleteRole roleId)).
Definition reorderRoles (serverId : string) (roleIds : list string) : aprog unit :=
  rethrow (call (ReorderRoles serverId roleIds)).

(** ** Pins *)

Definition pinMessage (channelId messageId : string) : aprog (option PinnedMessage) :=
  rethrow (let* pin := call (PinMessage channelId messageId) in
           act_some pin (λ p, act C_pins (Pins.AddPin channelId p)) ;; Ret pin).
Definition unpinMessage (channelId messageId : string) : aprog unit :=
  rethrow (let* _ := call (UnpinMessage channelId messageId) in
           act C_pins (Pins.RemovePin channelId messageId)).
Definition getPinnedMessages (channelId : string) (before : option string)
    : aprog (list PinnedMessage) :=
  loading C_pins (Pins.SetLoading channelId) (Pins.SetError channelId)
    (let* res := call (GetPinnedMessages channelId (or_default "" before) 50) in
     act C_pins
       (if truthy before then Pins.AppendPinnedMessages channelId res.1 res.2
        else Pins.SetPinnedMessages channelId res.1 res.2) ;;
     Ret res.1).

(** ** Emojis *)

(** What a request that is in flight does when it is answered: its answer is stored only
    if the same user is signed in as when it was sent. *)
Definition in_session (sessionUserId : option string) (p : aprog unit) : aprog unit :=
  let* current := look user_id in
  if bool_decide (current = sessionUserId) then p else Ret tt.

Definition fetch_emojis (q : aprog (list CustomEmoji))
    (store : list CustomEmoji → aprog unit) (forget : App → App) : aprog value :=
  let* sessionUserId := look user_id in
  act C_emojis (Emojis.SetError None) ;;
  let finish (r : result failure value) : aprog value := Do forget (of_result r) in
  let* r := attempt
    (catch
      (let* emojis := q in
       in_session sessionUserId (store emojis) ;; Ret (Emojis_ emojis))
      (λ err,
         in_session sessionUserId (act C_emojis (Emojis.SetError (Some (mapChatError err)))) ;;
         Raise err)) in
  finish r.

Definition emojis_of (v : value) : list CustomEmoji := match v with Emojis_ l => l | _ => [] end.

Definition listEmojis (serverId : string) : aprog (list CustomEmoji) :=
  let* pid := Look (λ s : App,
    match emojiInflight s !! serverId with
    | Some existing => Ret existing
    | None =>
        Spawn (fetch_emojis (call (RpcListEmojis serverId))
          (λ emojis, act C_emojis (Emojis.SetEmojis serverId emojis) ;;
                     act C_emojis (Emojis.MarkServerRefreshed serverId))
          (on_emojiInflight (delete serverId))) (λ promise,
        Do (on_emojiInflight <[serverId := promise]>) (Ret promise))
    end) in
  let* v := wait_for pid in Ret (emojis_of v).

Definition listUserEmojis : aprog (list CustomEmoji) :=
  let* pid := Look (λ s : App,
    match personalEmojiInflight s with
    | Some existing => Ret existing
    | None =>
        Spawn (fetch_emojis (call RpcListUserEmojis)
          (λ emojis, act C_emojis (Emojis.SetPersonalEmojis emojis) ;;
                     act C_emojis Emojis.MarkPersonalRefreshed)
          (set_personalEmojiInflight None)) (λ promise,
        Do (set_personalEmojiInflight (Some promise)) (Ret promise))
    end) in
  let* v := wait_for pid in Ret (emojis_of v).

Definition createEmoji (name attachmentId : string) (serverId : option string)
    : aprog (option CustomEmoji) :=
  clearing C_emojis Emojis.SetError
    (let* emoji := call (CreateEmoji (or_default "" serverId) name attachmentId) in
     act_some emoji (λ e, act C_emojis (Emojis.AddEmoji e)) ;; Ret emoji).
Definition updateEmoji (emojiId name : string) : aprog (option CustomEmoji) :=
  clearing C_emojis Emojis.SetError
    (let* emoji := call (UpdateEmoji emojiId name) in
     act_some emoji (λ e, act C_emojis (Emojis.UpdateEmoji e)) ;; Ret emoji).
Definition deleteEmoji (emojiId : string) : aprog unit :=
  rethrow (call (DeleteEmoji emojiId)).

(** ** Members *)

Definition listMembers (serverId : string) (after : option string) (limit : option Z)
    : aprog (list Member) :=
  loading C_members Members.SetLoading Members.SetError
    (let* res := call (ListMembers serverId (or_default "" after) (or_default 200%Z limit)) in
     act C_members (Members.SetMembers serverId res.1) ;;
     (if bool_decide (res.2 = []) then Ret tt
      else modify (on_client (λ s, on_local (on_users
             (Auth.setProfiles (Dispatch.now s) (publicUserToStored <$> res.2))) s))) ;;
     Ret res.1).
Definition updateMember (serverId userId : string) (nickname : option string) : aprog unit :=
  rethrow (call (UpdateMember serverId userId nickname)).
Definition setMemberRoles (serverId userId : string) (roleIds : list string) : aprog unit :=
  rethrow (call (SetMemberRoles serverId userId roleIds)).
(** The moment in milliseconds; [Math.floor(ms / 1000)] *)
Definition timeoutMember (serverId userId : string) (ms : Z) : aprog (option Member) :=
  rethrow (call (TimeoutMember serverId userId (ms / 1000))).
Definition removeTimeout (serverId userId : string) : aprog (option Member) :=
  rethrow (call (RemoveTimeout serverId userId)).
Definition addChannelMember (channelId userId : string) : aprog unit :=
  rethrow (call (AddChannelMember channelId userId)).
Definition removeChannelMember (channelId userId : string) : aprog unit :=
  rethrow (call (RemoveChannelMember channelId userId)).
Definition listChannelMembers (channelId : string) : aprog (list Member) :=
  rethrow (call (ListChannelMembers channelId)).

(** [{ ...me, rulesAcknowledgedAt }] and [{ ...me, onboardingCompletedAt }] *)
Definition with_rules (t : option Timestamp) (m : Member) : Member :=
  {| mb_userId := mb_userId m; mb_serverId := mb_serverId m; mb_roleIds := mb_roleIds m;
     mb_nickname := mb_nickname m; mb_joinedAt := mb_joinedAt m;
     mb_timedOutUntil := mb_timedOutUntil m;
     mb_onboardingCompletedAt := mb_onboardingCompletedAt m; mb_rulesAcknowledgedAt := t;
     mb_homeUserId := mb_homeUserId m; mb_inviterUserId := mb_inviterUserId m |}.
Definition with_onboarding (t : option Timestamp) (m : Member) : Member :=
  {| mb_userId := mb_userId m; mb_serverId := mb_serverId m; mb_roleIds := mb_roleIds m;
     mb_nickname := mb_nickname m; mb_joinedAt := mb_joinedAt m;
     mb_timedOutUntil := mb_timedOutUntil m; mb_onboardingCompletedAt := t;
     mb_rulesAcknowledgedAt := mb_rulesAcknowledgedAt m;
     mb_homeUserId := mb_homeUserId m; mb_inviterUserId := mb_inviterUserId m |}.

(** The user's own entry in the member list, changed if the server says when *)
Definition patch_me (serverId : string) (t : option Timestamp) (f : Member → Member)
    : aprog unit :=
  Look (λ s,
    let userId := user_id s in
    if truthy userId && bool_decide (is_Some t) then
      match find_key mb_userId (or_default "" userId)
          (or_default [] (Members.byServer (stores (client s) C_members) !! serverId)) with
      | Some me => act C_members (Members.UpdateMember (f me))
      | None => Ret tt
      end
    else Ret tt).

Definition acknowledgeRules (serverId : string) : aprog (option Timestamp) :=
  rethrow (let* at_ := call (AcknowledgeRules serverId) in
           patch_me serverId at_ (with_rules at_) ;; Ret at_).
Definition completeOnboarding (serverId : string) (channelIds roleIds : list string)
    : aprog (option Timestamp * list string * list string) :=
  rethrow (let* res := call (CompleteOnboarding serverId channelIds roleIds) in
           patch_me serverId res.1.1 (with_onboarding res.1.1) ;; Ret res).

(** ** Sounds *)

Definition listServerSounds (serverId : string) : aprog (list SoundboardSound) :=
  loading C_sounds Sounds.SetLoading Sounds.SetError
    (let* sounds := call (ListServerSounds serverId) in
     act C_sounds (Sounds.SetServerSounds serverId sounds) ;; Ret sounds).
Definition listUserSounds : aprog (list SoundboardSound) :=
  loading C_sounds Sounds.SetLoading Sounds.SetError
    (let* sounds := call ListUserSounds in
     act C_sounds (Sounds.SetPersonalSounds sounds) ;; Ret sounds).
Definition createSound (name attachmentId : string) (serverId : option string)
    : aprog (option SoundboardSound) :=
  clearing C_sounds Sounds.SetError
    (let* sound := call (CreateSound name attachmentId (or_default "" serverId)) in
     act_some sound (λ x, act C_sounds (Sounds.AddSound x)) ;; Ret sound).
Definition updateSound (soundId name : string) : aprog (option SoundboardSound) :=
  clearing C_sounds Sounds.SetError
    (let* sound := call (UpdateSound soundId name) in
     act_some sound (λ x, act C_sounds (Sounds.UpdateSound x)) ;; Ret sound).
Definition deleteSound (soundId : string) : aprog unit := rethrow (call (DeleteSound soundId)).

(** ** Reactions *)

Definition addReaction (channelId messageId emoji : string) : aprog unit :=
  rethrow (call (AddReaction channelId messageId emoji)).
Definition removeReaction (channelId messageId emoji : string) : aprog unit :=
  rethrow (call (RemoveReaction channelId messageId emoji)).
Definition getReactions (channelId : string) (messageIds : list string)
    : aprog (gmap string (list ReactionGroup)) :=
  rethrow
    (let* res := call (GetReactions channelId messageIds) in
     act C_reactions (Reactions.SetBulkReactions res.1) ;;
     (if bool_decide (res.2 = ∅) then Ret tt
      else act C_emojis (Emojis.SetReactionEmojis res.2)) ;;
     Ret res.1).

(** ** Direct messages *)

Definition take_dm (dm : DMChannel) : aprog unit :=
  act C_dms (Dms.AddOrUpdateDMChannel dm) ;; cacheDMParticipants [dm].

(** The key of a conversation that was just made, for the user and [others] *)
Definition provision_dm (res : DMAnswer) (dm : DMChannel) (members : string → list string)
    : aprog unit :=
  match dm_channelId dm with
  | Some c =>
      if da_created res then
        let* userId := look user_id in
        if truthy userId then logged (provisionChannelKey c (members (or_default "" userId)))
        else Ret tt
      else Ret tt
  | None => Ret tt
  end.

Definition createOrGetDMChannel (recipientId : string) : aprog DMAnswer :=
  loading C_dms Dms.SetLoading Dms.SetError
    (let* res := call (CreateOrGetDMChannel recipientId) in
     act_some (da_dmChannel res) (λ dm,
       take_dm dm ;;
       provision_dm res dm (λ userId,
         if bool_decide (userId = recipientId) then [userId] else [userId; recipientId])) ;;
     act C_dms (Dms.SetLoading false) ;; Ret res).
Definition createGroupDMChannel (participantIds : list string) (name : option string)
    : aprog DMAnswer :=
  loading C_dms Dms.SetLoading Dms.SetError
    (let* res := call (CreateGroupDMChannel participantIds name) in
     act_some (da_dmChannel res) (λ dm,
       take_dm dm ;; provision_dm res dm (λ userId, userId :: participantIds)) ;;
     act C_dms (Dms.SetLoading false) ;; Ret res).
Definition listDMChannels : aprog (list DMChannel) :=
  loading C_dms Dms.SetLoading Dms.SetError
    (let* dmChannels := call ListDMChannels in
     act C_dms (Dms.SetDMChannels dmChannels) ;;
     cacheDMParticipants dmChannels ;; Ret dmChannels).

Definition listMessageRequests : aprog (list DMChannel) :=
  reporting C_dms Dms.SetError
    (let* dmChannels := call ListMessageRequests in
     act C_dms (Dms.SetMessageRequests dmChannels) ;;
     cacheDMParticipants dmChannels ;; Ret dmChannels).
Definition acceptMessageRequest (channelId : string) : aprog (option DMChannel) :=
  reporting C_dms Dms.SetError
    (let* dm := call (AcceptMessageRequest channelId) in
     act_some dm (λ dm, act C_dms (Dms.RemoveMessageRequest channelId) ;; take_dm dm) ;;
     Ret dm).
Definition declineMessageRequest (channelId : string) : aprog unit :=
  reporting C_dms Dms.SetError
    (let* _ := call (DeclineMessageRequest channelId) in
     act C_dms (Dms.RemoveMessageRequest channelId)).
Definition reverseDecline (channelId : string) : aprog (option DMChannel) :=
  reporting C_dms Dms.SetError
    (let* dm := call (ReverseDecline channelId) in act_some dm take_dm ;; Ret dm).

(** ** Blocks and friends *)

Definition listBlocks : aprog (list User) :=
  rethrow (let* users := call ListBlocks in
           act C_blocks (Blocks.SetBlockedUsers users) ;; Ret users).
Definition blockUser (userId : string) : aprog unit :=
  rethrow (let* _ := call (BlockUser userId) in
           act C_blocks (Blocks.RemoveBlockedUser userId) ;; background listBlocks).
Definition unblockUser (userId : string) : aprog unit :=
  rethrow (let* _ := call (UnblockUser userId) in
           act C_blocks (Blocks.RemoveBlockedUser userId)).

(** by user id or by user name *)
Definition sendFriendRequest (to : string + string) : aprog bool :=
  rethrow (call (SendFriendRequest to)).
Definition acceptFriendRequest (userId : string) : aprog unit :=
  rethrow (call (AcceptFriendRequest userId)).
Definition declineFriendRequest (userId : string) : aprog unit :=
  rethrow (call (DeclineFriendRequest userId)).
Definition cancelFriendRequest (userId : string) : aprog unit :=
  rethrow (call (CancelFriendRequest userId)).
Definition removeFriend (userId : string) : aprog unit :=
  rethrow (call (RpcRemoveFriend userId)).
Definition listFriends : aprog (list User) :=
  rethrow (let* users := call ListFriends in
           act C_friends (Friends.SetFriends users) ;; Ret users).
Definition listFriendRequests : aprog (list FriendRequestEntry * list FriendRequestEntry) :=
  rethrow (let* res := call ListFriendRequests in
           act C_friends (Friends.SetIncomingRequests res.1) ;;
           act C_friends (Friends.SetOutgoingRequests res.2) ;; Ret res).

(** ** Channel groups *)

Definition listChannelGroups (serverId : string) : aprog (list ChannelGroup) :=
  loading C_groups ChannelGroups.SetLoading ChannelGroups.SetError
    (let* groups := call (ListChannelGroups serverId) in
     act C_groups (ChannelGroups.SetGroups serverId groups) ;; Ret groups).
Definition createChannelGroup (serverId name : string) : aprog (option ChannelGroup) :=
  clearing C_groups ChannelGroups.SetError
    (let* group := call (CreateChannelGroup serverId name) in
     act_some group (λ g, act C_groups (ChannelGroups.AddGroup g)) ;; Ret group).
Definition updateChannelGroup (channelGroupId : string) (updates : GroupUpdates)
    : aprog (option ChannelGroup) :=
  clearing C_groups ChannelGroups.SetError
    (let* group := call (UpdateChannelGroup channelGroupId updates) in
     act_some group (λ g, act C_groups (ChannelGroups.UpdateGroup g)) ;; Ret group).
Definition deleteChannelGroup (channelGroupId : string) : aprog unit :=
  rethrow (call (DeleteChannelGroup channelGroupId)).

(** ** Permission overrides *)

Definition setPermissionOverride (targetId roleId : string) (allow deny : Z)
    (userId : option string) : aprog (option PermissionOverride) :=
  rethrow
    (let* o := call (SetPermissionOverride targetId roleId allow deny (or_default "" userId)) in
     let* ready := look (λ s, sessionReady (local (client s))) in
     (if views allow && ready then distributeKeysForOverrideTarget targetId else Ret tt) ;;
     Ret o).
Definition deletePermissionOverride (targetId roleId : string) (userId : option string)
    : aprog unit :=
  rethrow
    (let* _ := call (DeletePermissionOverride targetId roleId (or_default "" userId)) in
     let* ready := look (λ s, sessionReady (local (client s))) in
     (if ready : bool then distributeKeysForOverrideTarget targetId else Ret tt) ;; Ret tt).
Definition listPermissionOverrides (targetId : string) : aprog (list PermissionOverride) :=
  rethrow (call (ListPermissionOverrides targetId)).
Definition getEffectivePermissions (serverId : string) (channelId userId : option string)
    : aprog Z :=
  rethrow (call (GetEffectivePermissions serverId (or_default "" channelId)
    (or_default "" userId))).

(** ** Invites *)

(** The key bundle of an invite: ciphertext and nonce *)
Definition createInvite (serverId : string) (keyBundle : option (bytes * bytes))
    : aprog (option string) :=
  rethrow (call (CreateInvite serverId (or_default [] (fst <$> keyBundle))
    (or_default [] (snd <$> keyBundle)))).
Definition revokeInvite (code : string) : aprog unit := rethrow (call (RevokeInvite code)).

Definition of_key {A} (r : result string A) : aprog A :=
  match r with Ok a => Ret a | Throw e => Raise (Error e) end.

(** The keys are read when the bundle is asked for, and encrypted after. *)
Definition makeInviteKeyBundle (inviteSecret : bytes) (channelIds : list string)
    : aprog (bytes * bytes) :=
  Look (λ s,
    let k := Client.keys (local (client s)) in
    let r := createInviteKeyBundle stringify (random_iv (draws k)) inviteSecret channelIds k in
    Do (on_key_module (on_ks (count 0 1))) (await Tick ;; of_key r)).
Definition takeInviteKeyBundle (inviteSecret ciphertext iv : bytes) : aprog unit :=
  await Tick ;;
  Look (λ s,
    let r := importInviteKeyBundle parse to_string inviteSecret ciphertext iv
               (Client.keys (local (client s))) in
    Do (on_key_module (on_ks (λ _, r.2))) (of_key r.1)).

Definition joinServer (inviteCode : string) : aprog (option Server) :=
  rethrow
    (let* res := call (JoinServer inviteCode) in
     act_some (ja_server res) addServer ;;
     let* inviteSecret := look (λ s, inviteSecret (invite (invites s))) in
     (if truthy inviteSecret && negb (bool_decide (ja_encryptedChannelKeys res = [])) &&
         negb (bool_decide (ja_channelKeysIv res = []))
      then
        let* secretBytes := of_key (base64UrlToBytes (or_default "" inviteSecret)) in
        logged (takeInviteKeyBundle secretBytes (ja_encryptedChannelKeys res)
                  (ja_channelKeysIv res)) ;;
        modify (on_invites (setInviteSecret None))
      else Ret tt) ;;
     Ret (ja_server res)).

(** ** Servers from a template *)

Record Created := {
  cr_server : option Server;
  cr_channels : list Channel;
  cr_roles : list Role;
  cr_invite : option string;
  cr_inviteUrl : option string;
}.

(** [Promise.allSettled]: all are started, then all are waited for; the channels whose
    key could not be provided *)
Definition provision_all (chs : list Channel) (userId : string) : aprog (list string) :=
  let* pids := collect chs (λ ch,
    Spawn (provisionChannelKey (ch_id ch) [userId] ;; Ret Nothing)
      (λ pid, Ret (ch_id ch, pid))) in
  let* failed := collect pids (λ cp, WaitFor cp.2 (λ r : result failure value,
    Ret (match r with Ok _ => [] | Throw _ => [cp.1] end))) in
  Ret (concat failed).

(** An invite with the keys of the channels, in place of the one the server made *)
Definition bundled_invite (serverId : string) (channelIds : list string)
    (old : option string) : aprog (option (string * string)) :=
  let* n := look (λ s, draws (Client.keys (local (client s)))) in
  modify (on_key_module (on_ks (count 0 1))) ;;
  let secret := random_invite n in
  catch
    (let* bundle := makeInviteKeyBundle secret channelIds in
     let* e2eeInvite := createInvite serverId (Some bundle) in
     match e2eeInvite with
     | Some code =>
         act_some old (λ code, background (revokeInvite code)) ;;
         Ret (Some (code, inviteUrl app_origin code (Some secret)))
     | None => Ret None
     end)
    (λ _, Ret None).

(** What follows when the keys of the channels are provided, as far as that worked *)
Definition template_invite (res : TemplateAnswer) (sv : Server) (provisionFailed : list string)
    : aprog Created :=
  let open_channels := filter (λ ch, ch_isPrivate ch = false) (ta_channels res) in
  let publicChannels := filter (λ ch, ch_id ch ∉ provisionFailed) open_channels in
  let allPublicProvisioned :=
    forallb (λ ch, bool_decide (ch_id ch ∉ provisionFailed)) open_channels in
  let* ready := look (λ s, sessionReady (local (client s))) in
  let* bundled :=
    (if negb (bool_decide (publicChannels = [])) && allPublicProvisioned && ready
     then bundled_invite (sv_id sv) (ch_id <$> publicChannels) (ta_invite res)
     else Ret None) in
  Ret {| cr_server := Some sv; cr_channels := ta_channels res; cr_roles := ta_roles res;
         cr_invite := match bundled with Some i => Some i.1 | None => ta_invite res end;
         cr_inviteUrl := match bundled with
           | Some i => Some i.2
           | None => (λ code, inviteUrl app_origin code None) <$> ta_invite res
           end |}.

Definition createServerFromTemplate (params : Template) : aprog Created :=
  rethrow
    (let* res := call (CreateServerFromTemplate params) in
     match ta_server res with
     | None =>
         Ret {| cr_server := None; cr_channels := ta_channels res; cr_roles := ta_roles res;
                cr_invite := ta_invite res; cr_inviteUrl := None |}
     | Some sv =>
         addServer sv ;;
         act C_groups (ChannelGroups.SetGroups (sv_id sv) (ta_channelGroups res)) ;;
         act C_channels (Channels.SetChannels (sv_id sv) (ta_channels res)) ;;
         act C_roles (Roles.SetRoles (sv_id sv) (ta_roles res)) ;;
         let* userId := look user_id in
         let* provisionFailed :=
           (if truthy userId then provision_all (ta_channels res) (or_default "" userId)
            else Ret []) in
         template_invite res sv provisionFailed
     end).

(** ** Invites of others, bans and reports *)

Definition resolveInvite (code : string) : aprog ResolvedInvite :=
  rethrow (call (ResolveInvite code)).
Definition listBans (serverId : string) : aprog (list Ban) :=
  rethrow (call (ListBans serverId)).

Inductive ReportCategoryKey :=
  | spam | harassment | hate | sexual | violence | self_harm | illegal | other.
Definition reportCategoryEnum (k : ReportCategoryKey) : Z :=
  match k with
  | spam => 1 | harassment => 2 | hate => 3 | sexual => 4
  | violence => 5 | self_harm => 6 | illegal => 7 | other => 8
  end.

(** [catch (err) { throw new Error(mapReportError(err)) }] *)
Definition rethrow_report {A} (p : aprog A) : aprog A :=
  catch p (λ err, Raise (Error (mapReportError err))).
Definition the_report (r : option Report) : aprog Report :=
  match r with Some r => Ret r | None => Raise (Error "Server did not return a report") end.

Definition reportMessage (messageId : string) (category : ReportCategoryKey)
    (reason : option string) : aprog Report :=
  rethrow_report
    (let* report := call (ReportMessage messageId (reportCategoryEnum category)
       (or_default "" reason)) in the_report report).
Definition reportUser (userId : string) (serverId : option string)
    (category : ReportCategoryKey) (reason idempotencyKey : option string) : aprog Report :=
  rethrow_report
    (let* report := call (ReportUser userId (or_default "" serverId)
       (reportCategoryEnum category) (or_default "" reason) (or_default "" idempotencyKey)) in
     the_report report).
Definition listReports (serverId : option string) (status : option Z)
    (cursor : option string) (limit : option Z) : aprog (list Report * string) :=
  rethrow_report (call (ListReports (or_default "" serverId) (or_default 0%Z status)
    (or_default "" cursor) (or_default 50%Z limit))).
Definition resolveReport (reportId : string) (action : Z) (note : option string)
    : aprog Report :=
  rethrow_report
    (let* report := call (ResolveReport reportId action (or_default "" note)) in
     the_report report).

(** ** System messages and webhooks: failures pass through as they are *)

Definition getSystemMessageConfig (serverId : string)
    : aprog (option ServerSystemMessageConfig) := call (GetSystemMessageConfig serverId).
Definition updateSystemMessageConfig (serverId : string) (config : SystemMessageUpdates)
    : aprog (option ServerSystemMessageConfig) :=
  call (UpdateSystemMessageConfig serverId config).

Definition createWebhook (channelId name : string) (avatarUrl : option string)
    : aprog (option Webhook * string * string) := call (CreateWebhook channelId name avatarUrl).
Definition getWebhook (webhookId : string) : aprog (option Webhook) :=
  call (GetWebhook webhookId).
Definition updateWebhook (webhookId : string) (name avatarUrl : option string)
    : aprog (option Webhook) := call (UpdateWebhook webhookId name avatarUrl).
Definition deleteWebhook (webhookId : string) : aprog unit := call (DeleteWebhook webhookId).
Definition listChannelWebhooks (channelId : string) : aprog (list Webhook) :=
  call (ListChannelWebhooks channelId).
Definition listServerWebhooks (serverId : string) : aprog (list Webhook) :=
  call (ListServerWebhooks serverId).
Definition regenerateWebhookToken (webhookId : string) : aprog (string * string) :=
  call (RegenerateWebhookToken webhookId).
Definition listWebhookDeliveries (webhookId : string) (limit : option Z)
    : aprog (list WebhookDelivery) :=
  call (ListWebhookDeliveries webhookId (or_default 25%Z limit)).

End calls.
