(* ===== verification/ApiCalls.v ===== *)
(** * The remote calls as one type

    Every function of the chat API as a value: what it is asked with, its program, its
    main request, and what it does to its store's error and loading fields before it
    asks and when the request fails. *)

From S2P Require Export Calls.
From S2P Require Import Auth KeyStorage Invites.
From S2P Require Federation VoiceParticipants AudioSettings StreamSettings Keybinds.

Open Scope meza_scope.

(** A function with its arguments *)
Inductive api_call :=
  | c_listServers
  | c_createServer (name : string) (iconUrl : option string)
  | c_getServer (serverId : string)
  | c_updateServer (serverId : string) (updates : ServerUpdates)
  | c_listChannels (serverId : string)
  | c_createChannel (serverId name : string) (type : Z) (isPrivate : bool) (channelGroupId : option string)
  | c_updateChannel (channelId : string) (updates : ChannelUpdates)
  | c_deleteChannel (channelId : string)
  | c_syncChannelPermissions (channelId : string)
  | c_getMessages (channelId : string) (opts : PageOptions)
  | c_sendMessage (params : SendParams)
  | c_editMessage (channelId messageId : string) (encryptedContent : bytes) (keyVersion : option Z)
  | c_deleteMessage (channelId messageId : string)
  | c_getReplies (channelId messageId : string) (limit : option Z)
  | c_getMessagesByIDs (channelId : string) (ids : list string)
  | c_ackMessage (channelId messageId : string)
  | c_searchMessages (c : string) (author : option string) (hasAttachment : option bool) (mentioned before after : option string) (limit : option Z)
  | c_kickMember (serverId userId : string)
  | c_banMember (serverId userId : string) (reason : option string)
  | c_unbanMember (serverId userId : string)
  | c_listRoles (serverId : string)
  | c_createRole (serverId name : string) (permissions color : Z)
  | c_updateRole (roleId : string) (updates : RoleUpdates)
  | c_deleteRole (roleId : string)
  | c_reorderRoles (serverId : string) (roleIds : list string)
  | c_pinMessage (channelId messageId : string)
  | c_unpinMessage (channelId messageId : string)
  | c_getPinnedMessages (channelId : string) (before : option string)
  | c_listEmojis (serverId : string)
  | c_listUserEmojis
  | c_createEmoji (name attachmentId : string) (serverId : option string)
  | c_updateEmoji (emojiId name : string)
  | c_deleteEmoji (emojiId : string)
  | c_listMembers (serverId : string) (after : option string) (limit : option Z)
  | c_updateMember (serverId userId : string) (nickname : option string)
  | c_setMemberRoles (serverId userId : string) (roleIds : list string)
  | c_timeoutMember (serverId userId : string) (ms : Z)
  | c_removeTimeout (serverId userId : string)
  | c_addChannelMember (channelId userId : string)
  | c_removeChannelMember (channelId userId : string)
  | c_listChannelMembers (channelId : string)
  | c_acknowledgeRules (serverId : string)
  | c_completeOnboarding (serverId : string) (channelIds roleIds : list string)
  | c_listServerSounds (serverId : string)
  | c_listUserSounds
  | c_createSound (name attachmentId : string) (serverId : option string)
  | c_updateSound (soundId name : string)
  | c_deleteSound (soundId : string)
  | c_addReaction (channelId messageId emoji : string)
  | c_removeReaction (channelId messageId emoji : string)
  | c_getReactions (channelId : string) (messageIds : list string)
  | c_createOrGetDMChannel (recipientId : string)
  | c_createGroupDMChannel (participantIds : list string) (name : option string)
  | c_listDMChannels
  | c_listMessageRequests
  | c_acceptMessageRequest (channelId : string)
  | c_declineMessageRequest (channelId : string)
  | c_reverseDecline (channelId : string)
  | c_listBlocks
  | c_blockUser (userId : string)
  | c_unblockUser (userId : string)
  | c_sendFriendRequest (to : string + string)
  | c_acceptFriendRequest (userId : string)
  | c_declineFriendRequest (userId : string)
  | c_cancelFriendRequest (userId : string)
  | c_removeFriend (userId : string)
  | c_listFriends
  | c_listFriendRequests
  | c_listChannelGroups (serverId : string)
  | c_createChannelGroup (serverId name : string)
  | c_updateChannelGroup (channelGroupId : string) (updates : GroupUpdates)
  | c_deleteChannelGroup (channelGroupId : string)
  | c_setPermissionOverride (targetId roleId : string) (allow deny : Z) (userId : option string)
  | c_deletePermissionOverride (targetId roleId : string) (userId : option string)
  | c_listPermissionOverrides (targetId : string)
  | c_getEffectivePermissions (serverId : string) (channelId userId : option string)
  | c_createInvite (serverId : string) (keyBundle : option (bytes * bytes))
  | c_revokeInvite (code : string)
  | c_joinServer (inviteCode : string)
  | c_createServerFromTemplate (params : Template)
  | c_resolveInvite (code : string)
  | c_listBans (serverId : string)
  | c_reportMessage (messageId : string) (category : ReportCategoryKey) (reason : option string)
  | c_reportUser (userId : string) (serverId : option string) (category : ReportCategoryKey) (reason idempotencyKey : option string)
  | c_listReports (serverId : option string) (status : option Z) (cursor : option string) (limit : option Z)
  | c_resolveReport (reportId : string) (action : Z) (note : option string)
  | c_getSystemMessageConfig (serverId : string)
  | c_updateSystemMessageConfig (serverId : string) (config : SystemMessageUpdates)
  | c_createWebhook (channelId name : string) (avatarUrl : option string)
  | c_getWebhook (webhookId : string)
  | c_updateWebhook (webhookId : string) (name avatarUrl : option string)
  | c_deleteWebhook (webhookId : string)
  | c_listChannelWebhooks (channelId : string)
  | c_listServerWebhooks (serverId : string)
  | c_regenerateWebhookToken (webhookId : string)
  | c_listWebhookDeliveries (webhookId : string) (limit : option Z).

(** The way a function tells of failures, and what it does to begin with *)
Inductive shape :=
  | Loading (c : component) (setLoading : bool → action_of c)
      (setError : option string → action_of c)
  | Clearing (c : component) (setError : option string → action_of c)
  | Reporting (c : component) (setError : option string → action_of c)
  | Rethrowing
  | Reporting_abuse
  | Passing
  (** the request is shared with other callers *)
  | Shared.

Definition shape_of (a : api_call) : shape :=
  match a with
  | c_listServers | c_createServer _ _ =>
      Loading C_servers Servers.SetLoading Servers.SetError
  | c_listChannels _ | c_createChannel _ _ _ _ _ =>
      Loading C_channels Channels.SetLoading Channels.SetError
  | c_updateChannel _ _ | c_deleteChannel _ | c_syncChannelPermissions _ =>
      Clearing C_channels Channels.SetError
  | c_getMessages channelId _ =>
      Loading C_messages (Messages.SetLoading channelId) (Messages.SetError channelId)
  | c_sendMessage params =>
      Reporting C_messages (Messages.SetError (sp_channelId params))
  | c_listRoles _ =>
      Loading C_roles Roles.SetLoading Roles.SetError
  | c_createRole _ _ _ _ | c_updateRole _ _ =>
      Clearing C_roles Roles.SetError
  | c_getPinnedMessages channelId _ =>
      Loading C_pins (Pins.SetLoading channelId) (Pins.SetError channelId)
  | c_listEmojis _ | c_listUserEmojis =>
      Shared
  | c_createEmoji _ _ _ | c_updateEmoji _ _ =>
      Clearing C_emojis Emojis.SetError
  | c_listMembers _ _ _ =>
      Loading C_members Members.SetLoading Members.SetError
  | c_listServerSounds _ | c_listUserSounds =>
      Loading C_sounds Sounds.SetLoading Sounds.SetError
  | c_createSound _ _ _ | c_updateSound _ _ =>
      Clearing C_sounds Sounds.SetError
  | c_createOrGetDMChannel _ | c_createGroupDMChannel _ _ | c_listDMChannels =>
      Loading C_dms Dms.SetLoading Dms.SetError
  | c_listMessageRequests | c_acceptMessageRequest _ | c_declineMessageRequest _ |
    c_reverseDecline _ =>
      Reporting C_dms Dms.SetError
  | c_listChannelGroups _ =>
      Loading C_groups ChannelGroups.SetLoading ChannelGroups.SetError
  | c_createChannelGroup _ _ | c_updateChannelGroup _ _ =>
      Clearing C_groups ChannelGroups.SetError
  | c_reportMessage _ _ _ | c_reportUser _ _ _ _ _ | c_listReports _ _ _ _ |
    c_resolveReport _ _ _ =>
      Reporting_abuse
  | c_getSystemMessageConfig _ | c_updateSystemMessageConfig _ _ | c_createWebhook _ _ _ |
    c_getWebhook _ | c_updateWebhook _ _ _ | c_deleteWebhook _ | c_listChannelWebhooks _ |
    c_listServerWebhooks _ | c_regenerateWebhookToken _ | c_listWebhookDeliveries _ _ =>
      Passing
  | _ => Rethrowing
  end.

(** The request a function makes first *)
Definition request_of (a : api_call) : rpc :=
  match a with
  | c_listServers => ListServers
  | c_createServer name iconUrl => CreateServer name iconUrl
  | c_getServer serverId => GetServer serverId
  | c_updateServer serverId updates => UpdateServer serverId updates
  | c_listChannels serverId => ListChannels serverId
  | c_createChannel serverId name type isPrivate channelGroupId => CreateChannel serverId name
      type isPrivate channelGroupId
  | c_updateChannel channelId updates => UpdateChannel channelId updates
  | c_deleteChannel channelId => DeleteChannel channelId
  | c_syncChannelPermissions channelId => SyncChannelPermissions channelId
  | c_getMessages channelId opts => GetMessages {| pr_channelId := channelId; pr_before :=
      or_default "" (po_before opts); pr_after := or_default "" (po_after opts); pr_around :=
      or_default "" (po_around opts); pr_limit := or_default 50%Z (po_limit opts) |}
  | c_sendMessage params => SendMessage (outgoing params)
  | c_editMessage channelId messageId encryptedContent keyVersion => EditMessage channelId
      messageId encryptedContent (or_default 0%Z keyVersion)
  | c_deleteMessage channelId messageId => DeleteMessage channelId messageId
  | c_getReplies channelId messageId limit => GetReplies channelId messageId limit
  | c_getMessagesByIDs channelId ids => GetMessagesByIDs channelId ids
  | c_ackMessage channelId messageId => AckMessage channelId messageId
  | c_searchMessages c author hasAttachment mentioned before after limit => SearchMessages {|
      sr_channelId := c; sr_authorId := author; sr_hasAttachment := hasAttachment;
      sr_mentionedUserId := mentioned; sr_beforeId := before; sr_afterId := after; sr_limit :=
      or_default 25%Z limit |}
  | c_kickMember serverId userId => KickMember serverId userId
  | c_banMember serverId userId reason => BanMember serverId userId reason
  | c_unbanMember serverId userId => UnbanMember serverId userId
  | c_listRoles serverId => ListRoles serverId
  | c_createRole serverId name permissions color => CreateRole serverId name permissions color
  | c_updateRole roleId updates => UpdateRole roleId updates
  | c_deleteRole roleId => DeleteRole roleId
  | c_reorderRoles serverId roleIds => ReorderRoles serverId roleIds
  | c_pinMessage channelId messageId => PinMessage channelId messageId
  | c_unpinMessage channelId messageId => UnpinMessage channelId messageId
  | c_getPinnedMessages channelId before => GetPinnedMessages channelId (or_default "" before)
      50
  | c_listEmojis serverId => RpcListEmojis serverId
  | c_listUserEmojis => RpcListUserEmojis
  | c_createEmoji name attachmentId serverId => CreateEmoji (or_default "" serverId) name
      attachmentId
  | c_updateEmoji emojiId name => UpdateEmoji emojiId name
  | c_deleteEmoji emojiId => DeleteEmoji emojiId
  | c_listMembers serverId after limit => ListMembers serverId (or_default "" after) (or_default
      200%Z limit)
  | c_updateMember serverId userId nickname => UpdateMember serverId userId nickname
  | c_setMemberRoles serverId userId roleIds => SetMemberRoles serverId userId roleIds
  | c_timeoutMember serverId userId ms => TimeoutMember serverId userId (ms / 1000)
  | c_removeTimeout serverId userId => RemoveTimeout serverId userId
  | c_addChannelMember channelId userId => AddChannelMember channelId userId
  | c_removeChannelMember channelId userId => RemoveChannelMember channelId userId
  | c_listChannelMembers channelId => ListChannelMembers channelId
  | c_acknowledgeRules serverId => AcknowledgeRules serverId
  | c_completeOnboarding serverId channelIds roleIds => CompleteOnboarding serverId channelIds
      roleIds
  | c_listServerSounds serverId => ListServerSounds serverId
  | c_listUserSounds => ListUserSounds
  | c_createSound name attachmentId serverId => CreateSound name attachmentId (or_default ""
      serverId)
  | c_updateSound soundId name => UpdateSound soundId name
  | c_deleteSound soundId => DeleteSound soundId
  | c_addReaction channelId messageId emoji => AddReaction channelId messageId emoji
  | c_removeReaction channelId messageId emoji => RemoveReaction channelId messageId emoji
  | c_getReactions channelId messageIds => GetReactions channelId messageIds
  | c_createOrGetDMChannel recipientId => CreateOrGetDMChannel recipientId
  | c_createGroupDMChannel participantIds name => CreateGroupDMChannel participantIds name
  | c_listDMChannels => ListDMChannels
  | c_listMessageRequests => ListMessageRequests
  | c_acceptMessageRequest channelId => AcceptMessageRequest channelId
  | c_declineMessageRequest channelId => DeclineMessageRequest channelId
  | c_reverseDecline channelId => ReverseDecline channelId
  | c_listBlocks => ListBlocks
  | c_blockUser userId => BlockUser userId
  | c_unblockUser userId => UnblockUser userId
  | c_sendFriendRequest to => SendFriendRequest to
  | c_acceptFriendRequest userId => AcceptFriendRequest userId
  | c_declineFriendRequest userId => DeclineFriendRequest userId
  | c_cancelFriendRequest userId => CancelFriendRequest userId
  | c_removeFriend userId => RpcRemoveFriend userId
  | c_listFriends => ListFriends
  | c_listFriendRequests => ListFriendRequests
  | c_listChannelGroups serverId => ListChannelGroups serverId
  | c_createChannelGroup serverId name => CreateChannelGroup serverId name
  | c_updateChannelGroup channelGroupId updates => UpdateChannelGroup channelGroupId updates
  | c_deleteChannelGroup channelGroupId => DeleteChannelGroup channelGroupId
  | c_setPermissionOverride targetId roleId allow deny userId => SetPermissionOverride targetId
      roleId allow deny (or_default "" userId)
  | c_deletePermissionOverride targetId roleId userId => DeletePermissionOverride targetId
      roleId (or_default "" userId)
  | c_listPermissionOverrides targetId => ListPermissionOverrides targetId
  | c_getEffectivePermissions serverId channelId userId => GetEffectivePermissions serverId
      (or_default "" channelId) (or_default "" userId)
  | c_createInvite serverId keyBundle => CreateInvite serverId (or_default [] (fst <$>
      keyBundle)) (or_default [] (snd <$> keyBundle))
  | c_revokeInvite code => RevokeInvite code
  | c_joinServer inviteCode => JoinServer inviteCode
  | c_createServerFromTemplate params => CreateServerFromTemplate params
  | c_resolveInvite code => ResolveInvite code
  | c_listBans serverId => ListBans serverId
  | c_reportMessage messageId category reason =>
      ReportMessage messageId (reportCategoryEnum category) (or_default "" reason)
  | c_reportUser userId serverId category reason idempotencyKey =>
      ReportUser userId (or_default "" serverId) (reportCategoryEnum category)
        (or_default "" reason) (or_default "" idempotencyKey)
  | c_listReports serverId status cursor limit =>
      ListReports (or_default "" serverId) (or_default 0%Z status) (or_default "" cursor)
        (or_default 50%Z limit)
  | c_resolveReport reportId action note =>
      ResolveReport reportId action (or_default "" note)
  | c_getSystemMessageConfig serverId => GetSystemMessageConfig serverId
  | c_updateSystemMessageConfig serverId config => UpdateSystemMessageConfig serverId config
  | c_createWebhook channelId name avatarUrl => CreateWebhook channelId name avatarUrl
  | c_getWebhook webhookId => GetWebhook webhookId
  | c_updateWebhook webhookId name avatarUrl => UpdateWebhook webhookId name avatarUrl
  | c_deleteWebhook webhookId => DeleteWebhook webhookId
  | c_listChannelWebhooks channelId => ListChannelWebhooks channelId
  | c_listServerWebhooks serverId => ListServerWebhooks serverId
  | c_regenerateWebhookToken webhookId => RegenerateWebhookToken webhookId
  | c_listWebhookDeliveries webhookId limit =>
      ListWebhookDeliveries webhookId (or_default 25%Z limit)
  end.

Section api.
Context `{Crypto} `{Environment}.

Definition done_ {A} (p : aprog A) : aprog value := let* _ := p in Ret Nothing.

Definition body (a : api_call) : aprog value :=
  match a with
  | c_listServers => done_ listServers
  | c_createServer name iconUrl => done_ (createServer name iconUrl)
  | c_getServer serverId => done_ (getServer serverId)
  | c_updateServer serverId updates => done_ (updateServer serverId updates)
  | c_listChannels serverId => done_ (listChannels serverId)
  | c_createChannel serverId name type isPrivate channelGroupId => done_ (createChannel serverId name type isPrivate channelGroupId)
  | c_updateChannel channelId updates => done_ (updateChannel channelId updates)
  | c_deleteChannel channelId => done_ (deleteChannel channelId)
  | c_syncChannelPermissions channelId => done_ (syncChannelPermissions channelId)
  | c_getMessages channelId opts => done_ (getMessages channelId opts)
  | c_sendMessage params => done_ (sendMessage params)
  | c_editMessage channelId messageId encryptedContent keyVersion => done_ (editMessage channelId messageId encryptedContent keyVersion)
  | c_deleteMessage channelId messageId => done_ (deleteMessage channelId messageId)
  | c_getReplies channelId messageId limit => done_ (getReplies channelId messageId limit)
  | c_getMessagesByIDs channelId ids => done_ (getMessagesByIDs channelId ids)
  | c_ackMessage channelId messageId => done_ (ackMessage channelId messageId)
  | c_searchMessages c author hasAttachment mentioned before after limit => done_ (searchMessages c author hasAttachment mentioned before after limit)
  | c_kickMember serverId userId => done_ (kickMember serverId userId)
  | c_banMember serverId userId reason => done_ (banMember serverId userId reason)
  | c_unbanMember serverId userId => done_ (unbanMember serverId userId)
  | c_listRoles serverId => done_ (listRoles serverId)
  | c_createRole serverId name permissions color => done_ (createRole serverId name permissions color)
  | c_updateRole roleId updates => done_ (updateRole roleId updates)
  | c_deleteRole roleId => done_ (deleteRole roleId)
  | c_reorderRoles serverId roleIds => done_ (reorderRoles serverId roleIds)
  | c_pinMessage channelId messageId => done_ (pinMessage channelId messageId)
  | c_unpinMessage channelId messageId => done_ (unpinMessage channelId messageId)
  | c_getPinnedMessages channelId before => done_ (getPinnedMessages channelId before)
  | c_listEmojis serverId => done_ (listEmojis serverId)
  | c_listUserEmojis => done_ listUserEmojis
  | c_createEmoji name attachmentId serverId => done_ (createEmoji name attachmentId serverId)
  | c_updateEmoji emojiId name => done_ (updateEmoji emojiId name)
  | c_deleteEmoji emojiId => done_ (deleteEmoji emojiId)
  | c_listMembers serverId after limit => done_ (listMembers serverId after limit)
  | c_updateMember serverId userId nickname => done_ (updateMember serverId userId nickname)
  | c_setMemberRoles serverId userId roleIds => done_ (setMemberRoles serverId userId roleIds)
  | c_timeoutMember serverId userId ms => done_ (timeoutMember serverId userId ms)
  | c_removeTimeout serverId userId => done_ (removeTimeout serverId userId)
  | c_addChannelMember channelId userId => done_ (addChannelMember channelId userId)
  | c_removeChannelMember channelId userId => done_ (removeChannelMember channelId userId)
  | c_listChannelMembers channelId => done_ (listChannelMembers channelId)
  | c_acknowledgeRules serverId => done_ (acknowledgeRules serverId)
  | c_completeOnboarding serverId channelIds roleIds => done_ (completeOnboarding serverId channelIds roleIds)
  | c_listServerSounds serverId => done_ (listServerSounds serverId)
  | c_listUserSounds => done_ listUserSounds
  | c_createSound name attachmentId serverId => done_ (createSound name attachmentId serverId)
  | c_updateSound soundId name => done_ (updateSound soundId name)
  | c_deleteSound soundId => done_ (deleteSound soundId)
  | c_addReaction channelId messageId emoji => done_ (addReaction channelId messageId emoji)
  | c_removeReaction channelId messageId emoji => done_ (removeReaction channelId messageId emoji)
  | c_getReactions channelId messageIds => done_ (getReactions channelId messageIds)
  | c_createOrGetDMChannel recipientId => done_ (createOrGetDMChannel recipientId)
  | c_createGroupDMChannel participantIds name => done_ (createGroupDMChannel participantIds name)
  | c_listDMChannels => done_ listDMChannels
  | c_listMessageRequests => done_ listMessageRequests
  | c_acceptMessageRequest channelId => done_ (acceptMessageRequest channelId)
  | c_declineMessageRequest channelId => done_ (declineMessageRequest channelId)
  | c_reverseDecline channelId => done_ (reverseDecline channelId)
  | c_listBlocks => done_ listBlocks
  | c_blockUser userId => done_ (blockUser userId)
  | c_unblockUser userId => done_ (unblockUser userId)
  | c_sendFriendRequest to => done_ (sendFriendRequest to)
  | c_acceptFriendRequest userId => done_ (acceptFriendRequest userId)
  | c_declineFriendRequest userId => done_ (declineFriendRequest userId)
  | c_cancelFriendRequest userId => done_ (cancelFriendRequest userId)
  | c_removeFriend userId => done_ (removeFriend userId)
  | c_listFriends => done_ listFriends
  | c_listFriendRequests => done_ listFriendRequests
  | c_listChannelGroups serverId => done_ (listChannelGroups serverId)
  | c_createChannelGroup serverId name => done_ (createChannelGroup serverId name)
  | c_updateChannelGroup channelGroupId updates => done_ (updateChannelGroup channelGroupId updates)
  | c_deleteChannelGroup channelGroupId => done_ (deleteChannelGroup channelGroupId)
  | c_setPermissionOverride targetId roleId allow deny userId => done_ (setPermissionOverride targetId roleId allow deny userId)
  | c_deletePermissionOverride targetId roleId userId => done_ (deletePermissionOverride targetId roleId userId)
  | c_listPermissionOverrides targetId => done_ (listPermissionOverrides targetId)
  | c_getEffectivePermissions serverId channelId userId => done_ (getEffectivePermissions serverId channelId userId)
  | c_createInvite serverId keyBundle => done_ (createInvite serverId keyBundle)
  | c_revokeInvite code => done_ (revokeInvite code)
  | c_joinServer inviteCode => done_ (joinServer inviteCode)
  | c_createServerFromTemplate params => done_ (createServerFromTemplate params)
  | c_resolveInvite code => done_ (resolveInvite code)
  | c_listBans serverId => done_ (listBans serverId)
  | c_reportMessage messageId category reason =>
      done_ (reportMessage messageId category reason)
  | c_reportUser userId serverId category reason idempotencyKey =>
      done_ (reportUser userId serverId category reason idempotencyKey)
  | c_listReports serverId status cursor limit =>
      done_ (listReports serverId status cursor limit)
  | c_resolveReport reportId action note => done_ (resolveReport reportId action note)
  | c_getSystemMessageConfig serverId => done_ (getSystemMessageConfig serverId)
  | c_updateSystemMessageConfig serverId config =>
      done_ (updateSystemMessageConfig serverId config)
  | c_createWebhook channelId name avatarUrl => done_ (createWebhook channelId name avatarUrl)
  | c_getWebhook webhookId => done_ (getWebhook webhookId)
  | c_updateWebhook webhookId name avatarUrl => done_ (updateWebhook webhookId name avatarUrl)
  | c_deleteWebhook webhookId => done_ (deleteWebhook webhookId)
  | c_listChannelWebhooks channelId => done_ (listChannelWebhooks channelId)
  | c_listServerWebhooks serverId => done_ (listServerWebhooks serverId)
  | c_regenerateWebhookToken webhookId => done_ (regenerateWebhookToken webhookId)
  | c_listWebhookDeliveries webhookId limit => done_ (listWebhookDeliveries webhookId limit)
  end.

(** Before it asks *)
Definition opening (a : api_call) : App → App :=
  match shape_of a with
  | Loading c setLoading setError => λ s,
      on_client (Client.act localeCompare self c (setError None))
        (on_client (Client.act localeCompare self c (setLoading true)) s)
  | Clearing c setError => on_client (Client.act localeCompare self c (setError None))
  | _ => λ s, s
  end.

(** When the request has failed *)
Definition recorded (a : api_call) (err : failure) : App → App :=
  match shape_of a with
  | Loading c _ setError | Clearing c setError | Reporting c setError =>
      on_client (Client.act localeCompare self c (setError (Some (mapChatError err))))
  | _ => λ s, s
  end.
Definition thrown (a : api_call) (err : failure) : failure :=
  match shape_of a with
  | Rethrowing => Error (mapChatError err)
  | Reporting_abuse => Error (mapReportError err)
  | _ => err
  end.
End api.

(** ** A concrete page *)

Definition demo_environment : Environment :=
  {| localeCompare := λ _ _, 0%Z; toISOString := λ _, ""; self := "me";
     random_key := λ n, key_of (Z.of_nat n); random_secret := λ _, demo_secret;
     random_nonce := λ _, demo_nonce; random_invite := λ _, demo_secret;
     random_iv := λ _, demo_nonce; stringify := write_json;
     parse := read_json (getChannelKeysForServer ["c1"; "c2"] (with_cache demo_cache));
     to_string := λ _, ""; app_origin := "https://meza.chat"; max_pages := 3 |}.

Definition demo_stored_user : StoredUser :=
  {| Auth.id := "me"; Auth.username := "me"; Auth.displayName := ""; Auth.avatarUrl := "";
     Auth.emojiScale := Num.one; Auth.bio := ""; Auth.pronouns := ""; Auth.bannerUrl := "";
     Auth.themeColorPrimary := ""; Auth.themeColorSecondary := ""; Auth.simpleMode := false;
     Auth.dmPrivacy := ""; Auth.friendRequestPrivacy := ""; Auth.profilePrivacy := "";
     Auth.connections := []; Auth.createdAt := "" |}.

Definition signed_in (token : string) : AuthSystem :=
  Auth.setAuth token "refresh" demo_stored_user
    {| auth := Auth.signedOut; storage := {| item_access := None; item_refresh := None; item_user := None |} |}.

Definition demo_others : Others :=
  {| federation := Federation.initialState; participants := {| VoiceParticipants.byChannel := ∅ |};
     audio := AudioSettings.initialState AudioSettings.demo_hw;
     stream := StreamSettings.boot None; keybinds := {| Keybinds.overrides := [] |};
     frequentEmojis := None; spokePromises := ∅ |}.

Definition app_with (cl : Client) (k : KeyState) (i : Invites) : App :=
  {| client := on_local (set_session true) (on_local (on_keys (λ _, k)) cl);
     authSystem := signed_in "token"; identity := None; keyFetches := ∅; keyInits := ∅;
     keyQueues := ∅; federatedIds := ∅; invites := i; emojiInflight := ∅;
     personalEmojiInflight := None; refreshPromise := None; others := demo_others |}.
Definition demo_app : App :=
  app_with (initial_client (λ _ _, 0%Z) "me" false) (with_cache demo_cache) initial.
