(* ===== verification/CallFacts.v ===== *)
(** * What the remote calls do

    Failures and the loading flags; a sent message and its delivery; the page of pins
    that is loaded twice; blocking; which channels' keys are handed on; emojis and the
    session; an invite for a server made from a template. *)

From S2P Require Import ApiCalls Auth Permissions DispatchFacts.
From S2P Require Invites KeyDistribution.

Open Scope meza_scope.

Section facts.
Context `{Crypto} `{Environment}.

#[local] Notation act := (Client.act localeCompare self).

(** ** Failures *)

Definition asks (a : api_call) : bool :=
  match shape_of a with Shared => false | _ => true end.

Lemma unfold_failure {P : failure → Prop} :
  (∀ code m, code ≠ Unauthenticated → P (ConnectError code m)) → (∀ m, P (Error m)) →
  ∀ e, refused e = false → P e.
Proof. intros H1 H2 [[] m|m]; intros; auto; try discriminate; by apply H1. Qed.

(** Two states of a store with the same data: they differ at most in the error and in
    what is being loaded. *)
Definition same_data (c : component) : state_of c → state_of c → Prop :=
  match c with
  | C_messages => λ s t,
      Messages.byChannel s = Messages.byChannel t ∧ Messages.byId s = Messages.byId t ∧
      Messages.hasMore s = Messages.hasMore t ∧ Messages.viewMode s = Messages.viewMode t ∧
      Messages.pendingMessages s = Messages.pendingMessages t ∧
      Messages.replyingTo s = Messages.replyingTo t
  | C_channels => λ s t,
      Channels.byServer s = Channels.byServer t ∧
      Channels.channelToServer s = Channels.channelToServer t
  | C_groups => λ s t, ChannelGroups.byServer s = ChannelGroups.byServer t
  | C_roles => λ s t,
      Roles.byServer (Roles.store s) = Roles.byServer (Roles.store t) ∧
      Roles.isReordering (Roles.store s) = Roles.isReordering (Roles.store t) ∧
      Roles.inflight s = Roles.inflight t
  | C_members => λ s t, Members.byServer s = Members.byServer t
  | C_servers => λ s t, Servers.servers s = Servers.servers t
  | C_dms => λ s t,
      Dms.dmChannels s = Dms.dmChannels t ∧ Dms.messageRequests s = Dms.messageRequests t
  | C_pins => λ s t,
      Pins.byChannel s = Pins.byChannel t ∧ Pins.hasMore s = Pins.hasMore t ∧
      Pins.pinnedIds s = Pins.pinnedIds t
  | C_emojis => λ s t,
      Emojis.byServer s = Emojis.byServer t ∧ Emojis.personal s = Emojis.personal t ∧
      Emojis.byId s = Emojis.byId t ∧ Emojis.cachedServerIds s = Emojis.cachedServerIds t ∧
      Emojis.personalFromCache s = Emojis.personalFromCache t
  | C_sounds => λ s t,
      Sounds.byServer s = Sounds.byServer t ∧ Sounds.personal s = Sounds.personal t
  | _ => eq
  end.

(** The data of every store and everything outside the stores are the same, but for the
    tables of the requests that callers share. *)
Definition undisturbed (s t : App) : Prop :=
  (∀ c, same_data c (stores (client s) c) (stores (client t) c)) ∧
  local (client s) = local (client t) ∧
  t = set_refreshPromise (refreshPromise t) (set_personalEmojiInflight (personalEmojiInflight t)
        (on_emojiInflight (λ _, emojiInflight t) (on_client (λ _, client t) s))).

Lemma asks_first a (c : apage) :
  asks a = true →
  ∃ k, Programs.exec (body a) c =
      (Await (Wire (header (request_of a) (st c)) (request_of a)) k, on_st (opening a) c) ∧
    ∀ e c', refused e = false →
      Programs.exec (k (Throw e)) c' = (Raise (thrown a e), on_st (recorded a e) c').
Proof.
  destruct c as [s t n]. destruct a; intros Ha; try discriminate Ha; clear Ha;
    (eexists; split; [reflexivity|]; intros e c' He; revert e He; apply unfold_failure;
     [intros [] m Hm; try done; destruct c'; reflexivity|intros m; destruct c'; reflexivity]).
Qed.

(** *** What a call that fails has done *)

(** What may be started: a renewal of the tokens, and what takes note of its end *)
Definition renews (p : aprog value) : Prop :=
  p = refreshTokens ∨ ∃ pid, p = settled pid (set_refreshPromise None).

Definition adeed : Type := deed App failure value response.

Definition harmless_alone (a : api_call) (x : adeed) : Prop :=
  match x with
  | Changed f => ∀ s, undisturbed s (f s)
  | Asked q => ∃ token, q = Wire token (request_of a)
  | Started p => renews p
  end.
(** A listing of emojis starts the request that its callers share. *)
Definition harmless (a : api_call) (x : adeed) : Prop :=
  harmless_alone a x ∨
  match x with
  | Started p => every_run p [] (λ l r, ∀ e, r = Throw e → Forall (harmless_alone a) l)
  | _ => False
  end.

Definition records (a : api_call) (e : failure) : list adeed :=
  match shape_of a with
  | Loading c _ setError | Clearing c setError | Reporting c setError =>
      [Changed (on_client (act c (setError (Some (mapChatError e)))))]
  | _ => []
  end.
(** The one that has changed the data when it fails: [joinServer], when the secret of the
    link cannot be decoded. *)
Definition joined_only (a : api_call) (l : list adeed) (e : failure) : Prop :=
  ∃ code sv t m, a = c_joinServer code ∧ Invites.base64UrlToBytes t = Throw m ∧ e = Error m ∧
    Forall (λ x, harmless a x ∨ x = Changed (on_client (act C_servers (Servers.AddServer sv)))) l.

Definition fails_cleanly (a : api_call) (l : list adeed) (r : result failure value) : Prop :=
  ∀ e, r = Throw e → ∃ l' e', l = l' ++ records a e' ∧ e = thrown a e' ∧
    (Forall (harmless a) l' ∨ joined_only a l' e').

(** The failures of a program have done nothing but what is harmless. *)
Definition clean {A} (a : api_call) (p : aprog A) : Prop :=
  ∀ l Q, Forall (harmless_alone a) l →
    (∀ l' r, (∀ e, r = Throw e → Forall (harmless_alone a) l') → Q l' r) → every_run p l Q.

Lemma harmless_snoc a l x :
  Forall (harmless_alone a) l → harmless_alone a x → Forall (harmless_alone a) (l ++ [x]).
Proof. intros Hl Hx. apply Forall_app. split; [done|]. by constructor. Qed.

Lemma wire_run a token l Q :
  Forall (harmless_alone a) l →
  (∀ l' r, Forall (harmless_alone a) l' → Q l' r) → every_run (wire token (request_of a)) l Q.
Proof.
  intros Hl HQ r. destruct r; cbn [of_result every_run]; apply HQ, harmless_snoc; try done; by eexists.
Qed.

Lemma call_run a l Q :
  Forall (harmless_alone a) l →
  (∀ l' r, Forall (harmless_alone a) l' → Q l' r) → every_run (call (request_of a)) l Q.
Proof.
  intros Hl HQ. unfold call. destruct (is_public _); [by apply wire_run|].
  intros s r. assert (Hl1 : Forall (harmless_alone a)
    (l ++ [Asked (Wire (access_token s) (request_of a))])) by (apply harmless_snoc; [done|by eexists]).
  destruct r as [x|e]; [by apply HQ|]. destruct (refused e); [|by apply HQ].
  assert (Hwait : ∀ promise l, Forall (harmless_alone a) l →
    every_run (let* success := wait_for promise in
      if flag_of success then retry (access_token s) (request_of a) else Raise e) l Q).
  { clear l Hl Hl1. intros promise l Hl r. destruct r as [v|e']; [|by apply HQ].
    cbn [of_result bind]. destruct (flag_of v); [|by apply HQ]. intros s'. by apply wire_run. }
  intros s'. cbn [bind]. destruct (refreshPromise s'); [by apply Hwait|].
  intros inner promise. cbn [every_run bind]. apply Hwait.
  apply harmless_snoc; [apply harmless_snoc; [by apply harmless_snoc; [|left]|]|].
  - right. by eexists.
  - intros t. split; [|by destruct t]. intros c. by destruct c.
Qed.

(** Nothing that follows the answer fails. *)
Lemma clean_call {A} a (f : rpc_answer (request_of a) → aprog A) :
  (∀ x, sure (f x)) → clean a (bind (call (request_of a)) f).
Proof.
  intros Hf l Q Hl HQ. apply every_run_bind. apply call_run; [done|]. intros l' [x|e] Hl'.
  - apply sure_run; [apply Hf|]. intros l'' y. by apply HQ.
  - apply HQ. by intros ? [= <-].
Qed.
Lemma clean_call_only a : clean a (call (request_of a)).
Proof. intros l Q Hl HQ. apply call_run; [done|]. intros. by apply HQ. Qed.

Lemma harmless_all a l : Forall (harmless_alone a) l → Forall (harmless a) l.
Proof. intros Hl. eapply Forall_impl; [exact Hl|]. by left. Qed.
Lemma done_run {A} a (p : aprog A) l :
  every_run p l (λ l' r, ∀ e, r = Throw e → fails_cleanly a l' (Throw e)) →
  every_run (done_ p) l (fails_cleanly a).
Proof.
  intros Hp. apply every_run_bind. eapply every_run_mono; [|exact Hp].
  intros l' [x|e] HQ; [done|]. by apply HQ.
Qed.
Lemma rethrow_run {A} a (p : aprog A) g :
  (∀ e, records a e = [] ∧ thrown a e = Error (g e)) → clean a p →
  every_run (done_ (catch p (λ err, Raise (Error (g err))))) [] (fails_cleanly a).
Proof.
  intros Ha Hp. apply done_run, every_run_catch. apply Hp; [constructor|].
  intros l' [x|e] Hl'; [done|]. cbn [every_run]. intros ? [= <-] ? [= <-].
  exists l', e. destruct (Ha e) as [-> ->]. rewrite app_nil_r.
  split; [done|]. split; [done|]. left. by eapply harmless_all, Hl'.
Qed.
Lemma passing_run {A} a (p : aprog A) :
  (∀ e, records a e = [] ∧ thrown a e = e) → clean a p →
  every_run (done_ p) [] (fails_cleanly a).
Proof.
  intros Ha Hp. apply done_run. apply Hp; [constructor|]. intros l' r Hl' e -> ? [= <-].
  exists l', e. destruct (Ha e) as [-> ->]. rewrite app_nil_r.
  split; [done|]. split; [done|]. left. by eapply harmless_all, Hl'.
Qed.

Section reporting.
Context (a : api_call) (c : component) (setError : option string → action_of c).
Context (Ha : ∀ e, records a e = [Changed (on_client (act c (setError (Some (mapChatError e)))))] ∧
  thrown a e = e).
Context (Herror : ∀ s, undisturbed s (on_client (act c (setError None)) s)).

Lemma reporting_run {A} (p : aprog A) l :
  clean a p → Forall (harmless_alone a) l →
  every_run (done_ (reporting c setError p)) l (fails_cleanly a).
Proof.
  intros Hp Hl. apply done_run, every_run_catch. apply Hp; [done|].
  intros l' [x|e] Hl'; [done|]. cbn [every_run bind Calls.act modify]. intros ? [= <-] ? [= <-].
  exists l', e. destruct (Ha e) as [-> ->]. split; [done|]. split; [done|].
  left. by eapply harmless_all, Hl'.
Qed.
Lemma clearing_run {A} (p : aprog A) l :
  clean a p → Forall (harmless_alone a) l →
  every_run (done_ (clearing c setError p)) l (fails_cleanly a).
Proof.
  intros Hp Hl. exact (reporting_run p _ Hp (harmless_snoc a l
    (Changed (on_client (act c (setError None)))) Hl Herror)).
Qed.
Lemma loading_run {A} (setLoading : bool → action_of c) (p : aprog A) :
  (∀ s, undisturbed s (on_client (act c (setLoading true)) s)) → clean a p →
  every_run (done_ (loading c setLoading setError p)) [] (fails_cleanly a).
Proof.
  intros Hload Hp.
  exact (clearing_run p [Changed (on_client (act c (setLoading true)))] Hp
    (harmless_snoc a [] (Changed (on_client (act c (setLoading true)))) (Forall_nil_2 _) Hload)).
Qed.
End reporting.

(** *** What follows the answers *)

Lemma sure_logged p : sure (logged p).
Proof. by apply sure_catch. Qed.
Lemma sure_act_some {A} (o : option A) f : (∀ x, sure (f x)) → sure (act_some o f).
Proof. destruct o; [intros Hf; apply Hf|done]. Qed.
Lemma sure_collect {A B} (l : list A) (f : A → aprog B) : (∀ x, sure (f x)) → sure (collect l f).
Proof.
  intros Hf. induction l as [|x l IH]; [done|]. cbn [collect].
  apply sure_bind; [done|]. intros y. by apply sure_bind.
Qed.

Ltac surely :=
  intros;
  lazymatch goal with
  | |- sure (Ret _) => exact I
  | |- sure (Calls.act _ _) => exact I
  | |- sure (modify _) => exact I
  | |- sure (look _) => exact (λ _, I)
  | |- sure (background _) => exact (λ _, I)
  | |- sure (redistribute _) => exact (λ _, I)
  | |- sure (cacheDMParticipants _) => exact I
  | |- sure (addServer _) => exact I
  | |- sure (setServers _) => exact (λ _, I)
  | |- sure (logged _) => apply sure_logged
  | |- sure (catch _ _) => apply sure_catch; surely
  | |- sure (act_some _ _) => apply sure_act_some; surely
  | |- sure (collect _ _) => apply sure_collect; surely
  | |- sure (bind _ _) => apply sure_bind; [surely|surely]
  | |- sure (if ?b then _ else _) => destruct b; surely
  | |- sure (match ?o with _ => _ end) => destruct o; surely
  | |- sure (Look _) => intros ?; surely
  | |- sure (let x := _ in _) => cbv zeta; surely
  | |- sure (Spawn _ _) => intros ?; surely
  | |- sure (WaitFor _ _) => intros ?; surely
  | |- sure ?p =>
      let h := head p in tryif is_var h then auto else (unfold h; cbv beta; surely)
  end
with head p := lazymatch p with ?f _ => head f | _ => p end.

(** The tables of the shared requests, and the error and loading fields *)
Ltac undisturbed :=
  let s := fresh in
  intros s; split; [intros []; cbn [same_data]; repeat split; reflexivity|by destruct s].

Lemma fetch_emojis_clean a q store forget l :
  clean a q → (∀ x, sure (store x)) → (∀ s, undisturbed s (forget s)) →
  Forall (harmless_alone a) l →
  every_run (fetch_emojis q store forget) l
    (λ l r, ∀ e, r = Throw e → Forall (harmless_alone a) l).
Proof.
  intros Hq Hs Hf Hl s. cbn [bind Calls.act modify every_run].
  assert (Hend : ∀ l e, Forall (harmless_alone a) l →
    every_run (A := value) (Do forget (of_result (Throw e))) l
      (λ l r, ∀ e, r = Throw e → Forall (harmless_alone a) l)).
  { intros l' e Hl'. cbn [of_result every_run]. intros _ _. by apply harmless_snoc. }
  apply every_run_bind, every_run_catch, every_run_bind, every_run_catch, every_run_bind.
  apply Hq; [apply harmless_snoc; [done|undisturbed]|]. intros l' [x|e] Hl'.
  - apply sure_run; [unfold in_session; surely|]. intros l'' y. done.
  - unfold in_session. intros s'. cbn [bind]. destruct (bool_decide _).
    + cbn [Calls.act modify bind every_run]. apply Hend. apply harmless_snoc; [by eapply Hl'|undisturbed].
    + cbn [bind every_run]. apply Hend. by eapply Hl'.
Qed.

Lemma clean_report a (f : rpc_answer (request_of a) → option Report) :
  clean a (let* x := call (request_of a) in the_report (f x)).
Proof.
  intros l Q Hl HQ. apply every_run_bind. apply call_run; [done|]. intros l' [x|e] Hl'.
  - destruct (f x); by apply HQ.
  - apply HQ. by intros ? [= <-].
Qed.

Lemma update_role_run rid upd :
  every_run (done_ (updateRole rid upd)) [] (fails_cleanly (c_updateRole rid upd)).
Proof.
  intros s. cbn [bind app].
  match goal with |- every_run (bind ?p _) ?l ?Q => change (every_run (done_ p) l Q) end.
  refine (reporting_run (c_updateRole rid upd) C_roles Roles.SetError (λ e, conj eq_refl eq_refl)
    _ [Changed (on_client (act C_roles (Roles.SetError None)))] _ _).
  - refine (clean_call (c_updateRole rid upd) _ _). surely.
  - apply Forall_singleton. undisturbed.
Qed.

(** The caller of a listing starts the shared request, or finds it started, and waits. *)
Lemma shared_run {A} a (p : aprog value) f (g : value → A) (running : App → option nat) :
  (∀ e, records a e = [] ∧ thrown a e = e) →
  every_run p [] (λ l r, ∀ e, r = Throw e → Forall (harmless_alone a) l) →
  (∀ promise s, undisturbed s (f promise s)) →
  every_run (done_ (
    let* pid := Look (λ s, match running s with
      | Some existing => Ret existing
      | None => Spawn p (λ promise, Do (f promise) (Ret promise))
      end) in
    let* v := wait_for pid in Ret (g v))) [] (fails_cleanly a).
Proof.
  intros Ha Hp Hf. apply done_run. intros s. cbn [bind].
  assert (Hend : ∀ pid l, Forall (harmless a) l →
    every_run (let* v := wait_for pid in Ret (g v)) l
      (λ l' r, ∀ e, r = Throw e → fails_cleanly a l' (Throw e))).
  { intros pid l Hl r. destruct r as [v|e]; [done|]. cbn [of_result bind every_run].
    intros ? [= <-] ? [= <-]. exists l, e. destruct (Ha e) as [-> ->]. rewrite app_nil_r. auto. }
  destruct (running s); [apply Hend; constructor|]. intros pid. cbn [bind every_run].
  apply Hend. cbn [app]. apply Forall_cons_2; [by right|]. apply Forall_singleton. left. exact (Hf pid).
Qed.

Lemma join_run code :
  every_run (done_ (joinServer code)) [] (fails_cleanly (c_joinServer code)).
Proof.
  apply done_run, every_run_catch, every_run_bind. apply call_run with (a := c_joinServer code); [constructor|].
  intros l [res|e] Hl.
  2:{ cbn [every_run]. intros ? [= <-] ? [= <-]. exists l, e. rewrite app_nil_r.
      split; [done|]. split; [done|]. left. by apply harmless_all. }
  set (okay := λ l : list adeed, ∀ t m, Invites.base64UrlToBytes t = Throw m →
    Forall (harmless (c_joinServer code)) l ∨ joined_only (c_joinServer code) l (Error m)).
  assert (Hrest : ∀ l, okay l → every_run (
      let* inviteSecret := look (λ s : App, Invites.inviteSecret (Invites.invite (invites s))) in
      (if truthy inviteSecret && negb (bool_decide (ja_encryptedChannelKeys res = [])) &&
          negb (bool_decide (ja_channelKeysIv res = []))
       then
         let* secretBytes := of_key (Invites.base64UrlToBytes (or_default "" inviteSecret)) in
         logged (takeInviteKeyBundle secretBytes (ja_encryptedChannelKeys res)
                   (ja_channelKeysIv res)) ;;
         modify (on_invites (Invites.setInviteSecret None))
       else Ret tt) ;;
      Ret (ja_server res)) l
    (λ l' r, match r with
     | Ok a => ∀ e, Ok a = Throw e → fails_cleanly (c_joinServer code) l' (Throw e)
     | Throw e => every_run (A := option Server) (Raise (Error (mapChatError e))) l'
         (λ l'' r', ∀ e', r' = Throw e' → fails_cleanly (c_joinServer code) l'' (Throw e'))
     end)).
  { clear l Hl. intros l Hl s. cbn [bind]. destruct (_ && _); [|done].
    destruct (Invites.base64UrlToBytes _) as [secret|m] eqn:E; cbn [of_key bind].
    - apply sure_run; [surely|done].
    - cbn [every_run]. intros ? [= <-] ? [= <-]. exists l, (Error m). rewrite app_nil_r.
      split; [done|]. split; [done|]. by eapply Hl. }
  destruct (ja_server res) as [sv|] eqn:Esv; cbn [act_some addServer Calls.act modify bind every_run].
  - apply Hrest. intros t m Ht. right. exists code, sv, t, m. do 3 (split; [done|]).
    apply Forall_app. split; [|apply Forall_singleton; by right].
    eapply Forall_impl; [by apply harmless_all|]. by left.
  - apply Hrest. intros t m Ht. left. by apply harmless_all.
Qed.

Lemma listEmojis_run sid :
  every_run (done_ (listEmojis sid)) [] (fails_cleanly (c_listEmojis sid)).
Proof.
  refine (shared_run (c_listEmojis sid) _ (λ promise, on_emojiInflight <[sid := promise]>) emojis_of
    (λ s, emojiInflight s !! sid) (λ e, conj eq_refl eq_refl) _ _); [|intros promise; undisturbed].
  apply fetch_emojis_clean; [exact (clean_call_only (c_listEmojis sid))|surely|undisturbed|constructor].
Qed.
Lemma listUserEmojis_run :
  every_run (done_ listUserEmojis) [] (fails_cleanly c_listUserEmojis).
Proof.
  refine (shared_run c_listUserEmojis _ (λ promise, set_personalEmojiInflight (Some promise)) emojis_of
    personalEmojiInflight (λ e, conj eq_refl eq_refl) _ _); [|intros promise; undisturbed].
  apply fetch_emojis_clean; [exact (clean_call_only c_listUserEmojis)|surely|undisturbed|constructor].
Qed.

(** The way a function tells of failures, from its program *)
Ltac by_shape :=
  lazymatch goal with
  | |- every_run (done_ (updateRole _ _)) _ _ => apply update_role_run
  | |- every_run (done_ (joinServer _)) _ _ => apply join_run
  | |- every_run (done_ (listEmojis _)) _ _ => apply listEmojis_run
  | |- every_run (done_ listUserEmojis) _ _ => apply listUserEmojis_run
  | |- every_run (done_ (rethrow _)) _ _ => apply (rethrow_run _ _ mapChatError); [done|]
  | |- every_run (done_ (rethrow_report _)) _ _ => apply (rethrow_run _ _ mapReportError); [done|]
  | |- every_run (done_ (loading _ _ _ _)) _ _ =>
      apply loading_run; [done|undisturbed|undisturbed|]
  | |- every_run (done_ (clearing _ _ _)) _ _ =>
      apply clearing_run; [done|undisturbed| |constructor]
  | |- every_run (done_ (reporting _ _ _)) _ _ => apply reporting_run; [done| |constructor]
  | |- every_run (done_ (call _)) _ _ => apply passing_run; [done|]
  | |- every_run (done_ (Calls.act _ _ ;; clearing _ _ _)) _ _ =>
      eapply loading_run; [done|undisturbed|undisturbed|]
  | |- every_run (done_ ?p) _ _ => let h := head p in unfold h; by_shape
  end.

Lemma body_fails_cleanly a : every_run (body a) [] (fails_cleanly a).
Proof.
  destruct a; cbn [body]; by_shape;
    lazymatch goal with
    | |- clean ?a (let* _ := _ in the_report _) => exact (clean_report a (λ r, r))
    | |- clean ?a (bind _ _) => refine (clean_call a _ _); abstract surely
    | |- clean ?a _ => exact (clean_call_only a)
    end.
Qed.

Lemma records_harmless a e : Forall (harmless_alone a) (records a e).
Proof.
  destruct a; unfold records; cbn [shape_of];
    first [apply Forall_nil_2|apply Forall_singleton; destruct (mapChatError e); undisturbed].
Qed.

(** C10: how the functions of the chat API fail.  Whatever states a call meets and however
    its requests are answered, a run that fails has asked for nothing but its one request
    (again after a renewal of the tokens), started nothing but that renewal (a listing of
    emojis: the request its callers share, of whose failures the same holds), and changed
    nothing but error and loading fields and the tables of shared requests: no list, table,
    key or token.  What it throws is the server's error or the text for the user, as its
    last change it has recorded the text in its store, if it is one of those that do, and
    the record is no more than an error field.  The one exception is [joinServer]: with a
    link whose secret cannot be decoded it fails after it has added the server.

    A call that asks for itself sends that request first, after nothing but resetting the
    error and the loading flag of its store, with the session's token (without, if the
    request is public), and an answer that is a failure, other than of an expired token,
    ends it at once. *)
Theorem calls_fail_cleanly a :
  every_run (body a) [] (λ l r, ∀ e, r = Throw e →
    ∃ l' e', l = l' ++ records a e' ∧ e = thrown a e' ∧
      (Forall (harmless a) l' ∨ joined_only a l' e')) ∧
  (∀ e, Forall (harmless_alone a) (records a e)) ∧
  ∀ c : apage, asks a = true →
    ∃ k, Programs.exec (body a) c =
        (Await (Wire (header (request_of a) (st c)) (request_of a)) k, on_st (opening a) c) ∧
      ∀ e c', refused e = false →
        Programs.exec (k (Throw e)) c' = (Raise (thrown a e), on_st (recorded a e) c').
Proof.
  split; [exact (body_fails_cleanly a)|]. split; [apply records_harmless|].
  intros c. apply asks_first.
Qed.

(** ** The loading flags *)

Definition loads (a : api_call) : bool :=
  match shape_of a with Loading _ _ _ => true | _ => false end.

(** What the views read to show that something is loading, or to disable a button *)
Definition shown_loading (a : api_call) (s : App) : bool :=
  match a with
  | c_listServers | c_createServer _ _ => Servers.isLoading (stores (client s) C_servers)
  | c_listChannels _ | c_createChannel _ _ _ _ _ =>
      Channels.isLoading (stores (client s) C_channels)
  | c_getMessages c _ =>
      or_default false (Messages.isLoading (stores (client s) C_messages) !! c)
  | c_listRoles _ => Roles.isLoading (Roles.store (stores (client s) C_roles))
  | c_getPinnedMessages c _ =>
      or_default false (Pins.isLoading (stores (client s) C_pins) !! c)
  | c_listMembers _ _ _ => Members.isLoading (stores (client s) C_members)
  | c_listServerSounds _ | c_listUserSounds => Sounds.isLoading (stores (client s) C_sounds)
  | c_createOrGetDMChannel _ | c_createGroupDMChannel _ _ | c_listDMChannels =>
      Dms.isLoading (stores (client s) C_dms)
  | c_listChannelGroups _ => ChannelGroups.isLoading (stores (client s) C_groups)
  | _ => false
  end.

Lemma opening_not_loading a s : loads a = true → shown_loading a (opening a s) = false.
Proof.
  destruct a; intros Ha; try discriminate Ha; try reflexivity.
  - unfold opening; cbn [shape_of]. simpl. by rewrite lookup_delete_eq.
  - unfold opening; cbn [shape_of]. simpl. by rewrite lookup_delete_eq.
Qed.

(** the loading flags never show.  Each of the fifteen functions that set one resets
    the error next, which resets the flag with it; so while the request is in flight the
    flag is down, and a view that asks it shows nothing of the loading. *)
Theorem loading_never_shows a (c : apage) :
  loads a = true →
  ∃ k c', Programs.exec (body a) c =
      (Await (Wire (header (request_of a) (st c)) (request_of a)) k, c') ∧
    shown_loading a (st c') = false.
Proof.
  intros Ha. destruct (asks_first a c) as (k & Hk & _); [by destruct a|].
  exists k, (on_st (opening a) c). split; [exact Hk|]. by apply opening_not_loading.
Qed.

(** ** Pins *)

Definition pins_of (c : string) (s : App) : list PinnedMessage :=
  or_default [] (Pins.byChannel (stores (client s) C_pins) !! c).

Lemma more_pins c before (p : apage) :
  before ≠ "" →
  ∃ k p', Programs.exec (done_ (getPinnedMessages c (Some before))) p =
      (Await (Wire (access_token (st p)) (GetPinnedMessages c before 50)) k, p') ∧
    threads p' = threads p ∧ next p' = next p ∧
    access_token (st p') = access_token (st p) ∧ pins_of c (st p') = pins_of c (st p) ∧
    shown_loading (c_getPinnedMessages c (Some before)) (st p') = false ∧
    ∀ ps more q, ∃ q', Programs.exec (k (Ok (ps, more))) q = (Ret Nothing, q') ∧
      threads q' = threads q ∧ pins_of c (st q') = pins_of c (st q) ++ ps.
Proof.
  intros Hb. do 2 eexists. split; [destruct p; reflexivity|].
  split; [by destruct p|]. split; [by destruct p|]. split; [by destruct p|].
  split; [by destruct p|].
  split; [by apply (opening_not_loading (c_getPinnedMessages c (Some before)))|].
  intros ps more q. eexists. split; [destruct q; reflexivity|].
  split; [by destruct q|]. destruct before; [done|].
  unfold pins_of. simpl. by rewrite lookup_insert_eq.
Qed.

(** pressing "load more" twice loads the same pins twice.  The button is to be disabled
    while the next page is being loaded, but the flag it looks at is down; if it is pressed
    again before the answer comes, and the server answers both requests with the same
    page, every pin of that page is in the list twice. *)
Theorem pins_loaded_twice c before (p : apage) (ps : list PinnedMessage) (more : bool)
    (a : ∀ q, result failure (response q)) :
  before ≠ "" →
  a (Wire (access_token (st p)) (GetPinnedMessages c before 50)) = Ok (ps, more) →
  let press := launch (done_ (getPinnedMessages c (Some before))) in
  shown_loading (c_getPinnedMessages c (Some before)) (st (press p)) = false ∧
  pins_of c (st (Programs.answer (next p + 1) a (Programs.answer (next p) a (press (press p))))) =
    pins_of c (st p) ++ ps ++ ps.
Proof.
  intros Hb Ha press.
  destruct (more_pins c before (reserve p) Hb) as (k & p1 & E1 & Ht1 & Hn1 & Htok1 & Hp1 & Hl1 & Hk).
  assert (E1' : press p = put_thread (next p) (Await (Wire (access_token (st p))
    (GetPinnedMessages c before 50)) k) p1) by (unfold press, launch; by rewrite E1).
  split; [by rewrite E1'|].
  destruct (more_pins c before (reserve (press p)) Hb)
    as (k' & p2 & E2 & Ht2 & Hn2 & Htok2 & Hp2 & _ & Hk').
  assert (E2' : press (press p) = put_thread (next p + 1) (Await (Wire (access_token (st p))
    (GetPinnedMessages c before 50)) k') p2).
  { unfold press at 1, launch. rewrite E2. rewrite E1'. simpl. rewrite Hn1, Htok1. done. }
  rewrite E2'. clear E2'.
  set (page2 := put_thread _ _ p2).
  assert (H1 : threads page2 !! next p = Some (Await (Wire (access_token (st p))
    (GetPinnedMessages c before 50)) k)).
  { subst page2. simpl. rewrite lookup_insert_ne by lia. rewrite Ht2, E1'. simpl.
    by rewrite lookup_insert_eq. }
  unfold Programs.answer at 2. rewrite H1, Ha. unfold continue_with.
  destruct (Hk ps more page2) as (q & Eq & Htq & Hpq). rewrite Eq.
  assert (H2 : threads (put_thread (next p) (Ret Nothing) q) !! (next p + 1) =
    Some (Await (Wire (access_token (st p)) (GetPinnedMessages c before 50)) k')).
  { simpl. rewrite lookup_insert_ne by lia. rewrite Htq. subst page2. simpl.
    by rewrite lookup_insert_eq. }
  unfold Programs.answer. rewrite H2, Ha. unfold continue_with.
  destruct (Hk' ps more (put_thread (next p) (Ret Nothing) q)) as (q' & Eq' & _ & Hpq').
  rewrite Eq'. change (pins_of c (st q') = pins_of c (st p) ++ ps ++ ps).
  rewrite Hpq'. change (pins_of c (st q) ++ ps = pins_of c (st p) ++ ps ++ ps).
  rewrite Hpq. change (pins_of c (st page2)) with (pins_of c (st p2)).
  rewrite Hp2, E1'. change (pins_of c (st (reserve (put_thread (next p) (Await (Wire
    (access_token (st p)) (GetPinnedMessages c before 50)) k) p1)))) with (pins_of c (st p1)).
  rewrite Hp1. by rewrite <-app_assoc.
Qed.

(** ** A sent message *)

Definition messages_of (s : App) : Messages.MessageState := messages (client s).

Definition show_sent (p : SendParams) (id : string) (t : option Timestamp) (s : App) : App :=
  on_client (act C_messages (Messages.AddMessage (sp_channelId p)
    (optimisticMsg p (or_default "" (user_id s)) id t))) s.
(** The gateway delivers a message. *)
Definition delivered (m : Message) : App → App :=
  on_client (dispatch localeCompare toISOString self (MessageCreate m)).

Lemma sendMessage_runs p (c : apage) :
  ∃ k, Programs.exec (sendMessage p) c =
      (Await (Wire (access_token (st c)) (SendMessage (outgoing p))) k, c) ∧
    ∀ id t c', Programs.exec (k (Ok (id, t))) c' = (Ret (id, t), on_st (show_sent p id t) c').
Proof.
  eexists. split; [destruct c; reflexivity|]. intros id t c'. destruct c'; reflexivity.
Qed.

(** How often a message is in the list of its channel *)
Definition occurrences (c id : string) (M : Messages.MessageState) : nat :=
  length (filter (λ m, m_id m = id) (or_default [] (Messages.byChannel M !! c))).

Lemma indexed_once c id M m :
  Messages.consistent M → Messages.indexed c id M = Some m → occurrences c id M = 1.
Proof.
  intros HM Hm. pose proof Hm as Hf. rewrite (Messages.consistent_indexed _ _ _ HM) in Hf.
  unfold occurrences. destruct (Messages.byChannel M !! c) as [l|] eqn:El; [|done]. simpl in *.
  destruct (Messages.consistent_loaded c M l HM El) as [Hnd _]. clear -Hnd Hf.
  induction l as [|x l IH]; [done|]. rewrite find_key_cons in Hf. rewrite fmap_cons in Hnd.
  apply NoDup_cons in Hnd as [Hx Hnd]. rewrite filter_cons. case_decide as E; [|by apply IH].
  simpl. rewrite filter_none; [done|]. apply Forall_forall. intros y Hy E'. apply Hx.
  rewrite E, <-E'. by apply list_elem_of_fmap_2.
Qed.

Lemma show_sent_messages p id t s :
  messages_of (show_sent p id t s) =
    Messages.addMessage (sp_channelId p)
      (optimisticMsg p (or_default "" (user_id s)) id t) (messages_of s).
Proof. reflexivity. Qed.
Lemma delivered_messages m s :
  messages_of (delivered m s) = deliver self m (messages_of s).
Proof. apply messageCreate_messages. Qed.

Lemma user_id_on_client f s : user_id (on_client f s) = user_id s.
Proof. done. Qed.

Lemma own_decrypts m s :
  own_echo self m → Messages.indexed (m_channelId m) (m_id m) (messages_of s) = None →
  sessionReady (local (client s)) = true →
  DecryptInBackground (m_channelId m) m (gen_of (client s)) ∈
    Client.log (local (client (delivered m s))).
Proof.
  intros [Ha Hkv] Hnew Hs. unfold delivered. cbn [on_client client dispatch].
  unfold on_messageCreate. cbv zeta.
  rewrite (bool_decide_eq_true_2 (m_authorId m = self)) by done. rewrite andb_false_r.
  cbn [when emit on_local local push_log Client.log]. apply elem_of_app. left.
  set (s1 := act C_typing _ _).
  assert (H1 : DecryptInBackground (m_channelId m) m (gen_of (client s)) ∈ Client.log (local s1)).
  { subst s1. unfold store_message. cbv zeta. rewrite decide_True by done.
    change (messages (client s)) with (messages_of s). rewrite Hnew.
    change (local (act C_typing ?a ?x)) with (local x).
    cbn [when local act Client.act]. rewrite Hs, (proj2 (Z.ltb_lt _ _) Hkv). cbn [andb when].
    simpl. apply elem_of_app. right. left. }
  unfold bump_conversation. destruct (isDMChannel _ _); [done|].
  destruct (_ && _); [|done]. unfold when. destruct (negb _); [|done].
  simpl. apply elem_of_app. by left.
Qed.

(** C11: a sent message is shown once.  [sendMessage] sends the request and, when it is
    answered, puts the message into the list as plaintext.  Whether the answer or the
    gateway's delivery of the message comes first, the channel then has it exactly once:
    after the answer it stays readable and takes the attachments as the server has them;
    if the delivery was first, the encrypted message stays, and its decryption has been
    asked for if the session is ready. *)
Theorem sent_message_once p id t echo (s : App) :
  user_id s = Some self → Messages.consistent (messages_of s) →
  Messages.viewMode (messages_of s) !! sp_channelId p ≠ Some Messages.historical →
  Messages.indexed (sp_channelId p) id (messages_of s) = None →
  m_id echo = id → m_channelId echo = sp_channelId p → m_authorId echo = self →
  (0 < m_keyVersion echo)%Z →
  let c := sp_channelId p in
  let shown M := (occurrences c id M, Messages.indexed c id M) in
  shown (messages_of (delivered echo (show_sent p id t s))) =
    (1, Some (m_set_attachments (m_attachments echo) (optimisticMsg p self id t))) ∧
  shown (messages_of (show_sent p id t (delivered echo s))) = (1, Some echo) ∧
  (sessionReady (local (client s)) = true →
   DecryptInBackground c echo (gen_of (client s)) ∈ Client.log (local (client (delivered echo s)))) ∧
  (let m := optimisticMsg p self id t in
   m_keyVersion m = 0%Z ∧ m_authorId m = self ∧
   m_encryptedContent m =
     match sp_plaintext p with Some plain => plain | None => sp_encryptedContent p end) ∧
  (∀ page : apage, ∃ k, Programs.exec (sendMessage p) page =
      (Await (Wire (access_token (st page)) (SendMessage (outgoing p))) k, page) ∧
    ∀ page', Programs.exec (k (Ok (id, t))) page' = (Ret (id, t), on_st (show_sent p id t) page')).
Proof.
  intros Hu HM Hv Hnew Hid Hc Ha Hkv c shown. subst shown c.
  set (c := sp_channelId p) in *. set (M := messages_of s) in *.
  assert (Hown : own_echo self echo) by done.
  assert (Hopt : m_id (optimisticMsg p self id t) = id) by done.
  split; [|split; [|split; [|split]]]; [| | |split_and!; [done..|]; unfold optimisticMsg; simpl; by destruct (sp_plaintext p)|].
  - rewrite delivered_messages, show_sent_messages, Hu. cbn [or_default]. fold c M.
    set (opt := optimisticMsg p self id t) in *.
    pose proof (Messages.add_consistent c opt M HM) as HM1.
    destruct (add_indexed c opt M Hv) as (x & Hx & Hxe). rewrite Hopt in Hx, Hxe.
    rewrite (Hxe Hnew) in Hx. clear x Hxe.
    unfold deliver. rewrite decide_True by done. rewrite Hc, Hid. rewrite Hx.
    pose proof (update_known_indexed c (m_set_attachments (m_attachments echo) opt)
      (Messages.addMessage c opt M) opt HM1) as Hup.
    simpl in Hup. specialize (Hup Hx).
    pose proof (Messages.update_consistent c (m_set_attachments (m_attachments echo) opt) _ HM1) as HM2.
    by rewrite Hup, (indexed_once _ _ _ _ HM2 Hup).
  - rewrite show_sent_messages, delivered_messages.
    change (user_id (delivered echo s)) with (user_id s). rewrite Hu. cbn [or_default]. fold c M.
    assert (Hd : deliver self echo M = Messages.addMessage c echo M).
    { unfold deliver. rewrite decide_True by done. by rewrite Hc, Hid, Hnew. }
    rewrite Hd.
    destruct (add_indexed c echo M Hv) as (x & Hx & Hxe). rewrite Hid in Hx, Hxe.
    rewrite (Hxe Hnew) in Hx. clear x Hxe.
    rewrite (add_known c (optimisticMsg p self id t) _ echo) by (by rewrite Hopt).
    rewrite Hx. by rewrite (indexed_once _ _ _ _ (Messages.add_consistent c echo M HM) Hx).
  - intros Hs. pose proof (own_decrypts echo s Hown) as Hd. rewrite Hc, Hid in Hd.
    by apply Hd.
  - intros page. destruct (sendMessage_runs p page) as (k & Hk & Hr).
    exists k. split; [exact Hk|]. intros page'. apply Hr.
Qed.

(** ** Blocking *)

Definition blocks_of (s : App) : Blocks.BlockState := stores (client s) C_blocks.

(** a block can be forgotten.  When the server has blocked a user, its event adds the
    user to the block list; the answer to [blockUser] then removes the user again and asks
    for the whole list.  Until that answer comes the user is not blocked in this client,
    and if the request fails, whatever happens before, nothing repairs it: the failure is
    dropped. *)
Theorem block_forgotten u (c : apage) :
  ∃ k, Programs.exec (blockUser u) c =
      (Await (Wire (access_token (st c)) (BlockUser u)) k, c) ∧
    ∀ c', let c'' := (Programs.exec (k (Ok tt)) c').2 in
      Blocks.isBlocked u (blocks_of (st c'')) = false ∧
      ∃ q, threads c'' !! next c' = Some (Await (Wire (access_token (st c')) ListBlocks) q) ∧
        ∀ e d, refused e = false →
          Programs.exec (q (Throw e)) d = (Raise (Error (mapChatError e)), d).
Proof.
  eexists. split; [by destruct c|]. intros c'. cbv zeta. split.
  - simpl. unfold Blocks.isBlocked, blocks_of. simpl.
    rewrite bool_decide_eq_false_2 by set_solver. rewrite orb_false_r.
    apply (has_key_false u_id). rewrite without_keys, list_elem_of_filter. by intros [? _].
  - eexists. split; [simpl; apply lookup_insert_eq|].
    intros e d He. revert e He. apply unfold_failure; [intros [] m Hm; by try done|done].
Qed.

(** ** Emojis *)

Definition emojis_in (s : App) : Emojis.EmojiState := stores (client s) C_emojis.

(** an answer about emojis belongs to the session that asked.  While a request for a
    server's emojis is in flight another call sends none and waits for the same answer.
    If another user, or nobody, is signed in when the answer comes, it is dropped; if the
    same user is, it replaces the server's emojis.  The other functions have no such test:
    the answer to [listServers], say, is stored whoever is signed in by then. *)
Theorem emoji_answers_in_session sid (c : apage) :
  (∀ pid, emojiInflight (st c) !! sid = Some pid →
   ∃ k, Programs.exec (listEmojis sid) c = (WaitFor pid k, c)) ∧
  (emojiInflight (st c) !! sid = None →
   ∃ k k' c1, Programs.exec (listEmojis sid) c = (WaitFor (next c) k, c1) ∧
     emojiInflight (st c1) !! sid = Some (next c) ∧
     threads c1 !! next c = Some (Await (Wire (access_token (st c)) (RpcListEmojis sid)) k') ∧
     ∀ l c', let c'' := (Programs.exec (k' (Ok l)) c').2 in
       emojiInflight (st c'') !! sid = None ∧
       client (st c'') =
         if decide (user_id (st c') = user_id (st c)) then
           act C_emojis (Emojis.MarkServerRefreshed sid)
             (act C_emojis (Emojis.SetEmojis sid l) (client (st c')))
         else client (st c')) ∧
  (∃ k c1, Programs.exec listServers c = (Await (Wire (access_token (st c)) ListServers) k, c1) ∧
     ∀ l c', client (st (Programs.exec (k (Ok l)) c').2) =
       act C_servers (Servers.SetServers (serverIndex (st c')) (federatedIds (st c')) l)
         (client (st c'))).
Proof.
  split; [|split].
  - intros pid Hp. eexists. destruct c as [s t n]. unfold listEmojis.
    cbn [bind Programs.exec st]. cbn in Hp. rewrite Hp. reflexivity.
  - intros Hp. destruct c as [s t n]. unfold listEmojis. cbn [bind Programs.exec st].
    cbn in Hp. rewrite Hp.
    do 3 eexists. split; [reflexivity|].
    split; [simpl; apply lookup_insert_eq|]. split; [simpl; apply lookup_insert_eq|].
    intros l c'. cbv zeta. simpl. case_decide as Hd.
    + rewrite (bool_decide_eq_true_2 _ Hd). simpl. split; [apply lookup_delete_eq|done].
    + rewrite (bool_decide_eq_false_2 _ Hd). simpl. split; [apply lookup_delete_eq|done].
  - do 2 eexists. split; [by destruct c|]. intros l c'. by destruct c'.
Qed.

(** ** Permissions and keys *)

(** The channels of a server whose key is in the cache *)
Definition keyed_channels (sid : string) (s : App) : list string :=
  ch_id <$> filter (λ ch, hasKey s (ch_id ch) = true)
    (or_default [] (Channels.byServer (channels (client s)) !! sid)).

(** When an update of a role hands on keys: the permissions were part of it, the session
    is ready, and the role may view channels where it could not *)
Definition hands_on (old : Z) (upd : RoleUpdates) (r : Role) (s : App) : bool :=
  bool_decide (is_Some (ru_permissions upd)) && sessionReady (local (client s)) &&
  negb (bool_decide (r_serverId r = "")) && negb (views old) && views (r_permissions r).

Definition stored_role (r : Role) (s : App) : App :=
  on_client (act C_roles (Roles.UpdateRole r)) s.

Lemma views_has p : views p = true → hasPermission p (Permissions VIEW_CHANNEL) = true.
Proof. unfold views, hasPermission. intros ->. by destruct (negb _). Qed.

Lemma updateRole_runs rid upd (c : apage) :
  ∃ k, Programs.exec (updateRole rid upd) c =
      (Await (Wire (access_token (st c)) (UpdateRole rid upd)) k,
       on_st (on_client (act C_roles (Roles.SetError None))) c) ∧
    ∀ r c', let s' := stored_role r (st c') in
      let c'' := (Programs.exec (k (Ok (Some r))) c').2 in
      let ids := keyed_channels (r_serverId r) s' in
      if hands_on (old_permissions rid (st c)) upd r s' && negb (bool_decide (ids = [])) then
        is_Some (threads c'' !! next c')
      else c'' = on_st (λ _, s') c'.
Proof.
  eexists. split; [by destruct c|]. intros r c'. cbv zeta. unfold updateRole.
  destruct c' as [s' t' n']. unfold hands_on. simpl.
  change (old_permissions rid (on_client _ (st c))) with (old_permissions rid (st c)).
  destruct (bool_decide (is_Some _) && _ && _ && _ && _); [|done]. simpl.
  unfold keyed_channels. destruct (bool_decide (_ <$> _ = [])); [done|].
  cbn [negb]. simpl. destruct (Programs.exec _ _) as [p' c']. simpl. rewrite lookup_insert_eq. eauto.
Qed.

(** an update of a role that lets its members view channels hands on the keys.  When
    the server has changed the role, it is replaced in the store; a distribution of the
    cached keys of the server's channels is started exactly if the permissions were part
    of the update, the session is ready, some key is cached, and the permission to view
    channels is among the new permissions and was not among those the role had when the
    update was asked for.  It looks at that one bit: a role that is made administrator,
    which may view every channel, hands on nothing. *)
Theorem role_update_hands_on rid upd (c : apage) :
  (∃ k, Programs.exec (updateRole rid upd) c =
      (Await (Wire (access_token (st c)) (UpdateRole rid upd)) k,
       on_st (on_client (act C_roles (Roles.SetError None))) c) ∧
    ∀ r c', let s' := stored_role r (st c') in
      let c'' := (Programs.exec (k (Ok (Some r))) c').2 in
      let ids := keyed_channels (r_serverId r) s' in
      if hands_on (old_permissions rid (st c)) upd r s' && negb (bool_decide (ids = [])) then
        is_Some (threads c'' !! next c')
      else c'' = on_st (λ _, s') c') ∧
  (∀ old r s, r_permissions r = Permissions ADMINISTRATOR →
     hasPermission (r_permissions r) (Permissions VIEW_CHANNEL) = true ∧
     hands_on old upd r s = false).
Proof.
  split; [apply updateRole_runs|]. intros old r s E. unfold hands_on. rewrite E.
  split; [reflexivity|]. apply andb_false_r.
Qed.

(** The channels an override is about, and whose key is cached *)
Definition affected (t : string) (s : App) : list string :=
  if truthy (Channels.channelToServer (channels (client s)) !! t)
  then filter (λ c, hasKey s c = true) [t] else group_channels t s.

Lemma group_channels_elem t s x :
  x ∈ group_channels t s ↔
  ∃ sid chs ch, Channels.byServer (channels (client s)) !! sid = Some chs ∧ ch ∈ chs ∧
    ch_id ch = x ∧ ch_channelGroupId ch = Some t ∧ hasKey s x = true.
Proof.
  unfold group_channels. rewrite list_elem_of_bind. split.
  - intros (chs & (ch & -> & [[Hg Hk] Hch]%list_elem_of_filter)%list_elem_of_fmap &
      ([sid chs'] & -> & Hin%elem_of_map_to_list)%list_elem_of_fmap).
    exists sid, chs', ch. done.
  - intros (sid & chs & ch & Hs & Hch & <- & Hg & Hk). exists chs. split.
    + apply list_elem_of_fmap_2, list_elem_of_filter. done.
    + apply list_elem_of_fmap. exists (sid, chs). split; [done|]. by apply elem_of_map_to_list.
Qed.

(** The program that hands on the keys of the channels [ids] *)
Definition handing_on (ids : list string) : aprog value :=
  let* _ := keyed (redistributeChannelKeys random_secret random_nonce max_pages ids) in
  Ret Nothing.
(** It is started for the affected channels, or nothing happens. *)
Definition handed_on (wanted : bool) (t : string) (c c' : apage) : Prop :=
  c' = if wanted && negb (bool_decide (affected t (st c) = []))
       then launch (handing_on (affected t (st c))) c else c.

Lemma target_distribution {A} (t : string) (a : A) (c : apage) :
  let r := Programs.exec (rethrow (distributeKeysForOverrideTarget t ;; Ret a)) c in
  r.1 = Ret a ∧ handed_on true t c r.2.
Proof.
  cbv zeta. unfold handed_on, affected, distributeKeysForOverrideTarget. cbn [andb].
  destruct c as [s ts n]. simpl.
  destruct (truthy _); simpl.
  - rewrite filter_cons, filter_nil.
    destruct (hasKey s t); simpl; [|done]. unfold launch, handing_on.
    by destruct (Programs.exec _ _) as [p' c'].
  - destruct (bool_decide (group_channels _ _ = [])); simpl; [done|]. unfold launch, handing_on.
    by destruct (Programs.exec _ _) as [p' c'].
Qed.

Lemma affected_elem t s x :
  x ∈ affected t s ↔
     hasKey s x = true ∧
     if truthy (Channels.channelToServer (channels (client s)) !! t) then x = t
     else ∃ sid chs ch, Channels.byServer (channels (client s)) !! sid = Some chs ∧
            ch ∈ chs ∧ ch_id ch = x ∧ ch_channelGroupId ch = Some t.
Proof.
  unfold affected. destruct (truthy _).
  - by rewrite list_elem_of_filter, list_elem_of_singleton.
  - rewrite group_channels_elem. naive_solver.
Qed.

(** C33: a change of an override hands on the keys of the channels it is about, and only
    those: the channel itself, if the target is one, and otherwise every listed channel
    of the group, as far as the keys are cached.  Setting an override does so if it
    allows channels to be viewed, removing one in any case, and both only in a session
    that is ready: the redistribution of exactly these channels is started, and nothing
    else changes.  However it is answered, it asks for the members of each of them, in
    their order, and for nothing about another channel. *)
Theorem override_hands_on t role allow deny u (c : apage) :
  let ready d := sessionReady (local (client (st d))) in
  (∃ k, Programs.exec (setPermissionOverride t role allow deny u) c =
      (Await (Wire (access_token (st c))
         (SetPermissionOverride t role allow deny (or_default "" u))) k, c) ∧
    ∀ o d, let e := Programs.exec (k (Ok o)) d in
      e.1 = Ret o ∧ handed_on (views allow && ready d) t d e.2) ∧
  (∃ k, Programs.exec (deletePermissionOverride t role u) c =
      (Await (Wire (access_token (st c))
         (DeletePermissionOverride t role (or_default "" u))) k, c) ∧
    ∀ d, let e := Programs.exec (k (Ok tt)) d in
      e.1 = Ret tt ∧ handed_on (ready d) t d e.2) ∧
  (∀ s x, x ∈ affected t s ↔
     hasKey s x = true ∧
     if truthy (Channels.channelToServer (channels (client s)) !! t) then x = t
     else ∃ sid chs ch, Channels.byServer (channels (client s)) !! sid = Some chs ∧
            ch ∈ chs ∧ ch_id ch = x ∧ ch_channelGroupId ch = Some t) ∧
  (∀ s (answers : ∀ q, result string (key_answer q)),
     versions_ok (Client.keys (local (client s))) → 0 < max_pages →
     ∃ asked m', alone answers (redistributeChannelKeys random_secret random_nonce max_pages
         (affected t s)) (key_module s) = Some (asked, Ok true, m') ∧
       KeyDistribution.first_pages asked = affected t s ∧
       Forall (KeyDistribution.concerns (affected t s)) asked).
Proof.
  cbv zeta. split; [|split; [|split; [apply affected_elem|]]].
  - eexists. split; [by destruct c|]. intros o d.
    pose proof (target_distribution t o d) as [Hr Hd]. destruct d as [s ts n].
    unfold setPermissionOverride. simpl in Hr, Hd |- *. destruct (views allow && _); [by split|done].
  - eexists. split; [by destruct c|]. intros d.
    pose proof (target_distribution t tt d) as [Hr Hd]. destruct d as [s ts n].
    simpl in Hr, Hd |- *. destruct (sessionReady _); [by split|done].
  - intros s answers Hv Hpages. destruct max_pages as [|pages]; [lia|].
    destruct (KeyDistribution.redistribution_asks random_secret random_nonce answers pages
      (affected t s) (key_module s) Hv) as (asked & m' & E & H1 & H2).
    exists asked, m'. split; [exact E|]. split; [|exact H2]. rewrite H1. apply filter_all.
    apply Forall_forall. intros x [Hx _]%affected_elem. exact Hx.
Qed.
End facts.

(** ** Concrete runs *)

#[local] Existing Instance toy.
#[local] Existing Instance demo_environment.

Definition demo_page : apage := fresh_page demo_app.

Lemma calls_fail_cleanly_witness :
  ∃ k, Programs.exec (body (c_listChannels "s1")) demo_page =
      (Await (Wire (Some "token") (ListChannels "s1")) k,
       on_st (opening (c_listChannels "s1")) demo_page) ∧
    (Programs.exec (k (Throw (ConnectError NotFound ""))) demo_page).1 =
      Raise (ConnectError NotFound "").
Proof.
  destruct (calls_fail_cleanly (H := toy) (H0 := demo_environment) (c_listChannels "s1"))
    as (_ & _ & Hask).
  destruct (Hask demo_page eq_refl) as (k & Hk & Hf).
  exists k. split; [exact Hk|]. exact (f_equal fst (Hf (ConnectError NotFound "") demo_page eq_refl)).
Defined.

Lemma loading_never_shows_witness :
  ∃ k c', Programs.exec (body (c_listChannels "s1")) demo_page =
      (Await (Wire (Some "token") (ListChannels "s1")) k, c') ∧
    Channels.isLoading (channels (client (st c'))) = false.
Proof.
  exact (loading_never_shows (H := toy) (H0 := demo_environment) (c_listChannels "s1")
    demo_page eq_refl).
Defined.

Definition demo_pin (id : string) : PinnedMessage :=
  {| pm_message := Some (DispatchFacts.demo_message id "bob" 0); pm_pinnedBy := "bob";
     pm_pinnedAt := None |}.
(** A server that answers every request for pins with the same page *)
Definition same_pins (q : request) : result failure (response q) :=
  match q with
  | Wire t q' =>
      match q' as q' return result failure (response (Wire t q')) with
      | GetPinnedMessages _ _ _ => Ok ([demo_pin "07"], true)
      | _ => Throw (ConnectError Unavailable "")
      end
  | SpokeWire _ _ _ | Fetch _ => Throw (Error "")
  | ClearCryptoStorage | Tick => Ok tt
  end.

Lemma pins_loaded_twice_witness :
  let press := launch (done_ (getPinnedMessages "c1" (Some "1970"))) in
  pins_of "c1" (st (Programs.answer 1 same_pins
    (Programs.answer 0 same_pins (press (press demo_page))))) = [demo_pin "07"; demo_pin "07"].
Proof.
  exact (proj2 (pins_loaded_twice (H0 := demo_environment) "c1" "1970" demo_page
    [demo_pin "07"] true same_pins ltac:(discriminate) eq_refl)).
Defined.

Definition demo_params : SendParams :=
  {| sp_channelId := "c1"; sp_encryptedContent := [1; 2]%Z; sp_keyVersion := Some 1%Z;
     sp_nonce := "n"; sp_plaintext := Some [104; 105]%Z; sp_uploadedFiles := None;
     sp_replyToId := None; sp_mentionedUserIds := None; sp_mentionedRoleIds := None;
     sp_mentionEveryone := None |}.

Lemma sent_message_once_witness :
  let echo := DispatchFacts.demo_message "09" "me" 1 in
  Messages.indexed "c1" "09" (messages_of (delivered echo (show_sent demo_params "09" None demo_app)))
    = Some (m_set_attachments [] (optimisticMsg demo_params "me" "09" None)) ∧
  occurrences "c1" "09" (messages_of (show_sent demo_params "09" None (delivered echo demo_app)))
    = 1.
Proof.
  cbv zeta.
  assert (HM : Messages.consistent (messages_of demo_app))
    by (apply Messages.reachable_consistent; constructor).
  assert (Hv : Messages.viewMode (messages_of demo_app) !! "c1" ≠ Some Messages.historical)
    by by vm_compute.
  destruct (sent_message_once (H0 := demo_environment) demo_params "09" None
    (DispatchFacts.demo_message "09" "me" 1) demo_app eq_refl HM Hv eq_refl eq_refl eq_refl
    eq_refl eq_refl) as (H1 & H2 & _).
  split; [exact (f_equal snd H1)|exact (f_equal fst H2)].
Defined.

(** A listed channel whose key is cached *)
Definition demo_listed : App :=
  on_client (Client.act (λ _ _, 0%Z) "me" C_channels
    (Channels.SetChannels "s1" [DispatchFacts.demo_channel])) demo_app.

Lemma override_hands_on_witness :
  ∃ k asked m',
    Programs.exec (setPermissionOverride "c1" "r" (Permissions VIEW_CHANNEL) 0 None)
        (fresh_page demo_listed) =
      (Await (Wire (Some "token") (SetPermissionOverride "c1" "r" (Permissions VIEW_CHANNEL) 0 ""))
         k, fresh_page demo_listed) ∧
    (Programs.exec (k (Ok None)) (fresh_page demo_listed)).2 =
      launch (handing_on ["c1"]) (fresh_page demo_listed) ∧
    alone (λ _, Throw "") (redistributeChannelKeys random_secret random_nonce 3 ["c1"])
      (key_module demo_listed) = Some (asked, Ok true, m') ∧
    KeyDistribution.first_pages asked = ["c1"].
Proof.
  destruct (override_hands_on (H := toy) (H0 := demo_environment) "c1" "r"
    (Permissions VIEW_CHANNEL) 0 None (fresh_page demo_listed)) as ((k & Hk & Hgo) & _ & _ & Hask).
  destruct (Hask demo_listed (λ _, Throw "")) as (asked & m' & E & H1 & _).
  { apply (bool_decide_unpack _). vm_compute. exact I. }
  { simpl. lia. }
  exists k, asked, m'. split; [exact Hk|]. split; [|by split].
  destruct (Hgo None (fresh_page demo_listed)) as [_ Hd]. exact Hd.
Defined.

(** ** Invites with keys, from one page to another

    The invite that is made for a server from a template, the link that is shared, and
    what joining with it does: the joiner gets the keys without any member being online. *)

From S2P Require Import ApiCalls Auth KeyStorage Invites.

Open Scope meza_scope.

Section facts.
Context `{Crypto} `{!CryptoLaws} `{Environment}.

Definition keys_of (s : App) : KeyState := Client.keys (local (client s)).
Definition key_of_channel (s : App) (ch : string) : VersionMap :=
  or_default ∅ (channelKeyCache (keys_of s) !! ch).
Definition server_of (s : App) (sid : string) : option Server :=
  Servers.servers (stores (client s) C_servers) !! sid.

(** Run on inside of what surrounds a program. *)
Lemma exec_inside {A B} (p : aprog A) (f : A → aprog B) p' c c' :
  Programs.exec p c = (p', c') → Programs.exec (bind p f) c = Programs.exec (bind p' f) c'.
Proof.
  revert c. induction p as [A a|A e|A k IH|A g k IH|A q k IH|A q IHq k IH|A pid k IH]; intros c;
    cbn [Programs.exec bind]; try (by intros [= <- <-]).
  - apply IH.
  - apply IH.
  - destruct (Programs.exec q _). apply IH.
Qed.
Lemma exec_trying {A} (p : aprog A) h p' c c' :
  Programs.exec p c = (p', c') → Programs.exec (catch p h) c = Programs.exec (catch p' h) c'.
Proof.
  revert c. induction p as [A a|A e|A k IH|A g k IH|A q k IH|A q IHq k IH|A pid k IH]; intros c;
    cbn [Programs.exec catch]; try (by intros [= <- <-]).
  - apply IH.
  - apply IH.
  - destruct (Programs.exec q _). apply IH.
Qed.

(** A program that only waits for promises, one after another, hears how they ended. *)
Fixpoint hear {A} (rs : list (result failure value)) (p : aprog A) : aprog A :=
  match rs, p with
  | r :: rs, WaitFor _ k => hear rs (k r)
  | _, p => p
  end.
Inductive heard {A} : list (result failure value) → aprog A → A → Prop :=
  | heard_done a : heard [] (Ret a) a
  | heard_next r rs pid k a : heard rs (k r) a → heard (r :: rs) (WaitFor pid k) a.

Lemma heard_map {A B} rs (p : aprog A) (g : A → B) a :
  heard rs p a → heard rs (let* x := p in Ret (g x)) (g a).
Proof. induction 1; constructor; auto. Qed.
Lemma hear_heard {A B} rs (p : aprog A) (f : A → aprog B) h a :
  heard rs p a → hear rs (catch (bind p f) h) = catch (f a) h.
Proof. by induction 1. Qed.

(** The channels among [chs] whose promise failed *)
Definition unprovided (chs : list string) (rs : list (result failure value)) : list string :=
  concat (zip_with (λ ch r, match r with Ok _ => [] | Throw _ => [ch] end) chs rs).

Lemma provision_all_runs chs u c :
  ∃ p c', Programs.exec (provision_all chs u) c = Programs.exec p c' ∧
    ∀ rs, length rs = length chs → heard rs p (unprovided (ch_id <$> chs) rs).
Proof.
  assert (Hstart : ∃ pids c', Programs.exec (collect chs (λ ch,
      Spawn (provisionChannelKey (ch_id ch) [u] ;; Ret Nothing)
        (λ pid, Ret (ch_id ch, pid)))) c = (Ret pids, c') ∧ pids.*1 = ch_id <$> chs).
  { revert c. induction chs as [|ch chs IH]; intros c; [by eexists [], c|].
    cbn [collect bind Programs.exec].
    destruct (Programs.exec (provisionChannelKey (ch_id ch) [u] ;; Ret Nothing) _) as [p' c1].
    destruct (IH (put_thread (next c) p' c1)) as (pids & c2 & E & Hpids).
    exists ((ch_id ch, next c) :: pids), c2. split; [|by rewrite fmap_cons, Hpids].
    etrans; [apply exec_inside, E|]. done. }
  destruct Hstart as (pids & c' & E & Hpids).
  do 2 eexists. split; [etrans; [apply exec_inside, E|]; reflexivity|].
  intros rs Hrs. rewrite <-(length_fmap ch_id), <-Hpids in Hrs.
  rewrite <-Hpids. clear -Hrs. unfold unprovided.
  apply (heard_map _ _ (@concat string)). revert rs Hrs. induction pids as [|[ch pid] pids IH]; intros [|r rs]; try done; [constructor|].
  intros [= Hrs]. cbn [collect bind]. constructor. cbn [bind fmap list_fmap zip_with fst].
  apply (heard_map _ _ (cons (match r with Ok _ => [] | Throw _ => [ch] end))). by apply IH.
Qed.

Lemma provisioned {A} chs u (f : list string → aprog A) h c :
  chs ≠ [] →
  ∃ p d, Programs.exec (catch (bind (provision_all chs u) f) h) c = (p, d) ∧
    ∀ rs, length rs = length chs →
      hear rs p = catch (f (unprovided (ch_id <$> chs) rs)) h.
Proof.
  intros Hne. destruct (provision_all_runs chs u c) as (p & d & E & Hp).
  assert (Hw : ∃ pid k, p = WaitFor pid k).
  { destruct chs as [|ch chs]; [done|].
    specialize (Hp (replicate (S (length chs)) (Ok Nothing)) ltac:(by rewrite length_replicate)).
    inversion Hp. eauto. }
  exists (catch (bind p f) h), d. split.
  - assert (E' : Programs.exec (provision_all chs u) c = (p, d))
      by (rewrite E; by destruct Hw as (? & ? & ->)).
    apply (exec_inside _ f) in E'. destruct Hw as (pid & k & ->). cbn [bind Programs.exec] in E'.
    by apply (exec_trying _ h) in E'.
  - intros rs Hrs. by apply hear_heard, Hp.
Qed.

(** The creator's side: two awaits, then the link *)
Lemma bundled_invite_runs sid ids old (c : apage) ct iv :
  let n := draws (keys_of (st c)) in
  createInviteKeyBundle stringify (random_iv (n + 1)) (random_invite n) ids
    (count 0 1 (keys_of (st c))) = Ok (ct, iv) →
  ∃ k c1, Programs.exec (bundled_invite sid ids old) c = (Await Tick k, c1) ∧
    ∀ c', ∃ k', Programs.exec (k (Ok tt)) c' =
        (Await (Wire (access_token (st c')) (CreateInvite sid ct iv)) k', c') ∧
      ∀ code c'', (Programs.exec (k' (Ok (Some code))) c'').1 =
        Ret (Some (code, inviteUrl app_origin code (Some (random_invite n)))).
Proof.
  cbv zeta. intros Hb. destruct c as [s ts nx]. cbn [st] in Hb.
  unfold bundled_invite, makeInviteKeyBundle.
  cbn [bind catch look Programs.exec modify st on_st].
  set (R := createInviteKeyBundle _ _ _ _ _). assert (R = Ok (ct, iv)) as -> by exact Hb.
  do 2 eexists. split; [reflexivity|]. intros c'.
  eexists. split; [destruct c'; reflexivity|]. intros code c''.
  by destruct old, c''.
Qed.

Definition public_ids (chs : list Channel) : list string :=
  ch_id <$> filter (λ ch, ch_isPrivate ch = false) chs.
(** Every public channel has its key, there is one, and the session is ready. *)
Definition all_provided (chs : list Channel) (failed : list string) (s : App) : bool :=
  negb (bool_decide (public_ids chs = [])) &&
  forallb (λ id, bool_decide (id ∉ failed)) (public_ids chs) &&
  sessionReady (local (client s)).

Lemma public_provided chs (failed : list string) :
  forallb (λ id, bool_decide (id ∉ failed)) (public_ids chs) =
    forallb (λ ch, bool_decide (ch_id ch ∉ failed)) (filter (λ ch, ch_isPrivate ch = false) chs) ∧
  (forallb (λ id, bool_decide (id ∉ failed)) (public_ids chs) = true →
   filter (λ ch, ch_id ch ∉ failed) (filter (λ ch, ch_isPrivate ch = false) chs) =
     filter (λ ch, ch_isPrivate ch = false) chs).
Proof.
  unfold public_ids. generalize (filter (λ ch, ch_isPrivate ch = false) chs). intros l.
  induction l as [|ch l [IH1 IH2]]; [done|]. rewrite fmap_cons. cbn [forallb].
  rewrite IH1. split; [done|]. intros [Hch%bool_decide_eq_true Hl]%andb_true_iff.
  rewrite filter_cons_True by done. by rewrite IH2 by by rewrite IH1.
Qed.

Lemma template_invite_exec res sv failed h (c : apage) :
  (all_provided (ta_channels res) failed (st c) = true →
   Programs.exec (catch (template_invite res sv failed) h) c =
     Programs.exec (catch (let* i := bundled_invite (sv_id sv) (public_ids (ta_channels res))
         (ta_invite res) in
       Ret {| cr_server := Some sv; cr_channels := ta_channels res; cr_roles := ta_roles res;
         cr_invite := match i with Some i => Some i.1 | None => ta_invite res end;
         cr_inviteUrl := match i with
           | Some i => Some i.2
           | None => (λ code, inviteUrl app_origin code None) <$> ta_invite res
           end |}) h) c) ∧
  (all_provided (ta_channels res) failed (st c) = false →
   Programs.exec (catch (template_invite res sv failed) h) c =
     (Ret {| cr_server := Some sv; cr_channels := ta_channels res; cr_roles := ta_roles res;
        cr_invite := ta_invite res;
        cr_inviteUrl := (λ code, inviteUrl app_origin code None) <$> ta_invite res |}, c)).
Proof.
  destruct (public_provided (ta_channels res) failed) as [Hall Hf].
  unfold all_provided, template_invite. cbv zeta. cbn [look bind catch Programs.exec].
  rewrite <-Hall. destruct (forallb _ (public_ids _)) eqn:E.
  - rewrite Hf by done. unfold public_ids. destruct (sessionReady _).
    + rewrite !andb_true_r. destruct (filter _ (ta_channels res)) eqn:El; [by split|].
      rewrite fmap_cons, !bool_decide_eq_false_2 by done. by split.
    + rewrite !andb_false_r. by split.
  - rewrite !andb_false_r. by split.
Qed.

(** Up to the promises of the keys, and on when they are settled *)
Lemma createServerFromTemplate_runs params (c : apage) :
  ∃ k, Programs.exec (createServerFromTemplate params) c =
      (Await (Wire (access_token (st c)) (CreateServerFromTemplate params)) k, c) ∧
  ∀ res sv d, ta_server res = Some sv → truthy (user_id (st d)) = true → ta_channels res ≠ [] →
    ∃ p d1 h, Programs.exec (k (Ok res)) d = (p, d1) ∧
    ∀ rs, length rs = length (ta_channels res) →
      hear rs p = catch (template_invite res sv (unprovided (ch_id <$> ta_channels res) rs)) h.
Proof.
  eexists. split; [by destruct c|]. intros res sv [s ts nx] Hsv Hu Hne. cbn [st] in Hu.
  assert (Hgo : ∀ d', truthy (user_id (st d')) = true → ∃ p d1 h,
      Programs.exec (rethrow (
        let* userId := look user_id in
        let* provisionFailed :=
          (if truthy userId then provision_all (ta_channels res) (or_default "" userId)
           else Ret []) in
        template_invite res sv provisionFailed)) d' = (p, d1) ∧
      ∀ rs, length rs = length (ta_channels res) →
        hear rs p = catch (template_invite res sv (unprovided (ch_id <$> ta_channels res) rs)) h).
  { intros d' Hd. cbn [look bind rethrow catch Programs.exec]. rewrite Hd.
    destruct (provisioned (ta_channels res) (or_default "" (user_id (st d')))
      (template_invite res sv) (λ err, Raise (Error (mapChatError err))) d' Hne) as (p & d1 & Hp).
    by exists p, d1, (λ err, Raise (Error (mapChatError err))). }
  cbn [bind catch Programs.exec]. rewrite Hsv.
  cbn [bind catch Programs.exec addServer act modify on_st st].
  apply Hgo. exact Hu.
Qed.

(** The joiner's side: the request, then the bundle *)
Lemma joinServer_runs code (d : apage) (sv : Server) ct iv t secret :
  ct ≠ [] → iv ≠ [] → t ≠ "" → base64UrlToBytes t = Ok secret →
  ∃ k, Programs.exec (joinServer code) d =
      (Await (Wire (access_token (st d)) (JoinServer code)) k, d) ∧
    ∀ d' (r := {| ja_server := Some sv; ja_encryptedChannelKeys := ct; ja_channelKeysIv := iv |}),
      inviteSecret (invite (invites (st d'))) = Some t →
      ∃ k', Programs.exec (k (Ok r)) d' =
          (Await Tick k', on_st (on_client (Client.act localeCompare self C_servers
             (Servers.AddServer sv))) d') ∧
        ∀ d'' bob, importInviteKeyBundle parse to_string secret ct iv (keys_of (st d'')) =
            (Ok tt, bob) →
          Programs.exec (k' (Ok tt)) d'' = (Ret (Some sv), on_st (λ s,
            on_invites (setInviteSecret None) (on_key_module (on_ks (λ _, bob)) s)) d'').
Proof.
  intros Hct Hiv Ht Hdec. eexists. split; [by destruct d|]. intros d' r Hs.
  destruct d' as [s ts nx]. cbn [st] in Hs. subst r.
  destruct ct as [|x ct]; [done|]. destruct iv as [|y iv]; [done|].
  destruct t as [|z t]; [done|].
  eexists. split.
  - cbn [call is_public bind catch rethrow Programs.exec look act_some ja_server addServer act
      modify st on_st ja_encryptedChannelKeys ja_channelKeysIv invites on_client].
    rewrite Hs. cbn [truthy or_default]. rewrite !bool_decide_eq_false_2 by done.
    rewrite Hdec. cbn [negb andb of_key bind logged takeInviteKeyBundle]. reflexivity.
  - intros d'' bob Hbob. simpl. unfold keys_of in Hbob. rewrite Hbob. by destruct d''.
Qed.

Lemma bundle_nonempty iv secret ids s ct iv' :
  createInviteKeyBundle stringify iv secret ids s = Ok (ct, iv') → ct ≠ [].
Proof.
  unfold createInviteKeyBundle, aesGcmEncrypt. destruct (importKey _); [|done].
  intros [= <- _] E. apply (f_equal length) in E. rewrite gcm_length in E. simpl in E. lia.
Qed.

Lemma opened_secret code t i :
  valid_code code = true → t ≠ "" →
  inviteSecret (invite (open_location (invite_path +:+ code) t i)) = Some t.
Proof.
  intros Hc Ht. unfold open_location. rewrite startsWith_append.
  change 8 with (String.length invite_path). rewrite str_slice_append, Hc. cbn [andb].
  by rewrite bool_decide_eq_false_2.
Qed.

(** Whoever opens a link with the secret [t] and joins with it, while the server hands out
    that ciphertext, gets the keys that [shared] has for the channels [ids]. *)
Definition joiner_gets (t : string) (ct iv : bytes) (ids : list string) (shared : App) : Prop :=
  ∀ code sv (d : apage),
    (∀ i, valid_code code = true →
       inviteSecret (invite (open_location (invite_path +:+ code) t i)) = Some t) ∧
    ∃ j, Programs.exec (joinServer code) d =
        (Await (Wire (access_token (st d)) (JoinServer code)) j, d) ∧
      ∀ d' (r := {| ja_server := Some sv; ja_encryptedChannelKeys := ct;
                    ja_channelKeysIv := iv |}),
        inviteSecret (invite (invites (st d'))) = Some t →
        ∃ j' d1, Programs.exec (j (Ok r)) d' = (Await Tick j', d1) ∧
          server_of (st d1) (sv_id sv) = Some sv ∧
          ∀ d'', versions_ok (keys_of (st d'')) →
            let e := Programs.exec (j' (Ok tt)) d'' in
            e.1 = Ret (Some sv) ∧ inviteSecret (invite (invites (st e.2))) = None ∧
            ∀ ch, key_of_channel (st e.2) ch =
              if decide (ch ∈ ids) then
                prune (key_of_channel shared ch ∪ key_of_channel (st d'') ch)
              else key_of_channel (st d'') ch.

Lemma joiner_gets_bundle n ids (shared : App) :
  let bundle := getChannelKeysForServer ids (keys_of shared) in
  length (deriveInviteKey (random_invite n)) = 32 → octets (random_invite n) →
  random_invite n ≠ [] → random_iv (n + 1) ≠ [] →
  map_Forall (λ _, keys_storable) (channelKeyCache (keys_of shared)) →
  parse (stringify bundle) = Ok (json_ordered bundle) →
  ∃ ct, createInviteKeyBundle stringify (random_iv (n + 1)) (random_invite n) ids
      (count 0 1 (keys_of shared)) = Ok (ct, random_iv (n + 1)) ∧
    joiner_gets (bytesToBase64Url (random_invite n)) ct (random_iv (n + 1)) ids shared.
Proof.
  cbv zeta. intros Hk Ho Hne Hiv Hs Hp.
  destruct (bundle_roundtrip stringify parse to_string (random_iv (n + 1)) (random_invite n) ids
    (count 0 1 (keys_of shared)) Hk Hs Hp) as (ct & Hct & Himp).
  exists ct. split; [exact Hct|]. intros code sv d.
  pose proof (base64Url_nonempty _ Ho Hne) as Ht.
  split; [intros i Hc; by apply opened_secret|].
  destruct (joinServer_runs code d sv ct (random_iv (n + 1)) _ _
    (bundle_nonempty _ _ _ _ _ _ Hct) Hiv Ht (base64Url_roundtrip _ Ho)) as (j & Hj & Hj').
  exists j. split; [exact Hj|]. intros d' r Hd'. destruct (Hj' d' Hd') as (j' & Hj1 & Hj2).
  exists j'. eexists. split; [exact Hj1|]. split.
  { unfold server_of. simpl. by rewrite lookup_insert_eq. }
  intros d'' Hv. destruct (Himp _ Hv) as (bob & Hbob & _ & Hmerged).
  rewrite (Hj2 d'' bob Hbob). split; [done|]. split; [done|]. exact Hmerged.
Qed.

(** C9: the invite of a server made from a template carries the keys of its public
    channels, and no others.  [createServerFromTemplate] waits for the provisioning of
    every channel the server made.  If no public channel has failed, there is one, and
    the session is ready, it encrypts the cached keys of the channels that are not private
    under a fresh secret, has the server store the ciphertext with an invite, and returns
    a link with the secret in its fragment; otherwise it returns the server's own invite.
    Whoever opens the link and joins with it while the server hands out that ciphertext
    has, when [joinServer] returns, the server in the list and for every one of those
    channels the creator's key versions merged with those known before; other channels
    are left alone, the secret is forgotten, and whatever else ran on either page in
    between does not matter. *)
Theorem template_invite_shares_keys params (c : apage) :
  ∃ k, Programs.exec (createServerFromTemplate params) c =
      (Await (Wire (access_token (st c)) (CreateServerFromTemplate params)) k, c) ∧
  ∀ res sv d, ta_server res = Some sv → truthy (user_id (st d)) = true → ta_channels res ≠ [] →
  let ids := ch_id <$> filter (λ ch, ch_isPrivate ch = false) (ta_channels res) in
  let created code url := {| cr_server := Some sv; cr_channels := ta_channels res;
    cr_roles := ta_roles res; cr_invite := code; cr_inviteUrl := url |} in
  ∃ p d1, Programs.exec (k (Ok res)) d = (p, d1) ∧
  ∀ rs d2, length rs = length (ta_channels res) →
  let goes_on := Programs.exec (hear rs p) d2 in
  let failed := unprovided (ch_id <$> ta_channels res) rs in
  let n := draws (keys_of (st d2)) in
  let secret := random_invite n in
  let iv := random_iv (n + 1) in
  let bundle := getChannelKeysForServer ids (keys_of (st d2)) in
  if negb (bool_decide (ids = [])) && forallb (λ id, bool_decide (id ∉ failed)) ids &&
     sessionReady (local (client (st d2)))
  then
    length (deriveInviteKey secret) = 32 → octets secret → secret ≠ [] → iv ≠ [] →
    map_Forall (λ _, keys_storable) (channelKeyCache (keys_of (st d2))) →
    parse (stringify bundle) = Ok (json_ordered bundle) →
    ∃ ct k1 c1, goes_on = (Await Tick k1, c1) ∧
      (∀ c2, ∃ k2, Programs.exec (k1 (Ok tt)) c2 =
          (Await (Wire (access_token (st c2)) (CreateInvite (sv_id sv) ct iv)) k2, c2) ∧
        ∀ code c3, (Programs.exec (k2 (Ok (Some code))) c3).1 =
          Ret (created (Some code) (Some (inviteUrl app_origin code (Some secret))))) ∧
      joiner_gets (bytesToBase64Url secret) ct iv ids (st d2)
  else goes_on = (Ret (created (ta_invite res)
    ((λ code, inviteUrl app_origin code None) <$> ta_invite res)), d2).
Proof.
  destruct (createServerFromTemplate_runs params c) as (k & Hk & Hrun).
  exists k. split; [exact Hk|]. intros res sv d Hsv Hu Hne. cbv zeta.
  destruct (Hrun res sv d Hsv Hu Hne) as (p & d1 & h & Hp & Hheard).
  exists p, d1. split; [exact Hp|]. intros rs d2 Hrs. rewrite (Hheard rs Hrs).
  destruct (template_invite_exec res sv (unprovided (ch_id <$> ta_channels res) rs) h d2)
    as [Hyes Hno].
  unfold all_provided, public_ids in Hyes, Hno.
  destruct (_ && sessionReady _); [|by apply Hno].
  intros Hlen Ho Hs Hiv Hst Hj.
  destruct (joiner_gets_bundle _ _ (st d2) Hlen Ho Hs Hiv Hst Hj) as (ct & Hct & Hjoin).
  destruct (bundled_invite_runs (sv_id sv) _ (ta_invite res) d2 ct _ Hct)
    as (k1 & c1 & Hk1 & Hk2).
  rewrite Hyes by done. set (f := λ i : option (string * string), _).
  exists ct, (λ r, catch (bind (k1 r) f) h), c1. split; [|split; [|exact Hjoin]].
  - apply (exec_inside _ f), (exec_trying _ h) in Hk1. exact Hk1.
  - intros c2. destruct (Hk2 c2) as (k2 & Ek2 & Hdone).
    exists (λ r, catch (bind (k2 r) f) h). split.
    + apply (exec_inside _ f), (exec_trying _ h) in Ek2. exact Ek2.
    + intros code c3. specialize (Hdone code c3).
      destruct (Programs.exec (k2 (Ok (Some code))) c3) as [q c4] eqn:E. cbn [fst] in Hdone.
      subst q. apply (exec_inside _ f), (exec_trying _ h) in E. by rewrite E.
Qed.
End facts.

#[local] Existing Instance toy.
#[local] Existing Instance toy_laws.
#[local] Existing Instance demo_environment.

Definition demo_joiner : App :=
  app_with (initial_client (λ _ _, 0%Z) "me" false) demo_keys
    (open_location "/invite/a1b2c3d4" (bytesToBase64Url demo_secret) initial).
Definition demo_joined : Server :=
  {| sv_id := "s1"; sv_name := "s1"; sv_iconUrl := ""; sv_ownerId := "o";
     sv_createdAt := None; sv_welcomeMessage := ""; sv_rules := "";
     sv_onboardingEnabled := false; sv_rulesRequired := false;
     sv_defaultChannelPrivacy := false; sv_bannerUrl := "" |}.

(** With a fragment that is not base64 the call fails after the server has been joined. *)
Lemma join_fails_after_adding :
  let s := app_with (initial_client (λ _ _, 0%Z) "me" false) demo_keys
    (open_location "/invite/a1b2c3d4" "!" initial) in
  ∃ k, Programs.exec (joinServer "a1b2c3d4") (fresh_page s) =
      (Await (Wire (Some "token") (JoinServer "a1b2c3d4")) k, fresh_page s) ∧
    let e := Programs.exec (k (Ok {| ja_server := Some demo_joined;
      ja_encryptedChannelKeys := [1%Z]; ja_channelKeysIv := [1%Z] |})) (fresh_page s) in
    e.1 = Raise (Error "Network error. Please check your connection.") ∧
    server_of (st e.2) "s1" = Some demo_joined.
Proof. cbv zeta. eexists. split; [reflexivity|]. split; reflexivity. Qed.

Definition demo_template : Template :=
  {| t_name := "s1"; t_iconUrl := None; t_channels := []; t_roles := [];
     t_welcomeMessage := None; t_rules := None; t_onboardingEnabled := false;
     t_rulesRequired := false; t_everyonePermissions := None; t_channelGroups := [] |}.
(** A private channel, whose key cannot be provided, and a public one *)
Definition demo_template_answer : TemplateAnswer :=
  {| ta_server := Some demo_joined;
     ta_channels := [{| ch_id := "c3"; ch_serverId := "s1"; ch_name := "staff"; ch_type := 1;
         ch_position := 1; ch_topic := ""; ch_isPrivate := true; ch_channelGroupId := None;
         ch_permissionsSynced := true |}; DispatchFacts.demo_channel]; ta_roles := []; ta_channelGroups := [];
     ta_invite := None |}.

Lemma template_invite_shares_keys_witness :
  ∃ k p d1 ct k1 c1 j j' d3,
    Programs.exec (createServerFromTemplate demo_template) (fresh_page demo_app) =
      (Await (Wire (Some "token") (CreateServerFromTemplate demo_template)) k,
       fresh_page demo_app) ∧
    Programs.exec (k (Ok demo_template_answer)) (fresh_page demo_app) = (p, d1) ∧
    Programs.exec (hear [Throw (Error ""); Ok Nothing] p) (fresh_page demo_app) = (Await Tick k1, c1) ∧
    Programs.exec (joinServer "a1b2c3d4") (fresh_page demo_joiner) =
      (Await (Wire (Some "token") (JoinServer "a1b2c3d4")) j, fresh_page demo_joiner) ∧
    Programs.exec (j (Ok {| ja_server := Some demo_joined; ja_encryptedChannelKeys := ct;
      ja_channelKeysIv := demo_nonce |})) (fresh_page demo_joiner) = (Await Tick j', d3) ∧
    key_of_channel (st (Programs.exec (j' (Ok tt)) (fresh_page demo_joiner)).2) "c1" =
      {[1%Z := key_of 1; 2%Z := key_of 2]}.
Proof.
  assert (Hlen : length (deriveInviteKey demo_secret) = 32) by (vm_compute; reflexivity).
  assert (Hoct : octets demo_secret) by (apply (bool_decide_unpack _); vm_compute; exact I).
  destruct (template_invite_shares_keys (H := toy) (H1 := demo_environment) demo_template
    (fresh_page demo_app)) as (k & Hk & Hrun).
  destruct (Hrun demo_template_answer demo_joined (fresh_page demo_app) eq_refl eq_refl
    ltac:(discriminate)) as (p & d1 & Hp & Hon).
  destruct (Hon [Throw (Error ""); Ok Nothing] (fresh_page demo_app) eq_refl Hlen Hoct ltac:(discriminate)
    ltac:(discriminate) demo_cache_storable eq_refl) as (ct & k1 & c1 & Hk1 & _ & Hjoin).
  destruct (Hjoin "a1b2c3d4" demo_joined (fresh_page demo_joiner)) as (_ & j & Hj & Hrest).
  destruct (Hrest (fresh_page demo_joiner)) as (j' & d3 & Hj1 & _ & Hlast);
    [vm_compute; reflexivity|].
  exists k, p, d1, ct, k1, c1, j, j', d3. split; [exact Hk|]. split; [exact Hp|].
  split; [exact Hk1|]. split; [exact Hj|]. split; [exact Hj1|].
  destruct (Hlast (fresh_page demo_joiner) demo_keys_versions) as (_ & _ & Hm).
  rewrite (Hm "c1"). vm_compute. reflexivity.
Defined.
