(* ===== verification/Renewal.v ===== *)
(** * One renewal of the tokens at a time

    The requests of a page that are refused for an expired token share one renewal.  A
    program is calm if it neither touches the shared promise nor asks for new tokens other
    than through the interceptor; every function of the chat API is.  Then whatever calm
    programs a page runs, and in whatever order they are answered, at most one renewal is
    in flight, and the shared promise is the one it settles. *)

From S2P Require Import ApiCalls Auth KeyStorage Invites.

Open Scope meza_scope.

Definition keeps_promise (f : App → App) : Prop :=
  ∀ s, refreshPromise (f s) = refreshPromise s.
Definition is_renewal (q : request) : Prop :=
  match q with Wire _ (RefreshToken _) => True | _ => False end.

(** ** Calm programs *)

Inductive calm : ∀ A, aprog A → Prop :=
  | calm_Ret A (a : A) : calm A (Ret a)
  | calm_Raise A e : calm A (Raise e)
  | calm_Look A k : (∀ s, calm A (k s)) → calm A (Look k)
  | calm_Do A f k : keeps_promise f → calm A k → calm A (Do f k)
  | calm_Await A q k : ¬ is_renewal q → (∀ r, calm A (k r)) → calm A (Await q k)
  | calm_Spawn A p k : calm value p → (∀ pid, calm A (k pid)) → calm A (Spawn p k)
  | calm_WaitFor A pid k : (∀ r, calm A (k r)) → calm A (WaitFor pid k)
  (** [renewal] and what follows it *)
  | calm_renews A k0 k :
      (∀ s pid, refreshPromise s = Some pid → k0 s = k pid) →
      (∀ s, refreshPromise s = None →
         k0 s = Spawn refreshTokens (λ inner,
           Spawn (settled inner (set_refreshPromise None)) (λ promise,
             Do (set_refreshPromise (Some promise)) (k promise)))) →
      (∀ pid, calm A (k pid)) → calm A (Look k0).
#[global] Arguments calm {A} p.

Lemma calm_inv {A} (p : aprog A) :
  calm p → match p with
           | Await q k => ¬ is_renewal q ∧ ∀ r, calm (k r)
           | WaitFor _ k => ∀ r, calm (k r)
           | _ => True
           end.
Proof. by destruct 1. Qed.

Lemma calm_bind {A B} (p : aprog A) (f : A → aprog B) :
  calm p → (∀ a, calm (f a)) → calm (bind p f).
Proof.
  intros Hp Hf. induction Hp as [| |A k _ IH|A g k Hg _ IH|A q k Hq _ IH|A p k Hp _ _ IH|
    A pid k _ IH|A k0 k H1 H2 _ IH]; cbn [bind]; try by constructor; auto.
  - apply Hf.
  - apply (calm_renews _ _ (λ pid, bind (k pid) f)).
    + intros s pid Hs. by rewrite (H1 _ _ Hs).
    + intros s Hs. by rewrite (H2 _ Hs).
    + intros pid. by apply IH.
Qed.
Lemma calm_catch {A} (p : aprog A) (h : failure → aprog A) :
  calm p → (∀ e, calm (h e)) → calm (catch p h).
Proof.
  intros Hp Hh. induction Hp as [| |A k _ IH|A g k Hg _ IH|A q k Hq _ IH|A p k Hp _ _ IH|
    A pid k _ IH|A k0 k H1 H2 _ IH]; cbn [catch]; try by constructor; auto.
  - apply Hh.
  - apply (calm_renews _ _ (λ pid, catch (k pid) h)).
    + intros s pid Hs. by rewrite (H1 _ _ Hs).
    + intros s Hs. by rewrite (H2 _ Hs).
    + intros pid. by apply IH.
Qed.
Lemma calm_of_result {A} (r : result failure A) : calm (of_result r : aprog A).
Proof. destruct r; constructor. Qed.
Lemma calm_look {A} (f : App → A) : calm (look f : aprog A).
Proof. constructor. intros. constructor. Qed.
Lemma calm_modify f : keeps_promise f → calm (modify f : aprog unit).
Proof. intros. constructor; [done|constructor]. Qed.
Lemma calm_wait_for pid : calm (wait_for pid : aprog value).
Proof. constructor. apply calm_of_result. Qed.
Lemma calm_tick : calm (await Tick : aprog unit).
Proof. constructor; [by intros []|apply calm_of_result]. Qed.
Lemma calm_renewal : calm renewal.
Proof.
  apply (calm_renews _ _ Ret).
  - by intros s pid ->.
  - by intros s ->.
  - constructor.
Qed.
Lemma calm_collect {A B} (l : list A) (f : A → aprog B) :
  (∀ x, calm (f x)) → calm (collect l f).
Proof.
  intros Hf. induction l as [|x l IH]; cbn [collect]; [constructor|].
  apply calm_bind; [done|]. intros y. apply calm_bind; [done|]. constructor.
Qed.

(** The interceptor *)
Lemma calm_wire t q : ¬ is_renewal (Wire t q) → calm (wire t q).
Proof. intros. constructor; [done|apply calm_of_result]. Qed.
Lemma calm_call q : ¬ is_renewal (Wire None q) → calm (call q).
Proof.
  intros Hq. assert (Hq' : ∀ t, ¬ is_renewal (Wire t q)) by by destruct q.
  unfold call. destruct (is_public q); [by apply calm_wire|].
  apply calm_bind; [apply calm_look|]. intros t.
  constructor; [done|]. intros [a|e]; [constructor|].
  destruct (refused e); [|constructor]. apply calm_bind; [apply calm_renewal|]. intros pid.
  apply calm_bind; [apply calm_wait_for|]. intros v. destruct (flag_of v); [|constructor].
  unfold retry. apply calm_bind; [apply calm_look|]. intros. by apply calm_wire.
Qed.

(** Going through a program by its constructors *)
Ltac calm_step :=
  match goal with
  | |- calm (bind _ _) => apply calm_bind; [|intros]
  | |- calm (catch _ _) => apply calm_catch; [|intros]
  | |- calm (call ?q) => refine (calm_call q _); by intros []
  | |- calm (look _) => apply calm_look
  | |- calm (modify _) => apply calm_modify; by intros ?
  | |- calm (await Tick) => exact calm_tick
  | |- calm (wait_for _) => apply calm_wait_for
  | |- calm (of_result _) => apply calm_of_result
  | |- calm (collect _ _) => apply calm_collect; intros
  | |- calm (Ret _) => constructor
  | |- calm (Raise _) => constructor
  | |- calm (Look _) => apply calm_Look; intros
  | |- calm (Do _ _) => apply calm_Do; [by intros ?|]
  | |- calm (Spawn _ _) => apply calm_Spawn; [|intros]
  | |- calm (WaitFor _ _) => apply calm_WaitFor; intros
  | |- calm (if ?b then _ else _) => destruct b
  | |- calm (match ?x with _ => _ end) => destruct x
  end.

Lemma calm_attempt {A} (p : aprog A) : calm p → calm (attempt p).
Proof. intros. unfold attempt. repeat calm_step; done. Qed.
Lemma calm_key_await {A} q (k : result string (key_answer q) → aprog A) :
  (∀ r, calm (k r)) → calm (key_await q k).
Proof.
  intros Hk. destruct q; cbn [key_await];
    try (apply calm_bind; [apply calm_attempt; calm_step|done]).
  by apply calm_Await; [intros []|].
Qed.
Lemma calm_embed {A} (p : kprog A) : calm (embed p).
Proof.
  induction p; cbn [embed]; repeat calm_step; auto; try by apply calm_key_await.
Qed.

Section api.
Context `{Crypto} `{Environment}.

Lemma calm_background {A} (p : aprog A) : calm p → calm (background p).
Proof. intros. unfold background. repeat calm_step; done. Qed.
Lemma calm_provisionChannelKey c ids : calm (provisionChannelKey c ids).
Proof. unfold provisionChannelKey, keyed. repeat (calm_step || apply calm_embed). Qed.
Lemma calm_redistribute ids : calm (redistribute ids).
Proof. apply calm_background, calm_embed. Qed.

End api.

Ltac head p := match p with ?f _ => head f | _ => p end.
Ltac calm_call_step :=
  first
    [ calm_step
    | apply calm_embed | apply calm_provisionChannelKey | apply calm_redistribute
    | apply calm_attempt | apply calm_background
    | progress cbv zeta
    | match goal with |- calm ?p => let f := head p in unfold f end ].

(** Every function of the chat API *)
Lemma calm_body `{Crypto} `{Environment} a : calm (body a).
Proof.
  destruct a; unfold body, done_; (apply calm_bind; [|by constructor]); repeat calm_call_step.
Qed.

(** ** Pages *)

(** A renewal on its way: before it is sent, waiting for its answer, or over *)
Definition renewal_failed : failure → aprog value :=
  λ _, modify (on_auth Auth.clearAuth) ;; Ret (Flag false).
Definition take_tokens (token : string) : aprog value :=
  let* res := wire None (RefreshToken token) in
  modify (on_auth (Auth.setTokens res.1 res.2)) ;; Ret (Flag true).
Definition start_renewal (token : string) : aprog value :=
  catch (await Tick ;; take_tokens token) renewal_failed.
Definition send_renewal (token : string) : aprog value :=
  catch (take_tokens token) renewal_failed.

Inductive renewing : aprog value → Prop :=
  | ren_start token : renewing (start_renewal token)
  | ren_sent token : renewing (send_renewal token)
  | ren_over v : renewing (Ret v)
  | ren_failed e : renewing (Raise e).

(** The promise is the one of a thread that waits for the one before it. *)
Definition threads_calm (promise : option nat) (ts : gmap nat (aprog value)) : Prop :=
  match promise with
  | None => map_Forall (λ _ p, calm p) ts
  | Some pid => ∃ inner p, pid = inner + 1 ∧
      ts !! pid = Some (settled inner (set_refreshPromise None)) ∧
      ts !! inner = Some p ∧ renewing p ∧
      ∀ tid q, tid ≠ pid → tid ≠ inner → ts !! tid = Some q → calm q
  end.
Record page_calm (c : apage) : Prop := {
  pc_fresh : ∀ tid p, threads c !! tid = Some p → tid < next c;
  pc_threads : threads_calm (refreshPromise (st c)) (threads c);
}.

Lemma page_calm_reserve c : page_calm c → page_calm (reserve c).
Proof.
  intros [H1 H2]. split; [|done]. intros tid p Hp. simpl. specialize (H1 _ _ Hp). lia.
Qed.
Lemma page_calm_on_st f c : keeps_promise f → page_calm c → page_calm (on_st f c).
Proof. intros Hf [H1 H2]. split; [done|]. simpl. by rewrite Hf. Qed.
Lemma page_calm_free c : page_calm c → threads c !! next c = None.
Proof.
  intros [H1 _]. destruct (threads c !! next c) as [p|] eqn:E; [|done].
  specialize (H1 _ _ E). lia.
Qed.

(** A thread is put in that is none of the two of the renewal. *)
Lemma page_calm_put tid p c :
  page_calm c → tid < next c → calm p →
  (∀ pid, refreshPromise (st c) = Some pid → tid ≠ pid ∧ tid + 1 ≠ pid) →
  page_calm (put_thread tid p c).
Proof.
  intros [H1 H2] Ht Hp Hne. split.
  - intros t q. simpl. rewrite lookup_insert_Some. intros [[<- _]|[_ Hq]]; [done|by eapply H1].
  - simpl. unfold threads_calm in *. destruct (refreshPromise (st c)) as [pid|].
    + destruct H2 as (i & q & E & Hpid & Hi & Hq & Hall). destruct (Hne pid eq_refl) as [N1 N2].
      exists i, q. rewrite !lookup_insert_ne by lia. split_and!; [done..|].
      intros t r Ht1 Ht2. rewrite lookup_insert_Some. intros [[<- <-]|[_ Hr]]; [done|].
      by eapply Hall.
    + by apply map_Forall_insert_2.
Qed.

Lemma exec_refreshTokens (c : apage) :
  let r := Programs.exec refreshTokens c in
  renewing r.1 ∧ threads r.2 = threads c ∧ next r.2 = next c ∧
  refreshPromise (st r.2) = refreshPromise (st c).
Proof.
  cbv zeta. unfold refreshTokens. cbn [look bind Programs.exec].
  destruct (truthy _).
  - cbn [catch await bind Programs.exec]. split; [|done].
    exact (ren_start (or_default "" (Auth.refreshToken (auth (authSystem (st c)))))).
  - split; [constructor|done].
Qed.

(** What [exec] of a calm program does to the promise and its threads *)
Lemma exec_calm {A} (p : aprog A) (c : apage) :
  calm p → page_calm c →
  let r := Programs.exec p c in
  calm r.1 ∧ page_calm r.2 ∧
  ∀ pid, refreshPromise (st r.2) = Some pid →
    refreshPromise (st c) = Some pid ∨ next c < pid.
Proof.
  cbv zeta. intros Hp. revert c.
  induction Hp as [A a|A e|A k _ IH|A g k Hg _ IH|A q k Hq Hk _|A p k Hp IHp _ IH|
    A pid k Hk _|A k0 k H1 H2 _ IH]; intros c Hc; cbn [Programs.exec fst snd].
  - split; [constructor|]. auto.
  - split; [constructor|]. auto.
  - by apply IH.
  - destruct (IH (on_st g c) (page_calm_on_st _ _ Hg Hc)) as (I1 & I2 & I3).
    split_and!; [done..|]. intros pid Hpid. destruct (I3 pid Hpid) as [H|H]; [|by right].
    left. simpl in H. by rewrite Hg in H.
  - split; [by constructor|]. auto.
  - destruct (IHp _ (page_calm_reserve _ Hc)) as (I1 & I2 & I3).
    pose proof (exec_threads p (reserve c)) as [Hn Hold].
    destruct (Programs.exec p (reserve c)) as [p' c'] eqn:E. simpl in *.
    assert (Hput : page_calm (put_thread (next c) p' c')).
    { apply page_calm_put; [done|lia|done|]. intros pid Hpid.
      destruct (I3 pid Hpid) as [H|H]; [|lia].
      destruct Hc as [Hf Ht]. unfold threads_calm in Ht. rewrite H in Ht.
      destruct Ht as (i & q & -> & Ht1 & Ht2 & _).
      pose proof (Hf _ _ Ht1). pose proof (Hf _ _ Ht2). lia. }
    destruct (IH (next c) _ Hput) as (I4 & I5 & I6). split_and!; [done..|].
    intros pid Hpid. destruct (I6 pid Hpid) as [H|H]; simpl in H; [|right; lia].
    destruct (I3 pid H) as [H'|H']; [by left|right; lia].
  - split; [by constructor|]. auto.
  - destruct (refreshPromise (st c)) as [pid|] eqn:Ep.
    + rewrite (H1 _ _ Ep). destruct (IH pid c Hc) as (I1 & I2 & I3). split_and!; [done..|].
      intros pid' Hpid'. rewrite <-Ep. by apply I3.
    + rewrite (H2 _ Ep). cbn [Programs.exec].
      pose proof (exec_refreshTokens (reserve c)) as (R1 & R2 & R3 & R4).
      destruct (Programs.exec refreshTokens (reserve c)) as [p1 c1]. simpl in *.
      set (c2 := on_st _ _). assert (Hc2 : page_calm c2).
      { subst c2. destruct Hc as [Hf Ht]. unfold threads_calm in Ht. rewrite Ep in Ht.
        split; simpl; rewrite R3.
        - intros tid q. rewrite R2, !lookup_insert_Some.
          intros [[<- _]|[_ [[<- _]|[_ Hq]]]]; [lia..|]. specialize (Hf _ _ Hq). lia.
        - exists (next c), p1. rewrite lookup_insert_eq, lookup_insert_ne, lookup_insert_eq by lia.
          split_and!; [done..|]. intros tid q N1 N2. rewrite !lookup_insert_ne by done.
          rewrite R2. apply Ht. }
      destruct (IH (next c1) c2 Hc2) as (I1 & I2 & I3). split_and!; [done..|].
      intros pid Hpid. right. destruct (I3 pid Hpid) as [H|H]; subst c2; simpl in H;
        [injection H as <-|]; lia.
Qed.

Lemma page_calm_continue tid p (c : apage) :
  page_calm c → tid < next c → calm p →
  (∀ pid, refreshPromise (st c) = Some pid → tid ≠ pid ∧ tid + 1 ≠ pid) →
  page_calm (continue_with tid p c).
Proof.
  intros Hc Ht Hp Hne. unfold continue_with. pose proof (exec_threads p c) as [Hn _].
  destruct (exec_calm p c Hp Hc) as (H1 & H2 & H3). destruct (Programs.exec p c) as [p' c'].
  simpl in *. apply page_calm_put; [done|lia|done|]. intros pid Hpid.
  destruct (H3 pid Hpid) as [H|H]; [by apply Hne|lia].
Qed.

(** The renewal goes on. *)
Lemma page_calm_renewal inner p (f : App → App) (c : apage) :
  page_calm c → refreshPromise (st c) = Some (inner + 1) → keeps_promise f → renewing p →
  page_calm (put_thread inner p (on_st f c)).
Proof.
  intros [H1 H2] Hp Hf Hr. unfold threads_calm in H2. rewrite Hp in H2.
  destruct H2 as (i & q & E & Ht1 & Ht2 & _ & Hall). assert (i = inner) as -> by lia. split.
  - intros t r. simpl. rewrite lookup_insert_Some.
    intros [[<- _]|[_ Hq]]; [by eapply H1|by eapply H1].
  - simpl. rewrite Hf, Hp. exists inner, p. rewrite lookup_insert_eq, lookup_insert_ne by lia.
    split_and!; [done..|]. intros t r N1 N2. rewrite lookup_insert_ne by done. by apply Hall.
Qed.

(** The handlers of a thread that is not one of the renewal's *)
Lemma page_calm_other tid p (c : apage) :
  page_calm c → threads c !! tid = Some p →
  (calm p ∧ ∀ pid, refreshPromise (st c) = Some pid → tid ≠ pid ∧ tid + 1 ≠ pid) ∨
  (refreshPromise (st c) = Some (tid + 1) ∧ renewing p) ∨
  (∃ inner, tid = inner + 1 ∧ refreshPromise (st c) = Some tid ∧
     p = settled inner (set_refreshPromise None) ∧
     ∃ q, threads c !! inner = Some q ∧ renewing q).
Proof.
  intros [H1 H2] Ht. unfold threads_calm in H2.
  destruct (refreshPromise (st c)) as [pid|] eqn:E.
  - destruct H2 as (i & q & -> & Ht1 & Ht2 & Hr & Hall).
    destruct (decide (tid = i)) as [->|N1].
    { right. left. pose proof (eq_trans (eq_sym Ht) Ht2) as [= ->]. done. }
    destruct (decide (tid = i + 1)) as [->|N2].
    { right. right. exists i. pose proof (eq_trans (eq_sym Ht) Ht1) as [= ->].
      split_and!; eauto. }
    left. split; [by eapply Hall|]. intros pid [= <-]. lia.
  - left. split; [by apply (H2 tid)|done].
Qed.

Lemma page_calm_answer tid a (c : apage) : page_calm c → page_calm (Programs.answer tid a c).
Proof.
  intros Hc. unfold Programs.answer.
  destruct (threads c !! tid) as [p|] eqn:Ht; [|done].
  destruct (page_calm_other _ _ _ Hc Ht) as [[Hp Hne]|[[Hpr Hr]|(i & -> & _ & -> & _)]].
  - destruct p; try done. apply page_calm_continue; [done|by eapply pc_fresh| |done].
    by apply (calm_inv _ Hp).
  - destruct Hr as [token|token|v|e]; [| |done|done]; unfold continue_with; cbn.
    + destruct (a Tick) as [u|e]; cbn.
      * apply (page_calm_renewal tid (send_renewal token) (λ s, s)); [done|done|done|constructor].
      * by apply page_calm_renewal; [..|constructor].
    + destruct (a (Wire None (RefreshToken token))) as [res|e]; cbn;
        (apply page_calm_renewal; [done|done|done|constructor]).
  - done.
Qed.

Lemma page_calm_settle tid (c : apage) : page_calm c → page_calm (Programs.settle tid c).
Proof.
  intros Hc. unfold Programs.settle.
  destruct (threads c !! tid) as [p|] eqn:Ht; [|done].
  destruct (page_calm_other _ _ _ Hc Ht) as
    [[Hp Hne]|[[Hpr Hr]|(i & Ei & Hpr & -> & q & Hq & Hr)]].
  - destruct p; try done.
    destruct (threads c !! pid) as [[]|]; try done;
      (apply page_calm_continue; [done|by eapply pc_fresh| |done]; by apply (calm_inv _ Hp)).
  - by destruct Hr.
  - unfold settled. unfold aprog in *. rewrite Hq.
    assert (Hover : ∀ r : result failure value, q = of_result r →
      page_calm (continue_with tid (Do (set_refreshPromise None) (of_result r)) c)).
    { intros r Er. unfold continue_with.
      assert (Hex : Programs.exec (Do (set_refreshPromise None) (of_result r)) c =
        (of_result r, on_st (set_refreshPromise None) c)) by by destruct r.
      rewrite Hex. destruct Hc as [H1 H2]. split.
      - intros t r'. simpl. rewrite lookup_insert_Some.
        intros [[<- _]|[_ Hr']]; by eapply H1.
      - simpl. unfold threads_calm in H2. rewrite Hpr in H2.
        destruct H2 as (i' & q' & E & Ht1 & Ht2 & _ & Hall). assert (i' = i) as -> by lia.
        intros t r'. rewrite lookup_insert_Some.
        intros [[<- <-]|[N Hr']]; [apply calm_of_result|].
        destruct (decide (t = i)) as [->|]; [|by eapply Hall].
        pose proof (eq_trans (eq_sym Hq) Hr') as [= <-]. rewrite Er. apply calm_of_result. }
    destruct Hr; [done|done|by apply (Hover (Ok v))|by apply (Hover (Throw e))].
Qed.

(** ** A page in use *)

(** A calm program is started (a function of an API: [calm_body] above, and [calm_account]
    for the account calls), a request is answered, a promise that is settled is noticed by
    a function that waits for it, or another part of the page acts. *)
Inductive page_step : apage → apage → Prop :=
  | step_call p c : calm p → page_step c (launch p c)
  | step_answer tid a c : page_step c (Programs.answer tid a c)
  | step_settle tid c : page_step c (Programs.settle tid c)
  | step_other f c : keeps_promise f → page_step c (on_st f c).

Lemma page_step_calm c c' : page_step c c' → page_calm c → page_calm c'.
Proof.
  intros [p d Hp|tid a d|tid d|f d Hf] Hd.
  - change (launch p d) with (continue_with (next d) p (reserve d)).
    apply page_calm_continue; [by apply page_calm_reserve|simpl; lia|done|].
    intros pid Hpid. destruct Hd as [H1 H2]. unfold threads_calm in H2. simpl in Hpid.
    rewrite Hpid in H2. destruct H2 as (i & q & -> & Ht1 & Ht2 & _).
    pose proof (H1 _ _ Ht1). lia.
  - by apply page_calm_answer.
  - by apply page_calm_settle.
  - by apply page_calm_on_st.
Qed.

Definition in_use (c : apage) : Prop :=
  ∃ s, refreshPromise s = None ∧ rtc page_step (fresh_page s) c.

Lemma in_use_calm c : in_use c → page_calm c.
Proof.
  intros (s & Hs & Hr).
  assert (H' : page_calm (fresh_page s)).
  { split; [done|]. simpl. rewrite Hs. apply map_Forall_empty. }
  induction Hr as [|c1 c2 c3 H1 _ IH]; [done|]. eauto using page_step_calm.
Qed.

Definition succeeds {A} (r : result failure A) : bool :=
  match r with Ok _ => true | Throw _ => false end.

(** The thread of a renewal whose request is under way *)
Definition renewal_sent (c : apage) (tid : nat) : Prop :=
  ∃ t token k, threads c !! tid = Some (Await (Wire t (RefreshToken token)) k).

Lemma renewal_sent_thread c tid :
  page_calm c → renewal_sent c tid →
  refreshPromise (st c) = Some (tid + 1) ∧
  ∃ token, threads c !! tid = Some (send_renewal token).
Proof.
  intros Hc (t & token & k & Ht).
  destruct (page_calm_other _ _ _ Hc Ht) as [[Hp _]|[[Hp Hr]|(i & _ & _ & E & _)]].
  - by destruct (calm_inv _ Hp) as [[] _].
  - split; [done|]. remember (Await (Wire t (RefreshToken token)) k) as p eqn:Ep.
    destruct Hr as [|tok| |]; try done. eauto.
  - done.
Qed.

Lemma send_renewal_answered token tid (a : ∀ q, result failure (response q)) (c : apage) :
  threads c !! tid = Some (send_renewal token) →
  st (Programs.answer tid a c) =
    match a (Wire None (RefreshToken token)) with
    | Ok (access, refresh) => on_auth (Auth.setTokens access refresh) (st c)
    | Throw _ => on_auth Auth.clearAuth (st c)
    end ∧
  threads (Programs.answer tid a c) !! tid =
    Some (Ret (Flag (succeeds (a (Wire None (RefreshToken token)))))).
Proof.
  intros Ht. unfold Programs.answer, aprog in *. rewrite Ht. unfold continue_with. cbn.
  destruct (a (Wire None (RefreshToken token))) as [[x y]|e]; cbn;
    (split; [done|apply lookup_insert_eq]).
Qed.

(** C12: however the functions of the API are interleaved and whatever other parts of the
    page do, tokens are renewed by one request at a time.  The thread that made it is the
    one the shared promise waits for; its answer replaces both tokens, its failure signs
    the user out, and the promise tells those that wait which it was.  While the promise
    is there it is on its way: the renewal waits for the platform or for its answer, or
    it is over and the next step of its promise clears the way for another. *)
Theorem one_renewal_at_a_time (c : apage) :
  in_use c →
  (∀ tid, renewal_sent c tid →
    (∀ tid', renewal_sent c tid' → tid' = tid) ∧
    refreshPromise (st c) = Some (tid + 1) ∧
    ∃ token, ∀ a : ∀ q, result failure (response q),
      let c' := Programs.answer tid a c in
      match a (Wire None (RefreshToken token)) with
      | Ok (access, refresh) => st c' = on_auth (Auth.setTokens access refresh) (st c)
      | Throw _ => st c' = on_auth Auth.clearAuth (st c)
      end ∧
      let c'' := Programs.settle (tid + 1) c' in
      refreshPromise (st c'') = None ∧
      threads c'' !! (tid + 1) = Some (Ret (Flag (succeeds (a (Wire None (RefreshToken token))))))) ∧
  (∀ pid, refreshPromise (st c) = Some pid → ∃ inner p,
     threads c !! pid = Some (settled inner (set_refreshPromise None)) ∧
     threads c !! inner = Some p ∧
     ((∃ k, p = Await Tick k) ∨ renewal_sent c inner ∨
      refreshPromise (st (Programs.settle pid c)) = None)).
Proof.
  intros Hc%in_use_calm. split.
  - intros tid Hs. destruct (renewal_sent_thread _ _ Hc Hs) as (Hp & token & Ht).
    split_and!; [|done|].
    { intros tid' Hs'. destruct (renewal_sent_thread _ _ Hc Hs') as (Hp' & _).
      rewrite Hp in Hp'. injection Hp'. lia. }
    exists token. intros a c'. destruct (send_renewal_answered _ _ a _ Ht) as [H1 H2].
    subst c'. rewrite H1. split.
    { by destruct (a _) as [[]|]. }
    pose proof (pc_threads _ Hc) as Hth. unfold threads_calm in Hth. rewrite Hp in Hth.
    destruct Hth as (i & q & E & Hpid & _). assert (i = tid) as -> by lia.
    assert (Hpid' : threads (Programs.answer tid a c) !! (tid + 1) =
      Some (settled tid (set_refreshPromise None))).
    { unfold Programs.answer, aprog in *. rewrite Ht. unfold continue_with. cbn.
      destruct (a (Wire None (RefreshToken token))) as [[x y]|e]; cbn;
        rewrite lookup_insert_ne by lia; exact Hpid. }
    unfold Programs.settle, settled, aprog in *. rewrite Hpid', H2.
    split; [done|apply lookup_insert_eq].
  - intros pid Hp. pose proof (pc_threads _ Hc) as Hth. unfold threads_calm in Hth.
    rewrite Hp in Hth. destruct Hth as (i & p & -> & Hpid & Hi & Hr & _).
    exists i, p. split_and!; [done..|]. destruct Hr as [token|token|v|e].
    + left. eexists. reflexivity.
    + right. left. unfold renewal_sent, aprog in *. rewrite Hi. do 3 eexists. reflexivity.
    + right. right. unfold Programs.settle, settled, aprog in *. by rewrite Hpid, Hi.
    + right. right. unfold Programs.settle, settled, aprog in *. by rewrite Hpid, Hi.
Qed.

(** what a request does when it is refused.  A request that is not public is sent with
    the token of the moment.  An answer, and a failure that is not a refusal, is its own.
    If it is refused while tokens are being renewed it sends nothing and waits for that
    renewal; otherwise it starts one, or signs the user out if there is no token to renew
    them with.  When the renewal succeeds the request is sent once more, with the new
    token, and what comes back is final; when it fails the first refusal is. *)
Theorem refused_request q (c : apage) :
  is_public q = false →
  ∃ k, Programs.exec (call q) c = (Await (Wire (access_token (st c)) q) k, c) ∧
    (∀ a c', Programs.exec (k (Ok a)) c' = (Ret a, c')) ∧
    (∀ e c', refused e = false → Programs.exec (k (Throw e)) c' = (Raise e, c')) ∧
    ∀ e c', refused e = true →
      let token := Auth.refreshToken (auth (authSystem (st c'))) in
      ∃ pid k' c'', Programs.exec (k (Throw e)) c' = (WaitFor pid k', c'') ∧
        match refreshPromise (st c') with
        | Some renewal => pid = renewal ∧ c'' = c'
        | None =>
            pid = next c' + 1 ∧ refreshPromise (st c'') = Some pid ∧
            if truthy token then
              threads c'' !! next c' = Some (start_renewal (or_default "" token)) ∧
              authSystem (st c'') = authSystem (st c')
            else
              threads c'' !! next c' = Some (Ret (Flag false)) ∧
              authSystem (st c'') = Auth.clearAuth (authSystem (st c'))
        end ∧
        (∀ d, Programs.exec (k' (Ok (Flag false))) d = (Raise e, d)) ∧
        ∀ d, ∃ k'', Programs.exec (k' (Ok (Flag true))) d =
            (Await (Wire (match access_token (st d) with
                          | Some t => Some t | None => access_token (st c) end) q) k'', d) ∧
          (∀ a d', Programs.exec (k'' (Ok a)) d' = (Ret a, d')) ∧
          ∀ x d', Programs.exec (k'' (Throw x)) d' = (Raise x, d').
Proof.
  intros Hq. unfold call. rewrite Hq. eexists. split; [by destruct c|].
  split; [done|]. split; [by intros e c' ->|].
  intros e c' He. rewrite He. destruct c' as [s ts n].
  unfold renewal. cbn [bind Programs.exec st].
  destruct (refreshPromise s) as [pid|] eqn:Ep; cbn [bind Programs.exec wait_for].
  - exists pid. eexists _, _. split; [reflexivity|]. split; [done|]. split; [by intros|].
    intros d. exists of_result. split; [|by split].
    cbn. by destruct (access_token (st d)).
  - unfold refreshTokens. cbn [look bind Programs.exec reserve st].
    destruct (truthy _) eqn:Et; cbn.
    + do 3 eexists. split; [reflexivity|]. split_and!; [done|done| |done|done|].
      * cbn. rewrite lookup_insert_ne by lia. apply lookup_insert_eq.
      * intros d. exists of_result. split; [|by split]. cbn. by destruct (access_token (st d)).
    + do 3 eexists. split; [reflexivity|]. split_and!; [done|done| |done|done|].
      * cbn. rewrite lookup_insert_ne by lia. apply lookup_insert_eq.
      * intros d. exists of_result. split; [|by split]. cbn. by destruct (access_token (st d)).
Qed.

(** a renewal undoes a logout.  When the user signs out while the tokens are being
    renewed, the answer puts the new tokens back, in memory and in local storage, where
    nothing belongs to a user any more: the page is not signed in, and when it is loaded
    again it is, as nobody. *)
Theorem renewal_undoes_logout tid (a : ∀ q, result failure (response q)) access refresh
    (c : apage) :
  in_use c → renewal_sent c tid → access ≠ "" →
  (∀ token, a (Wire None (RefreshToken token)) = Ok (access, refresh)) →
  let s := authSystem (st (Programs.answer tid a (on_st (on_auth Auth.clearAuth) c))) in
  Auth.accessToken (auth s) = Some access ∧ Auth.user (auth s) = None ∧
  Auth.isAuthenticated (auth s) = false ∧
  let reloaded := auth (Auth.perform Auth.ReloadPage s) in
  Auth.isAuthenticated reloaded = true ∧ Auth.user reloaded = None.
Proof.
  intros Hc%in_use_calm Hs Hne Ha s. destruct (renewal_sent_thread _ _ Hc Hs) as (_ & token & Ht).
  assert (Ht' : threads (on_st (on_auth Auth.clearAuth) c) !! tid = Some (send_renewal token))
    by exact Ht.
  destruct (send_renewal_answered _ _ a _ Ht') as [H1 _].
  subst s. rewrite H1, Ha. cbn. split_and!; try done. by rewrite bool_decide_eq_false_2.
Qed.

(** ** Two requests that are refused *)

#[local] Existing Instance toy.
#[local] Existing Instance demo_environment.

Definition refuse (q : request) : result failure (response q) :=
  match q as q' return result failure (response q') with
  | Wire _ _ => Throw (ConnectError Unauthenticated "")
  | SpokeWire _ _ _ | Fetch _ => Throw (Error "")
  | ClearCryptoStorage | Tick => Ok tt
  end.
(** A server that renews tokens and refuses everything else *)
Definition renew (q : request) : result failure (response q) :=
  match q as q' return result failure (response q') with
  | Wire t q => match q as q' return result failure (response (Wire t q')) with
                | RefreshToken _ => Ok ("new token", "new refresh")
                | _ => Throw (ConnectError Unauthenticated "")
                end
  | SpokeWire _ _ _ | Fetch _ => Throw (Error "")
  | ClearCryptoStorage | Tick => Ok tt
  end.

(** Both are refused, and the renewal is sent. *)
Definition demo_refused : apage :=
  Programs.answer 2 refuse (Programs.answer 1 refuse (Programs.answer 0 refuse
    (launch (body (c_listChannels "s1")) (launch (body c_listServers) (fresh_page demo_app))))).

Lemma demo_refused_in_use : in_use demo_refused.
Proof.
  exists demo_app. split; [done|]. unfold demo_refused.
  repeat (eapply rtc_r; [|constructor; apply calm_body]).
  repeat (eapply rtc_r; [|constructor]). constructor.
Qed.
Definition is_sent (p : aprog value) : bool :=
  match p with Await (Wire _ (RefreshToken _)) _ => true | _ => false end.
Lemma sent_by_test c tid :
  from_option is_sent false (threads c !! tid) = true → renewal_sent c tid.
Proof.
  unfold renewal_sent, aprog. destruct (threads c !! tid) as [p|]; [|done]. simpl.
  destruct p as [| | | |[t []| | | |] k| |]; try done. intros _. do 3 eexists. reflexivity.
Qed.
Lemma demo_renewal_sent : renewal_sent demo_refused 2.
Proof. apply sent_by_test. vm_compute. reflexivity. Qed.

Lemma one_renewal_at_a_time_witness :
  refreshPromise (st demo_refused) = Some 3 ∧
  let c' := Programs.answer 2 renew demo_refused in
  refreshPromise (st (Programs.settle 3 c')) = None ∧
  Auth.accessToken (auth (authSystem (st c'))) = Some "new token".
Proof.
  destruct (one_renewal_at_a_time demo_refused
    demo_refused_in_use) as [Hone _].
  destruct (Hone 2 demo_renewal_sent) as (_ & Hp & token & Ha).
  destruct (Ha renew) as (Hst & Hpr & _).
  split; [exact Hp|]. split; [exact Hpr|].
  exact (f_equal (λ s, Auth.accessToken (auth (authSystem s))) Hst).
Defined.

Lemma refused_request_witness :
  ∃ k, Programs.exec (call ListServers) demo_refused =
      (Await (Wire (Some "token") ListServers) k, demo_refused) ∧
    ∃ k', Programs.exec (k (Throw (ConnectError Unauthenticated ""))) demo_refused =
      (WaitFor 3 k', demo_refused).
Proof.
  destruct (refused_request ListServers demo_refused eq_refl) as (k & Hk & _ & _ & Hr).
  exists k. split; [exact Hk|].
  destruct (Hr (ConnectError Unauthenticated "") demo_refused eq_refl) as (pid & k' & c'' & He & Hm & _).
  destruct (renewal_sent_thread _ _ (in_use_calm _ demo_refused_in_use) demo_renewal_sent)
    as [Hp _].
  exists k'. rewrite Hp in Hm. destruct Hm as [E1 E2].
  refine (eq_trans He _). by rewrite E1, E2.
Defined.

Lemma renewal_undoes_logout_witness :
  let s := authSystem (st (Programs.answer 2 renew
             (on_st (on_auth Auth.clearAuth) demo_refused))) in
  Auth.accessToken (auth s) = Some "new token" ∧ Auth.user (auth s) = None.
Proof.
  destruct (renewal_undoes_logout 2 renew "new token"
    "new refresh" demo_refused demo_refused_in_use demo_renewal_sent ltac:(discriminate)
    (λ _, eq_refl)) as (H1 & H2 & _).
  split; [exact H1|exact H2].
Defined.
