(* ===== verification/Account.v ===== *)
(** * The account, presence and voice calls ([api/auth.ts], [api/profile.ts],
    [api/presence.ts], [api/voice.ts], [api/notification.ts])

    Signing in and out, profiles, devices and recovery; whether someone is online; the
    tickets for voice channels; the preferences for push notifications.  As in [Calls], a
    function is a program over the page. *)

From S2P Require Export Calls.
From S2P Require Import Auth.
From S2P Require Federation Presence VoiceParticipants GatewayStatus AudioSettings StreamSettings Keybinds Connection.

Open Scope meza_scope.

(** ** Errors *)

Definition mapAuthError (err : failure) : string :=
  match err with
  | ConnectError code _ =>
      match code with
      | AlreadyExists => "Email or username already taken"
      | Unauthenticated => "Invalid credentials"
      | NotFound => "Account not found"
      | InvalidArgument => "Invalid input. Please check your request."
      | _ => "Something went wrong. Please try again."
      end
  | Error _ => "Network error. Please check your connection."
  end.

Definition mapVoiceError (err : failure) : string :=
  match err with
  | ConnectError code _ =>
      match code with
      | Unauthenticated => "You must be logged in"
      | PermissionDenied => "You do not have access to this voice channel"
      | NotFound => "Voice channel not found"
      | InvalidArgument => "Invalid voice channel"
      | ResourceExhausted => "Too many preview requests, please wait"
      | FailedPrecondition => "No active screen share"
      | _ => "Failed to connect to voice"
      end
  | Error _ => "An unexpected error occurred"
  end.

Section account.
Context `{Crypto} `{Environment}.
(** The device, for the default audio settings *)
Context (hw : AudioSettings.Hardware).

Definition auth_act (f : AuthSystem → AuthSystem) : aprog unit := modify (on_auth f).
(** [try { p } finally { f }] *)
Definition finally {A} (p : aprog A) (f : aprog unit) : aprog A :=
  let* r := attempt p in f ;; of_result r.
(** [catch (err) { throw new Error(mapAuthError(err)) }] *)
Definition rethrow_auth {A} (p : aprog A) : aprog A :=
  catch p (λ err, Raise (Error (mapAuthError err))).

(** ** Signing in *)

Definition on_audio f (o : Others) : Others :=
  {| federation := federation o; participants := participants o; audio := f (audio o);
     stream := stream o; keybinds := keybinds o; frequentEmojis := frequentEmojis o;
     spokePromises := spokePromises o |}.

Definition hydrateAudioPreferences (prefs : option AudioPreferences) : aprog unit :=
  match prefs with
  | Some p =>
      modify (on_others (on_audio (AudioSettings.hydrateFromProfile
        {| AudioSettings.p_noiseCancellationMode :=
             if bool_decide (ap_noiseCancellationMode p = "") then None
             else Some (ap_noiseCancellationMode p);
           AudioSettings.p_noiseSuppression := Some (ap_noiseSuppression p);
           AudioSettings.p_echoCancellation := ap_echoCancellation p;
           AudioSettings.p_autoGainControl := ap_autoGainControl p |})))
  | None => Ret tt
  end.

(** The frame of the three functions that may sign in *)
Definition signing_in {A} (p : aprog A) : aprog A :=
  auth_act (Auth.setLoading true) ;; auth_act (Auth.setError None) ;;
  finally
    (catch p (λ err, auth_act (Auth.setError (Some (mapAuthError err))) ;; Raise err))
    (auth_act (Auth.setLoading false)).
Definition enter (res : SignIn) (u : User) : aprog unit :=
  auth_act (Auth.setAuth (si_accessToken res) (si_refreshToken res) (toStoredUser u)).

Definition register (params : Registration) (deferAuth : bool) : aprog SignIn :=
  signing_in
    (let* res := call (RpcRegister params) in
     match si_user res with
     | Some u =>
         if deferAuth then Ret res
         else enter res u ;; hydrateAudioPreferences (u_audioPreferences u) ;; Ret res
     | None => Ret res
     end).
Definition login (identifier : string) (authKey : bytes) : aprog SignIn :=
  signing_in
    (let* res := call (RpcLogin identifier authKey) in
     match si_user res with
     | Some u => enter res u ;; hydrateAudioPreferences (u_audioPreferences u) ;; Ret res
     | None => Ret res
     end).
Definition recoverAccount (params : Recovery) (deferAuth : bool) : aprog SignIn :=
  signing_in
    (let* res := call (RecoverAccount params) in
     match si_user res with
     | Some u => if deferAuth then Ret res else enter res u ;; Ret res
     | None => Ret res
     end).

Definition finalizeRegistration (access refresh : string) (u : StoredUser) : aprog unit :=
  auth_act (Auth.setAuth access refresh u) ;;
  let* ready := look (λ s, sessionReady (local (client s))) in
  if ready : bool then
    background (logged
      (await Tick ;;
       let* id := look identity in
       match id with
       | Some id => background (logged (call (RegisterPublicKey (publicKey id))))
       | None => Ret tt
       end))
  else Ret tt.

Definition getSalt (identifier : string) : aprog bytes := call (GetSalt identifier).
Definition refreshAccessToken (refreshToken : string) : aprog (string * string) :=
  let* res := call (RefreshToken refreshToken) in
  auth_act (Auth.setTokens res.1 res.2) ;; Ret res.

(** ** The profile *)

(** [updateUser] given a complete user: [Object.assign] replaces every field. *)
Definition replace_user (u : StoredUser) (s : AuthSystem) : AuthSystem :=
  match Auth.user (auth s) with
  | None => s
  | Some _ =>
      {| auth := {| accessToken := accessToken (auth s);
                    refreshToken := Auth.refreshToken (auth s); user := Some u;
                    isAuthenticated := isAuthenticated (auth s);
                    isLoading := isLoading (auth s); error := error (auth s) |};
         storage := {| item_access := item_access (storage s);
                       item_refresh := item_refresh (storage s);
                       item_user := Some (user_json u) |} |}
  end.

Definition updateProfile (params : ProfileUpdates) : aprog (option User) :=
  rethrow_auth
    (let* user := call (UpdateProfile params) in
     match user with
     | Some u => auth_act (replace_user (toStoredUser u)) ;; Ret user
     | None => Ret user
     end).

Definition getProfile (userId : string) : aprog StoredUser :=
  catch
    (let* user := call (GetProfile userId) in
     match user with
     | None => Raise (Error "User not found")
     | Some u =>
         let profile := toStoredUser u in
         modify (on_client (λ s, on_local (on_users
           (Auth.setProfile (Dispatch.now s) userId profile)) s)) ;;
         Ret profile
     end)
    (λ err, match err with
            | ConnectError NotFound _ => Raise (Error "User not found")
            | _ => Raise (Error (mapAuthError err))
            end).

(** ** Password, devices and recovery *)

Definition changePassword (params : PasswordChange) : aprog unit :=
  rethrow_auth (call (ChangePassword params)).
Definition listDevices : aprog (list Device) := rethrow_auth (call ListDevices).
Definition revokeDevice (deviceId : string) : aprog unit :=
  rethrow_auth (call (RevokeDevice deviceId)).
Definition revokeAllOtherDevices : aprog Z := rethrow_auth (call RevokeAllOtherDevices).
Definition getRecoveryBundle (email : string) : aprog RecoveryBundle :=
  rethrow_auth (call (GetRecoveryBundle email)).

(** ** Signing out *)

Definition set_state (c : component) (x : state_of c) (s : Client) : Client :=
  {| stores := put_state c x (stores s); local := local s |}.

(** What [logout] resets, in its order.  The sockets of the federated servers
    ([disconnectAllSpokes]) and the search index ([resetSearchState]) are no part of the
    page: they are asked to go.  What the first does to the federation store is undone by
    the reset that comes next. *)
Definition forget_federation (s : App) : App :=
  {| client := client s; authSystem := authSystem s; identity := identity s;
     keyFetches := keyFetches s; keyInits := keyInits s; keyQueues := keyQueues s;
     federatedIds := ∅; invites := invites s; emojiInflight := emojiInflight s;
     personalEmojiInflight := personalEmojiInflight s; refreshPromise := refreshPromise s;
     others := {| federation := Federation.reset (federation (others s));
                  participants := participants (others s); audio := audio (others s);
                  stream := stream (others s); keybinds := keybinds (others s);
                  frequentEmojis := frequentEmojis (others s);
                  spokePromises := spokePromises (others s) |} |}.
Definition on_participants f (o : Others) : Others :=
  {| federation := federation o; participants := f (participants o); audio := audio o;
     stream := stream o; keybinds := keybinds o; frequentEmojis := frequentEmojis o;
     spokePromises := spokePromises o |}.
Definition on_stream f (o : Others) : Others :=
  {| federation := federation o; participants := participants o; audio := audio o;
     stream := f (stream o); keybinds := keybinds o; frequentEmojis := frequentEmojis o;
     spokePromises := spokePromises o |}.
Definition on_keybinds f (o : Others) : Others :=
  {| federation := federation o; participants := participants o; audio := audio o;
     stream := stream o; keybinds := f (keybinds o); frequentEmojis := frequentEmojis o;
     spokePromises := spokePromises o |}.
Definition clearFrequentEmojis (o : Others) : Others :=
  {| federation := federation o; participants := participants o; audio := audio o;
     stream := stream o; keybinds := keybinds o; frequentEmojis := None;
     spokePromises := spokePromises o |}.

Definition resets : list (App → App) :=
  let reset c a := on_client (Client.act localeCompare self c a) in
  [ reset C_connection (Connection.Disconnect false);
    on_client (emit [DisconnectSpokes]);
    forget_federation;
    on_client (on_local (on_voice VoiceParticipants.disconnect));
    on_others (on_participants VoiceParticipants.clearAll);
    reset C_servers Servers.Reset;
    reset C_channels Channels.Reset;
    reset C_groups ChannelGroups.Reset;
    reset C_messages Messages.Reset;
    reset C_connection (Connection.SetsPresence Presence.reset);
    reset C_typing Typing.Reset;
    reset C_roles Roles.Reset;
    reset C_members Members.Reset;
    reset C_emojis Emojis.Reset;
    reset C_overrides PermissionOverrides.Reset;
    reset C_pins Pins.Reset;
    reset C_reactions Reactions.Reset;
    reset C_readStates ReadState.Reset;
    reset C_dms Dms.Reset;
    on_client (λ s, set_state C_connection (Connection.on_gw GatewayStatus.reset (stores s C_connection)) s);
    on_others (on_audio (λ _, AudioSettings.initialState hw));
    on_others (on_stream StreamSettings.reset);
    on_client (set_state C_settings (NotificationSettings.loadFromStorage None));
    on_others (on_keybinds Keybinds.resetAll);
    reset C_sounds Sounds.Reset;
    reset C_blocks Blocks.Reset;
    reset C_friends Friends.Reset;
    on_client (emit [ResetSearch]);
    on_others clearFrequentEmojis ].
Definition reset_stores : aprog unit := for_each resets modify.

(** The request is made with a plain [fetch], which does not look at the answer; then
    everything is reset, the stored keys are cleared, and last the tokens. *)
Definition logout : aprog unit :=
  logged
    (let* token := look (λ s, accessToken (auth (authSystem s))) in
     if truthy token then let* _ := await (Fetch (PostLogout (or_default "" token))) in Ret tt
     else Ret tt) ;;
  reset_stores ;;
  await ClearCryptoStorage ;;
  auth_act Auth.clearAuth.

(** ** Presence *)

Definition set_presence (f : Presence.PresenceState → Presence.PresenceState) : aprog unit :=
  act C_connection (Connection.SetsPresence f).

Definition updatePresence (status : PresenceStatus) (text : option string) : aprog unit :=
  logged (call (UpdatePresence status text)).
Definition getPresence (userId : string) : aprog (string * (PresenceStatus * string)) :=
  let* res := call (GetPresence userId) in
  Look (λ s, Do (on_client (Client.act localeCompare self C_connection
    (Connection.SetsPresence
      (Presence.setPresence (Dispatch.now (client s)) res.1 res.2.1 res.2.2)))) (Ret res)).
Definition getBulkPresence (userIds : list string)
    : aprog (option (list (string * (PresenceStatus * string)))) :=
  if bool_decide (userIds = []) then Ret None
  else
    let* presences := call (GetBulkPresence userIds) in
    Look (λ s, Do (on_client (Client.act localeCompare self C_connection
      (Connection.SetsPresence
        (Presence.setBulkPresence (Dispatch.now (client s)) presences)))) (Ret (Some presences))).
Definition setStatusOverride (status : PresenceStatus) (durationSeconds : Z)
    : aprog (PresenceStatus * Z) :=
  let* res := call (RpcSetStatusOverride status durationSeconds) in
  set_presence (Presence.setStatusOverride status res.1 res.2) ;; Ret res.
Definition getMyPresence : aprog (option MyPresence) :=
  catch
    (let* res := call RpcGetMyPresence in
     set_presence (Presence.getMyPresence (mp_status res) (mp_overrideStatus res)
       (mp_overrideExpiresAt res)) ;; Ret (Some res))
    (λ _, Ret None).
Definition clearStatusOverride : aprog unit :=
  let* _ := call RpcClearStatusOverride in
  set_presence (Presence.setMyOverride None) ;;
  let* _ := getMyPresence in Ret tt.

(** ** Mutual servers and friends, voice, push notifications *)

Record StoredServer := { ss_id : string; ss_name : string; ss_iconUrl : string }.
Definition toStoredServer (server : Server) : StoredServer :=
  {| ss_id := sv_id server; ss_name := sv_name server; ss_iconUrl := sv_iconUrl server |}.

Definition getMutualServers (userId : string) : aprog (list StoredServer) :=
  let* servers := call (GetMutualServers userId) in Ret (toStoredServer <$> servers).
Definition getMutualFriends (userId : string) : aprog (list StoredUser) :=
  let* users := call (GetMutualFriends userId) in Ret (toStoredUser <$> users).
Definition getUserVoiceActivity (userId : string) : aprog (list VoiceActivity) :=
  call (GetUserVoiceActivity userId).

Definition joinVoiceChannel (channelId : string) : aprog VoiceTicket :=
  call (JoinVoiceChannel channelId).
Definition leaveVoiceChannel (channelId : string) : aprog unit :=
  call (LeaveVoiceChannel channelId).
Definition getVoiceChannelState (channelId : string) : aprog (list VoiceMember) :=
  call (GetVoiceChannelState channelId).
Definition getStreamPreviewToken (channelId : string) : aprog (string * string * string) :=
  call (GetStreamPreviewToken channelId).

Definition getNotificationPreferences : aprog (list (string * string * string)) :=
  call GetNotificationPreferences.
Definition updateNotificationPreference (scopeType scopeId level : string) : aprog unit :=
  call (UpdateNotificationPreference scopeType scopeId level).
Definition getVAPIDPublicKey : aprog string := call GetVAPIDPublicKey.

End account.

(** ** What signing in and out does

    The outcome of a login; what a logout forgets, and what it does not; what the user is
    told when the server leaves a part of its answer out. *)

From S2P Require Import ApiCalls Renewal Auth.
From S2P Require Federation Presence VoiceParticipants GatewayStatus AudioSettings StreamSettings Keybinds Connection.

Open Scope meza_scope.

Section facts.
Context `{Crypto} `{Environment}.
Context (hw : AudioSettings.Hardware).

Definition connection_of (s : App) : Connection.Connection := stores (client s) C_connection.

(** ** Signing in *)

(** The page after a login that was answered *)
Definition entered (res : SignIn) (s : App) : App :=
  let s := on_auth (Auth.setLoading false) s in
  match si_user res with
  | Some u =>
      let s := on_auth (Auth.setAuth (si_accessToken res) (si_refreshToken res)
                 (toStoredUser u)) s in
      match u_audioPreferences u with
      | Some p => on_others (on_audio (AudioSettings.hydrateFromProfile
          {| AudioSettings.p_noiseCancellationMode :=
               if bool_decide (ap_noiseCancellationMode p = "") then None
               else Some (ap_noiseCancellationMode p);
             AudioSettings.p_noiseSuppression := Some (ap_noiseSuppression p);
             AudioSettings.p_echoCancellation := ap_echoCancellation p;
             AudioSettings.p_autoGainControl := ap_autoGainControl p |})) s
      | None => s
      end
  | None => s
  end.

(** The error is cleared, which takes the loading flag with it. *)
Definition signing (s : App) : App :=
  on_auth (λ a, Auth.setError None (Auth.setLoading true a)) s.
Definition sign_in_failed (e : failure) (s : App) : App :=
  on_auth (λ a, Auth.setLoading false (Auth.setError (Some (mapAuthError e)) a)) s.

(** a login signs in the user of the answer or nobody.  It is sent without a token; an
    answer with a user puts its tokens and the user into memory and local storage, and the
    user's audio preferences into effect; an answer without one changes nothing but the
    loading flag; a failure leaves the session as it was, records a text for the user and
    passes on.  A registration and a recovery do the same, unless they are told to leave
    the signing in for later. *)
Theorem sign_in_outcome (c : apage) id key reg rec :
  let outcome (p : aprog SignIn) q answered :=
    ∃ k, Programs.exec p c =
        (Await (Wire (header q (st c)) q) k, on_st signing c) ∧
      (∀ e c', refused e = false ∨ is_public q = true →
         Programs.exec (k (Throw e)) c' = (Raise e, on_st (sign_in_failed e) c')) ∧
      answered k in
  outcome (login id key) (RpcLogin id key) (λ k, ∀ res c',
    Programs.exec (k (Ok res)) c' = (Ret res, on_st (entered res) c')) ∧
  outcome (register reg false) (RpcRegister reg) (λ k, ∀ res c',
    Programs.exec (k (Ok res)) c' = (Ret res, on_st (entered res) c')) ∧
  outcome (register reg true) (RpcRegister reg) (λ k, ∀ res c',
    Programs.exec (k (Ok res)) c' = (Ret res, on_st (on_auth (Auth.setLoading false)) c')) ∧
  outcome (recoverAccount rec true) (RecoverAccount rec) (λ k, ∀ res c',
    Programs.exec (k (Ok res)) c' = (Ret res, on_st (on_auth (Auth.setLoading false)) c')) ∧
  (∀ res u s, si_user res = Some u →
     auth (authSystem (entered res s)) =
       {| accessToken := Some (si_accessToken res); refreshToken := Some (si_refreshToken res);
          user := Some (toStoredUser u); isAuthenticated := true; isLoading := false;
          error := None |} ∧
     storage (authSystem (entered res s)) =
       {| item_access := Some (si_accessToken res); item_refresh := Some (si_refreshToken res);
          item_user := Some (user_json (toStoredUser u)) |}) ∧
  (∀ e s, let a := auth (authSystem s) in
     auth (authSystem (sign_in_failed e s)) =
       {| accessToken := accessToken a; refreshToken := Auth.refreshToken a; user := user a;
          isAuthenticated := isAuthenticated a; isLoading := false;
          error := Some (mapAuthError e) |}).
Proof.
  intros outcome. destruct c as [s ts n]. split_and!.
  - eexists. split; [reflexivity|]. split; [intros e []; reflexivity|].
    intros [x y [u|] kb iv sa] []; [|reflexivity]. unfold entered. simpl.
    destruct (u_audioPreferences u); reflexivity.
  - eexists. split; [reflexivity|]. split; [intros e []; reflexivity|].
    intros [x y [u|] kb iv sa] []; [|reflexivity]. unfold entered. simpl.
    destruct (u_audioPreferences u); reflexivity.
  - eexists. split; [reflexivity|]. split; [intros e []; reflexivity|].
    intros [x y [u|] kb iv sa] []; reflexivity.
  - eexists. split; [reflexivity|]. split.
    + intros [[] m|m] [] [Hr|Hr]; try discriminate Hr; reflexivity.
    + intros [x y [u|] kb iv sa] []; reflexivity.
  - intros res u s' Hu. unfold entered. rewrite Hu. destruct (u_audioPreferences u); split; reflexivity.
  - intros; reflexivity.
Qed.

(** ** Signing out *)

Definition signed_off (s : App) : App := foldl (λ s f, f s) s (resets hw).

Lemma for_each_modify (l : list (App → App)) (c : apage) :
  Programs.exec (for_each l modify) c = (Ret tt, on_st (λ s, foldl (λ s f, f s) s l) c).
Proof.
  revert c. induction l as [|f l IH]; intros c; [by destruct c|].
  change (Programs.exec (for_each (f :: l) modify) c)
    with (Programs.exec (for_each l modify) (on_st f c)). by rewrite IH.
Qed.
Lemma reset_stores_runs (c : apage) :
  Programs.exec (reset_stores hw) c = (Ret tt, on_st signed_off c).
Proof. apply for_each_modify. Qed.

(** The end of a logout: the stored keys are cleared, then the tokens. *)
Definition ends_logout (k : result failure unit → aprog unit) : Prop :=
  (∀ c, Programs.exec (k (Ok tt)) c = (Ret tt, on_st (on_auth Auth.clearAuth) c)) ∧
  ∀ e c, Programs.exec (k (Throw e)) c = (Raise e, c).

(** From the resets on *)
Definition end_of_logout : aprog unit :=
  reset_stores hw ;; await ClearCryptoStorage ;; auth_act Auth.clearAuth.

Lemma end_of_logout_runs (c : apage) :
  ∃ k, Programs.exec end_of_logout c = (Await ClearCryptoStorage k, on_st signed_off c) ∧ ends_logout k.
Proof.
  eexists. split.
  - unfold end_of_logout. rewrite (exec_bind _ _ _ _ _ (reset_stores_runs c)). reflexivity.
  - by split; [intros []|intros e []].
Qed.

Lemma logout_runs (c : apage) :
  let token := accessToken (auth (authSystem (st c))) in
  if truthy token then
    ∃ k, Programs.exec (logout hw) c = (Await (Fetch (PostLogout (or_default "" token))) k, c) ∧
      ∀ r c', ∃ k', Programs.exec (k r) c' = (Await ClearCryptoStorage k', on_st signed_off c') ∧ ends_logout k'
  else
    ∃ k', Programs.exec (logout hw) c = (Await ClearCryptoStorage k', on_st signed_off c) ∧ ends_logout k'.
Proof.
  cbv zeta. destruct (truthy _) eqn:E.
  - exists (λ r, bind (catch (let* _ := of_result r in Ret tt) (λ _, Ret tt)) (λ _, end_of_logout)).
    split.
    + unfold logout, logged. cbn [look bind catch Programs.exec]. by rewrite E.
    + intros [r|e] c'; apply end_of_logout_runs.
  - destruct (end_of_logout_runs c) as (k & Hk & He). exists k. split; [|done].
    unfold logout, logged. cbn [look bind catch Programs.exec]. rewrite E. exact Hk.
Qed.

(** What is as it was at the start *)
Definition forgotten (s : App) : Prop :=
  (∀ x, x ≠ C_connection → x ≠ C_roles → x ≠ C_typing →
     stores (client s) x = initial (Store := store_of localeCompare self x)) ∧
  Roles.store (stores (client s) C_roles) =
    Roles.store (initial (Store := store_of localeCompare self C_roles)) ∧
  Typing.store (stores (client s) C_typing) =
    Typing.store (initial (Store := store_of localeCompare self C_typing)) ∧
  Connection.ws (connection_of s) = None ∧
  Connection.gw (connection_of s) = GatewayStatus.emptyState ∧
  Presence.byUser (Connection.presence (connection_of s)) = ∅ ∧
  Presence.myStatus (Connection.presence (connection_of s)) = OFFLINE ∧
  voice (local (client s)) = VoiceParticipants.voice_initial ∧
  VoiceParticipants.byChannel (participants (others s)) = ∅ ∧
  federation (others s) = Federation.initialState ∧ federatedIds s = ∅ ∧
  audio (others s) = AudioSettings.initialState hw ∧
  stream (others s) = StreamSettings.boot None ∧
  Keybinds.overrides (keybinds (others s)) = [] ∧ frequentEmojis (others s) = None.

(** What it leaves of the page: [left_over] puts everything that is not listed here where
    it was. *)
Definition left_over (s s' : App) : Prop :=
  let l := local (client s) in let l' := local (client s') in
  s' = {| client := client s'; authSystem := authSystem s; identity := identity s;
          keyFetches := keyFetches s; keyInits := keyInits s; keyQueues := keyQueues s;
          federatedIds := federatedIds s'; invites := invites s;
          emojiInflight := emojiInflight s; personalEmojiInflight := personalEmojiInflight s;
          refreshPromise := refreshPromise s; others := others s' |} ∧
  l' = {| sessionReady := sessionReady l; keys := Client.keys l; users := users l;
          voice := voice l'; onElectron := onElectron l; windowInFront := windowInFront l;
          primaryTab := primaryTab l; pendingDMFetchChannels := pendingDMFetchChannels l;
          log := log l ++ [DisconnectSpokes; ResetSearch] |} ∧
  spokePromises (others s') = spokePromises (others s) ∧
  Presence.myOverride (Connection.presence (connection_of s')) =
    Presence.myOverride (Connection.presence (connection_of s)) ∧
  Roles.inflight (stores (client s') C_roles) = Roles.inflight (stores (client s) C_roles).

Lemma signed_off_forgets s : forgotten (signed_off s).
Proof.
  split; [intros x H1 H2 H3; destruct x; try done; reflexivity|]. split_and!; reflexivity.
Qed.

Lemma signed_off_presence s :
  Connection.presence (connection_of (signed_off s)) =
  {| Presence.byUser := ∅; Presence.myStatus := OFFLINE;
     Presence.myOverride := Presence.myOverride (Connection.presence (connection_of s)) |}.
Proof.
  change (Connection.presence (connection_of (signed_off s))) with
    (Presence.reset (Connection.presence (Connection.disconnect false (connection_of s)))).
  unfold Presence.reset. f_equal. unfold Connection.disconnect, Connection.on_current.
  by destruct (Connection.ws _).
Qed.

Lemma signed_off_leaves s : left_over s (signed_off s).
Proof.
  split; [reflexivity|]. split; [|split; [reflexivity|split; [|reflexivity]]].
  - transitivity (push_log [ResetSearch] (on_voice VoiceParticipants.disconnect
      (push_log [DisconnectSpokes] (local (client s))))); [reflexivity|].
    unfold push_log, on_voice. simpl. by rewrite <-app_assoc.
  - by rewrite signed_off_presence.
Qed.

(** C13: what a logout forgets and what it leaves.  Whether or not the server is told, and
    whatever happened while it was, all stores that the gateway or a remote call fills are
    then as they were at the start, the gateway is disconnected, the federated servers and
    the search index are asked to go, and the calls, settings and shortcuts are the
    default ones.  The stores of keys in IndexedDB are cleared next, and only when that
    has succeeded do the tokens and the user go; when it fails the logout fails, and the
    user stays signed in to an empty client.  All else on the page is left: the identity
    and the channel keys in memory (which the session's teardown clears), the invite, the
    profiles of other users, the requests in flight, and the presence override, which the
    next user of the page takes over. *)
Theorem logout_forgets (c : apage) :
  (let token := accessToken (auth (authSystem (st c))) in
   if truthy token then
     ∃ k, Programs.exec (logout hw) c =
         (Await (Fetch (PostLogout (or_default "" token))) k, c) ∧
       ∀ r c', ∃ k', Programs.exec (k r) c' = (Await ClearCryptoStorage k', on_st signed_off c') ∧
         ends_logout k'
   else
     ∃ k', Programs.exec (logout hw) c = (Await ClearCryptoStorage k', on_st signed_off c) ∧
       ends_logout k') ∧
  (∀ s, forgotten (signed_off s) ∧ left_over s (signed_off s)) ∧
  (∀ s, let a := Auth.clearAuth (authSystem s) in
     accessToken (auth a) = None ∧ Auth.refreshToken (auth a) = None ∧ user (auth a) = None ∧
     isAuthenticated (auth a) = false ∧ item_access (storage a) = None ∧
     item_refresh (storage a) = None ∧ item_user (storage a) = None) ∧
  ∀ s, let p := Connection.presence (connection_of (signed_off s)) in
    Presence.myStatus (Presence.announce_online p) =
      match Presence.myOverride (Connection.presence (connection_of s)) with
      | Some o => Presence.so_status o | None => ONLINE end.
Proof.
  split; [exact (logout_runs c)|]. split; [|split].
  - intros s. split; [apply signed_off_forgets|apply signed_off_leaves].
  - by intros s.
  - intros s p. subst p. rewrite signed_off_presence. unfold Presence.announce_online. simpl.
    by destruct (Presence.myOverride _).
Qed.

(** what the server leaves out is blamed on the network.  A profile or a report that
    is missing from an answer is thrown inside the [try] whose handler takes an error that
    is not the server's for a failure of the network, so the texts "User not found" and
    "Server did not return a report" are never shown. *)
Theorem missing_parts_blamed uid mid category reason (c : apage) :
  (∃ k, Programs.exec (Account.getProfile uid) c =
      (Await (Wire (access_token (st c)) (GetProfile uid)) k, c) ∧
    ∀ c', Programs.exec (k (Ok None)) c' =
      (Raise (Error "Network error. Please check your connection."), c')) ∧
  (∃ k, Programs.exec (reportMessage mid category reason) c =
      (Await (Wire (access_token (st c))
         (ReportMessage mid (reportCategoryEnum category) (or_default "" reason))) k, c) ∧
    ∀ c', Programs.exec (k (Ok None)) c' =
      (Raise (Error "Network error. Please check your connection."), c')).
Proof.
  destruct c as [s ts n].
  split; (eexists; split; [reflexivity|]; by intros []).
Qed.

(** ** All functions *)

Inductive account_call :=
  | a_register (params : Registration) (deferAuth : bool)
  | a_finalizeRegistration (access refresh : string) (u : StoredUser)
  | a_login (identifier : string) (authKey : bytes)
  | a_recoverAccount (params : Recovery) (deferAuth : bool)
  | a_getSalt (identifier : string)
  | a_updateProfile (params : ProfileUpdates)
  | a_getProfile (userId : string)
  | a_changePassword (params : PasswordChange)
  | a_listDevices
  | a_revokeDevice (deviceId : string)
  | a_revokeAllOtherDevices
  | a_getRecoveryBundle (email : string)
  | a_logout
  | a_updatePresence (status : PresenceStatus) (text : option string)
  | a_getPresence (userId : string)
  | a_getBulkPresence (userIds : list string)
  | a_setStatusOverride (status : PresenceStatus) (durationSeconds : Z)
  | a_clearStatusOverride
  | a_getMyPresence
  | a_getMutualServers (userId : string)
  | a_getMutualFriends (userId : string)
  | a_getUserVoiceActivity (userId : string)
  | a_joinVoiceChannel (channelId : string)
  | a_leaveVoiceChannel (channelId : string)
  | a_getVoiceChannelState (channelId : string)
  | a_getStreamPreviewToken (channelId : string)
  | a_getNotificationPreferences
  | a_updateNotificationPreference (scopeType scopeId level : string)
  | a_getVAPIDPublicKey.

Definition account_body (a : account_call) : aprog value :=
  match a with
  | a_register params deferAuth => done_ (register params deferAuth)
  | a_finalizeRegistration access refresh u => done_ (finalizeRegistration access refresh u)
  | a_login identifier authKey => done_ (login identifier authKey)
  | a_recoverAccount params deferAuth => done_ (recoverAccount params deferAuth)
  | a_getSalt identifier => done_ (getSalt identifier)
  | a_updateProfile params => done_ (updateProfile params)
  | a_getProfile userId => done_ (Account.getProfile userId)
  | a_changePassword params => done_ (changePassword params)
  | a_listDevices => done_ listDevices
  | a_revokeDevice deviceId => done_ (revokeDevice deviceId)
  | a_revokeAllOtherDevices => done_ revokeAllOtherDevices
  | a_getRecoveryBundle email => done_ (getRecoveryBundle email)
  | a_logout => done_ (logout hw)
  | a_updatePresence status text => done_ (updatePresence status text)
  | a_getPresence userId => done_ (getPresence userId)
  | a_getBulkPresence userIds => done_ (getBulkPresence userIds)
  | a_setStatusOverride status seconds => done_ (setStatusOverride status seconds)
  | a_clearStatusOverride => done_ clearStatusOverride
  | a_getMyPresence => done_ getMyPresence
  | a_getMutualServers userId => done_ (getMutualServers userId)
  | a_getMutualFriends userId => done_ (getMutualFriends userId)
  | a_getUserVoiceActivity userId => done_ (getUserVoiceActivity userId)
  | a_joinVoiceChannel channelId => done_ (joinVoiceChannel channelId)
  | a_leaveVoiceChannel channelId => done_ (leaveVoiceChannel channelId)
  | a_getVoiceChannelState channelId => done_ (getVoiceChannelState channelId)
  | a_getStreamPreviewToken channelId => done_ (getStreamPreviewToken channelId)
  | a_getNotificationPreferences => done_ getNotificationPreferences
  | a_updateNotificationPreference scopeType scopeId level =>
      done_ (updateNotificationPreference scopeType scopeId level)
  | a_getVAPIDPublicKey => done_ getVAPIDPublicKey
  end.

Lemma calm_reset_stores : calm (reset_stores hw).
Proof.
  unfold reset_stores.
  assert (Hall : Forall keeps_promise (resets hw)) by (repeat constructor; by intros ?).
  induction Hall; cbn [for_each]; [constructor|].
  apply calm_bind; [by apply calm_modify|done].
Qed.

Lemma calm_account a : calm (account_body a).
Proof.
  destruct a; unfold account_body, done_; (apply calm_bind; [|by constructor]);
    repeat (apply calm_reset_stores || calm_call_step || by apply calm_Await; [intros []|intros; calm_step]).
Qed.
End facts.
