(* ===== verification/FederationCalls.v ===== *)
(** * Requests to federated servers ([api/federation-transport.ts], [api/federation.ts],
    [api/federation-chat.ts])

    Requests to another instance are signed with the token the instance gave when it was
    joined.  When it is refused the client asks its home server for an assertion of who
    the user is and gives it to the instance for new tokens: one renewal per instance at
    a time, shared by the requests that wait for it.  Joining and leaving, and the
    operations on messages that go to an instance. *)

From S2P Require Export Account.
From S2P Require Import Federation.
From S2P Require Servers Channels Members.

Open Scope meza_scope.

(** ** URLs *)

(** What [new URL(..)] returns *)
Record ParsedUrl := {
  url_protocol : string;
  url_username : string;
  url_password : string;
  url_href : string;
}.

Section federation.
Context `{Crypto} `{Environment}.
(** [String.prototype.trim] and [new URL(..)], which may throw *)
Context (trim : string → string) (parseUrl : string → option ParsedUrl).

Definition validateFederationUrl (input : string) : result string string :=
  match parseUrl (trim input) with
  | None => Throw "Invalid URL"
  | Some url =>
      if negb (bool_decide (url_protocol url = "https:"))
      then Throw "Federation requires HTTPS"
      else if negb (bool_decide (url_username url = ""))
              || negb (bool_decide (url_password url = ""))
      then Throw "URLs with credentials are not allowed"
      else Ok (url_href url)
  end.

Definition mapFederationError (err : failure) : string :=
  match err with
  | ConnectError code message =>
      match code with
      | InvalidArgument => "Invalid invite URL or code"
      | NotFound => "Invite not found or expired"
      | AlreadyExists => "You are already a member of this server"
      | PermissionDenied => "You have been banned from this server"
      | Internal => "The remote server encountered an error"
      | Unavailable => "The remote server is unreachable"
      | Unauthenticated => "Authentication failed — please try again"
      | _ => message
      end
  | Error message => message
  end.

(** ** The transport *)

Definition on_federation f (s : App) : App :=
  on_others (λ o, {| federation := f (federation o); participants := participants o;
    audio := audio o; stream := stream o; keybinds := keybinds o;
    frequentEmojis := frequentEmojis o; spokePromises := spokePromises o |}) s.
Definition on_spokePromises f (s : App) : App :=
  on_others (λ o, {| federation := federation o; participants := participants o;
    audio := audio o; stream := stream o; keybinds := keybinds o;
    frequentEmojis := frequentEmojis o; spokePromises := f (spokePromises o) |}) s.

Definition spoke_of (url : string) (s : App) : option SpokeConnection :=
  obj_get url (Federation.spokes (federation (others s))).
Definition setSpokeStatus url st err : aprog unit :=
  modify (on_federation (updateSpokeStatus url st err)).

(** The signature of a request to an instance: a token that is not empty *)
Definition spoke_token (url : string) (s : App) : option string :=
  match spoke_of url s with
  | Some v => if bool_decide (Federation.accessToken v = "") then None
              else Some (Federation.accessToken v)
  | None => None
  end.

Definition spoke_wire (url : string) (token : option string) (q : rpc) : aprog (rpc_answer q) :=
  Await (SpokeWire url token q) (λ r : result failure (rpc_answer q), of_result r).

Definition createFederationAssertion (targetInstanceUrl : string) : aprog string :=
  call (CreateFederationAssertion targetInstanceUrl).

(** From the second look at the store on: another tab may have renewed the tokens. *)
Definition renew_spoke (url assertionToken : string) : aprog value :=
  Look (λ s,
    match spoke_of url s with
    | None => Ret (Flag false)
    | Some fresh =>
        let* res := spoke_wire url None
          (FederationRefresh (Federation.refreshToken fresh) assertionToken) in
        modify (on_federation (updateSpokeTokens url res.1 res.2)) ;; Ret (Flag true)
    end).

Definition refresh_text (err : failure) : string :=
  match err with ConnectError _ message => message | Error _ => "Token refresh failed" end.

Definition refreshSpokeTokens (url : string) : aprog value :=
  Look (λ s,
    if match spoke_of url s with
       | Some v => negb (bool_decide (Federation.refreshToken v = ""))
       | None => false
       end
    then
      catch
        (await Tick ;;
         let* assertionToken := createFederationAssertion url in renew_spoke url assertionToken)
        (λ err, setSpokeStatus url error (Some (refresh_text err)) ;; Ret (Flag false))
    else setSpokeStatus url error (Some "No refresh token") ;; Ret (Flag false)).

Definition spoke_public (q : rpc) : bool :=
  match q with
  | ResolveInvite _ | FederationJoin _ _ | FederationRefresh _ _ => true
  | _ => false
  end.

(** [refreshSpokeTokens(url).finally(() => refreshPromises.delete(url))], if there is none *)
Definition spoke_renewal (url : string) : aprog nat :=
  Look (λ s,
    match spokePromises (others s) !! url with
    | Some promise => Ret promise
    | None =>
        Spawn (refreshSpokeTokens url) (λ inner,
        Spawn (settled inner (on_spokePromises (delete url))) (λ promise,
        Do (on_spokePromises <[url := promise]>) (Ret promise)))
    end).

Definition spoke_retry (url : string) (sent : option string) (q : rpc) : aprog (rpc_answer q) :=
  let* fresh := look (spoke_token url) in
  spoke_wire url (match fresh with Some _ => fresh | None => sent end) q.

(** The interceptor of an instance's transport *)
Definition spoke_call (url : string) (q : rpc) : aprog (rpc_answer q) :=
  if spoke_public q then spoke_wire url None q
  else
    let* sent := look (spoke_token url) in
    Await (SpokeWire url sent q) (λ r : result failure (rpc_answer q),
      match r with
      | Ok a => Ret a
      | Throw err =>
          if refused err then
            let* promise := spoke_renewal url in
            let* success := wait_for promise in
            if flag_of success then spoke_retry url sent q else Raise err
          else Raise err
      end).

(** ** Joining and leaving *)

Definition resolveRemoteInvite (inviteUrl : string) : aprog (string * string) :=
  call (ResolveRemoteInvite inviteUrl).

Definition joined_credentials (url sid : string) (res : FederationJoined) : SpokeCredentials :=
  {| c_instanceUrl := url; c_accessToken := fj_accessToken res;
     c_refreshToken := fj_refreshToken res; c_shadowUserId := fj_userId res;
     c_serverId := sid |}.

Definition federationJoin (url assertionToken inviteCode : string) : aprog string :=
  let* res := spoke_call url (FederationJoin assertionToken inviteCode) in
  match fj_server res with
  | None => Raise (Error "Federation join returned no server")
  | Some server =>
      addServer server ;;
      (if bool_decide (fj_channels res = []) then Ret tt
       else act C_channels (Channels.SetChannels (sv_id server) (fj_channels res))) ;;
      (if bool_decide (fj_members res = []) then Ret tt
       else act C_members (Members.SetMembers (sv_id server) (fj_members res))) ;;
      modify (on_federation (addSpoke (joined_credentials url (sv_id server) res))) ;;
      Ret (sv_id server)
  end.

Definition federationLeave (url serverId : string) : aprog unit :=
  logged (let* _ := spoke_call url (FederationLeave serverId) in Ret tt).

Definition resolveSpokeInvitePreview (url inviteCode : string) : aprog (option (string * Z)) :=
  catch
    (let* res := spoke_call url (ResolveInvite inviteCode) in
     Ret ((λ sv, (sv_name sv, ri_memberCount res)) <$> ri_server res))
    (λ _, Ret None).

(** ** Messages on an instance *)

Definition withSpokeError {A} (serverId : string) (fn : string → aprog A) : aprog A :=
  catch
    (let* url := look (λ s, App.serverIndex s !! serverId) in
     if truthy url then fn (or_default "" url) else Raise (Error "Not a federated server"))
    (λ err, Raise (Error (mapFederationError err))).

Definition spokeSendMessage (serverId : string) (m : Outgoing)
    : aprog (string * option Timestamp) :=
  withSpokeError serverId (λ url, spoke_call url (SendMessage m)).
Definition spokeEditMessage (serverId channelId messageId : string) (content : bytes)
    (keyVersion : option Z) : aprog (option Timestamp) :=
  withSpokeError serverId (λ url,
    spoke_call url (EditMessage channelId messageId content (or_default 0%Z keyVersion))).
Definition spokeDeleteMessage (serverId channelId messageId : string) : aprog unit :=
  withSpokeError serverId (λ url, spoke_call url (DeleteMessage channelId messageId)).
Definition spokeAddReaction (serverId channelId messageId emoji : string) : aprog unit :=
  withSpokeError serverId (λ url, spoke_call url (AddReaction channelId messageId emoji)).
Definition spokeRemoveReaction (serverId channelId messageId emoji : string) : aprog unit :=
  withSpokeError serverId (λ url, spoke_call url (RemoveReaction channelId messageId emoji)).
Definition spokeAckMessage (serverId channelId messageId : string) : aprog unit :=
  withSpokeError serverId (λ url, spoke_call url (AckMessage channelId messageId)).
End federation.

(** ** What the requests to federated servers do

    Joining makes the server known, listed and reachable with its own token; how the tokens
    of an instance are renewed; what a failure tells the user. *)

From S2P Require Import ApiCalls.
From S2P Require Import Auth Federation.

Open Scope meza_scope.

#[local] Arguments obj_get : simpl never.
#[local] Arguments obj_set : simpl never.
#[local] Arguments obj_modify : simpl never.

Section facts.
Context `{Crypto} `{Environment}.

(** What a join stores *)
Definition joined (url : string) (res : FederationJoined) (sv : Server) (s : App) : App :=
  let s := on_client (Client.act localeCompare self C_servers (Servers.AddServer sv)) s in
  let s := if bool_decide (fj_channels res = []) then s
           else on_client (Client.act localeCompare self C_channels
             (Channels.SetChannels (sv_id sv) (fj_channels res))) s in
  let s := if bool_decide (fj_members res = []) then s
           else on_client (Client.act localeCompare self C_members
             (Members.SetMembers (sv_id sv) (fj_members res))) s in
  on_federation (addSpoke (joined_credentials url (sv_id sv) res)) s.

Lemma joined_federation url res sv s :
  federation (others (joined url res sv s)) =
    addSpoke (joined_credentials url (sv_id sv) res) (federation (others s)).
Proof. unfold joined. by repeat case_bool_decide. Qed.

Lemma joined_token url res sv s :
  fj_accessToken res ≠ "" → spoke_token url (joined url res sv s) = Some (fj_accessToken res).
Proof.
  intros Ht. unfold spoke_token, spoke_of. rewrite joined_federation. unfold addSpoke. cbn.
  rewrite obj_get_set, decide_True by done. cbn. by rewrite bool_decide_eq_false_2.
Qed.

(** A request to an instance is sent with the token of the instance. *)
Lemma spoke_call_sends url q c :
  spoke_public q = false →
  ∃ k, Programs.exec (spoke_call url q) c = (Await (SpokeWire url (spoke_token url (st c)) q) k, c) ∧
    (∀ a c', Programs.exec (k (Ok a)) c' = (Ret a, c')) ∧
    (∀ e c', refused e = false → Programs.exec (k (Throw e)) c' = (Raise e, c')).
Proof.
  intros Hq. unfold spoke_call. rewrite Hq. eexists. split; [reflexivity|].
  split; [done|]. intros e c' He. by rewrite He.
Qed.

(** C22: joining a federated server.  The request goes to the instance without a token.  A
    failure leaves everything as it was, and so does an answer without a server, which is
    an error.  Otherwise the server is listed with its channels and members, the instance
    is known by the server's id, and the next request for the server, such as a message,
    goes to the instance with the token it has given; what happens in between may be
    anything that leaves the federation store alone. *)
Theorem federation_join_connects url assertion code (c : apage) :
  ∃ k, Programs.exec (federationJoin url assertion code) c =
      (Await (SpokeWire url None (FederationJoin assertion code)) k, c) ∧
  (∀ e c', Programs.exec (k (Throw e)) c' = (Raise e, c')) ∧
  ∀ res c',
    match fj_server res with
    | None => Programs.exec (k (Ok res)) c' =
        (Raise (Error "Federation join returned no server"), c')
    | Some sv =>
        Programs.exec (k (Ok res)) c' = (Ret (sv_id sv), on_st (joined url res sv) c') ∧
        let s' := joined url res sv (st c') in
        Servers.servers (stores (client s') C_servers) !! sv_id sv = Some sv ∧
        (fj_channels res ≠ [] → Channels.byServer (stores (client s') C_channels) !! sv_id sv =
           Some (js_sort Channels.by_position (fj_channels res))) ∧
        (fj_members res ≠ [] → Members.byServer (stores (client s') C_members) !! sv_id sv =
           Some (fj_members res)) ∧
        (fj_accessToken res ≠ "" → url ≠ "" → ∀ m d,
           federation (others (st d)) = federation (others s') →
           ∃ j, Programs.exec (spokeSendMessage (sv_id sv) m) d =
             (Await (SpokeWire url (Some (fj_accessToken res)) (SendMessage m)) j, d))
    end.
Proof.
  eexists. split; [reflexivity|]. split; [done|]. intros res c'.
  destruct (fj_server res) as [sv|] eqn:Esv; cbn; rewrite Esv; [|done].
  split.
  - unfold joined. cbn. repeat case_bool_decide; reflexivity.
  - split_and!.
    + unfold joined. repeat case_bool_decide; cbn; apply lookup_insert_eq.
    + intros Hc. unfold joined. rewrite (bool_decide_eq_false_2 _ Hc).
      repeat case_bool_decide; cbn -[js_sort]; apply lookup_insert_eq.
    + intros Hm. unfold joined. rewrite (bool_decide_eq_false_2 _ Hm).
      repeat case_bool_decide; cbn -[js_sort]; apply lookup_insert_eq.
    + intros Ht Hu m d Hd. unfold spokeSendMessage, withSpokeError.
      assert (Hi : App.serverIndex (st d) !! sv_id sv = Some url).
      { unfold App.serverIndex. rewrite Hd.
        etrans; [exact (f_equal (λ f, Federation.serverIndex f !! sv_id sv)
          (joined_federation url res sv (st c')))|]. apply lookup_insert_eq. }
      assert (Htok : spoke_token url (st d) = Some (fj_accessToken res)).
      { rewrite <-(joined_token url res sv (st c') Ht). unfold spoke_token, spoke_of.
        by rewrite Hd. }
      cbn. rewrite Hi. cbn. rewrite bool_decide_eq_false_2 by done. cbn.
      unfold spoke_call. cbn. rewrite Htok. by eexists.
Qed.

(** how the tokens of an instance are renewed.  Without a refresh token the instance is
    shown in error and nothing is sent.  Otherwise the home server is asked for an
    assertion; the store is read again; an instance that has been left in the meantime
    gets nothing; and the refresh token of that moment goes to the instance with the
    assertion.  New tokens are stored; any failure on the way is shown on the instance,
    and no other instance and no store of the home server changes. *)
Theorem spoke_tokens_renewed url (c : apage) :
  let failed text := on_st (on_federation (updateSpokeStatus url error (Some text))) in
  if match spoke_of url (st c) with
     | Some v => bool_decide (Federation.refreshToken v = "") | None => true end
  then Programs.exec (refreshSpokeTokens url) c = (Ret (Flag false), failed "No refresh token" c)
  else
    ∃ k, Programs.exec (refreshSpokeTokens url) c = (Await Tick k, c) ∧ ∀ c1,
    let q := CreateFederationAssertion url in
    ∃ k1, Programs.exec (k (Ok tt)) c1 = (Await (Wire (header q (st c1)) q) k1, c1) ∧
    (∀ e c2, refused e = false →
       Programs.exec (k1 (Throw e)) c2 = (Ret (Flag false), failed (refresh_text e) c2)) ∧
    ∀ assertion c2,
      match spoke_of url (st c2) with
      | None => Programs.exec (k1 (Ok assertion)) c2 = (Ret (Flag false), c2)
      | Some fresh =>
          ∃ k2, Programs.exec (k1 (Ok assertion)) c2 =
              (Await (SpokeWire url None
                 (FederationRefresh (Federation.refreshToken fresh) assertion)) k2, c2) ∧
            (∀ access refresh c3, Programs.exec (k2 (Ok (access, refresh))) c3 =
               (Ret (Flag true),
                on_st (on_federation (updateSpokeTokens url access refresh)) c3)) ∧
            (∀ e c3, Programs.exec (k2 (Throw e)) c3 =
               (Ret (Flag false), failed (refresh_text e) c3))
      end.
Proof.
  intros failed. subst failed. cbn beta zeta. unfold refreshSpokeTokens. cbn [Programs.exec].
  destruct (spoke_of url (st c)) as [v|]; [|reflexivity].
  case_bool_decide as Hv; [reflexivity|]. cbn [negb].
  eexists. split; [reflexivity|]. intros c1. eexists. split; [reflexivity|].
  split.
  - intros e c2 He. cbn. rewrite He. reflexivity.
  - intros assertion c2. cbn. destruct (spoke_of url (st c2)) as [fresh|]; [|reflexivity].
    eexists. split; [reflexivity|]. split; intros; reflexivity.
Qed.

(** requests that an instance refuses share one renewal.  The first of them starts it
    and remembers it under the instance's URL; while it is remembered the others wait for
    it and send nothing; when it is over it is forgotten; then each is sent once more, with
    the new token, or fails as it did if there is none. *)
Theorem spoke_renewal_shared url q e (c : apage) :
  spoke_public q = false → refused e = true →
  ∃ k, Programs.exec (spoke_call url q) c =
      (Await (SpokeWire url (spoke_token url (st c)) q) k, c) ∧ ∀ c',
  (∀ promise, spokePromises (others (st c')) !! url = Some promise →
     ∃ j, Programs.exec (k (Throw e)) c' = (WaitFor promise j, c') ∧
       (∀ c'', Programs.exec (j (Ok (Flag false))) c'' = (Raise e, c'')) ∧
       (∀ c'', Programs.exec (j (Ok (Flag true))) c'' =
          (spoke_wire url (match spoke_token url (st c'') with
                           | Some _ => spoke_token url (st c'')
                           | None => spoke_token url (st c) end) q, c''))) ∧
  (spokePromises (others (st c')) !! url = None →
     let c1 := (Programs.exec (k (Throw e)) c').2 in
     spokePromises (others (st c1)) !! url = Some (next c' + 1) ∧
     (∃ j, (Programs.exec (k (Throw e)) c').1 = WaitFor (next c' + 1) j) ∧
     threads c1 !! (next c' + 1) =
       Some (WaitFor (next c') (λ r, Do (on_spokePromises (delete url)) (of_result r)))).
Proof.
  intros Hq He. unfold spoke_call. rewrite Hq. eexists. split; [reflexivity|]. intros c'.
  cbn beta iota. rewrite He. split.
  - intros promise Hp. unfold spoke_renewal. cbn. rewrite Hp. eexists. split; [reflexivity|].
    split; intros c''; reflexivity.
  - intros Hp. unfold spoke_renewal. cbn -[refreshSpokeTokens]. rewrite Hp.
    cbn -[refreshSpokeTokens].
    destruct (Programs.exec (refreshSpokeTokens url) (reserve c')) as [p1 d] eqn:Er.
    assert (Hd : next d = next c' + 1).
    { pose proof (spoke_tokens_renewed url (reserve c')) as Hr. cbn beta zeta in Hr.
      destruct (match spoke_of url (st (reserve c')) with
        | Some v => _ | None => true end).
      - rewrite Er in Hr. by injection Hr as _ ->.
      - destruct Hr as (k & Hk & _). rewrite Er in Hk. by injection Hk as _ ->. }
    cbn. rewrite Hd. split_and!; [apply lookup_insert_eq|by eexists|apply lookup_insert_eq].
Qed.

(** what the user is told when an operation on a federated server fails.  For a server
    that is not federated nothing is sent; an answer is passed on; every failure is thrown
    as the text for its code; and in each case nothing on the page has changed. *)
Theorem spoke_operations_fail_cleanly sid (c : apage) :
  let outcome {A} (p : aprog A) (q : rpc) :=
    if truthy (App.serverIndex (st c) !! sid) then
      let url := or_default "" (App.serverIndex (st c) !! sid) in
      ∃ k, Programs.exec p c = (Await (SpokeWire url (spoke_token url (st c)) q) k, c) ∧
        ∀ e c', refused e = false →
          Programs.exec (k (Throw e)) c' = (Raise (Error (mapFederationError e)), c')
    else Programs.exec p c = (Raise (Error "Not a federated server"), c) in
  (∀ m, outcome (spokeSendMessage sid m) (SendMessage m)) ∧
  (∀ ch id content v, outcome (spokeEditMessage sid ch id content v)
     (EditMessage ch id content (or_default 0%Z v))) ∧
  (∀ ch id, outcome (spokeDeleteMessage sid ch id) (DeleteMessage ch id)) ∧
  (∀ ch id emoji, outcome (spokeAddReaction sid ch id emoji) (AddReaction ch id emoji)) ∧
  (∀ ch id emoji, outcome (spokeRemoveReaction sid ch id emoji) (RemoveReaction ch id emoji)) ∧
  (∀ ch id, outcome (spokeAckMessage sid ch id) (AckMessage ch id)).
Proof.
  intros outcome. subst outcome. cbn beta zeta.
  destruct (truthy (App.serverIndex (st c) !! sid)) eqn:Et.
  - split_and!; intros; unfold spokeSendMessage, spokeEditMessage, spokeDeleteMessage,
      spokeAddReaction, spokeRemoveReaction, spokeAckMessage, withSpokeError;
      cbn; rewrite Et; eexists; (split; [reflexivity|]); intros e c' He; cbn; rewrite He;
      reflexivity.
  - split_and!; intros; unfold spokeSendMessage, spokeEditMessage, spokeDeleteMessage,
      spokeAddReaction, spokeRemoveReaction, spokeAckMessage, withSpokeError;
      cbn; rewrite Et; reflexivity.
Qed.
End facts.

#[local] Existing Instance toy.
#[local] Existing Instance demo_environment.

Lemma spoke_renewal_shared_witness :
  ∃ k, Programs.exec (spoke_call "https://spoke" (FederationLeave "s1")) (fresh_page demo_app) =
    (Await (SpokeWire "https://spoke" None (FederationLeave "s1")) k, fresh_page demo_app).
Proof.
  destruct (spoke_renewal_shared "https://spoke" (FederationLeave "s1")
    (ConnectError Unauthenticated "") (fresh_page demo_app) eq_refl eq_refl) as (k & Hk & _).
  exists k. exact Hk.
Defined.
