(* ===== verification/Media.v ===== *)
(** * Uploading and fetching media ([api/media.ts])

    A file is encrypted with a key of its own, the key is wrapped with the channel's key,
    the encrypted bytes go to an address the server gives, and the attachment is completed
    with the wrapped key.  What is downloaded is checked before it is believed.
    (The slots that downloads wait for are [MediaQueue].) *)

From Stdlib Require Import Ascii.
From S2P Require Export Calls.
From S2P Require Import JsString E2ee Auth.

Open Scope meza_scope.

(** ** Data *)

Record File := { file_name : string; file_type : string; file_bytes : bytes }.

(** What the browser makes of an image or a video *)
Record Thumbnails := {
  tn_thumb : option bytes;
  tn_micro : option bytes;
  tn_width : Z;
  tn_height : Z;
}.
Definition no_thumbnails : Thumbnails :=
  {| tn_thumb := None; tn_micro := None; tn_width := 0; tn_height := 0 |}.

Record EncryptedUploadResult := {
  eu_attachmentId : string;
  eu_width : Z;
  eu_height : Z;
  eu_microThumbnail : bytes;
  eu_filename : string;
  eu_contentType : string;
  eu_sizeBytes : Z;
}.

(** The random values of an upload: the file's key, the vectors of the file and of the
    thumbnail, and the nonce of the wrapped key *)
Record UploadRandom := {
  rnd_key : bytes;
  rnd_iv : bytes;
  rnd_thumb_iv : bytes;
  rnd_nonce : bytes;
}.

Definition CHAT_ATTACHMENT : Z := 1.
Definition OCTETS : string := "application/octet-stream".

Section media.
Context `{Crypto} `{Environment}.
(** [isCapacitor() && import.meta.env.DEV], and [new URL(..)]: the path and the query *)
Context (devPhone : bool) (parsePath : string → option (string * string)).
(** The thumbnails the browser makes: of an image, which may fail, and of a video *)
Context (imageThumbnail : File → result failure Thumbnails)
        (videoThumbnail : File → option Thumbnails).
(** Decimal digits of a status, [encodeURIComponent], [getBaseUrl()] *)
Context (digits : Z → string) (encodeURIComponent : string → string) (baseUrl : string).

Definition normalizePresignedUrl (url : string) : string :=
  if devPhone then
    match parsePath url with
    | Some (path, query) => if startsWith "/meza-media/" path then path +:+ query else url
    | None => url
    end
  else url.

Definition createUpload (u : Upload) : aprog UploadTicket :=
  let* res := call (CreateUpload u) in
  Ret {| ut_uploadId := ut_uploadId res; ut_uploadUrl := normalizePresignedUrl (ut_uploadUrl res);
         ut_thumbnailUploadUrl := normalizePresignedUrl (ut_thumbnailUploadUrl res) |}.
Definition completeUpload (u : Completion) : aprog Uploaded := call (CompleteUpload u).
Definition getDownloadURL (attachmentId : string) (thumbnail : bool) : aprog string :=
  let* url := call (GetDownloadURL attachmentId thumbnail) in Ret (normalizePresignedUrl url).

Definition http_ok (a : HttpAnswer) : bool := (200 <=? http_status a)%Z && (http_status a <? 300)%Z.

(** The request is made with XMLHttpRequest, whose errors have no text. *)
Definition putFile (url contentType : string) (data : bytes) : aprog unit :=
  Await (Fetch (PutObject url contentType data)) (λ r : result failure HttpAnswer,
    match r with
    | Ok a => if http_ok a then Ret tt
              else Raise (Error ("Upload failed: " +:+ digits (http_status a)))
    | Throw _ => Raise (Error "Upload failed")
    end).

(** One download, when its turn has come *)
Definition fetchEncryptedMedia (attachmentId : string) (thumbnail : bool) : aprog bytes :=
  let* url := getDownloadURL attachmentId thumbnail in
  let* response := await (Fetch (GetObject url)) in
  let a : HttpAnswer := response in
  if negb (http_ok a)
  then Raise (Error ("Failed to fetch media: " +:+ digits (http_status a)))
  else if startsWith "text/html" (http_contentType a)
          || startsWith "application/xml" (http_contentType a)
  then Raise (Error "Unexpected content-type")
  else Ret (http_body a).

Definition uploadFile (file : File) (purpose : Z) : aprog Uploaded :=
  let* t := createUpload {| ul_filename := file_name file; ul_contentType := file_type file;
    ul_sizeBytes := Z.of_nat (length (file_bytes file)); ul_purpose := purpose;
    ul_originalContentType := "" |} in
  putFile (ut_uploadUrl t) (file_type file) (file_bytes file) ;;
  completeUpload {| cu_uploadId := ut_uploadId t; cu_width := 0; cu_height := 0;
    cu_encryptedKey := []; cu_isSpoiler := false |}.

(** ** Encrypted attachments *)

Definition thumbnails (file : File) : aprog Thumbnails :=
  if startsWith "image/" (file_type file) then
    await Tick ;; of_result (imageThumbnail file)
  else if startsWith "video/" (file_type file) then
    await Tick ;; Ret (or_default no_thumbnails (videoThumbnail file))
  else Ret no_thumbnails.

(** The channel keys of the page; the cache of imported keys starts empty here, which
    changes no result. *)
Definition crypto_state (s : App) : CryptoState :=
  {| E2ee.identity := App.identity s; E2ee.keys := Client.keys (local (client s));
     aesKeyCache := ∅ |}.
(** The latest version is a cached one, so that no key is fetched. *)
Definition no_fetch (n : nat) (c : string) : result string (list (Z * bytes)) :=
  Throw "not needed".
Definition wrap_file_key (nonce : bytes) (channelId : string) (fileKey : bytes) : aprog bytes :=
  Look (λ s,
    let r := (wrapFileKey no_fetch nonce channelId fileKey (crypto_state s)).1 in
    await Tick ;; of_key r).

Definition encrypt_file (iv fileKey data : bytes) : aprog bytes :=
  await Tick ;; of_key (encryptFile iv fileKey data).

(** [Promise.all] of the two requests, which are sent together: the failure of the first
    is the one that is passed on here, in the code the one that comes first. *)
Definition put_all (fileUrl thumbUrl : string) (encryptedFile : bytes)
    (encryptedThumb : option bytes) : aprog unit :=
  let put url data := putFile url OCTETS data ;; Ret Nothing in
  Spawn (put fileUrl encryptedFile) (λ p1,
    match encryptedThumb with
    | Some thumb =>
        if bool_decide (thumbUrl = "") then let* _ := wait_for p1 in Ret tt
        else
          Spawn (put thumbUrl thumb) (λ p2,
            let* _ := wait_for p1 in let* _ := wait_for p2 in Ret tt)
    | None => let* _ := wait_for p1 in Ret tt
    end).

Definition uploadEncryptedFile (rnd : UploadRandom) (file : File) (channelId : string)
    (isSpoiler : option bool) : aprog EncryptedUploadResult :=
  await Tick ;;
  let* t := thumbnails file in
  let* encryptedFile := encrypt_file (rnd_iv rnd) (rnd_key rnd) (file_bytes file) in
  let* encryptedThumb :=
    match tn_thumb t with
    | Some thumb =>
        await Tick ;;
        let* e := encrypt_file (rnd_thumb_iv rnd) (rnd_key rnd) thumb in Ret (Some e)
    | None => Ret None
    end in
  let* encryptedKey := wrap_file_key (rnd_nonce rnd) channelId (rnd_key rnd) in
  let* up := createUpload {| ul_filename := file_name file; ul_contentType := OCTETS;
    ul_sizeBytes := Z.of_nat (length encryptedFile); ul_purpose := CHAT_ATTACHMENT;
    ul_originalContentType := file_type file |} in
  put_all (ut_uploadUrl up) (ut_thumbnailUploadUrl up) encryptedFile encryptedThumb ;;
  let* res := completeUpload {| cu_uploadId := ut_uploadId up; cu_width := tn_width t;
    cu_height := tn_height t; cu_encryptedKey := encryptedKey;
    cu_isSpoiler := or_default false isSpoiler |} in
  let* micro :=
    match tn_micro t with Some b => await Tick ;; Ret b | None => Ret [] end in
  Ret {| eu_attachmentId := ud_attachmentId res; eu_width := tn_width t;
         eu_height := tn_height t; eu_microThumbnail := micro; eu_filename := file_name file;
         eu_contentType := file_type file; eu_sizeBytes := Z.of_nat (length (file_bytes file)) |}.

(** ** Addresses of media *)

Definition getMediaURL (attachmentId : string) (thumbnail : bool) (s : App) : string :=
  let url := baseUrl +:+ "/media/" +:+ attachmentId +:+ (if thumbnail then "/thumb" else "") in
  let token := Auth.accessToken (auth (authSystem s)) in
  if truthy token then url +:+ "?token=" +:+ encodeURIComponent (or_default "" token) else url.

(** The match of [^\/media\/([^/?]+)] *)
Fixpoint path_segment (s : string) : string :=
  match s with
  | EmptyString => EmptyString
  | String a s =>
      if Ascii.eqb a "/"%char || Ascii.eqb a "?"%char then EmptyString else String a (path_segment s)
  end.
Definition media_id (iconUrl : string) : option string :=
  if startsWith "/media/" iconUrl then
    let m := path_segment (str_slice 7 iconUrl) in
    if bool_decide (m = "") then None else Some m
  else None.
Definition resolveIconUrl (iconUrl : string) (s : App) : string :=
  match media_id iconUrl with
  | Some m => getMediaURL m true s
  | None => iconUrl
  end.
End media.

(** ** What becomes of a file that is sent

    The bytes that are uploaded and the key that is stored with them open to the file for
    every member who has the channel's key; nothing is completed that was not uploaded;
    what is downloaded is the stored bytes or an error. *)

From S2P Require Import JsString E2ee Primitives ApiCalls.

Open Scope meza_scope.

#[local] Arguments startsWith : simpl never.

(** Run a program while nothing else happens, up to a request. *)
Definition is_tick (q : request) : bool := match q with Tick => true | _ => false end.
Definition ticked (q : request) : result failure (response q) :=
  match q with Tick => Ok tt | _ => Throw (Error "") end.
Fixpoint to_request {A} (p : aprog A) (s : App) : aprog A * App :=
  match p with
  | Look k => to_request (k s) s
  | Do f k => to_request k (f s)
  | Await q k => if is_tick q then to_request (k (ticked q)) s else (p, s)
  | p => (p, s)
  end.

Lemma to_request_tick {A} (f : unit → aprog A) s :
  to_request (bind (await Tick : aprog unit) f) s = to_request (f tt) s.
Proof. reflexivity. Qed.
Lemma to_request_bind {A B} (p : aprog A) (f : A → aprog B) s a s' :
  to_request p s = (Ret a, s') → to_request (bind p f) s = to_request (f a) s'.
Proof.
  revert s. induction p as [A x|A e|A k IH|A g k IH|A q k IH|A p IHp k IH|A pid k IH]; intros s;
    cbn [to_request bind]; try done.
  - by intros [= -> ->].
  - apply IH.
  - apply IH.
  - destruct (is_tick q); [apply IH|done].
Qed.

Section facts.
Context `{Crypto} `{!CryptoLaws} `{Environment}.
Context (K : bytes → Prop) (HK : keys_ok K).
Context (devPhone : bool) (parsePath : string → option (string * string)).
Context (imageThumbnail : File → result failure Thumbnails)
        (videoThumbnail : File → option Thumbnails).
Context (digits : Z → string).
Context (getKeyEnvelopes : nat → string → result string (list (Z * bytes))).

#[local] Notation normal := (normalizePresignedUrl devPhone parsePath).
#[local] Notation upload :=
  (uploadEncryptedFile devPhone parsePath imageThumbnail videoThumbnail digits).

(** The thumbnails of a file *)
Definition thumbnails_of (file : File) : result failure Thumbnails :=
  if startsWith "image/" (file_type file) then imageThumbnail file
  else if startsWith "video/" (file_type file)
  then Ok (or_default no_thumbnails (videoThumbnail file)) else Ok no_thumbnails.

Lemma thumbnails_run file t s :
  thumbnails_of file = Ok t →
  to_request (thumbnails imageThumbnail videoThumbnail file) s = (Ret t, s).
Proof.
  unfold thumbnails_of, thumbnails. destruct (startsWith "image/" _).
  - rewrite to_request_tick. by intros ->.
  - destruct (startsWith "video/" _); [rewrite to_request_tick|]; by intros [= ->].
Qed.

Lemma encryptFile_opens iv key data :
  length iv = 12 → length key = 32 →
  ∃ d, encryptFile iv key data = Ok d ∧ decryptFile key d = Ok data ∧
    length d = length data + 28.
Proof.
  intros Hiv Hf.
  assert (Hi : importKey key = Ok key).
  { unfold importKey. rewrite Hf, decide_True; [done|]. set_solver. }
  unfold encryptFile, aesGcmEncrypt. rewrite Hi. cbn [result_bind fst snd].
  eexists. split; [done|]. rewrite length_app, gcm_length, Hiv. split; [|lia].
  unfold decryptFile, aesGcmDecrypt. rewrite decide_False
    by (rewrite length_app, gcm_length, Hiv; lia).
  rewrite Hi. cbn [result_bind]. unfold slice. rewrite drop_0. cbn [Nat.sub].
  rewrite (take_app_length' _ _ 12), (drop_app_length' _ _ 12) by done.
  apply gcm_decrypt_encrypt.
Qed.

Lemma encrypt_file_run iv key data d s :
  encryptFile iv key data = Ok d → to_request (encrypt_file iv key data) s = (Ret d, s).
Proof. intros E. unfold encrypt_file. rewrite to_request_tick, E. done. Qed.

Lemma encrypt_thumb_run rnd t et s :
  match tn_thumb t with
  | Some b => ∃ e, et = Some e ∧ encryptFile (rnd_thumb_iv rnd) (rnd_key rnd) b = Ok e
  | None => et = None
  end →
  to_request (match tn_thumb t with
    | Some thumb => await Tick ;;
        let* e := encrypt_file (rnd_thumb_iv rnd) (rnd_key rnd) thumb in Ret (Some e)
    | None => Ret None end) s = (Ret et, s).
Proof.
  destruct (tn_thumb t) as [b|]; [|by intros ->]. intros (e & -> & He).
  rewrite to_request_tick. etrans; [apply to_request_bind, encrypt_file_run, He|]. done.
Qed.

(** The key that wraps is in the cache, so the server does not matter. *)
Lemma wrapFileKey_local server ch v k nonce key s :
  getLatestKeyVersion ch (E2ee.keys s) = Some v → cached (E2ee.keys s) ch v = Some k →
  wrapFileKey no_fetch nonce ch key s = wrapFileKey server nonce ch key s.
Proof.
  intros Hl Hc. unfold wrapFileKey. rewrite Hl. by rewrite !(getChannelKey_cached _ ch v k).
Qed.

(** An upload: whatever is answered, it ends well exactly for a status of 200 to 299. *)
Definition puts (url : string) (data : bytes) (p : option (aprog value)) : Prop :=
  ∃ j, p = Some (Await (Fetch (PutObject url OCTETS data)) j) ∧
  ∀ r c, Programs.exec (j r) c =
    (match r with
     | Ok a =>
         if decide (200 ≤ http_status a < 300)%Z then Ret Nothing
         else Raise (Error ("Upload failed: " +:+ digits (http_status a)))
     | Throw _ => Raise (Error "Upload failed")
     end, c).

Lemma puts_putFile url data :
  puts url data (Some (putFile digits url OCTETS data ;; Ret Nothing)).
Proof.
  eexists. split; [reflexivity|]. intros [a|e] c'; [|reflexivity].
  cbn. unfold http_ok. case_decide as Hs; cbn.
  - by rewrite (proj2 (Z.leb_le _ _)), (proj2 (Z.ltb_lt _ _)) by lia.
  - destruct (_ && _) eqn:E; [|reflexivity]. exfalso. apply Hs.
    apply andb_true_iff in E as [?%Z.leb_le ?%Z.ltb_lt]. lia.
Qed.

(** What follows when everything is uploaded: the attachment is completed, and the result
    describes the file that was sent. *)
Definition completes (up : UploadTicket) (w : bytes) (file : File) (t : Thumbnails)
    (sp : option bool) (p : aprog EncryptedUploadResult) : Prop :=
  ∀ c, ∃ j, let q := CompleteUpload {| cu_uploadId := ut_uploadId up; cu_width := tn_width t;
      cu_height := tn_height t; cu_encryptedKey := w; cu_isSpoiler := or_default false sp |} in
    Programs.exec p c = (Await (Wire (header q (st c)) q) j, c) ∧
    (∀ e c, refused e = false → Programs.exec (j (Throw e)) c = (Raise e, c)) ∧
    ∀ res s, to_request (j (Ok res)) s =
      (Ret {| eu_attachmentId := ud_attachmentId res; eu_width := tn_width t;
              eu_height := tn_height t; eu_microThumbnail := or_default [] (tn_micro t);
              eu_filename := file_name file; eu_contentType := file_type file;
              eu_sizeBytes := Z.of_nat (length (file_bytes file)) |}, s).

(** C4: a file that is sent can be opened by every member.  The upload asks for an address
    for a file of the encrypted size, uploads there bytes that the file's key opens to the
    file (and a thumbnail likewise, if there is one and an address for it), and only when
    each of these uploads has been answered with a status of 200 to 299 completes the
    attachment with a wrapped key, which any member who has the channel key unwraps to the
    file's key; its result describes the file.  When a request fails, or an upload has
    another status, that is the error, and the attachment is not completed. *)
Theorem attachment_roundtrip rnd file ch v k sp s bob t :
  getLatestKeyVersion ch (E2ee.keys (crypto_state s)) = Some v →
  holds_key K (crypto_state s) ch v k → holds_key K bob ch v k →
  length (rnd_iv rnd) = 12 → length (rnd_thumb_iv rnd) = 12 → length (rnd_nonce rnd) = 12 →
  length (rnd_key rnd) = 32 → thumbnails_of file = Ok t →
  ∃ d w et next_step,
  let q := CreateUpload {| ul_filename := file_name file; ul_contentType := OCTETS;
    ul_sizeBytes := Z.of_nat (length (file_bytes file) + 28); ul_purpose := CHAT_ATTACHMENT;
    ul_originalContentType := file_type file |} in
  to_request (upload rnd file ch sp) s = (Await (Wire (header q s) q) next_step, s) ∧
  decryptFile (rnd_key rnd) d = Ok (file_bytes file) ∧
  decryptFile (rnd_key rnd) <$> et = Ok <$> tn_thumb t ∧
  (unwrapFileKey getKeyEnvelopes ch w bob).1 = Ok (rnd_key rnd) ∧
  (∀ e c, refused e = false → Programs.exec (next_step (Throw e)) c = (Raise e, c)) ∧
  ∀ up (c : apage),
    ∃ j c1, Programs.exec (next_step (Ok up)) c = (WaitFor (next c) j, c1) ∧ st c1 = st c ∧
    puts (normal (ut_uploadUrl up)) d (threads c1 !! next c) ∧
    (∀ e c2, Programs.exec (j (Throw e)) c2 = (Raise e, c2)) ∧
    match et with
    | Some e =>
        if bool_decide (normal (ut_thumbnailUploadUrl up) = "")
        then completes up w file t sp (j (Ok Nothing))
        else puts (normal (ut_thumbnailUploadUrl up)) e (threads c1 !! (next c + 1)) ∧
          ∃ j2, (∀ c2, Programs.exec (j (Ok Nothing)) c2 = (WaitFor (next c + 1) j2, c2)) ∧
            (∀ e c2, Programs.exec (j2 (Throw e)) c2 = (Raise e, c2)) ∧
            completes up w file t sp (j2 (Ok Nothing))
    | None => completes up w file t sp (j (Ok Nothing))
    end.
Proof.
  intros Hl Ha Hb Hiv Htiv Hn Hk Ht.
  destruct (encryptFile_opens (rnd_iv rnd) (rnd_key rnd) (file_bytes file)) as (d & Ed & Hd & Hlen);
    [done..|].
  destruct (file_roundtrip getKeyEnvelopes K HK (crypto_state s) bob ch v k (rnd_iv rnd)
    (rnd_nonce rnd) (rnd_key rnd) (file_bytes file)) as (_ & (w & Ew & _ & _ & Hw) & _);
    [done..|].
  assert (Het : ∃ et, match tn_thumb t with
    | Some b => ∃ e, et = Some e ∧ encryptFile (rnd_thumb_iv rnd) (rnd_key rnd) b = Ok e
    | None => et = None end ∧ decryptFile (rnd_key rnd) <$> et = Ok <$> tn_thumb t).
  { destruct (tn_thumb t) as [b|]; [|by exists None].
    destruct (encryptFile_opens (rnd_thumb_iv rnd) (rnd_key rnd) b) as (e & Ee & He & _); [done..|].
    exists (Some e). split; [by exists e|]. cbn. by rewrite He. }
  destruct Het as (et & Het & Hopen).
  exists d, w, et. eexists. cbn zeta. split.
  { unfold uploadEncryptedFile. rewrite to_request_tick.
    etrans; [apply to_request_bind, (thumbnails_run _ _ _ Ht)|]. cbv beta.
    etrans; [apply to_request_bind, encrypt_file_run, Ed|]. cbv beta.
    etrans; [apply to_request_bind, encrypt_thumb_run, Het|]. cbv beta.
    etrans; [apply (to_request_bind _ _ _ w s)|].
    { unfold wrap_file_key. cbn [to_request].
      rewrite to_request_tick, (wrapFileKey_local getKeyEnvelopes ch v k), Ew; [done|done|apply Ha]. }
    cbv beta. rewrite Hlen. reflexivity. }
  split; [exact Hd|]. split; [exact Hopen|]. split; [exact Hw|].
  split; [intros e c He; cbn; by rewrite He|].
  assert (Hcomplete : ∀ up, completes up w file t sp (
    let* res := completeUpload {| cu_uploadId := ut_uploadId up; cu_width := tn_width t;
      cu_height := tn_height t; cu_encryptedKey := w; cu_isSpoiler := or_default false sp |} in
    let* micro := match tn_micro t with Some b => await Tick ;; Ret b | None => Ret [] end in
    Ret {| eu_attachmentId := ud_attachmentId res; eu_width := tn_width t;
           eu_height := tn_height t; eu_microThumbnail := micro; eu_filename := file_name file;
           eu_contentType := file_type file;
           eu_sizeBytes := Z.of_nat (length (file_bytes file)) |})).
  { intros up c. eexists. split; [reflexivity|]. split.
    - intros e c1 He. cbn. by rewrite He.
    - intros res s1. cbn. by destruct (tn_micro t). }
  intros up c. unfold put_all. destruct et as [e|]; cbn.
  - case_bool_decide as Eu; cbn; (eexists _, _; split; [reflexivity|]); (split; [reflexivity|]).
    + split; [cbn; rewrite lookup_insert_eq; apply puts_putFile|].
      split; [reflexivity|apply Hcomplete].
    + split; [cbn; rewrite lookup_insert_ne, lookup_insert_eq by lia; apply puts_putFile|].
      split; [reflexivity|]. split; [cbn; rewrite lookup_insert_eq; apply puts_putFile|].
      eexists. split; [reflexivity|]. split; [reflexivity|apply Hcomplete].
  - eexists _, _. split; [reflexivity|]. split; [reflexivity|].
    split; [cbn; rewrite lookup_insert_eq; apply puts_putFile|].
    split; [reflexivity|apply Hcomplete].
Qed.

(** what a download yields.  The server is asked for an address and the address for the
    bytes; an answer that is not a success, or that is a page instead of an object, is an
    error; the bytes of any other are passed on as they are; no store changes. *)
Theorem download_checked id thumb (c : apage) :
  let q := GetDownloadURL id thumb in
  ∃ k, Programs.exec (fetchEncryptedMedia devPhone parsePath digits id thumb) c =
      (Await (Wire (header q (st c)) q) k, c) ∧
  (∀ e c1, refused e = false → Programs.exec (k (Throw e)) c1 = (Raise e, c1)) ∧
  ∀ url c1, ∃ j, Programs.exec (k (Ok url)) c1 = (Await (Fetch (GetObject (normal url))) j, c1) ∧
    (∀ e c2, Programs.exec (j (Throw e)) c2 = (Raise e, c2)) ∧
    ∀ a c2, Programs.exec (j (Ok a)) c2 =
      (if http_ok a && negb (startsWith "text/html" (http_contentType a))
          && negb (startsWith "application/xml" (http_contentType a))
       then Ret (http_body a)
       else if http_ok a then Raise (Error "Unexpected content-type")
       else Raise (Error ("Failed to fetch media: " +:+ digits (http_status a))), c2).
Proof.
  intros q. eexists. split; [reflexivity|]. split.
  - intros e c1 He. cbn. rewrite He. reflexivity.
  - intros url c1. eexists. split; [reflexivity|]. split; [reflexivity|].
    intros a c2. cbn. destruct (http_ok a); cbn; [|reflexivity].
    destruct (startsWith "text/html" _); cbn; [reflexivity|].
    by destruct (startsWith "application/xml" _).
Qed.
End facts.

(** ** A concrete file *)

#[local] Existing Instance toy.
#[local] Existing Instance toy_laws.
#[local] Existing Instance demo_environment.

Definition demo_file : File :=
  {| file_name := "a.txt"; file_type := "text/plain"; file_bytes := [104; 105]%Z |}.
Definition demo_upload : UploadRandom :=
  {| rnd_key := key_of 4; rnd_iv := demo_nonce; rnd_thumb_iv := demo_nonce;
     rnd_nonce := demo_nonce |}.
Definition demo_sender : App :=
  app_with (initial_client (λ _ _, 0%Z) "me" false) (E2ee.keys demo_member) (invites demo_app).

Lemma attachment_roundtrip_witness :
  ∃ d w, decryptFile (key_of 4) d = Ok [104; 105]%Z ∧
    (unwrapFileKey no_server demo_channel w demo_member).1 = Ok (key_of 4).
Proof.
  destruct (attachment_roundtrip (λ k, k = demo_key) demo_keys_ok false (λ _, None)
    (λ _, Throw (Error "")) (λ _, None) (λ _, "") no_server demo_upload demo_file
    demo_channel 7 demo_key None demo_sender demo_member no_thumbnails)
    as (d & w & et & k & _ & Hd & _ & Hw & _); try reflexivity; try exact demo_member_holds.
  - split; [reflexivity..|apply cache_ok_empty|reflexivity|lia].
  - exists d, w. split; [exact Hd|exact Hw].
Defined.
