(* ===== verification/WireFormat.v ===== *)
(** * The text of a message ([ui/components/chat/composer/serialize.ts], [schema.ts])

    The composer's document has a paragraph per line; a paragraph holds text and atoms:
    mentions, custom emojis and links to channels.  It is sent, and kept as a draft, as
    one text in which the atoms are tokens; a text that is pasted, or a draft, is read
    back.  The text of what is sent is searched for mentions once more
    ([ui/components/chat/MessageComposer.tsx]). *)

From Stdlib Require Import Ascii.
From S2P Require Export JsString.

Open Scope meza_scope.

(** ** Documents *)

Inductive MentionType := UserMention | RoleMention | EveryoneMention.
#[export] Instance mention_type_dec : EqDecision MentionType.
Proof. solve_decision. Defined.

(** An inline node: text, or an atom with its attributes *)
Inductive Inline :=
  | Text (text : string)
  | Mention (id : string) (type : MentionType)
  | CustomEmoji (id name : string) (animated : bool)
  | ChannelLink (id : string).
#[export] Instance inline_dec : EqDecision Inline.
Proof. solve_decision. Defined.

Definition paragraph : Type := list Inline.
Definition document : Type := list paragraph.

(** The document of an empty composer *)
Definition empty_doc : document := [[]].

(** ** Characters *)

Definition code (a : ascii) : nat := nat_of_ascii a.
Definition is_digit (a : ascii) : bool := (48 <=? code a) && (code a <=? 57).
Definition is_upper (a : ascii) : bool := (65 <=? code a) && (code a <=? 90).
Definition is_lower (a : ascii) : bool := (97 <=? code a) && (code a <=? 122).

(** [[A-Z0-9]], [[a-z0-9_]], [[a-zA-Z0-9]] *)
Definition ulid_char (a : ascii) : bool := is_upper a || is_digit a.
Definition name_char (a : ascii) : bool := is_lower a || is_digit a || Ascii.eqb a "_".
Definition id_char (a : ascii) : bool := is_lower a || is_upper a || is_digit a.

Fixpoint all_chars (p : ascii → bool) (s : string) : bool :=
  match s with EmptyString => true | String a s => p a && all_chars p s end.

Definition ULID_RE (s : string) : bool := (String.length s =? 26) && all_chars ulid_char s.
Definition EMOJI_NAME_RE (s : string) : bool :=
  (2 <=? String.length s) && (String.length s <=? 32) && all_chars name_char s.
Definition EMOJI_ID_RE (s : string) : bool :=
  (1 <=? String.length s) && all_chars id_char s.

(** ** From a document to its text *)

Definition emoji_prefix (animated : bool) : string := if animated then "<a:" else "<:".

Definition serialize_node (n : Inline) : string :=
  match n with
  | Text t => t
  | Mention id EveryoneMention => "@everyone"
  | Mention id RoleMention => "<@&" +:+ id +:+ ">"
  | Mention id UserMention => "<@" +:+ id +:+ ">"
  | CustomEmoji id name animated => emoji_prefix animated +:+ name +:+ ":" +:+ id +:+ ">"
  | ChannelLink id => "<#" +:+ id +:+ ">"
  end.
Definition serialize_paragraph (p : paragraph) : string :=
  foldr (λ n s, serialize_node n +:+ s) "" p.

Definition newline : ascii := ascii_of_nat 10.

(** [l.join('\n')] and [s.split('\n')] *)
Fixpoint join_lines (l : list string) : string :=
  match l with
  | [] => ""
  | [t] => t
  | t :: l => t +:+ String newline (join_lines l)
  end.
Fixpoint split_lines (s : string) : list string :=
  match s with
  | EmptyString => [""]
  | String a s =>
      if Ascii.eqb a newline then "" :: split_lines s
      else match split_lines s with t :: ts => String a t :: ts | [] => [String a ""] end
  end.

Definition serializeDoc (d : document) : string := join_lines (serialize_paragraph <$> d).

Definition node_length (n : Inline) : nat :=
  match n with
  | Text t => String.length t
  | Mention id EveryoneMention => 9
  | Mention id RoleMention => 30
  | Mention id UserMention => 29
  | CustomEmoji id name animated =>
      String.length name + String.length id + (if animated then 5 else 4)
  | ChannelLink id => String.length id + 3
  end.
Definition wireFormatLength (d : document) : nat :=
  sum_list (node_length <$> concat d) + (length d - 1).

(** ** Matching a pattern against a text *)

(** The longest prefix of characters of a class, and the rest *)
Fixpoint span (p : ascii → bool) (s : string) : string * string :=
  match s with
  | EmptyString => (EmptyString, EmptyString)
  | String a s' => if p a then let '(t, r) := span p s' in (String a t, r) else (EmptyString, s)
  end.

(** What follows a given character, or a given prefix *)
Definition after_char (a : ascii) (s : string) : option string :=
  match s with String b s' => if Ascii.eqb b a then Some s' else None | _ => None end.
Fixpoint after_prefix (p s : string) : option string :=
  match p with
  | EmptyString => Some s
  | String a p => after_char a s ≫= after_prefix p
  end.

Section matching.
(** A pattern at the beginning of a text: what it captures, and the rest *)
Context {A : Type} (m : string → option (A * string)).

(** The next match: the text before it, what it captures, and the text after it *)
Fixpoint next_match (s : string) : option (string * A * string) :=
  match m s with
  | Some (t, rest) => Some ("", t, rest)
  | None =>
      match s with
      | EmptyString => None
      | String a s' => '(b, t, rest) ← next_match s'; Some (String a b, t, rest)
      end
  end.

(** The loop of [exec]: all matches with the text before each, and the text after the
    last.  Every match takes at least a character. *)
Fixpoint pieces (fuel : nat) (s : string) : list (string * A) * string :=
  match fuel with
  | O => ([], s)
  | S fuel =>
      match next_match s with
      | None => ([], s)
      | Some (b, t, rest) => let '(l, last) := pieces fuel rest in ((b, t) :: l, last)
      end
  end.
Definition all_matches (s : string) : list (string * A) * string :=
  pieces (S (String.length s)) s.
End matching.

(** ** From a text to its document *)

(** What [TOKEN_RE] captures *)
Inductive Token :=
  | CodeSpan (span : string)
  | RoleToken (id : string)
  | UserToken (id : string)
  | EveryoneToken
  | EmojiToken (anim : bool) (name id : string)
  | ChannelToken (id : string).

(** [`[^`]*`] *)
Definition backtick : ascii := ascii_of_nat 96.
Definition match_code (s : string) : option (Token * string) :=
  s ← after_char backtick s;
  let '(body, r) := span (λ a, negb (Ascii.eqb a backtick)) s in
  r ← after_char backtick r;
  Some (CodeSpan (String backtick (body +:+ String backtick "")), r).
(** [[A-Z0-9]{26}>] after a prefix *)
Definition match_ulid (p : string) (s : string) : option (string * string) :=
  s ← after_prefix p s;
  let '(id, r) := span ulid_char s in
  r ← after_char ">" r;
  if String.length id =? 26 then Some (id, r) else None.
Definition match_everyone (s : string) : option (Token * string) :=
  r ← after_prefix "@everyone" s; Some (EveryoneToken, r).
(** [<(a?):([a-z0-9_]{2,32}):([a-zA-Z0-9]+)>] *)
Definition match_emoji (s : string) : option (Token * string) :=
  s ← after_char "<" s;
  let '(anim, s) := match after_char "a" s with Some r => (true, r) | None => (false, s) end in
  s ← after_char ":" s;
  let '(name, s) := span name_char s in
  s ← after_char ":" s;
  let '(id, s) := span id_char s in
  s ← after_char ">" s;
  if (2 <=? String.length name) && (String.length name <=? 32) && (1 <=? String.length id)
  then Some (EmojiToken anim name id, s) else None.

Definition first_of {A} (l : list (option A)) : option A :=
  foldr (λ o acc, match o with Some x => Some x | None => acc end) None l.

(** The alternatives, in the order of the pattern *)
Definition TOKEN_RE (s : string) : option (Token * string) :=
  first_of
    [match_code s;
     '(id, r) ← match_ulid "<@&" s; Some (RoleToken id, r);
     '(id, r) ← match_ulid "<@" s; Some (UserToken id, r);
     match_everyone s; match_emoji s;
     '(id, r) ← match_ulid "<#" s; Some (ChannelToken id, r)].

(** [fullMatch] *)
Definition token_text (t : Token) : string :=
  match t with
  | CodeSpan c => c
  | RoleToken id => "<@&" +:+ id +:+ ">"
  | UserToken id => "<@" +:+ id +:+ ">"
  | EveryoneToken => "@everyone"
  | EmojiToken anim name id => emoji_prefix anim +:+ name +:+ ":" +:+ id +:+ ">"
  | ChannelToken id => "<#" +:+ id +:+ ">"
  end.

(** The node of a match; a malformed one stays text. *)
Definition token_node (t : Token) : Inline :=
  match t with
  | CodeSpan c => Text c
  | RoleToken id => if ULID_RE id then Mention id RoleMention else Text (token_text t)
  | UserToken id => if ULID_RE id then Mention id UserMention else Text (token_text t)
  | EveryoneToken => Mention "" EveryoneMention
  | EmojiToken anim name id =>
      if EMOJI_NAME_RE name && EMOJI_ID_RE id then CustomEmoji id name anim
      else Text (token_text t)
  | ChannelToken id => if ULID_RE id then ChannelLink id else Text (token_text t)
  end.

(** Text nodes are made of text that is not empty. *)
Definition text_nodes (s : string) : list Inline := if bool_decide (s = "") then [] else [Text s].

Definition line_nodes (line : string) : list Inline :=
  let '(l, last) := all_matches TOKEN_RE line in
  concat ((λ bt, text_nodes bt.1 ++ [token_node bt.2]) <$> l) ++ text_nodes last.
(** A paragraph is created of nodes; text nodes beside each other are joined. *)
Fixpoint create_paragraph (children : list Inline) : paragraph :=
  match children with
  | [] => []
  | Text t :: rest =>
      match create_paragraph rest with
      | Text u :: p => Text (t +:+ u) :: p
      | p => Text t :: p
      end
  | n :: rest => n :: create_paragraph rest
  end.
Definition deserialize_line (line : string) : paragraph := create_paragraph (line_nodes line).
Definition deserializeText (text : string) : document := deserialize_line <$> split_lines text.

(** ** The mentions of a text *)

(** [[...text.matchAll(..)].map((m) => m[1])] *)
Definition matched (p : string) (text : string) : list string :=
  snd <$> (all_matches (match_ulid p) text).1.
(** [[...new Set(l)]] *)
Definition unique (l : list string) : list string :=
  foldl (λ acc x, if bool_decide (x ∈ acc) then acc else acc ++ [x]) [] l.

Record Mentions := {
  mentionedUserIds : list string;
  mentionedRoleIds : list string;
  mentionEveryone : bool;
}.
Definition extractMentions (text : string) : Mentions :=
  {| mentionedUserIds := unique (matched "<@" text);
     mentionedRoleIds := unique (matched "<@&" text);
     mentionEveryone := includes "@everyone" text |}.

(** ** The length limit ([ComposerEditor.tsx]) *)

Definition MAX_LENGTH : nat := 4000.
Definition allowed (d : document) : bool := wireFormatLength d <=? MAX_LENGTH.

(** A node as the composer makes it: the identifiers of mentions have 26 characters. *)
Definition node_ok (n : Inline) : bool :=
  match n with
  | Text t => true
  | Mention _ EveryoneMention => true
  | Mention id _ => ULID_RE id
  | CustomEmoji id name _ => true
  | ChannelLink id => true
  end.
Definition doc_ok (d : document) : Prop := Forall (λ p, Forall (λ n, node_ok n = true) p) d.

(** ** What the composer sends is what it shows

    A text that is read into the composer is sent as the same text, the length that is
    limited is the length of what is sent, and the mentions found in it include the
    composer's. *)

From Stdlib Require Import Ascii.

Open Scope meza_scope.

#[local] Arguments String.append : simpl nomatch.
#[local] Notation len := String.length.

(** ** Strings *)

Lemma sapp_assoc a b c : (a +:+ b) +:+ c = a +:+ (b +:+ c).
Proof. induction a as [|x a IH]; [done|]. change (String x ((a +:+ b) +:+ c) = String x (a +:+ (b +:+ c))). by rewrite IH. Qed.
Lemma sapp_nil a : a +:+ "" = a.
Proof. induction a as [|x a IH]; [done|]. change (String x (a +:+ "") = String x a). by rewrite IH. Qed.
Lemma slen_app a b : len (a +:+ b) = len a + len b.
Proof. induction a as [|x a IH]; [done|]. change (S (len (a +:+ b)) = S (len a) + len b). by rewrite IH. Qed.
Lemma sapp_cons x a b : String x a +:+ b = String x (a +:+ b).
Proof. done. Qed.
Lemma sapp_nil_l b : "" +:+ b = b.
Proof. done. Qed.
Lemma all_chars_app p a b : all_chars p (a +:+ b) = all_chars p a && all_chars p b.
Proof. induction a as [|x a IH]; [done|]. cbn. by rewrite <-andb_assoc, <-IH. Qed.

(** Two ways to cut a text: the piece after the shorter cut reaches into what follows. *)
Lemma sapp_cut a b c d :
  a +:+ b = c +:+ d → len a ≤ len c → ∃ e, c = a +:+ e ∧ b = e +:+ d.
Proof.
  revert c. induction a as [|x a IH]; intros c E Hl; [by exists c|].
  destruct c as [|y c]; [cbn in Hl; lia|]. rewrite !sapp_cons in E. injection E as -> E.
  destruct (IH c E) as (e & -> & ->); [cbn in Hl; lia|]. by exists e.
Qed.
Lemma sapp_cut_inside a b x c d :
  a +:+ b = c +:+ String x d → len c < len a → all_chars (λ y, negb (Ascii.eqb y x)) a = false.
Proof.
  intros E Hl. symmetry in E. destruct (sapp_cut _ _ _ _ E) as (e & -> & Hd); [lia|].
  destruct e as [|y e]; [rewrite slen_app in Hl; cbn in Hl; lia|].
  rewrite sapp_cons in Hd. injection Hd as -> _.
  rewrite all_chars_app. cbn. rewrite Ascii.eqb_refl. cbn. apply andb_false_r.
Qed.

(** ** Patterns *)

Lemma span_spec p s t r : span p s = (t, r) → s = t +:+ r ∧ all_chars p t = true.
Proof.
  revert t r. induction s as [|a s IH]; intros t r; cbn; [by intros [= <- <-]|].
  destruct (p a) eqn:Ha; [|by intros [= <- <-]].
  destruct (span p s) as [t' r']. intros [= <- <-]. destruct (IH t' r' eq_refl) as [-> Ht].
  by cbn; rewrite Ha.
Qed.
Lemma span_app p t a r : all_chars p t = true → p a = false → span p (t +:+ String a r) = (t, String a r).
Proof.
  intros Ht Ha. induction t as [|b t IH]; [cbn; by rewrite Ha|].
  cbn in Ht. apply andb_true_iff in Ht as [Hb Ht]. rewrite sapp_cons. cbn. by rewrite Hb, IH.
Qed.
Lemma after_char_spec a s r : after_char a s = Some r ↔ s = String a r.
Proof.
  destruct s as [|b s]; cbn; [done|]. destruct (Ascii.eqb_spec b a) as [->|Hne].
  - split; [by intros [= ->]|by intros [= ->]].
  - split; [done|]. by intros [= -> ->].
Qed.
Lemma after_prefix_spec p s r : after_prefix p s = Some r ↔ s = p +:+ r.
Proof.
  revert s. induction p as [|a p IH]; intros s; cbn [after_prefix].
  - rewrite sapp_nil_l. split; [by intros [= ->]|by intros ->].
  - rewrite sapp_cons. destruct (after_char a s) as [s'|] eqn:E; cbn.
    + apply after_char_spec in E as ->. rewrite IH. split; [by intros ->|by intros [= ->]].
    + split; [done|]. intros ->. cbn in E. by rewrite Ascii.eqb_refl in E.
Qed.

Lemma next_match_hit {A} (m : string → option (A * string)) s b t r :
  next_match m s = Some (b, t, r) → ∃ s', m s' = Some (t, r).
Proof.
  revert b t r. induction s as [|a s IH]; intros b t r; cbn [next_match].
  - destruct (m "") as [[t' r']|] eqn:E; [|done]. intros [= <- <- <-]. by exists "".
  - destruct (m (String a s)) as [[t' r']|] eqn:E.
    + intros [= <- <- <-]. by exists (String a s).
    + destruct (next_match m s) as [[[b' t'] r']|]; [|done]. cbn. intros [= <- <- <-]. by eapply IH.
Qed.

Section matching.
Context {A : Type} (m : string → option (A * string)) (tx : A → string).
Hypothesis Hm : ∀ s t r, m s = Some (t, r) → s = tx t +:+ r ∧ tx t ≠ "".

Lemma next_match_spec s b t r : next_match m s = Some (b, t, r) → s = b +:+ tx t +:+ r.
Proof.
  revert b t r. induction s as [|a s IH]; intros b t r; cbn [next_match].
  - destruct (m "") as [[t' r']|] eqn:E; [|done]. intros [= <- <- <-]. apply Hm in E as [E _].
    by rewrite <-E.
  - destruct (m (String a s)) as [[t' r']|] eqn:E.
    + intros [= <- <- <-]. apply Hm in E as [E _]. by rewrite <-E.
    + destruct (next_match m s) as [[[b' t'] r']|]; [|done]. cbn. intros [= <- <- <-].
      by rewrite (IH b' t' r' eq_refl), sapp_cons.
Qed.
Lemma next_match_shorter s b t r : next_match m s = Some (b, t, r) → len r < len s.
Proof.
  intros E. rewrite (next_match_spec _ _ _ _ E), !slen_app.
  destruct (next_match_hit m _ _ _ _ E) as (s' & [_ Ht]%Hm). destruct (tx t); [done|cbn; lia].
Qed.
(** What the loop finds, put together again *)
Definition rebuilt (l : list (string * A)) (last : string) : string :=
  foldr (λ bt s, bt.1 +:+ tx bt.2 +:+ s) last l.
Lemma pieces_spec fuel s : let '(l, last) := pieces m fuel s in s = rebuilt l last.
Proof.
  revert s. induction fuel as [|fuel IH]; intros s; cbn [pieces]; [done|].
  destruct (next_match m s) as [[[b t] r]|] eqn:E; [|done].
  specialize (IH r). destruct (pieces m fuel r) as [l last]. cbn.
  rewrite (next_match_spec _ _ _ _ E). by f_equal; f_equal; rewrite IH at 1.
Qed.
(** The fuel of [all_matches] suffices: nothing is left to match. *)
Lemma pieces_complete fuel s :
  len s < fuel → next_match m (pieces m fuel s).2 = None.
Proof.
  revert s. induction fuel as [|fuel IH]; intros s Hl; [lia|]. cbn [pieces].
  destruct (next_match m s) as [[[b t] r]|] eqn:E; [|done].
  pose proof (next_match_shorter _ _ _ _ E). specialize (IH r).
  destruct (pieces m fuel r) as [l last]. apply IH. lia.
Qed.
(** A match is found where no other one begins earlier. *)
Lemma next_match_at pre x t r :
  m x = Some (t, r) →
  next_match m (pre +:+ x) = Some (pre, t, r) ∨
  ∃ b t' r', next_match m (pre +:+ x) = Some (b, t', r') ∧ len b < len pre.
Proof.
  intros Hx. induction pre as [|a pre IH].
  - left. rewrite sapp_nil_l. destruct x; cbn [next_match]; by rewrite Hx.
  - rewrite sapp_cons. cbn [next_match]. destruct (m (String a (pre +:+ x))) as [[t' r']|].
    + right. exists "", t', r'. split; [done|cbn; lia].
    + destruct IH as [->|(b & t' & r' & -> & Hl)]; [by left|].
      right. exists (String a b), t', r'. split; [done|cbn; lia].
Qed.
End matching.

(** ** Tokens *)

(** What a pattern can capture *)
Definition token_ok (t : Token) : bool :=
  match t with
  | CodeSpan c => 1 <=? len c
  | RoleToken id | UserToken id | ChannelToken id => ULID_RE id
  | EveryoneToken => true
  | EmojiToken _ name id => EMOJI_NAME_RE name && EMOJI_ID_RE id
  end.

Lemma match_ulid_spec p s id r :
  match_ulid p s = Some (id, r) ↔ s = p +:+ id +:+ ">" +:+ r ∧ ULID_RE id = true.
Proof.
  unfold match_ulid, ULID_RE. split.
  - destruct (after_prefix p s) as [s1|] eqn:E1; [|done]. apply after_prefix_spec in E1 as ->. cbn.
    destruct (span ulid_char s1) as [i s2] eqn:E2. apply span_spec in E2 as [-> Hc].
    destruct (after_char ">" s2) as [s3|] eqn:E3; [|done]. apply after_char_spec in E3 as ->. cbn.
    destruct (len i =? 26) eqn:E4; [|done]. intros [= <- <-]. by rewrite Hc, E4.
  - intros [-> [Hl Hc]%andb_true_iff].
    rewrite (proj2 (after_prefix_spec _ _ (id +:+ String ">" r)) eq_refl). cbn.
    rewrite span_app by done. cbn. by rewrite Hl.
Qed.

Lemma match_code_spec s t r :
  match_code s = Some (t, r) → s = token_text t +:+ r ∧ token_ok t = true.
Proof.
  unfold match_code. destruct (after_char backtick s) as [s1|] eqn:E1; [|done].
  apply after_char_spec in E1 as ->. cbn.
  destruct (span _ s1) as [b s2] eqn:E2. apply span_spec in E2 as [-> _].
  destruct (after_char backtick s2) as [s3|] eqn:E3; [|done]. apply after_char_spec in E3 as ->.
  cbn. intros [= <- <-]. cbn [token_text token_ok]. by rewrite sapp_cons, sapp_assoc.
Qed.
Lemma match_emoji_spec s t r :
  match_emoji s = Some (t, r) → s = token_text t +:+ r ∧ token_ok t = true.
Proof.
  unfold match_emoji. destruct (after_char "<" s) as [s1|] eqn:E1; [|done].
  apply after_char_spec in E1 as ->. cbn [option_bind mbind].
  assert (∃ anim s2, (match after_char "a" s1 with Some r => (true, r) | None => (false, s1) end)
    = (anim, s2) ∧ String "<" s1 = (if anim then "<a" else "<") +:+ s2) as (anim & s2 & -> & ->).
  { destruct (after_char "a" s1) as [s2|] eqn:E; [|by exists false, s1].
    apply after_char_spec in E as ->. by exists true, s2. }
  destruct (after_char ":" s2) as [s3|] eqn:E3; [|done]. apply after_char_spec in E3 as ->. cbn.
  destruct (span name_char s3) as [name s4] eqn:E4. apply span_spec in E4 as [-> Hn].
  destruct (after_char ":" s4) as [s5|] eqn:E5; [|done]. apply after_char_spec in E5 as ->. cbn.
  destruct (span id_char s5) as [id s6] eqn:E6. apply span_spec in E6 as [-> Hi].
  destruct (after_char ">" s6) as [s7|] eqn:E7; [|done]. apply after_char_spec in E7 as ->. cbn.
  destruct (_ && _) eqn:Eb; [|done]. intros [= <- <-]. cbn [token_text token_ok].
  unfold EMOJI_NAME_RE, EMOJI_ID_RE. rewrite Hn, Hi, !andb_true_r. split; [|exact Eb].
  rewrite !sapp_assoc. by destruct anim.
Qed.

Lemma TOKEN_RE_spec s t r : TOKEN_RE s = Some (t, r) → s = token_text t +:+ r ∧ token_ok t = true.
Proof.
  unfold TOKEN_RE, first_of, foldr.
  destruct (match_code s) as [[t1 r1]|] eqn:E1; [intros [= <- <-]; by apply match_code_spec|].
  destruct (match_ulid "<@&" s) as [[i2 r2]|] eqn:E2; cbn [mbind option_bind].
  { intros [= <- <-]. apply match_ulid_spec in E2 as [-> Hu]. split; [|done].
    cbn [token_text]. by rewrite !sapp_assoc. }
  destruct (match_ulid "<@" s) as [[i3 r3]|] eqn:E3; cbn [mbind option_bind].
  { intros [= <- <-]. apply match_ulid_spec in E3 as [-> Hu]. split; [|done].
    cbn [token_text]. by rewrite !sapp_assoc. }
  destruct (match_everyone s) as [[t4 r4]|] eqn:E4.
  { intros [= <- <-]. unfold match_everyone in E4.
    destruct (after_prefix _ s) as [r5|] eqn:E; [|done]. injection E4 as <- <-.
    by apply after_prefix_spec in E. }
  destruct (match_emoji s) as [[t5 r5]|] eqn:E5; [intros [= <- <-]; by apply match_emoji_spec|].
  destruct (match_ulid "<#" s) as [[i6 r6]|] eqn:E6; cbn [mbind option_bind]; [|done].
  intros [= <- <-]. apply match_ulid_spec in E6 as [-> Hu]. split; [|done].
  cbn [token_text]. by rewrite !sapp_assoc.
Qed.
Lemma TOKEN_RE_text s t r : TOKEN_RE s = Some (t, r) → s = token_text t +:+ r ∧ token_text t ≠ "".
Proof.
  intros [-> Ht]%TOKEN_RE_spec. split; [done|].
  destruct t as [c|?|?| |[] ? ?|?]; try done. by destruct c.
Qed.
Lemma match_ulid_text p s id r :
  match_ulid p s = Some (id, r) → s = (p +:+ id +:+ ">") +:+ r ∧ p +:+ id +:+ ">" ≠ "".
Proof.
  intros [-> _]%match_ulid_spec. rewrite !sapp_assoc. split; [done|].
  intros E%(f_equal len). rewrite !slen_app in E. cbn in E. lia.
Qed.

(** ** Nodes *)

Lemma token_node_text t : token_ok t = true →
  serialize_node (token_node t) = token_text t ∧ node_ok (token_node t) = true.
Proof. destruct t; cbn [token_ok token_node]; intros Ht; rewrite ?Ht; cbn; by rewrite ?Ht. Qed.

Lemma node_length_ok n : node_ok n = true → node_length n = len (serialize_node n).
Proof.
  destruct n as [t|id []|id name []|id]; cbn [node_ok node_length serialize_node]; try done;
    unfold ULID_RE; intros Hn; try apply andb_true_iff in Hn as [Hl%Nat.eqb_eq _];
    rewrite ?slen_app, ?Hl; cbn; lia.
Qed.
Lemma serialize_app p q :
  serialize_paragraph (p ++ q) = serialize_paragraph p +:+ serialize_paragraph q.
Proof.
  induction p as [|n p IH]; [done|]. unfold serialize_paragraph in *. cbn [app foldr].
  by rewrite IH, sapp_assoc.
Qed.
Lemma serialize_one n : serialize_paragraph [n] = serialize_node n.
Proof. apply sapp_nil. Qed.
Lemma serialize_text_nodes s : serialize_paragraph (text_nodes s) = s.
Proof. unfold text_nodes. case_bool_decide as E; cbn; [done|apply sapp_nil]. Qed.

Lemma create_text l : serialize_paragraph (create_paragraph l) = serialize_paragraph l.
Proof.
  induction l as [|n l IH]; [done|].
  change (serialize_paragraph (n :: l)) with (serialize_node n +:+ serialize_paragraph l).
  rewrite <-IH. cbn [create_paragraph]. destruct n as [t| | |]; try done.
  destruct (create_paragraph l) as [|[u| | |] p]; try done. apply sapp_assoc.
Qed.
Lemma create_ok l :
  Forall (λ n, node_ok n = true) l → Forall (λ n, node_ok n = true) (create_paragraph l).
Proof.
  induction 1 as [|n l Hn _ IH]; [done|]. cbn [create_paragraph].
  destruct n as [t| | |]; [|by constructor..].
  destruct (create_paragraph l) as [|[u| | |] p]; try (by constructor).
  apply Forall_cons in IH as [_ IH]. by constructor.
Qed.

Lemma line_nodes_text line :
  serialize_paragraph (line_nodes line) = line ∧
  Forall (λ n, node_ok n = true) (line_nodes line).
Proof.
  unfold line_nodes, all_matches.
  assert (∀ fuel s, let '(l, last) := pieces TOKEN_RE fuel s in
    Forall (λ bt, token_ok bt.2 = true) l) as Hok.
  { intros fuel. induction fuel as [|fuel IH]; intros s; cbn [pieces]; [done|].
    destruct (next_match TOKEN_RE s) as [[[b t] r]|] eqn:E; [|done].
    specialize (IH r). destruct (pieces TOKEN_RE fuel r) as [l last]. constructor; [|done].
    by destruct (next_match_hit _ _ _ _ _ E) as (s' & [_ Ht]%TOKEN_RE_spec). }
  pose proof (pieces_spec _ _ TOKEN_RE_text (S (len line)) line) as E.
  specialize (Hok (S (len line)) line).
  destruct (pieces TOKEN_RE (S (len line)) line) as [l last]. rewrite E. clear E.
  rewrite serialize_app, serialize_text_nodes.
  assert (∀ s, Forall (λ n, node_ok n = true) (text_nodes s)) as Ht.
  { intros s. unfold text_nodes. case_bool_decide; repeat constructor. }
  split; [|apply Forall_app_2; [|apply Ht]]; induction Hok as [|[b t] l Hbt Hl IH]; try done;
    cbn [fmap list_fmap concat fst snd rebuilt foldr];
    destruct (token_node_text t Hbt) as [Htext Hn].
  - rewrite !serialize_app, serialize_text_nodes, serialize_one, Htext, !sapp_assoc.
    by rewrite IH.
  - repeat apply Forall_app_2; [apply Ht|by repeat constructor|apply IH].
Qed.

Lemma deserialize_line_text line :
  serialize_paragraph (deserialize_line line) = line ∧
  Forall (λ n, node_ok n = true) (deserialize_line line).
Proof.
  destruct (line_nodes_text line) as [Ht Hn]. unfold deserialize_line.
  split; [by rewrite create_text|by apply create_ok].
Qed.

Lemma join_split s : join_lines (split_lines s) = s.
Proof.
  induction s as [|a s IH]; [done|]. cbn [split_lines].
  destruct (Ascii.eqb_spec a newline) as [->|Hne].
  - rewrite <-IH at 2. by destruct s as [|b s]; [|cbn; destruct (Ascii.eqb b newline);
      [|destruct (split_lines s)]].
  - destruct (split_lines s) as [|t ts]; [by rewrite <-IH|].
    rewrite <-IH. by destruct ts.
Qed.
Lemma split_lines_some s : split_lines s ≠ [].
Proof. destruct s as [|a s]; [done|]. cbn. destruct (Ascii.eqb a newline); [done|]. by destruct (split_lines s). Qed.

Lemma join_lines_length l : len (join_lines l) = sum_list (len <$> l) + (length l - 1).
Proof.
  induction l as [|t [|u l] IH]; [done|cbn; lia|].
  change (join_lines (t :: u :: l)) with (t +:+ String newline (join_lines (u :: l))).
  rewrite slen_app. cbn [String.length]. rewrite IH. cbn. lia.
Qed.
Lemma wire_length d : doc_ok d → wireFormatLength d = len (serializeDoc d).
Proof.
  intros Hd. unfold wireFormatLength, serializeDoc. rewrite join_lines_length, length_fmap.
  f_equal. induction Hd as [|p d Hp Hd IH]; [done|].
  cbn [concat fmap list_fmap sum_list]. rewrite fmap_app, sum_list_with_app.
  change (list_fmap _ _ ?f ?l) with (f <$> l). rewrite IH. f_equal. clear IH Hd.
  induction Hp as [|n p Hn Hp IH]; [done|]. cbn. rewrite slen_app, (node_length_ok n Hn).
  change (sum_list (node_length <$> p) = len (serialize_paragraph p)) in IH. f_equal. exact IH.
Qed.

(** ** Reading what was written *)

(** The tokens of atoms are found again. *)
Definition is_code (t : Token) : bool := match t with CodeSpan _ => true | _ => false end.
Lemma TOKEN_RE_complete t r :
  is_code t = false → token_ok t = true → TOKEN_RE (token_text t +:+ r) = Some (t, r).
Proof.
  intros Hc Ht. unfold TOKEN_RE, first_of, foldr.
  destruct t as [c|id|id| |anim name id|id]; cbn [token_ok token_text] in *; [done| | | | |].
  - rewrite !sapp_assoc. replace (match_code _) with (@None (Token * string)) by reflexivity.
    by rewrite (proj2 (match_ulid_spec "<@&" _ id r)).
  - replace (match_ulid "<@&" _) with (@None (string * string)).
    2: { destruct id as [|a id]; [done|]. unfold match_ulid.
      destruct (after_prefix _ _) as [q|] eqn:E; [|done]. apply after_prefix_spec in E.
      rewrite !sapp_assoc in E. cbn in E. injection E as -> _.
      by apply andb_true_iff in Ht as [_ Ht]. }
    rewrite !sapp_assoc. replace (match_code _) with (@None (Token * string)) by reflexivity.
    by rewrite (proj2 (match_ulid_spec "<@" _ id r)).
  - reflexivity.
  - assert (match_emoji ((emoji_prefix anim +:+ name +:+ ":" +:+ id +:+ ">") +:+ r) =
      Some (EmojiToken anim name id, r)) as ->.
    { unfold EMOJI_NAME_RE, EMOJI_ID_RE in Ht.
      apply andb_true_iff in Ht as [[Hl Hn]%andb_true_iff [Hi Hid]%andb_true_iff].
      rewrite !sapp_assoc.
      change (name +:+ ":" +:+ id +:+ ">" +:+ r) with (name +:+ String ":" (id +:+ String ">" r)).
      transitivity (
        let '(name', s) := span name_char (name +:+ String ":" (id +:+ String ">" r)) in
        s ← after_char ":" s;
        let '(id', s) := span id_char s in
        s ← after_char ">" s;
        if (2 <=? len name') && (len name' <=? 32) && (1 <=? len id')
        then Some (EmojiToken anim name' id', s) else None); [by destruct anim|].
      rewrite span_app by done. cbn -[span Nat.leb String.length].
      rewrite span_app by done. cbn -[Nat.leb String.length]. by rewrite Hl, Hi. }
    by destruct anim.
  - rewrite !sapp_assoc.
    replace (match_code _) with (@None (Token * string)) by reflexivity.
    replace (match_ulid "<@&" _) with (@None (string * string)) by reflexivity.
    replace (match_ulid "<@" _) with (@None (string * string)) by reflexivity.
    cbn [mbind option_bind].
    replace (match_everyone _) with (@None (Token * string)) by reflexivity.
    replace (match_emoji _) with (@None (Token * string)) by reflexivity.
    by rewrite (proj2 (match_ulid_spec "<#" _ id r)).
Qed.

(** A character that begins no token and ends no line *)
Definition ordinary (a : ascii) : bool :=
  negb (Ascii.eqb a backtick || Ascii.eqb a "<" || Ascii.eqb a "@" || Ascii.eqb a newline).
Lemma ordinary_quiet a s : ordinary a = true → TOKEN_RE (String a s) = None.
Proof.
  unfold ordinary. rewrite negb_true_iff, !orb_false_iff. intros [[[H1 H2] H3] _].
  assert (∀ p, after_prefix (String "<" p) (String a s) = None) as Hp
    by (intros p; cbn; by rewrite H2).
  unfold TOKEN_RE, match_code, match_ulid, match_everyone, match_emoji. rewrite !Hp.
  cbn. by rewrite H1, H2, H3.
Qed.
Lemma next_match_quiet b x : all_chars ordinary b = true →
  next_match TOKEN_RE (b +:+ x) = ('(c, t, r) ← next_match TOKEN_RE x; Some (b +:+ c, t, r)).
Proof.
  induction b as [|a b IH]; cbn [all_chars]; intros Hb.
  - rewrite sapp_nil_l. by destruct (next_match TOKEN_RE x) as [[[c t] r]|].
  - apply andb_true_iff in Hb as [Ha Hb]. rewrite sapp_cons. cbn [next_match].
    rewrite (ordinary_quiet _ _ Ha), (IH Hb).
    by destruct (next_match TOKEN_RE x) as [[[c t] r]|].
Qed.

(** The token of an atom *)
Definition atom_token (n : Inline) : option Token :=
  match n with
  | Text _ => None
  | Mention "" EveryoneMention => Some EveryoneToken
  | Mention _ EveryoneMention => None
  | Mention id RoleMention => Some (RoleToken id)
  | Mention id UserMention => Some (UserToken id)
  | CustomEmoji id name animated => Some (EmojiToken animated name id)
  | ChannelLink id => Some (ChannelToken id)
  end.
(** A paragraph of atoms and ordinary text *)
Fixpoint plain (p : paragraph) : bool :=
  match p with
  | [] => true
  | Text t :: p =>
      negb (bool_decide (t = "")) && all_chars ordinary t &&
      match p with Text _ :: _ => false | _ => true end && plain p
  | n :: p => match atom_token n with Some t => token_ok t | None => false end && plain p
  end.

Lemma atom_token_spec n t : atom_token n = Some t → token_ok t = true →
  is_code t = false ∧ serialize_node n = token_text t ∧ token_node t = n.
Proof.
  destruct n as [|[|a id] []|id name a|id]; cbn [atom_token]; intros [= <-] Ht;
    cbn [token_node token_ok] in *; rewrite ?Ht; done.
Qed.

(** The nodes of a line, given fuel *)
Definition nodes (fuel : nat) (s : string) : paragraph :=
  let '(l, last) := pieces TOKEN_RE fuel s in
  concat ((λ bt, text_nodes bt.1 ++ [token_node bt.2]) <$> l) ++ text_nodes last.
Lemma nodes_step fuel b t r :
  all_chars ordinary b = true → is_code t = false → token_ok t = true →
  nodes (S fuel) (b +:+ token_text t +:+ r) = text_nodes b ++ token_node t :: nodes fuel r.
Proof.
  intros Hb Hc Ht. unfold nodes. cbn [pieces].
  assert (next_match TOKEN_RE (token_text t +:+ r) = Some ("", t, r)) as E.
  { destruct (token_text t +:+ r) eqn:Es; cbn [next_match];
      by rewrite <-Es, TOKEN_RE_complete. }
  rewrite (next_match_quiet _ _ Hb), E. cbn [mbind option_bind]. rewrite sapp_nil.
  destruct (pieces TOKEN_RE fuel r) as [l last]. cbn [fmap list_fmap concat fst snd].
  by rewrite <-!app_assoc.
Qed.
Lemma nodes_end fuel b : all_chars ordinary b = true → nodes fuel b = text_nodes b.
Proof.
  intros Hb. unfold nodes. destruct fuel as [|fuel]; [done|]. cbn [pieces].
  rewrite <-(sapp_nil b), (next_match_quiet _ _ Hb). cbn. by rewrite sapp_nil.
Qed.
Definition begins_with_text (p : paragraph) : bool :=
  match p with Text _ :: _ => true | _ => false end.
Lemma plain_nodes p : ∀ b fuel,
  all_chars ordinary b = true → (begins_with_text p = true → b = "") → plain p = true →
  len (b +:+ serialize_paragraph p) < fuel →
  nodes fuel (b +:+ serialize_paragraph p) = text_nodes b ++ p.
Proof.
  induction p as [|n p IH]; intros b fuel Hb Htext Hp Hf.
  { cbn [serialize_paragraph foldr]. by rewrite sapp_nil, nodes_end, app_nil_r. }
  change (serialize_paragraph (n :: p)) with (serialize_node n +:+ serialize_paragraph p) in *.
  destruct (decide (begins_with_text (n :: p) = true)) as [Ht|Ht].
  - destruct n as [t| | |]; try done. rewrite (Htext Ht) in *. cbn [plain] in Hp.
    apply andb_true_iff in Hp as [[[Hne Ho]%andb_true_iff Hadj]%andb_true_iff Hp].
    apply negb_true_iff, bool_decide_eq_false in Hne.
    rewrite sapp_nil_l in *. cbn [serialize_node] in *. rewrite IH; [|done| |done|done].
    + unfold text_nodes. by rewrite (bool_decide_eq_false_2 _ Hne).
    + by destruct p as [|[]].
  - assert (match atom_token n with Some t => token_ok t | None => false end && plain p = true)
      as [Hn Hq]%andb_true_iff by (by destruct n).
    destruct (atom_token n) as [t|] eqn:Et; [|done].
    destruct (atom_token_spec n t Et Hn) as (Hc & Hs & Htn). rewrite Hs in *.
    destruct fuel as [|fuel]; [lia|]. rewrite nodes_step by done.
    rewrite <-(sapp_nil_l (serialize_paragraph p)), IH; [by rewrite Htn|done|done|done|].
    rewrite sapp_nil_l. rewrite !slen_app in Hf. assert (token_text t ≠ "") as Hne.
    { by apply (TOKEN_RE_text (token_text t +:+ "") t ""), TOKEN_RE_complete. }
    destruct (token_text t); [done|cbn in Hf; lia].
Qed.

Lemma create_plain p : plain p = true → create_paragraph p = p.
Proof.
  induction p as [|n p IH]; [done|]. destruct n as [t| | |]; cbn [plain create_paragraph];
    intros [Hn Hp]%andb_true_iff; rewrite (IH Hp); try done.
  apply andb_true_iff in Hn as [_ Hadj]. by destruct p as [|[]].
Qed.
Lemma plain_line p : plain p = true → deserialize_line (serialize_paragraph p) = p.
Proof.
  intros Hp. unfold deserialize_line. rewrite <-(create_plain p Hp) at 2. f_equal.
  apply (plain_nodes p "" (S (len (serialize_paragraph p)))); [done|done|done|].
  rewrite sapp_nil_l. lia.
Qed.

Definition no_newline (s : string) : bool := all_chars (λ a, negb (Ascii.eqb a newline)) s.
Lemma split_join_lines l :
  l ≠ [] → Forall (λ t, no_newline t = true) l → split_lines (join_lines l) = l.
Proof.
  assert (∀ t, no_newline t = true → split_lines t = [t]) as Hone.
  { intros t. induction t as [|a t IH]; [done|]. cbn.
    intros [Ha%negb_true_iff Ht]%andb_true_iff. by rewrite Ha, (IH Ht). }
  intros Hne Hl. induction Hl as [|t l Ht Hl IH]; [done|].
  destruct l as [|u l]; [by apply Hone|].
  change (join_lines (t :: u :: l)) with (t +:+ String newline (join_lines (u :: l))).
  specialize (IH ltac:(done)). clear Hne Hl. induction t as [|a t IHt].
  - rewrite sapp_nil_l. cbn [split_lines]. by rewrite Ascii.eqb_refl, IH.
  - cbn in Ht. apply andb_true_iff in Ht as [Ha%negb_true_iff Ht]. rewrite sapp_cons.
    cbn [split_lines]. by rewrite Ha, (IHt Ht).
Qed.
Lemma all_chars_impl (p q : ascii → bool) s :
  (∀ a, p a = true → q a = true) → all_chars p s = true → all_chars q s = true.
Proof.
  intros Hpq. induction s as [|a s IH]; [done|]. cbn.
  intros [Ha Hs]%andb_true_iff. by rewrite (Hpq a Ha), IH.
Qed.
Lemma class_no_newline p s : p newline = false → all_chars p s = true → no_newline s = true.
Proof.
  intros Hp. apply all_chars_impl. intros a Ha. destruct (Ascii.eqb_spec a newline) as [->|]; [|done].
  by rewrite Hp in Ha.
Qed.
Lemma plain_no_newline p : plain p = true → no_newline (serialize_paragraph p) = true.
Proof.
  induction p as [|n p IH]; [done|]. intros Hp.
  change (serialize_paragraph (n :: p)) with (serialize_node n +:+ serialize_paragraph p).
  unfold no_newline in *. rewrite all_chars_app, andb_true_iff.
  destruct n as [t|id ty|id name an|id].
  - cbn [plain] in Hp.
    apply andb_true_iff in Hp as [[[_ Ho]%andb_true_iff _]%andb_true_iff Hp]. split; [|by apply IH].
    revert Ho. apply all_chars_impl. intros a. unfold ordinary.
    rewrite negb_true_iff, !orb_false_iff. intros [_ ->]. done.
  - apply andb_true_iff in Hp as [Hn Hp]. split; [|by apply IH].
    destruct ty; cbn [serialize_node].
    3: done.
    all: rewrite !all_chars_app, !andb_true_iff; split_and!; try done;
      destruct id as [|a id]; cbn [atom_token] in Hn; [done|];
      apply andb_true_iff in Hn as [_ Hc]; by eapply class_no_newline, Hc.
  - apply andb_true_iff in Hp as [Hn Hp]. split; [|by apply IH].
    cbn [atom_token token_ok] in Hn. unfold EMOJI_NAME_RE, EMOJI_ID_RE in Hn.
    apply andb_true_iff in Hn as [[_ Hn]%andb_true_iff [_ Hi]%andb_true_iff].
    cbn [serialize_node]. rewrite !all_chars_app, !andb_true_iff. split_and!;
      [by destruct an|by eapply class_no_newline, Hn|done|by eapply class_no_newline, Hi|done].
  - apply andb_true_iff in Hp as [[_ Hc]%andb_true_iff Hp]. split; [|by apply IH].
    cbn [serialize_node]. rewrite !all_chars_app, !andb_true_iff. split_and!;
      [done|by eapply class_no_newline, Hc|done].
Qed.

Lemma serialize_deserialize text : serializeDoc (deserializeText text) = text.
Proof.
  unfold serializeDoc, deserializeText. rewrite <-list_fmap_compose.
  rewrite <-(join_split text) at 2. f_equal. rewrite <-(list_fmap_id (split_lines text)) at 2.
  apply list_fmap_ext. intros _ line _. apply deserialize_line_text.
Qed.
Lemma deserialize_ok text : doc_ok (deserializeText text).
Proof. apply Forall_fmap, Forall_true. intros line. apply deserialize_line_text. Qed.
Lemma deserialize_length text : wireFormatLength (deserializeText text) = len text.
Proof. by rewrite wire_length, serialize_deserialize by apply deserialize_ok. Qed.
Lemma plain_doc_reread d :
  d ≠ [] → Forall (λ p, plain p = true) d → deserializeText (serializeDoc d) = d.
Proof.
  intros Hne Hd. unfold serializeDoc, deserializeText. rewrite split_join_lines.
  - rewrite <-list_fmap_compose. clear Hne. induction Hd as [|p d Hp Hd IH]; [done|].
    cbn. rewrite plain_line by done. by f_equal.
  - by destruct d.
  - apply Forall_fmap. eapply Forall_impl; [exact Hd|]. apply plain_no_newline.
Qed.

(** C27: the composer keeps what it is given.  A text that is read in, a draft or one that
    is pasted, is sent as the same text, whatever it is; the length that the limit of 4000
    counts is the length of what is sent; and reading it again gives the same document.  A
    document of atoms and of text without backticks, angle brackets, at signs and line
    breaks comes back from its own text as it was. *)
Theorem composer_roundtrip :
  (∀ text, let d := deserializeText text in
    serializeDoc d = text ∧ wireFormatLength d = len text ∧
    (allowed d = true ↔ len text ≤ 4000) ∧ deserializeText (serializeDoc d) = d) ∧
  (∀ d, d ≠ [] → Forall (λ p, plain p = true) d →
    deserializeText (serializeDoc d) = d ∧ wireFormatLength d = len (serializeDoc d)).
Proof.
  split.
  - intros text d. subst d. rewrite serialize_deserialize, deserialize_length.
    split; [done|]. split; [done|]. split; [|done].
    unfold allowed. rewrite deserialize_length. apply Nat.leb_le.
  - intros d Hne Hd. pose proof (plain_doc_reread d Hne Hd) as E. split; [done|].
    rewrite <-E at 1. apply deserialize_length.
Qed.

Definition demo_id : string := "01ARZ3NDEKTSV4RRFFQ69G5FAV".
Definition demo_doc : document :=
  [[Text "hi "; Mention demo_id UserMention; Mention "" EveryoneMention]; [];
   [CustomEmoji "Ab9" "foo_1" true; Text " and "; ChannelLink demo_id]].
Lemma composer_roundtrip_witness :
  deserializeText (serializeDoc demo_doc) = demo_doc ∧
  wireFormatLength demo_doc = len (serializeDoc demo_doc).
Proof. apply composer_roundtrip; [done|]. repeat constructor. Defined.

(** ** Mentions *)

(** A pattern that begins with a character it does not contain otherwise finds all of its
    matches. *)
Section finds.
Context {A : Type} (m : string → option (A * string)) (tx : A → string).
Hypothesis Hm : ∀ s t r, m s = Some (t, r) → s = tx t +:+ r ∧ tx t ≠ "".
Context (c : ascii).
Hypothesis Hc : ∀ t, ∃ y, tx t = String c y ∧
  ((∃ s r, m s = Some (t, r)) → all_chars (λ a, negb (Ascii.eqb a c)) y = true).

Lemma skip_earlier b t' r' pre z s' r0 :
  m s' = Some (t', r0) → b +:+ tx t' +:+ r' = pre +:+ String c z → len b < len pre →
  ∃ pre', r' = pre' +:+ String c z.
Proof.
  intros Hs E Hl. destruct (Hc t') as (y & Hy & Hfree).
  specialize (Hfree (ex_intro _ s' (ex_intro _ r0 Hs))).
  destruct (sapp_cut b _ pre _ E) as (e & -> & E2); [lia|].
  rewrite slen_app in Hl. destruct e as [|a e]; [cbn in Hl; lia|].
  rewrite Hy, !sapp_cons in E2. injection E2 as -> E2.
  destruct (decide (len y ≤ len e)) as [Hye|Hye].
  - destruct (sapp_cut _ _ _ _ E2 Hye) as (f & -> & ->). by exists f.
  - rewrite (sapp_cut_inside _ _ _ _ _ E2) in Hfree; [done|lia].
Qed.

Lemma pieces_find fuel s pre t r z :
  len s < fuel → s = pre +:+ String c z → m (String c z) = Some (t, r) →
  t ∈ (pieces m fuel s).1.*2.
Proof.
  revert s pre. induction fuel as [|fuel IH]; intros s pre Hf -> Ht; [lia|]. cbn [pieces].
  destruct (next_match_at m pre _ _ _ Ht) as [E|(b & t' & r' & E & Hl)]; rewrite E.
  - destruct (pieces m fuel r) as [l last]. cbn. by left.
  - pose proof (next_match_shorter m tx Hm _ _ _ _ E) as Hlt.
    destruct (next_match_hit m _ _ _ _ E) as (s' & Hs').
    destruct (skip_earlier b t' r' pre z s' r' Hs') as (pre' & Hr');
      [by rewrite <-(next_match_spec m tx Hm _ _ _ _ E)|done|].
    specialize (IH r' pre' ltac:(lia) Hr' Ht).
    destruct (pieces m fuel r') as [l last]. cbn in *. by right.
Qed.
Lemma pieces_sound fuel s t :
  t ∈ (pieces m fuel s).1.*2 →
  ∃ a b, s = a +:+ tx t +:+ b ∧ ∃ s' r, m s' = Some (t, r).
Proof.
  revert s. induction fuel as [|fuel IH]; intros s; cbn [pieces]; [by intros ?%not_elem_of_nil|].
  destruct (next_match m s) as [[[b t'] r']|] eqn:E; [|by intros ?%not_elem_of_nil].
  specialize (IH r'). destruct (pieces m fuel r') as [l last]. cbn in *.
  rewrite (next_match_spec m tx Hm _ _ _ _ E). intros [->|Hin]%elem_of_cons.
  - exists b, r'. split; [done|]. destruct (next_match_hit m _ _ _ _ E) as (s' & Hs'). by exists s', r'.
  - destruct (IH Hin) as (a & z & -> & Hs'). exists (b +:+ tx t' +:+ a), z.
    by rewrite !sapp_assoc.
Qed.
End finds.

Lemma unique_spec l : NoDup (unique l) ∧ ∀ x, x ∈ unique l ↔ x ∈ l.
Proof.
  unfold unique. assert (∀ l acc : list string, NoDup acc →
    let r := foldl (λ (acc : list string) x, if bool_decide (x ∈ acc) then acc else acc ++ [x]) acc l in
    NoDup r ∧ ∀ x, x ∈ r ↔ x ∈ acc ∨ x ∈ l) as Hgen.
  { clear l. induction l as [|y l IH]; intros acc Hacc; cbn [foldl].
    - split; [done|]. intros x. rewrite elem_of_nil. tauto.
    - case_bool_decide as Hy.
      + destruct (IH acc Hacc) as [Hn Hx]. split; [done|]. intros x. rewrite Hx, elem_of_cons.
        split; [tauto|]. intros [?|[->|?]]; tauto.
      + destruct (IH (acc ++ [y])) as [Hn Hx].
        { apply NoDup_app. split; [done|]. split; [|apply NoDup_singleton].
          intros x Hx ->%list_elem_of_singleton. done. }
        split; [done|]. intros x. rewrite Hx, elem_of_app, list_elem_of_singleton, elem_of_cons. tauto. }
  destruct (Hgen l [] (@NoDup_nil_2 _)) as [Hn Hx]. split; [done|]. intros x.
  rewrite Hx, elem_of_nil. tauto.
Qed.

(** A word of a text stays in it when it is trimmed. *)
Lemma trim_end_keeps x b : word x → ∃ b', trim_end (x +:+ b) = x +:+ b'.
Proof.
  intros [Hne Hx]. induction x as [|a x IH]; [done|]. cbn in Hx.
  apply andb_true_iff in Hx as [Ha%negb_true_iff Hx]. rewrite sapp_cons. cbn [trim_end].
  destruct x as [|a' x].
  - exists (trim_end b). rewrite sapp_nil_l. destruct (trim_end b); [by rewrite Ha|done].
  - destruct (IH ltac:(done) Hx) as [b' ->]. by exists b'.
Qed.
Lemma trim_keeps a x b : word x → ∃ a' b', trim (a +:+ x +:+ b) = a' +:+ x +:+ b'.
Proof.
  intros Hx. unfold trim.
  assert (∃ a', trim_start (a +:+ x +:+ b) = a' +:+ x +:+ b) as (a' & ->).
  { induction a as [|c a IH].
    - exists "". rewrite !sapp_nil_l. destruct Hx as [Hne Hx].
      destruct x as [|c x]; [done|]. cbn in Hx. apply andb_true_iff in Hx as [Hc%negb_true_iff _].
      rewrite sapp_cons. cbn [trim_start]. by rewrite Hc.
    - rewrite sapp_cons. cbn [trim_start]. destruct (is_space c); [done|]. by exists (String c a). }
  exists a'. destruct (trim_end_keeps x b Hx) as (b' & E). exists b'.
  induction a' as [|c a' IH]; [by rewrite !sapp_nil_l|].
  rewrite !sapp_cons. cbn [trim_end]. rewrite IH.
  destruct (a' +:+ x +:+ b') eqn:E'; [|done].
  apply (f_equal len) in E'. rewrite !slen_app in E'. destruct Hx as [Hne _].
  destruct x; [done|cbn in E'; lia].
Qed.
Lemma startsWith_prefix p r : startsWith p (p +:+ r) = true.
Proof. induction p as [|a p IH]; [done|]. rewrite sapp_cons. cbn. by rewrite Ascii.eqb_refl. Qed.
Lemma includes_inside a t b : includes t (a +:+ t +:+ b) = true.
Proof.
  induction a as [|c a IH].
  - rewrite sapp_nil_l. destruct (t +:+ b) eqn:E; cbn [includes]; by rewrite <-E, startsWith_prefix.
  - rewrite sapp_cons. cbn [includes]. rewrite IH. apply orb_true_r.
Qed.

(** What a node of a document becomes is part of its text. *)
Lemma join_lines_inside l1 t l2 : ∃ a b, join_lines (l1 ++ t :: l2) = a +:+ t +:+ b.
Proof.
  induction l1 as [|u l1 (a & b & IH)].
  - exists "". destruct l2 as [|v l2]; [exists ""; by rewrite sapp_nil|].
    by exists (String newline (join_lines (v :: l2))).
  - exists (u +:+ String newline a), b. rewrite sapp_assoc, sapp_cons, <-IH. by destruct l1.
Qed.
Lemma serialized_inside d p n :
  p ∈ d → n ∈ p → ∃ a b, serializeDoc d = a +:+ serialize_node n +:+ b.
Proof.
  intros Hp Hn. apply list_elem_of_split in Hp as (d1 & d2 & ->), Hn as (p1 & p2 & ->).
  unfold serializeDoc. rewrite fmap_app, fmap_cons.
  destruct (join_lines_inside (serialize_paragraph <$> d1) (serialize_paragraph (p1 ++ n :: p2))
    (serialize_paragraph <$> d2)) as (a & b & ->).
  rewrite serialize_app.
  change (serialize_paragraph (n :: p2)) with (serialize_node n +:+ serialize_paragraph p2).
  exists (a +:+ serialize_paragraph p1), (serialize_paragraph p2 +:+ b). by rewrite !sapp_assoc.
Qed.

Lemma no_space_app a b : no_space (a +:+ b) = no_space a && no_space b.
Proof. induction a as [|c a IH]; [done|]. cbn. by rewrite <-andb_assoc, <-IH. Qed.
Lemma ulid_no_space id : ULID_RE id = true → no_space id = true.
Proof.
  intros [_ Hc]%andb_true_iff. induction id as [|a id IH]; [done|]. cbn in *.
  apply andb_true_iff in Hc as [Ha Hc]. rewrite IH by done. rewrite andb_true_r, negb_true_iff.
  unfold ulid_char, is_upper, is_digit, code in Ha. unfold is_space.
  apply orb_true_iff in Ha as [[?%Nat.leb_le ?%Nat.leb_le]%andb_true_iff|
    [?%Nat.leb_le ?%Nat.leb_le]%andb_true_iff];
    rewrite !orb_false_iff, andb_false_iff, !Nat.leb_gt, !Nat.eqb_neq; lia.
Qed.

Definition mention_text (p id : string) : string := p +:+ id +:+ ">".
Lemma mention_word p id : no_space p = true → ULID_RE id = true → word (mention_text p id).
Proof.
  intros Hp Hid. unfold mention_text. split.
  - intros E%(f_equal len). rewrite !slen_app in E. cbn in E. lia.
  - by rewrite !no_space_app, Hp, ulid_no_space.
Qed.

(** The identifiers found in a text are those that stand in it as tokens. *)
Lemma matched_spec y text id :
  let p := String "<" y in
  all_chars (λ a, negb (Ascii.eqb a "<")) y = true → ULID_RE id = true →
  id ∈ matched p text ↔ ∃ a b, text = a +:+ mention_text p id +:+ b.
Proof.
  intros p Hy Hid. unfold matched, all_matches, mention_text.
  assert (∀ t, ∃ z, p +:+ t +:+ ">" = String "<" z ∧
    ((∃ s r, match_ulid p s = Some (t, r)) → all_chars (λ a, negb (Ascii.eqb a "<")) z = true)) as Hz.
  { intros t. exists (y +:+ t +:+ ">"). split; [done|]. intros (s & r & [_ Ht]%match_ulid_spec).
    rewrite !all_chars_app, Hy, andb_true_l, andb_true_r.
    apply andb_true_iff in Ht as [_ Ht]. revert Ht. apply all_chars_impl. intros a Ha.
    by destruct (Ascii.eqb_spec a "<") as [->|]. }
  split.
  - intros Hin. destruct (pieces_sound _ _ (match_ulid_text p) _ _ _ Hin) as (a & b & E & _).
    by exists a, b.
  - intros (a & b & E). 
    eapply (pieces_find (match_ulid p) _ (match_ulid_text p) "<" Hz _ _ a id b
      (y +:+ id +:+ ">" +:+ b)); [lia| |].
    + rewrite E. by rewrite !sapp_assoc.
    + by apply match_ulid_spec.
Qed.

(** whoever the composer mentions is notified.  In the text that is sent, trimmed, the
    identifiers of all users and all roles that the document mentions are found, each once,
    and everyone if it mentions everyone; and nothing is found that does not stand in the
    text as a mention. *)
Theorem mentions_notified d :
  doc_ok d →
  let text := trim (serializeDoc d) in
  let found := extractMentions text in
  NoDup (mentionedUserIds found) ∧ NoDup (mentionedRoleIds found) ∧
  (∀ p n, p ∈ d → n ∈ p →
    match n with
    | Mention id UserMention => id ∈ mentionedUserIds found
    | Mention id RoleMention => id ∈ mentionedRoleIds found
    | Mention _ EveryoneMention => mentionEveryone found = true
    | _ => True
    end) ∧
  (∀ id, id ∈ mentionedUserIds found → ∃ a b, text = a +:+ "<@" +:+ id +:+ ">" +:+ b) ∧
  (∀ id, id ∈ mentionedRoleIds found → ∃ a b, text = a +:+ "<@&" +:+ id +:+ ">" +:+ b).
Proof.
  intros Hd text found. subst found. cbn [extractMentions mentionedUserIds mentionedRoleIds mentionEveryone].
  split; [apply unique_spec|]. split; [apply unique_spec|].
  assert (∀ p id, id ∈ unique (matched p text) →
    ∃ a b, text = a +:+ p +:+ id +:+ ">" +:+ b) as Hsound.
  { intros p id Hin. apply (proj2 (unique_spec (matched p text))) in Hin.
    destruct (pieces_sound _ _ (match_ulid_text p) _ _ _ Hin) as (a & b & E & _).
    exists a, b. by rewrite E, !sapp_assoc. }
  split; [|split; [apply (Hsound "<@")|apply (Hsound "<@&")]].
  assert (∀ p n x, p ∈ d → n ∈ p → serialize_node n = x → word x →
    ∃ a b, text = a +:+ x +:+ b) as Hkeep.
  { intros p n x Hp Hn <- Hx. destruct (serialized_inside d p n Hp Hn) as (a & b & E).
    subst text. rewrite E. by apply trim_keeps. }
  intros p n Hp Hn. destruct n as [|id []| |]; try done.
  3: { destruct (Hkeep p _ "@everyone" Hp Hn eq_refl) as (a & b & ->); [by split|].
       apply includes_inside. }
  all: assert (ULID_RE id = true) as Hid
      by (unfold doc_ok in Hd; rewrite Forall_forall in Hd; specialize (Hd p Hp);
          rewrite Forall_forall in Hd; exact (Hd _ Hn));
    apply (proj2 (unique_spec _)), matched_spec; [done|done|];
    (eapply (Hkeep p _ (mention_text _ id) Hp Hn); [reflexivity|by apply mention_word]).
Qed.
Lemma mentions_notified_witness :
  demo_id ∈ mentionedUserIds (extractMentions (trim (serializeDoc demo_doc))).
Proof.
  assert (doc_ok demo_doc) as Hd by (repeat constructor).
  apply (mentions_notified demo_doc Hd) with (p := [Text "hi "; Mention demo_id UserMention;
    Mention "" EveryoneMention]) (n := Mention demo_id UserMention); set_solver.
Defined.

(** Code is text for the composer and for whoever reads the message, but the mentions in
    it are found and notified all the same. *)
Lemma code_notifies :
  let text := "`<@" +:+ demo_id +:+ ">` and `@everyone`" in
  Forall (Forall (λ n, match n with Text _ => True | _ => False end)) (deserializeText text) ∧
  extractMentions text =
    {| mentionedUserIds := [demo_id]; mentionedRoleIds := []; mentionEveryone := true |}.
Proof. split; [repeat constructor|reflexivity]. Qed.
