(* ===== verification/Composer.v ===== *)
(** * Sending from the composer ([ui/components/chat/MessageComposer.tsx],
    [composer/ComposerEditor.tsx], [ui/commands])

    The editor holds a document, and a draft of it while it is not shown.  Enter hands its
    text to the composer: a slash command is carried out, anything else is sent with the
    pending files: they are uploaded, the text is encrypted and the message is sent.  The
    editor is emptied as soon as the composer has taken the text. *)

From Stdlib Require Import Ascii.
From S2P Require Export Media WireFormat.
From S2P Require Import E2ee Base64.
From S2P Require TilingStore TilingTree.

Open Scope meza_scope.

(** ** Slash commands ([commands/registry.ts], [commands/builtin]) *)

Inductive Command :=
  (** a silent command: carried out, nothing is sent *)
  | Gif
  | Split (direction : TilingTree.SplitDirection)
  (** a command that sends a text made of its arguments *)
  | Transform (execute : string → string).

Definition SHRUG : string := "¯\\\_(ツ)\_/¯".
Definition shrug (args : string) : string :=
  let text := trim args in if bool_decide (text = "") then SHRUG else text +:+ " " +:+ SHRUG.
Definition getCommand (name : string) : option Command :=
  if bool_decide (name = "gif") then Some Gif
  else if bool_decide (name = "horizontal") then Some (Split TilingTree.vertical)
  else if bool_decide (name = "vertical") then Some (Split TilingTree.horizontal)
  else if bool_decide (name = "shrug") then Some (Transform shrug) else None.

(** The match of the command pattern: a slash, a name without white space, white space,
    and the rest of the line, in which the dot matches no line terminator. *)
Definition line_end (a : ascii) : bool := (code a =? 10) || (code a =? 13).
Definition match_command (text : string) : option (string * string) :=
  s ← after_char "/" text;
  let '(name, rest) := span (λ a, negb (is_space a)) s in
  if bool_decide (name = "") then None
  else Some (name, (span (λ a, negb (line_end a)) (trim_start rest)).1).

(** ** The files of a message *)

Definition MAX_FILES : nat := 10.
Definition MAX_FILE_SIZE : nat := 50 * 1024 * 1024.

Record PendingFile := {
  pf_id : string;
  pf_file : File;
  pf_error : option string;
  pf_isSpoiler : bool;
}.

(** Files are taken while there is room; those that are too large are passed over. *)
Fixpoint take_files (room : nat) (files : list (string * File)) : list PendingFile :=
  match files, room with
  | [], _ | _, O => []
  | (id, file) :: files, S room' =>
      if MAX_FILE_SIZE <? length (file_bytes file) then take_files room files
      else {| pf_id := id; pf_file := file; pf_error := None; pf_isSpoiler := false |}
             :: take_files room' files
  end.
Definition addFiles (files : list (string * File)) (l : list PendingFile) : list PendingFile :=
  l ++ take_files (MAX_FILES - length l) files.
Definition removeFile (id : string) (l : list PendingFile) : list PendingFile :=
  filter (λ f, pf_id f ≠ id) l.
Definition on_file (id : string) (f : PendingFile → PendingFile) (l : list PendingFile)
    : list PendingFile := (λ x, if bool_decide (pf_id x = id) then f x else x) <$> l.
Definition toggleSpoiler (id : string) : list PendingFile → list PendingFile :=
  on_file id (λ x, {| pf_id := pf_id x; pf_file := pf_file x; pf_error := pf_error x;
                      pf_isSpoiler := negb (pf_isSpoiler x) |}).
Definition mark_failed (id : string) : list PendingFile → list PendingFile :=
  on_file id (λ x, {| pf_id := pf_id x; pf_file := pf_file x;
                      pf_error := Some "Upload failed"; pf_isSpoiler := pf_isSpoiler x |}).

(** ** Sending *)

Section sending.
Context `{Crypto} `{Environment}.
Context (devPhone : bool) (parsePath : string → option (string * string)).
Context (imageThumbnail : File → result failure Thumbnails)
        (videoThumbnail : File → option Thumbnails) (digits : Z → string).

(** The loop over the files: what is uploaded, up to the first that fails *)
Fixpoint upload_all (channelId : string) (files : list (UploadRandom * PendingFile))
    (done : list EncryptedUploadResult) : aprog (list EncryptedUploadResult * option string) :=
  match files with
  | [] => Ret (done, None)
  | (rnd, pf) :: files =>
      let* r := attempt (uploadEncryptedFile devPhone parsePath imageThumbnail videoThumbnail
        digits rnd (pf_file pf) channelId (Some (pf_isSpoiler pf))) in
      match r with
      | Ok res => upload_all channelId files (done ++ [res])
      | Throw _ => Ret (done, Some (pf_id pf))
      end
  end.

Definition uploaded_file (r : EncryptedUploadResult) : UploadedFile :=
  {| uf_attachmentId := eu_attachmentId r; uf_filename := eu_filename r;
     uf_contentType := eu_contentType r; uf_sizeBytes := eu_sizeBytes r; uf_url := "";
     uf_hasThumbnail := negb (bool_decide (eu_microThumbnail r = []));
     uf_width := eu_width r; uf_height := eu_height r;
     uf_microThumbnail := eu_microThumbnail r |}.
(** [new Map(encryptedResults.map(..))] *)
Definition attachment_meta (l : list EncryptedUploadResult) : list (string * AttachmentInput) :=
  foldl (λ m r, obj_set (eu_attachmentId r)
    {| microThumb := eu_microThumbnail r; filename := eu_filename r;
       contentType := eu_contentType r |} m) [] l.

(** [useChannelEncryption]'s [encrypt]: nothing when the channel has no key yet or the
    encryption fails.  The newest version is a cached one, so no key is fetched. *)
Definition encrypt (usable : bool) (nonce : bytes) (channelId : string) (plaintext : bytes)
    : aprog (option EncryptedMessage) :=
  if usable then
    Look (λ s,
      let r := (encryptMessage no_fetch nonce channelId plaintext (crypto_state s)).1 in
      await Tick ;; Ret (match r with Ok e => Some e | Throw _ => None end))
  else Ret None.

Definition some_list (l : list string) : option (list string) :=
  if bool_decide (l = []) then None else Some l.
Definition send_params (channelId text : string) (reply : option string) (plaintext : bytes)
    (e : EncryptedMessage) (results : list EncryptedUploadResult) : SendParams :=
  let m := extractMentions text in
  {| sp_channelId := channelId; sp_encryptedContent := data e;
     sp_keyVersion := Some (E2ee.keyVersion e); sp_nonce := "";
     sp_plaintext := Some plaintext;
     sp_uploadedFiles :=
       if bool_decide (results = []) then None else Some (uploaded_file <$> results);
     sp_replyToId := reply;
     sp_mentionedUserIds := some_list (mentionedUserIds m);
     sp_mentionedRoleIds := some_list (mentionedRoleIds m);
     sp_mentionEveryone := if mentionEveryone m then Some true else None |}.

(** What a send comes to: the file whose upload failed, and whether the message was sent *)
Record Outcome := { failed_file : option string; sent : bool }.

(** What a send was started with *)
Record Flight := {
  fl_text : string;
  fl_files : list PendingFile;
  fl_reply : option string;
}.

(** After the uploads *)
Definition send_content (usable : bool) (nonce : bytes) (channelId : string) (f : Flight)
    (up : list EncryptedUploadResult * option string) : aprog Outcome :=
  let text := fl_text f in
  let unsent := {| failed_file := up.2; sent := false |} in
  if negb (bool_decide (up.2 = None)) && bool_decide (up.1 = []) then Ret unsent
  else
    let plaintext := buildMessageContent stringify btoa text (attachment_meta up.1) in
    let* encrypted := encrypt usable nonce channelId plaintext in
    match encrypted with
    | None => Ret unsent
    | Some e =>
        catch
          (let* _ := sendMessage (send_params channelId text (fl_reply f) plaintext e up.1) in
           (match fl_reply f with
            | Some _ => act C_messages (Messages.SetReplyingTo channelId None)
            | None => Ret tt
            end) ;;
           Ret {| failed_file := up.2; sent := true |})
          (λ _, Ret unsent)
    end.

Definition handleSend (usable : bool) (rnds : list UploadRandom) (nonce : bytes)
    (channelId : string) (f : Flight) : aprog Outcome :=
  let* up := upload_all channelId (zip rnds (fl_files f)) [] in
  send_content usable nonce channelId f up.
End sending.

(** ** The composer of a channel *)

Record Composer := {
  doc : document;
  (** the draft of the channel, kept beyond the component *)
  draft : option string;
  pendingFiles : list PendingFile;
  (** the send that is in flight: [sendingRef.current] is [flight ≠ None] *)
  flight : option Flight;
  gifPickerQuery : option string;
  windows : TilingStore.TilingState;
}.

Definition on_doc f (s : Composer) : Composer :=
  {| doc := f (doc s); draft := draft s; pendingFiles := pendingFiles s; flight := flight s;
     gifPickerQuery := gifPickerQuery s; windows := windows s |}.
Definition set_draft d (s : Composer) : Composer :=
  {| doc := doc s; draft := d; pendingFiles := pendingFiles s; flight := flight s;
     gifPickerQuery := gifPickerQuery s; windows := windows s |}.
Definition on_files f (s : Composer) : Composer :=
  {| doc := doc s; draft := draft s; pendingFiles := f (pendingFiles s); flight := flight s;
     gifPickerQuery := gifPickerQuery s; windows := windows s |}.
Definition set_flight x (s : Composer) : Composer :=
  {| doc := doc s; draft := draft s; pendingFiles := pendingFiles s; flight := x;
     gifPickerQuery := gifPickerQuery s; windows := windows s |}.
Definition set_gif x (s : Composer) : Composer :=
  {| doc := doc s; draft := draft s; pendingFiles := pendingFiles s; flight := flight s;
     gifPickerQuery := x; windows := windows s |}.
Definition on_windows f (s : Composer) : Composer :=
  {| doc := doc s; draft := draft s; pendingFiles := pendingFiles s; flight := flight s;
     gifPickerQuery := gifPickerQuery s; windows := f (windows s) |}.

(** [editorRef.current?.clear()] *)
Definition clear : Composer → Composer := on_doc (λ _, empty_doc).

(** The part of [handleSend] before its first await: the text is sent or dropped. *)
Definition send_text (text : string) (reply : option string) (s : Composer) : Composer :=
  let text := trim text in
  if (bool_decide (text = "") && bool_decide (pendingFiles s = [])) ||
     negb (bool_decide (flight s = None))
  then s
  else set_flight (Some {| fl_text := text; fl_files := pendingFiles s; fl_reply := reply |}) s.

Definition command_of (text : string) : option (Command * string) :=
  '(name, args) ← match_command text; c ← getCommand name; Some (c, args).
Definition start_send (simpleMode : bool) (newId : string) (reply : option string)
    (text : string) (s : Composer) : Composer :=
  match command_of text with
  | Some (Gif, args) => clear (set_gif (Some args) s)
  | Some (Split d, _) =>
      clear (on_windows (TilingStore.splitFocused simpleMode newId d None false) s)
  | Some (Transform f, args) => send_text (f args) reply s
  | None => send_text text reply s
  end.

(** [handleSendRef.current]: what it waits for is no promise, so the document is emptied
    before anything else happens. *)
Definition editor_send (simpleMode : bool) (newId : string) (reply : option string)
    (s : Composer) : Composer :=
  let wireText := serializeDoc (doc s) in
  if bool_decide (trim wireText = "") && bool_decide (pendingFiles s = []) then s
  else set_draft None (clear (start_send simpleMode newId reply wireText s)).

(** [handleSend] goes on after it is settled. *)
Definition after_send (o : Outcome) (s : Composer) : Composer :=
  let s := match failed_file o with Some id => on_files (mark_failed id) s | None => s end in
  let s := if sent o then on_files (λ _, []) s else s in
  set_flight None s.

(** The component goes away, and comes back *)
Definition unmount (s : Composer) : Composer :=
  let wireText := serializeDoc (doc s) in
  set_draft (if bool_decide (trim wireText = "") then None else Some wireText) s.
Definition mount (s : Composer) : Composer :=
  let text := or_default "" (draft s) in
  {| doc := if bool_decide (text = "") then empty_doc else deserializeText text;
     draft := draft s; pendingFiles := []; flight := None; gifPickerQuery := None;
     windows := windows s |}.

Inductive composer_event :=
  (** a change of the document, which the filter may refuse *)
  | Edits (d : document)
  | Enter (simpleMode : bool) (newId : string) (reply : option string)
  | Settles (o : Outcome)
  | AddFiles (files : list (string * File))
  | RemoveFile (id : string)
  | ToggleSpoiler (id : string)
  | Remounts.

Definition composer_step (e : composer_event) (s : Composer) : Composer :=
  match e with
  | Edits d => if allowed d then on_doc (λ _, d) s else s
  | Enter simple id reply => editor_send simple id reply s
  | Settles o => match flight s with Some _ => after_send o s | None => s end
  | AddFiles l => on_files (addFiles l) s
  | RemoveFile id => on_files (removeFile id) s
  | ToggleSpoiler id => on_files (toggleSpoiler id) s
  | Remounts => mount (unmount s)
  end.

(** The documents the editor makes have mentions of 26 characters, as all identifiers. *)
Definition editable (e : composer_event) : Prop :=
  match e with Edits d => doc_ok d | _ => True end.

#[export] Instance composer_store : Store Composer composer_event :=
  {| initial := {| doc := empty_doc; draft := None; pendingFiles := []; flight := None;
       gifPickerQuery := None; windows := TilingStore.initialState |};
     exec := composer_step; admissible := λ e _, editable e |}.

(** ** What becomes of what is typed

    The composer's own state (its files, its one send at a time, its drafts), what Enter
    does, and the message that is sent, as those read it who have the channel's key. *)

From Stdlib Require Import Ascii.
From S2P Require Export WireFormat.
From S2P Require Import E2ee Base64 Media ApiCalls Json.

Open Scope meza_scope.

#[local] Notation len := String.length.

(** ** The composer's state *)

Definition small (f : PendingFile) : Prop := length (file_bytes (pf_file f)) ≤ MAX_FILE_SIZE.
Record composer_wf (s : Composer) : Prop := {
  wf_doc : doc_ok (doc s) ∧ wireFormatLength (doc s) ≤ MAX_LENGTH;
  wf_draft : ∀ t, draft s = Some t → trim t ≠ "" ∧ len t ≤ MAX_LENGTH;
  wf_files : length (pendingFiles s) ≤ MAX_FILES ∧ Forall small (pendingFiles s);
  wf_flight : ∀ f, flight s = Some f →
    (fl_text f ≠ "" ∨ fl_files f ≠ []) ∧ trim (fl_text f) = fl_text f ∧
    length (fl_files f) ≤ MAX_FILES ∧ Forall small (fl_files f);
}.
Lemma empty_doc_ok : doc_ok empty_doc ∧ wireFormatLength empty_doc ≤ MAX_LENGTH.
Proof. split; [by repeat constructor|]. vm_compute. lia. Qed.

Lemma take_files_spec room files :
  length (take_files room files) ≤ room ∧ Forall small (take_files room files).
Proof.
  revert room. induction files as [|[id file] files IH]; intros room.
  { destruct room; split; cbn; (lia || constructor). }
  destruct room as [|room]; [by split|]. cbn [take_files].
  destruct (_ <? _) eqn:E; [apply IH|]. apply Nat.ltb_ge in E.
  destruct (IH room). split; [cbn; lia|by constructor].
Qed.
Lemma on_file_spec id f l :
  (∀ x, pf_file (f x) = pf_file x) →
  length (on_file id f l) = length l ∧ (Forall small l → Forall small (on_file id f l)).
Proof.
  intros Hf. unfold on_file. split; [apply length_fmap|]. intros Hl. apply Forall_fmap.
  eapply Forall_impl; [exact Hl|]. intros x Hx. cbn. unfold small.
  case_bool_decide; [by rewrite Hf|done].
Qed.

Lemma trim_idem t : trim (trim t) = trim t.
Proof.
  unfold trim. assert (∀ x, starts_with_space x = false → trim_start x = x) as Hs.
  { intros [|a x]; [done|]. cbn. by intros ->. }
  rewrite (Hs (trim_end _)); [apply trim_end_idem|]. apply trim_end_head, trim_start_head.
Qed.

(** A change that leaves all but the files alone *)
Lemma wf_on_files f s : composer_wf s →
  (length (f (pendingFiles s)) ≤ MAX_FILES ∧ Forall small (f (pendingFiles s))) →
  composer_wf (on_files f s).
Proof. by intros [] ?; constructor. Qed.
Lemma wf_send_text t reply s : composer_wf s → composer_wf (send_text t reply s).
Proof.
  intros Hs. unfold send_text. destruct (_ || _) eqn:E; [done|].
  destruct Hs as [Hd Hr Hf Hfl]. constructor; [exact Hd|exact Hr|exact Hf|].
  intros f [= <-]. cbn. split; [|split; [apply trim_idem|exact Hf]].
  apply orb_false_iff in E as [E _].
  apply andb_false_iff in E as [E|E]; apply bool_decide_eq_false in E; tauto.
Qed.
Lemma wf_clear s : composer_wf s → composer_wf (clear s).
Proof. intros []. constructor; try done. exact empty_doc_ok. Qed.
Lemma wf_start_send simple id reply t s :
  composer_wf s → composer_wf (start_send simple id reply t s).
Proof.
  intros Hs. unfold start_send. destruct (command_of t) as [[[|d|f] args]|].
  - apply wf_clear. by destruct Hs.
  - apply wf_clear. by destruct Hs.
  - by apply wf_send_text.
  - by apply wf_send_text.
Qed.

Lemma composer_step_wf e s : editable e → composer_wf s → composer_wf (composer_step e s).
Proof.
  intros He Hs. destruct e as [d|simple id reply|o|l|id|id|]; cbn [composer_step].
  - destruct (allowed d) eqn:Ha; [|done]. apply Nat.leb_le in Ha. by destruct Hs.
  - unfold editor_send. destruct (_ && _); [done|].
    destruct (wf_clear _ (wf_start_send simple id reply (serializeDoc (doc s)) s Hs)). by constructor.
  - destruct (flight s) as [f|] eqn:Ef; [|done]. unfold after_send.
    assert (∀ s', composer_wf s' → composer_wf (set_flight None s')) as Hset by (by intros s' []; constructor).
    apply Hset. clear Hset.
    assert (composer_wf (match failed_file o with
      Some id => on_files (mark_failed id) s | None => s end)) as Hs'.
    { destruct (failed_file o) as [id|]; [|done]. apply wf_on_files; [done|].
      destruct (on_file_spec id (λ x, {| pf_id := pf_id x; pf_file := pf_file x;
        pf_error := Some "Upload failed"; pf_isSpoiler := pf_isSpoiler x |}) (pendingFiles s))
        as [Hl Hf]; [done|].
      unfold mark_failed. rewrite Hl. destruct (wf_files s Hs). by split; [|apply Hf]. }
    destruct (sent o); [|done]. apply wf_on_files; [done|]. split; [cbn; lia|constructor].
  - apply wf_on_files; [done|]. unfold addFiles. destruct (wf_files s Hs) as [Hl Hf].
    destruct (take_files_spec (MAX_FILES - length (pendingFiles s)) l) as [Ht Hsm].
    rewrite length_app. split; [lia|by apply Forall_app].
  - apply wf_on_files; [done|]. destruct (wf_files s Hs) as [Hl Hf]. unfold removeFile. split.
    + etrans; [apply length_filter|done].
    + apply Forall_forall. intros x [_ Hx]%list_elem_of_filter.
      rewrite Forall_forall in Hf. by apply Hf.
  - apply wf_on_files; [done|]. destruct (wf_files s Hs) as [Hl Hf]. unfold toggleSpoiler.
    destruct (on_file_spec id (λ x, {| pf_id := pf_id x; pf_file := pf_file x;
      pf_error := pf_error x; pf_isSpoiler := negb (pf_isSpoiler x) |}) (pendingFiles s))
      as [-> Hs']; [done|]. by split; [|apply Hs'].
  - destruct Hs as [[Hd Hlen] _ _ _]. rewrite wire_length in Hlen by done.
    unfold mount, unmount, set_draft. cbn [draft windows].
    destruct (bool_decide (trim (serializeDoc (doc s)) = "")) eqn:Ht; cbn [or_default].
    + constructor; cbn; [exact empty_doc_ok|done|split; [lia|constructor]|done].
    + apply bool_decide_eq_false in Ht.
      constructor; cbn [doc draft pendingFiles flight];
        [|by intros t [= <-]|split; [cbn; lia|constructor]|done].
      case_bool_decide as Ee; [exact empty_doc_ok|].
      split; [apply deserialize_ok|]. by rewrite deserialize_length.
Qed.

(** C29: whatever is typed, attached, sent, refused and left, in any order: the document is
    never longer than 4000 characters of wire text, a message has at most ten files of at
    most fifty megabytes, a draft is not blank, and what is being sent is one message that
    is trimmed and not empty. *)
Theorem composer_bounded (s : Composer) : reachable s → composer_wf s.
Proof.
  revert s. apply reachable_invariant; [|intros e s He; by apply composer_step_wf].
  constructor; cbn; [exact empty_doc_ok|done|split; [lia|constructor]|done].
Qed.
Lemma composer_bounded_witness :
  let s := run [Edits demo_doc; Enter false "p" None; Edits demo_doc; Remounts] initial in
  composer_wf s ∧ doc s = demo_doc.
Proof.
  intros s. split; [apply composer_bounded, reachable_run|by vm_compute].
  repeat split; repeat constructor.
Defined.

(** C28: what Enter does.  Nothing when there is nothing to send.  Otherwise the document and
    the draft are gone whatever happens next, and: a silent command is carried out and
    nothing is sent; any other text is sent, trimmed, with the pending files and the
    message it replies to, a command's text in place of the command; but while another send
    is in flight it is not sent and is kept nowhere. *)
Theorem enter_outcome simple id reply s :
  let text := serializeDoc (doc s) in
  let s' := composer_step (Enter simple id reply) s in
  let sends t :=
    if bool_decide (trim t = "") && bool_decide (pendingFiles s = []) then None
    else Some {| fl_text := trim t; fl_files := pendingFiles s; fl_reply := reply |} in
  if bool_decide (trim text = "") && bool_decide (pendingFiles s = []) then s' = s
  else
    doc s' = empty_doc ∧ draft s' = None ∧ pendingFiles s' = pendingFiles s ∧
    (∀ f, flight s = Some f → flight s' = Some f ∧
      (match command_of text with Some (Gif, _) | Some (Split _, _) => True
       | _ => s' = set_draft None (clear s) end)) ∧
    (flight s = None →
      match command_of text with
      | Some (Gif, args) => flight s' = None ∧ gifPickerQuery s' = Some args ∧
          windows s' = windows s
      | Some (Split d, _) => flight s' = None ∧
          windows s' = TilingStore.splitFocused simple id d None false (windows s)
      | Some (Transform f, args) => flight s' = sends (f args)
      | None => flight s' = sends text
      end).
Proof.
  intros text s' sends. subst s'. cbn [composer_step]. unfold editor_send. fold text.
  destruct (_ && _); [done|]. unfold start_send.
  assert (∀ t, let s' := send_text t reply s in
    pendingFiles s' = pendingFiles s ∧ windows s' = windows s ∧
    (∀ f, flight s = Some f → s' = s) ∧ (flight s = None → flight s' = sends t)) as Hsend.
  { intros t. unfold send_text, sends. cbn zeta. destruct (flight s) as [f|] eqn:Ef.
    - rewrite orb_true_r. naive_solver.
    - rewrite orb_false_r. by destruct (_ && _). }
  destruct (command_of text) as [[[|d|g] args]|].
  - by split_and!.
  - by split_and!.
  - destruct (Hsend (g args)) as (Hp & Hw & Hbusy & Hfree). split_and!; try done.
    intros f Hf. rewrite (Hbusy f Hf). done.
  - destruct (Hsend text) as (Hp & Hw & Hbusy & Hfree). split_and!; try done.
    intros f Hf. rewrite (Hbusy f Hf). done.
Qed.

(** Two messages in quick succession: the second is sent by nobody. *)
Lemma second_message_lost simple id reply s f :
  flight s = Some f → command_of (serializeDoc (doc s)) = None →
  trim (serializeDoc (doc s)) ≠ "" →
  composer_step (Enter simple id reply) s = set_draft None (clear s).
Proof.
  intros Hf Hc Ht. cbn [composer_step]. unfold editor_send, start_send. rewrite Hc.
  rewrite (bool_decide_eq_false_2 _ Ht). cbn [andb]. unfold send_text. by rewrite Hf, orb_true_r.
Qed.

(** a draft survives.  When the composer goes away and comes back, it shows a document
    that is sent as the same text, the very same document if its text has no special
    characters; a blank one comes back empty. *)
Theorem draft_survives s :
  let text := serializeDoc (doc s) in
  let s' := composer_step Remounts s in
  if bool_decide (trim text = "") then doc s' = empty_doc ∧ draft s' = None
  else serializeDoc (doc s') = text ∧ draft s' = Some text ∧
    (doc s ≠ [] → Forall (λ p, plain p = true) (doc s) → doc s' = doc s).
Proof.
  intros text s'. subst s'. cbn [composer_step]. unfold mount, unmount, set_draft.
  cbn [draft doc]. fold text. destruct (bool_decide (trim text = "")) eqn:Et; cbn [or_default]; [done|].
  apply bool_decide_eq_false in Et. rewrite bool_decide_eq_false_2; [|by intros E; rewrite E in Et].
  split; [apply serialize_deserialize|]. split; [done|]. apply plain_doc_reread.
Qed.

(** ** The message that is sent *)

Lemma some_list_spec l : or_default [] (some_list l) = l.
Proof. unfold some_list. by case_bool_decide. Qed.

Section sent.
Context `{Crypto} `{!CryptoLaws} `{Environment}.
Context (K : bytes → Prop) (HK : keys_ok K).
Context (getKeyEnvelopes : nat → string → result string (list (Z * bytes))).

Lemma attachment_meta_nodup l : NoDup ((attachment_meta l).*1).
Proof.
  unfold attachment_meta.
  assert (∀ m : list (string * AttachmentInput), NoDup (m.*1) → NoDup ((foldl (λ m r, obj_set (eu_attachmentId r)
    {| microThumb := eu_microThumbnail r; filename := eu_filename r;
       contentType := eu_contentType r |} m) m l).*1)) as Hgen; [|by apply Hgen, NoDup_nil_2].
  induction l as [|r l IH]; intros m Hm; [done|]. cbn [foldl]. apply IH. by apply obj_set_ok.
Qed.

Lemma encrypt_local nonce ch content s v k :
  getLatestKeyVersion ch (E2ee.keys s) = Some v → cached (E2ee.keys s) ch v = Some k →
  encryptMessage no_fetch nonce ch content s = encryptMessage getKeyEnvelopes nonce ch content s.
Proof.
  intros Hl Hc. unfold encryptMessage. rewrite Hl. by rewrite !(getChannelKey_cached _ ch v k).
Qed.

(** C3: what is sent is read.  Once the files are uploaded (or some of them, before one
    failed), the request that is made carries bytes which every member who has the channel
    key decrypts, by the sender's signature, to a content whose text is the text that was
    sent and whose attachment data are those of the uploaded files; it names those files,
    the message that is replied to and whoever the text mentions.  Its answer ends the send;
    its failure, like a missing key, leaves the message unsent. *)
Theorem sent_text_read nonce ch v k bob id f up s :
  getLatestKeyVersion ch (E2ee.keys (crypto_state s)) = Some v →
  holds_key K (crypto_state s) ch v k → holds_key K bob ch v k →
  E2ee.identity (crypto_state s) = Some id → publicKey id = ed_public (secretKey id) →
  length nonce = 12 → (up.2 = None ∨ up.1 ≠ []) →
  let meta := attachment_meta up.1 in
  parse (stringify (content_json btoa (fl_text f) meta)) = Ok (content_json btoa (fl_text f) meta) →
  ∃ m next_step, let q := SendMessage m in
    to_request (send_content true nonce ch f up) s =
      (Await (Wire (header q s) q) next_step, s) ∧
    (∃ content a,
      (decryptMessage getKeyEnvelopes ch (og_keyVersion m) (og_encryptedContent m)
        (publicKey id) bob).1 = Ok content ∧
      parseMessageContent parse content = Ok {| text := Some (JStr (fl_text f)); attachmentMeta := a |} ∧
      ∀ i, json_get i a = attachment_json btoa <$> obj_get i meta) ∧
    og_channelId m = ch ∧ og_attachmentIds m = eu_attachmentId <$> up.1 ∧
    og_replyToId m = fl_reply f ∧
    og_mentionedUserIds m = mentionedUserIds (extractMentions (fl_text f)) ∧
    og_mentionedRoleIds m = mentionedRoleIds (extractMentions (fl_text f)) ∧
    og_mentionEveryone m = mentionEveryone (extractMentions (fl_text f)) ∧
    (∀ a c, (Programs.exec (next_step (Ok a)) c).1 = Ret {| failed_file := up.2; sent := true |}) ∧
    (∀ e c, refused e = false → (Programs.exec (next_step (Throw e)) c).1 =
      Ret {| failed_file := up.2; sent := false |}) ∧
    to_request (send_content false nonce ch f up) s =
      (Ret {| failed_file := up.2; sent := false |}, s).
Proof.
  intros Hl Ha Hb Hid Hpk Hn Hup meta Hparse.
  set (plaintext := buildMessageContent stringify btoa (fl_text f) meta).
  destruct (encrypt_decrypt getKeyEnvelopes K HK (crypto_state s) bob ch v k nonce plaintext id)
    as (e & He & Hv & Hd); [done..|].
  rewrite <-(encrypt_local _ _ _ _ v k Hl (hk_cached _ _ _ _ _ Ha)) in He.
  assert (negb (bool_decide (up.2 = None)) && bool_decide (up.1 = []) = false) as Hgo.
  { destruct Hup as [->|Hne]; [done|]. by rewrite (bool_decide_eq_false_2 _ Hne), andb_false_r. }
  exists (outgoing (send_params ch (fl_text f) (fl_reply f) plaintext e up.1)). eexists. cbn zeta.
  split.
  { unfold send_content. rewrite Hgo. cbv zeta. fold meta plaintext.
    etrans; [apply (to_request_bind _ _ _ (Some e) s)|].
    { unfold Composer.encrypt. cbn [to_request]. rewrite to_request_tick, He. done. }
    reflexivity. }
  split.
  { destruct (content_roundtrip stringify parse btoa (fl_text f) meta [] (attachment_meta_nodup _) Hparse)
      as ((a & Hc & _ & Hmeta) & _).
    exists plaintext, a. split; [|by split].
    unfold outgoing, send_params. cbn [og_keyVersion og_encryptedContent sp_keyVersion
      sp_encryptedContent or_default]. exact Hd. }
  split; [done|]. split.
  { unfold outgoing, send_params. cbn. destruct (decide (up.1 = [])) as [E|E].
    - by rewrite (bool_decide_eq_true_2 _ E), E.
    - rewrite (bool_decide_eq_false_2 _ E). cbn. by rewrite <-list_fmap_compose. }
  split; [done|].
  split; [apply some_list_spec|]. split; [apply some_list_spec|].
  split; [unfold outgoing, send_params; cbn [og_mentionEveryone sp_mentionEveryone];
    by destruct (mentionEveryone _)|].
  split.
  { intros a c. cbn. by destruct (fl_reply f). }
  split.
  { intros err c Herr. cbn. rewrite Herr. done. }
  unfold send_content. by rewrite Hgo.
Qed.
End sent.

(** When the second of two files fails, the message is sent with the first alone, and both
    files are gone from the composer, the failed one with its error. *)
Lemma partial_upload_lost s f id :
  flight s = Some f → pendingFiles (composer_step
    (Settles {| failed_file := Some id; sent := true |}) s) = [].
Proof. intros Hf. cbn [composer_step]. rewrite Hf. reflexivity. Qed.

(** ** A concrete message *)

#[local] Existing Instance toy.
#[local] Existing Instance toy_laws.

Definition demo_wire_text : string := "hi <@" +:+ demo_id +:+ ">".
#[local] Instance composer_environment : Environment :=
  {| localeCompare := λ _ _, 0%Z; toISOString := λ _, ""; self := "me";
     random_key := random_key (Environment := demo_environment);
     random_secret := random_secret (Environment := demo_environment);
     random_nonce := random_nonce (Environment := demo_environment);
     random_invite := random_invite (Environment := demo_environment);
     random_iv := random_iv (Environment := demo_environment);
     stringify := λ _, "json"; parse := λ _, Ok (content_json btoa demo_wire_text []);
     to_string := λ _, ""; app_origin := ""; max_pages := 3 |}.

Definition demo_author : App :=
  {| client := client demo_sender; authSystem := authSystem demo_sender;
     App.identity := E2ee.identity demo_member; keyFetches := ∅; keyInits := ∅; keyQueues := ∅;
     federatedIds := ∅; invites := invites demo_sender; emojiInflight := ∅;
     personalEmojiInflight := None; refreshPromise := None; others := others demo_sender |}.

Lemma sent_text_read_witness :
  ∃ m content a,
    (decryptMessage no_server demo_channel (og_keyVersion m) (og_encryptedContent m)
      (publicKey demo_identity) demo_member).1 = Ok content ∧
    parseMessageContent parse content =
      Ok {| text := Some (JStr demo_wire_text); attachmentMeta := a |} ∧
    og_mentionedUserIds m = [demo_id].
Proof.
  destruct (sent_text_read (λ k, k = demo_key) demo_keys_ok no_server demo_nonce demo_channel 7
    demo_key demo_member demo_identity
    {| fl_text := demo_wire_text; fl_files := []; fl_reply := None |} ([], None) demo_author)
    as (m & k & _ & (content & a & Hd & Hp & _) & _ & _ & _ & Hu & _);
    try reflexivity; try exact demo_member_holds.
  - by left.
  - exists m, content, a. split; [exact Hd|]. split; [exact Hp|]. by rewrite Hu.
Defined.
