(* ===== verification/VoiceCalls.v ===== *)
(** * Voice calls ([ui/hooks/useVoiceConnection.ts], [ui/utils/voiceControls.ts],
    [ui/components/voice/PersistentVoiceConnection.tsx])

    Joining a voice channel asks for the channel's keys and for a ticket, derives the key of
    the call and then lets the LiveKit room connect; joining, leaving and the events of the
    room change the voice store and the list of participants that the sidebar shows.  The
    room is the library's: it is an interface here, with what the client relies on. *)

From S2P Require Export Account.
From S2P Require Import ChannelKeys Primitives Json JsString.
From S2P Require VoiceParticipants AudioSettings NotificationSettings TilingStore.

Open Scope meza_scope.

(** ** The room *)

(** [Track.Source], of the tracks that have a gain: the microphone, a shared screen's
    sound, and the soundboard's *)
Inductive Source := Microphone | ScreenShareAudio | Unknown.
#[export] Instance source_eq_dec : EqDecision Source.
Proof. solve_decision. Defined.

Class LiveKit (R : Type) := {
  (** the identity of the local participant, whether its microphone is on, and
      [setMicrophoneEnabled] once it is done *)
  local_identity : R → string;
  isMicrophoneEnabled : R → bool;
  setMicrophoneEnabled : bool → R → R;
  (** the remote participants, and the gain that is kept for each of their sources *)
  remoteParticipants : R → list string;
  volume : string → Source → R → number;
  (** [setVolume], which throws while the gain node is not ready *)
  ready : string → Source → R → bool;
  setVolume : string → number → Source → R → option R;
  (** what is heard of a source, and the attaching of its track *)
  heard : string → Source → R → number;
  attach : string → Source → R → R;
  (** [publishData] *)
  publishData : json → R → R;
}.
Class LiveKitLaws (R : Type) `{!LiveKit R} := {
  mic_set b r : isMicrophoneEnabled (setMicrophoneEnabled b r) = b;
  mic_publish j r : isMicrophoneEnabled (publishData j r) = isMicrophoneEnabled r;
  identity_mic b r : local_identity (setMicrophoneEnabled b r) = local_identity r;
  identity_publish j r : local_identity (publishData j r) = local_identity r;
  remotes_mic b r : remoteParticipants (setMicrophoneEnabled b r) = remoteParticipants r;
  remotes_publish j r : remoteParticipants (publishData j r) = remoteParticipants r;
  volume_mic i t b r : volume i t (setMicrophoneEnabled b r) = volume i t r;
  volume_publish i t j r : volume i t (publishData j r) = volume i t r;
  ready_mic i t b r : ready i t (setMicrophoneEnabled b r) = ready i t r;
  setVolume_throws i v t r : is_Some (setVolume i v t r) ↔ ready i t r = true;
  volume_set i v t r r' :
    i ∈ remoteParticipants r → setVolume i v t r = Some r' →
    isMicrophoneEnabled r' = isMicrophoneEnabled r ∧ local_identity r' = local_identity r ∧
    remoteParticipants r' = remoteParticipants r ∧
    (∀ j u, ready j u r' = ready j u r) ∧
    ∀ j u, volume j u r' = if decide (j = i ∧ u = t) then v else volume j u r;
  (** [if (this.elementVolume)]: a gain of zero is not applied to a new element. *)
  heard_attach i t r :
    heard i t (attach i t r) =
      if Num.eqn (volume i t r) Num.zero then Num.one else volume i t r;
}.

Section voice.
Context `{Crypto} {R : Type} `{!LiveKit R}.

(** ** State *)

Record Voice := {
  (** what the browser can do *)
  webRTC : bool;
  e2eeSupported : bool;
  userId : option string;
  (** the stores *)
  call : VoiceParticipants.VoiceState;
  members : VoiceParticipants.VoiceParticipantsState;
  audio : AudioSettings.AudioSettingsState;
  notifications : NotificationSettings.NotificationSettingsState;
  tiles : TilingStore.TilingState;
  keys : KeyState;
  (** the key provider of the room, the room, and the sounds played *)
  mediaKey : bytes;
  room : option R;
  played : list string;
}.

Definition on_call f (s : Voice) : Voice :=
  {| webRTC := webRTC s; e2eeSupported := e2eeSupported s; userId := userId s;
     call := f (call s); members := members s; audio := audio s;
     notifications := notifications s; tiles := tiles s; keys := keys s;
     mediaKey := mediaKey s; room := room s; played := played s |}.
Definition on_members f (s : Voice) : Voice :=
  {| webRTC := webRTC s; e2eeSupported := e2eeSupported s; userId := userId s;
     call := call s; members := f (members s); audio := audio s;
     notifications := notifications s; tiles := tiles s; keys := keys s;
     mediaKey := mediaKey s; room := room s; played := played s |}.
Definition on_tiles f (s : Voice) : Voice :=
  {| webRTC := webRTC s; e2eeSupported := e2eeSupported s; userId := userId s;
     call := call s; members := members s; audio := audio s;
     notifications := notifications s; tiles := f (tiles s); keys := keys s;
     mediaKey := mediaKey s; room := room s; played := played s |}.
Definition on_keys f (s : Voice) : Voice :=
  {| webRTC := webRTC s; e2eeSupported := e2eeSupported s; userId := userId s;
     call := call s; members := members s; audio := audio s;
     notifications := notifications s; tiles := tiles s; keys := f (keys s);
     mediaKey := mediaKey s; room := room s; played := played s |}.
Definition set_mediaKey k (s : Voice) : Voice :=
  {| webRTC := webRTC s; e2eeSupported := e2eeSupported s; userId := userId s;
     call := call s; members := members s; audio := audio s;
     notifications := notifications s; tiles := tiles s; keys := keys s;
     mediaKey := k; room := room s; played := played s |}.
Definition on_room f (s : Voice) : Voice :=
  {| webRTC := webRTC s; e2eeSupported := e2eeSupported s; userId := userId s;
     call := call s; members := members s; audio := audio s;
     notifications := notifications s; tiles := tiles s; keys := keys s;
     mediaKey := mediaKey s; room := f <$> room s; played := played s |}.
Definition plays sound (s : Voice) : Voice :=
  {| webRTC := webRTC s; e2eeSupported := e2eeSupported s; userId := userId s;
     call := call s; members := members s; audio := audio s;
     notifications := notifications s; tiles := tiles s; keys := keys s;
     mediaKey := mediaKey s; room := room s; played := played s ++ [sound] |}.

(** [if (soundEnabled && enabledSounds[..]) soundManager.play(..)] *)
Definition play (sound : string) (s : Voice) : Voice :=
  let n := notifications s in
  if NotificationSettings.soundEnabled n &&
     or_default false (NotificationSettings.enabledSounds n !! sound)
  then plays sound s else s.

(** What is awaited: the requests, and promises that are fulfilled by the browser *)
Inductive voice_request := Leave (c : string) | Envelopes (c : string) | JoinCall (c : string) | Soon.
Definition voice_answer (q : voice_request) : Type :=
  match q with
  | Leave _ => unit
  | Envelopes _ => list (Z * bytes)
  | JoinCall _ => VoiceTicket
  | Soon => unit
  end.
Definition vprog : Type → Type := prog Voice failure (option VoiceTicket) voice_answer.
Definition vpage : Type := page Voice failure (option VoiceTicket) voice_answer.

Definition participant (uid : string) (mic screen encrypted : bool)
    : VoiceParticipants.VoiceChannelParticipant :=
  {| VoiceParticipants.userId := uid; VoiceParticipants.isMuted := negb mic;
     VoiceParticipants.p_isDeafened := false; VoiceParticipants.isStreamingVideo := screen;
     VoiceParticipants.isEncrypted := encrypted |}.
(** The local user is shown in the channel at once, and taken out again. *)
Definition show_me (c : string) (s : Voice) : Voice :=
  match userId s with
  | Some u => if truthy (userId s)
              then on_members (VoiceParticipants.upsertParticipant c (participant u true false false)) s
              else s
  | None => s
  end.
Definition hide_me (c : string) (s : Voice) : Voice :=
  match userId s with
  | Some u => if truthy (userId s)
              then on_members (VoiceParticipants.removeParticipant c u) s else s
  | None => s
  end.

(** ** Joining and leaving *)

Definition NO_WEBRTC : string :=
  "You're on a privacy-focused browser. Great taste :) If you want to voice chat, enable media.peerconnection.enabled in about:config. You may also need to set media.peerconnection.ice.no_host and media.peerconnection.ice.proxy_only_if_behind_proxy to false.".
Definition NO_E2EE : string :=
  "Your browser does not support encrypted voice calls. Please update to Chrome 86+, Firefox 117+, or Safari 15.4+.".

(** What [doFetchAndCache] does with the server's answer: the identity is read again, and
    a failure of the request is passed on as it is. *)
Definition cache_answer (c : string) (r : result failure (list (Z * bytes))) (ks : KeyState)
    : result failure unit * KeyState :=
  match r with
  | Throw err => (Throw err, ks)
  | Ok [] => (Ok tt, ks)
  | Ok envelopes =>
      match identityKeypair ks with
      | None => (Throw (Error "identityKeypair is null"), ks)
      | Some id =>
          match cache_envelopes c id envelopes ks with
          | (Ok _, ks') => (Ok tt, schedulePersist ks')
          | (Throw e, ks') => (Throw (Error e), ks')
          end
      end
  end.
(** [fetchAndCacheChannelKeys]; a fetch of the same keys that is under way already is not
    waited for instead. *)
Definition fetch_keys (c : string) : vprog (option VoiceTicket) :=
  Look (λ s,
    match identityKeypair (keys s) with
    | None => Raise (Error "Channel keys not initialized")
    | Some _ =>
        Await (Envelopes c) (λ r : result failure (list (Z * bytes)),
          Look (λ s,
            let '(res, ks) := cache_answer c r (keys s) in
            Do (on_keys (λ _, ks)) (let* _ := of_result res in Ret None)))
    end).

(** The newest channel key, which is a cached one *)
Definition newest_key (c : string) (s : Voice) : result string bytes :=
  match getLatestKeyVersion c (keys s) with
  | None => Throw "Encryption key unavailable"
  | Some v => (getChannelKey (λ _ _, Throw "not needed") c v (keys s)).1
  end.

Definition connected_to (t : VoiceTicket) (s : Voice) : Voice :=
  play "call-connect" (on_call (VoiceParticipants.setConnected (vt_livekitUrl t)
    (vt_livekitToken t) (vt_canScreenShare t)) s).

Definition ask_ticket (c : string) : vprog (option VoiceTicket) :=
  let* t := await (JoinCall c) in Ret (Some t).

(** The call's key is derived and handed to the room, and the ticket is taken over. *)
Definition take_over (c : string) (r : option VoiceTicket) : vprog unit :=
  Look (λ s,
    match newest_key c s with
    | Throw e => Raise (Error e)
    | Ok channelKey =>
        await Soon ;;
        await Soon ;;
        Do (set_mediaKey (deriveVoiceKey channelKey c))
          (await Soon ;;
           match r with Some t => modify (connected_to t) | None => Ret tt end)
    end).

(** [Promise.all] of the two requests.  A failure of either is passed on when it is waited
    for. *)
Definition join_call (c : string) : vprog unit :=
  Spawn (fetch_keys c) (λ p1,
  Spawn (ask_ticket c) (λ p2,
    let* _ := wait_for p1 in
    let* r := wait_for p2 in take_over c r)).

Definition call_failed (c : string) (err : failure) (s : Voice) : Voice :=
  on_call (VoiceParticipants.setVoiceError (Some (mapVoiceError err))) (hide_me c s).
Definition call_begins (c name : string) (s : Voice) : Voice :=
  show_me c (on_call (VoiceParticipants.setConnecting c name) s).

Definition connecting (s : VoiceParticipants.VoiceState) : bool :=
  match VoiceParticipants.status s with VoiceParticipants.connecting => true | _ => false end.
(** The channel that is left first *)
Definition leaves_first (c : string) (s : VoiceParticipants.VoiceState) : option string :=
  match VoiceParticipants.status s, VoiceParticipants.channelId s with
  | VoiceParticipants.connected, Some old =>
      if bool_decide (old = "") || bool_decide (old = c) then None else Some old
  | _, _ => None
  end.

Definition voiceConnect (c name : string) : vprog unit :=
  Look (λ s,
    if negb (webRTC s) then modify (on_call (VoiceParticipants.setVoiceError (Some NO_WEBRTC)))
    else if negb (e2eeSupported s)
    then modify (on_call (VoiceParticipants.setVoiceError (Some NO_E2EE)))
    else
      (** the state as it was before the other channel is left *)
      let state := call s in
      (match leaves_first c state with
       | Some old => catch (let* _ := await (Leave old) in Ret tt) (λ _, Ret tt)
       | None => Ret tt
       end : vprog unit) ;;
      if connecting state then Ret tt
      else
        Do (call_begins c name)
          (catch (join_call c) (λ err, modify (call_failed c err)))).

Definition in_call (c : string) (p : TilingStore.PaneContent) : bool :=
  match p with
  | TilingStore.VoicePane c' | TilingStore.ScreenSharePane c' _ _ => bool_decide (c' = c)
  | _ => false
  end.
Definition hang_up (s : Voice) : Voice :=
  let left := match VoiceParticipants.channelId (call s) with
    | Some c => if bool_decide (c = "") then s
                else on_tiles (TilingStore.closePanesMatching (in_call c)) (hide_me c s)
    | None => s
    end in
  play "call-end" (set_mediaKey [] (on_call VoiceParticipants.disconnect left)).
Definition voiceDisconnect : vprog unit :=
  Look (λ s,
    (match VoiceParticipants.channelId (call s) with
     | Some c => if bool_decide (c = "") then Ret tt
                 else Spawn (await (Leave c) ;; Ret None) (λ _, Ret tt)
     | None => Ret tt
     end) ;;
    modify hang_up).

(** The room connects while there is a ticket ([isActive]). *)
Definition isActive (s : Voice) : bool :=
  match VoiceParticipants.status (call s) with VoiceParticipants.idle => false | _ => true end &&
  truthy (VoiceParticipants.livekitUrl (call s)) && truthy (VoiceParticipants.livekitToken (call s)).

(** ** Muting and deafening *)

Definition user_volume (s : AudioSettings.AudioSettingsState) (uid : string) : number :=
  Num.mul (AudioSettings.outputVolume s)
    (match AudioSettings.perUserVolumes s !! uid with
     | Some (JNum n) => n
     | Some JNull | None => Num.one
     | Some _ => Num.nan
     end).
(** [try { p.setVolume(v) } catch {}], which sets the gain of the microphone's track *)
Definition try_volume (uid : string) (v : number) (r : R) : R :=
  or_default r (setVolume uid v Microphone r).
Definition applyParticipantVolume (uid : string) (s : Voice) : Voice :=
  on_room (try_volume uid (user_volume (audio s) uid)) s.
Definition apply_volumes (s : Voice) : Voice :=
  on_room (λ r, foldl (λ r uid, try_volume uid (user_volume (audio s) uid) r) r
    (remoteParticipants r)) s.
Definition silence_all (s : Voice) : Voice :=
  on_room (λ r, foldl (λ r uid, try_volume uid Num.zero r) r (remoteParticipants r)) s.

(** [updateParticipant(channelId, ..)] if there is a channel *)
Definition patch_in_channel (uid : string) (p : VoiceParticipants.Patch) (s : Voice) : Voice :=
  match VoiceParticipants.channelId (call s) with
  | Some c => if bool_decide (c = "") then s
              else on_members (VoiceParticipants.updateParticipant c uid p) s
  | None => s
  end.
Definition muted (b : bool) : VoiceParticipants.Patch :=
  {| VoiceParticipants.patch_isMuted := Some b; VoiceParticipants.patch_isDeafened := None;
     VoiceParticipants.patch_isStreamingVideo := None;
     VoiceParticipants.patch_isEncrypted := None |}.
Definition muted_deafened (m d : bool) : VoiceParticipants.Patch :=
  {| VoiceParticipants.patch_isMuted := Some m; VoiceParticipants.patch_isDeafened := Some d;
     VoiceParticipants.patch_isStreamingVideo := None;
     VoiceParticipants.patch_isEncrypted := None |}.

Definition toggleMute (s : Voice) : option bool * Voice :=
  match room s with
  | None => (None, s)
  | Some r =>
      let newEnabled := negb (isMicrophoneEnabled r) in
      (Some newEnabled,
       patch_in_channel (local_identity r) (muted (negb newEnabled))
         (on_room (setMicrophoneEnabled newEnabled) s))
  end.

Definition toggleDeafen (s : Voice) : option bool * Voice :=
  match room s with
  | None => (None, s)
  | Some r =>
      let voiceState := call s in
      let newDeafened := negb (VoiceParticipants.isDeafened voiceState) in
      let s1 :=
        if newDeafened then
          silence_all (on_room (setMicrophoneEnabled false)
            (on_call (VoiceParticipants.setPreDeafenMuteState (negb (isMicrophoneEnabled r))) s))
        else
          apply_volumes
            (if VoiceParticipants.preDeafenMuteState voiceState then s
             else on_room (setMicrophoneEnabled true) s) in
      let s2 := patch_in_channel (local_identity r)
        (muted_deafened
           (if newDeafened then true else VoiceParticipants.preDeafenMuteState voiceState)
           newDeafened)
        (on_call (VoiceParticipants.setDeafened newDeafened) s1) in
      (Some newDeafened,
       on_room (publishData (JObj [("type", JStr "deafen"); ("isDeafened", JBool newDeafened)])) s2)
  end.

(** ** Events of the room *)

Definition onReconnecting : Voice → Voice := on_call VoiceParticipants.setReconnecting.
(** Devices and the gains of soundboard and shared screens are set anew too. *)
Definition onReconnected (s : Voice) : Voice :=
  let v := call s in
  apply_volumes
    (match VoiceParticipants.livekitUrl v, VoiceParticipants.livekitToken v with
     | Some url, Some token =>
         if bool_decide (url = "") || bool_decide (token = "") then s
         else on_call (VoiceParticipants.setConnected url token (VoiceParticipants.canScreenShare v)) s
     | _, _ => s
     end).

Definition is_preview (uid : string) : bool := startsWith "preview:" uid.
Definition onParticipantConnected (uid : string) (mic screen : bool) (s : Voice) : Voice :=
  if is_preview uid then s
  else
    let s := play "voice-join" (applyParticipantVolume uid s) in
    match VoiceParticipants.channelId (call s) with
    | Some c => if bool_decide (c = "") then s
                else on_members (VoiceParticipants.upsertParticipant c
                  (participant uid mic screen false)) s
    | None => s
    end.
Definition onParticipantDisconnected (uid : string) (s : Voice) : Voice :=
  if is_preview uid then s
  else
    let s := play "voice-leave" s in
    match VoiceParticipants.channelId (call s) with
    | Some c => if bool_decide (c = "") then s
                else on_members (VoiceParticipants.removeParticipant c uid) s
    | None => s
    end.
(** The microphone of a participant is muted or unmuted. *)
Definition onMicrophone (uid : string) (isMuted : bool) : Voice → Voice :=
  patch_in_channel uid (muted isMuted).
Definition onDisconnected (s : Voice) : Voice :=
  if connecting (call s) then s else on_call VoiceParticipants.disconnect s.
End voice.

(** ** What voice calls come to

    A call that is joined and one that cannot be, whatever happens while the requests are
    under way; deafening and undeafening. *)

From S2P Require Import ChannelKeys Primitives Json JsString.

Open Scope meza_scope.

#[local] Arguments deriveVoiceKey : simpl never.
#[local] Arguments play : simpl never.
#[local] Arguments cache_answer : simpl never.
#[local] Arguments call_begins : simpl never.
#[local] Arguments call_failed : simpl never.
#[local] Arguments connected_to : simpl never.
#[local] Arguments newest_key : simpl never.

Section facts.
Context `{Crypto} {R : Type} `{!LiveKit R} `{!LiveKitLaws R}.
Implicit Types s : Voice (R := R).

(** ** Joining *)

(** The answers to the requests of a call *)
Definition answers (l : result failure unit) (e : result failure (list (Z * bytes)))
    (t : result failure VoiceTicket) (q : voice_request) : result failure (voice_answer q) :=
  match q with
  | Leave _ => l | Envelopes _ => e | JoinCall _ => t | Soon => Ok tt
  end.

(** Calls are possible, and none is being joined. *)
Definition free_to_join s : Prop :=
  webRTC s = true ∧ e2eeSupported s = true ∧ connecting (call s) = false.

(** A call: the function is called, and if another channel has to be left first, others do
    [h] until that request is answered.  Then the call begins; others do [f], both requests
    are answered and waited for, and the key is derived; they do [g], and the key is taken
    over. *)
Definition called (c name : string) s : vpage (R := R) :=
  launch (voiceConnect c name ;; Ret None) (fresh_page s).
Definition after_leaving (h : Voice (R := R) → Voice (R := R)) (c : string) s : Voice (R := R) :=
  match leaves_first c (call s) with Some _ => h s | None => s end.
Definition begun a h (c name : string) s : vpage (R := R) :=
  match leaves_first c (call s) with
  | Some _ => answer 0 a (on_st h (called c name s))
  | None => called c name s
  end.
Definition answered a (p : vpage (R := R)) : vpage (R := R) :=
  settle 0 (settle 0 (answer 2 a (answer 1 a p))).
Definition completed a g (p : vpage (R := R)) : vpage (R := R) :=
  answer 0 a (on_st g (answer 0 a (answer 0 a p))).

(** What becomes of the fetch that began in [s0] and is answered in [s], and the state
    with the keys it leaves *)
Definition fetched (s0 : Voice (R := R)) e (c : string) s : result failure unit * KeyState :=
  match identityKeypair (keys s0) with
  | None => (Throw (Error "Channel keys not initialized"), keys s)
  | Some _ => cache_answer c e (keys s)
  end.
Definition with_fetched s0 e (c : string) s : Voice (R := R) :=
  on_keys (λ _, (fetched s0 e c s).2) s.

(** Where the function waits for the keys, and for the ticket *)
Definition waits_for_keys (c : string) (r : result failure (option VoiceTicket))
    : vprog (R := R) (option VoiceTicket) :=
  catch (let* _ := of_result r in let* t := wait_for 2 in take_over c t)
    (λ err, modify (call_failed c err)) ;; Ret None.
Definition waits_for_ticket (c : string) (r : result failure (option VoiceTicket))
    : vprog (R := R) (option VoiceTicket) :=
  catch (let* t := of_result r in take_over c t) (λ err, modify (call_failed c err)) ;; Ret None.

(** The thread of the fetch as it is started *)
Definition fetch_begun (c : string) s : vprog (R := R) (option VoiceTicket) :=
  match identityKeypair (keys s) with
  | None => Raise (Error "Channel keys not initialized")
  | Some _ =>
      Await (Envelopes c) (λ r : result failure (list (Z * bytes)),
        Look (λ s,
          let '(res, ks) := cache_answer c r (keys s) in
          Do (on_keys (λ _, ks)) (let* _ := of_result res in Ret None)))
  end.
Lemma exec_fetch c (P : vpage (R := R)) :
  Programs.exec (fetch_keys c) P = (fetch_begun c (st P), P).
Proof. cbn. unfold fetch_begun. by destruct (identityKeypair _). Qed.

(** The call itself, once no other channel has to be left *)
Definition starts_call (c name : string) : vprog (R := R) (option VoiceTicket) :=
  Do (call_begins c name) (catch (join_call c) (λ err, modify (call_failed c err))) ;; Ret None.
Lemma exec_starts c name (P : vpage (R := R)) :
  next P = 1 →
  let s0 := call_begins c name (st P) in
  Programs.exec (starts_call c name) P =
    (WaitFor 1 (waits_for_keys c),
     {| st := s0; threads := <[2 := ask_ticket c]> (<[1 := fetch_begun c s0]> (threads P));
        next := 3 |}).
Proof.
  intros Hn s0. destruct P as [sp Tp n]. cbn in Hn. subst n.
  unfold starts_call, join_call. cbn [bind catch Programs.exec].
  rewrite exec_fetch. reflexivity.
Qed.

Lemma begun_page l e t h c name s :
  free_to_join s →
  let s0 := call_begins c name (after_leaving h c s) in
  ∃ T, begun (answers l e t) h c name s =
    {| st := s0;
       threads := <[0 := WaitFor 1 (waits_for_keys c)]>
         (<[2 := ask_ticket c]> (<[1 := fetch_begun c s0]> T)); next := 3 |}.
Proof.
  intros (H1 & H2 & H3). unfold begun, after_leaving, called, launch, voiceConnect.
  cbn [bind Programs.exec st reserve fresh_page]. rewrite H1, H2, H3. cbn [negb].
  destruct (leaves_first c (call s)) as [old|].
  - eexists. erewrite answer_at by apply lookup_insert_eq. unfold continue_with. cbn [answers].
    set (P := on_st h _).
    assert (∀ p, p = starts_call c name →
      (let '(p', c') := Programs.exec p P in put_thread 0 p' c') =
      {| st := call_begins c name (h s);
         threads := <[0 := WaitFor 1 (waits_for_keys c)]>
           (<[2 := ask_ticket c]> (<[1 := fetch_begun c (call_begins c name (h s))]>
             (threads P))); next := 3 |}) as Hgo.
    { intros p ->. by rewrite exec_starts. }
    destruct l; by apply Hgo.
  - eexists. set (P := reserve _).
    change (Programs.exec _ P) with (Programs.exec (starts_call c name) P).
    by rewrite exec_starts.
Qed.

(** One answer and one promise after the other *)
Definition key_promise (r : result failure unit) : vprog (R := R) (option VoiceTicket) :=
  let* _ := of_result r in Ret None.
Lemma fetch_answered l e t c s0 (P : vpage (R := R)) :
  threads P !! 1 = Some (fetch_begun c s0) →
  let Q := answer 1 (answers l e t) P in
  st Q = with_fetched s0 e c (st P) ∧
  threads Q !! 1 = Some (key_promise (fetched s0 e c (st P)).1) ∧
  ∀ i, i ≠ 1 → threads Q !! i = threads P !! i.
Proof.
  intros HP Q. unfold Q, with_fetched, fetched. unfold fetch_begun in HP.
  destruct (identityKeypair (keys s0)) as [id|].
  - rewrite (answer_at 1 _ _ _ _ HP). unfold continue_with. cbn [answers Programs.exec].
    destruct (cache_answer c e (keys (st P))) as [res ks]. cbn [Programs.exec fst snd].
    assert (∀ P' : vpage (R := R), Programs.exec (key_promise res) P' = (key_promise res, P')) as E
      by (by destruct res).
    unfold key_promise in E. rewrite E. split; [done|].
    split; [apply lookup_insert_eq|]. intros i Hi. by apply lookup_insert_ne.
  - rewrite (answer_ended 1 _ _ _ HP). split; [by destruct (st P)|]. by split.
Qed.
Lemma ticket_answered l e t c (P : vpage (R := R)) :
  threads P !! 2 = Some (ask_ticket c) →
  answer 2 (answers l e t) P =
    put_thread 2 (of_result (match t with Ok t => Ok (Some t) | Throw e => Throw e end)) P.
Proof.
  intros HP. rewrite (answer_at 2 _ _ _ _ HP). unfold continue_with. by destruct t.
Qed.

(** The two answers, before the function has heard of them *)
Lemma both_answered l h c name s f e t :
  free_to_join s →
  let s0 := call_begins c name (after_leaving h c s) in
  let P := answer 2 (answers l e t) (answer 1 (answers l e t)
    (on_st f (begun (answers l e t) h c name s))) in
  st P = with_fetched s0 e c (f s0) ∧
  threads P !! 0 = Some (WaitFor 1 (waits_for_keys c)) ∧
  threads P !! 1 = Some (key_promise (fetched s0 e c (f s0)).1) ∧
  threads P !! 2 = Some (of_result (match t with Ok t => Ok (Some t) | Throw e => Throw e end)).
Proof.
  intros Hfree s0 P. destruct (begun_page l e t h c name s Hfree) as [T E]. fold s0 in E.
  set (B := on_st f (begun (answers l e t) h c name s)) in P.
  assert (threads B !! 1 = Some (fetch_begun c s0)) as B1.
  { unfold B. rewrite E. do 2 (etrans; [by apply lookup_insert_ne|]). apply lookup_insert_eq. }
  assert (threads B !! 2 = Some (ask_ticket c)) as B2.
  { unfold B. rewrite E. etrans; [by apply lookup_insert_ne|]. apply lookup_insert_eq. }
  assert (threads B !! 0 = Some (WaitFor 1 (waits_for_keys c))) as B0.
  { unfold B. rewrite E. apply lookup_insert_eq. }
  assert (st B = f s0) as Bs by (unfold B; by rewrite E).
  destruct (fetch_answered l e t c s0 B B1) as (Q1 & Q2 & Q3). rewrite Bs in Q1, Q2.
  unfold P. rewrite (ticket_answered l e t c) by (by rewrite Q3).
  split; [exact Q1|]. split; [|split].
  - etrans; [by apply lookup_insert_ne|]. by rewrite Q3.
  - etrans; [by apply lookup_insert_ne|]. exact Q2.
  - apply lookup_insert_eq.
Qed.

Lemma ticket_awaited l h c name s f e t :
  free_to_join s →
  let s0 := call_begins c name (after_leaving h c s) in
  (fetched s0 e c (f s0)).1 = Ok tt →
  ∃ P : vpage (R := R), st P = with_fetched s0 e c (f s0) ∧
    answered (answers l e t) (on_st f (begun (answers l e t) h c name s)) =
      continue_with 0 (waits_for_ticket c
        (match t with Ok t => Ok (Some t) | Throw e => Throw e end)) P.
Proof.
  intros Hfree s0 Hf. destruct (both_answered l h c name s f e t Hfree) as (Ps & P0 & P1 & P2).
  fold s0 in Ps, P1. rewrite Hf in P1. unfold answered.
  set (P := answer 2 _ _) in *. clearbody P. rewrite (settle_at 0 1 _ (Ok None) P P0 P1).
  exists (put_thread 0 (WaitFor 2 (waits_for_ticket c)) P). split; [exact Ps|].
  apply (settle_at 0 2 _ _ (put_thread 0 (WaitFor 2 (waits_for_ticket c)) P)).
  - apply lookup_insert_eq.
  - etrans; [by apply lookup_insert_ne|]. exact P2.
Qed.
Lemma call_completes l h c name s f e t k g :
  free_to_join s →
  let s0 := call_begins c name (after_leaving h c s) in
  let s1 := with_fetched s0 e c (f s0) in
  (fetched s0 e c (f s0)).1 = Ok tt → newest_key c s1 = Ok k →
  let a := answers l e (Ok t) in
  let q := completed a g (answered a (on_st f (begun a h c name s))) in
  st q = connected_to t (g (set_mediaKey (deriveVoiceKey k c) s1)) ∧ threads q !! 0 = Some (Ret None).
Proof.
  intros Hfree s0 s1 Hf Hk a q. unfold q, a.
  destruct (ticket_awaited l h c name s f e (Ok t) Hfree Hf) as (P & Ps & ->).
  fold s0 in Ps. fold s1 in Ps. rewrite <-Ps in Hk |- *. unfold continue_with. cbn. rewrite Hk.
  cbn. unfold completed.
  do 2 (erewrite (answer_at 0 _ Soon _ (put_thread 0 _ _)) by apply lookup_insert_eq;
        unfold continue_with; cbn).
  erewrite (answer_at 0 _ Soon); [|apply lookup_insert_eq]. unfold continue_with. cbn.
  split; [done|apply lookup_insert_eq].
Qed.


(** Hanging up while the call is being joined does not stop it: once the requests are
    answered the room is connected, with no channel shown. *)
Lemma hang_up_ignored c name s l e t k :
  free_to_join s → leaves_first c (call s) = None →
  let s0 := call_begins c name s in
  (fetched s0 e c s0).1 = Ok tt → newest_key c (with_fetched s0 e c s0) = Ok k →
  vt_livekitUrl t ≠ "" → vt_livekitToken t ≠ "" →
  let a := answers l e (Ok t) in
  let q := completed a (λ s, s) (answered a (on_st hang_up (begun a (λ s, s) c name s))) in
  isActive (st q) = true ∧ VoiceParticipants.channelId (call (st q)) = None ∧
  mediaKey (st q) = deriveVoiceKey k c.
Proof.
  intros Hfree Hl s0 Hf Hk Hu Ht a q.
  assert (∀ x : Voice (R := R), keys (hang_up x) = keys x) as Hkeys.
  { intros x. unfold hang_up, play, hide_me. by repeat case_match. }
  assert (after_leaving (λ s, s) c s = s) as Es0 by (unfold after_leaving; by case_match).
  assert (newest_key c (with_fetched s0 e c (hang_up s0)) = Ok k) as Hk'.
  { revert Hk. unfold newest_key, with_fetched, fetched. cbn. by rewrite Hkeys. }
  destruct (call_completes l (λ s, s) c name s hang_up e t k (λ s, s) Hfree) as [Es _].
  { rewrite Es0. fold s0. unfold fetched. rewrite Hkeys. exact Hf. }
  { by rewrite Es0. }
  unfold q, a. rewrite Es, Es0. fold s0.
  assert (call (connected_to t (set_mediaKey (deriveVoiceKey k c)
      (with_fetched s0 e c (hang_up s0)))) =
    VoiceParticipants.setConnected (vt_livekitUrl t) (vt_livekitToken t) (vt_canScreenShare t)
      VoiceParticipants.voice_initial) as Ec.
  { unfold connected_to, play, with_fetched, hang_up, play. by repeat case_match. }
  split; [|split].
  - unfold isActive. rewrite Ec. cbn. by rewrite !bool_decide_eq_false_2.
  - by rewrite Ec.
  - unfold connected_to, play. by repeat case_match.
Qed.

(** ** Deafening *)

#[local] Arguments user_volume : simpl never.

(** Setting the gain of one remote participant, and of several *)
Lemma try_volume_facts u v r :
  u ∈ remoteParticipants r →
  isMicrophoneEnabled (try_volume u v r) = isMicrophoneEnabled r ∧
  local_identity (try_volume u v r) = local_identity r ∧
  remoteParticipants (try_volume u v r) = remoteParticipants r ∧
  (∀ i t, ready i t (try_volume u v r) = ready i t r) ∧
  ∀ i t, volume i t (try_volume u v r) =
    if decide (i = u ∧ t = Microphone) then (if ready u Microphone r then v else volume i t r)
    else volume i t r.
Proof.
  intros Hu. unfold try_volume. pose proof (setVolume_throws u v Microphone r) as Ht.
  destruct (setVolume u v Microphone r) as [r'|] eqn:E; cbn [or_default].
  - destruct (volume_set u v Microphone r r' Hu E) as (H1 & H2 & H3 & H4 & H5).
    split_and!; try done. intros i t. rewrite H5. case_decide; [|done].
    by rewrite (proj1 Ht).
  - split_and!; try done. intros i t. destruct (ready u Microphone r); [|by case_decide].
    by destruct (proj2 Ht eq_refl).
Qed.

Definition gains (v : string → number) (us : list string) (r : R) : R :=
  foldl (λ r uid, try_volume uid (v uid) r) r us.
Lemma gains_facts v us r :
  (∀ u, u ∈ us → u ∈ remoteParticipants r) →
  isMicrophoneEnabled (gains v us r) = isMicrophoneEnabled r ∧
  local_identity (gains v us r) = local_identity r ∧
  remoteParticipants (gains v us r) = remoteParticipants r ∧
  ∀ i t, volume i t (gains v us r) =
    if decide (i ∈ us ∧ t = Microphone ∧ ready i t r = true) then v i else volume i t r.
Proof.
  revert r. induction us as [|u us IH]; intros r Hus.
  { by split_and!. }
  destruct (try_volume_facts u (v u) r (Hus u ltac:(by left))) as (H1 & H2 & H3 & H4 & H5).
  destruct (IH (try_volume u (v u) r)) as (I1 & I2 & I3 & I4).
  { intros w Hw. rewrite H3. apply Hus. by right. }
  change (gains v (u :: us) r) with (gains v us (try_volume u (v u) r)).
  rewrite I1, I2, I3. split_and!; try done. intros i t. rewrite I4, H4, H5.
  destruct (decide (i ∈ us ∧ t = Microphone ∧ ready i t r = true)) as [(Hi & -> & Hr)|Hn].
  - rewrite decide_True; [done|]. split; [by right|done].
  - destruct (decide (i = u ∧ t = Microphone)) as [[-> ->]|Hne].
    + destruct (ready u Microphone r) eqn:Hr.
      * rewrite decide_True; [done|]. split; [by left|done].
      * rewrite decide_False; [done|]. by intros (_ & _ & ?).
    + rewrite decide_False; [done|]. intros ([->|Hi]%elem_of_cons & -> & Hr); naive_solver.
Qed.
Lemma gains_all v i r :
  i ∈ remoteParticipants r → ready i Microphone r = true →
  volume i Microphone (gains v (remoteParticipants r) r) = v i.
Proof.
  intros Hi Hr. destruct (gains_facts v (remoteParticipants r) r ltac:(done)) as (_ & _ & _ & ->).
  by rewrite decide_True.
Qed.
Lemma gains_others v us i t r :
  (∀ u, u ∈ us → u ∈ remoteParticipants r) → t ≠ Microphone →
  volume i t (gains v us r) = volume i t r.
Proof.
  intros Hus Ht. destruct (gains_facts v us r Hus) as (_ & _ & _ & ->).
  rewrite decide_False; [done|]. by intros (_ & ? & _).
Qed.

(** What the list of a channel shows of a participant: muted, deafened *)
Definition flags (c uid : string) s : option (bool * bool) :=
  (λ p, (VoiceParticipants.isMuted p, VoiceParticipants.p_isDeafened p)) <$>
    (VoiceParticipants.byChannel (members s) !! c ≫= find_key VoiceParticipants.userId uid).
(** The store has a channel for the call. *)
Definition in_channel (c : string) s : Prop := VoiceParticipants.channelId (call s) = Some c ∧ c ≠ "".

Lemma patch_keeps uid p s :
  call (patch_in_channel uid p s) = call s ∧ audio (patch_in_channel uid p s) = audio s ∧
  room (patch_in_channel uid p s) = room s.
Proof. unfold patch_in_channel. by repeat case_match. Qed.
Lemma patch_flags c uid m d s :
  in_channel c s →
  flags c uid (patch_in_channel uid (muted_deafened m d) s) = (λ _, (m, d)) <$> flags c uid s.
Proof.
  intros [Hc Hne]. unfold patch_in_channel, flags. rewrite Hc, bool_decide_eq_false_2 by done.
  simpl. rewrite lookup_alter, decide_True by done.
  destruct (VoiceParticipants.byChannel (members s) !! c) as [l|]; [|done]. simpl.
  rewrite find_key_modify by done. rewrite decide_True by done.
  by destruct (find_key _ uid l).
Qed.

(** Deafening and undeafening, from the outside *)
Lemma deafen s r :
  room s = Some r → VoiceParticipants.isDeafened (call s) = false →
  ∃ r1, let d := (toggleDeafen s).2 in
    (toggleDeafen s).1 = Some true ∧ room d = Some r1 ∧ audio d = audio s ∧
    call d = VoiceParticipants.setDeafened true
      (VoiceParticipants.setPreDeafenMuteState (negb (isMicrophoneEnabled r)) (call s)) ∧
    isMicrophoneEnabled r1 = false ∧ local_identity r1 = local_identity r ∧
    remoteParticipants r1 = remoteParticipants r ∧
    (∀ i, i ∈ remoteParticipants r → ready i Microphone r = true →
       volume i Microphone r1 = Num.zero) ∧
    (∀ i t, t ≠ Microphone → volume i t r1 = volume i t r) ∧
    (∀ c, in_channel c s →
      flags c (local_identity r) d = (λ _, (true, true)) <$> flags c (local_identity r) s).
Proof.
  intros Hr Hd. unfold toggleDeafen. rewrite Hr, Hd. cbn.
  set (t := on_call (VoiceParticipants.setDeafened true) _).
  destruct (patch_keeps (local_identity r) (muted_deafened true true) t) as (E1 & E2 & E3).
  destruct (gains_facts (λ _, Num.zero) (remoteParticipants (setMicrophoneEnabled false r))
    (setMicrophoneEnabled false r) ltac:(done)) as (G1 & G2 & G3 & _).
  eexists. rewrite E3. unfold t at 1. cbn. rewrite Hr. cbn. split_and!; try done.
  - rewrite mic_publish. etrans; [exact G1|apply mic_set].
  - rewrite identity_publish. etrans; [exact G2|apply identity_mic].
  - rewrite remotes_publish. etrans; [exact G3|apply remotes_mic].
  - intros i Hi Hrdy. rewrite volume_publish. apply (gains_all (λ _, Num.zero)).
    + by rewrite remotes_mic.
    + by rewrite ready_mic.
  - intros i t' Ht. rewrite volume_publish.
    etrans; [by apply (gains_others (λ _, Num.zero))|]. apply volume_mic.
  - intros c Hc. by apply (patch_flags c _ true true t).
Qed.
Lemma undeafen s r :
  room s = Some r → VoiceParticipants.isDeafened (call s) = true →
  let was_muted := VoiceParticipants.preDeafenMuteState (call s) in
  ∃ r1, let d := (toggleDeafen s).2 in
    (toggleDeafen s).1 = Some false ∧ room d = Some r1 ∧
    call d = VoiceParticipants.setDeafened false (call s) ∧
    isMicrophoneEnabled r1 = (if was_muted then isMicrophoneEnabled r else true) ∧
    (∀ i, i ∈ remoteParticipants r → ready i Microphone r = true →
       volume i Microphone r1 = user_volume (audio s) i) ∧
    (∀ i t, t ≠ Microphone → volume i t r1 = volume i t r) ∧
    (∀ c, in_channel c s →
      flags c (local_identity r) d = (λ _, (was_muted, false)) <$> flags c (local_identity r) s).
Proof.
  intros Hr Hd was_muted. unfold toggleDeafen. rewrite Hr, Hd. cbn. fold was_muted.
  set (t := on_call (VoiceParticipants.setDeafened false) _).
  destruct (patch_keeps (local_identity r) (muted_deafened was_muted false) t) as (E1 & E2 & E3).
  set (r0 := if was_muted then r else setMicrophoneEnabled true r).
  assert (call t = VoiceParticipants.setDeafened false (call s)) as Et
    by (unfold t; by destruct was_muted).
  destruct (gains_facts (user_volume (audio s)) (remoteParticipants r0) r0 ltac:(done)) as (G1 & _).
  exists (publishData (JObj [("type", JStr "deafen"); ("isDeafened", JBool false)])
    (gains (user_volume (audio s)) (remoteParticipants r0) r0)).
  rewrite E3, E1. split_and!; try done.
  - unfold t, r0. destruct was_muted; cbn; by rewrite Hr.
  - rewrite mic_publish, G1. unfold r0. destruct was_muted; [done|apply mic_set].
  - intros i Hi Hrdy. rewrite volume_publish. apply gains_all; unfold r0.
    + destruct was_muted; [done|by rewrite remotes_mic].
    + destruct was_muted; [done|by rewrite ready_mic].
  - intros i t' Ht. rewrite volume_publish.
    etrans; [by apply gains_others|]. unfold r0. destruct was_muted; [done|apply volume_mic].
  - intros c Hc. etrans; [apply (patch_flags c)|].
    + unfold in_channel. by rewrite Et.
    + unfold t. by destruct was_muted.
Qed.


(** The track of a participant that attaches after the user has deafened is heard at full
    volume: the gain of zero is kept and not applied. *)
Lemma late_track_heard s r uid :
  room s = Some r → VoiceParticipants.isDeafened (call s) = false →
  uid ∈ remoteParticipants r → ready uid Microphone r = true →
  ∃ r1, room (toggleDeafen s).2 = Some r1 ∧
    heard uid Microphone (attach uid Microphone r1) = Num.one.
Proof.
  intros Hr Hd Hu Hrdy. destruct (deafen s r Hr Hd) as (r1 & _ & E1 & _ & _ & _ & _ & _ & Hv & _).
  exists r1. split; [done|]. rewrite heard_attach, Hv by done. done.
Qed.

(** Whoever joins (or speaks again after a reconnection) is heard by a deafened user: the
    volume that is set is the one of the settings. *)
Lemma newcomer_heard s r uid mic screen :
  room s = Some r → uid ∈ remoteParticipants r → ready uid Microphone r = true →
  is_preview uid = false → VoiceParticipants.isDeafened (call s) = true →
  let s' := onParticipantConnected uid mic screen s in
  VoiceParticipants.isDeafened (call s') = true ∧
  ∃ r', room s' = Some r' ∧ volume uid Microphone r' = user_volume (audio s) uid.
Proof.
  intros Hr Hu Hrdy Hp Hd. unfold onParticipantConnected. rewrite Hp. cbv zeta.
  set (t := play _ _).
  assert (call t = call s ∧ room t = Some (try_volume uid (user_volume (audio s) uid) r)) as [Ec Er].
  { unfold t, play, applyParticipantVolume. case_match; cbn; by rewrite Hr. }
  rewrite Ec. split.
  - repeat case_match; cbn; by rewrite Ec.
  - exists (try_volume uid (user_volume (audio s) uid) r).
    destruct (try_volume_facts uid (user_volume (audio s) uid) r Hu) as (_ & _ & _ & _ & ->).
    rewrite decide_True, Hrdy by done. split; [|done]. repeat case_match; cbn; by rewrite Er.
Qed.

(** A user who was muted, deafens, unmutes and undeafens speaks and is shown as muted. *)
Lemma unmuted_shown_muted s r c :
  room s = Some r → VoiceParticipants.isDeafened (call s) = true →
  VoiceParticipants.preDeafenMuteState (call s) = true → isMicrophoneEnabled r = false →
  in_channel c s → is_Some (flags c (local_identity r) s) →
  let u := (toggleDeafen (toggleMute s).2).2 in
  ∃ r', room u = Some r' ∧ isMicrophoneEnabled r' = true ∧
    flags c (local_identity r) u = Some (true, false).
Proof.
  intros Hr Hd Hpre Hmic Hc Hin. unfold toggleMute. rewrite Hr, Hmic. cbn [snd negb].
  set (t := patch_in_channel _ _ _).
  set (w := on_room (setMicrophoneEnabled true) s) in t.
  assert (room w = Some (setMicrophoneEnabled true r)) as Hw by (unfold w; cbn; by rewrite Hr).
  destruct (patch_keeps (local_identity r) (muted false) w) as (Ec & _ & Er).
  fold t in Ec, Er. rewrite Hw in Er. change (call w) with (call s) in Ec.
  destruct (undeafen t _ Er) as (r' & _ & Eu & _ & Hm & _ & _ & Hf); [by rewrite Ec|].
  exists r'. rewrite Ec, Hpre in Hm, Hf. rewrite mic_set in Hm. split; [done|]. split; [done|].
  rewrite identity_mic in Hf. rewrite (Hf c) by (unfold in_channel; by rewrite Ec).
  destruct Hin as [b Hb]. destruct Hc as [Hc Hne]. unfold t, patch_in_channel, flags.
  change (call w) with (call s). change (members w) with (members s).
  rewrite Hc, bool_decide_eq_false_2 by done. cbn. rewrite lookup_alter, decide_True by done.
  revert Hb. unfold flags. destruct (VoiceParticipants.byChannel (members s) !! c) as [l|]; [|done].
  cbn. rewrite find_key_modify by done. rewrite decide_True by done.
  by destruct (find_key _ _ l).
Qed.
End facts.

(** ** Concrete inputs, with the toy operations and a room that is a record *)

#[local] Existing Instance toy.

Record ToyRoom := {
  t_mic : bool;
  t_remotes : list string;
  t_volumes : string → Source → number;
  t_heard : string → Source → number;
}.
(** A participant called "ghost" has no gain node. *)
Definition toy_ready (i : string) : bool := negb (bool_decide (i = "ghost")).
Definition toy_room : LiveKit ToyRoom :=
  {| local_identity := λ _, "me"; isMicrophoneEnabled := t_mic;
     setMicrophoneEnabled := λ b r, {| t_mic := b; t_remotes := t_remotes r;
       t_volumes := t_volumes r; t_heard := t_heard r |};
     remoteParticipants := t_remotes; volume := λ i t r, t_volumes r i t;
     ready := λ i _ _, toy_ready i;
     setVolume := λ i v t r, if toy_ready i then Some {| t_mic := t_mic r; t_remotes := t_remotes r;
       t_volumes := λ j u, if decide (j = i ∧ u = t) then v else t_volumes r j u;
       t_heard := t_heard r |} else None;
     heard := λ i t r, t_heard r i t;
     attach := λ i t r, {| t_mic := t_mic r; t_remotes := t_remotes r; t_volumes := t_volumes r;
       t_heard := λ _ _, if Num.eqn (t_volumes r i t) Num.zero then Num.one
                         else t_volumes r i t |};
     publishData := λ _ r, r |}.
#[local] Existing Instance toy_room.
Lemma toy_room_laws : LiveKitLaws ToyRoom.
Proof.
  split; try done.
  - intros i v t r. cbn. by destruct (toy_ready i).
  - intros i v t r r' _. cbn. destruct (toy_ready i); [|done]. by intros [= <-].
Qed.
#[local] Existing Instance toy_room_laws.




