(* ===== verification/Views.v ===== *)
(** * What the views make of the stores ([ui/components/])

    Three computations between the stores and the screen: the messages of members who
    join one after the other are shown as one ([chat/ChannelView.tsx]), members are listed
    under their highest role ([chat/MemberList.tsx]), and the permissions of a role in a
    channel are edited key by key ([settings/ChannelOverrideEditor.tsx]). *)

From S2P Require Export Permissions Models Json.
From S2P Require Import Crypto.

Open Scope meza_scope.

(** ** Groups of joins ([groupJoinMessages]) *)

Definition JOIN_GROUP_WINDOW_SECS : Z := 30 * 60.
Definition MEMBER_JOIN : Z := 1.

Record JoinGroup := { jg_userIds : list string; jg_lastCreatedAt : option Timestamp }.
Record JoinGroups := { joinGroups : gmap string JoinGroup; hiddenIds : gset string }.

Definition is_join (m : Message) : bool := (m_type m =? MEMBER_JOIN)%Z.
Definition seconds_of (m : Message) : Z :=
  match m_createdAt m with Some t => ts_seconds t | None => 0 end.
Definition within_window (prev cur : Message) : bool :=
  (Z.abs (seconds_of cur - seconds_of prev) <=? JOIN_GROUP_WINDOW_SECS)%Z.

Section joins.
Context (parse : string → result unit json).

(** An empty id is not pushed. *)
Definition parseJoinUserId (raw : bytes) : option string :=
  match parse (from_utf8 raw) with
  | Ok obj => match json_get "user_id" (Some obj) with Some (JStr s) => Some s | _ => None end
  | Throw _ => None
  end.
Definition joined_user (m : Message) : option string :=
  match parseJoinUserId (m_encryptedContent m) with
  | Some uid => if bool_decide (uid = "") then None else Some uid
  | None => None
  end.

(** The end of a group: [messages[groupStartIdx .. groupEnd)] *)
Definition end_group (group : list Message) (r : JoinGroups) : JoinGroups :=
  if length group <? 2 then r
  else
    match group with
    | firstMsg :: others =>
        let userIds := omap joined_user group in
        {| joinGroups :=
             if 2 <=? length userIds then
               <[m_id firstMsg := {| jg_userIds := userIds;
                                     jg_lastCreatedAt := last group ≫= m_createdAt |}]> (joinGroups r)
             else joinGroups r;
           hiddenIds := hiddenIds r ∪ list_to_set (m_id <$> others) |}
    | [] => r
    end.

(** One round of the loop; [i] goes up to the length, where there is no message. *)
Definition group_step (messages : list Message) (s : option nat * JoinGroups) (i : nat)
    : option nat * JoinGroups :=
  let '(groupStartIdx, r) := s in
  let msg := messages !! i in
  let isJoin := match msg with Some m => is_join m | None => false end in
  let withinWindow :=
    match groupStartIdx, msg, messages !! (i - 1) with
    | Some _, Some m, Some prev => isJoin && within_window prev m
    | _, _, _ => false
    end in
  match groupStartIdx with
  | None => (if isJoin then Some i else None, r)
  | Some start =>
      if isJoin && withinWindow then (Some start, r)
      else (if isJoin then Some i else None, end_group (take (i - start) (drop start messages)) r)
  end.
Definition groupJoinMessages (messages : list Message) : JoinGroups :=
  (foldl (group_step messages) (None, {| joinGroups := ∅; hiddenIds := ∅ |})
     (seq 0 (length messages + 1))).2.
End joins.

(** ** Members by role *)

Record RoleGroup := {
  rg_roleId : option string;
  rg_roleName : string;
  rg_roleColor : Z;
  rg_rolePosition : Z;
  rg_members : list string;   (** their ids; names and pictures are looked up *)
}.
Definition push_member (uid : string) (g : RoleGroup) : RoleGroup :=
  {| rg_roleId := rg_roleId g; rg_roleName := rg_roleName g; rg_roleColor := rg_roleColor g;
     rg_rolePosition := rg_rolePosition g; rg_members := rg_members g ++ [uid] |}.

(** The highest of the roles that are known, the first of those that are equally high *)
Definition highest_role (roleMap : gmap string Role) (ids : list string) : option Role :=
  foldl (λ highest id,
    match roleMap !! id with
    | Some role =>
        match highest with
        | Some h => if (r_position h <? r_position role)%Z then Some role else highest
        | None => Some role
        end
    | None => highest
    end) None ids.
Definition new_group (r : option Role) : RoleGroup :=
  {| rg_roleId := r_id <$> r; rg_roleName := or_default "Members" (r_name <$> r);
     rg_roleColor := or_default 0%Z (r_color <$> r);
     rg_rolePosition := or_default (-1)%Z (r_position <$> r); rg_members := [] |}.
Definition add_to_group (roleMap : gmap string Role) (groups : list RoleGroup) (m : Member)
    : list RoleGroup :=
  let highestRole := highest_role roleMap (mb_roleIds m) in
  let groupKey := r_id <$> highestRole in
  let groups :=
    if has_key rg_roleId groupKey groups then groups else groups ++ [new_group highestRole] in
  modify_key rg_roleId groupKey (push_member (mb_userId m)) groups.
Definition role_map (roles : list Role) : gmap string Role :=
  list_to_map (reverse ((λ r, (r_id r, r)) <$> roles)).
Definition by_rolePosition : RoleGroup → RoleGroup → Z := cmp_desc rg_rolePosition.
#[export] Instance by_rolePosition_comparator : Comparator by_rolePosition.
Proof. apply cmp_desc_comparator. Qed.
Definition member_groups (roles : list Role) (members : list Member) : list RoleGroup :=
  js_sort by_rolePosition (foldl (add_to_group (role_map roles)) [] members).

(** ** Editing the permissions of an override ([usePermissionEditor]) *)

Inductive TriState := allowed | denied | neutral.
Record Editor := {
  allow : Z;
  deny : Z;
  externalChange : bool;
  (** the values of the override that is edited *)
  initialAllow : Z;
  initialDeny : Z;
}.
Definition open_editor (a d : Z) : Editor :=
  {| allow := a; deny := d; externalChange := false; initialAllow := a; initialDeny := d |}.
Definition isDirty (e : Editor) : bool :=
  negb (allow e =? initialAllow e)%Z || negb (deny e =? initialDeny e)%Z.
Definition getState (k : PermissionKey) (e : Editor) : TriState :=
  if negb (Z.land (allow e) (Permissions k) =? 0)%Z then allowed
  else if negb (Z.land (deny e) (Permissions k) =? 0)%Z then denied
  else neutral.
Definition setState (k : PermissionKey) (s : TriState) (e : Editor) : Editor :=
  let bit := Permissions k in
  let cleared x := Z.land x (Z.lnot bit) in
  {| allow := match s with allowed => Z.lor (cleared (allow e)) bit | _ => cleared (allow e) end;
     deny := match s with denied => Z.lor (cleared (deny e)) bit | _ => cleared (deny e) end;
     externalChange := externalChange e;
     initialAllow := initialAllow e; initialDeny := initialDeny e |}.
(** The values of the override have changed, and the effect that depends on them runs. *)
Definition override_changes (a d : Z) (e : Editor) : Editor :=
  let dirty := negb (allow e =? a)%Z || negb (deny e =? d)%Z in
  if dirty then
    {| allow := allow e; deny := deny e; externalChange := true;
       initialAllow := a; initialDeny := d |}
  else
    {| allow := a; deny := d; externalChange := externalChange e;
       initialAllow := a; initialDeny := d |}.
(** [reset] and [acceptExternal] *)
Definition reset_editor (e : Editor) : Editor := open_editor (initialAllow e) (initialDeny e).

(** ** Joins: the loop against runs *)

(** The maximal runs of joins each of which is near enough to the one before *)
Fixpoint runs (l : list Message) : list (list Message) :=
  match l with
  | [] => []
  | m :: l' =>
      if is_join m then
        match head l', runs l' with
        | Some m', r :: rs =>
            if is_join m' && within_window m m' then (m :: r) :: rs else [m] :: r :: rs
        | _, rs => [m] :: rs
        end
      else runs l'
  end.
Lemma runs_cons m l :
  runs (m :: l) =
    if is_join m then
      match head l, runs l with
      | Some m', r :: rs =>
          if is_join m' && within_window m m' then (m :: r) :: rs else [m] :: r :: rs
      | _, rs => [m] :: rs
      end
    else runs l.
Proof. done. Qed.
(** What follows does not continue a run that ends with [x]. *)
Definition breaks (x : Message) (rest : list Message) : Prop :=
  match rest with [] => True | m :: _ => is_join m && within_window x m = false end.
Definition chain (l : list Message) : Prop :=
  Forall (λ m, is_join m = true) l ∧
  ∀ i x y, l !! i = Some x → l !! S i = Some y → within_window x y = true.

Lemma chain_cons m m' l :
  chain (m :: m' :: l) ↔ is_join m = true ∧ within_window m m' = true ∧ chain (m' :: l).
Proof.
  unfold chain. split.
  - intros [Hj Hw]. apply Forall_cons in Hj as [Hm Hj]. split; [done|]. split; [by apply (Hw 0)|].
    split; [done|]. intros i. apply (Hw (S i)).
  - intros (Hm & Hw & Hj & Hws). split; [by constructor|].
    intros [|i] x y; [by intros [= <-] [= <-]|]. apply Hws.
Qed.
Lemma runs_head m l : is_join m = true → ∃ r rs, runs (m :: l) = (m :: r) :: rs.
Proof.
  intros Hm. rewrite runs_cons, Hm. destruct (head l) as [m'|]; [|by do 2 eexists].
  destruct (runs l) as [|r rs]; [by do 2 eexists|].
  destruct (is_join m' && within_window m m'); by do 2 eexists.
Qed.
Lemma runs_chain cur x rest :
  chain cur → last cur = Some x → breaks x rest → runs (cur ++ rest) = cur :: runs rest.
Proof.
  revert x. induction cur as [|m [|m' cur] IH]; intros x Hc Hl Hb; [done| |].
  - destruct Hc as [[Hm _]%Forall_cons _]. injection Hl as <-. cbn [app]. rewrite runs_cons, Hm.
    destruct rest as [|m' rest]; [done|]. unfold breaks in Hb. cbn [head].
    destruct (runs (m' :: rest)); [done|]. by rewrite Hb.
  - apply chain_cons in Hc as (Hm & Hw & Hc).
    assert (runs ((m' :: cur) ++ rest) = (m' :: cur) :: runs rest) as E by by apply (IH x).
    assert (is_join m' = true) as Hm' by (destruct Hc as [[? _]%Forall_cons _]; done).
    change ((m :: m' :: cur) ++ rest) with (m :: ((m' :: cur) ++ rest)).
    rewrite runs_cons, Hm, E. cbn [app head]. by rewrite Hm', Hw.
Qed.
Lemma chain_snoc cur x m :
  chain cur → last cur = Some x → is_join m = true → within_window x m = true →
  chain (cur ++ [m]).
Proof.
  revert x. induction cur as [|y [|y' cur] IH]; intros x Hc Hl Hm Hw; [done| |].
  - injection Hl as <-. destruct Hc as [[Hy _]%Forall_cons _]. cbn [app].
    apply chain_cons. split; [done|]. split; [done|]. split; [by constructor|].
    intros [|i]; done.
  - apply chain_cons in Hc as (Hy & Hw' & Hc). cbn [app]. apply chain_cons.
    split; [done|]. split; [done|]. by apply (IH x).
Qed.
Lemma chain_one m : is_join m = true → chain [m].
Proof. intros Hm. split; [by constructor|]. by intros [|]. Qed.

Section loop.
Context (parse : string → result unit json).
#[local] Notation group_step := (group_step parse).
#[local] Notation end_group := (end_group parse).

Lemma loop_runs l i cur r st :
  i + length (drop i l) = length l →
  (match st with
   | None => cur = []
   | Some start => start + length cur = i ∧ cur = take (i - start) (drop start l) ∧
       chain cur ∧ cur ≠ []
   end) →
  (foldl (group_step l) (st, r) (seq i (length (drop i l) + 1))).2 =
    foldl (λ r g, end_group g r) r (runs (cur ++ drop i l)).
Proof.
  remember (drop i l) as rest eqn:Er. revert i cur r st Er.
  induction rest as [|m rest IH]; intros i cur r st Er Hi Hst.
  - (* the round after the last message *)
    cbn [length seq foldl Nat.add]. unfold Views.group_step.
    assert (l !! i = None) as -> by (apply lookup_ge_None; cbn in Hi; lia).
    destruct st as [start|]; cbn [snd andb].
    + destruct Hst as (_ & Hcur & Hch & Hne). destruct (last cur) as [x|] eqn:El.
      2: by apply last_None in El.
      rewrite (runs_chain cur x []) by done. cbn. by rewrite <-Hcur.
    + by rewrite Hst.
  - assert (l !! i = Some m) as Hm.
    { rewrite <-(Nat.add_0_r i), <-lookup_drop, <-Er. done. }
    assert (rest = drop (S i) l) as Er'.
    { by rewrite <-Nat.add_1_r, <-drop_drop, <-Er. }
    cbn [length Nat.add seq foldl]. cbn [length] in Hi.
    destruct st as [start|].
    + destruct Hst as (Hs & Hcur & Hch & Hne). destruct (last cur) as [x|] eqn:El.
      2: by apply last_None in El.
      assert (l !! (i - 1) = Some x) as Hx.
      { rewrite last_lookup, Hcur, lookup_take_Some, lookup_drop in El. destruct El as [El _].
        rewrite <-Hcur in El. destruct cur; [done|]. cbn in El, Hs.
        rewrite <-El. f_equal. lia. }
      assert (group_step l (Some start, r) i =
        (if is_join m && within_window x m then (Some start, r)
         else (if is_join m then Some i else None, end_group cur r))) as ->.
      { unfold Views.group_step. rewrite Hm, Hx, <-Hcur. by destruct (is_join m). }
      destruct (is_join m && within_window x m) eqn:E.
      * apply andb_true_iff in E as [Hj Hw].
        rewrite (IH (S i) (cur ++ [m]) r (Some start)); [by rewrite <-app_assoc|done|lia|].
        split; [rewrite length_app; cbn; lia|]. split; [|split; [by apply (chain_snoc cur x)|by destruct cur]].
        rewrite Hcur. replace (S i - start) with (S (i - start)) by (destruct cur; cbn in Hs; [done|lia]).
        symmetry. apply take_S_r. rewrite lookup_drop, <-Hm. f_equal. lia.
      * rewrite (runs_chain cur x (m :: rest)) by done. cbn [foldl].
        destruct (is_join m) eqn:Hj.
        -- apply (IH (S i) [m] _ (Some i)); [done|lia|]. split; [cbn; lia|].
           split; [|split; [by apply chain_one|done]].
           replace (S i - i) with 1 by lia. by rewrite <-Er.
        -- rewrite (IH (S i) [] _ None); [|done|lia|done]. cbn [app]. by rewrite runs_cons, Hj.
    + subst cur. assert (group_step l (None, r) i = (if is_join m then Some i else None, r)) as ->.
      { unfold Views.group_step. by rewrite Hm. }
      destruct (is_join m) eqn:Hj.
      * apply (IH (S i) [m] r (Some i)); [done|lia|]. split; [cbn; lia|].
        split; [|split; [by apply chain_one|done]].
        replace (S i - i) with 1 by lia. by rewrite <-Er.
      * rewrite (IH (S i) [] r None); [|done|lia|done]. cbn [app]. by rewrite runs_cons, Hj.
Qed.

Lemma runs_concat l : concat (runs l) = filter (λ m, is_join m = true) l.
Proof.
  induction l as [|m l IH]; [done|]. rewrite filter_cons, runs_cons.
  destruct (is_join m) eqn:Hm; [|done]. rewrite decide_True by done. rewrite <-IH.
  destruct (head l) as [m'|]; [|done]. destruct (runs l) as [|r rs]; [done|].
  by destruct (is_join m' && within_window m m').
Qed.
Lemma runs_chains l : Forall chain (runs l).
Proof.
  induction l as [|m l IH]; [constructor|]. rewrite runs_cons. destruct (is_join m) eqn:Hm; [|done].
  destruct l as [|m' l]; [by repeat constructor; try apply chain_one|]. cbn [head].
  destruct (is_join m') eqn:Hm'.
  - destruct (runs_head m' l Hm') as (r & rs & E). rewrite E in IH |- *.
    apply Forall_cons in IH as [Hr IH]. destruct (within_window m m') eqn:Hw; cbn [andb].
    + constructor; [|done]. by apply chain_cons.
    + constructor; [by apply chain_one|]. by constructor.
  - cbn [andb]. destruct (runs (m' :: l)); constructor; by try apply chain_one.
Qed.

Lemma groups_loop l :
  groupJoinMessages parse l =
    foldl (λ r g, end_group g r) {| joinGroups := ∅; hiddenIds := ∅ |} (runs l).
Proof.
  unfold groupJoinMessages. pose proof (loop_runs l 0 [] {| joinGroups := ∅; hiddenIds := ∅ |} None) as Hl.
  rewrite drop_0 in Hl. by rewrite Hl.
Qed.

(** C38: the loop over the messages of a channel groups the joins of its maximal runs: the
    joins, each of which is within half an hour (1800 seconds, before or after) of the one
    before, with nothing between them.  Every join is in one of these runs, in its place.  A run of one stays as it is;
    the others are hidden but for their first message, and shown with it as one group if
    at least two of their users can be told. *)
Theorem join_groups_runs l :
  groupJoinMessages parse l =
    foldl (λ r g, end_group g r) {| joinGroups := ∅; hiddenIds := ∅ |} (runs l) ∧
  concat (runs l) = filter (λ m, is_join m = true) l ∧ Forall chain (runs l) ∧
  (∀ x y, within_window x y = true ↔ (-1800 ≤ seconds_of y - seconds_of x ≤ 1800)%Z) ∧
  (∀ g r, let r' := end_group g r in
    match g with
    | m :: (_ :: _) as others =>
        hiddenIds r' = hiddenIds r ∪ list_to_set (m_id <$> tail g) ∧
        joinGroups r' !! m_id m =
          (if 2 <=? length (omap (joined_user parse) g)
           then Some {| jg_userIds := omap (joined_user parse) g;
                        jg_lastCreatedAt := last g ≫= m_createdAt |}
           else joinGroups r !! m_id m)
    | _ => r' = r
    end).
Proof.
  split; [apply groups_loop|split; [apply runs_concat|split; [apply runs_chains|]]].
  split; [intros x y; unfold within_window, JOIN_GROUP_WINDOW_SECS; rewrite Z.leb_le; lia|].
  intros [|m [|m' g]] r; [done|done|]. cbv zeta. unfold Views.end_group.
  change (length (m :: m' :: g) <? 2) with false. cbv iota. cbn [tail hiddenIds joinGroups].
  split; [done|]. destruct (2 <=? _); [apply lookup_insert_eq|done].
Qed.

(** When the users of two joins cannot be told, the second is hidden and shown nowhere. *)
Lemma hidden_without_group m1 m2 :
  is_join m1 = true → is_join m2 = true → within_window m1 m2 = true →
  joined_user parse m1 = None →
  groupJoinMessages parse [m1; m2] = {| joinGroups := ∅; hiddenIds := {[m_id m2]} |}.
Proof.
  intros H1 H2 Hw Hu. rewrite groups_loop, !runs_cons, H1, H2. cbn [head runs]. rewrite H2, Hw. cbn [andb foldl]. unfold Views.end_group.
  cbn. rewrite Hu. destruct (joined_user parse m2); cbn; f_equal; set_solver.
Qed.
End loop.

(** ** Members under their highest role *)

#[local] Notation key_in roles m := (r_id <$> highest_role roles (mb_roleIds m)).

Lemma highest_role_spec roles ids :
  match highest_role roles ids with
  | Some r => (∃ id, id ∈ ids ∧ roles !! id = Some r) ∧
      (∀ id r', id ∈ ids → roles !! id = Some r' → (r_position r' ≤ r_position r)%Z)
  | None => ∀ id, id ∈ ids → roles !! id = None
  end.
Proof.
  unfold highest_role. induction ids as [|id ids IH] using rev_ind.
  { cbn. intros id []%not_elem_of_nil. }
  rewrite foldl_app. cbn [foldl]. destruct (foldl _ None ids) as [h|].
  - destruct IH as [(i & Hi & Hr) Hmax]. destruct (roles !! id) as [role|] eqn:E.
    + destruct (Z.ltb_spec (r_position h) (r_position role)); split.
      * exists id. rewrite E. set_solver.
      * intros i' r' [Hi'|Hi'%list_elem_of_singleton]%elem_of_app Hr'; [|subst; simplify_eq; lia].
        specialize (Hmax i' r' Hi' Hr'). lia.
      * exists i. set_solver.
      * intros i' r' [Hi'|Hi'%list_elem_of_singleton]%elem_of_app Hr'; [by eapply Hmax|].
        subst. simplify_eq. lia.
    + split; [exists i; set_solver|].
      intros i' r' [Hi'|Hi'%list_elem_of_singleton]%elem_of_app Hr'; [by eapply Hmax|congruence].
  - destruct (roles !! id) as [role|] eqn:E.
    + split; [exists id; set_solver|].
      intros i' r' [Hi'|Hi'%list_elem_of_singleton]%elem_of_app Hr'.
      * by rewrite IH in Hr'.
      * subst. by simplify_eq.
    + intros i [Hi|Hi%list_elem_of_singleton]%elem_of_app; [by apply IH|by subst].
Qed.

Lemma elem_of_modify_key {A K} `{EqDecision K} (key : A → K) k f (l : list A) x :
  NoDup (key <$> l) → x ∈ modify_key key k f l →
  ∃ y, y ∈ l ∧ x = if decide (key y = k) then f y else y.
Proof.
  induction l as [|z l IH]; [by intros _ ?%not_elem_of_nil|].
  rewrite modify_key_cons, fmap_cons, NoDup_cons. intros [Hz Hl]. destruct (decide (key z = k)) as [Ez|Ez].
  - intros [ -> |Hx]%elem_of_cons.
    + exists z. rewrite decide_True by done. split; [by left|done].
    + exists x. split; [by right|]. rewrite decide_False; [done|]. intros Ex. apply Hz.
      rewrite Ez, <-Ex. by apply list_elem_of_fmap_2.
  - intros [ -> |Hx]%elem_of_cons.
    + exists z. rewrite decide_False by done. split; [by left|done].
    + destruct (IH Hl Hx) as (y & Hy & ->). exists y. split; [by right|done].
Qed.

(** The groups so far: one for every role that is the highest of someone, with the
    members it is the highest of *)
Record grouped (roles : gmap string Role) (ms : list Member) (gs : list RoleGroup) : Prop := {
  gr_keys : NoDup (rg_roleId <$> gs);
  gr_members : ∀ g, g ∈ gs →
    rg_members g = mb_userId <$> filter (λ m, key_in roles m = rg_roleId g) ms ∧
    ∃ m, m ∈ ms ∧ let n := new_group (highest_role roles (mb_roleIds m)) in
      rg_roleId g = rg_roleId n ∧ rg_roleName g = rg_roleName n ∧
      rg_roleColor g = rg_roleColor n ∧ rg_rolePosition g = rg_rolePosition n;
  gr_all : ∀ m, m ∈ ms → key_in roles m ∈ rg_roleId <$> gs;
}.

Lemma grouped_add roles ms gs m :
  grouped roles ms gs → grouped roles (ms ++ [m]) (add_to_group roles gs m).
Proof.
  intros [Hk Hm Ha]. unfold add_to_group. set (h := highest_role roles (mb_roleIds m)).
  set (gs' := if has_key rg_roleId (r_id <$> h) gs then gs else gs ++ [new_group h]).
  assert (NoDup (rg_roleId <$> gs') ∧ (r_id <$> h) ∈ rg_roleId <$> gs' ∧
    (∀ k, k ∈ rg_roleId <$> gs → k ∈ rg_roleId <$> gs') ∧
    ∀ g, g ∈ gs' →
      rg_members g = mb_userId <$> filter (λ m, key_in roles m = rg_roleId g) ms ∧
      ∃ m', m' ∈ ms ++ [m] ∧ let n := new_group (highest_role roles (mb_roleIds m')) in
      rg_roleId g = rg_roleId n ∧ rg_roleName g = rg_roleName n ∧
      rg_roleColor g = rg_roleColor n ∧ rg_rolePosition g = rg_rolePosition n) as (Hk' & Hin & Hsub & Hm').
  { unfold gs'. destruct (has_key rg_roleId (r_id <$> h) gs) eqn:E.
    - split; [done|]. split; [by apply bool_decide_eq_true in E|]. split; [done|].
      intros g Hg. destruct (Hm g Hg) as (H1 & m' & H2 & H3). split; [done|].
      exists m'. split; [|done]. apply elem_of_app. by left.
    - split; [|split; [|split]].
      + by apply NoDup_push.
      + rewrite fmap_app. apply elem_of_app. right. by left.
      + intros k Hk1. rewrite fmap_app. apply elem_of_app. by left.
      + apply has_key_false in E.
        intros g [Hg| ->%list_elem_of_singleton]%elem_of_app.
        * destruct (Hm g Hg) as (H1 & m' & H2 & H3). split; [done|].
          exists m'. split; [|done]. apply elem_of_app. by left.
        * split; [|exists m; split; [apply elem_of_app; right; by left|done]].
          cbn. rewrite filter_none; [done|]. apply Forall_forall. intros m' Hm' Hkey. apply E.
          rewrite <-Hkey. by apply Ha. }
  clearbody gs'. split.
  - by rewrite modify_key_keys.
  - intros g Hg. destruct (elem_of_modify_key _ _ _ _ _ Hk' Hg) as (g0 & Hg0 & ->).
    destruct (Hm' g0 Hg0) as (H1 & m' & H2 & H3). rewrite filter_app, fmap_app.
    destruct (decide (rg_roleId g0 = r_id <$> h)) as [E|E]; cbn [rg_members rg_roleId push_member].
    + split; [|by exists m']. rewrite H1. f_equal. rewrite filter_cons, decide_True; [done|].
      by rewrite E.
    + split; [|by exists m']. rewrite H1, filter_cons, decide_False; [by rewrite app_nil_r|].
      intros E'. by apply E.
  - intros m' Hm1. rewrite modify_key_keys by done.
    apply elem_of_app in Hm1 as [Hm1| ->%list_elem_of_singleton]; [by apply Hsub, Ha|done].
Qed.

(** Groups are listed by descending position. *)
Lemma positions_descend roles members i j g g' :
  i < j → member_groups roles members !! i = Some g →
  member_groups roles members !! j = Some g' → (rg_rolePosition g' ≤ rg_rolePosition g)%Z.
Proof.
  unfold member_groups. set (l := foldl _ [] members). intros Hij Hi Hj.
  assert (cmp_sorted by_rolePosition (js_sort by_rolePosition l)) as Hs
    by exact (js_sort_sorted by_rolePosition _).
  rewrite <-(take_drop_middle _ i g Hi) in Hs.
  apply StronglySorted_app in Hs as (_ & _ & [Hall _]%StronglySorted_cons).
  rewrite Forall_forall in Hall. specialize (Hall g').
  unfold by_rolePosition, cmp_desc in Hall.
  assert (g' ∈ drop (S i) (js_sort by_rolePosition l)) as Hin; [|specialize (Hall Hin); lia].
  apply list_elem_of_lookup. exists (j - S i). rewrite lookup_drop. rewrite <-Hj. f_equal. lia.
Qed.

Lemma groups_grouped roles members :
  grouped (role_map roles) members (member_groups roles members).
Proof.
  assert (grouped (role_map roles) members (foldl (add_to_group (role_map roles)) [] members)) as [H1 H2 H3].
  { induction members as [|m ms IH] using rev_ind.
    - split; [constructor|by intros ? ?%not_elem_of_nil|by intros ? ?%not_elem_of_nil].
    - rewrite foldl_app. by apply grouped_add. }
  unfold member_groups. split.
  - by rewrite js_sort_perm.
  - intros g Hg. apply H2. by rewrite js_sort_perm in Hg.
  - intros m Hm. rewrite js_sort_perm. by apply H3.
Qed.

Lemma role_map_elem roles id r : role_map roles !! id = Some r → r ∈ roles.
Proof.
  unfold role_map. intros Hr%elem_of_list_to_map_2.
  rewrite elem_of_reverse in Hr. by apply list_elem_of_fmap in Hr as (r' & [= -> ->] & Hr).
Qed.
(** The position of a group is that of its role, and -1 without one. *)
Lemma position_sign roles members g :
  Forall (λ r, 0 ≤ r_position r)%Z roles → g ∈ member_groups roles members →
  (rg_roleId g = None → rg_rolePosition g = -1)%Z ∧
  (rg_roleId g ≠ None → 0 ≤ rg_rolePosition g)%Z.
Proof.
  intros Hpos Hg.
  destruct (proj2 (gr_members _ _ _ (groups_grouped roles members) g Hg))
    as (m & _ & -> & _ & _ & ->).
  pose proof (highest_role_spec (role_map roles) (mb_roleIds m)) as Hh. cbn.
  destruct (highest_role _ _) as [r|]; [|by split].
  split; [done|]. intros _. cbn. rewrite Forall_forall in Hpos. apply Hpos.
  destruct Hh as [(id & _ & Hr) _]. by eapply role_map_elem.
Qed.
Lemma memberless_last roles members i g :
  Forall (λ r, 0 ≤ r_position r)%Z roles → member_groups roles members !! i = Some g →
  rg_roleId g = None → i = length (member_groups roles members) - 1.
Proof.
  intros Hpos Hi Hn. pose proof (lookup_lt_Some _ _ _ Hi) as Hlt.
  destruct (member_groups roles members !! S i) as [g'|] eqn:Hj.
  2: { apply lookup_ge_None in Hj. lia. }
  exfalso. pose proof (positions_descend roles members i (S i) g g' ltac:(lia) Hi Hj) as Hle.
  destruct (position_sign roles members g Hpos ltac:(by eapply list_elem_of_lookup_2)) as [Hg _].
  destruct (position_sign roles members g' Hpos ltac:(by eapply list_elem_of_lookup_2)) as [_ Hg'].
  rewrite (Hg Hn) in Hle. destruct (decide (rg_roleId g' = None)) as [Hn'|Hn'].
  - pose proof (gr_keys _ _ _ (groups_grouped roles members)) as Hnd.
    assert (i = S i); [|lia]. apply (NoDup_lookup _ _ _ None Hnd); rewrite list_lookup_fmap.
    + rewrite Hi. cbn. by rewrite Hn.
    + rewrite Hj. cbn. by rewrite Hn'.
  - specialize (Hg' Hn'). lia.
Qed.

(** C39: every member is listed once, under the highest of their roles.  The groups are those
    of different roles, each with the name, colour and position of its role; the position
    never grows from one group to the next, and if no role has a negative position those
    who have none of the known roles are together in the last group, under Members.  The
    members of a group are in the order of the member list. *)
Theorem members_grouped roles members :
  let gs := member_groups roles members in
  grouped (role_map roles) members gs ∧
  (∀ i j g g', i < j → gs !! i = Some g → gs !! j = Some g' →
     (rg_rolePosition g' ≤ rg_rolePosition g)%Z) ∧
  (Forall (λ r, 0 ≤ r_position r)%Z roles → ∀ i g,
     gs !! i = Some g → rg_roleId g = None → i = length gs - 1 ∧ rg_roleName g = "Members") ∧
  (∀ m, m ∈ members →
    match highest_role (role_map roles) (mb_roleIds m) with
    | Some r => (∃ id, id ∈ mb_roleIds m ∧ role_map roles !! id = Some r) ∧
        (∀ id r', id ∈ mb_roleIds m → role_map roles !! id = Some r' →
           (r_position r' ≤ r_position r)%Z)
    | None => ∀ id, id ∈ mb_roleIds m → role_map roles !! id = None
    end).
Proof.
  intros gs. pose proof (groups_grouped roles members) as Hg. fold gs in Hg. split_and!.
  - done.
  - intros i j g g'. apply positions_descend.
  - intros Hpos i g Hi Hn. split; [by apply (memberless_last roles members i g)|].
    destruct (proj2 (gr_members _ _ _ Hg g ltac:(by eapply list_elem_of_lookup_2)))
      as (m & _ & Hk & -> & _). rewrite Hn in Hk. cbn in Hk |- *.
    by destruct (highest_role _ _).
  - intros m _. apply highest_role_spec.
Qed.

(** ** The editor of permissions *)

(** Nothing is both allowed and denied. *)
Definition disjoint (e : Editor) : Prop := Z.land (allow e) (deny e) = 0%Z.

Lemma cleared_bit x k i :
  (0 ≤ i)%Z →
  Z.testbit (Z.land x (Z.lnot (Permissions k))) i =
    Z.testbit x i && negb (i =? permission_bit k)%Z.
Proof.
  intros Hi. rewrite Z.land_spec, Z.lnot_spec, Permissions_spec by done. by rewrite Z.eqb_sym.
Qed.

(** a permission that is set to a state has that state and the others keep theirs; and an
    override that allows and denies different permissions stays one. *)
Theorem editor_sets k s e :
  getState k (setState k s e) = s ∧
  (∀ k', permission_bit k' ≠ permission_bit k → getState k' (setState k s e) = getState k' e) ∧
  (disjoint e → disjoint (setState k s e)).
Proof.
  pose proof (permission_bit_range k) as Hk.
  assert (∀ x i b, (0 ≤ i)%Z → Z.testbit (if b : bool then Z.lor (Z.land x (Z.lnot (Permissions k)))
    (Permissions k) else Z.land x (Z.lnot (Permissions k))) i =
    if (i =? permission_bit k)%Z then b else Z.testbit x i) as Hbit.
  { intros x i b Hi. destruct b; rewrite ?Z.lor_spec, cleared_bit, ?Permissions_spec by done;
      destruct (Z.eqb_spec i (permission_bit k)) as [ -> |Hne]; rewrite ?Z.eqb_refl, ?andb_false_r; try done.
    all: rewrite ?(proj2 (Z.eqb_neq _ _)) by done; by rewrite andb_true_r, ?orb_false_r. }
  assert (∀ i, (0 ≤ i)%Z → Z.testbit (allow (setState k s e)) i =
    (if (i =? permission_bit k)%Z then match s with allowed => true | _ => false end
     else Z.testbit (allow e) i)) as Ha.
  { intros i Hi. destruct s; [apply (Hbit _ i true Hi)|apply (Hbit _ i false Hi)..]. }
  assert (∀ i, (0 ≤ i)%Z → Z.testbit (deny (setState k s e)) i =
    (if (i =? permission_bit k)%Z then match s with denied => true | _ => false end
     else Z.testbit (deny e) i)) as Hd.
  { intros i Hi. destruct s; [apply (Hbit _ i false Hi)|apply (Hbit _ i true Hi)|apply (Hbit _ i false Hi)]. }
  split; [|split].
  - unfold getState. rewrite !land_permission_0, Ha, Hd, Z.eqb_refl by lia. by destruct s.
  - intros k' Hne. pose proof (permission_bit_range k') as Hk'. unfold getState.
    rewrite !land_permission_0, Ha, Hd by lia. by rewrite (proj2 (Z.eqb_neq _ _)).
  - intros He. apply Z.bits_inj'. intros i Hi. rewrite Z.land_spec, Ha, Hd, Z.bits_0 by done.
    destruct (i =? permission_bit k)%Z; [by destruct s|].
    rewrite <-Z.land_spec. unfold disjoint in He. by rewrite He, Z.bits_0.
Qed.

(** When the override is changed by someone else, an editor without changes of its own is
    not brought up to date: it warns, shows the old values and counts as changed, so that
    saving it would undo the change of the other. *)
Lemma clean_editor_not_synced a d a' d' :
  (a', d') ≠ (a, d) →
  let e := override_changes a' d' (open_editor a d) in
  isDirty (open_editor a d) = false ∧ externalChange e = true ∧ allow e = a ∧ deny e = d ∧
  isDirty e = true.
Proof.
  intros Hne e. assert (negb (a =? a')%Z || negb (d =? d')%Z = true) as E.
  { destruct (Z.eqb_spec a a'), (Z.eqb_spec d d'); try done. by subst. }
  unfold isDirty. split; [cbn; by rewrite !Z.eqb_refl|]. unfold e, override_changes. cbn [allow deny open_editor].
  rewrite E. split_and!; try done.
Qed.
